(* ===== verification/_CoqProject ===== *)
-Q . S2P
Prelude.v
Ranges.v
Bits.v
Condvar.v
SixLock.v
SixLockSafety.v
SixLockOrder.v
State.v
DList.v
DListSpec.v
AtomicList.v
KScatter.v
KScatterBio.v
KScatterDma.v
KScatterCopy.v
KScatterDump.v
KBio.v
KBioSpec.v
KPlug.v
KDisk.v
KDiskSpec.v
KBioDisk.v
KBioSystem.v
KDiskWait.v
KDiskWaitSpec.v
KMq.v
Kinfo.v
KinfoSpec.v
KinfoRemove.v
KinfoSystem.v
KinfoThreads.v
KinfoData.v
KinfoPath.v
KinfoWalk.v
KinfoProc.v
KinfoProcSpec.v
KinfoSeq.v
KFile.v
KCpu.v
KCpuSpec.v
KTime.v
KSpin.v
KPci.v
KMain.v
KScsi.v
KScsiSpec.v
KScsiRoute.v
KScsiHost.v
KScsiHostSpec.v
ArchOps.v
ArchMsc.v
ArchGcc.v
ArchAsm.v
ArchPpc.v
ArchSpec.v
KHotplug.v
KCdev.v
KWire.v
KWireSpec.v
KCommon.v
KString.v
KMsg.v
KErrno.v
KMem.v
KPciBar.v
KBdev.v
KTsc.v
KCpuThread.v
KPciIrq.v
KWork.v
