(* ===== verification/Prelude.v ===== *)
(** * The port layer of the iomemory-vsl4 driver: a verification library

    iomemory-vsl4 is a Linux driver for flash cards.  Its core is shipped as
    object files; the source in src/ is the port layer between that core and the
    kernel.  The C files below are those of src/root/usr/src/iomemory-vsl4-4.3.7
    and the headers those of its include/fio/port.

    ** Files

    - Prelude (this file): machine words ([u32], [s32], ..., with the bounds
      [in_u] and [in_s]), fallible computations ([outcome]: a value or one of the
      faults a C program can make, among them running out of fuel), a state monad
      over them ([stateful]), sums over lists.
    - Ranges: ranges.h.  Block ranges with 64-bit wrap-around.
    - Bits: bitops.h and byteswap.h.  Bit counts, bit searches, rounding, byte order.
    - Condvar: kcondvar.c.  [WaitQueue] and [WaitQueueLaws] are the interface to
      the wait queues of Linux; its clients are proved against it, and [fifo]
      discharges it.
    - SixLock, SixLockSafety, SixLockOrder: six_lock.c.  The critical sections of
      the lock as functions on the semaphore, then [SixLock.exec], any number of
      threads that take turns at them; the invariant and mutual exclusion; tickets,
      the order of conversions, and requests that are never granted.
    - State: state.c and state.h.  State variables and [State.exec], the threads
      that change them and wait for them.
    - DList, DListSpec: list.h.  Pointer writes on a heap, and the machine on
      sequences ([astep]) that they implement.
    - AtomicList: atomic_list.h.  One step per access to shared memory.
    - KScatter, KScatterBio, KScatterDma, KScatterCopy, KScatterDump: kscatter.c.  Building
      a list from buffers and bios, mapping it for DMA, slicing it, reading it back, copying,
      and the lines of its dump.
    - KBio, KBioSpec: the half of kblock.c that turns chains of kernel bios into
      requests of the core, and what a chain becomes.  The queue that a chain is sent to
      is followed to its disk and its block device ([devices]).
    - KPlug: submission, plugging and back-pressure in kblock.c.
    - KDisk, KDiskSpec: the disk in kblock.c: create, expose, open, close, hide; and the
      calls of others at one disk over its life ([use_step]).
    - KBioDisk, KBioSystem: the block device as a transition system in which disks are
      created, exposed, hidden and destroyed, threads submit, the kernel flushes plugs,
      work items run and the core completes requests; what KBio and KPlug find behind a
      queue is what the operations of KDisk left there ([devices_of]).
    - KDiskWait, KDiskWaitSpec: the threads that sleep on the disk's condition variable
      or wake those that do: exposing with its worker, hiding, opening and closing,
      writers that are held off.
    - KMq: the multi-queue path of kblock.c.
    - Kinfo, KinfoSpec, KinfoRemove, KinfoSystem, KinfoThreads: common_kinfo.c and the node
      hooks of kinfo.c and kfile.c.  The tree of information nodes: operations, the
      invariant [tree_wf] ([kinfo_wf] when no node is between allocation and insertion)
      with creation, removal, and the tree over time, with its lists in memory related to
      DListSpec; threads that create and remove nodes at the same time under the lock of
      the tree.
    - KinfoData, KinfoPath, KinfoWalk: handles and printing, full names and their
      lookup, the listing of the tree (common_kinfo.c).
    - KinfoProc, KinfoProcSpec, KinfoSeq: value files, text files and sequential
      files of the proc file system (kinfo.c, kfile.c, kfio_common.c).
    - KFile: kfile.c.  The tables of file operations, the hooks for opening and closing,
      and sessions of a process with a text or a sequential file over [SeqKernel], the
      interface to the seq files of Linux.
    - KTime: ktime.c and ktime.h.  Ticks, microseconds and nanoseconds, comparisons.
    - KSpin: kfio.c and the waits of kcondvar.c.  Spinlocks that remember the interrupt
      state, and the threads that wait under them ([step]); timed waits.
    - KCpu, KCpuSpec: kcpu.c.  The topology, and the map of CPUs to read queues.
    - KPci: pci.c.  The life of a device, its command register, module parameters for
      NUMA nodes, and the slot number from the BIOS.
    - KMain: main.c, kinit.c and the start of kblock.c.  Loading and unloading.
    - KScsi, KScsiSpec, KScsiRoute: kscsi_host.c, kscsi.c.  SCSI commands from the
      mid-layer to the core and back, aborts and resets, how devices and LUs are hooked
      up, and where the commands go while they are.
    - KScsiHost, KScsiHostSpec: kscsi_host.c.  The hosts of the targets, with the calls
      of the core as threads that are cut where the lock is dropped.
    - ArchOps, ArchMsc, ArchGcc, ArchAsm, ArchPpc, ArchSpec: arch/*/atomic.h and bits.h.
      [AtomicOps] and [AtomicLaws] are what the headers promise on words of a width, and
      [CasOps] and [CasLaws] where a compare-and-swap is among it (not on PowerPC); each
      implementation is an instance, and ArchSpec has what follows for threads that share
      a word by any of them.
    - KHotplug: khotplug.c.  Notifiers behind two states of the kernel's hot-plug machine.
    - KCdev: cdev.c.  The character devices of the cards.
    - KWire, KWireSpec: byteswap.h, kcsr.c, unaligned.h, ioctl.h.  What the card sees.
    - KCommon: kfio_common.c, sysrq.c, common-linux/div64.h.  Strings, thread names, failed
      assertions, division where words have 32 bits, keys.
    - KString: kfio_common.c.  Comparing, appending and copying on bytes in memory.
    - KMsg, KErrno: kmsg.c, errno.c, errno.h.  How a message is put together; error texts.
    - KMem: kmem.c, kcache.c.  What an allocation may do to find memory.
    - KPciBar, KPciIrq: pci.c.  The windows into a device, and the handlers of its
      vectors and of its line.
    - KTsc: fio/common/tsc.h, linux/ktypes.h.  Differences of the processor's counter.
    - KWork: sched.c.  Work items over [WorkQueue], the interface to the work queues of
      Linux; their delays are those of KTime.
    - KCpuThread: kcpu.c.  Threads bound to CPUs and nodes.
    - KBdev: kblock.h and the rest of kblock.c.  Calls of the core, statistics, waiters.

    Components meet as the code has them meet.  KBio builds scatter-gather lists
    with the operations of KScatter and compares ranges with those of Ranges;
    KBioSystem runs KBio and KPlug on one heap of bios, and on the disks of KDisk;
    KMq has the other path to the disk, KDiskWait runs the operations of KDisk in threads, and KBdev calls
    through them; the lists of Kinfo are the ones DListSpec
    is about; SixLock and State sleep on a [WaitQueue]; KScsi maps the data of a command
    with KScatter, and KScsiHost runs on the hosts and devices of KScsi.

    ** How the code is modelled

    A definition has the name of the C function; a loop of its own, or a block
    that several theorems speak of, is a definition beside it.  A C integer is a
    [Z], wrapped where the code stores it in an object of its width.  Objects that
    code shares through pointers (bios, list entries, nodes of the tree, disks and
    their queues) are cells of a heap, a [gmap], and a null, freed or out-of-bounds
    access is a [Fault].  Threads are modelled by steps: one critical section, or
    one access to shared memory, is atomic, and [exec] allows every interleaving.
    What the driver calls in the kernel and in the core is an argument, mostly a
    class ([BlockLayer], [Core], [Memory], [Clock], [IrqFlags],
    [KinfoEnv], [ProcEnv], [CpuEnv], [PciBus], [ScsiCore], [CdevCore], [Formatter],
    [DiskEnv], [SeqKernel], [WorkQueue]), with the laws the proofs need beside it; each theorem under such laws is applied to a
    concrete instance in its [_witness].

    The build is the one the Makefiles describe: FUSION_DEBUG is 0, so that
    [kassert] is empty and [kassert_release] is not; KFIO_BLOCK_DEVICE is 1; the
    tree is mirrored in the proc file system.  The SCSI files, which this build leaves out
    (KFIO_SCSI_DEVICE is 0), are modelled as a build with them would have them, and the
    atomic operations for every compiler and processor there is a branch for.

    ** Fuel

    Loops whose length is that of a list, an argument of the definition or a width
    recur on it.  The others take fuel, and theorems state that the fuel they are
    given is enough, so that no result is lost to it:
    - the batches and bios of a chain (KBio) get the number of bios of the heap,
      and [driver_never_faults] covers running out of fuel;
    - the walks of the tree (Kinfo, KinfoPath) get a bound from the number of its
      nodes; each edge is passed twice ([tree_invariant], [walk_tree_lists_leaves]);
    - the lookup of a name gets the length of the name ([find_node_descends]);
    - a buffer is mapped in at most its size in pages, and 3, pieces ([pages_fuel],
      [map_bytes_appends_buffer]), and copied in at most as many pieces as both lists
      have entries ([copy_data_exact]);
    - a writer that is held off waits until the stall is over: the fuel is an
      argument, twelve rounds are enough when nothing happens, and one more than the
      tests that find a stall when it ends ([holdoff_bounded]);
    - grouping nodes into clusters, and the search for the next used node, get one
      round per node and one more ([fewer_queues]);
    - the search in the BIOS gets a round for each of its places and for each record a
      table can have ([slot_search]);
    - the wait for the file of a character device gets a round per second of its limit
      and one more ([wait_bounded]).
    The steps of threads need none: a wait is a rule that stays enabled.

    ** Theorems

    - Nothing is lost: [bios_conserved] (KBioSystem), with [driver_never_faults] for disks
      that are given up only when none of their bios is on a plug,
      [kickoff_partitions] and [completor_ends_chain] (KBioSpec),
      [entries_delivered_once] and [take_gets_all_newest_first] (AtomicList).
    - Locks: [holders_compatible] and [counters_exact] (SixLockSafety),
      [conversions_fifo] (SixLockOrder), [sleepers_wait_for_other_states] and
      [waiter_returns_in_its_state] (State), [interrupts_restored] (KSpin).
    - Time: [usectohz_exact], [ticks_roundtrip] and [time_comparisons_wrap] (KTime),
      [timed_wait_results] (KSpin).
    - Data: [list_refinement] and [for_each_safe_visits_in_order] (DListSpec),
      [map_bytes_appends_buffer], [map_bio_appends_bio], [map_bio_all_or_nothing],
      [dma_map_covers_list], [dma_slice_exact] and [copy_data_exact] (KScatter,
      KScatterBio, KScatterDma, KScatterCopy), [dump_complete] (KScatterDump), [bitcounts_exact], [round_up_exact] and [bswap_reverses]
      (Bits), [strcmp_exact], [strncat_appends] and [memcpy_is_memmove] (KString).
    - The information tree: [threads_linearizable] (KinfoThreads),
      [remove_node_removes_subtree], [create_effect], [pathname_then_find], [find_node_descends],
      [walk_tree_lists_leaves]; its files: [value_roundtrip], [reads_collect_text],
      [text_show_complete_or_overflow], [seq_pass_appends], [text_file_delivers] and
      [open_failure] (KFile).
    - The disk: [open_close_balanced], [expose_configures], [hide_disk_spec]
      (KDiskSpec), [disk_waits] (KDiskWaitSpec), [holdoff_bounded] (KPlug), [queue_rq_submits_request] (KMq).
    - SCSI: [commands_routed] (KScsiRoute), [answered_once], [completion_reports] and
      [unhook_host] (KScsiSpec), [hosts_live] (KScsiHostSpec).
    - CPUs: [enough_queues] and [fewer_queues] (KCpuSpec), [hotplug_reports] (KHotplug).
    - Shared words: [atomics_agree], [word_shared] and [bits_of_word] (ArchSpec).
    - The device and the driver: [device_lifecycle], [command_register],
      [override_first_match] and [slot_search] (KPci), [bar_mappings_balanced] (KPciBar),
      [csr_access] and [metadata_fields] (KWireSpec), [load_unload] (KMain).
    - The rest of the port layer: [open_by_minor], [poll_misses_nothing] and [wait_bounded]
      (KCdev), [division_32_bits] (KCommon), [message_complete] (KMsg), [strerror_exact]
      (KErrno), [allocation_contexts] (KMem), [first_probe_decides] (KBdev),
      [msix_lifecycle] and [legacy_irq_lifecycle] (KPciIrq), [tsc_diff_exact] (KTsc), [create_on_cpu_spec]
      (KCpuThread), [work_runs_once] (KWork).
    - Where the code does not do what it means to, a theorem shows what it does:
      [conversion_lost_wakeup], [overtaken_down_never_granted],
      [conversion_full_loses_old_mode], [serial64_compare_reverse] (SixLockOrder),
      [map_bytes_full_writes_out_of_bounds] (KScatter),
      [failed_user_mapping_releases_twice] (KScatterBio), [copy_data_ignores_offsets]
      (KScatterCopy), [sync_never_detected],
      [atomic_chains_are_refused] (KBioSpec), [expose_failure_faults],
      [shutdown_keeps_last_opener] (KDiskSpec), [given_up_plug_faults] (KBioSystem), [late_release_faults] (KDiskWaitSpec), [parked_request_replaces_others],
      [req_completor_follows_wrong_entry] (KMq), [read_past_end_leaks],
      [write_unterminated_reads_stack] (KinfoProcSpec),
      [seq_start_failure_confuses_stop] (KinfoSeq), [nanotime_jumps_back] (KTime),
      [missing_node_overruns_queues],
      [offline_cpu_gets_unused_queue], [sparse_cpus_overrun] (KCpuSpec),
      [header_taken_for_slot] (KPci), [block_interface_registered] (KMain),
      [status_lost] (KScsiSpec), [new_lu_revives_dying_host], [lu_gone_races_lu_gone],
      [hidden_without_host], [register_failure_leaks], [lock_destroyed_twice]
      (KScsiHostSpec), [sub_return_wrong], [set_then_test_disagree],
      [ppc_test_and_set_wrong] (ArchSpec), [state_not_yet_set_up] (KHotplug),
      [timeout_although_found], [path_reference_kept] (KCdev), [value_too_wide],
      [size_too_large] (KWireSpec), [strscpy_drops], [quotient_too_large] (KCommon), [strncpy_needs_end]
      (KString),
      [message_cut] (KMsg), [nowait_may_sleep] (KMem), [absent_bar_mapped], [large_bar_cut]
      (KPciBar), [pending_drifts] and [vectored_atomic_result] (KBdev), [destroyed_work_runs] (KWork).

    ** Not modelled

    - The core (object files without source): calls to it are events or arguments.
    - The mutexes, semaphores and user copies of kfio.c, the rest of
      kfio_common.c (formatting, reading numbers, reader-writer locks), kmem.c and kcache.c,
      the accessors of pci.c (configuration space, resources, the bus): one call into the
      kernel each.
    - dbgset.c, module_param.c: tables of variables that generated headers fill.
    - Where the PowerPC assembly names its mask or its labels in a way the assembler would
      not take (ArchPpc), the operand that is meant is modelled. *)

From Stdlib Require Export ZArith Lia.
From stdpp Require Export prelude gmap list numbers.

#[global] Open Scope Z_scope.

(** ** Machine words

    A C integer of width [w] is a [Z]; every assignment to a [w]-bit object
    goes through one of the two wrapping functions. *)

Definition wrapu (w z : Z) : Z := z `mod` 2 ^ w.
Definition wraps (w z : Z) : Z := (z + 2 ^ (w - 1)) `mod` 2 ^ w - 2 ^ (w - 1).
Definition in_u (w z : Z) : Prop := 0 <= z < 2 ^ w.
Definition in_s (w z : Z) : Prop := - 2 ^ (w - 1) <= z < 2 ^ (w - 1).

#[global] Instance in_u_dec w z : Decision (in_u w z).
Proof. unfold in_u. apply _. Defined.
#[global] Instance in_s_dec w z : Decision (in_s w z).
Proof. unfold in_s. apply _. Defined.

Declare Scope word_scope.
Delimit Scope word_scope with word.
Notation "'u8' z" := (wrapu 8 z) (at level 9, z at level 9) : word_scope.
Notation "'u16' z" := (wrapu 16 z) (at level 9, z at level 9) : word_scope.
Notation "'u32' z" := (wrapu 32 z) (at level 9, z at level 9) : word_scope.
Notation "'u64' z" := (wrapu 64 z) (at level 9, z at level 9) : word_scope.
Notation "'s8' z" := (wraps 8 z) (at level 9, z at level 9) : word_scope.
Notation "'s16' z" := (wraps 16 z) (at level 9, z at level 9) : word_scope.
Notation "'s32' z" := (wraps 32 z) (at level 9, z at level 9) : word_scope.
Notation "'s64' z" := (wraps 64 z) (at level 9, z at level 9) : word_scope.
#[global] Open Scope word_scope.

Lemma wrapu_range w z : 0 <= w → in_u w (wrapu w z).
Proof. intros. unfold in_u, wrapu. apply Z.mod_pos_bound. lia. Qed.

Lemma wrapu_small w z : in_u w z → wrapu w z = z.
Proof. unfold in_u, wrapu. apply Z.mod_small. Qed.

Lemma wraps_small w z : 0 < w → in_s w z → wraps w z = z.
Proof.
  unfold in_s, wraps. intros Hw Hz.
  assert (2 ^ w = 2 * 2 ^ (w - 1)) as E.
  { rewrite <- Z.pow_succ_r by lia. f_equal. lia. }
  rewrite Z.mod_small by lia. lia.
Qed.

(** Unfolds the word operations at a literal width, so that [lia] sees plain
    division with a constant modulus. *)
Ltac word_unfold :=
  unfold in_u, in_s, wrapu, wraps in *;
  change (2 ^ 8) with 256 in *; change (2 ^ 16) with 65536 in *;
  change (2 ^ 32) with 4294967296 in *;
  change (2 ^ 64) with 18446744073709551616 in *;
  change (2 ^ 63) with 9223372036854775808 in *;
  change (2 ^ (8 - 1)) with 128 in *; change (2 ^ (16 - 1)) with 32768 in *;
  change (2 ^ (32 - 1)) with 2147483648 in *;
  change (2 ^ (64 - 1)) with 9223372036854775808 in *.

Ltac word_lia := word_unfold; Z.to_euclidean_division_equations; lia.

(** [x & (x - 1)] is 0 exactly for the powers of two. *)
Lemma land_pred_pow2 x : 0 < x → Z.land x (x - 1) = 0 ↔ ∃ k, 0 <= k ∧ x = 2 ^ k.
Proof.
  intros P. split.
  - intros E. exists (Z.log2 x). split; [apply Z.log2_nonneg|].
    destruct (Z.log2_spec x P) as [L U]. destruct (decide (x = 2 ^ Z.log2 x)) as [|N]; [done|exfalso].
    assert (Z.log2 (x - 1) = Z.log2 x) as K by (apply Z.log2_unique; [apply Z.log2_nonneg|lia]).
    assert (0 < x - 1) by (pose proof (Z.pow_pos_nonneg 2 (Z.log2 x) ltac:(lia) (Z.log2_nonneg x)); lia).
    apply (f_equal (λ z, Z.testbit z (Z.log2 x))) in E. rewrite Z.land_spec, Z.bits_0, (Z.bit_log2 x P) in E.
    rewrite <-K, Z.bit_log2 in E by done. discriminate.
  - intros (k & K & ->). replace (2 ^ k - 1) with (Z.ones k) by (rewrite Z.ones_equiv; lia).
    rewrite Z.land_ones, Z.mod_same by (try apply Z.pow_nonzero; lia). done.
Qed.

(** Masking off the low bits of a 32-bit word. *)
Lemma mask_off_low x j :
  in_u 32 x → 0 <= j < 32 → Z.land x (u32 (Z.lnot (u32 (2 ^ j - 1)))) = x - x `mod` 2 ^ j.
Proof.
  intros X J.
  assert (0 < 2 ^ j <= 2 ^ 31) by (split; [apply Z.pow_pos_nonneg; lia | apply Z.pow_le_mono_r; lia]).
  rewrite (wrapu_small 32 (2 ^ j - 1)) by (unfold in_u; lia).
  transitivity (Z.ldiff x (Z.ones j)).
  - rewrite Z.ones_equiv. apply Z.bits_inj'. intros n N. rewrite Z.land_spec, Z.ldiff_spec. unfold wrapu.
    destruct (decide (n < 32)).
    + rewrite Z.mod_pow2_bits_low, Z.lnot_spec by lia. do 3 f_equal; lia.
    + rewrite Z.mod_pow2_bits_high by lia.
      assert (Z.testbit x n = false) as ->; [|done].
      destruct (decide (x = 0)) as [->|]; [apply Z.bits_0|]. apply Z.bits_above_log2; [unfold in_u in *; lia|].
      apply Z.lt_le_trans with 32; [|lia]. apply Z.log2_lt_pow2; unfold in_u in *; lia.
  - rewrite Z.ldiff_ones_r, Z.shiftl_mul_pow2, Z.shiftr_div_pow2 by lia.
    pose proof (Z.div_mod x (2 ^ j) ltac:(lia)). lia.
Qed.

Create HintDb word.
Create Rewrite HintDb word.
#[export] Hint Resolve wrapu_range : word.
#[export] Hint Rewrite wrapu_small using (unfold in_u in *; lia) : word.
#[export] Hint Extern 2 (in_u _ _) => (unfold in_u in *; lia) : word.

(** ** Outcomes

    A function whose C body can dereference NULL, index an array out of its
    bounds, shift by at least the width of its operand, divide by zero or trip a
    [kassert_release] returns an [outcome]. *)

Inductive fault := NullDeref | BadPointer | OutOfBounds | BadShift | DivByZero | AssertFail | NoFuel.

Inductive outcome (A : Type) :=
| Ok (a : A)
| Fault (f : fault).
Arguments Ok {A} a.
Arguments Fault {A} f.

#[global] Instance fault_eq_dec : EqDecision fault.
Proof. solve_decision. Defined.
#[global] Instance outcome_eq_dec `{EqDecision A} : EqDecision (outcome A).
Proof. solve_decision. Defined.

#[global] Instance outcome_ret : MRet outcome := λ A a, Ok a.
#[global] Instance outcome_bind : MBind outcome := λ A B f m,
  match m with Ok a => f a | Fault e => Fault e end.
#[global] Instance outcome_fmap : FMap outcome := λ A B f m,
  match m with Ok a => Ok (f a) | Fault e => Fault e end.

(** [of_option e o]: reading through a pointer or an index that may be bad. *)
Definition of_option {A} (e : fault) (o : option A) : outcome A :=
  match o with Some a => Ok a | None => Fault e end.

Definition oassert (e : fault) (b : bool) : outcome unit :=
  if b then Ok tt else Fault e.

Lemma outcome_bind_ok {A B} (m : outcome A) (f : A → outcome B) b :
  m ≫= f = Ok b ↔ ∃ a, m = Ok a ∧ f a = Ok b.
Proof. destruct m; simpl; naive_solver. Qed.

Lemma of_option_ok {A} e (o : option A) a : of_option e o = Ok a ↔ o = Some a.
Proof. destruct o; simpl; naive_solver. Qed.

(** Stateful C code: a computation that reads and writes a state [S] and may
    fault. *)
Definition stateful (S A : Type) : Type := S → outcome (A * S).

#[global] Instance stateful_ret {S} : MRet (stateful S) := λ A a s, Ok (a, s).
#[global] Instance stateful_bind {S} : MBind (stateful S) := λ A B f m s,
  match m s with Ok (a, s) => f a s | Fault e => Fault e end.

Definition fail {S A} (e : fault) : stateful S A := λ s, Fault e.
Definition get {S} : stateful S S := λ s, Ok (s, s).
Definition modify {S} (f : S → S) : stateful S unit := λ s, Ok (tt, f s).
Definition lift {S A} (o : outcome A) : stateful S A := λ s, match o with Ok a => Ok (a, s) | Fault e => Fault e end.

Lemma stateful_bind_ok {S A B} (m : stateful S A) (k : A → stateful S B) s a s' :
  m s = Ok (a, s') → (m ≫= k) s = k a s'.
Proof. intros E. unfold mbind, stateful_bind. by rewrite E. Qed.

Lemma stateful_bind_assoc {S A B C} (m : stateful S A) (f : A → stateful S B) (g : B → stateful S C) s :
  ((m ≫= f) ≫= g) s = (m ≫= λ a, f a ≫= g) s.
Proof. unfold mbind, stateful_bind. by destruct (m s) as [[]|]. Qed.

(** ** Error numbers returned by the port layer (Linux values) *)

Definition EPERM : Z := 1.
Definition ENOENT : Z := 2.
Definition EIO : Z := 5.
Definition ENXIO : Z := 6.
Definition EAGAIN : Z := 11.
Definition ENOMEM : Z := 12.
Definition EFAULT : Z := 14.
Definition EBUSY : Z := 16.
Definition EEXIST : Z := 17.
Definition ENODEV : Z := 19.
Definition EINVAL : Z := 22.
Definition ENOSPC : Z := 28.
Definition ENOTTY : Z := 25.
Definition ENOIOCTLCMD : Z := 515.

(** ** Lists shared by the components *)

(** [f] summed over a list of threads, entries, segments. *)
Definition zsum {A} (f : A → Z) (l : list A) : Z := foldr (λ a s, f a + s) 0 l.

Lemma zsum_app {A} (f : A → Z) l1 l2 : zsum f (l1 ++ l2) = zsum f l1 + zsum f l2.
Proof. induction l1; simpl in *; lia. Qed.

Lemma zsum_insert {A} (f : A → Z) l (i : nat) x y :
  l !! i = Some x → zsum f (<[i:=y]> l) = zsum f l - f x + f y.
Proof.
  revert i. induction l as [|a l IH]; intros [|i] Hi; simplify_eq/=; [lia|].
  rewrite (IH i Hi). lia.
Qed.

Lemma zsum_nonneg {A} (f : A → Z) l : (∀ a, 0 <= f a) → 0 <= zsum f l.
Proof. intros Hf. induction l as [|a l]; simpl; [lia|]. specialize (Hf a). lia. Qed.

Lemma zsum_lookup_le {A} (f : A → Z) l (i : nat) x :
  (∀ a, 0 <= f a) → l !! i = Some x → f x <= zsum f l.
Proof.
  intros Hf. revert i. induction l as [|a l IH]; intros [|i] Hi; simplify_eq/=.
  - pose proof (zsum_nonneg f l Hf). lia.
  - specialize (IH _ Hi). specialize (Hf a). lia.
Qed.

Lemma zsum_le {A} (f g : A → Z) l : (∀ a, f a <= g a) → zsum f l <= zsum g l.
Proof. intros Hfg. induction l as [|a l]; simpl; [lia|]. specialize (Hfg a). lia. Qed.

Lemma zsum_ext {A} (f g : A → Z) l : (∀ a, a ∈ l → f a = g a) → zsum f l = zsum g l.
Proof.
  induction l as [|a l IH]; intros H; simpl; [done|].
  rewrite (H a), IH; [done| |]; set_solver.
Qed.

Lemma filter_ext_in {A} (P Q : A → Prop) `{∀ a, Decision (P a), ∀ a, Decision (Q a)} (l : list A) :
  (∀ a, a ∈ l → P a ↔ Q a) → filter P l = filter Q l.
Proof.
  induction l as [|a l IH]; intros E; [done|]. rewrite !filter_cons, IH by (intros; apply E; by right).
  pose proof (E a ltac:(by left)) as Ea. destruct (decide (P a)), (decide (Q a)); tauto || done.
Qed.

Lemma filter_all {A} (P : A → Prop) `{∀ a, Decision (P a)} (l : list A) : (∀ a, a ∈ l → P a) → filter P l = l.
Proof.
  induction l as [|a l IH]; intros E; [done|]. rewrite filter_cons_True by (apply E; by left).
  f_equal. apply IH. intros; apply E; by right.
Qed.

(** Number of occurrences, as an integer. *)
Definition zcount `{EqDecision A} (a : A) (l : list A) : Z :=
  zsum (λ b, if decide (a = b) then 1 else 0) l.

Lemma zcount_nonneg `{EqDecision A} (a : A) l : 0 <= zcount a l.
Proof. apply zsum_nonneg. intros b. case_decide; lia. Qed.

Lemma zcount_app `{EqDecision A} (a : A) l1 l2 : zcount a (l1 ++ l2) = zcount a l1 + zcount a l2.
Proof. apply zsum_app. Qed.

Lemma zcount_pos `{EqDecision A} (a : A) l : a ∈ l ↔ 0 < zcount a l.
Proof.
  unfold zcount. induction l as [|b l IH]; simpl.
  - split; [set_solver|lia].
  - rewrite elem_of_cons. pose proof (zcount_nonneg a l) as Hn. unfold zcount in Hn.
    case_decide; [intuition lia|]. intuition (done || lia).
Qed.

(** [list_remove] of one occurrence, the counterpart of a release. *)
Fixpoint remove1 `{EqDecision A} (a : A) (l : list A) : list A :=
  match l with
  | [] => []
  | b :: l' => if decide (a = b) then l' else b :: remove1 a l'
  end.

Lemma zcount_remove1 `{EqDecision A} (a b : A) l :
  a ∈ l → zcount b (remove1 a l) = zcount b l - (if decide (b = a) then 1 else 0).
Proof.
  unfold zcount. induction l as [|c l IH]; [set_solver|].
  intros Hin. simpl. destruct (decide (a = c)) as [->|Hne]; simpl.
  - lia.
  - rewrite IH by set_solver. lia.
Qed.

(** Number of entries of a map whose value satisfies [P]. *)
Section mcount.
Context `{Countable K} {A : Type} (P : A → Prop) `{∀ x, Decision (P x)}.
Implicit Types m : gmap K A.

Definition mcount m : Z := Z.of_nat (size (filter (λ p, P p.2) m)).

Lemma mcount_nonneg m : 0 <= mcount m.
Proof. unfold mcount. lia. Qed.

Lemma mcount_size m : mcount m <= Z.of_nat (size m).
Proof. unfold mcount. pose proof (map_size_filter (λ p : K * A, P p.2) m). lia. Qed.

Lemma mcount_delete m k :
  mcount m = mcount (delete k m) + match m !! k with Some x => if decide (P x) then 1 else 0 | None => 0 end.
Proof.
  unfold mcount. destruct (m !! k) as [x|] eqn:E; [|rewrite delete_id by done; lia].
  rewrite <- (insert_delete_id m k x) at 1 by done. case_decide as Hc.
  - rewrite map_filter_insert_True by done. rewrite map_size_insert_None; [lia|].
    rewrite map_lookup_filter_None. left. apply lookup_delete_eq.
  - rewrite map_filter_insert_False by done. rewrite delete_delete_eq. lia.
Qed.

(** [d] stands for a key that is not in the map. *)
Lemma mcount_insert (d : A) m k x :
  ¬ P d → mcount (<[k := x]> m) = mcount m - (if decide (P (default d (m !! k))) then 1 else 0) + (if decide (P x) then 1 else 0).
Proof.
  intros Hd. rewrite (mcount_delete (<[k := x]> m) k), (mcount_delete m k), delete_insert_eq, lookup_insert_eq.
  destruct (m !! k); simpl; [lia|]. rewrite (decide_False (P := P d)) by done. lia.
Qed.

Lemma mcount_none m : (∀ k x, m !! k = Some x → ¬ P x) → mcount m = 0.
Proof. intros Hn. unfold mcount. rewrite map_empty_filter_2; [done|]. intros k x E. apply (Hn k x E). Qed.

Lemma mcount_pos m k x : m !! k = Some x → P x → 0 < mcount m.
Proof. intros E Hp. rewrite (mcount_delete m k), E, decide_True by done. unfold mcount. lia. Qed.

Lemma mcount_some m : mcount m ≠ 0 → ∃ k x, m !! k = Some x ∧ P x.
Proof.
  intros Hn. destruct (decide (filter (λ p, P p.2) m = ∅)) as [E|E].
  - exfalso. apply Hn. unfold mcount. rewrite E. done.
  - apply map_choose in E as (k & x & [E Hp]%map_lookup_filter_Some). eauto.
Qed.
End mcount.
