(* ===== verification/Ranges.v ===== *)
(** * Block ranges: include/fio/port/ranges.h

    The 64-bit block range [fio_range_t] and the predicates over it that the
    block layer uses to merge and to compare requests. *)
From S2P Require Import Prelude.

(** ** Data and operations *)

(** [fio_range_t]: both fields are [uint64_t]. *)
Record fio_range := mk_range { fr_base : Z; fr_length : Z }.

#[global] Instance fio_range_eq_dec : EqDecision fio_range.
Proof. solve_decision. Defined.

Definition FIOMIN (a b : Z) : Z := if a <? b then a else b.

Definition FIOMAX (a b : Z) : Z := if a >? b then a else b.

Definition fio_make_block_range (b l : Z) : fio_range := mk_range (u64 b) (u64 l).

Definition fio_range_equal (r1 r2 : fio_range) : bool :=
  (fr_base r1 =? fr_base r2) && (fr_length r1 =? fr_length r2).

Definition fio_range_wrap (r1 : fio_range) : bool :=
  u64 (fr_base r1 + fr_length r1) <? fr_base r1.

Definition fio_range_upper_bound (r : fio_range) : Z :=
  u64 (fr_base r + fr_length r).

(** The [kassert(range.length > 0)] is compiled out (FUSION_DEBUG is 0). *)
Definition fio_range_last (r : fio_range) : Z :=
  u64 (fr_base r + fr_length r - 1).

Definition fio_ranges_overlap (r1 r2 : fio_range) : bool :=
  (fr_base r1 <? fio_range_upper_bound r2) && (fr_base r2 <? fio_range_upper_bound r1).

(** The out-parameter is written only when the intersection is non-empty: the
    C result 1 with [*r] is [Some r], the result 0 is [None]. *)
Definition fio_range_intersect (r1 r2 : fio_range) : option fio_range :=
  let b := FIOMAX (fr_base r1) (fr_base r2) in
  let past := FIOMIN (u64 (fr_base r1 + fr_length r1)) (u64 (fr_base r2 + fr_length r2)) in
  if past >? b then Some (mk_range b (u64 (past - b))) else None.

Definition fio_range_overlaps_tail (tail other : fio_range) : bool :=
  (fr_base tail >? fr_base other) && (fr_base tail <? fio_range_upper_bound other).

Definition fio_range_bisects (bisector other : fio_range) : bool :=
  (fr_base bisector >? fr_base other)
  && (fio_range_upper_bound bisector <? fio_range_upper_bound other).

Definition fio_range_overlaps_head (head other : fio_range) : bool :=
  fr_base other <? fio_range_upper_bound head.

Definition fio_range_add_offset (r : fio_range) (offset : Z) : fio_range :=
  mk_range (u64 (fr_base r + offset)) (fr_length r).

Definition fio_range_sub_offset (r : fio_range) (offset : Z) : fio_range :=
  mk_range (u64 (fr_base r - offset)) (fr_length r).

(** [offset] is signed here; the addition converts it to [uint64_t]. *)
Definition fio_range_offset (r : fio_range) (offset : Z) : fio_range :=
  mk_range (u64 (fr_base r + u64 offset)) (fr_length r).

(** ** The set of blocks a range denotes *)

Definition range_wf (r : fio_range) : Prop := in_u 64 (fr_base r) ∧ in_u 64 (fr_length r).

(** The upper bound is representable, i.e. [base + length < 2^64]. *)
Definition nowrap (r : fio_range) : Prop :=
  range_wf r ∧ fr_base r + fr_length r < 2 ^ 64.

Definition contains (r : fio_range) (x : Z) : Prop :=
  fr_base r <= x < fr_base r + fr_length r.

#[global] Instance range_wf_dec r : Decision (range_wf r).
Proof. unfold range_wf. apply _. Defined.
#[global] Instance nowrap_dec r : Decision (nowrap r).
Proof. unfold nowrap. apply _. Defined.
#[global] Instance contains_dec r x : Decision (contains r x).
Proof. unfold contains. apply _. Defined.

(** Exposes the arithmetic of a goal about ranges. *)
Ltac range_simpl :=
  unfold nowrap, range_wf, contains, fio_range_upper_bound, FIOMIN, FIOMAX in *;
  simpl in *.

Ltac range_lia := range_simpl; word_lia.

Lemma upper_bound_nowrap r :
  nowrap r → fio_range_upper_bound r = fr_base r + fr_length r.
Proof. range_lia. Qed.

Lemma overlap_iff_interleaved r1 r2 :
  nowrap r1 → nowrap r2 →
  fio_ranges_overlap r1 r2 = true ↔
  fr_base r1 < fr_base r2 + fr_length r2 ∧ fr_base r2 < fr_base r1 + fr_length r1.
Proof.
  intros H1 H2. unfold fio_ranges_overlap.
  rewrite !upper_bound_nowrap by done. lia.
Qed.

(** ** Properties *)

(** The wrap test detects exactly the ranges whose end is not representable. *)
Lemma range_wrap_iff r :
  range_wf r → fio_range_wrap r = true ↔ 2 ^ 64 <= fr_base r + fr_length r.
Proof. unfold fio_range_wrap. range_lia. Qed.

Lemma intersect_sound r1 r2 r :
  nowrap r1 → nowrap r2 → fio_range_intersect r1 r2 = Some r →
  nowrap r ∧ 0 < fr_length r ∧ ∀ x, contains r x ↔ contains r1 x ∧ contains r2 x.
Proof.
  unfold fio_range_intersect. intros H1 H2 E.
  change (u64 (fr_base r1 + fr_length r1)) with (fio_range_upper_bound r1) in E.
  change (u64 (fr_base r2 + fr_length r2)) with (fio_range_upper_bound r2) in E.
  rewrite !upper_bound_nowrap in E by done.
  unfold FIOMIN, FIOMAX in E.
  repeat case_match; simplify_eq; range_simpl; split_and!; intros; word_lia.
Qed.

Lemma intersect_none r1 r2 :
  nowrap r1 → nowrap r2 → fio_range_intersect r1 r2 = None →
  ∀ x, ¬ (contains r1 x ∧ contains r2 x).
Proof.
  unfold fio_range_intersect. intros H1 H2 E x.
  change (u64 (fr_base r1 + fr_length r1)) with (fio_range_upper_bound r1) in E.
  change (u64 (fr_base r2 + fr_length r2)) with (fio_range_upper_bound r2) in E.
  rewrite !upper_bound_nowrap in E by done.
  unfold FIOMIN, FIOMAX in E.
  repeat case_match; simplify_eq; range_simpl; word_lia.
Qed.

(** on ranges that do not wrap past 2^64, the computed intersection is
    exact.  A result is returned iff the two ranges share a block, and it then
    denotes precisely the shared blocks. *)
Theorem fio_range_intersect_exact r1 r2 :
  nowrap r1 → nowrap r2 →
  match fio_range_intersect r1 r2 with
  | Some r => nowrap r ∧ 0 < fr_length r ∧
              ∀ x, contains r x ↔ contains r1 x ∧ contains r2 x
  | None => ∀ x, ¬ (contains r1 x ∧ contains r2 x)
  end.
Proof.
  intros H1 H2. destruct (fio_range_intersect r1 r2) eqn:E.
  - by apply intersect_sound.
  - by apply intersect_none.
Qed.

Lemma fio_range_intersect_exact_witness :
  fio_range_intersect (mk_range 10 20) (mk_range 25 100) = Some (mk_range 25 5)
  ∧ match fio_range_intersect (mk_range 10 20) (mk_range 25 100) with
    | Some r => nowrap r ∧ 0 < fr_length r ∧
        ∀ x, contains r x ↔ contains (mk_range 10 20) x ∧ contains (mk_range 25 100) x
    | None => ∀ x, ¬ (contains (mk_range 10 20) x ∧ contains (mk_range 25 100) x)
    end.
Proof.
  split; [reflexivity|].
  apply (fio_range_intersect_exact (mk_range 10 20) (mk_range 25 100));
    unfold nowrap, range_wf, in_u; simpl; lia.
Defined.

(** the overlap test is exact except on empty ranges.  It answers 1 iff the
    two ranges share a block, or one of them is empty and lies strictly inside
    the other, in which case no block is shared. *)
Theorem fio_ranges_overlap_exact r1 r2 :
  nowrap r1 → nowrap r2 →
  fio_ranges_overlap r1 r2 = true ↔
  (∃ x, contains r1 x ∧ contains r2 x)
  ∨ (fr_length r1 = 0 ∧ fr_base r2 < fr_base r1 < fr_base r2 + fr_length r2)
  ∨ (fr_length r2 = 0 ∧ fr_base r1 < fr_base r2 < fr_base r1 + fr_length r1).
Proof.
  intros H1 H2. rewrite overlap_iff_interleaved by done. split.
  - intros [Ha Hb]. range_simpl.
    destruct (decide (fr_length r1 = 0)); [right; left; word_lia|].
    destruct (decide (fr_length r2 = 0)); [right; right; word_lia|].
    left. exists (fr_base r1 `max` fr_base r2). word_lia.
  - intros [[x Hx]|[Hx|Hx]]; range_simpl; word_lia.
Qed.

Lemma fio_ranges_overlap_exact_witness :
  fio_ranges_overlap (mk_range 5 0) (mk_range 0 10) = true
  ∧ (fio_ranges_overlap (mk_range 5 0) (mk_range 0 10) = true ↔
     (∃ x, contains (mk_range 5 0) x ∧ contains (mk_range 0 10) x)
     ∨ (0 = 0 ∧ 0 < 5 < 0 + 10) ∨ (10 = 0 ∧ 5 < 0 < 5 + 0)).
Proof.
  split; [reflexivity|].
  apply (fio_ranges_overlap_exact (mk_range 5 0) (mk_range 0 10));
    unfold nowrap, range_wf, in_u; simpl; lia.
Defined.

(** Moving a range by an offset and back gives the range, whatever wraps. *)
Lemma fio_range_offset_roundtrip r o :
  range_wf r → fio_range_sub_offset (fio_range_add_offset r o) o = r.
Proof.
  destruct r as [b l]. unfold fio_range_sub_offset, fio_range_add_offset.
  intros H. f_equal. range_lia.
Qed.

(** A negative displacement is a subtraction. *)
Lemma fio_range_offset_neg r o :
  range_wf r → fio_range_offset r (- o) = fio_range_sub_offset r o.
Proof.
  destruct r as [b l]. unfold fio_range_sub_offset, fio_range_offset.
  intros H. f_equal. range_lia.
Qed.

Lemma fio_range_equal_iff r1 r2 : fio_range_equal r1 r2 = true ↔ r1 = r2.
Proof.
  destruct r1, r2. unfold fio_range_equal. simpl. split.
  - intros ?. f_equal; lia.
  - intros ?. simplify_eq. lia.
Qed.

(** A proper bisector lies inside the other range and leaves blocks on both
    sides of it. *)
Lemma fio_range_bisects_inside r1 r2 :
  nowrap r1 → nowrap r2 → fio_range_bisects r1 r2 = true →
  (∀ x, contains r1 x → contains r2 x)
  ∧ contains r2 (fr_base r2) ∧ ¬ contains r1 (fr_base r2)
  ∧ contains r2 (fr_base r2 + fr_length r2 - 1)
  ∧ ¬ contains r1 (fr_base r2 + fr_length r2 - 1).
Proof.
  intros H1 H2. unfold fio_range_bisects. rewrite !upper_bound_nowrap by done.
  range_simpl. intros H. split_and!; intros; word_lia.
Qed.
