(* ===== verification/Bits.v ===== *)
(** * Bit counting, byte order and powers of two: bitops.h, byteswap.h

    The bit tricks of the kernel build, each against what it is to compute. *)
From S2P Require Import Prelude.

(** ** Operations *)

Definition fio_bitcount8 (val : Z) : Z :=
  let val := u8 (val - Z.land (Z.shiftr val 1) 0x55) in
  let val := u8 (Z.land val 0x33 + Z.land (Z.shiftr val 2) 0x33) in
  Z.land (val + Z.shiftr val 4) 0x0F.

Definition fio_bitcount32 (val : Z) : Z :=
  let val := u32 (val - Z.land (Z.shiftr val 1) 0x55555555) in
  let val := u32 (Z.land val 0x33333333 + Z.land (Z.shiftr val 2) 0x33333333) in
  Z.shiftr (u32 (Z.land (u32 (val + Z.shiftr val 4)) 0xF0F0F0F * 0x1010101)) 24.

Definition fio_bitcount64 (val : Z) : Z :=
  let val := u64 (val - Z.land (Z.shiftr val 1) 0x5555555555555555) in
  let val := u64 (Z.land val 0x3333333333333333 + Z.land (Z.shiftr val 2) 0x3333333333333333) in
  u32 (Z.shiftr (u64 (Z.land (u64 (val + Z.shiftr val 4)) 0xf0f0f0f0f0f0f0f * 0x101010101010101)) 56).

(** The loop over the indices that are left. *)
Fixpoint nth_bit_loop (rest : nat) (val n found index : Z) : Z :=
  match rest with
  | O => index
  | S rest =>
      if Z.testbit val index then
        let found := u32 (found + 1) in
        if found =? n then index else nth_bit_loop rest val n found (index + 1)
      else nth_bit_loop rest val n found (index + 1)
  end.
Definition fio_get_nth_bit_set_index32 (val n : Z) : Z := nth_bit_loop 32 val n 0 0.

Fixpoint top_bit_loop (rest : nat) (val : Z) : Z :=
  match rest with
  | O => -1
  | S rest => if Z.testbit val (Z.of_nat rest) then Z.of_nat rest else top_bit_loop rest val
  end.
Definition fio_get_top_bit_set_index32 (val : Z) : Z := top_bit_loop 32 val.

Definition fio_round_up_power_of_2_u32 (v : Z) : Z :=
  let v := u32 (v + if v =? 0 then 1 else 0) in
  let v := u32 (v - 1) in
  let v := Z.lor v (Z.shiftr v 1) in
  let v := Z.lor v (Z.shiftr v 2) in
  let v := Z.lor v (Z.shiftr v 4) in
  let v := Z.lor v (Z.shiftr v 8) in
  let v := Z.lor v (Z.shiftr v 16) in
  u32 (v + 1).

Definition fusion_bswap64 (val : Z) : Z :=
  let tmp := Z.lor (Z.land (u64 (Z.shiftl val 8)) 0xff00ff00ff00ff00) (Z.land (Z.shiftr val 8) 0x00ff00ff00ff00ff) in
  let tmp := Z.lor (Z.land (u64 (Z.shiftl tmp 16)) 0xffff0000ffff0000) (Z.land (Z.shiftr tmp 16) 0x0000ffff0000ffff) in
  Z.lor (Z.land (u64 (Z.shiftl tmp 32)) 0xffffffff00000000) (Z.land (Z.shiftr tmp 32) 0x00000000ffffffff).

Definition fusion_bswap32 (val : Z) : Z :=
  let val := Z.lor (Z.land (u32 (Z.shiftl val 8)) 0xFF00FF00) (Z.land (Z.shiftr val 8) 0x00FF00FF) in
  Z.lor (u32 (Z.shiftl val 16)) (Z.shiftr val 16).

(** The shifts are of [int]s; the result is cut to 16 bits. *)
Definition fusion_bswap16 (val : Z) : Z := u16 (Z.lor (Z.shiftl val 8) (Z.shiftr val 8)).

(** ** Numbers as fields of equal width, the lowest first *)

Fixpoint fields (w : Z) (l : list Z) : Z :=
  match l with [] => 0 | a :: l => a + 2 ^ w * fields w l end.
Fixpoint digits (w : Z) (n : nat) (v : Z) : list Z :=
  match n with O => [] | S n => v `mod` 2 ^ w :: digits w n (v / 2 ^ w) end.

Definition small (w : Z) (a : Z) : Prop := 0 <= a < 2 ^ w.

Lemma fields_digits w n v : 0 <= w → 0 <= v < 2 ^ (w * Z.of_nat n) → fields w (digits w n v) = v.
Proof.
  intros W. revert v. induction n as [|n IH]; intros v V; cbn [digits fields].
  - rewrite Z.mul_0_r in V. cbn in V. lia.
  - rewrite Nat2Z.inj_succ, Z.mul_succ_r, Z.pow_add_r in V by lia.
    assert (0 < 2 ^ w) by (apply Z.pow_pos_nonneg; lia).
    rewrite IH; [pose proof (Z.div_mod v (2 ^ w)); lia|]. split; [apply Z.div_pos; lia|apply Z.div_lt_upper_bound; lia].
Qed.

Lemma digits_small w n v : 0 <= w → Forall (small w) (digits w n v).
Proof.
  intros W. revert v. induction n as [|n IH]; intros v; constructor; [|done].
  apply Z.mod_pos_bound, Z.pow_pos_nonneg; lia.
Qed.

Lemma length_digits w n v : length (digits w n v) = n.
Proof. revert v. induction n as [|n IH]; intros v; cbn; [done|]. by rewrite IH. Qed.

Lemma testbit_fields w a F i :
  0 <= w → small w a → 0 <= i → Z.testbit (a + 2 ^ w * F) i = if i <? w then Z.testbit a i else Z.testbit F (i - w).
Proof.
  intros W A I. assert (2 ^ w ≠ 0) by (apply Z.pow_nonzero; lia). destruct (Z.ltb_spec i w).
  - rewrite <-(Z.mod_pow2_bits_low _ w i), Z.mul_comm, Z.mod_add, Z.mod_small by done. done.
  - replace i with (i - w + w) at 1 by lia.
    rewrite <-Z.shiftr_spec, Z.shiftr_div_pow2, Z.mul_comm, Z.div_add, Z.div_small by (done || lia). done.
Qed.

Lemma small_testbit w a i : 0 <= w → small w a → w <= i → Z.testbit a i = false.
Proof. intros W A I. rewrite <-(Z.mod_small a (2 ^ w)) by done. apply Z.mod_pow2_bits_high. lia. Qed.

Lemma small_land w a b : 0 <= w → small w b → 0 <= a → small w (Z.land a b).
Proof.
  intros W B A. assert (0 <= Z.land a b) by (apply Z.land_nonneg; lia). split; [done|].
  destruct (decide (Z.land a b = 0)) as [->|N]; [apply Z.pow_pos_nonneg; lia|].
  apply Z.log2_lt_pow2; [lia|]. apply Z.nle_gt. intros G.
  pose proof (Z.bit_log2 (Z.land a b) ltac:(lia)) as T. rewrite Z.land_spec, (small_testbit w b), andb_false_r in T by done. done.
Qed.

(** A shift by less than a field, masked to what stays in each field. *)
Lemma mask_fields w s m l :
  0 <= s <= w → small (w - s) m → Forall (small w) l →
  Z.land (Z.shiftr (fields w l) s) (fields w (replicate (length l) m)) = fields w ((λ f, Z.land (Z.shiftr f s) m) <$> l).
Proof.
  intros S M. assert (small w m) as Mw.
  { destruct M as [M0 M1]. split; [done|]. eapply Z.lt_le_trans; [exact M1|]. apply Z.pow_le_mono_r; lia. }
  induction 1 as [|f l Sf Sl IH]; cbn [fields fmap list_fmap length replicate]; [by rewrite Z.land_0_r|].
  apply Z.bits_inj'. intros i I. rewrite Z.land_spec, Z.shiftr_spec by lia.
  rewrite !testbit_fields by first [lia | done | apply small_land; [lia|done|apply Z.shiftr_nonneg; apply Sf]].
  change (list_fmap Z Z (λ f, Z.land (Z.shiftr f s) m) l) with ((λ f, Z.land (Z.shiftr f s) m) <$> l). rewrite <-IH.
  destruct (Z.ltb_spec i w).
  - rewrite Z.land_spec, Z.shiftr_spec by lia. destruct (Z.ltb_spec (i + s) w); [done|].
    rewrite (small_testbit (w - s) m i) by (done || lia). by rewrite !andb_false_r.
  - rewrite (proj2 (Z.ltb_ge (i + s) w)) by lia. rewrite Z.land_spec, Z.shiftr_spec by lia. do 2 f_equal. lia.
Qed.

Lemma fields_fmap_sub w (f g : Z → Z) l : fields w (f <$> l) - fields w (g <$> l) = fields w ((λ a, f a - g a) <$> l).
Proof. induction l as [|a l IH]; [done|]. rewrite !fmap_cons. cbn [fields]. rewrite <-IH. lia. Qed.

Lemma fields_fmap_add w (f g : Z → Z) l : fields w (f <$> l) + fields w (g <$> l) = fields w ((λ a, f a + g a) <$> l).
Proof. induction l as [|a l IH]; [done|]. rewrite !fmap_cons. cbn [fields]. rewrite <-IH. lia. Qed.

Lemma fields_range w l : 0 <= w → Forall (small w) l → 0 <= fields w l < 2 ^ (w * Z.of_nat (length l)).
Proof.
  intros W. induction 1 as [|a l A _ IH]; cbn [fields length]; [rewrite Z.mul_0_r; cbn; lia|].
  rewrite Nat2Z.inj_succ, Z.mul_succ_r, Z.pow_add_r by lia. destruct A. nia.
Qed.

(** Fields joined in pairs. *)
Fixpoint pairs (w : Z) (l : list Z) : list Z :=
  match l with a :: b :: l => a + 2 ^ w * b :: pairs w l | _ => l end.

Lemma fields_pairs w l : 0 <= w → fields w l = fields (2 * w) (pairs w l).
Proof.
  intros W. assert (∀ n, (length l <= n)%nat → fields w l = fields (2 * w) (pairs w l)) as Q; [|by apply (Q (length l))].
  intros n. revert l. induction n as [|n IH]; intros [|a [|b l]] L; cbn [length] in L; try (done || lia); [by cbn [pairs fields]; lia|].
  cbn [pairs fields]. rewrite <-IH by lia.
  replace (2 * w) with (w + w) by lia. rewrite Z.pow_add_r by lia. lia.
Qed.

(** ** Counting bits *)

(** The number of bits set among the lowest [n]. *)
Definition bits_set (n : nat) (v : Z) : Z := zsum (λ i, Z.b2z (Z.testbit v (Z.of_nat i))) (seq 0 n).

Lemma bits_set_digits n v : bits_set n v = zsum id (digits 1 n v).
Proof.
  revert v. unfold bits_set. induction n as [|n IH]; intros v; [done|]. cbn [seq digits zsum foldr].
  f_equal; [by rewrite Z.bit0_mod|]. change (zsum (λ i, Z.b2z (Z.testbit v (Z.of_nat i))) (seq 1 n) = zsum id (digits 1 n (v / 2 ^ 1))).
  rewrite <-IH, <-fmap_S_seq. unfold zsum. rewrite foldr_fmap. apply foldr_ext; [|done|done]. intros i a. f_equal. f_equal.
  rewrite <-Z.shiftr_div_pow2, Z.shiftr_spec by lia. f_equal. lia.
Qed.

(** Joining fields in pairs when a function of a pair adds its halves up. *)
Lemma pairs_sum w (g : Z → Z) (A R : Z → Prop) n l :
  (∀ a b, A a → A b → R (a + 2 ^ w * b) ∧ g (a + 2 ^ w * b) = a + b) →
  length l = (2 * n)%nat → Forall A l →
  length (pairs w l) = n ∧ Forall R (pairs w l) ∧ zsum g (pairs w l) = zsum id l.
Proof.
  intros G. revert l. induction n as [|n IH]; intros [|a [|b l]] L F; cbn [length] in L; try lia; [by repeat constructor|].
  inversion F as [|? ? Fa F']; subst. inversion F' as [|? ? Fb F'']; subst.
  destruct (IH l ltac:(lia) F'') as (L' & R' & Z'). destruct (G a b Fa Fb) as [Rab Gab]. cbn [pairs length].
  split; [lia|]. split; [by constructor|].
  change (g (a + 2 ^ w * b) + zsum g (pairs w l) = a + (b + zsum id l)). lia.
Qed.

Definition upto (k a : Z) : Prop := 0 <= a <= k.

Lemma fields_upto w k l : 0 <= w → k < 2 ^ w → Forall (upto k) l → Forall (small w) l.
Proof. intros W K F. eapply list.Forall_impl; [exact F|]. intros a [? ?]. unfold small. lia. Qed.

(** First the bits are added up in pairs. *)
Lemma count_pairs n v :
  0 <= v < 2 ^ (2 * Z.of_nat n) →
  ∃ c, length c = n ∧ Forall (upto 2) c ∧ zsum id c = bits_set (2 * n) v
    ∧ v - Z.land (Z.shiftr v 1) (fields 2 (replicate n 1)) = fields 2 c.
Proof.
  intros V. set (g := λ f, f - Z.land (Z.shiftr f 1) 1).
  destruct (pairs_sum 1 g (small 1) (λ f, small 2 f ∧ upto 2 (g f)) n (digits 1 (2 * n) v)) as (L & R & S).
  - intros a b A B. assert ((a = 0 ∨ a = 1) ∧ (b = 0 ∨ b = 1)) as [[-> | ->] [-> | ->]] by (unfold small in *; lia); by vm_compute.
  - apply length_digits.
  - by apply digits_small.
  - set (p := pairs 1 (digits 1 (2 * n) v)) in *. assert (v = fields 2 p) as Ev.
    { unfold p. change 2 with (2 * 1) at 1. rewrite <-fields_pairs by lia. symmetry. apply fields_digits; [lia|].
      by replace (1 * Z.of_nat (2 * n)) with (2 * Z.of_nat n) by lia. }
    exists (g <$> p). rewrite length_fmap. split; [done|]. split; [apply list.Forall_fmap; eapply list.Forall_impl; [exact R|]; by intros ? []|].
    split; [rewrite bits_set_digits, <-S; unfold zsum; by rewrite foldr_fmap|].
    assert (Forall (small 2) p) as Sp by (eapply list.Forall_impl; [exact R|]; by intros ? []).
    rewrite Ev, <-L, mask_fields by first [done | by vm_compute].
    unfold g. rewrite <-(fields_fmap_sub 2 (λ a, a)). by rewrite list_fmap_id.
Qed.

(** Then the pairs, in fours. *)
Lemma count_fours n c :
  length c = (2 * n)%nat → Forall (upto 2) c →
  let v := fields 2 c in
  ∃ c', length c' = n ∧ Forall (upto 4) c' ∧ zsum id c' = zsum id c
    ∧ Z.land v (fields 4 (replicate n 3)) + Z.land (Z.shiftr v 2) (fields 4 (replicate n 3)) = fields 4 c'.
Proof.
  intros L F v. set (g := λ f, Z.land (Z.shiftr f 0) 3 + Z.land (Z.shiftr f 2) 3).
  destruct (pairs_sum 2 g (upto 2) (λ f, small 4 f ∧ upto 4 (g f)) n c) as (L' & R & S); [|done|done|].
  - intros a b A B. assert ((a = 0 ∨ a = 1 ∨ a = 2) ∧ (b = 0 ∨ b = 1 ∨ b = 2)) as [[-> | [-> | ->]] [-> | [-> | ->]]]
      by (unfold upto in *; lia); by vm_compute.
  - set (p := pairs 2 c) in *. assert (v = fields 4 p) as Ev by (unfold v, p; change 4 with (2 * 2); by rewrite <-fields_pairs by lia).
    assert (Forall (small 4) p) as Sp by (eapply list.Forall_impl; [exact R|]; by intros ? []).
    exists (g <$> p). rewrite length_fmap. split; [done|]. split; [apply list.Forall_fmap; eapply list.Forall_impl; [exact R|]; by intros ? []|].
    split; [rewrite <-S; unfold zsum; by rewrite foldr_fmap|].
    rewrite <-(Z.shiftr_0_r v), Ev at 1. rewrite Ev, <-L'. rewrite !mask_fields by first [done | by vm_compute].
    unfold g. by rewrite <-fields_fmap_add.
Qed.

(** The sums of neighbours, from the lower half of every byte. *)
Lemma low_halves l :
  Forall (small 8) l → Z.land (fields 8 l) (fields 8 (replicate (length l) 15)) = fields 8 ((λ f, f `mod` 16) <$> l).
Proof.
  intros F. rewrite <-(Z.shiftr_0_r (fields 8 l)), mask_fields by first [done | by vm_compute]. f_equal. apply list_fmap_ext.
  intros i f _. rewrite Z.shiftr_0_r. change 15 with (Z.ones 4). by rewrite Z.land_ones.
Qed.

Lemma shift_field w a l : 0 <= w → small w a → Z.shiftr (fields w (a :: l)) w = fields w l.
Proof. intros W A. rewrite Z.shiftr_div_pow2 by lia. cbn [fields]. rewrite Z.mul_comm, Z.div_add, Z.div_small; [done|done|apply Z.pow_nonzero; lia]. Qed.

(** The fours that are left, as sums of neighbours in the low halves of bytes. *)
Fixpoint neighbours (l : list Z) : list Z :=
  match l with a :: b :: l => a + b :: neighbours l | _ => l end.

Lemma count_bytes n l :
  length l = (2 * n)%nat → Forall (upto 4) l →
  let v := fields 4 l in
  Z.land (v + Z.shiftr v 4) (fields 8 (replicate n 15)) = fields 8 (neighbours l)
  ∧ length (neighbours l) = n ∧ Forall (upto 8) (neighbours l) ∧ zsum id (neighbours l) = zsum id l
  ∧ v + Z.shiftr v 4 < 2 ^ (8 * Z.of_nat n).
Proof.
  (* the sums in full: the upper halves hold the sums across the bytes *)
  assert (∀ n l, length l = (2 * n)%nat → Forall (upto 4) l → ∃ bs, length bs = n ∧ Forall (small 8) bs
    ∧ fields 4 l + Z.shiftr (fields 4 l) 4 = fields 8 bs ∧ (λ f, f `mod` 16) <$> bs = neighbours l
    ∧ Forall (upto 8) (neighbours l) ∧ zsum id (neighbours l) = zsum id l) as Q.
  { clear n l. intros n. induction n as [|n IH]; intros [|a [|b l]] L F; cbn [length] in L; try lia.
    - exists []. split_and!; try done; constructor.
    - inversion F as [|? ? Fa F']; subst. inversion F' as [|? ? Fb F'']; subst.
      destruct (IH l ltac:(lia) F'') as (bs & Lb & Sb & Eb & Nb & Ub & Zb).
      set (h := match l with [] => 0 | c :: _ => c end).
      assert (upto 4 h) as Hh by (unfold h; destruct l as [|c l]; [done|]; by inversion F''). unfold upto in Fa, Fb, Hh.
      exists (a + b + 16 * (b + h) :: bs). cbn [length fmap list_fmap neighbours]. split; [lia|].
      split; [constructor; [unfold small; change (2 ^ 8) with 256; lia|done]|].
      assert (fields 4 l + Z.shiftr (fields 4 l) 4 = fields 4 l + (fields 4 l - h) / 16) as E0.
      { rewrite Z.shiftr_div_pow2 by lia. change (2 ^ 4) with 16. unfold h. destruct l as [|c l]; [done|]. cbn [fields].
        change (2 ^ 4) with 16. f_equal. inversion F'' as [|? ? Fc _]; subst. unfold upto in Fc. Z.to_euclidean_division_equations. lia. }
      split; [|split; [f_equal; [Z.to_euclidean_division_equations; lia|done]|split]].
      + rewrite shift_field by (lia || (unfold small; change (2 ^ 4) with 16; lia)).
        cbn [fields]. change (2 ^ 4) with 16. change (2 ^ 8) with 256. rewrite <-Eb, E0.
        assert (fields 4 l = h + 16 * ((fields 4 l - h) / 16)) as E1.
        { unfold h. destruct l as [|c l]; [done|]. cbn [fields]. change (2 ^ 4) with 16. Z.to_euclidean_division_equations. lia. }
        lia.
      + constructor; [unfold upto; lia|done].
      + change (a + b + zsum id (neighbours l) = a + (b + zsum id l)). lia. }
  intros L F v. destruct (Q n l L F) as (bs & Lb & Sb & Eb & Nb & Ub & Zb). unfold v. rewrite Eb, <-Lb, low_halves by done.
  rewrite Nb. split; [done|]. split; [by rewrite <-Nb, length_fmap|]. split; [done|]. split; [done|].
  apply fields_range; [lia|done].
Qed.

(** The rounds the three counts have in common. *)
Lemma count_rounds n v :
  let w := 8 * Z.of_nat n in
  in_u w v → ∃ l, length l = n ∧ Forall (upto 8) l ∧ zsum id l = bits_set (8 * n) v
    ∧ let v1 := v - Z.land (Z.shiftr v 1) (fields 2 (replicate (4 * n) 1)) in
      let v2 := Z.land v1 (fields 4 (replicate (2 * n) 3)) + Z.land (Z.shiftr v1 2) (fields 4 (replicate (2 * n) 3)) in
      in_u w v1 ∧ in_u w v2 ∧ in_u w (v2 + Z.shiftr v2 4)
      ∧ Z.land (v2 + Z.shiftr v2 4) (fields 8 (replicate n 15)) = fields 8 l.
Proof.
  intros w V. destruct (count_pairs (4 * n) v) as (c & L & F & S & E).
  { unfold in_u, w in V. by replace (2 * Z.of_nat (4 * n)) with (8 * Z.of_nat n) by lia. }
  destruct (count_fours (2 * n) c) as (c' & L' & F' & S' & E'); [lia|done|].
  destruct (count_bytes n c' L' F') as (Eb & Lb & Ub & Zb & Rb).
  exists (neighbours c'). split; [done|]. split; [done|]. split; [rewrite Zb, S', S; f_equal; lia|].
  rewrite E. cbv zeta in E' |- *. rewrite E'.
  assert (∀ x k l, 0 < k → x < 2 ^ k → Forall (upto x) l → k * Z.of_nat (length l) = w → in_u w (fields k l)) as Rg.
  { intros x k l K X U W. unfold in_u. rewrite <-W. apply fields_range; [lia|]. by apply (fields_upto k x); try lia. }
  split; [apply (Rg 2); try done; lia|]. split; [apply (Rg 4); try done; lia|]. split; [|done].
  split; [|done]. assert (0 <= fields 4 c') by (apply (Rg 4 4 c'); try done; lia).
  assert (0 <= Z.shiftr (fields 4 c') 4) by (by apply Z.shiftr_nonneg). lia.
Qed.

(** Multiplying by ones adds the bytes up in the top one. *)
Lemma top_part r q s k m : 0 <= r < 2 ^ k → 0 <= s < 2 ^ m → 0 <= k → 0 <= m →
  Z.shiftr (wrapu (k + m) (r + s * 2 ^ k + q * 2 ^ (k + m))) k = s.
Proof.
  intros R S K M. unfold wrapu. rewrite Z.mod_add by (apply Z.pow_nonzero; lia). rewrite Z.mod_small.
  - rewrite Z.shiftr_div_pow2, Z.div_add, Z.div_small by (try apply Z.pow_nonzero; lia). lia.
  - rewrite Z.pow_add_r by lia. nia.
Qed.

Lemma top_byte_sum4 a b c d :
  0 <= a <= 8 → 0 <= b <= 8 → 0 <= c <= 8 → 0 <= d <= 8 →
  Z.shiftr (u32 (fields 8 [a; b; c; d] * 0x1010101)) 24 = a + (b + (c + (d + 0))).
Proof.
  intros A B C D. etransitivity; [|apply (top_part (a + 256 * (a + b) + 65536 * (a + b + c)) (b + c + d + 256 * (c + d) + 65536 * d) _ 24 8);
    [change (2 ^ 24) with 16777216; lia|change (2 ^ 8) with 256; lia|lia|lia]].
  change (24 + 8) with 32. do 2 f_equal. cbn [fields]. change (2 ^ 8) with 256. change (2 ^ 24) with 16777216. change (2 ^ 32) with 4294967296. lia.
Qed.

Lemma top_byte_sum8 a b c d e f g h :
  0 <= a <= 8 → 0 <= b <= 8 → 0 <= c <= 8 → 0 <= d <= 8 → 0 <= e <= 8 → 0 <= f <= 8 → 0 <= g <= 8 → 0 <= h <= 8 →
  Z.shiftr (u64 (fields 8 [a; b; c; d; e; f; g; h] * 0x101010101010101)) 56
  = a + (b + (c + (d + (e + (f + (g + (h + 0))))))).
Proof.
  intros A B C D E F G H.
  etransitivity; [|apply (top_part (fields 8 [a; a + b; a + b + c; a + b + c + d; a + b + c + d + e; a + b + c + d + e + f; a + b + c + d + e + f + g])
    (fields 8 [b + c + d + e + f + g + h; c + d + e + f + g + h; d + e + f + g + h; e + f + g + h; f + g + h; g + h; h])
    (a + (b + (c + (d + (e + (f + (g + (h + 0)))))))) 56 8);
    [change (2 ^ 56) with 72057594037927936; cbn [fields]; change (2 ^ 8) with 256; lia|change (2 ^ 8) with 256; lia|lia|lia]].
  change (56 + 8) with 64. do 2 f_equal. cbn [fields]. change (2 ^ 8) with 256. change (2 ^ 56) with 72057594037927936.
  change (2 ^ 64) with 18446744073709551616. lia.
Qed.

(** The bit counts of bitops.h, which add up neighbouring fields of the word
    in parallel, are the number of bits set, for every 8-bit, 32-bit and 64-bit
    value. *)
Theorem bitcounts_exact v :
  (in_u 8 v → fio_bitcount8 v = bits_set 8 v)
  ∧ (in_u 32 v → fio_bitcount32 v = bits_set 32 v)
  ∧ (in_u 64 v → fio_bitcount64 v = bits_set 64 v).
Proof.
  split_and!; intros V.
  - destruct (count_rounds 1 v V) as (l & L & U & S & R1 & R2 & R3 & E). change (8 * Z.of_nat 1) with 8 in *.
    destruct l as [|a [|b l]]; try discriminate. inversion U as [|? ? Ua _]; subst. unfold upto in Ua.
    change (fields 2 (replicate (4 * 1) 1)) with 0x55 in *. change (fields 4 (replicate (2 * 1) 3)) with 0x33 in *.
    change (fields 8 (replicate 1 15)) with 0x0F in E. unfold fio_bitcount8.
    rewrite (wrapu_small 8 _ R1), (wrapu_small 8 _ R2), E. change (bits_set 8 v) with (bits_set (8 * 1) v). rewrite <-S. cbn. lia.
  - destruct (count_rounds 4 v V) as (l & L & U & S & R1 & R2 & R3 & E). change (8 * Z.of_nat 4) with 32 in *.
    destruct l as [|a [|b [|c [|d [|e l]]]]]; try discriminate. repeat (apply list.Forall_cons in U as [? U]). unfold upto in *.
    change (fields 2 (replicate (4 * 4) 1)) with 0x55555555 in *. change (fields 4 (replicate (2 * 4) 3)) with 0x33333333 in *.
    change (fields 8 (replicate 4 15)) with 0xF0F0F0F in E. unfold fio_bitcount32.
    rewrite (wrapu_small 32 _ R1), (wrapu_small 32 _ R2), (wrapu_small 32 _ R3), E.
    change (bits_set 32 v) with (bits_set (8 * 4) v). rewrite <-S. change (zsum id [a; b; c; d]) with (a + (b + (c + (d + 0)))).
    rewrite top_byte_sum4 by lia. done.
  - destruct (count_rounds 8 v V) as (l & L & U & S & R1 & R2 & R3 & E). change (8 * Z.of_nat 8) with 64 in *.
    destruct l as [|a [|b [|c [|d [|e [|f [|g [|h [|k l]]]]]]]]]; try discriminate. repeat (apply list.Forall_cons in U as [? U]). unfold upto in *.
    change (fields 2 (replicate (4 * 8) 1)) with 0x5555555555555555 in *. change (fields 4 (replicate (2 * 8) 3)) with 0x3333333333333333 in *.
    change (fields 8 (replicate 8 15)) with 0xf0f0f0f0f0f0f0f in E. unfold fio_bitcount64.
    rewrite (wrapu_small 64 _ R1), (wrapu_small 64 _ R2), (wrapu_small 64 _ R3), E.
    change (bits_set 64 v) with (bits_set (8 * 8) v). rewrite <-S.
    change (zsum id [a; b; c; d; e; f; g; h]) with (a + (b + (c + (d + (e + (f + (g + (h + 0)))))))).
    rewrite top_byte_sum8 by lia. apply wrapu_small. unfold in_u. change (2 ^ 32) with 4294967296. lia.
Qed.

(** ** Positions of bits *)

Lemma top_bit_loop_run k v : 0 <= v < 2 ^ Z.of_nat k → top_bit_loop k v = if v =? 0 then -1 else Z.log2 v.
Proof.
  induction k as [|k IH]; intros V; cbn [top_bit_loop]; [by replace v with 0 by (cbn in V; lia)|].
  rewrite Nat2Z.inj_succ, Z.pow_succ_r in V by lia.
  destruct (Z.ltb_spec v (2 ^ Z.of_nat k)) as [L|L].
  - rewrite <-(Z.mod_small v (2 ^ Z.of_nat k)) at 1 by lia. rewrite Z.mod_pow2_bits_high by lia. apply IH. lia.
  - assert (0 < 2 ^ Z.of_nat k) by (apply Z.pow_pos_nonneg; lia).
    assert (Z.log2 v = Z.of_nat k) as E by (apply Z.log2_unique; [lia|rewrite Z.pow_succ_r; lia]).
    rewrite <-E, Z.bit_log2 by lia. destruct (Z.eqb_spec v 0); lia.
Qed.

Lemma bits_set_S n v : bits_set (S n) v = bits_set n v + Z.b2z (Z.testbit v (Z.of_nat n)).
Proof. unfold bits_set. rewrite seq_S, zsum_app. cbn. lia. Qed.

Lemma bits_set_le n v : 0 <= bits_set n v <= Z.of_nat n.
Proof. induction n as [|n IH]; [done|]. rewrite bits_set_S. destruct (Z.testbit v (Z.of_nat n)); cbn [Z.b2z]; lia. Qed.

Lemma nth_bit_loop_run k v n i :
  bits_set i v < n → Z.of_nat (k + i) < 2 ^ 31 →
  let r := nth_bit_loop k v n (bits_set i v) (Z.of_nat i) in
  ∃ j, r = Z.of_nat j ∧ (j <= k + i)%nat ∧ (if decide (j = k + i)%nat then bits_set j v < n else Z.testbit v r = true ∧ bits_set j v = n - 1).
Proof.
  revert i. induction k as [|k IH]; intros i B W; cbn [nth_bit_loop]; cbv zeta.
  - exists i. split; [done|]. split; [lia|]. by rewrite decide_True.
  - change (2 ^ 31) with 2147483648 in *. pose proof (bits_set_le i v). replace (Z.of_nat i + 1) with (Z.of_nat (S i)) by lia.
    destruct (Z.testbit v (Z.of_nat i)) eqn:T.
    + rewrite wrapu_small by (unfold in_u; change (2 ^ 32) with 4294967296; lia).
      assert (bits_set i v + 1 = bits_set (S i) v) as E by (rewrite bits_set_S, T; done). rewrite E.
      destruct (Z.eqb_spec (bits_set (S i) v) n) as [Q|Q].
      * exists i. split; [done|]. split; [lia|]. rewrite decide_False by lia. split; [done|lia].
      * destruct (IH (S i) ltac:(lia) ltac:(lia)) as (j & Er & L & D). exists j. split; [done|]. split; [lia|].
        by replace (S k + i)%nat with (k + S i)%nat by lia.
    + assert (bits_set i v = bits_set (S i) v) as E by (rewrite bits_set_S, T; cbn; lia). rewrite E.
      destruct (IH (S i) ltac:(lia) ltac:(lia)) as (j & Er & L & D). exists j. split; [done|]. split; [lia|].
      by replace (S k + i)%nat with (k + S i)%nat by lia.
Qed.

(** The index of the [n]th set bit is a bit that is set with [n - 1] set bits
    below it, or 32 when fewer than [n] bits are set; the index of the top set bit
    is the binary logarithm, or -1 for 0. *)
Theorem bit_indices_exact v n :
  in_u 32 v → 1 <= n →
  (∃ j, fio_get_nth_bit_set_index32 v n = Z.of_nat j
     ∧ if decide (j = 32%nat) then bits_set 32 v < n else (j < 32)%nat ∧ Z.testbit v (Z.of_nat j) = true ∧ bits_set j v = n - 1)
  ∧ fio_get_top_bit_set_index32 v = (if v =? 0 then -1 else Z.log2 v).
Proof.
  intros V N. split; [|by apply top_bit_loop_run].
  destruct (nth_bit_loop_run 32 v n 0) as (j & E & L & D); [change (bits_set 0 v) with 0; lia|done|].
  exists j. split; [exact E|]. cbn in L. destruct (decide (j = 32%nat)) as [->|Nj].
  - by rewrite decide_True in D.
  - rewrite decide_False in D by (intros ->; by apply Nj). split; [lia|]. unfold fio_get_nth_bit_set_index32 in E. cbv zeta in D.
    change (bits_set 0 v) with 0 in D. rewrite <-E. exact D.
Qed.

(** ** Powers of two *)

(** [x] with every set bit copied to the [k - 1] places below it. *)
Definition smeared (k x y : Z) : Prop := ∀ i, 0 <= i → Z.testbit y i = true ↔ ∃ j, 0 <= j < k ∧ Z.testbit x (i + j) = true.

Lemma smear_step k x y : 0 < k → smeared k x y → smeared (2 * k) x (Z.lor y (Z.shiftr y k)).
Proof.
  intros K S i I. rewrite Z.lor_spec, Z.shiftr_spec, orb_true_iff, (S i I), (S (i + k)) by lia. split.
  - intros [(j & J & T)|(j & J & T)]; [exists j; split; [lia|done]|exists (k + j); split; [lia|by rewrite Z.add_assoc]].
  - intros (j & J & T). destruct (decide (j < k)); [left; exists j; split; [lia|done]|right; exists (j - k)]. split; [lia|].
    by replace (i + k + (j - k)) with (i + j) by lia.
Qed.

Lemma smeared_ones x y : 0 < x < 2 ^ 32 → smeared 32 x y → y = Z.ones (Z.log2 x + 1).
Proof.
  intros X S. pose proof (Z.log2_nonneg x). assert (Z.log2 x < 32) as Lx by (apply Z.log2_lt_pow2; lia).
  apply Z.bits_inj'. intros i I. rewrite Z.testbit_ones_nonneg by lia. apply eq_true_iff_eq.
  rewrite Z.ltb_lt, (S i I). split.
  - intros (j & J & T). destruct (decide (i + j <= Z.log2 x)); [lia|]. rewrite Z.bits_above_log2 in T by lia. done.
  - intros L. exists (Z.log2 x - i). split; [lia|]. replace (i + (Z.log2 x - i)) with (Z.log2 x) by lia. apply Z.bit_log2. lia.
Qed.

(** Rounding up gives the least power of two that is not below the value; 0
    gives 1, and a value above 2{^31}, for which there is no such 32-bit number,
    gives 0. *)
Theorem round_up_exact v :
  in_u 32 v →
  fio_round_up_power_of_2_u32 v = if v =? 0 then 1 else if v <=? 2 ^ 31 then 2 ^ Z.log2_up v else 0.
Proof.
  intros V. unfold in_u in V. change (2 ^ 32) with 4294967296 in V.
  assert (∀ x, 1 <= x < 4294967296 → fio_round_up_power_of_2_u32 x = if x <=? 2 ^ 31 then 2 ^ Z.log2_up x else 0) as Q.
  { intros x X. unfold fio_round_up_power_of_2_u32. rewrite (proj2 (Z.eqb_neq x 0)), Z.add_0_r by lia.
    rewrite (wrapu_small 32 x), (wrapu_small 32 (x - 1)) by (unfold in_u; change (2 ^ 32) with 4294967296; lia).
    set (y := Z.lor _ (Z.shiftr _ 16)). assert (smeared 32 (x - 1) y) as S.
    { apply (smear_step 16); [lia|]. apply (smear_step 8); [lia|]. apply (smear_step 4); [lia|]. apply (smear_step 2); [lia|].
      apply (smear_step 1); [lia|]. intros i I. split; [intros T; exists 0; split; [lia|by rewrite Z.add_0_r]|].
      intros (j & J & T). by replace (i + j) with i in T by lia. }
    clearbody y. destruct (decide (x = 1)) as [->|N1].
    - assert (y = 0) as ->; [|done]. apply Z.bits_inj'. intros i I. rewrite Z.bits_0. apply not_true_iff_false.
      rewrite (S i I). intros (j & _ & T). cbn in T. by rewrite Z.bits_0 in T.
    - rewrite (smeared_ones (x - 1) y) by (done || (change (2 ^ 32) with 4294967296; lia)).
      rewrite Z.ones_equiv. replace (Z.pred (2 ^ (Z.log2 (x - 1) + 1)) + 1) with (2 ^ Z.succ (Z.log2 (Z.pred x))).
      2: { replace (x - 1) with (Z.pred x) by lia. replace (Z.log2 (Z.pred x) + 1) with (Z.succ (Z.log2 (Z.pred x))) by lia. lia. }
      assert (Z.succ (Z.log2 (Z.pred x)) = Z.log2_up x) as -> by (unfold Z.log2_up; destruct (Z.compare_spec 1 x); lia).
      pose proof (Z.log2_up_nonneg x). destruct (Z.leb_spec x (2 ^ 31)) as [L|L].
      + apply wrapu_small. split; [lia|]. eapply Z.le_lt_trans; [apply Z.pow_le_mono_r; [lia|]|by apply (Z.pow_lt_mono_r 2 31 32)].
        apply Z.log2_up_le_pow2; lia.
      + assert (Z.log2_up x = 32) as ->; [|done]. apply Z.le_antisymm; [apply Z.log2_up_le_pow2; [lia|]; change (2 ^ 32) with 4294967296; lia|].
        pose proof (proj1 (Z.log2_up_lt_pow2 x 31 ltac:(lia)) L). lia. }
  destruct (Z.eqb_spec v 0) as [->|N]; [by vm_compute|]. apply Q. lia.
Qed.

(** ** Byte order *)

Lemma testbit_wrapu w z i : 0 <= w → 0 <= i → Z.testbit (wrapu w z) i = if i <? w then Z.testbit z i else false.
Proof. intros W I. unfold wrapu. destruct (Z.ltb_spec i w); [apply Z.mod_pow2_bits_low|apply Z.mod_pow2_bits_high]; lia. Qed.

(** A field with its halves exchanged. *)
Definition swapped (w f : Z) : Z := f / 2 ^ w + 2 ^ w * (f mod 2 ^ w).

Lemma lor_halves w a b : 0 <= w → small w b → 0 <= a → Z.lor (2 ^ w * a) b = b + 2 ^ w * a.
Proof.
  intros W B A. apply Z.bits_inj'. intros i I. rewrite Z.lor_spec, testbit_fields by done.
  rewrite Z.mul_comm, <-Z.shiftl_mul_pow2 by done. rewrite Z.shiftl_spec by done. destruct (Z.ltb_spec i w).
  - by rewrite Z.testbit_neg_r by lia.
  - rewrite (small_testbit w b) by done. by rewrite orb_false_r.
Qed.

Lemma small_bits w x : 0 <= w → 0 <= x → (∀ i, w <= i → Z.testbit x i = false) → small w x.
Proof.
  intros W X B. assert (x = x mod 2 ^ w) as ->; [|apply Z.mod_pos_bound, Z.pow_pos_nonneg; lia].
  apply Z.bits_inj'. intros i I. destruct (decide (i < w)); [by rewrite Z.mod_pow2_bits_low by lia|].
  rewrite Z.mod_pow2_bits_high by lia. apply B. lia.
Qed.

Lemma fields_lor w (f g : Z → Z) l :
  0 <= w → (∀ a, a ∈ l → small w (f a) ∧ small w (g a)) →
  Z.lor (fields w (f <$> l)) (fields w (g <$> l)) = fields w ((λ a, Z.lor (f a) (g a)) <$> l).
Proof.
  intros W. induction l as [|a l IH]; intros S; [done|]. rewrite !fmap_cons. cbn [fields].
  rewrite <-IH by (intros; apply S; by right). destruct (S a ltac:(by left)) as [Sf Sg].
  assert (small w (Z.lor (f a) (g a))) as Sl.
  { apply small_bits; [done|apply Z.lor_nonneg; split; [apply Sf|apply Sg]|]. intros i I. by rewrite Z.lor_spec, !(small_testbit w). }
  apply Z.bits_inj'. intros i I. rewrite Z.lor_spec, !testbit_fields by done. rewrite !Z.lor_spec. by destruct (i <? w).
Qed.

Lemma half_mask w f : 0 <= w → small (2 * w) f → Z.land (Z.shiftr f w) (Z.ones w) = f / 2 ^ w.
Proof.
  intros W F. rewrite Z.land_ones, Z.shiftr_div_pow2 by lia. apply Z.mod_small. unfold small in F.
  replace (2 * w) with (w + w) in F by lia. rewrite Z.pow_add_r in F by lia.
  split; [apply Z.div_pos; lia|apply Z.div_lt_upper_bound; lia].
Qed.

(** [((v << w) & hi) | ((v >> w) & lo)] exchanges the halves of all fields. *)
Lemma swap_step w n l :
  0 < w → length l = n → Forall (small (2 * w)) l →
  let v := fields (2 * w) l in
  let lo := fields (2 * w) (replicate n (Z.ones w)) in
  small (2 * w * Z.of_nat n) (Z.shiftl lo w) →
  Z.lor (Z.land (wrapu (2 * w * Z.of_nat n) (Z.shiftl v w)) (Z.shiftl lo w)) (Z.land (Z.shiftr v w) lo)
  = fields (2 * w) (swapped w <$> l).
Proof.
  intros W L F v lo Sh.
  assert (small w (Z.ones w)) as So by (unfold small; rewrite Z.ones_equiv; pose proof (Z.pow_pos_nonneg 2 w); lia).
  assert (small (2 * w) (Z.ones w)) as So2.
  { destruct So. split; [done|]. eapply Z.lt_le_trans; [done|]. apply Z.pow_le_mono_r; lia. }
  assert (Z.land v lo = fields (2 * w) ((λ f, f mod 2 ^ w) <$> l)) as Lo.
  { unfold v, lo. rewrite <-(Z.shiftr_0_r (fields (2 * w) l)), <-L, mask_fields by first [done | lia | by rewrite Z.sub_0_r].
    f_equal. apply list_fmap_ext. intros i f _. by rewrite Z.shiftr_0_r, Z.land_ones by lia. }
  assert (Z.land (Z.shiftr v w) lo = fields (2 * w) ((λ f, f / 2 ^ w) <$> l)) as Hi.
  { unfold v, lo. rewrite <-L, mask_fields by first [done | lia | by replace (2 * w - w) with w by lia].
    f_equal. apply list_fmap_ext. intros i f E. apply half_mask; [lia|]. rewrite list.Forall_lookup in F. by eapply F. }
  rewrite Hi. assert (Z.land (wrapu (2 * w * Z.of_nat n) (Z.shiftl v w)) (Z.shiftl lo w)
    = fields (2 * w) ((λ f, 2 ^ w * (f mod 2 ^ w)) <$> l)) as ->.
  { transitivity (Z.shiftl (Z.land v lo) w).
    - rewrite Z.shiftl_land. apply Z.bits_inj'. intros i I. rewrite !Z.land_spec. unfold wrapu.
      destruct (decide (i < 2 * w * Z.of_nat n)); [by rewrite Z.mod_pow2_bits_low by lia|].
      rewrite (small_testbit (2 * w * Z.of_nat n) (Z.shiftl lo w)) by (done || lia). by rewrite !andb_false_r.
    - rewrite Lo, Z.shiftl_mul_pow2 by lia. clear. induction l as [|a l IH]; [done|]. rewrite !fmap_cons. cbn [fields]. rewrite <-IH. lia. }
  assert (∀ f, f ∈ l → small w (f / 2 ^ w) ∧ small w (f mod 2 ^ w)) as H2.
  { intros f I. rewrite list.Forall_forall in F. specialize (F f I). unfold small in *. replace (2 * w) with (w + w) in F by lia.
    rewrite Z.pow_add_r in F by lia. split; [|apply Z.mod_pos_bound, Z.pow_pos_nonneg; lia].
    split; [apply Z.div_pos; lia|apply Z.div_lt_upper_bound; lia]. }
  assert (∀ a, small w a → small (2 * w) a ∧ small (2 * w) (2 ^ w * a)) as H3.
  { intros a A. unfold small in *. replace (2 * w) with (w + w) by lia. rewrite Z.pow_add_r by lia. nia. }
  rewrite fields_lor by (lia || (intros f I; split; apply H3; by apply H2)). f_equal. apply list_fmap_ext.
  intros i f E. unfold swapped. apply lor_halves; [lia| |]; apply H2; by eapply list_elem_of_lookup_2.
Qed.

Lemma swapped_pair w a b : 0 <= w → small w a → swapped w (a + 2 ^ w * b) = b + 2 ^ w * a.
Proof.
  intros W A. assert (2 ^ w ≠ 0) by (apply Z.pow_nonzero; lia). unfold swapped. rewrite (Z.mul_comm (2 ^ w) b), Z.div_add, Z.mod_add by done.
  by rewrite Z.div_small, Z.mod_small.
Qed.

Lemma small_pair w a b : 0 <= w → small w a → small w b → small (2 * w) (a + 2 ^ w * b).
Proof. intros W A B. unfold small in *. replace (2 * w) with (w + w) by lia. rewrite Z.pow_add_r by lia. nia. Qed.

(** The last step of the 32-bit swap has no masks. *)
Lemma swap_whole w f : 0 < w → small (2 * w) f → Z.lor (wrapu (2 * w) (Z.shiftl f w)) (Z.shiftr f w) = swapped w f.
Proof.
  intros W F. unfold wrapu. rewrite Z.shiftl_mul_pow2, Z.shiftr_div_pow2 by lia. replace (2 * w) with (w + w) by lia.
  unfold small in F. replace (2 * w) with (w + w) in F by lia. rewrite Z.pow_add_r in * by lia.
  assert (0 < 2 ^ w) by (apply Z.pow_pos_nonneg; lia). rewrite Z.mul_mod_distr_r by lia. rewrite Z.mul_comm. apply lor_halves; [lia| |].
  - split; [apply Z.div_pos; lia|apply Z.div_lt_upper_bound; lia].
  - apply Z.mod_pos_bound. lia.
Qed.

(** A property of each element of a list that is written out. *)
Ltac each tac := repeat (apply list.Forall_cons_2; [solve [tac]|]); apply list.Forall_nil_2.

Lemma bswap16_bytes a b : small 8 a → small 8 b → fusion_bswap16 (fields 8 [a; b]) = fields 8 [b; a].
Proof.
  intros A B. unfold fusion_bswap16. assert (small 16 (fields 8 [a; b])) as S by (apply (fields_range 8 [a; b]); [lia|each done]).
  transitivity (Z.lor (wrapu (2 * 8) (Z.shiftl (fields 8 [a; b]) 8)) (Z.shiftr (fields 8 [a; b]) 8)).
  - apply Z.bits_inj'. intros i I. change (2 * 8) with 16. rewrite Z.lor_spec, !testbit_wrapu, Z.lor_spec by lia.
    destruct (Z.ltb_spec i 16); [done|]. rewrite Z.shiftr_spec, (small_testbit 16) by (done || lia). done.
  - rewrite swap_whole by (lia || exact S). cbn [fields]. rewrite Z.mul_0_r, !Z.add_0_r. by apply swapped_pair.
Qed.

Lemma bswap32_bytes a b c d :
  small 8 a → small 8 b → small 8 c → small 8 d → fusion_bswap32 (fields 8 [a; b; c; d]) = fields 8 [d; c; b; a].
Proof.
  intros A B C D. unfold fusion_bswap32. rewrite (fields_pairs 8 [a; b; c; d]) by lia. cbn [pairs]. change (2 * 8) with 16.
  pose proof (swap_step 8 2 [a + 2 ^ 8 * b; c + 2 ^ 8 * d] ltac:(lia) eq_refl) as S1. cbv zeta in S1.
  change (2 * 8 * Z.of_nat 2) with 32 in S1. change (2 * 8) with 16 in S1.
  change (fields 16 (replicate 2 (Z.ones 8))) with 0x00FF00FF in S1. change (Z.shiftl 0x00FF00FF 8) with 0xFF00FF00 in S1.
  rewrite S1; clear S1; [|each ltac:(by apply (small_pair 8))|by vm_compute].
  rewrite !fmap_cons, !swapped_pair by (done || lia). cbn [fmap list_fmap].
  rewrite (fields_pairs 16) by lia. cbn [pairs fields]. rewrite !Z.mul_0_r, !Z.add_0_r.
  rewrite (swap_whole 16) by (lia || (apply small_pair; [lia| |]; by apply (small_pair 8))).
  rewrite swapped_pair by (lia || by apply (small_pair 8)). change (2 ^ 16) with 65536. change (2 ^ 8) with 256. lia.
Qed.

Lemma bswap64_bytes a b c d e f g h :
  small 8 a → small 8 b → small 8 c → small 8 d → small 8 e → small 8 f → small 8 g → small 8 h →
  fusion_bswap64 (fields 8 [a; b; c; d; e; f; g; h]) = fields 8 [h; g; f; e; d; c; b; a].
Proof.
  intros A B C D E F G H. unfold fusion_bswap64. rewrite (fields_pairs 8 [a; b; c; d; e; f; g; h]) by lia. cbn [pairs]. change (2 * 8) with 16.
  pose proof (swap_step 8 4 [a + 2 ^ 8 * b; c + 2 ^ 8 * d; e + 2 ^ 8 * f; g + 2 ^ 8 * h] ltac:(lia) eq_refl) as S1. cbv zeta in S1.
  change (2 * 8 * Z.of_nat 4) with 64 in S1. change (2 * 8) with 16 in S1.
  change (fields 16 (replicate 4 (Z.ones 8))) with 0x00ff00ff00ff00ff in S1. change (Z.shiftl 0x00ff00ff00ff00ff 8) with 0xff00ff00ff00ff00 in S1.
  rewrite S1; clear S1; [|each ltac:(by apply (small_pair 8))|by vm_compute].
  rewrite !fmap_cons, !swapped_pair by (done || lia). cbn [fmap list_fmap].
  rewrite (fields_pairs 16) by lia. cbn [pairs]. change (2 * 16) with 32.
  assert (∀ x y, small 8 x → small 8 y → small 16 (x + 2 ^ 8 * y)) as P1 by (intros; by apply (small_pair 8)).
  assert (∀ x y, small 16 x → small 16 y → small 32 (x + 2 ^ 16 * y)) as P2 by (intros; by apply (small_pair 16)).
  pose proof (swap_step 16 2 [b + 2 ^ 8 * a + 2 ^ 16 * (d + 2 ^ 8 * c); f + 2 ^ 8 * e + 2 ^ 16 * (h + 2 ^ 8 * g)] ltac:(lia) eq_refl) as S2. cbv zeta in S2.
  change (2 * 16 * Z.of_nat 2) with 64 in S2. change (2 * 16) with 32 in S2.
  change (fields 32 (replicate 2 (Z.ones 16))) with 0x0000ffff0000ffff in S2. change (Z.shiftl 0x0000ffff0000ffff 16) with 0xffff0000ffff0000 in S2.
  rewrite S2; clear S2; [|each ltac:(apply P2; by apply P1)|by vm_compute].
  rewrite !fmap_cons, !swapped_pair by (lia || by apply P1). cbn [fmap list_fmap].
  rewrite (fields_pairs 32) by lia. cbn [pairs]. change (2 * 32) with 64.
  pose proof (swap_step 32 1 [d + 2 ^ 8 * c + 2 ^ 16 * (b + 2 ^ 8 * a) + 2 ^ 32 * (h + 2 ^ 8 * g + 2 ^ 16 * (f + 2 ^ 8 * e))] ltac:(lia) eq_refl) as S3. cbv zeta in S3.
  change (2 * 32 * Z.of_nat 1) with 64 in S3. change (2 * 32) with 64 in S3.
  change (fields 64 (replicate 1 (Z.ones 32))) with 0x00000000ffffffff in S3. change (Z.shiftl 0x00000000ffffffff 32) with 0xffffffff00000000 in S3.
  rewrite S3; clear S3; [|each ltac:(apply (small_pair 32); [lia| |]; apply P2; by apply P1)|by vm_compute].
  rewrite !fmap_cons, !swapped_pair by (lia || (apply P2; by apply P1)). cbn [fmap list_fmap fields].
  change (2 ^ 16) with 65536. change (2 ^ 8) with 256. change (2 ^ 32) with 4294967296. lia.
Qed.

(** The byte swaps put the bytes of a word in the opposite order, and so undo
    themselves, for 16-bit, 32-bit and 64-bit words. *)
Theorem bswap_reverses l :
  Forall (small 8) l →
  (length l = 2%nat → fusion_bswap16 (fields 8 l) = fields 8 (reverse l) ∧ fusion_bswap16 (fusion_bswap16 (fields 8 l)) = fields 8 l)
  ∧ (length l = 4%nat → fusion_bswap32 (fields 8 l) = fields 8 (reverse l) ∧ fusion_bswap32 (fusion_bswap32 (fields 8 l)) = fields 8 l)
  ∧ (length l = 8%nat → fusion_bswap64 (fields 8 l) = fields 8 (reverse l) ∧ fusion_bswap64 (fusion_bswap64 (fields 8 l)) = fields 8 l).
Proof.
  intros F. split_and!; intros L.
  - destruct l as [|a [|b [|? ?]]]; try discriminate. repeat (apply list.Forall_cons in F as [? F]).
    by rewrite !bswap16_bytes.
  - destruct l as [|a [|b [|c [|d [|? ?]]]]]; try discriminate. repeat (apply list.Forall_cons in F as [? F]).
    by rewrite !bswap32_bytes.
  - destruct l as [|a [|b [|c [|d [|e [|f [|g [|h [|? ?]]]]]]]]]; try discriminate. repeat (apply list.Forall_cons in F as [? F]).
    by rewrite !bswap64_bytes.
Qed.

(** ** Witnesses *)

Lemma bitcounts_exact_witness : fio_bitcount32 0xF000000F = bits_set 32 0xF000000F ∧ bits_set 32 0xF000000F = 8.
Proof. split; [apply (bitcounts_exact 0xF000000F); done|by vm_compute]. Defined.

Lemma bit_indices_exact_witness :
  fio_get_top_bit_set_index32 0x80000001 = 31 ∧ ∃ j, fio_get_nth_bit_set_index32 0x80000001 2 = Z.of_nat j.
Proof.
  destruct (bit_indices_exact 0x80000001 2) as [(j & E & _) T]; [done|lia|]. split; [exact T|]. exists j. exact E.
Defined.

Lemma round_up_exact_witness : fio_round_up_power_of_2_u32 5 = 8 ∧ fio_round_up_power_of_2_u32 0x80000001 = 0.
Proof. split; [exact (round_up_exact 5 ltac:(done))|exact (round_up_exact 0x80000001 ltac:(done))]. Defined.

Lemma bswap_reverses_witness : fusion_bswap32 0x11223344 = 0x44332211 ∧ fusion_bswap32 (fusion_bswap32 0x11223344) = 0x11223344.
Proof. apply (bswap_reverses [0x44; 0x33; 0x22; 0x11]); [each done|done]. Defined.
