(* ===== verification/Condvar.v ===== *)
(** * Condition variables: kcondvar.c, include/fio/port/kcondvar.h

    The wrappers put a Linux wait queue behind [fusion_condvar_t].  The wait
    queue is kernel code: it is the interface [WaitQueue], with the documented
    behaviour the driver relies on as [WaitQueueLaws].  The components that
    sleep on a condition variable (the six-mode lock, the state variable) are
    proved against this interface only; [fifo] at the end of the file is the
    order Linux implements and discharges it. *)
From S2P Require Import Prelude.

Class WaitQueue (Q : Type) := {
  wq_init : Q;                                    (* init_waitqueue_head *)
  wq_waiters : Q → list nat;                      (* the sleeping threads *)
  wq_prepare_to_wait_exclusive : nat → Q → Q;
  wq_wake_up : Q → option nat * Q;                (* wakes one exclusive waiter *)
  wq_wake_up_all : Q → list nat * Q;
  wq_finish_wait : nat → Q → Q;
}.

Class WaitQueueLaws (Q : Type) `{WaitQueue Q} := {
  wq_waiters_init : wq_waiters wq_init = [];
  wq_waiters_prepare t (q : Q) :
    t ∉ wq_waiters q → wq_waiters (wq_prepare_to_wait_exclusive t q) ≡ₚ t :: wq_waiters q;
  wq_wake_up_spec (q : Q) :
    match wq_wake_up q with
    | (None, q') => wq_waiters q = [] ∧ wq_waiters q' = []
    | (Some t, q') => wq_waiters q ≡ₚ t :: wq_waiters q'
    end;
  wq_wake_up_all_spec (q : Q) :
    (wq_wake_up_all q).1 ≡ₚ wq_waiters q ∧ wq_waiters (wq_wake_up_all q).2 = [];
  wq_finish_spec t (q : Q) :
    wq_waiters (wq_finish_wait t q) ≡ₚ filter (.≠ t) (wq_waiters q);
}.

(** What a wait with a timeout returns. *)
Definition FUSION_WAIT_TIMEDOUT : Z := 0.
Definition FUSION_WAIT_INTERRUPTED : Z := -1.
Definition FUSION_WAIT_TRIGGERED : Z := 1.

Section condvar.
Context {Q : Type} `{WaitQueue Q}.

Definition fusion_condvar_init : Q := wq_init.

(** The signalled thread, if any, becomes runnable. *)
Definition fusion_condvar_signal (cv : Q) : option nat * Q := wq_wake_up cv.

Definition fusion_condvar_broadcast (cv : Q) : list nat * Q := wq_wake_up_all cv.

(** [fusion_condvar_wait] up to [schedule()]: the thread is queued before the
    lock is released, so no signal sent after the release can miss it. *)
Definition fusion_condvar_wait_begin (t : nat) (cv : Q) : Q :=
  wq_prepare_to_wait_exclusive t cv.

(** [fusion_condvar_wait] after [schedule()], with the lock taken again. *)
Definition fusion_condvar_wait_end (t : nat) (cv : Q) : Q := wq_finish_wait t cv.
End condvar.

Section laws.
Context {Q : Type} `{WaitQueueLaws Q}.

Lemma signal_elem (cv cv' : Q) t :
  fusion_condvar_signal cv = (Some t, cv') → wq_waiters cv ≡ₚ t :: wq_waiters cv'.
Proof.
  intros E. pose proof (wq_wake_up_spec cv) as Hs.
  unfold fusion_condvar_signal in E. by rewrite E in Hs.
Qed.

Lemma signal_none (cv cv' : Q) :
  fusion_condvar_signal cv = (None, cv') → wq_waiters cv = [] ∧ wq_waiters cv' = [].
Proof.
  intros E. pose proof (wq_wake_up_spec cv) as Hs.
  unfold fusion_condvar_signal in E. by rewrite E in Hs.
Qed.

Lemma wait_end_elem t u (cv : Q) :
  u ∈ wq_waiters (fusion_condvar_wait_end t cv) ↔ u ≠ t ∧ u ∈ wq_waiters cv.
Proof.
  unfold fusion_condvar_wait_end. rewrite (wq_finish_spec t cv).
  by rewrite list_elem_of_filter.
Qed.
End laws.

(** ** The kernel's order: first queued, first woken *)

Module fifo.
#[global] Instance fifo_queue : WaitQueue (list nat) := {
  wq_init := [];
  wq_waiters q := q;
  wq_prepare_to_wait_exclusive t q := q ++ [t];
  wq_wake_up q := match q with [] => (None, []) | t :: q' => (Some t, q') end;
  wq_wake_up_all q := (q, []);
  wq_finish_wait t q := filter (.≠ t) q;
}.

#[global] Instance fifo_laws : WaitQueueLaws (list nat).
Proof.
  split; simpl.
  - done.
  - intros t q _. by rewrite Permutation_app_comm.
  - by intros [|t q].
  - done.
  - done.
Qed.
End fifo.
