(* ===== verification/SixLock.v ===== *)
(** * Six-mode lock: six_lock.c, include/fio/port/six_lock.h

    A multiple-granularity lock with the modes NULL, IS, IX, S, SIX, U and X.
    The first half is the sequential content of each API function, cut at the
    point where [fusion_sixsem_upgrade] releases the spinlock to sleep; the
    second half runs any number of threads over one semaphore, one critical
    section per step.  [kassert] is compiled out in the shipped configuration
    (FUSION_DEBUG is 0): the asserted conditions are proved of every reachable
    state instead. *)
From S2P Require Import Prelude Condvar.

(** ** Lock modes and their tables *)

Inductive sixsem_lock :=
| LOCK_NULL | LOCK_IS | LOCK_IX | LOCK_S | LOCK_SIX | LOCK_U | LOCK_X.

#[global] Instance sixsem_lock_eq_dec : EqDecision sixsem_lock.
Proof. solve_decision. Defined.

(** The enumerator's value. *)
Definition lock_index (m : sixsem_lock) : nat :=
  match m with
  | LOCK_NULL => 0 | LOCK_IS => 1 | LOCK_IX => 2 | LOCK_S => 3
  | LOCK_SIX => 4 | LOCK_U => 5 | LOCK_X => 6
  end%nat.

Definition NUM_SIX_LOCK_CLASSES : nat := 7.

Definition all_modes : list sixsem_lock :=
  [LOCK_NULL; LOCK_IS; LOCK_IX; LOCK_S; LOCK_SIX; LOCK_U; LOCK_X].

(** [MASK_NULL] .. [MASK_X]. *)
Definition MASK (m : sixsem_lock) : Z := Z.shiftl 1 (Z.of_nat (lock_index m)).

(** [lock_mode_masks[m]], stored as [int8_t]. *)
Definition lock_mode_masks (m : sixsem_lock) : Z := s8 (MASK m).

Definition MASKS (l : list sixsem_lock) : Z := foldr (λ m a, Z.lor (MASK m) a) 0 l.

Definition COMPAT_MASK (m : sixsem_lock) : Z :=
  match m with
  | LOCK_NULL => MASKS [LOCK_NULL; LOCK_S; LOCK_IS; LOCK_IX; LOCK_SIX; LOCK_X; LOCK_U]
  | LOCK_IS => MASKS [LOCK_NULL; LOCK_S; LOCK_IS; LOCK_IX; LOCK_SIX]
  | LOCK_IX => MASKS [LOCK_NULL; LOCK_IS; LOCK_IX]
  | LOCK_S => MASKS [LOCK_NULL; LOCK_S; LOCK_IS]
  | LOCK_SIX => MASKS [LOCK_NULL; LOCK_IS]
  | LOCK_U => MASKS [LOCK_NULL; LOCK_S]
  | LOCK_X => MASKS [LOCK_NULL]
  end.

(** [incompat_masks[m]], stored as [int8_t]. *)
Definition incompat_masks (m : sixsem_lock) : Z := s8 (Z.lnot (COMPAT_MASK m)).

(** [upgrade_conversion[new_mode][old_mode]]. *)
Definition upgrade_conversion_table : list (list sixsem_lock) :=
  [ [LOCK_NULL; LOCK_IS;  LOCK_IX;  LOCK_S;   LOCK_SIX; LOCK_U;   LOCK_X];
    [LOCK_IS;   LOCK_IS;  LOCK_IX;  LOCK_S;   LOCK_SIX; LOCK_U;   LOCK_X];
    [LOCK_IX;   LOCK_IX;  LOCK_IX;  LOCK_SIX; LOCK_SIX; LOCK_X;   LOCK_X];
    [LOCK_S;    LOCK_S;   LOCK_SIX; LOCK_S;   LOCK_SIX; LOCK_U;   LOCK_X];
    [LOCK_SIX;  LOCK_SIX; LOCK_SIX; LOCK_SIX; LOCK_SIX; LOCK_SIX; LOCK_X];
    [LOCK_U;    LOCK_U;   LOCK_X;   LOCK_U;   LOCK_SIX; LOCK_U;   LOCK_X];
    [LOCK_X;    LOCK_X;   LOCK_X;   LOCK_X;   LOCK_X;   LOCK_X;   LOCK_X] ].

Definition upgrade_conversion (new old : sixsem_lock) : sixsem_lock :=
  nth (lock_index old) (nth (lock_index new) upgrade_conversion_table []) LOCK_NULL.

(** ** The semaphore *)

(** [fusion_sixsem_t] without its spinlock and condition variable, which the
    thread system below provides. *)
Record sixsem := mk_sixsem {
  cur_locks_mask : Z;       (* int8_t *)
  lock_counts : list Z;     (* uint16_t [NUM_SIX_LOCK_CLASSES] *)
  wait_count : Z;           (* uint16_t *)
  wake_serial : Z;          (* uint64_t *)
  wait_serial : Z           (* uint64_t *)
}.

#[global] Instance sixsem_eq_dec : EqDecision sixsem.
Proof. solve_decision. Defined.

Definition lock_count (sem : sixsem) (m : sixsem_lock) : Z :=
  default 0 (lock_counts sem !! lock_index m).

Definition set_lock_count (m : sixsem_lock) (v : Z) (sem : sixsem) : sixsem :=
  mk_sixsem (cur_locks_mask sem) (<[lock_index m := v]> (lock_counts sem))
    (wait_count sem) (wake_serial sem) (wait_serial sem).

Definition set_mask (v : Z) (sem : sixsem) : sixsem :=
  mk_sixsem v (lock_counts sem) (wait_count sem) (wake_serial sem) (wait_serial sem).

Definition set_wait_count (v : Z) (sem : sixsem) : sixsem :=
  mk_sixsem (cur_locks_mask sem) (lock_counts sem) v (wake_serial sem) (wait_serial sem).

Definition set_wake_serial (v : Z) (sem : sixsem) : sixsem :=
  mk_sixsem (cur_locks_mask sem) (lock_counts sem) (wait_count sem) v (wait_serial sem).

Definition set_wait_serial (v : Z) (sem : sixsem) : sixsem :=
  mk_sixsem (cur_locks_mask sem) (lock_counts sem) (wait_count sem) (wake_serial sem) v.

Definition fusion_sixsem_init : sixsem :=
  mk_sixsem 0 (replicate NUM_SIX_LOCK_CLASSES 0) 0 0 0.

Definition six_lock_is_compatible (sem : sixsem) (old new : sixsem_lock) : bool :=
  if cur_locks_mask sem =? 0 then true
  else
    let locks_mask :=
      if lock_count sem old =? 1
      then s8 (Z.land (cur_locks_mask sem) (Z.lnot (lock_mode_masks old)))
      else cur_locks_mask sem in
    Z.land (incompat_masks new) locks_mask =? 0.

Definition serial64_compare (s1 s2 : Z) : Z :=
  if s1 =? s2 then 0
  else if s1 <? s2 then
    (if u64 (s2 - s1) <? 2 ^ 63 then -1 else 1)
  else
    (if u64 (s2 - s1) <? 2 ^ 63 then 1 else -1).

(** [if (!--sem->lock_counts[m]) sem->cur_locks_mask &= ~lock_mode_masks[m];] *)
Definition drop_lock (m : sixsem_lock) (sem : sixsem) : sixsem :=
  let c := u16 (lock_count sem m - 1) in
  let sem := set_lock_count m c sem in
  if c =? 0
  then set_mask (s8 (Z.land (cur_locks_mask sem) (Z.lnot (lock_mode_masks m)))) sem
  else sem.

(** ** [fusion_sixsem_upgrade], cut where it sleeps *)

(** The locals a waiting call keeps across [fusion_condvar_wait]. *)
Record upgrade_req := mk_req {
  rq_old : sixsem_lock; rq_new : sixsem_lock; rq_serial : Z
}.

#[global] Instance upgrade_req_eq_dec : EqDecision upgrade_req.
Proof. solve_decision. Defined.

(** How a critical section of [fusion_sixsem_upgrade] ends. *)
Inductive section_end :=
| QueueFull (sem : sixsem)                      (* return -EAGAIN, wait queue full *)
| CountFull (sem : sixsem)                      (* return -EAGAIN, lock count full *)
| Granted (sem : sixsem) (signal : bool)        (* return 0 *)
| Waits (sem : sixsem) (rq : upgrade_req).      (* sleeps on sixsem_cv *)

Definition retval (e : section_end) : option Z :=
  match e with
  | QueueFull _ | CountFull _ => Some (- EAGAIN)
  | Granted _ _ => Some 0
  | Waits _ _ => None
  end.

(** The condition of the [while] around [fusion_condvar_wait]. *)
Definition upgrade_must_wait (sem : sixsem) (rq : upgrade_req) (init_flag : bool) : bool :=
  ((wait_count sem >? 1) && init_flag)
  || (serial64_compare (rq_serial rq) (wake_serial sem) <? 0)
  || negb (six_lock_is_compatible sem (rq_old rq) (rq_new rq)).

(** From "Lock is granted" to the unlock. *)
Definition upgrade_grant (sem : sixsem) (rq : upgrade_req) : section_end :=
  let old := rq_old rq in
  let new := rq_new rq in
  let sem := if decide (old = LOCK_NULL) then sem
             else set_wake_serial (u64 (wake_serial sem + 1)) sem in
  let sem := if decide (old = LOCK_NULL) then sem else drop_lock old sem in
  let c := u16 (lock_count sem new + 1) in
  let sem := set_lock_count new c sem in
  if c =? 0 then CountFull (set_lock_count new (u16 (c - 1)) sem)
  else
    let sem := set_mask (s8 (Z.lor (cur_locks_mask sem) (lock_mode_masks new))) sem in
    let sem := set_wait_count (u16 (wait_count sem - 1)) sem in
    Granted sem (wait_count sem >? 0).

(** One evaluation of the [while] condition, and what follows it. *)
Definition upgrade_poll (sem : sixsem) (rq : upgrade_req) (init_flag : bool) : section_end :=
  if upgrade_must_wait sem rq init_flag then Waits sem rq else upgrade_grant sem rq.

(** The whole call up to its first release of the spinlock. *)
Definition fusion_sixsem_upgrade (sem : sixsem) (old new : sixsem_lock) : section_end :=
  let new := upgrade_conversion new old in
  let wc := u16 (wait_count sem + 1) in
  let sem := set_wait_count wc sem in
  if wc =? 0 then QueueFull (set_wait_count (u16 (wc - 1)) sem)
  else
    let serial := wait_serial sem in
    let sem := if decide (old = LOCK_NULL) then sem
               else set_wait_serial (u64 (wait_serial sem + 1)) sem in
    upgrade_poll sem (mk_req old new serial) true.

(** A waiter that runs again: [init_flag] is now false. *)
Definition upgrade_resume (sem : sixsem) (rq : upgrade_req) : section_end :=
  upgrade_poll sem rq false.

Definition fusion_sixsem_down (sem : sixsem) (new : sixsem_lock) : section_end :=
  fusion_sixsem_upgrade sem LOCK_NULL new.

Definition fusion_sixsem_down_trylock (sem : sixsem) (mode : sixsem_lock) : sixsem * bool :=
  if wait_count sem >? 0 then (sem, false)
  else if (wait_serial sem =? wake_serial sem) && six_lock_is_compatible sem LOCK_NULL mode
  then
    let c := u16 (lock_count sem mode + 1) in
    let sem := set_lock_count mode c sem in
    if c =? 0 then (set_lock_count mode (u16 (c - 1)) sem, false)
    else (set_mask (s8 (Z.lor (cur_locks_mask sem) (lock_mode_masks mode))) sem, true)
  else (sem, false).

(** [fusion_sixsem_up]; the caller then signals [sixsem_cv] unconditionally. *)
Definition fusion_sixsem_up (sem : sixsem) (mode : sixsem_lock) : sixsem :=
  drop_lock mode sem.

(** The condition asserted by [fusion_sixsem_destroy]. *)
Definition fusion_sixsem_destroy_ok (sem : sixsem) : bool :=
  (cur_locks_mask sem =? 0) && (wait_count sem =? 0).

(** ** Reading the tables

    Masks have seven significant bits, so facts about the mask arithmetic are
    checked for the 128 masks by computation. *)

Definition mode_bit (mask : Z) (m : sixsem_lock) : bool :=
  Z.testbit mask (Z.of_nat (lock_index m)).

(** A request for [new] may be granted while [held] is held. *)
Definition compat (new held : sixsem_lock) : bool := mode_bit (COMPAT_MASK new) held.

Lemma mask_cases (P : Z → bool) :
  forallb P (map Z.of_nat (seq 0 128)) = true → ∀ z, 0 <= z < 128 → P z = true.
Proof.
  intros H z Hz. rewrite forallb_forall in H. apply H.
  rewrite in_map_iff. exists (Z.to_nat z). rewrite in_seq. lia.
Qed.

Lemma all_modes_elem m : m ∈ all_modes.
Proof. destruct m; vm_compute; set_solver. Qed.

Lemma lock_index_inj m1 m2 : lock_index m1 = lock_index m2 → m1 = m2.
Proof. by destruct m1, m2. Qed.

Lemma lock_index_lt m : (lock_index m < NUM_SIX_LOCK_CLASSES)%nat.
Proof. destruct m; unfold NUM_SIX_LOCK_CLASSES; simpl; lia. Qed.

(** [~] on the [int8_t] table tests exactly the incompatible modes. *)
Lemma incompat_land new mask :
  0 <= mask < 128 →
  Z.land (incompat_masks new) mask = 0 ↔ ∀ m, mode_bit mask m = true → compat new m = true.
Proof.
  intros Hm.
  assert ((Z.land (incompat_masks new) mask =? 0)
          = forallb (λ m, implb (mode_bit mask m) (compat new m)) all_modes) as E.
  { apply eqb_true_iff. revert mask Hm. apply mask_cases. by destruct new; vm_compute. }
  rewrite <- Z.eqb_eq, E, forallb_forall. split.
  - intros H m Hb. specialize (H m). rewrite Hb in H. apply H, list_elem_of_In, all_modes_elem.
  - intros H m _. destruct (mode_bit mask m) eqn:Hb; [|done]. simpl. auto.
Qed.

Lemma clear_bit mask m :
  0 <= mask < 128 →
  0 <= s8 (Z.land mask (Z.lnot (lock_mode_masks m))) < 128
  ∧ ∀ k, mode_bit (s8 (Z.land mask (Z.lnot (lock_mode_masks m)))) k
         = mode_bit mask k && negb (bool_decide (m = k)).
Proof.
  intros Hm. set (v := λ mask, s8 (Z.land mask (Z.lnot (lock_mode_masks m)))).
  assert (((0 <=? v mask) && (v mask <? 128)
           && forallb (λ k, eqb (mode_bit (v mask) k)
                                (mode_bit mask k && negb (bool_decide (m = k)))) all_modes)
          = true) as E.
  { revert mask Hm. apply mask_cases. by destruct m; vm_compute. }
  rewrite !andb_true_iff, forallb_forall in E. destruct E as [[E1 E2] E3].
  split; [unfold v in *; lia|]. intros k. apply eqb_true_iff, E3, list_elem_of_In, all_modes_elem.
Qed.

Lemma set_bit mask m :
  0 <= mask < 128 →
  0 <= s8 (Z.lor mask (lock_mode_masks m)) < 128
  ∧ ∀ k, mode_bit (s8 (Z.lor mask (lock_mode_masks m))) k
         = mode_bit mask k || bool_decide (m = k).
Proof.
  intros Hm. set (v := λ mask, s8 (Z.lor mask (lock_mode_masks m))).
  assert (((0 <=? v mask) && (v mask <? 128)
           && forallb (λ k, eqb (mode_bit (v mask) k)
                                (mode_bit mask k || bool_decide (m = k))) all_modes)
          = true) as E.
  { revert mask Hm. apply mask_cases. by destruct m; vm_compute. }
  rewrite !andb_true_iff, forallb_forall in E. destruct E as [[E1 E2] E3].
  split; [unfold v in *; lia|]. intros k. apply eqb_true_iff, E3, list_elem_of_In, all_modes_elem.
Qed.

Lemma mask_zero mask :
  0 <= mask < 128 → (∀ m, mode_bit mask m = false) → mask = 0.
Proof.
  intros Hm H.
  assert (implb (forallb (λ m, negb (mode_bit mask m)) all_modes) (mask =? 0) = true) as E.
  { revert mask Hm H. intros mask Hm _. revert mask Hm. apply mask_cases. by vm_compute. }
  assert (forallb (λ m, negb (mode_bit mask m)) all_modes = true) as F.
  { apply forallb_forall. intros m _. by rewrite H. }
  rewrite F in E. simpl in E. lia.
Qed.

(** ** Well-formed semaphores *)

Record sem_wf (sem : sixsem) : Prop := {
  wf_counts : length (lock_counts sem) = NUM_SIX_LOCK_CLASSES;
  wf_mask : 0 <= cur_locks_mask sem < 128;
  wf_count m : 0 <= lock_count sem m < 65536;
  wf_bits m : mode_bit (cur_locks_mask sem) m = (0 <? lock_count sem m);
  wf_wait : 0 <= wait_count sem < 65536;
  wf_wake : in_u 64 (wake_serial sem);
  wf_waits : in_u 64 (wait_serial sem)
}.

Lemma lock_count_set m v sem k :
  length (lock_counts sem) = NUM_SIX_LOCK_CLASSES →
  lock_count (set_lock_count m v sem) k = if decide (m = k) then v else lock_count sem k.
Proof.
  intros Hl. unfold lock_count, set_lock_count. simpl. case_decide as E.
  - subst. rewrite list_lookup_insert_eq; [done|]. rewrite Hl. apply lock_index_lt.
  - rewrite list_lookup_insert_ne; [done|]. intros ?. by apply E, lock_index_inj.
Qed.

Lemma sem_wf_init : sem_wf fusion_sixsem_init.
Proof.
  split; try done; try (intros []; vm_compute; try done; split; congruence).
Qed.

(** Releasing a held mode: the count goes down by one and the mask follows. *)
Lemma drop_lock_wf m sem :
  sem_wf sem → 0 < lock_count sem m →
  sem_wf (drop_lock m sem)
  ∧ (∀ k, lock_count (drop_lock m sem) k
          = lock_count sem k - (if decide (k = m) then 1 else 0))
  ∧ wait_count (drop_lock m sem) = wait_count sem
  ∧ wake_serial (drop_lock m sem) = wake_serial sem
  ∧ wait_serial (drop_lock m sem) = wait_serial sem.
Proof.
  intros [Hl Hm Hc Hb Hw Hk Hs] Hpos. pose proof (Hc m) as Hcm.
  assert (u16 (lock_count sem m - 1) = lock_count sem m - 1) as E
    by (apply wrapu_small; unfold in_u; lia).
  assert (∀ v k, lock_count (set_mask v (set_lock_count m (lock_count sem m - 1) sem)) k
            = lock_count sem k - (if decide (k = m) then 1 else 0)) as Hk'.
  { intros v k. change (lock_count (set_mask v ?s) k) with (lock_count s k).
    rewrite lock_count_set by done. repeat case_decide; subst; try done; lia. }
  unfold drop_lock. rewrite E. destruct (_ =? 0) eqn:Ez.
  - destruct (clear_bit (cur_locks_mask sem) m Hm) as [Hr Hbits].
    split_and!; [split|..]; try done; simpl.
    + by rewrite length_insert.
    + intros k. rewrite Hk'. pose proof (Hc k). case_decide; subst; lia.
    + intros k. rewrite Hk', Hbits, Hb. pose proof (Hc k).
      repeat case_decide; repeat case_bool_decide; subst; simpl; try done; lia.
  - pose proof (Hk' (cur_locks_mask sem)) as Hk''.
    change (set_mask (cur_locks_mask sem) (set_lock_count m (lock_count sem m - 1) sem))
      with (set_lock_count m (lock_count sem m - 1) sem) in Hk''.
    split_and!; [split|..]; try done; simpl.
    + by rewrite length_insert.
    + intros k. rewrite Hk''. pose proof (Hc k). case_decide; subst; lia.
    + intros k. rewrite Hk'', Hb. pose proof (Hc k). case_decide; subst; lia.
Qed.

(** The inverse: recording a granted mode. *)
Definition add_lock (m : sixsem_lock) (sem : sixsem) : sixsem :=
  set_mask (s8 (Z.lor (cur_locks_mask sem) (lock_mode_masks m)))
    (set_lock_count m (lock_count sem m + 1) sem).

Lemma add_lock_wf m sem :
  sem_wf sem → lock_count sem m < 65535 →
  sem_wf (add_lock m sem)
  ∧ (∀ k, lock_count (add_lock m sem) k
          = lock_count sem k + (if decide (k = m) then 1 else 0)).
Proof.
  intros [Hl Hm Hc Hb Hw Hk Hs] Hpos. pose proof (Hc m) as Hcm.
  assert (∀ k, lock_count (add_lock m sem) k
            = lock_count sem k + (if decide (k = m) then 1 else 0)) as Hk'.
  { intros k. unfold add_lock.
    change (lock_count (set_mask ?v ?s) k) with (lock_count s k).
    rewrite lock_count_set by done. repeat case_decide; subst; try done; lia. }
  destruct (set_bit (cur_locks_mask sem) m Hm) as [Hr Hbits].
  split; [split|done]; try done; simpl.
  - by rewrite length_insert.
  - intros k. rewrite Hk'. pose proof (Hc k). case_decide; subst; lia.
  - intros k. rewrite Hk', Hbits, Hb. pose proof (Hc k).
    repeat case_decide; repeat case_bool_decide; subst; simpl; try done; lia.
Qed.

(** The increment of a lock count either overflows, and is undone, or is
    exact. *)
Lemma count_incr m sem :
  sem_wf sem →
  (u16 (lock_count sem m + 1) = 0 ∧ lock_count sem m = 65535
   ∧ set_lock_count m (u16 (0 - 1)) (set_lock_count m 0 sem) = sem)
  ∨ (u16 (lock_count sem m + 1) = lock_count sem m + 1 ∧ lock_count sem m < 65535).
Proof.
  intros Hwf. pose proof (wf_count _ Hwf m) as Hc.
  destruct (decide (lock_count sem m = 65535)) as [E|E].
  - left. split_and!; [by rewrite E|done|].
    unfold set_lock_count. simpl. rewrite list_insert_insert_eq.
    unfold lock_count in E. destruct sem as [k l w a b]; simpl in *. f_equal.
    apply list_insert_id. destruct (l !! lock_index m); simpl in *; [|lia].
    by rewrite E.
  - right. split; [apply wrapu_small; unfold in_u|]; lia.
Qed.

(** The compatibility test compares the request with every mode held by
    someone else: with one hold of [old], that hold is the caller's own. *)
Lemma six_lock_is_compatible_spec sem old new :
  sem_wf sem →
  six_lock_is_compatible sem old new = true ↔
  ∀ m, 0 < lock_count sem m → (m = old → lock_count sem old ≠ 1) → compat new m = true.
Proof.
  intros [Hl Hm Hc Hb Hw Hk Hs]. unfold six_lock_is_compatible.
  destruct (_ =? 0) eqn:Ez.
  { split; [|done]. intros _ m Hpos.
    assert (mode_bit (cur_locks_mask sem) m = false) as E.
    { apply Z.eqb_eq in Ez. rewrite Ez. apply Z.testbit_0_l. }
    rewrite Hb in E. lia. }
  rewrite Z.eqb_eq. destruct (lock_count sem old =? 1) eqn:E1.
  - destruct (clear_bit (cur_locks_mask sem) old Hm) as [Hr Hbits].
    rewrite incompat_land by done. apply forall_proper. intros m.
    rewrite Hbits, Hb. case_bool_decide; subst.
    + rewrite andb_false_r. apply Z.eqb_eq in E1. rewrite E1. naive_solver.
    + rewrite andb_true_r, Z.ltb_lt. naive_solver.
  - rewrite incompat_land by done. apply forall_proper. intros m. rewrite Hb, Z.ltb_lt.
    apply Z.eqb_neq in E1. naive_solver.
Qed.

(** ** The call's sections, on well-formed semaphores *)

(** What a granted request leaves behind. *)
Lemma upgrade_grant_spec sem rq :
  sem_wf sem → (rq_old rq ≠ LOCK_NULL → 0 < lock_count sem (rq_old rq)) →
  let old := rq_old rq in
  let dec k := if decide (old = LOCK_NULL) then 0 else if decide (k = old) then 1 else 0 in
  let wake := if decide (old = LOCK_NULL) then wake_serial sem
              else u64 (wake_serial sem + 1) in
  match upgrade_grant sem rq with
  | Granted sem' sig =>
      sem_wf sem'
      ∧ (∀ k, lock_count sem' k
              = lock_count sem k - dec k + (if decide (k = rq_new rq) then 1 else 0))
      ∧ wait_count sem' = u16 (wait_count sem - 1) ∧ sig = (wait_count sem' >? 0)
      ∧ wake_serial sem' = wake ∧ wait_serial sem' = wait_serial sem
  | CountFull sem' =>
      sem_wf sem'
      ∧ lock_count sem (rq_new rq) - dec (rq_new rq) = 65535
      ∧ (∀ k, lock_count sem' k = lock_count sem k - dec k)
      ∧ wait_count sem' = wait_count sem
      ∧ wake_serial sem' = wake ∧ wait_serial sem' = wait_serial sem
  | _ => False
  end.
Proof.
  intros Hwf Hold old dec wake. unfold upgrade_grant. fold old.
  set (sem1 := if decide (old = LOCK_NULL) then sem
               else set_wake_serial (u64 (wake_serial sem + 1)) sem).
  set (sem2 := if decide (old = LOCK_NULL) then sem1 else drop_lock old sem1).
  assert (sem_wf sem1 ∧ wake_serial sem1 = wake ∧ wait_serial sem1 = wait_serial sem
          ∧ wait_count sem1 = wait_count sem ∧ ∀ k, lock_count sem1 k = lock_count sem k)
    as (Hwf1 & Hw1 & Hs1 & Hc1 & Hk1).
  { unfold sem1, wake. case_decide; [done|]. split_and!; try done.
    destruct Hwf. split; try done. simpl. apply wrapu_range. lia. }
  assert (sem_wf sem2 ∧ wake_serial sem2 = wake ∧ wait_serial sem2 = wait_serial sem
          ∧ wait_count sem2 = wait_count sem ∧ ∀ k, lock_count sem2 k = lock_count sem k - dec k)
    as (Hwf2 & Hw2 & Hs2 & Hc2 & Hk2).
  { unfold sem2, dec. case_decide as E.
    { split_and!; [done..|]. intros k. rewrite Hk1. lia. }
    destruct (drop_lock_wf old sem1) as (? & Hd & ? & ? & ?); [done|rewrite Hk1; auto|].
    split_and!; [done|congruence..|]. intros k. by rewrite Hd, Hk1. }
  clearbody sem1 sem2.
  destruct (count_incr (rq_new rq) sem2 Hwf2) as [(E & Hfull & Hid)|(E & Hlt)]; rewrite E.
  - simpl. rewrite Hid. rewrite Hk2 in Hfull. by split_and!.
  - destruct (add_lock_wf (rq_new rq) sem2 Hwf2 Hlt) as [Hwf3 Hk3].
    pose proof (wf_count _ Hwf2 (rq_new rq)).
    destruct (_ =? 0) eqn:Ez; [lia|]. simpl.
    change (set_mask ?v (set_lock_count (rq_new rq) ?c sem2)) with (add_lock (rq_new rq) sem2).
    split_and!; try done; try congruence.
    + destruct Hwf3. split; try done. simpl. apply (wrapu_range 16). lia.
    + intros k. change (lock_count (set_wait_count ?v ?s) k) with (lock_count s k).
      by rewrite Hk3, Hk2.
Qed.

(** ** Threads over one semaphore

    Every critical section is one step: the spinlock serialises them.  A thread
    keeps the list of modes it holds (a mode can be held several times) and is
    running outside the API, asleep on the condition variable, or awake and
    about to take the spinlock again. *)

Inductive phase :=
| Running
| Asleep (rq : upgrade_req)
| Awake (rq : upgrade_req).

Record thread := mk_thread { held : list sixsem_lock; th_phase : phase }.

#[global] Instance phase_eq_dec : EqDecision phase.
Proof. solve_decision. Defined.
#[global] Instance thread_eq_dec : EqDecision thread.
Proof. solve_decision. Defined.

Definition pending (th : thread) : option upgrade_req :=
  match th_phase th with Running => None | Asleep rq | Awake rq => Some rq end.

Inductive label :=
| LUpgrade (t : nat) (old new : sixsem_lock)   (* call upgrade; down is old = LOCK_NULL *)
| LResume (t : nat)                            (* a woken waiter takes the spinlock *)
| LTrylock (t : nat) (m : sixsem_lock)
| LUp (t : nat) (m : sixsem_lock)
| LSpurious (t : nat).                         (* woken by an OS signal, not by the cv *)

(** The mode a granted conversion gives up. *)
Definition release_old (old : sixsem_lock) (h : list sixsem_lock) : list sixsem_lock :=
  if decide (old = LOCK_NULL) then h else remove1 old h.

(** Conflicts are symmetric: two holds may coexist when the table admits them
    in one order of arrival. *)
Definition compatible_holds (a b : sixsem_lock) : bool := compat a b || compat b a.

Section system.
Context {Q : Type} `{WaitQueue Q}.

Record config := mk_config { c_sem : sixsem; c_cv : Q; c_threads : list thread }.

Definition init_config (n : nat) : config :=
  mk_config fusion_sixsem_init fusion_condvar_init (replicate n (mk_thread [] Running)).

Definition with_sem (sem : sixsem) (c : config) : config :=
  mk_config sem (c_cv c) (c_threads c).

Definition with_cv (q : Q) (c : config) : config :=
  mk_config (c_sem c) q (c_threads c).

Definition put (t : nat) (th : thread) (c : config) : config :=
  mk_config (c_sem c) (c_cv c) (<[t := th]> (c_threads c)).

(** [fusion_condvar_signal(&sem->sixsem_cv)] *)
Definition signal (c : config) : config :=
  match fusion_condvar_signal (c_cv c) with
  | (None, q) => with_cv q c
  | (Some t, q) =>
      match c_threads c !! t with
      | Some (mk_thread h (Asleep rq)) => put t (mk_thread h (Awake rq)) (with_cv q c)
      | _ => with_cv q c
      end
  end.

(** Applies the end of a critical section of thread [t], which holds [h] and
    asked to convert [old] into [new]. *)
Definition conclude (t : nat) (h : list sixsem_lock) (old new : sixsem_lock)
    (e : section_end) (c : config) : config :=
  match e with
  | QueueFull sem => put t (mk_thread h Running) (with_sem sem c)
  | CountFull sem => put t (mk_thread (release_old old h) Running) (with_sem sem c)
  | Granted sem sig =>
      let c := put t (mk_thread (new :: release_old old h) Running) (with_sem sem c) in
      if sig then signal c else c
  | Waits sem rq =>
      put t (mk_thread h (Asleep rq))
        (with_cv (fusion_condvar_wait_begin t (c_cv c)) (with_sem sem c))
  end.

(** One critical section.  A caller converts a mode it holds and releases
    modes it holds: other calls are not steps. *)
Definition exec (c : config) (l : label) : option config :=
  match l with
  | LUpgrade t old new =>
      match c_threads c !! t with
      | Some (mk_thread h Running) =>
          if decide (old = LOCK_NULL ∨ old ∈ h)
          then Some (conclude t h old (upgrade_conversion new old)
                       (fusion_sixsem_upgrade (c_sem c) old new) c)
          else None
      | _ => None
      end
  | LResume t =>
      match c_threads c !! t with
      | Some (mk_thread h (Awake rq)) =>
          Some (conclude t h (rq_old rq) (rq_new rq) (upgrade_resume (c_sem c) rq)
                  (with_cv (fusion_condvar_wait_end t (c_cv c)) c))
      | _ => None
      end
  | LTrylock t m =>
      match c_threads c !! t with
      | Some (mk_thread h Running) =>
          let '(sem, got) := fusion_sixsem_down_trylock (c_sem c) m in
          Some (put t (mk_thread (if got then m :: h else h) Running) (with_sem sem c))
      | _ => None
      end
  | LUp t m =>
      match c_threads c !! t with
      | Some (mk_thread h Running) =>
          if decide (m ∈ h)
          then Some (signal (put t (mk_thread (remove1 m h) Running)
                       (with_sem (fusion_sixsem_up (c_sem c) m) c)))
          else None
      | _ => None
      end
  | LSpurious t =>
      match c_threads c !! t with
      | Some (mk_thread h (Asleep rq)) =>
          Some (put t (mk_thread h (Awake rq))
                  (with_cv (fusion_condvar_wait_end t (c_cv c)) c))
      | _ => None
      end
  end.

(** The critical section ends with -EAGAIN because the 16-bit count of the
    mode's holders is full. *)
Definition ends_full (e : section_end) : bool := match e with CountFull _ => true | _ => false end.

Definition refused (c : config) (l : label) : bool :=
  match l with
  | LUpgrade t old new => ends_full (fusion_sixsem_upgrade (c_sem c) old new)
  | LResume t =>
      match c_threads c !! t with
      | Some (mk_thread h (Awake rq)) => ends_full (upgrade_resume (c_sem c) rq)
      | _ => false
      end
  | _ => false
  end.

(** [reachable n k c]: [n] threads reach [c] in [k] critical sections. *)
Inductive reachable (n : nat) : nat → config → Prop :=
| reachable_init : reachable n 0 (init_config n)
| reachable_step k c l c' :
    reachable n k c → exec c l = Some c' → reachable n (S k) c'.

(** Executes a schedule; the counterpart of [reachable] for computation. *)
Definition run (c : config) (ls : list label) : option config :=
  foldl (λ oc l, oc ≫= λ c, exec c l) (Some c) ls.

(** How many calls of a schedule are refused because a count is full. *)
Fixpoint refusals (c : config) (ls : list label) : Z :=
  match ls with
  | [] => 0
  | l :: ls =>
      match exec c l with
      | Some c' => (if refused c l then 1 else 0) + refusals c' ls
      | None => 0
      end
  end.

Lemma sixsem_reachable_run n k c ls c' :
  reachable n k c → run c ls = Some c' → reachable n (length ls + k) c'.
Proof.
  unfold run. revert k c. induction ls as [|l ls IH]; intros k c Hr E; simplify_eq/=; [done|].
  destruct (exec c l) as [c1|] eqn:E1.
  - replace (S (length ls + k)) with (length ls + S k)%nat by lia.
    eapply IH; [|done]. by econstructor.
  - exfalso. revert E. clear. induction ls; simpl; [done|auto].
Qed.
End system.
Arguments config Q : clear implicits.
