(* ===== verification/SixLockSafety.v ===== *)
(** * Six-mode lock: the invariant of every execution, and what follows from it

    [lock_inv] relates the counters of the semaphore to the threads: what each
    holds and which of them wait.  It is preserved by every critical section
    ([sixsem_exec_inv]), so it holds of every reachable configuration, for any number
    of threads and for any wait queue that satisfies [WaitQueueLaws]. *)
From S2P Require Import Prelude Condvar SixLock.

(** ** Counting over the threads *)

(** How many times [m] is held in all. *)
Definition holds (m : sixsem_lock) (ths : list thread) : Z :=
  zsum (λ th, zcount m (held th)) ths.

(** How many calls are between their entry and their return. *)
Definition waiting (ths : list thread) : Z :=
  zsum (λ th, if pending th is Some _ then 1 else 0) ths.

(** [rq] converts a mode; a [down] has [old_mode] = [LOCK_NULL]. *)
Definition is_upgrade (rq : upgrade_req) : bool := negb (bool_decide (rq_old rq = LOCK_NULL)).

Definition upgrading (ths : list thread) : Z :=
  zsum (λ th, if pending th is Some rq then if is_upgrade rq then 1 else 0 else 0) ths.

Lemma holds_pos m ths t th : ths !! t = Some th → m ∈ held th → 0 < holds m ths.
Proof.
  intros Ht Hm. apply zcount_pos in Hm.
  pose proof (zsum_lookup_le (λ th, zcount m (held th)) ths t th
                (λ a, zcount_nonneg _ _) Ht). unfold holds. simpl in *. lia.
Qed.

Lemma holds_two m ths t1 t2 th1 th2 :
  t1 ≠ t2 → ths !! t1 = Some th1 → ths !! t2 = Some th2 →
  m ∈ held th1 → m ∈ held th2 → 1 < holds m ths.
Proof.
  intros Hne H1 H2 M1 M2. apply zcount_pos in M1.
  assert (holds m ths = holds m (<[t1 := mk_thread [] Running]> ths) + zcount m (held th1)) as E.
  { unfold holds. rewrite (zsum_insert _ _ _ _ _ H1).
    change (zcount m (held (mk_thread [] Running))) with 0. lia. }
  pose proof (holds_pos m (<[t1 := mk_thread [] Running]> ths) t2 th2) as Hp.
  rewrite list_lookup_insert_ne in Hp by done. specialize (Hp H2 M2). lia.
Qed.

Lemma waiting_pos ths t th rq : ths !! t = Some th → pending th = Some rq → 0 < waiting ths.
Proof.
  intros Ht Hp.
  pose proof (zsum_lookup_le (λ th, if pending th is Some _ then 1 else 0) ths t th
    ltac:(intros a; cbv beta; destruct (pending a); lia) Ht) as Hle.
  cbv beta in Hle. rewrite Hp in Hle. unfold waiting. lia.
Qed.

(** ** Compatibility of the modes held *)

(** Any two holds may coexist. *)
Definition counts_compatible (f : sixsem_lock → Z) : Prop :=
  (∀ m1 m2, m1 ≠ m2 → 0 < f m1 → 0 < f m2 → compatible_holds m1 m2 = true)
  ∧ (∀ m, 1 < f m → compat m m = true).

Lemma counts_compatible_le f g :
  (∀ m, g m <= f m) → counts_compatible f → counts_compatible g.
Proof.
  intros Hle [H1 H2]. split.
  - intros m1 m2 Hne P1 P2. pose proof (Hle m1). pose proof (Hle m2). apply H1; [done|lia..].
  - intros m Hm. pose proof (Hle m). apply H2. lia.
Qed.

Lemma counts_compatible_add f g new :
  (∀ m, g m = f m + (if decide (m = new) then 1 else 0)) →
  (∀ m, 0 < f m → compat new m = true) →
  counts_compatible f → counts_compatible g.
Proof.
  intros Hg Hc [H1 H2]. unfold compatible_holds in *. split.
  - intros m1 m2 Hne P1 P2. rewrite Hg in P1, P2. apply orb_true_iff.
    destruct (decide (m1 = new)) as [->|], (decide (m2 = new)) as [->|]; try done.
    + left. apply Hc. lia.
    + right. apply Hc. lia.
    + apply orb_true_iff. apply H1; [done|lia..].
  - intros m P. rewrite Hg in P. case_decide; subst; [apply Hc; lia|apply H2; lia].
Qed.

(** ** The invariant *)

Section safety.
Context {Q : Type} `{WaitQueueLaws Q}.

Record lock_inv (c : config Q) : Prop := {
  inv_wf : sem_wf (c_sem c);
  inv_holds m : lock_count (c_sem c) m = holds m (c_threads c);
  inv_compat : counts_compatible (λ m, holds m (c_threads c));
  inv_wait : waiting (c_threads c) <= wait_count (c_sem c);
  inv_old t th rq : c_threads c !! t = Some th → pending th = Some rq →
                    rq_old rq = LOCK_NULL ∨ rq_old rq ∈ held th;
  inv_nodup : NoDup (wq_waiters (c_cv c));
  inv_sleep t : t ∈ wq_waiters (c_cv c) ↔
                ∃ h rq, c_threads c !! t = Some (mk_thread h (Asleep rq))
}.

Lemma zsum_replicate_0 {A} (f : A → Z) n a : f a = 0 → zsum f (replicate n a) = 0.
Proof. intros Hf. induction n; simpl; [done|]. rewrite Hf. lia. Qed.

Lemma inv_init n : lock_inv (init_config n).
Proof.
  pose proof (λ f, zsum_replicate_0 f n (mk_thread [] Running)) as Hz.
  split; simpl.
  - apply sem_wf_init.
  - intros m. unfold holds. rewrite Hz by done. by destruct m.
  - split; intros; unfold holds in *; rewrite !Hz in *; done || lia.
  - unfold waiting. by rewrite Hz.
  - intros t th rq Ht. apply lookup_replicate in Ht as [-> _]. done.
  - unfold fusion_condvar_init. rewrite wq_waiters_init. constructor.
  - intros t. unfold fusion_condvar_init. rewrite wq_waiters_init.
    split; [set_solver|]. intros (h & rq & E). by apply lookup_replicate in E as [? _].
Qed.

(** *** How the counts move when one thread changes *)

Lemma holds_put m ths t th th' :
  ths !! t = Some th →
  holds m (<[t := th']> ths) = holds m ths - zcount m (held th) + zcount m (held th').
Proof. apply (zsum_insert (λ th, zcount m (held th))). Qed.

Lemma waiting_put ths t th th' :
  ths !! t = Some th →
  waiting (<[t := th']> ths)
  = waiting ths - (if pending th is Some _ then 1 else 0) + (if pending th' is Some _ then 1 else 0).
Proof. apply (zsum_insert (λ th, if pending th is Some _ then 1 else 0)). Qed.

Lemma zcount_cons (m a : sixsem_lock) l :
  zcount m (a :: l) = zcount m l + (if decide (m = a) then 1 else 0).
Proof. unfold zcount. simpl. lia. Qed.

Lemma zcount_release m old h :
  old = LOCK_NULL ∨ old ∈ h →
  zcount m (release_old old h)
  = zcount m h - (if decide (old = LOCK_NULL) then 0 else if decide (m = old) then 1 else 0).
Proof.
  intros Ho. unfold release_old. case_decide; [lia|].
  apply zcount_remove1. by destruct Ho.
Qed.

(** *** Signals and sleeps move no mode *)

Lemma wake_inv c t h rq q :
  lock_inv c → c_threads c !! t = Some (mk_thread h (Asleep rq)) →
  NoDup (wq_waiters q) → (∀ u, u ∈ wq_waiters q ↔ u ≠ t ∧ u ∈ wq_waiters (c_cv c)) →
  lock_inv (put t (mk_thread h (Awake rq)) (with_cv q c)).
Proof.
  intros [Hwf Hh Hc Hw Ho Hn Hs] Ht Hn' Hq. split; simpl; try done.
  - intros m. rewrite (holds_put _ _ _ _ _ Ht). simpl. rewrite Hh. lia.
  - eapply counts_compatible_le; [|exact Hc]. intros m.
    rewrite (holds_put _ _ _ _ _ Ht). simpl. lia.
  - rewrite (waiting_put _ _ _ _ Ht). simpl. lia.
  - intros u th rq' Hu Hp. apply list_lookup_insert_Some in Hu as [(<- & <- & _)|[_ Hu]];
      [|by eapply Ho]. simplify_eq/=. by apply (Ho t _ rq') in Ht.
  - intros u. rewrite Hq, Hs. destruct (decide (u = t)) as [->|Hne].
    + rewrite list_lookup_insert_eq by (by eapply lookup_lt_Some). naive_solver.
    + rewrite list_lookup_insert_ne by done. naive_solver.
Qed.

Lemma signal_inv c : lock_inv c → lock_inv (signal c).
Proof.
  intros Hi. pose proof Hi as [_ _ _ _ _ Hn Hs]. unfold signal.
  destruct (fusion_condvar_signal (c_cv c)) as [[t|] q] eqn:E.
  - apply signal_elem in E. rewrite E in Hn. apply list.NoDup_cons in Hn as [Hni Hn].
    destruct (proj1 (Hs t)) as (h & rq & Ht); [rewrite E; set_solver|].
    rewrite Ht. apply wake_inv; try done. intros u. rewrite E, elem_of_cons. set_solver.
  - apply signal_none in E as [E1 E2]. destruct Hi. split; simpl; try done.
    + by rewrite E2; constructor.
    + intros t. rewrite <- Hs. by rewrite E1, E2.
Qed.

(** A thread that is not asleep takes its entry off the wait queue. *)
Lemma wait_end_inv c t th :
  lock_inv c → c_threads c !! t = Some th → (∀ rq, th_phase th ≠ Asleep rq) →
  lock_inv (with_cv (fusion_condvar_wait_end t (c_cv c)) c).
Proof.
  intros [Hwf Hh Hc Hw Ho Hn Hs] Ht Hth. split; simpl; try done.
  - unfold fusion_condvar_wait_end. rewrite wq_finish_spec. by apply list.NoDup_filter.
  - intros u. rewrite wait_end_elem, <- Hs. split; [by intros [_ ?]|].
    intros Hu. split; [|done]. intros ->. apply Hs in Hu as (? & ? & Hu).
    simplify_eq. by eapply Hth.
Qed.

(** Changing a thread that is not asleep, before and after, and the counters
    along with it. *)
Lemma put_inv c t th th' sem d :
  lock_inv c → c_threads c !! t = Some th →
  (∀ rq, th_phase th ≠ Asleep rq) → (∀ rq, th_phase th' ≠ Asleep rq) →
  sem_wf sem →
  (∀ m, lock_count sem m = lock_count (c_sem c) m - zcount m (held th) + zcount m (held th')) →
  counts_compatible (lock_count sem) →
  0 <= d →
  wait_count sem = wait_count (c_sem c) - (if pending th is Some _ then 1 else 0)
                   + (if pending th' is Some _ then 1 else 0) + d →
  (∀ rq, pending th' = Some rq → rq_old rq = LOCK_NULL ∨ rq_old rq ∈ held th') →
  lock_inv (put t th' (with_sem sem c)).
Proof.
  intros [Hwf Hh Hc Hw Ho Hn Hs] Ht Hth Hth' Hwf' Hh' Hc' Hd Hw' Ho'.
  assert (∀ m, lock_count sem m = holds m (<[t := th']> (c_threads c))) as Hh2.
  { intros m. rewrite (holds_put _ _ _ _ _ Ht), <- Hh. apply Hh'. }
  split; simpl; try done.
  - eapply counts_compatible_le; [|exact Hc']. intros m. simpl. rewrite Hh2. lia.
  - rewrite (waiting_put _ _ _ _ Ht). lia.
  - intros u thu rq Hu Hp. apply list_lookup_insert_Some in Hu as [(<- & <- & _)|[_ Hu]];
      [by apply Ho'|by eapply Ho].
  - intros u. rewrite Hs. destruct (decide (u = t)) as [->|Hne].
    + rewrite list_lookup_insert_eq by (by eapply lookup_lt_Some). destruct th, th'; simpl in *.
      split; intros (? & ? & E); simplify_eq; exfalso; [by eapply Hth|by eapply Hth'].
    + by rewrite list_lookup_insert_ne.
Qed.

Lemma put_inv_same c t th th' sem :
  lock_inv c → c_threads c !! t = Some th →
  (∀ rq, th_phase th ≠ Asleep rq) → (∀ rq, th_phase th' ≠ Asleep rq) →
  sem_wf sem →
  (∀ m, lock_count sem m = lock_count (c_sem c) m - zcount m (held th) + zcount m (held th')) →
  counts_compatible (lock_count sem) →
  wait_count sem = wait_count (c_sem c) - (if pending th is Some _ then 1 else 0)
                   + (if pending th' is Some _ then 1 else 0) →
  (∀ rq, pending th' = Some rq → rq_old rq = LOCK_NULL ∨ rq_old rq ∈ held th') →
  lock_inv (put t th' (with_sem sem c)).
Proof.
  intros. eapply (put_inv _ _ _ _ _ 0); eauto; lia.
Qed.

Lemma sleep_inv c t h rq :
  lock_inv c → c_threads c !! t = Some (mk_thread h (Awake rq)) →
  lock_inv (put t (mk_thread h (Asleep rq))
              (with_cv (fusion_condvar_wait_begin t (c_cv c)) c)).
Proof.
  intros [Hwf Hh Hc Hw Ho Hn Hs] Ht.
  assert (t ∉ wq_waiters (c_cv c)) as Hni.
  { rewrite Hs. intros (? & ? & ?). congruence. }
  pose proof (wq_waiters_prepare t (c_cv c) Hni) as Hp.
  unfold fusion_condvar_wait_begin. split; simpl; try done.
  - intros m. rewrite (holds_put _ _ _ _ _ Ht). simpl. rewrite Hh. lia.
  - eapply counts_compatible_le; [|exact Hc]. intros m.
    rewrite (holds_put _ _ _ _ _ Ht). simpl. lia.
  - rewrite (waiting_put _ _ _ _ Ht). simpl. lia.
  - intros u th rq' Hu E. apply list_lookup_insert_Some in Hu as [(<- & <- & _)|[_ Hu]];
      [|by eapply Ho]. simplify_eq/=. by apply (Ho t _ rq') in Ht.
  - rewrite Hp. by apply list.NoDup_cons.
  - intros u. rewrite Hp, elem_of_cons, Hs. destruct (decide (u = t)) as [->|Hne].
    + rewrite list_lookup_insert_eq by (by eapply lookup_lt_Some). naive_solver.
    + rewrite list_lookup_insert_ne by done. naive_solver.
Qed.

(** After the old mode is dropped, what is left is compatible with the mode
    that the request is granted. *)
Lemma granted_compatible sem rq f g :
  sem_wf sem → counts_compatible (lock_count sem) →
  six_lock_is_compatible sem (rq_old rq) (rq_new rq) = true →
  (∀ m, f m = lock_count sem m -
    (if decide (rq_old rq = LOCK_NULL) then 0 else if decide (m = rq_old rq) then 1 else 0)) →
  (∀ m, g m = f m + (if decide (m = rq_new rq) then 1 else 0)) →
  counts_compatible f ∧ counts_compatible g.
Proof.
  intros Hwf Hc Hok Hf Hg. rewrite six_lock_is_compatible_spec in Hok by done.
  assert (counts_compatible f) as Hcf.
  { eapply counts_compatible_le; [|exact Hc]. intros m. rewrite Hf. repeat case_decide; lia. }
  split; [done|]. apply (counts_compatible_add f g (rq_new rq)); [done| |done].
  intros m Hpos. rewrite Hf in Hpos.
  destruct (decide (m = LOCK_NULL)) as [->|Hm]; [by destruct (rq_new rq)|].
  repeat case_decide; subst; apply Hok; try lia; congruence.
Qed.

Lemma with_sem_id (c : config Q) : with_sem (c_sem c) c = c.
Proof. by destruct c. Qed.

Lemma conclude_poll_inv c t h rq b :
  lock_inv c → c_threads c !! t = Some (mk_thread h (Awake rq)) →
  lock_inv (conclude t h (rq_old rq) (rq_new rq) (upgrade_poll (c_sem c) rq b) c).
Proof.
  intros Hi Ht. pose proof Hi as [Hwf Hh Hc Hw Ho _ _].
  pose proof (Ho t _ rq Ht eq_refl) as Hold. simpl in Hold.
  unfold upgrade_poll. destruct (upgrade_must_wait _ _ _) eqn:Em.
  { simpl. rewrite with_sem_id. by apply sleep_inv. }
  unfold upgrade_must_wait in Em. rewrite !orb_false_iff, negb_false_iff in Em.
  destruct Em as [_ Hok].
  assert (0 < wait_count (c_sem c)) as Hwpos.
  { pose proof (waiting_pos _ _ _ rq Ht eq_refl). lia. }
  assert (counts_compatible (lock_count (c_sem c))) as Hcc.
  { eapply counts_compatible_le; [|exact Hc]. intros m. simpl. rewrite Hh. lia. }
  assert (u16 (wait_count (c_sem c) - 1) = wait_count (c_sem c) - 1) as Ew.
  { destruct Hwf. apply wrapu_small. unfold in_u. lia. }
  assert (rq_old rq ≠ LOCK_NULL → 0 < lock_count (c_sem c) (rq_old rq)) as Hpos.
  { intros Hne. rewrite Hh. destruct Hold as [?|Hin]; [done|]. by eapply holds_pos. }
  pose proof (upgrade_grant_spec _ rq Hwf Hpos) as Hg. simpl in Hg.
  destruct (upgrade_grant (c_sem c) rq) as [sem|sem|sem sig|sem r]; simpl; try done.
  - destruct Hg as (Hwf' & _ & Hk & Hwc & _ & _).
    destruct (granted_compatible _ rq (lock_count sem) _ Hwf Hcc Hok Hk (λ _, eq_refl)) as [Hcs _].
    apply (put_inv c t _ (mk_thread (release_old (rq_old rq) h) Running) sem 1 Hi Ht);
      simpl; try done; [|lia].
    intros m. rewrite Hk, zcount_release by done. lia.
  - destruct Hg as (Hwf' & Hk & Hwc & -> & _).
    destruct (granted_compatible _ rq _ (lock_count sem) Hwf Hcc Hok (λ _, eq_refl) Hk) as [_ Hcs].
    assert (lock_inv (put t (mk_thread (rq_new rq :: release_old (rq_old rq) h) Running)
                        (with_sem sem c))) as Hi'.
    { apply (put_inv_same c t _ _ sem Hi Ht); simpl; try done; [|lia].
      intros m. rewrite Hk, zcount_release by done. lia. }
    destruct (_ >? 0); [by apply signal_inv|done].
Qed.

Lemma set_wait_count_id sem : set_wait_count (wait_count sem) sem = sem.
Proof. by destruct sem. Qed.

(** Only the last change to a thread counts. *)
Lemma conclude_over c t th sem h old new e :
  conclude t h old new e (put t th (with_sem sem c)) = conclude t h old new e c.
Proof.
  destruct e; simpl; unfold put, with_sem, with_cv; simpl;
    by rewrite ?list_insert_insert_eq.
Qed.

(** The entry of [fusion_sixsem_upgrade]: the wait queue is full, or the
    caller counts as a waiter and its request is polled. *)
Lemma enter_cases c t h old new :
  lock_inv c → c_threads c !! t = Some (mk_thread h Running) → old = LOCK_NULL ∨ old ∈ h →
  fusion_sixsem_upgrade (c_sem c) old new = QueueFull (c_sem c)
  ∨ ∃ sem1,
      let rq := mk_req old (upgrade_conversion new old) (wait_serial (c_sem c)) in
      fusion_sixsem_upgrade (c_sem c) old new = upgrade_poll sem1 rq true
      ∧ lock_inv (put t (mk_thread h (Awake rq)) (with_sem sem1 c))
      ∧ wake_serial sem1 = wake_serial (c_sem c)
      ∧ wait_serial sem1 = (if decide (old = LOCK_NULL) then wait_serial (c_sem c)
                            else u64 (wait_serial (c_sem c) + 1))
      ∧ wait_count sem1 = wait_count (c_sem c) + 1.
Proof.
  intros Hi Ht Hold. pose proof Hi as [Hwf Hh Hc Hw Ho _ _].
  pose proof (wf_wait _ Hwf) as Hwr. unfold fusion_sixsem_upgrade.
  set (m := upgrade_conversion new old).
  destruct (decide (wait_count (c_sem c) = 65535)) as [E|E].
  { left. rewrite E. simpl. change (u16 (65535 + 1)) with 0. simpl. f_equal.
    change (set_wait_count (u16 (0 - 1)) _) with (set_wait_count 65535 (c_sem c)).
    by rewrite <- E, set_wait_count_id. }
  right. assert (u16 (wait_count (c_sem c) + 1) = wait_count (c_sem c) + 1) as ->
    by (apply wrapu_small; unfold in_u; lia).
  destruct (_ =? 0) eqn:Ez; [lia|]. cbv zeta.
  set (sem1 := if decide (old = LOCK_NULL) then _ else _).
  change (wait_serial (set_wait_count _ _)) with (wait_serial (c_sem c)).
  exists sem1. split; [done|].
  assert (sem_wf sem1 ∧ (∀ k, lock_count sem1 k = lock_count (c_sem c) k)
          ∧ wait_count sem1 = wait_count (c_sem c) + 1) as (Hwf1 & Hk1 & Hw1).
  { unfold sem1. destruct Hwf. case_decide; (split_and!; [split|..]); simpl; try done; try lia.
    apply wrapu_range. lia. }
  split_and!; [|by unfold sem1; case_decide|by unfold sem1; case_decide|done].
  apply (put_inv_same c t _ _ sem1 Hi Ht); simpl; try done; try lia.
  - intros k. rewrite Hk1. lia.
  - eapply counts_compatible_le; [|exact Hc]. intros k. simpl. rewrite Hk1, Hh. lia.
  - intros ? [= <-]. done.
Qed.

Lemma enter_inv c t h old new :
  lock_inv c → c_threads c !! t = Some (mk_thread h Running) → old = LOCK_NULL ∨ old ∈ h →
  lock_inv (conclude t h old (upgrade_conversion new old)
              (fusion_sixsem_upgrade (c_sem c) old new) c).
Proof.
  intros Hi Ht Hold. destruct (enter_cases c t h old new Hi Ht Hold) as [->|(sem1 & -> & Hi1 & _)].
  - simpl. rewrite with_sem_id. unfold put. rewrite list_insert_id by done. by destruct c.
  - set (rq := mk_req _ _ _) in *.
    rewrite <- (conclude_over c t (mk_thread h (Awake rq)) sem1).
    apply (conclude_poll_inv _ t h rq true Hi1). simpl.
    apply list_lookup_insert_eq. by eapply lookup_lt_Some.
Qed.

Lemma counts_of_inv c : lock_inv c → counts_compatible (lock_count (c_sem c)).
Proof.
  intros [_ Hh Hc _ _ _ _]. eapply counts_compatible_le; [|exact Hc].
  intros m. simpl. rewrite Hh. lia.
Qed.

Lemma trylock_inv c t h m :
  lock_inv c → c_threads c !! t = Some (mk_thread h Running) →
  let '(sem, got) := fusion_sixsem_down_trylock (c_sem c) m in
  lock_inv (put t (mk_thread (if got then m :: h else h) Running) (with_sem sem c)).
Proof.
  intros Hi Ht. pose proof Hi as [Hwf Hh Hc Hw Ho _ _].
  assert (lock_inv (put t (mk_thread h Running) (with_sem (c_sem c) c))) as Hsame.
  { rewrite with_sem_id. unfold put. rewrite list_insert_id by done. by destruct c. }
  unfold fusion_sixsem_down_trylock. destruct (_ >? 0); [done|].
  destruct (_ && _) eqn:Eok; [|done]. apply andb_true_iff in Eok as [_ Hok].
  destruct (count_incr m (c_sem c) Hwf) as [(-> & _ & Hid)|(E & Hlt)].
  - simpl. by rewrite Hid.
  - destruct (add_lock_wf m _ Hwf Hlt) as [Hwf' Hk].
    pose proof (wf_count _ Hwf m). rewrite E. destruct (_ =? 0) eqn:Ez; [lia|].
    change (set_mask ?v (set_lock_count m ?n (c_sem c))) with (add_lock m (c_sem c)).
    apply (put_inv_same c t _ _ _ Hi Ht); simpl; try done; [| |lia].
    + intros k. rewrite Hk. lia.
    + by apply (granted_compatible _ (mk_req LOCK_NULL m 0) (lock_count (c_sem c)) _ Hwf
          (counts_of_inv _ Hi) Hok); simpl; [intros; lia|].
Qed.

Lemma up_inv c t h m :
  lock_inv c → c_threads c !! t = Some (mk_thread h Running) → m ∈ h →
  lock_inv (put t (mk_thread (remove1 m h) Running)
              (with_sem (fusion_sixsem_up (c_sem c) m) c)).
Proof.
  intros Hi Ht Hm. pose proof Hi as [Hwf Hh Hc Hw Ho _ _].
  destruct (drop_lock_wf m (c_sem c) Hwf) as (Hwf' & Hk & Hwc & _).
  { rewrite Hh. by eapply holds_pos. }
  apply (put_inv_same c t _ _ _ Hi Ht); simpl; try done; [..|unfold fusion_sixsem_up; lia].
  - intros k. unfold fusion_sixsem_up. rewrite Hk, zcount_remove1 by done. lia.
  - eapply counts_compatible_le; [|by apply counts_of_inv]. intros k.
    unfold fusion_sixsem_up. rewrite Hk. case_decide; lia.
Qed.

Lemma sixsem_exec_inv c l c' : lock_inv c → exec c l = Some c' → lock_inv c'.
Proof.
  intros Hi E. destruct l as [t old new|t|t m|t m|t]; simpl in E;
    destruct (c_threads c !! t) as [[h [|rq|rq]]|] eqn:Ht; simplify_eq.
  - case_decide; simplify_eq. by apply enter_inv.
  - apply (conclude_poll_inv (with_cv _ c)); [|done]. by eapply wait_end_inv.
  - pose proof (trylock_inv c t h m Hi Ht).
    destruct (fusion_sixsem_down_trylock _ _). by simplify_eq.
  - case_decide; simplify_eq. by apply signal_inv, up_inv.
  - apply wake_inv; [done|done| |].
    + unfold fusion_condvar_wait_end. rewrite wq_finish_spec. destruct Hi.
      by apply list.NoDup_filter.
    + intros u. apply wait_end_elem.
Qed.

Lemma sixsem_reachable_inv n k c : reachable n k c → lock_inv c.
Proof. induction 1; [apply inv_init|by eapply sixsem_exec_inv]. Qed.

(** *** The wait counter against the calls that wait *)

Definition excess (c : config Q) : Z := wait_count (c_sem c) - waiting (c_threads c).

Definition is_pending (th : thread) : Z := if pending th is Some _ then 1 else 0.

Lemma put_excess c t th th' sem :
  c_threads c !! t = Some th →
  excess (put t th' (with_sem sem c))
  = wait_count sem - waiting (c_threads c) + is_pending th - is_pending th'.
Proof. intros Ht. unfold excess, is_pending. simpl. rewrite (waiting_put _ _ _ _ Ht). lia. Qed.

Lemma signal_excess c : lock_inv c → excess (signal c) = excess c.
Proof.
  intros Hi. unfold signal. destruct (fusion_condvar_signal (c_cv c)) as [[t|] q]; [|done].
  destruct (c_threads c !! t) as [[h [|rq|rq]]|] eqn:Ht; try done.
  unfold excess. simpl. rewrite (waiting_put _ _ _ _ Ht). simpl. lia.
Qed.

(** Only the refusal on a full count leaves the counter as it was although the
    call no longer waits. *)
Lemma conclude_poll_excess c t h rq b :
  lock_inv c → c_threads c !! t = Some (mk_thread h (Awake rq)) →
  let e := upgrade_poll (c_sem c) rq b in
  excess (conclude t h (rq_old rq) (rq_new rq) e c) = excess c + (if ends_full e then 1 else 0).
Proof.
  intros Hi Ht e. pose proof (conclude_poll_inv c t h rq b Hi Ht) as Hi'. fold e in Hi'.
  pose proof Hi as [Hwf Hh Hc Hw Ho _ _].
  pose proof (Ho t _ rq Ht eq_refl) as Hold. simpl in Hold.
  assert (0 < wait_count (c_sem c)) as Hwpos.
  { pose proof (waiting_pos _ _ _ rq Ht eq_refl). lia. }
  assert (u16 (wait_count (c_sem c) - 1) = wait_count (c_sem c) - 1) as Ew.
  { destruct Hwf. apply wrapu_small. unfold in_u. lia. }
  unfold e, upgrade_poll in *. destruct (upgrade_must_wait _ _ _).
  { simpl. unfold excess. simpl. rewrite (waiting_put _ _ _ _ Ht). simpl. lia. }
  assert (rq_old rq ≠ LOCK_NULL → 0 < lock_count (c_sem c) (rq_old rq)) as Hpos.
  { intros Hne. rewrite Hh. destruct Hold as [?|Hin]; [done|]. by eapply holds_pos. }
  pose proof (upgrade_grant_spec _ rq Hwf Hpos) as Hg. simpl in Hg.
  destruct (upgrade_grant (c_sem c) rq) as [sem|sem|sem sig|sem r]; cbn [conclude ends_full] in *; try done.
  - destruct Hg as (_ & _ & _ & Hwc & _). rewrite (put_excess _ _ _ _ _ Ht). unfold excess, is_pending. simpl. lia.
  - destruct Hg as (Hwf' & _ & Hwc & _).
    assert (excess (put t (mk_thread (rq_new rq :: release_old (rq_old rq) h) Running) (with_sem sem c))
            = excess c) as E.
    { rewrite (put_excess _ _ _ _ _ Ht). unfold excess, is_pending. simpl. lia. }
    destruct sig; [|lia]. rewrite <- E, Z.add_0_r. unfold signal.
    destruct (fusion_condvar_signal _) as [[u|] q]; [|done].
    match goal with |- context [?x !! u] => destruct (x !! u) as [[hu [|ru|ru]]|] eqn:Hu end; try done.
    unfold excess. simpl in *. rewrite (waiting_put _ _ _ _ Hu). simpl. lia.
Qed.

Lemma exec_excess c l c' :
  lock_inv c → exec c l = Some c' → excess c' = excess c + (if refused c l then 1 else 0).
Proof.
  intros Hi E. destruct l as [t old new|t|t m|t m|t]; simpl in E;
    destruct (c_threads c !! t) as [[h [|rq|rq]]|] eqn:Ht; simplify_eq.
  - case_decide as Hold; simplify_eq. unfold refused.
    destruct (enter_cases c t h old new Hi Ht Hold) as [->|(sem1 & -> & Hi1 & _ & _ & Hw1)].
    + cbn [conclude ends_full]. rewrite with_sem_id, <- (with_sem_id c), (put_excess _ _ _ _ _ Ht), with_sem_id.
      unfold excess, is_pending. simpl. lia.
    + set (rq := mk_req _ _ _) in *.
      pose proof (put_excess c t _ (mk_thread h (Awake rq)) sem1 Ht) as Ee.
      rewrite <- (conclude_over c t (mk_thread h (Awake rq)) sem1).
      pose proof (conclude_poll_excess _ t h rq true Hi1) as Ep. simpl in Ep. rewrite Ep; clear Ep.
      2:{ apply list_lookup_insert_eq. by eapply lookup_lt_Some. }
      rewrite Ee. unfold excess, is_pending. simpl. lia.
  - unfold refused. rewrite Ht. apply (conclude_poll_excess (with_cv _ c)); [|done]. by eapply wait_end_inv.
  - simpl. unfold fusion_sixsem_down_trylock in E.
    repeat case_match; simplify_eq; rewrite (put_excess _ _ _ _ _ Ht); unfold excess, is_pending; simpl; lia.
  - case_decide; simplify_eq. rewrite signal_excess by by apply up_inv.
    rewrite (put_excess _ _ _ _ _ Ht). unfold excess, is_pending, fusion_sixsem_up, drop_lock. simpl.
    case_match; simpl; lia.
  - unfold excess. simpl. rewrite (waiting_put _ _ _ _ Ht). simpl. lia.
Qed.

Lemma run_cons c l ls : run c (l :: ls) = exec c l ≫= λ c', run c' ls.
Proof.
  unfold run. simpl. destruct (exec c l) as [c1|]; [done|]. simpl. induction ls; [done|auto].
Qed.

Lemma run_excess ls c c' :
  lock_inv c → run c ls = Some c' → lock_inv c' ∧ excess c' = excess c + refusals c ls ∧ 0 <= refusals c ls.
Proof.
  revert c. induction ls as [|l ls IH]; intros c Hi E.
  { injection E as <-. split; [done|]. simpl. lia. }
  rewrite run_cons in E. destruct (exec c l) as [c1|] eqn:E1; simplify_eq/=. rewrite E1.
  pose proof (exec_excess c l c1 Hi E1) as Ee. apply sixsem_exec_inv in E1; [|done].
  destruct (IH c1 E1 E) as (? & ? & ?). split; [done|]. destruct (refused c l); lia.
Qed.
End safety.

(** ** What holds of every execution *)

(** C14: In every reachable configuration the modes held by two different
    threads are compatible; in particular nobody holds anything but the NULL
    mode next to another thread's X. *)
Theorem holders_compatible {Q} `{WaitQueueLaws Q} n k (c : config Q) t1 t2 th1 th2 m1 m2 :
  reachable n k c → t1 ≠ t2 →
  c_threads c !! t1 = Some th1 → c_threads c !! t2 = Some th2 →
  m1 ∈ held th1 → m2 ∈ held th2 →
  compatible_holds m1 m2 = true ∧ (m1 = LOCK_X → m2 = LOCK_NULL).
Proof.
  intros Hr Hne H1 H2 M1 M2. apply sixsem_reachable_inv in Hr as [_ _ [Hc1 Hc2] _ _ _ _].
  assert (compatible_holds m1 m2 = true) as Hc.
  { destruct (decide (m1 = m2)) as [->|Hm].
    - unfold compatible_holds. rewrite Hc2; [done|]. by eapply (holds_two _ _ t1 t2).
    - apply Hc1; [done|by eapply (holds_pos _ _ t1)|by eapply (holds_pos _ _ t2)]. }
  split; [done|]. intros ->. by destruct m2.
Qed.

Definition two_readers : list label := [LUpgrade 0 LOCK_NULL LOCK_S; LUpgrade 1 LOCK_NULL LOCK_IS].

Lemma holders_compatible_witness :
  ∃ c : config (list nat), run (init_config 2) two_readers = Some c
    ∧ compatible_holds LOCK_S LOCK_IS = true.
Proof.
  eexists. split; [vm_compute; reflexivity|].
  eapply (holders_compatible 2 2 _ 0 1 (mk_thread [LOCK_S] Running) (mk_thread [LOCK_IS] Running)).
  - apply (sixsem_reachable_run 2 0 _ two_readers _ (reachable_init 2)). vm_compute. reflexivity.
  - done.
  - reflexivity.
  - reflexivity.
  - apply list_elem_of_here.
  - apply list_elem_of_here.
Defined.

(** C20: The counters of the semaphore after every schedule [ls] of calls and
    wake-ups: [lock_counts] counts the holds and [cur_locks_mask] has exactly the
    bits of the held modes (the conditions asserted in [fusion_sixsem_up] and on
    an upgrade).  [wait_count] counts the calls that wait and, because the
    refusal on a full lock count does not take the caller back, one for each
    call of the schedule that was refused like that; so the condition asserted in
    [fusion_sixsem_destroy] holds exactly when nothing is held, nobody waits and
    no call was ever refused like that. *)
Theorem counters_exact {Q} `{WaitQueueLaws Q} n ls (c : config Q) :
  run (init_config n) ls = Some c →
  (∀ m, lock_count (c_sem c) m = holds m (c_threads c))
  ∧ (∀ m, mode_bit (cur_locks_mask (c_sem c)) m = (0 <? holds m (c_threads c)))
  ∧ wait_count (c_sem c) = waiting (c_threads c) + refusals (init_config (Q := Q) n) ls
  ∧ (fusion_sixsem_destroy_ok (c_sem c) = true ↔
     (∀ m, holds m (c_threads c) = 0) ∧ waiting (c_threads c) = 0
     ∧ refusals (init_config (Q := Q) n) ls = 0).
Proof.
  intros Hr. destruct (run_excess ls _ c (inv_init n) Hr) as ([Hwf Hh _ _ _ _ _] & He & Hr0).
  assert (excess (init_config (Q := Q) n) = 0) as H00.
  { unfold excess, waiting. simpl. rewrite zsum_replicate_0; done. }
  assert (∀ m, mode_bit (cur_locks_mask (c_sem c)) m = (0 <? holds m (c_threads c))) as Hb.
  { intros m. by rewrite (wf_bits _ Hwf), Hh. }
  assert (0 <= waiting (c_threads c)) as Hnn.
  { apply zsum_nonneg. intros a. destruct (pending a); lia. }
  assert (wait_count (c_sem c) = waiting (c_threads c) + refusals (init_config (Q := Q) n) ls) as Hw
    by (unfold excess in *; lia).
  split_and!; try done. unfold fusion_sixsem_destroy_ok. rewrite andb_true_iff, !Z.eqb_eq. split.
  - intros [Hm Hz]. split; [|lia]. intros m. specialize (Hb m). rewrite Hm in Hb.
    unfold mode_bit in Hb. rewrite Z.testbit_0_l in Hb.
    pose proof (wf_count _ Hwf m) as Hcm. rewrite Hh in Hcm. lia.
  - intros (Hm & Hz & Hlk). split; [|lia]. apply mask_zero; [apply Hwf|].
    intros m. by rewrite Hb, Hm.
Qed.

Lemma counters_exact_witness :
  ∃ c : config (list nat), run (init_config 2) two_readers = Some c
    ∧ lock_count (c_sem c) LOCK_S = holds LOCK_S (c_threads c).
Proof.
  eexists. split; [vm_compute; reflexivity|].
  apply (counters_exact 2 two_readers). vm_compute. reflexivity.
Defined.
