(* ===== verification/SixLockOrder.v ===== *)
(** * Six-mode lock: the order in which requests are granted

    [wait_serial] hands a ticket to every conversion and [wake_serial] counts
    the conversions that were granted.  [tickets] is the invariant of these
    two counters, for executions of fewer than 2^63 critical sections, so that
    the 64-bit serials have not wrapped.  It gives the order of conversions
    ([conversions_fifo]); the last part shows what becomes of the other
    requests. *)
From S2P Require Import Prelude Condvar SixLock SixLockSafety.

(** ** Comparing serial numbers *)

(** On serials below 2^63 the comparison tells only equal from different. *)
Lemma serial64_compare_small s1 s2 :
  0 <= s1 < 2 ^ 63 → 0 <= s2 < 2 ^ 63 →
  serial64_compare s1 s2 = if s1 =? s2 then 0 else -1.
Proof.
  change (2 ^ 63) with 9223372036854775808. intros H1 H2.
  unfold serial64_compare. destruct (s1 =? s2) eqn:E; [done|].
  destruct (s1 <? s2) eqn:El.
  - assert (u64 (s2 - s1) = s2 - s1) as -> by (apply wrapu_small; unfold in_u; lia).
    change (2 ^ 63) with 9223372036854775808. destruct (s2 - s1 <? _) eqn:F; lia.
  - assert (u64 (s2 - s1) = s2 - s1 + 2 ^ 64) as ->.
    { unfold wrapu. symmetry. apply (Z.mod_unique_pos _ _ (-1)); [|lia].
      change (2 ^ 64) with 18446744073709551616. lia. }
    change (2 ^ 63) with 9223372036854775808. change (2 ^ 64) with 18446744073709551616.
    destruct (s2 - s1 + _ <? _) eqn:F; lia.
Qed.

(** For a pair of serials less than 2^63 apart, in that order, the
    comparison answers -1 as documented; but for the reverse order it also
    answers -1, where its contract says 1. *)
Theorem serial64_compare_reverse s d :
  in_u 64 s → 0 < d < 2 ^ 63 → in_u 64 (s + d) →
  serial64_compare s (s + d) = -1 ∧ serial64_compare (s + d) s = -1.
Proof.
  unfold in_u. change (2 ^ 63) with 9223372036854775808.
  change (2 ^ 64) with 18446744073709551616. intros Hs Hd Hsd.
  unfold serial64_compare. change (2 ^ 63) with 9223372036854775808.
  replace (s + d - s) with d by lia. replace (s - (s + d)) with (- d) by lia.
  assert (u64 d = d) as -> by (apply wrapu_small; unfold in_u; lia).
  assert (u64 (- d) = 18446744073709551616 - d) as ->.
  { unfold wrapu. symmetry. apply (Z.mod_unique_pos _ _ (-1)); lia. }
  destruct (s =? s + d) eqn:E1; [lia|]. destruct (s <? s + d) eqn:E2; [|lia].
  destruct (d <? _) eqn:E3; [|lia]. destruct (s + d =? s) eqn:E4; [lia|].
  destruct (s + d <? s) eqn:E5; [lia|]. destruct (_ - d <? _) eqn:E6; [lia|]. done.
Qed.

Lemma serial64_compare_reverse_witness :
  serial64_compare 0 1 = -1 ∧ serial64_compare 1 0 = -1.
Proof. apply (serial64_compare_reverse 0 1); done. Defined.

(** The request passes the serial test exactly on its turn. *)
Lemma must_wait_serial sem rq b :
  0 <= rq_serial rq < 2 ^ 63 → 0 <= wake_serial sem < 2 ^ 63 →
  upgrade_must_wait sem rq b = false → rq_serial rq = wake_serial sem.
Proof.
  intros H1 H2 E. unfold upgrade_must_wait in E. rewrite serial64_compare_small in E by done.
  destruct (rq_serial rq =? wake_serial sem) eqn:F; [by apply Z.eqb_eq|].
  rewrite !orb_false_iff in E. by destruct E as [[_ ?] _].
Qed.

(** ** The ticket invariant *)

Definition pend (ths : list thread) (t : nat) : option upgrade_req := ths !! t ≫= pending.

Record tickets (k : Z) (sem : sixsem) (ths : list thread) : Prop := {
  tk_bounds : 0 <= wake_serial sem <= wait_serial sem ∧ wait_serial sem <= k;
  tk_down t rq : pend ths t = Some rq → is_upgrade rq = false →
                 0 <= rq_serial rq <= wait_serial sem;
  tk_up t rq : pend ths t = Some rq → is_upgrade rq = true →
               wake_serial sem <= rq_serial rq < wait_serial sem;
  tk_distinct t1 t2 rq1 rq2 :
    t1 ≠ t2 → pend ths t1 = Some rq1 → pend ths t2 = Some rq2 →
    is_upgrade rq1 = true → is_upgrade rq2 = true → rq_serial rq1 ≠ rq_serial rq2;
  tk_count : upgrading ths = wait_serial sem - wake_serial sem
}.

Definition upgrade_one (o : option upgrade_req) : Z :=
  if o is Some rq then if is_upgrade rq then 1 else 0 else 0.

Lemma pend_put ths t u th th' :
  ths !! t = Some th →
  pend (<[t := th']> ths) u = if decide (u = t) then pending th' else pend ths u.
Proof.
  intros Ht. unfold pend. case_decide; subst.
  - by rewrite list_lookup_insert_eq by (by eapply lookup_lt_Some).
  - by rewrite list_lookup_insert_ne.
Qed.

Lemma upgrading_put ths t th th' :
  ths !! t = Some th →
  upgrading (<[t := th']> ths) = upgrading ths - upgrade_one (pending th) + upgrade_one (pending th').
Proof. apply (zsum_insert (λ th, upgrade_one (pending th))). Qed.

Lemma tickets_mono k k' sem ths : tickets k sem ths → k <= k' → tickets k' sem ths.
Proof. intros [] ?. split; try done. lia. Qed.

(** A step that leaves the serials and the requests alone. *)
Lemma tickets_same k k' sem sem' ths t th th' :
  tickets k sem ths → k <= k' → ths !! t = Some th → pending th' = pending th →
  wake_serial sem' = wake_serial sem → wait_serial sem' = wait_serial sem →
  tickets k' sem' (<[t := th']> ths).
Proof.
  intros [Hb Hd Hu Hx Hc] Hk Ht Hp E1 E2.
  assert (∀ u, pend (<[t := th']> ths) u = pend ths u) as Hpd.
  { intros u. rewrite (pend_put _ _ _ _ _ Ht). case_decide; subst; [|done].
    unfold pend. by rewrite Ht, Hp. }
  split; rewrite ?E1, ?E2; try lia; intros *; rewrite ?Hpd; eauto.
  rewrite (upgrading_put _ _ _ _ Ht), Hp. lia.
Qed.

(** A request leaves; a conversion leaves on its turn. *)
Lemma tickets_leave k k' sem sem' ths t th th' rq :
  tickets k sem ths → k <= k' → ths !! t = Some th → pending th = Some rq →
  pending th' = None → (is_upgrade rq = true → rq_serial rq = wake_serial sem) →
  wake_serial sem' = wake_serial sem + upgrade_one (Some rq) →
  wait_serial sem' = wait_serial sem →
  tickets k' sem' (<[t := th']> ths).
Proof.
  intros [Hb Hd Hu Hx Hc] Hk Ht Hp Hp' Hturn E1 E2. unfold upgrade_one in E1.
  assert (pend ths t = Some rq) as Hpt by (unfold pend; by rewrite Ht).
  split; rewrite ?E1, ?E2.
  - destruct (is_upgrade rq) eqn:Eu; [|lia]. specialize (Hu t rq Hpt Eu). lia.
  - intros u rq'. rewrite (pend_put _ _ _ _ _ Ht). case_decide; [congruence|]. eauto.
  - intros u rq'. rewrite (pend_put _ _ _ _ _ Ht). case_decide as Hne; [congruence|].
    intros Hu' Eu'. pose proof (Hu u rq' Hu' Eu'). destruct (is_upgrade rq) eqn:Eu; [|lia].
    pose proof (Hx t u rq rq' ltac:(congruence) Hpt Hu' Eu Eu'). rewrite Hturn in * by done. lia.
  - intros t1 t2 rq1 rq2. rewrite !(pend_put _ _ _ _ _ Ht). repeat case_decide; [congruence..|].
    eauto.
  - rewrite (upgrading_put _ _ _ _ Ht), Hp, Hp'. simpl. destruct (is_upgrade rq); lia.
Qed.

(** A request enters with the next ticket. *)
Lemma tickets_enter k sem sem' ths t th th' rq :
  tickets k sem ths → ths !! t = Some th → pending th = None → pending th' = Some rq →
  rq_serial rq = wait_serial sem → wake_serial sem' = wake_serial sem →
  wait_serial sem' = wait_serial sem + upgrade_one (Some rq) →
  tickets (k + 1) sem' (<[t := th']> ths).
Proof.
  intros [Hb Hd Hu Hx Hc] Ht Hp Hp' Hs E1 E2. unfold upgrade_one in E2.
  split; rewrite ?E1, ?E2.
  - destruct (is_upgrade rq); lia.
  - intros u rq'. rewrite (pend_put _ _ _ _ _ Ht). case_decide.
    + rewrite Hp'. intros [= <-] ->. lia.
    + intros ? ?. pose proof (Hd u rq' ltac:(done) ltac:(done)). destruct (is_upgrade rq); lia.
  - intros u rq'. rewrite (pend_put _ _ _ _ _ Ht). case_decide.
    + rewrite Hp'. intros [= <-] ->. lia.
    + intros ? ?. pose proof (Hu u rq' ltac:(done) ltac:(done)). destruct (is_upgrade rq); lia.
  - intros t1 t2 rq1 rq2 Hne. rewrite !(pend_put _ _ _ _ _ Ht). repeat case_decide; subst; try done.
    + rewrite Hp'. intros [= <-] H2 _ U2. specialize (Hu _ _ H2 U2). lia.
    + rewrite Hp'. intros H1 [= <-] U1 _. specialize (Hu _ _ H1 U1). lia.
    + eauto.
  - rewrite (upgrading_put _ _ _ _ Ht), Hp, Hp'. simpl. destruct (is_upgrade rq); lia.
Qed.

(** ** Tickets of every execution *)

Section order.
Context {Q : Type} `{WaitQueueLaws Q}.

Abbreviation tickets_of k c := (tickets k (c_sem c) (c_threads c)).

Lemma signal_sem (c : config Q) : c_sem (signal c) = c_sem c.
Proof.
  unfold signal. destruct (fusion_condvar_signal _) as [[t|] q]; [|done].
  by destruct (c_threads c !! t) as [[? []]|].
Qed.

Lemma signal_tickets k (c : config Q) : tickets_of k c → tickets_of k (signal c).
Proof.
  intros Ht. unfold signal. destruct (fusion_condvar_signal _) as [[t|] q]; [|done].
  destruct (c_threads c !! t) as [[h []]|] eqn:E; try done. simpl.
  by eapply tickets_same.
Qed.

Lemma signal_pend (c : config Q) u : pend (c_threads (signal c)) u = pend (c_threads c) u.
Proof.
  unfold signal. destruct (fusion_condvar_signal _) as [[t|] q]; [|done].
  destruct (c_threads c !! t) as [[h []]|] eqn:E; try done. simpl.
  rewrite (pend_put _ _ _ _ _ E). case_decide; [|done]. subst. unfold pend. by rewrite E.
Qed.

(** The end of a section changes no other thread's request. *)
Lemma conclude_pend (c : config Q) t th h old new e u :
  c_threads c !! t = Some th → u ≠ t →
  pend (c_threads (conclude t h old new e c)) u = pend (c_threads c) u.
Proof.
  intros Ht Hne. destruct e as [| |sem sig|]; simpl; [| |destruct sig; rewrite ?signal_pend; simpl|];
    rewrite (pend_put _ _ _ _ _ Ht); by case_decide.
Qed.

Lemma conclude_poll_tickets k (c : config Q) t h rq b :
  lock_inv c → tickets_of k c → k < 2 ^ 63 →
  c_threads c !! t = Some (mk_thread h (Awake rq)) →
  let c' := conclude t h (rq_old rq) (rq_new rq) (upgrade_poll (c_sem c) rq b) c in
  tickets_of k c' ∧ wake_serial (c_sem c) <= wake_serial (c_sem c').
Proof.
  change (2 ^ 63) with 9223372036854775808.
  intros Hi Htk Hk Ht. unfold upgrade_poll.
  assert (pend (c_threads c) t = Some rq) as Hpt by (unfold pend; by rewrite Ht).
  pose proof (tk_bounds _ _ _ Htk) as Hb.
  assert (0 <= rq_serial rq < 9223372036854775808) as Hs.
  { destruct (is_upgrade rq) eqn:Eu;
      [pose proof (tk_up _ _ _ Htk t rq Hpt Eu)|pose proof (tk_down _ _ _ Htk t rq Hpt Eu)]; lia. }
  destruct (upgrade_must_wait _ _ _) eqn:Em.
  { simpl. split; [|lia]. by eapply tickets_same. }
  apply must_wait_serial in Em; [|change (2 ^ 63) with 9223372036854775808; lia..].
  assert (rq_old rq ≠ LOCK_NULL → 0 < lock_count (c_sem c) (rq_old rq)) as Hpos.
  { intros Hne. rewrite (inv_holds _ Hi).
    destruct (inv_old _ Hi t _ rq Ht eq_refl) as [?|Hin]; [done|]. by eapply holds_pos. }
  pose proof (upgrade_grant_spec _ rq (inv_wf _ Hi) Hpos) as Hg. simpl in Hg.
  set (wake := if decide (rq_old rq = LOCK_NULL) then wake_serial (c_sem c) else _) in Hg.
  assert (wake = wake_serial (c_sem c) + upgrade_one (Some rq)) as Hw.
  { unfold wake, upgrade_one, is_upgrade. case_decide; case_bool_decide; simpl; try done; try lia.
    apply wrapu_small. unfold in_u. lia. }
  assert (0 <= upgrade_one (Some rq)) by (unfold upgrade_one; destruct (is_upgrade rq); lia).
  clearbody wake.
  destruct (upgrade_grant (c_sem c) rq) as [sem|sem|sem sig|sem r]; simpl; try done.
  - destruct Hg as (_ & _ & _ & _ & E1 & E2). split; [|lia].
    eapply tickets_leave; [done|lia|done|done|done|done|lia|done].
  - destruct Hg as (_ & _ & _ & _ & E1 & E2).
    assert (tickets_of k (put t (mk_thread (rq_new rq :: release_old (rq_old rq) h) Running)
                            (with_sem sem c))) as Htk'.
    { eapply tickets_leave; [done|lia|done|done|done|done|exact (eq_trans E1 Hw)|done]. }
    split; [|destruct sig; rewrite ?signal_sem; simpl; lia].
    destruct sig; [by apply signal_tickets|done].
Qed.

Lemma exec_tickets k (c c' : config Q) l :
  lock_inv c → tickets_of k c → k + 1 < 2 ^ 63 → exec c l = Some c' →
  tickets_of (k + 1) c' ∧ wake_serial (c_sem c) <= wake_serial (c_sem c').
Proof.
  change (2 ^ 63) with 9223372036854775808.
  intros Hi Htk Hk E. pose proof (tk_bounds _ _ _ Htk) as Hb.
  destruct l as [t old new|t|t m|t m|t]; simpl in E;
    destruct (c_threads c !! t) as [[h [|rq|rq]]|] eqn:Ht; simplify_eq.
  - case_decide as Hold; simplify_eq.
    destruct (enter_cases c t h old new Hi Ht Hold) as [->|(sem1 & -> & Hi1 & E1 & E2 & _)].
    { simpl. split; [|lia]. eapply tickets_same; [done|lia|done|done|done|done]. }
    set (rq := mk_req _ _ _) in *. set (c1 := put t _ _) in *.
    rewrite <- (conclude_over c t (mk_thread h (Awake rq)) sem1). fold c1. rewrite <- E1.
    apply (conclude_poll_tickets (k + 1) c1 t h rq true Hi1); [|done|].
    + eapply tickets_enter; [done|done|done|done|done|done|]. simpl. rewrite E2.
      unfold upgrade_one, is_upgrade. simpl.
      case_decide; case_bool_decide; simpl; try done; [lia|]. apply wrapu_small. unfold in_u. lia.
    + simpl. apply list_lookup_insert_eq. by eapply lookup_lt_Some.
  - destruct (conclude_poll_tickets k (with_cv (fusion_condvar_wait_end t (c_cv c)) c) t h rq false)
      as [Htk' Hle]; [by eapply wait_end_inv|done|lia|done|].
    split; [|done]. eapply tickets_mono; [exact Htk'|lia].
  - destruct (fusion_sixsem_down_trylock (c_sem c) m) as [sem got] eqn:Et. simplify_eq/=.
    assert (wake_serial sem = wake_serial (c_sem c) ∧ wait_serial sem = wait_serial (c_sem c))
      as [E1 E2].
    { unfold fusion_sixsem_down_trylock in Et. repeat case_match; by simplify_eq/=. }
    split; [|lia]. eapply tickets_same; [done|lia|done|by destruct got|done|done].
  - case_decide; simplify_eq.
    assert (wake_serial (drop_lock m (c_sem c)) = wake_serial (c_sem c)
            ∧ wait_serial (drop_lock m (c_sem c)) = wait_serial (c_sem c)) as [E1 E2]
      by (unfold drop_lock; by case_match).
    split; [|rewrite signal_sem; simpl; unfold fusion_sixsem_up; lia]. apply signal_tickets.
    eapply tickets_same; [done|lia|done|done|done|done].
  - simpl. split; [|lia]. eapply tickets_same; [done|lia|done|done|done|done].
Qed.

Lemma reachable_tickets n k (c : config Q) :
  reachable n k c → Z.of_nat k < 2 ^ 63 → tickets_of (Z.of_nat k) c.
Proof.
  induction 1 as [|k c l c' Hr IH E]; intros Hk.
  - split; simpl; try lia.
    + intros t rq Hp. unfold pend in Hp. simpl in Hp.
      destruct (replicate n _ !! t) as [th|] eqn:Ht; [|done].
      by apply lookup_replicate in Ht as [-> _].
    + intros t rq Hp. unfold pend in Hp. simpl in Hp.
      destruct (replicate n _ !! t) as [th|] eqn:Ht; [|done].
      by apply lookup_replicate in Ht as [-> _].
    + intros t1 t2 rq1 rq2 _ Hp. unfold pend in Hp. simpl in Hp.
      destruct (replicate n _ !! t1) as [th|] eqn:Ht; [|done].
      by apply lookup_replicate in Ht as [-> _].
    + unfold upgrading. by induction n.
  - rewrite Nat2Z.inj_succ, <- Z.add_1_r. eapply exec_tickets; [by eapply sixsem_reachable_inv| | |done].
    + apply IH. lia.
    + lia.
Qed.

(** A request disappears only when its own thread runs and finds it on its
    turn. *)
Lemma exec_pend (c c' : config Q) l t rq :
  exec c l = Some c' → pend (c_threads c) t = Some rq →
  pend (c_threads c') t = Some rq
  ∨ (l = LResume t ∧ upgrade_must_wait (c_sem c) rq false = false).
Proof.
  intros E Hp.
  destruct l as [u old new|u|u m|u m|u]; simpl in E;
    destruct (c_threads c !! u) as [[h [|rq'|rq']]|] eqn:Hu; simplify_eq;
    destruct (decide (t = u)) as [->|Hne];
    try (unfold pend in Hp; rewrite Hu in Hp; done).
  - left. case_decide; simplify_eq. by erewrite conclude_pend.
  - assert (rq' = rq) as -> by (unfold pend in Hp; rewrite Hu in Hp; by injection Hp).
    destruct (upgrade_must_wait (c_sem c) rq false) eqn:Em; [left|by right].
    unfold upgrade_resume, upgrade_poll. rewrite Em. simpl.
    rewrite (pend_put _ _ _ _ _ Hu). by case_decide.
  - left. by erewrite conclude_pend.
  - left. destruct (fusion_sixsem_down_trylock _ _). simplify_eq/=.
    rewrite (pend_put _ _ _ _ _ Hu). by case_decide.
  - left. case_decide; simplify_eq. rewrite signal_pend. simpl.
    rewrite (pend_put _ _ _ _ _ Hu). by case_decide.
  - left. simpl. assert (rq' = rq) as -> by (unfold pend in Hp; rewrite Hu in Hp; by injection Hp).
    rewrite (pend_put _ _ _ _ _ Hu). by case_decide.
  - left. simpl. rewrite (pend_put _ _ _ _ _ Hu). by case_decide.
Qed.

(** A request leaves only on its turn, while the serials have not wrapped. *)
Lemma exec_pend_turn n k (c c' : config Q) l t rq :
  reachable n k c → Z.of_nat k < 2 ^ 63 → exec c l = Some c' →
  pend (c_threads c) t = Some rq → pend (c_threads c') t ≠ Some rq →
  rq_serial rq = wake_serial (c_sem c).
Proof.
  intros Hr Hk E Hp Hp'. destruct (exec_pend c c' l t rq E Hp) as [?|[_ Em]]; [done|].
  pose proof (reachable_tickets n k c Hr Hk) as Htk.
  pose proof (tk_bounds _ _ _ Htk) as Hb. eapply must_wait_serial; [| |exact Em]; [|lia].
  destruct (is_upgrade rq) eqn:Eu;
    [pose proof (tk_up _ _ _ Htk t rq Hp Eu)|pose proof (tk_down _ _ _ Htk t rq Hp Eu)]; lia.
Qed.
End order.

(** ** Order of conversions *)

(** C21: Conversions of a held mode are granted strictly in the order in which
    they were requested: when a waiting conversion returns, every other waiting
    conversion has a later ticket.  ([k] bounds the number of critical
    sections, so that the 64-bit tickets have not wrapped.) *)
Theorem conversions_fifo {Q} `{WaitQueueLaws Q} n k (c c' : config Q) l t rq :
  reachable n k c → Z.of_nat k < 2 ^ 63 → exec c l = Some c' →
  pend (c_threads c) t = Some rq → is_upgrade rq = true → pend (c_threads c') t = None →
  ∀ t' rq', t' ≠ t → pend (c_threads c) t' = Some rq' → is_upgrade rq' = true →
            rq_serial rq < rq_serial rq'.
Proof.
  intros Hr Hk E Hp Hu Hp' t' rq' Hne Hpt' Hu'.
  pose proof (exec_pend_turn n k c c' l t rq Hr Hk E Hp ltac:(congruence)) as Hs.
  pose proof (reachable_tickets n k c Hr Hk) as Htk.
  pose proof (tk_up _ _ _ Htk t' rq' Hpt' Hu').
  pose proof (tk_distinct _ _ _ Htk t' t rq' rq Hne Hpt' Hp Hu' Hu). lia.
Qed.

(** Two threads that hold IS ask for IX while a third holds S; its release
    wakes the first of them. *)
Definition two_conversions : list label :=
  [LUpgrade 0 LOCK_NULL LOCK_IS; LUpgrade 1 LOCK_NULL LOCK_IS; LUpgrade 2 LOCK_NULL LOCK_S;
   LUpgrade 0 LOCK_IS LOCK_IX; LUpgrade 1 LOCK_IS LOCK_IX; LUp 2 LOCK_S].

Lemma conversions_fifo_witness :
  rq_serial (mk_req LOCK_IS LOCK_IX 0) < rq_serial (mk_req LOCK_IS LOCK_IX 1)
  ∧ ∃ c : config (list nat), run (init_config 3) two_conversions = Some c.
Proof.
  split; [|eexists; vm_compute; reflexivity].
  evar (c : config (list nat)). evar (c' : config (list nat)).
  assert (run (init_config 3) two_conversions = Some c) as Hc
    by (vm_compute; unfold c; reflexivity).
  assert (exec c (LResume 0) = Some c') as Hc' by (vm_compute; unfold c'; reflexivity).
  apply (conversions_fifo 3 6 c c' (LResume 0) 0 (mk_req LOCK_IS LOCK_IX 0)
           (sixsem_reachable_run 3 0 _ two_conversions _ (reachable_init 3) Hc) ltac:(done) Hc'
           eq_refl eq_refl eq_refl 1%nat (mk_req LOCK_IS LOCK_IX 1) ltac:(done) eq_refl eq_refl).
Defined.

(** A [down] that was overtaken by a conversion - its serial is behind
    [wake_serial] - is never granted again: whatever runs, for as long as the
    serials have not wrapped, the request is still pending. *)
Theorem overtaken_down_never_granted {Q} `{WaitQueueLaws Q} n k (c c' : config Q) ls t rq :
  reachable n k c → Z.of_nat (k + length ls) < 2 ^ 63 →
  pend (c_threads c) t = Some rq → rq_serial rq < wake_serial (c_sem c) →
  run c ls = Some c' → pend (c_threads c') t = Some rq.
Proof.
  change (2 ^ 63) with 9223372036854775808. unfold run.
  revert k c. induction ls as [|l ls IH]; intros k c Hr Hk Hp Hs E; simplify_eq/=; [done|].
  destruct (exec c l) as [c1|] eqn:E1;
    [|exfalso; revert E; clear; induction ls; simpl; [done|auto]].
  pose proof (reachable_tickets n k c Hr ltac:(lia)) as Htk.
  destruct (exec_tickets _ c c1 l (sixsem_reachable_inv n k c Hr) Htk ltac:(lia) E1) as [_ Hle].
  apply (IH (S k) c1); [by econstructor|lia| |lia|done].
  destruct (decide (pend (c_threads c1) t = Some rq)) as [?|Hne]; [done|].
  pose proof (exec_pend_turn n k c c1 l t rq Hr ltac:(lia) E1 Hp Hne). lia.
Qed.

(** Thread 0 holds S, thread 2 twice IS; thread 1 asks for X, then thread 0
    converts S to U, and thread 2 releases.  Thread 0 is granted first, and
    releases.  *)
Definition overtaking : list label :=
  [LUpgrade 0 LOCK_NULL LOCK_S; LUpgrade 2 LOCK_NULL LOCK_IS; LUpgrade 2 LOCK_NULL LOCK_IS;
   LUpgrade 1 LOCK_NULL LOCK_X; LUpgrade 0 LOCK_S LOCK_U;
   LUp 2 LOCK_IS; LResume 1; LUp 2 LOCK_IS; LResume 0; LResume 1; LUp 0 LOCK_U].

(** After it, nothing is held, and thread 1 keeps sleeping on its X. *)
Lemma overtaken_down_never_granted_witness :
  ∃ c c' : config (list nat),
    run (init_config 3) overtaking = Some c
    ∧ (∀ m, holds m (c_threads c) = 0)
    ∧ run c [LResume 1; LUpgrade 0 LOCK_NULL LOCK_S] = Some c'
    ∧ pend (c_threads c') 1 = Some (mk_req LOCK_NULL LOCK_X 0).
Proof.
  evar (c : config (list nat)). evar (c' : config (list nat)). exists c, c'.
  assert (run (init_config 3) overtaking = Some c) as Hc by (vm_compute; unfold c; reflexivity).
  assert (run c [LResume 1; LUpgrade 0 LOCK_NULL LOCK_S] = Some c') as Hc'
    by (vm_compute; unfold c'; reflexivity).
  split; [exact Hc|]. split; [by intros []|]. split; [exact Hc'|].
  apply (overtaken_down_never_granted 3 11 c c' [LResume 1; LUpgrade 0 LOCK_NULL LOCK_S] 1
    (mk_req LOCK_NULL LOCK_X 0)
    (sixsem_reachable_run 3 0 _ overtaking _ (reachable_init 3) Hc)); [done|done|done|exact Hc'].
Defined.

(** ** Requests that nobody wakes *)

(** C24: There is a reachable configuration in which a waiting conversion would
    be granted if its thread looked, but no thread can take a step: everybody
    sleeps on the condition variable and nobody is left to signal it.  (A
    thread that arrives while another waits goes to sleep without testing its
    own request, and sleeping signals nobody.) *)
Theorem conversion_lost_wakeup :
  ∃ (c : config (list nat)) rq,
    reachable 2 3 c
    ∧ pend (c_threads c) 0 = Some rq ∧ upgrade_must_wait (c_sem c) rq false = false
    ∧ ∀ l c', exec c l = Some c' → ∃ t, l = LSpurious t.
Proof.
  evar (c : config (list nat)). exists c, (mk_req LOCK_S LOCK_X 0).
  assert (run (init_config 2) [LUpgrade 0 LOCK_NULL LOCK_S; LUpgrade 1 LOCK_NULL LOCK_X;
                               LUpgrade 0 LOCK_S LOCK_X] = Some c) as Hc
    by (vm_compute; unfold c; reflexivity).
  split_and!; [exact (sixsem_reachable_run 2 0 _ _ _ (reachable_init 2) Hc)|done|done|].
  intros l c' E.
  assert (∀ t, match c_threads c !! t with
               | Some (mk_thread _ (Asleep _)) | None => True | _ => False end) as Hsleep
    by (intros [|[|t]]; exact I).
  destruct l as [t old new|t|t m|t m|t]; [..|by eexists]; specialize (Hsleep t);
    unfold exec in E; destruct (c_threads c !! t) as [[? []]|]; done.
Qed.

(** A conversion that finds the count of its new mode full returns
    -EAGAIN, having given up the old mode and still counted in [wait_count]. *)
Theorem conversion_full_loses_old_mode sem rq :
  sem_wf sem → rq_old rq ≠ LOCK_NULL → rq_new rq ≠ rq_old rq →
  0 < lock_count sem (rq_old rq) → lock_count sem (rq_new rq) = 65535 →
  ∃ sem', upgrade_grant sem rq = CountFull sem' ∧ retval (CountFull sem') = Some (- EAGAIN)
    ∧ lock_count sem' (rq_old rq) = lock_count sem (rq_old rq) - 1
    ∧ lock_count sem' (rq_new rq) = 65535
    ∧ wait_count sem' = wait_count sem.
Proof.
  intros Hwf Ho Hne Hpos Hfull. pose proof (upgrade_grant_spec sem rq Hwf (λ _, Hpos)) as Hg.
  simpl in Hg. destruct (upgrade_grant sem rq) as [sem'|sem'|sem' sig|sem' r]; try done.
  - destruct Hg as (_ & _ & Hk & Hw & _). exists sem'. split_and!; try done.
    + rewrite Hk. repeat case_decide; done || congruence.
    + rewrite Hk. repeat case_decide; try done; try congruence; lia.
  - destruct Hg as (Hwf' & Hk & _). pose proof (wf_count _ Hwf' (rq_new rq)) as Hc.
    rewrite Hk in Hc. exfalso. revert Hc. repeat case_decide; try done; lia.
Qed.

(** A lock with 65535 holders of IX and one of IS. *)
Definition full_sem : sixsem := mk_sixsem 6 [0; 1; 65535; 0; 0; 0; 0] 1 0 1.

Lemma conversion_full_loses_old_mode_witness :
  ∃ sem', upgrade_grant full_sem (mk_req LOCK_IS LOCK_IX 0) = CountFull sem'
          ∧ wait_count sem' = 1.
Proof.
  destruct (conversion_full_loses_old_mode full_sem (mk_req LOCK_IS LOCK_IX 0))
    as (sem' & E & _ & _ & _ & Hw); try done.
  - split; try done; intros []; vm_compute; split; congruence.
  - by exists sem'.
Defined.

(** ** The uncontended lock *)

Lemma lock_counts_ext (l1 l2 : list Z) :
  length l1 = NUM_SIX_LOCK_CLASSES → length l2 = NUM_SIX_LOCK_CLASSES →
  (∀ m, default 0 (l1 !! lock_index m) = default 0 (l2 !! lock_index m)) → l1 = l2.
Proof.
  unfold NUM_SIX_LOCK_CLASSES. intros H1 H2 H.
  destruct l1 as [|a0 [|a1 [|a2 [|a3 [|a4 [|a5 [|a6 [|]]]]]]]]; try done.
  destruct l2 as [|b0 [|b1 [|b2 [|b3 [|b4 [|b5 [|b6 [|]]]]]]]]; try done.
  pose proof (H LOCK_NULL). pose proof (H LOCK_IS). pose proof (H LOCK_IX). pose proof (H LOCK_S).
  pose proof (H LOCK_SIX). pose proof (H LOCK_U). pose proof (H LOCK_X). simpl in *. congruence.
Qed.

(** Well-formed semaphores with the same counts are equal. *)
Lemma sem_wf_ext s1 s2 :
  sem_wf s1 → sem_wf s2 → (∀ m, lock_count s1 m = lock_count s2 m) →
  wait_count s1 = wait_count s2 → wake_serial s1 = wake_serial s2 →
  wait_serial s1 = wait_serial s2 → s1 = s2.
Proof.
  intros [L1 M1 _ B1 _ _ _] [L2 M2 _ B2 _ _ _] Hk Hw H1 H2.
  assert (cur_locks_mask s1 = cur_locks_mask s2) as Em.
  { apply Z.bits_inj'. intros i Hi. destruct (decide (i < 7)) as [Hlt|Hge].
    - assert (∃ m, i = Z.of_nat (lock_index m)) as [m ->].
      { assert (i = 0 ∨ i = 1 ∨ i = 2 ∨ i = 3 ∨ i = 4 ∨ i = 5 ∨ i = 6) as Hc by lia.
        destruct Hc as [->|[->|[->|[->|[->|[->| ->]]]]]];
          [by exists LOCK_NULL|by exists LOCK_IS|by exists LOCK_IX|by exists LOCK_S
          |by exists LOCK_SIX|by exists LOCK_U|by exists LOCK_X]. }
      change (mode_bit (cur_locks_mask s1) m = mode_bit (cur_locks_mask s2) m).
      by rewrite B1, B2, Hk.
    - assert (∀ z, 0 <= z < 128 → Z.testbit z i = false) as Hz.
      { intros z Hz. rewrite <- (Z.mod_small z (2 ^ 7)) by done.
        apply Z.mod_pow2_bits_high. lia. }
      by rewrite !Hz. }
  assert (lock_counts s1 = lock_counts s2) as Ec by (by apply lock_counts_ext).
  destruct s1, s2; simpl in *. congruence.
Qed.

(** On a semaphore with no waiters and no pending conversion, a compatible
    request is granted at once by [down] (which returns 0 and signals nobody)
    and by [down_trylock] alike; and [up] restores the semaphore exactly. *)
Theorem uncontended_down_up sem m :
  sem_wf sem → wait_count sem = 0 → wake_serial sem = wait_serial sem →
  six_lock_is_compatible sem LOCK_NULL m = true → lock_count sem m < 65535 →
  ∃ sem', fusion_sixsem_down sem m = Granted sem' false ∧ retval (Granted sem' false) = Some 0
    ∧ fusion_sixsem_down_trylock sem m = (sem', true)
    ∧ fusion_sixsem_up sem' m = sem.
Proof.
  intros Hwf Hw Hs Hc Hlt. exists (add_lock m sem).
  assert (upgrade_conversion m LOCK_NULL = m) as Em by (by destruct m).
  assert (u16 (lock_count sem m + 1) = lock_count sem m + 1) as Ec.
  { pose proof (wf_count _ Hwf m). apply wrapu_small. unfold in_u. lia. }
  pose proof (wf_count _ Hwf m) as Hcm.
  destruct (add_lock_wf m sem Hwf Hlt) as [Hwf' Hk].
  split_and!; try done.
  - unfold fusion_sixsem_down, fusion_sixsem_upgrade. rewrite Em, Hw.
    change (u16 (0 + 1)) with 1. change (1 =? 0) with false. cbv iota zeta.
    rewrite decide_True by done. simpl. unfold upgrade_poll.
    assert (upgrade_must_wait (set_wait_count 1 sem) (mk_req LOCK_NULL m (wait_serial sem)) true
            = false) as ->.
    { unfold upgrade_must_wait. simpl. unfold serial64_compare. rewrite Hs, Z.eqb_refl.
      change (six_lock_is_compatible (set_wait_count 1 sem) LOCK_NULL m)
        with (six_lock_is_compatible sem LOCK_NULL m). by rewrite Hc. }
    unfold upgrade_grant. simpl. change (lock_count (set_wait_count 1 sem) m) with (lock_count sem m).
    rewrite Ec. destruct (_ =? 0) eqn:Ez; [lia|].
    unfold add_lock, set_mask, set_lock_count, set_wait_count. simpl. rewrite Hw. done.
  - unfold fusion_sixsem_down_trylock. rewrite Hw. simpl.
    rewrite Hs, Z.eqb_refl, Hc, Ec. simpl. by destruct (_ =? 0) eqn:Ez; [lia|].
  - unfold fusion_sixsem_up.
    destruct (drop_lock_wf m (add_lock m sem) Hwf') as (Hwf2 & Hk2 & E1 & E2 & E3).
    { rewrite Hk, decide_True by done. lia. }
    apply sem_wf_ext; try done. intros k. rewrite Hk2, Hk. lia.
Qed.

Lemma uncontended_down_up_witness :
  ∃ sem', fusion_sixsem_down fusion_sixsem_init LOCK_S = Granted sem' false
          ∧ fusion_sixsem_up sem' LOCK_S = fusion_sixsem_init.
Proof.
  destruct (uncontended_down_up fusion_sixsem_init LOCK_S sem_wf_init) as (sem' & E & _ & _ & E2);
    try done. by exists sem'.
Defined.
