(* ===== verification/State.v ===== *)
(** * State variables: state.c, include/fio/port/state.h

    A [fio_state_t] is a 32-bit state that threads change and wait for under a
    condition-variable lock.  The operations are given first, as functions of
    the state variable that also return the threads a broadcast woke; then any
    number of threads run them over one variable, with the lock's owner
    explicit, because [fio_wait_on_state] returns with the lock held. *)
From S2P Require Import Prelude Condvar.

Definition FIO_STATE_INVALID : Z := 0.

(** ** Scanning the variable arguments

    [va_arg] past the last argument is undefined: it is a [Fault]. *)

(** The loop of [__fio_state_in_one_of]: [n] iterations left. *)
Fixpoint in_one_of_loop (n : nat) (cur_state : Z) (aq : list Z) : outcome bool :=
  match n with
  | O => Ok false
  | S n =>
      match aq with
      | [] => Fault OutOfBounds
      | state :: aq => if u32 cur_state =? state then Ok true else in_one_of_loop n cur_state aq
      end
  end.

(** [cur_state] is an [int]; the comparison converts it back. *)
Definition __fio_state_in_one_of (s_state num_states : Z) (ap : list Z) : outcome bool :=
  in_one_of_loop (Z.to_nat (u32 num_states)) (s32 s_state) ap.

(** Takes the lock around the comparison: one atomic read. *)
Definition fio_state_in_one_of (s_state num_states : Z) (ap : list Z) : outcome bool :=
  __fio_state_in_one_of s_state num_states ap.

(** The loop of [fio_state_not_in_one_of], on a state read without the lock. *)
Fixpoint not_in_one_of_loop (n : nat) (cur_state : Z) (ap : list Z) : outcome bool :=
  match n with
  | O => Ok true
  | S n =>
      match ap with
      | [] => Fault OutOfBounds
      | state :: ap => if u32 cur_state =? state then Ok false else not_in_one_of_loop n cur_state ap
      end
  end.

Definition fio_state_not_in_one_of (s_state num_states : Z) (ap : list Z) : outcome bool :=
  not_in_one_of_loop (Z.to_nat (u32 num_states)) (s32 s_state) ap.

Definition fio_state_valid (s_state : Z) : bool := negb (s_state =? FIO_STATE_INVALID).
Definition fio_in_state (s_state wait_on : Z) : bool := s_state =? wait_on.

Definition fio_state_in_one_of_2 (s_state state0 state1 : Z) : bool :=
  (s_state =? state0) || (s_state =? state1).
Definition fio_state_in_one_of_3 (s_state state0 state1 state2 : Z) : bool :=
  (s_state =? state0) || (s_state =? state1) || (s_state =? state2).
Definition fio_state_in_one_of_4 (s_state state0 state1 state2 state3 : Z) : bool :=
  (s_state =? state0) || (s_state =? state1) || (s_state =? state2) || (s_state =? state3).
Definition fio_state_in_one_of_5 (s_state state0 state1 state2 state3 state4 : Z) : bool :=
  (s_state =? state0) || (s_state =? state1) || (s_state =? state2) || (s_state =? state3)
  || (s_state =? state4).

(** ** Transition arcs *)

Definition STATE_ARC_NOTFOUND : Z := -1.
Definition FIO_STATE_SAME : Z := -1.
Definition STATE_MASK_ANY : Z := Z.lxor (2 ^ 32 - 1) 1.

(** [((uint32_t)1) << a]: undefined from 32 on. *)
Definition STATE_M1 (a : Z) : outcome Z :=
  if (0 <=? a) && (a <? 32) then Ok (u32 (Z.shiftl 1 a)) else Fault BadShift.

(** The masks of several states. *)
Definition state_or (a : Z) (rest : outcome Z) : outcome Z := m ← STATE_M1 a; r ← rest; Ok (Z.lor m r).
Definition STATE_M2 (a b : Z) : outcome Z := state_or a (STATE_M1 b).
Definition STATE_M3 (a b c : Z) : outcome Z := state_or a (STATE_M2 b c).
Definition STATE_M4 (a b c d : Z) : outcome Z := state_or a (STATE_M3 b c d).
Definition STATE_M5 (a b c d e : Z) : outcome Z := state_or a (STATE_M4 b c d e).
Definition STATE_M6 (a b c d e f : Z) : outcome Z := state_or a (STATE_M5 b c d e f).
Definition STATE_M7 (a b c d e f g : Z) : outcome Z := state_or a (STATE_M6 b c d e f g).
Definition STATE_M8 (a b c d e f g h : Z) : outcome Z := state_or a (STATE_M7 b c d e f g h).
Definition STATE_M9 (a b c d e f g h i : Z) : outcome Z := state_or a (STATE_M8 b c d e f g h i).

Record fio_state_arc := mk_arc {
  states_from_mask : Z;      (* uint32_t *)
  state_to : Z;              (* int16_t *)
  arc_num : Z                (* int16_t *)
}.

(** The search loop: the arc that applies, or the terminator. *)
Fixpoint find_arc (state_mask : Z) (arcs : list fio_state_arc) : outcome (option fio_state_arc) :=
  match arcs with
  | [] => Fault OutOfBounds
  | arc :: arcs =>
      if arc_num arc =? STATE_ARC_NOTFOUND then Ok None
      else if negb (Z.land state_mask (states_from_mask arc) =? 0) then Ok (Some arc)
      else find_arc state_mask arcs
  end.

(** ** Operations under the lock *)

Section state.
Context {Q : Type} `{WaitQueue Q}.

Record fio_state := mk_state { state : Z; cv : Q }.

Definition fio_init_state (initial : Z) : fio_state := mk_state initial fusion_condvar_init.

(** Returns the old state and the threads woken. *)
Definition __fio_set_state_locked (s : fio_state) (new_state : Z) : fio_state * (Z * list nat) :=
  let old_state := state s in
  if negb (old_state =? new_state)
  then let '(woken, q) := fusion_condvar_broadcast (cv s) in (mk_state new_state q, (old_state, woken))
  else (s, (old_state, [])).

(** The old state goes through an [int]. *)
Definition fio_set_state (s : fio_state) (new_state : Z) : fio_state * (Z * list nat) :=
  let '(s, (old_state, woken)) := __fio_set_state_locked s new_state in
  (s, (u32 (s32 old_state), woken)).

Definition fio_state_up (s : fio_state) : fio_state * list nat :=
  let '(s, (_, woken)) := __fio_set_state_locked s (u32 (state s + 1)) in (s, woken).

Definition fio_state_down (s : fio_state) : fio_state * list nat :=
  let '(s, (_, woken)) := __fio_set_state_locked s (u32 (state s - 1)) in (s, woken).

(** Returns ([*old_state], the return value, the threads woken). *)
Definition fio_transition_state_va (s : fio_state) (new_state nold : Z) (ap : list Z) :
    outcome (fio_state * (Z * bool * list nat)) :=
  let old_state := state s in
  go ← (if nold =? 0 then Ok (negb (state s =? new_state))
        else __fio_state_in_one_of (state s) nold ap);
  if go : bool
  then let '(s, (_, woken)) := __fio_set_state_locked s new_state in
       Ok (s, (old_state, true, woken))
  else Ok (s, (old_state, false, [])).

Definition fio_transition_state (s : fio_state) (new_state nold : Z) (ap : list Z) :
    outcome (fio_state * (bool * list nat)) :=
  '(s, (_, retval, woken)) ← fio_transition_state_va s new_state nold ap;
  Ok (s, (retval, woken)).

(** [arc_action] is the caller's; it runs with the lock held. *)
Definition fio_state_transition (s : fio_state) (arcs : list fio_state_arc)
    (arc_action : option (Z → Z)) : outcome (fio_state * (Z * list nat)) :=
  state_mask ← STATE_M1 (state s);
  found ← find_arc state_mask arcs;
  let '(s, num, woken) :=
    match found with
    | None => (s, STATE_ARC_NOTFOUND, [])
    | Some arc =>
        if negb (state_to arc =? FIO_STATE_SAME)
        then let '(s, (_, woken)) := __fio_set_state_locked s (u32 (state_to arc)) in
             (s, arc_num arc, woken)
        else (s, arc_num arc, [])
    end in
  Ok (s, (match arc_action with Some f => f num | None => num end, woken)).
End state.
Arguments fio_state Q : clear implicits.

(** ** Threads over one state variable *)

(** The set of states a waiting thread asked for: the argument count and the
    arguments of [__fio_wait_on_states]; [fio_wait_on_state(s, v)] is [(1, [v])]. *)
Definition wait_set : Type := Z * list Z.

(** [__fio_wait_on_state(s, v)]: its test [s->state != v] is the scan of one
    argument ([one_state_scan] below). *)
Definition __fio_wait_on_state (wait_on : Z) : wait_set := (1, [wait_on]).

Inductive phase :=
| Running
| Asleep (w : wait_set)
| Awake (w : wait_set)
| Owner (w : wait_set).      (* returned from the wait, lock held *)

#[global] Instance phase_eq_dec : EqDecision phase.
Proof. solve_decision. Defined.

Inductive label :=
| LSet (t : nat) (new_state : Z)
| LUp (t : nat)
| LDown (t : nat)
| LTransition (t : nat) (new_state nold : Z) (ap : list Z)
| LArcs (t : nat) (arcs : list fio_state_arc) (arc_action : option (Z → Z))
| LWait (t : nat) (w : wait_set)      (* __fio_wait_on_states *)
| LResume (t : nat)                   (* a woken waiter takes the lock *)
| LSpurious (t : nat)                 (* woken by an OS signal *)
| LUnlock (t : nat).                  (* fio_unlock_state *)

Section system.
Context {Q : Type} `{WaitQueue Q}.

Record config := mk_config {
  c_state : fio_state Q; c_owner : option nat; c_threads : list phase
}.

Definition init_config (n : nat) (initial : Z) : config :=
  mk_config (fio_init_state initial) None (replicate n Running).

(** The woken threads leave their sleep. *)
Definition wake_phase (p : phase) : phase := if p is Asleep w then Awake w else p.

Definition wake (ths : list phase) (woken : list nat) : list phase :=
  foldr (λ t ths, alter wake_phase t ths) ths woken.

Definition locked_op (r : fio_state Q * list nat) (c : config) : config :=
  mk_config (r.1) (c_owner c) (wake (c_threads c) (r.2)).

(** One pass of the loop of [__fio_wait_on_states]: the thread takes the lock
    and keeps it, or sleeps.  A scan past the arguments is not a step. *)
Definition wait_poll (t : nat) (w : wait_set) (c : config) : option config :=
  match __fio_state_in_one_of (state (c_state c)) (w.1) (w.2) with
  | Ok true => Some (mk_config (c_state c) (Some t) (<[t := Owner w]> (c_threads c)))
  | Ok false =>
      Some (mk_config (mk_state (state (c_state c)) (fusion_condvar_wait_begin t (cv (c_state c))))
              (c_owner c) (<[t := Asleep w]> (c_threads c)))
  | Fault _ => None
  end.

Definition wait_finish (t : nat) (c : config) : config :=
  mk_config (mk_state (state (c_state c)) (fusion_condvar_wait_end t (cv (c_state c))))
    (c_owner c) (c_threads c).

Definition drop_value {A} (r : fio_state Q * (A * list nat)) : fio_state Q * list nat :=
  (r.1, r.2.2).

(** A step of a running thread that needs the lock free. *)
Definition when_free (t : nat) (c : config) (oc : option config) : option config :=
  if decide (c_owner c = None ∧ c_threads c !! t = Some Running) then oc else None.

Definition when_ok {A} (o : outcome A) (f : A → config) : option config :=
  match o with Ok a => Some (f a) | Fault _ => None end.

(** The [uint32_t] arguments are converted at the call. *)
Definition exec (c : config) (l : label) : option config :=
  let s := c_state c in
  match l with
  | LSet t v => when_free t c (Some (locked_op (drop_value (fio_set_state s (u32 v))) c))
  | LUp t => when_free t c (Some (locked_op (fio_state_up s) c))
  | LDown t => when_free t c (Some (locked_op (fio_state_down s) c))
  | LTransition t v nold ap =>
      when_free t c (when_ok (fio_transition_state s (u32 v) nold ap) (λ r, locked_op (drop_value r) c))
  | LArcs t arcs f =>
      when_free t c (when_ok (fio_state_transition s arcs f) (λ r, locked_op (drop_value r) c))
  | LWait t w => when_free t c (wait_poll t w c)
  | LResume t =>
      match c_owner c, c_threads c !! t with
      | None, Some (Awake w) => wait_poll t w (wait_finish t c)
      | _, _ => None
      end
  | LSpurious t =>
      match c_threads c !! t with
      | Some (Asleep w) =>
          Some (mk_config (c_state (wait_finish t c)) (c_owner c) (<[t := Awake w]> (c_threads c)))
      | _ => None
      end
  | LUnlock t =>
      match c_threads c !! t with
      | Some (Owner w) => Some (mk_config s None (<[t := Running]> (c_threads c)))
      | _ => None
      end
  end.

Inductive reachable (n : nat) (initial : Z) : config → Prop :=
| reachable_init : reachable n initial (init_config n initial)
| reachable_step c l c' :
    reachable n initial c → exec c l = Some c' → reachable n initial c'.

Definition run (c : config) (ls : list label) : option config :=
  foldl (λ oc l, oc ≫= λ c, exec c l) (Some c) ls.

Lemma state_reachable_run n initial c ls c' :
  reachable n initial c → run c ls = Some c' → reachable n initial c'.
Proof.
  unfold run. revert c. induction ls as [|l ls IH]; intros c Hr E; simplify_eq/=; [done|].
  destruct (exec c l) as [c1|] eqn:E1.
  - eapply IH; [|done]. by econstructor.
  - exfalso. revert E. clear. induction ls; simpl; [done|auto].
Qed.
End system.
Arguments config Q : clear implicits.

(** ** Scans *)

Lemma Z_eqb_True x y : (x =? y) ↔ x = y.
Proof. rewrite Is_true_true. apply Z.eqb_eq. Qed.


Lemma in_one_of_loop_false n cur aq :
  in_one_of_loop n cur aq = Ok false ↔ (n <= length aq)%nat ∧ u32 cur ∉ take n aq.
Proof.
  revert aq. induction n as [|n IH]; intros [|a aq]; simpl; try (split; [|done]; intros _).
  - split; [lia|set_solver].
  - split; [lia|set_solver].
  - split; [done|]. intros [? _]. lia.
  - destruct (_ =? a) eqn:E.
    + split; [done|]. intros [_ Hn]. apply Z.eqb_eq in E. set_solver.
    + rewrite IH. apply Z.eqb_neq in E. rewrite not_elem_of_cons. split; intros [? ?]; split; (lia || tauto).
Qed.

Lemma in_one_of_loop_true n cur aq :
  in_one_of_loop n cur aq = Ok true ↔ u32 cur ∈ take n aq.
Proof.
  revert aq. induction n as [|n IH]; intros [|a aq]; simpl; try (split; [done|set_solver]).
  destruct (_ =? a) eqn:E.
  - apply Z.eqb_eq in E. split; [|done]. intros _. set_solver.
  - rewrite IH. apply Z.eqb_neq in E. rewrite elem_of_cons. tauto.
Qed.

Lemma not_in_one_of_loop_neg n cur aq :
  not_in_one_of_loop n cur aq = negb <$> in_one_of_loop n cur aq.
Proof.
  revert aq. induction n as [|n IH]; intros [|a aq]; simpl; try done.
  destruct (_ =? a); [done|apply IH].
Qed.

Lemma u32_s32 z : in_u 32 z → u32 (s32 z) = z.
Proof. intros Hz. word_lia. Qed.

Lemma one_state_scan s v :
  in_u 32 s → __fio_state_in_one_of s (__fio_wait_on_state v).1 (__fio_wait_on_state v).2
              = Ok (fio_in_state s v).
Proof.
  intros Hs. unfold __fio_state_in_one_of, fio_in_state. simpl.
  change (Z.to_nat (u32 1)) with 1%nat. simpl. rewrite u32_s32 by done. by destruct (s =? v).
Qed.

(** With as many arguments as announced, [fio_state_in_one_of] answers
    whether the state is one of them, [fio_state_not_in_one_of] the opposite,
    and the fixed-arity variants agree with it; neither reads past the
    arguments. *)
Theorem in_one_of_exact s num ap :
  in_u 32 s → in_u 32 num → num <= Z.of_nat (length ap) →
  let listed := take (Z.to_nat num) ap in
  fio_state_in_one_of s num ap = Ok (bool_decide (s ∈ listed))
  ∧ fio_state_not_in_one_of s num ap = Ok (bool_decide (s ∉ listed))
  ∧ (∀ a b, ap = [a; b] → num = 2 → fio_state_in_one_of s num ap = Ok (fio_state_in_one_of_2 s a b))
  ∧ (∀ a b c, ap = [a; b; c] → num = 3 →
       fio_state_in_one_of s num ap = Ok (fio_state_in_one_of_3 s a b c))
  ∧ (∀ a b c d, ap = [a; b; c; d] → num = 4 →
       fio_state_in_one_of s num ap = Ok (fio_state_in_one_of_4 s a b c d))
  ∧ (∀ a b c d e, ap = [a; b; c; d; e] → num = 5 →
       fio_state_in_one_of s num ap = Ok (fio_state_in_one_of_5 s a b c d e)).
Proof.
  intros Hs Hn Hl listed. unfold fio_state_in_one_of, fio_state_not_in_one_of, __fio_state_in_one_of.
  rewrite not_in_one_of_loop_neg, wrapu_small by done.
  assert (in_one_of_loop (Z.to_nat num) (s32 s) ap = Ok (bool_decide (s ∈ listed))) as E.
  { case_bool_decide as Hin.
    - apply in_one_of_loop_true. by rewrite u32_s32.
    - apply in_one_of_loop_false. rewrite u32_s32 by done. split; [lia|done]. }
  rewrite E. simpl. split_and!; try done.
  - f_equal. by repeat case_bool_decide.
  - intros a b -> ->. unfold listed, fio_state_in_one_of_2. f_equal. apply eq_bool_prop_intro.
    rewrite bool_decide_spec, !orb_True, !Z_eqb_True. simpl. set_solver.
  - intros a b c -> ->. unfold listed, fio_state_in_one_of_3. f_equal. apply eq_bool_prop_intro.
    rewrite bool_decide_spec, !orb_True, !Z_eqb_True. simpl. set_solver.
  - intros a b c d -> ->. unfold listed, fio_state_in_one_of_4. f_equal. apply eq_bool_prop_intro.
    rewrite bool_decide_spec, !orb_True, !Z_eqb_True. simpl. set_solver.
  - intros a b c d e -> ->. unfold listed, fio_state_in_one_of_5. f_equal. apply eq_bool_prop_intro.
    rewrite bool_decide_spec, !orb_True, !Z_eqb_True. simpl. set_solver.
Qed.

Lemma in_one_of_exact_witness :
  fio_state_in_one_of 5 2 [4; 5] = Ok true ∧ fio_state_not_in_one_of 5 2 [4; 5] = Ok false.
Proof.
  destruct (in_one_of_exact 5 2 [4; 5]) as (E1 & E2 & _); [done|done|done|].
  split; [exact E1|exact E2].
Defined.

(** ** What an operation does *)

Section operations.
Context {Q : Type} `{WaitQueueLaws Q}.

(** The only two effects of an operation: none, or a new state and a
    broadcast. *)
Definition set_effect (s : fio_state Q) (v : Z) (r : fio_state Q * list nat) : Prop :=
  state r.1 = v ∧
  (v = state s → r = (s, [])) ∧
  (v ≠ state s → r.2 ≡ₚ wq_waiters (cv s) ∧ wq_waiters (cv r.1) = []).

Lemma set_locked_effect s v :
  ∃ r, __fio_set_state_locked s v = (r.1, (state s, r.2)) ∧ set_effect s v r.
Proof.
  unfold __fio_set_state_locked, set_effect.
  destruct (state s =? v) eqn:E; simpl.
  - apply Z.eqb_eq in E. exists (s, []). simpl. split_and!; done || congruence.
  - apply Z.eqb_neq in E. pose proof (wq_wake_up_all_spec (cv s)) as [Hp He].
    unfold fusion_condvar_broadcast. destruct (wq_wake_up_all (cv s)) as [woken q].
    exists (mk_state v q, woken). simpl in *. split_and!; done || congruence.
Qed.

Lemma step_effects s :
  set_effect s (u32 (state s + 1)) (fio_state_up s)
  ∧ set_effect s (u32 (state s - 1)) (fio_state_down s).
Proof.
  unfold fio_state_up, fio_state_down.
  destruct (set_locked_effect s (u32 (state s + 1))) as ([s1 w1] & -> & He1).
  destruct (set_locked_effect s (u32 (state s - 1))) as ([s2 w2] & -> & He2). done.
Qed.

(** Setting the state, stepping it up or down (with wrap-around) returns
    the old state where the code does, installs the new one, and wakes every
    waiter exactly when the state changed. *)
Theorem set_state_effect s v :
  in_u 32 (state s) →
  (∃ r, fio_set_state s v = (r.1, (state s, r.2)) ∧ set_effect s v r)
  ∧ set_effect s (u32 (state s + 1)) (fio_state_up s)
  ∧ set_effect s (u32 (state s - 1)) (fio_state_down s).
Proof.
  intros Hs. split; [|apply step_effects]. unfold fio_set_state.
  destruct (set_locked_effect s v) as (r & -> & He). exists r. by rewrite u32_s32.
Qed.

(** The guard of a transition: from anywhere else, or from a listed state. *)
Definition may_transition (s_state new_state nold : Z) (ap : list Z) : bool :=
  if nold =? 0 then bool_decide (s_state ≠ new_state)
  else bool_decide (s_state ∈ take (Z.to_nat nold) ap).

(** [fio_transition_state] moves to the new state and returns 1 exactly
    when the guard holds, otherwise it changes nothing and returns 0;
    [*old_state] is the state before in both cases. *)
Theorem transition_state_effect s new_state nold ap :
  in_u 32 (state s) → 0 <= nold < 2 ^ 31 → nold <= Z.of_nat (length ap) →
  let go := may_transition (state s) new_state nold ap in
  ∃ r, fio_transition_state_va s new_state nold ap = Ok (r.1, (state s, go, r.2))
       ∧ fio_transition_state s new_state nold ap = Ok (r.1, (go, r.2))
       ∧ set_effect s (if go then new_state else state s) r.
Proof.
  intros Hs Hn Hl go. unfold fio_transition_state, fio_transition_state_va.
  assert ((if nold =? 0 then Ok (negb (state s =? new_state))
           else __fio_state_in_one_of (state s) nold ap) = Ok go) as ->.
  { unfold go, may_transition. destruct (nold =? 0).
    - f_equal. apply eq_bool_prop_intro. rewrite bool_decide_spec, negb_True, Z_eqb_True. done.
    - apply (in_one_of_exact (state s) nold ap); [done| |done].
      unfold in_u. change (2 ^ 31) with 2147483648 in Hn. change (2 ^ 32) with 4294967296. lia. }
  simpl. destruct go.
  - destruct (set_locked_effect s new_state) as ([s' w] & -> & He). by exists (s', w).
  - exists (s, []). simpl. by split_and!.
Qed.

(** *** Arcs *)

Definition arc_matches (s_state : Z) (arc : fio_state_arc) : bool :=
  Z.testbit (states_from_mask arc) s_state.

(** The first arc of the table, up to the terminator, that starts here. *)
Fixpoint first_arc (s_state : Z) (arcs : list fio_state_arc) : option fio_state_arc :=
  match arcs with
  | [] => None
  | arc :: arcs =>
      if decide (arc_num arc = STATE_ARC_NOTFOUND) then None
      else if arc_matches s_state arc then Some arc else first_arc s_state arcs
  end.

Lemma land_pow2 m n : 0 <= n → (Z.land (2 ^ n) m =? 0) = negb (Z.testbit m n).
Proof.
  intros Hn. destruct (Z.testbit m n) eqn:E; simpl.
  - apply Z.eqb_neq. intros Hz. apply (f_equal (λ z, Z.testbit z n)) in Hz.
    rewrite Z.land_spec, Z.pow2_bits_true, E, Z.testbit_0_l in Hz by done. done.
  - apply Z.eqb_eq, Z.bits_inj'. intros i Hi. rewrite Z.land_spec, Z.testbit_0_l.
    destruct (decide (i = n)) as [->|Hne]; [by rewrite E, andb_false_r|].
    by rewrite Z.pow2_bits_false.
Qed.

Lemma find_arc_first n arcs :
  0 <= n → Exists (λ a, arc_num a = STATE_ARC_NOTFOUND) arcs →
  find_arc (2 ^ n) arcs = Ok (first_arc n arcs).
Proof.
  intros Hn. induction arcs as [|a arcs IH]; intros He; [by inversion He|]. simpl.
  destruct (arc_num a =? STATE_ARC_NOTFOUND) eqn:E.
  - apply Z.eqb_eq in E. by rewrite decide_True.
  - apply Z.eqb_neq in E. rewrite decide_False by done.
    rewrite land_pow2, negb_involutive by done. unfold arc_matches.
    destruct (Z.testbit (states_from_mask a) n); [done|]. apply IH.
    by inversion He.
Qed.

(** The mask of a list of states, as the macros nest. *)
Fixpoint state_mask (a : Z) (l : list Z) : outcome Z :=
  match l with [] => STATE_M1 a | b :: l => state_or a (state_mask b l) end.

Definition is_state (a : Z) : Prop := 0 <= a < 32.

Lemma state_m1 a : is_state a → STATE_M1 a = Ok (2 ^ a).
Proof.
  unfold is_state, STATE_M1. intros Ha. destruct ((0 <=? a) && (a <? 32)) eqn:E; [|lia].
  rewrite Z.shiftl_1_l, wrapu_small; [done|]. unfold in_u. split; [lia|]. apply Z.pow_lt_mono_r; lia.
Qed.

(** The mask of states below 32 has the bits of just these states; a state from 32 on is
    a shift by more than the width. *)
Lemma state_mask_bits a l :
  Forall is_state (a :: l) → ∃ m, state_mask a l = Ok m ∧ ∀ s, is_state s → (Z.testbit m s = true ↔ s ∈ a :: l).
Proof.
  revert a. induction l as [|b l IH]; intros a [Ha Hl]%list.Forall_cons; simpl.
  - rewrite state_m1 by done. eexists. split; [done|]. intros s Hs. unfold is_state in *.
    rewrite Z.pow2_bits_eqb by lia. rewrite Z.eqb_eq, list_elem_of_singleton. naive_solver.
  - destruct (IH b Hl) as (m & Em & Hm). unfold state_or. rewrite state_m1, Em by done. simpl. eexists. split; [done|].
    intros s Hs. rewrite Z.lor_spec, orb_true_iff, Hm by done. unfold is_state in *.
    rewrite Z.pow2_bits_eqb by lia. rewrite Z.eqb_eq, (elem_of_cons _ s a). naive_solver.
Qed.

Lemma state_macros a b c d e f g h i :
  [STATE_M2 a b; STATE_M3 a b c; STATE_M4 a b c d; STATE_M5 a b c d e; STATE_M6 a b c d e f; STATE_M7 a b c d e f g;
   STATE_M8 a b c d e f g h; STATE_M9 a b c d e f g h i]
  = (λ n, state_mask a (take n [b; c; d; e; f; g; h; i])) <$> [1; 2; 3; 4; 5; 6; 7; 8]%nat.
Proof. done. Qed.

(** On a terminated arc table, [fio_state_transition] takes the first arc
    whose mask has the bit of the current state (below 32), moves to its
    target unless that is FIO_STATE_SAME, and returns its number; without
    such an arc it returns -1 and changes nothing.  A handler may replace the
    number returned but not the move. *)
Theorem state_transition_effect s arcs f :
  0 <= state s < 32 → Exists (λ a, arc_num a = STATE_ARC_NOTFOUND) arcs →
  ∃ r num, fio_state_transition s arcs f
           = Ok (r.1, (match f with Some f => f num | None => num end, r.2))
    ∧ match first_arc (state s) arcs with
      | Some a => num = arc_num a
                  ∧ set_effect s (if decide (state_to a = FIO_STATE_SAME) then state s
                                  else u32 (state_to a)) r
      | None => num = -1 ∧ r = (s, [])
      end.
Proof.
  intros Hs He. unfold fio_state_transition. rewrite state_m1 by done. simpl.
  rewrite find_arc_first by (done || lia). simpl.
  destruct (first_arc (state s) arcs) as [a|].
  - case_decide as Ea.
    + rewrite Ea. simpl. exists (s, []), (arc_num a). split_and!; try done.
    + rewrite (proj2 (Z.eqb_neq _ _) Ea). simpl.
      destruct (set_locked_effect s (u32 (state_to a))) as ([s' w] & -> & Hset).
      by exists (s', w), (arc_num a).
  - by exists (s, []), STATE_ARC_NOTFOUND.
Qed.
End operations.

Lemma set_state_effect_witness :
  ∃ r, fio_set_state (mk_state 1 [3; 4]%nat) 2 = (r.1, (1, r.2))
       ∧ set_effect (mk_state 1 [3; 4]%nat) 2 r.
Proof. apply (set_state_effect (mk_state 1 [3; 4]%nat) 2). done. Defined.

Lemma transition_state_effect_witness :
  ∃ r, fio_transition_state (mk_state 1 [3; 4]%nat) 7 2 [5; 1] = Ok (r.1, (true, r.2))
       ∧ set_effect (mk_state 1 [3; 4]%nat) 7 r.
Proof.
  destruct (transition_state_effect (mk_state 1 [3; 4]%nat) 7 2 [5; 1]) as (r & _ & E & He);
    [done|done|done|]. exists r. split; [exact E|exact He].
Defined.

Definition sample_arcs : list fio_state_arc :=
  [mk_arc 4 3 10; mk_arc 2 5 11; mk_arc STATE_MASK_ANY FIO_STATE_SAME 12; mk_arc 0 0 (-1)].

Lemma state_transition_effect_witness :
  ∃ r num, fio_state_transition (mk_state 1 [3; 4]%nat) sample_arcs None = Ok (r.1, (num, r.2))
           ∧ num = 11 ∧ set_effect (mk_state 1 [3; 4]%nat) 5 r.
Proof.
  destruct (state_transition_effect (mk_state 1 [3; 4]%nat) sample_arcs None) as (r & num & E & H).
  - done.
  - unfold sample_arcs. do 3 right. by left.
  - by exists r, num.
Defined.

(** ** Waiting threads *)

Section waiting.
Context {Q : Type} `{WaitQueueLaws Q}.

Definition scan (c : config Q) (w : wait_set) : outcome bool :=
  __fio_state_in_one_of (state (c_state c)) w.1 w.2.

Record wait_inv (c : config Q) : Prop := {
  wi_state : in_u 32 (state (c_state c));
  wi_nodup : NoDup (wq_waiters (cv (c_state c)));
  wi_sleep t : t ∈ wq_waiters (cv (c_state c)) ↔ ∃ w, c_threads c !! t = Some (Asleep w);
  wi_quiet t w : c_threads c !! t = Some (Asleep w) → scan c w = Ok false;
  wi_owner t w : c_threads c !! t = Some (Owner w) → c_owner c = Some t ∧ scan c w = Ok true;
  wi_owned t : c_owner c = Some t → ∃ w, c_threads c !! t = Some (Owner w)
}.

Lemma wait_inv_init n initial : in_u 32 initial → wait_inv (init_config n initial).
Proof.
  intros Hi. split; simpl; try done.
  - unfold fusion_condvar_init. rewrite wq_waiters_init. constructor.
  - intros t. unfold fusion_condvar_init. rewrite wq_waiters_init. split; [set_solver|].
    intros [w Ht]. by apply lookup_replicate in Ht as [? _].
  - intros t w Ht. by apply lookup_replicate in Ht as [? _].
  - intros t w Ht. by apply lookup_replicate in Ht as [? _].
Qed.

Lemma wake_lookup ths woken t :
  wake ths woken !! t
  = if decide (t ∈ woken) then wake_phase <$> ths !! t else ths !! t.
Proof.
  induction woken as [|u woken IH]; simpl; [done|].
  destruct (decide (t = u)) as [->|Hne].
  - rewrite list_lookup_alter_eq, IH, (decide_True (P:=u ∈ u :: woken)) by set_solver.
    case_decide; [|done]. by destruct (ths !! u) as [[]|].
  - rewrite list_lookup_alter_ne, IH by done. apply decide_ext. set_solver.
Qed.

(** An operation by a thread that finds the lock free. *)
Lemma locked_op_inv c v r :
  wait_inv c → c_owner c = None → in_u 32 v → set_effect (c_state c) v r →
  wait_inv (locked_op r c).
Proof.
  intros [Hs Hn Hw Hq Ho Ho'] Hfree Hv (Hst & Hsame & Hdiff).
  destruct (decide (v = state (c_state c))) as [E|E].
  { rewrite (Hsame E). split; simpl; done. }
  destruct (Hdiff E) as [Hp He]. destruct r as [s' woken]; simpl in *.
  assert (∀ t w, wake (c_threads c) woken !! t ≠ Some (Asleep w)) as Hnone.
  { intros t w. rewrite wake_lookup. case_decide as Hin.
    - by destruct (c_threads c !! t) as [[]|].
    - rewrite Hp, Hw in Hin. intros Ht. apply Hin. eauto. }
  assert (∀ t w, wake (c_threads c) woken !! t ≠ Some (Owner w)) as Hown.
  { intros t w. rewrite wake_lookup. intros Ht.
    assert (c_threads c !! t = Some (Owner w)) as Ht'.
    { case_decide; [|done]. by destruct (c_threads c !! t) as [[]|]; simplify_eq/=. }
    apply Ho in Ht' as [? _]. congruence. }
  split; simpl.
  - by rewrite Hst.
  - rewrite He. constructor.
  - intros t. rewrite He. split; [set_solver|]. intros [w Ht]. by apply Hnone in Ht.
  - intros t w Ht. by apply Hnone in Ht.
  - intros t w Ht. by apply Hown in Ht.
  - congruence.
Qed.

Lemma wait_poll_inv c t w c' p :
  wait_inv c → c_owner c = None → c_threads c !! t = Some p →
  (∀ w, p ≠ Asleep w) → wait_poll t w c = Some c' → wait_inv c'.
Proof.
  intros [Hs Hn Hw Hq Ho Ho'] Hfree Ht Hp E. unfold wait_poll in E.
  assert (t ∉ wq_waiters (cv (c_state c))) as Hni.
  { rewrite Hw. intros [w' Hw']. rewrite Ht in Hw'. simplify_eq. by eapply Hp. }
  pose proof (lookup_lt_Some _ _ _ Ht) as Hlt.
  destruct (__fio_state_in_one_of _ _ _) as [[]|] eqn:Es; simplify_eq/=.
  - split; simpl; try done.
    + intros u. rewrite Hw. destruct (decide (u = t)) as [->|Hne].
      * rewrite list_lookup_insert_eq by done. split; intros [w' ?]; [|done].
        simplify_eq. by edestruct Hp.
      * by rewrite list_lookup_insert_ne.
    + intros u w' Hu. apply list_lookup_insert_Some in Hu as [(_ & ? & _)|[_ Hu]]; [done|eauto].
    + intros u w' Hu. apply list_lookup_insert_Some in Hu as [(<- & ? & _)|[_ Hu]].
      * by simplify_eq.
      * apply Ho in Hu as [? _]. congruence.
    + intros u [= <-]. exists w. by apply list_lookup_insert_eq.
  - pose proof (wq_waiters_prepare t _ Hni) as Hpp.
    split; simpl; unfold fusion_condvar_wait_begin; try done.
    + rewrite Hpp. by apply list.NoDup_cons.
    + intros u. rewrite Hpp, elem_of_cons, Hw. destruct (decide (u = t)) as [->|Hne].
      * rewrite list_lookup_insert_eq by done. naive_solver.
      * rewrite list_lookup_insert_ne by done. naive_solver.
    + intros u w' Hu. apply list_lookup_insert_Some in Hu as [(<- & ? & _)|[_ Hu]];
        [by simplify_eq|by apply Hq in Hu].
    + intros u w' Hu. apply list_lookup_insert_Some in Hu as [(_ & ? & _)|[_ Hu]];
        [done|by apply Ho in Hu].
    + congruence.
Qed.

Lemma wait_finish_inv c t p :
  wait_inv c → c_threads c !! t = Some p → (∀ w, p ≠ Asleep w) → wait_inv (wait_finish t c).
Proof.
  intros [Hs Hn Hw Hq Ho Ho'] Ht Hp. split; simpl; try done.
  - unfold fusion_condvar_wait_end. rewrite wq_finish_spec. by apply list.NoDup_filter.
  - intros u. rewrite wait_end_elem, <- Hw. split; [by intros [_ ?]|]. intros Hu.
    split; [|done]. intros ->. apply Hw in Hu as [w Hu]. simplify_eq. by eapply Hp.
Qed.

(** Setting the state, whether it changes or not. *)
Lemma set_locked_inv c v :
  wait_inv c → c_owner c = None → in_u 32 v →
  ∃ r, __fio_set_state_locked (c_state c) v = (r.1, (state (c_state c), r.2)) ∧ wait_inv (locked_op r c).
Proof.
  intros Hi Hfree Hv. destruct (set_locked_effect (c_state c) v) as (r & Er & He).
  exists r. split; [done|]. by eapply locked_op_inv.
Qed.

Lemma spurious_inv c t w :
  wait_inv c → c_threads c !! t = Some (Asleep w) →
  wait_inv (mk_config (c_state (wait_finish t c)) (c_owner c) (<[t := Awake w]> (c_threads c))).
Proof.
  intros [Hs Hn Hw Hq Ho Ho'] Ht. pose proof (lookup_lt_Some _ _ _ Ht) as Hlt. split; simpl; try done.
  - unfold fusion_condvar_wait_end. rewrite wq_finish_spec. by apply list.NoDup_filter.
  - intros u. rewrite wait_end_elem, Hw. destruct (decide (u = t)) as [->|Hne].
    + rewrite list_lookup_insert_eq by done. naive_solver.
    + rewrite list_lookup_insert_ne by done. naive_solver.
  - intros u w' Hu. apply list_lookup_insert_Some in Hu as [(_ & ? & _)|[_ Hu]]; [done|eauto].
  - intros u w' Hu. apply list_lookup_insert_Some in Hu as [(_ & ? & _)|[_ Hu]]; [done|by apply Ho in Hu].
  - intros u Hu. apply Ho' in Hu as [w' Hu]. exists w'.
    rewrite list_lookup_insert_ne; [done|]. intros ->. congruence.
Qed.

Lemma unlock_inv c t w :
  wait_inv c → c_threads c !! t = Some (Owner w) → wait_inv (mk_config (c_state c) None (<[t := Running]> (c_threads c))).
Proof.
  intros [Hs Hn Hw Hq Ho Ho'] Ht. pose proof (lookup_lt_Some _ _ _ Ht) as Hlt. split; simpl; try done.
  - intros u. rewrite Hw. destruct (decide (u = t)) as [->|Hne].
    + rewrite list_lookup_insert_eq by done. rewrite Ht. naive_solver.
    + by rewrite list_lookup_insert_ne.
  - intros u w' Hu. apply list_lookup_insert_Some in Hu as [(_ & ? & _)|[_ Hu]]; [done|eauto].
  - intros u w' Hu. apply list_lookup_insert_Some in Hu as [(_ & ? & _)|[Hne Hu]]; [done|].
    apply Ho in Hu as [Hu _]. apply Ho in Ht as [Ht _]. congruence.
Qed.

Lemma exec_wait_inv c l c' : wait_inv c → exec c l = Some c' → wait_inv c'.
Proof.
  intros Hi E. pose proof Hi as [Hs _ _ _ _ _].
  assert (∀ z, in_u 32 (u32 z)) as Hu32 by (intros; by apply wrapu_range).
  destruct (step_effects (c_state c)) as [Hup Hdown].
  destruct l as [t v|t|t|t v nold ap|t arcs f|t w|t|t|t]; simpl in E;
    try (unfold when_free in E; case_decide as Hf; [destruct Hf as [Hfree Ht]|done]).
  - destruct (set_locked_inv c (u32 v)) as (r & Er & Hr); [done..|].
    unfold fio_set_state, drop_value in E. rewrite Er in E. by simplify_eq/=.
  - simplify_eq. by eapply locked_op_inv; [done|done| |exact Hup].
  - simplify_eq. by eapply locked_op_inv; [done|done| |exact Hdown].
  - unfold fio_transition_state, fio_transition_state_va in E.
    destruct (if nold =? 0 then _ else _) as [[]|]; simpl in E; [| |done].
    + destruct (set_locked_inv c (u32 v)) as (r & Er & Hr); [done..|]. rewrite Er in E. by simplify_eq/=.
    + simplify_eq/=. by eapply (locked_op_inv c (state (c_state c))).
  - unfold fio_state_transition in E.
    destruct (STATE_M1 _) as [m|]; [simpl in E|done].
    destruct (find_arc m arcs) as [[a|]|]; simpl in E; [destruct (negb (state_to a =? FIO_STATE_SAME))| |done].
    + destruct (set_locked_inv c (u32 (state_to a))) as (r & Er & Hr); [done..|]. rewrite Er in E. by simplify_eq/=.
    + simplify_eq/=. by eapply (locked_op_inv c (state (c_state c))).
    + simplify_eq/=. by eapply (locked_op_inv c (state (c_state c))).
  - by eapply wait_poll_inv.
  - destruct (c_owner c) eqn:Hf; [done|].
    destruct (c_threads c !! t) as [[| |w|]|] eqn:Ht; try done.
    eapply (wait_poll_inv (wait_finish t c)); [by eapply wait_finish_inv|done|done|done|done].
  - destruct (c_threads c !! t) as [[|w| |]|] eqn:Ht; simplify_eq. by apply spurious_inv.
  - destruct (c_threads c !! t) as [[| | |w]|] eqn:Ht; simplify_eq. by eapply unlock_inv.
Qed.

Lemma reachable_wait_inv n initial c :
  in_u 32 initial → reachable n initial c → wait_inv c.
Proof.
  intros Hi. induction 1; [by apply wait_inv_init|by eapply exec_wait_inv].
Qed.
End waiting.

(** C18: No wake-up is lost: a thread asleep in [fio_wait_on_states] waits for
    states the variable is not in, in every reachable configuration; so a
    thread whose awaited state has come is awake. *)
Theorem sleepers_wait_for_other_states {Q} `{WaitQueueLaws Q} n initial (c : config Q) t num ap :
  in_u 32 initial → reachable n initial c →
  c_threads c !! t = Some (Asleep (num, ap)) →
  state (c_state c) ∉ take (Z.to_nat (u32 num)) ap.
Proof.
  intros Hi Hr Ht. apply reachable_wait_inv in Hr; [|done].
  pose proof (wi_quiet _ Hr t _ Ht) as Hq. unfold scan, __fio_state_in_one_of in Hq. simpl in Hq.
  apply in_one_of_loop_false in Hq as [_ Hq]. rewrite u32_s32 in Hq; [done|apply Hr].
Qed.

Lemma sleepers_wait_for_other_states_witness :
  ∃ c : config (list nat), run (init_config 2 0) [LWait 0 (2, [5; 6]); LSet 1 4; LResume 0] = Some c
    ∧ 4 ∉ take 2 [5; 6].
Proof.
  evar (c : config (list nat)). exists c.
  assert (run (init_config 2 0) [LWait 0 (2, [5; 6]); LSet 1 4; LResume 0] = Some c) as Hc
    by (vm_compute; unfold c; reflexivity).
  split; [exact Hc|].
  apply (sleepers_wait_for_other_states 2 0 c 0 2 [5; 6]); [done| |done].
  eapply (state_reachable_run 2 0 _ _ c (reachable_init 2 0)). exact Hc.
Defined.

(** A thread returns from [fio_wait_on_states] in one of the awaited states
    and with the lock: until it unlocks, every step of the others leaves the
    state as it is. *)
Theorem waiter_returns_in_its_state {Q} `{WaitQueueLaws Q} n initial (c c' : config Q) l t num ap :
  in_u 32 initial → reachable n initial c →
  c_threads c !! t = Some (Owner (num, ap)) →
  exec c l = Some c' → l ≠ LUnlock t →
  state (c_state c) ∈ take (Z.to_nat (u32 num)) ap
  ∧ c_owner c' = Some t ∧ state (c_state c') = state (c_state c)
  ∧ c_threads c' !! t = Some (Owner (num, ap)).
Proof.
  intros Hi Hr Ht E Hne. apply reachable_wait_inv in Hr; [|done].
  pose proof (wi_owner _ Hr t _ Ht) as [Ho Hq].
  split.
  { unfold scan, __fio_state_in_one_of in Hq. simpl in Hq.
    apply in_one_of_loop_true in Hq. rewrite u32_s32 in Hq; [done|apply Hr]. }
  destruct l as [u v|u|u|u v nold ap'|u arcs f|u w|u|u|u]; simpl in E;
    try (unfold when_free in E; case_decide as Hf; [destruct Hf; congruence|done]).
  - by rewrite Ho in E.
  - destruct (c_threads c !! u) as [[|w| |]|] eqn:Hu; simplify_eq/=.
    split_and!; try done. rewrite list_lookup_insert_ne; [done|]. intros ->. congruence.
  - destruct (c_threads c !! u) as [[| | |w]|] eqn:Hu; simplify_eq/=.
    apply (wi_owner _ Hr) in Hu as [Hu _]. congruence.
Qed.

Definition owner_run : list label :=
  [LWait 0 (2, [5; 6]); LSet 2 6; LWait 1 (1, [9]); LResume 0].

Lemma waiter_returns_in_its_state_witness :
  ∃ c c' : config (list nat),
    run (init_config 3 0) owner_run = Some c ∧ exec c (LSpurious 1) = Some c'
    ∧ c_owner c' = Some 0%nat ∧ state (c_state c') = state (c_state c).
Proof.
  evar (c : config (list nat)). evar (c' : config (list nat)). exists c, c'.
  assert (run (init_config 3 0) owner_run = Some c) as Hc by (vm_compute; unfold c; reflexivity).
  assert (exec c (LSpurious 1) = Some c') as Hc' by (vm_compute; unfold c'; reflexivity).
  split; [exact Hc|]. split; [exact Hc'|].
  destruct (waiter_returns_in_its_state 3 0 c c' (LSpurious 1) 0 2 [5; 6]) as (_ & E1 & E2 & _).
  - done.
  - eapply (state_reachable_run 3 0 _ owner_run c (reachable_init 3 0)). exact Hc.
  - reflexivity.
  - exact Hc'.
  - done.
  - split; [exact E1|exact E2].
Defined.
