(* ===== verification/DList.v ===== *)
(** * Intrusive doubly linked lists: include/fio/port/list.h

    A list entry is a memory cell with two pointers; a list is the entry used
    as its head.  The operations run on an explicit heap, pointer write by
    pointer write, so that aliasing (an empty list, a one-element list, source
    and destination that touch) is that of the code.  [is_list] relates the
    heap to the sequence of entries; [list_refinement] states what all
    operations do to the sequences, for any number of lists in one heap. *)
From S2P Require Import Prelude.

(** ** Heap *)

Definition loc := positive.
Definition ptr := option loc.      (* [None] is NULL *)

Record entry := mk_entry { e_next : ptr; e_prev : ptr }.
Abbreviation heap := (gmap loc entry).

#[global] Instance entry_eq_dec : EqDecision entry.
Proof. solve_decision. Defined.

(** A computation that reads and writes list cells, and faults on a NULL or
    wild pointer. *)
Abbreviation HM := (stateful heap).

Definition cell (p : ptr) : HM (loc * entry) := λ h,
  match p with
  | None => Fault NullDeref
  | Some a => match h !! a with None => Fault OutOfBounds | Some c => Ok ((a, c), h) end
  end.

(** [p->next], [p->prev] *)
Definition next (p : ptr) : HM ptr := '(_, c) ← cell p; mret (e_next c).
Definition prev (p : ptr) : HM ptr := '(_, c) ← cell p; mret (e_prev c).

Definition store (a : loc) (c : entry) : HM unit := λ h, Ok (tt, <[a := c]> h).

(** [p->next = v], [p->prev = v] *)
Definition set_next (p v : ptr) : HM unit := '(a, c) ← cell p; store a (mk_entry v (e_prev c)).
Definition set_prev (p v : ptr) : HM unit := '(a, c) ← cell p; store a (mk_entry (e_next c) v).

Definition is_null (p : ptr) : bool := bool_decide (p = None).
Definition ptr_eqb (p q : ptr) : bool := bool_decide (p = q).

(** ** Operations *)

Definition fusion_init_list (e : ptr) : HM unit := set_next e e;; set_prev e e.
Definition fusion_init_list_entry (e : ptr) : HM unit := set_next e e;; set_prev e e.

Definition fusion_list_add (e p n : ptr) : HM unit :=
  set_prev n e;; set_next e n;; set_prev e p;; set_next p e.

Definition fusion_list_add_head (e l : ptr) : HM unit :=
  n ← next l; fusion_list_add e l n.

Definition fusion_list_add_tail (e l : ptr) : HM unit :=
  p ← prev l; fusion_list_add e p l.

Definition __fusion_list_del (e : ptr) : HM unit :=
  n ← next e; p ← prev e;
  if is_null n || is_null p then mret tt
  else
    set_prev n p;;
    (n ← next e; p ← prev e; set_next p n).

Definition fusion_list_del (e : ptr) : HM unit := __fusion_list_del e;; fusion_init_list e.

Definition fusion_list_move_head (e l : ptr) : HM unit :=
  __fusion_list_del e;; fusion_list_add_head e l.

Definition fusion_list_move_tail (e l : ptr) : HM unit :=
  __fusion_list_del e;; fusion_list_add_tail e l.

Definition fusion_list_empty (e : ptr) : HM bool := n ← next e; mret (ptr_eqb n e).

Definition fusion_list_add_list (src dst : ptr) : HM unit :=
  n ← next src;
  if ptr_eqb n src then mret tt
  else
    new_head ← next src;
    old_head ← next dst;
    p ← prev src;
    set_prev old_head p;;
    (p ← prev src; set_next p old_head);;
    set_prev new_head dst;;
    set_next dst new_head;;
    set_prev src src;;
    set_next src src.

Definition fusion_list_pop_head (l : ptr) : HM ptr :=
  b ← fusion_list_empty l;
  if b : bool then mret None
  else retval ← next l; fusion_list_del retval;; mret retval.

Definition fusion_list_is_head (e l : ptr) : HM bool := n ← next l; mret (ptr_eqb n e).
Definition fusion_list_is_tail (e l : ptr) : HM bool := p ← prev l; mret (ptr_eqb p e).

Definition __fusion_list_splice (l prv nxt : ptr) : HM unit :=
  first ← next l;
  last ← prev l;
  set_prev first prv;;
  set_next prv first;;
  set_next last nxt;;
  set_prev nxt last.

Definition fusion_list_splice (l head : ptr) : HM unit :=
  b ← fusion_list_empty l;
  if b : bool then mret tt
  else n ← next head; __fusion_list_splice l head n;; fusion_init_list l.

Definition fusion_list_splice_tail (l head : ptr) : HM unit :=
  b ← fusion_list_empty l;
  if b : bool then mret tt
  else p ← prev head; __fusion_list_splice l p head;; fusion_init_list l.

(** [fusion_list_get_head], [fusion_list_get_tail], up to [container_of]. *)
Definition fusion_list_get_head (l : ptr) : HM ptr :=
  b ← fusion_list_empty l; if b : bool then mret None else next l.
Definition fusion_list_get_tail (l : ptr) : HM ptr :=
  b ← fusion_list_empty l; if b : bool then mret None else prev l.

(** [fusion_list_for_each] and [fusion_list_for_each_entry]: runs [body] on
    each entry; [fuel] bounds the number of entries. *)
Fixpoint for_each_loop (fuel : nat) (entry l : ptr) (body : ptr → HM unit) : HM unit :=
  match fuel with
  | O => λ _, Fault NoFuel
  | S fuel =>
      if ptr_eqb entry l then mret tt
      else body entry;; (n ← next entry; for_each_loop fuel n l body)
  end.

Definition fusion_list_for_each (fuel : nat) (l : ptr) (body : ptr → HM unit) : HM unit :=
  n ← next l; for_each_loop fuel n l body.

(** [fusion_list_for_each_safe] and its [_entry] form: the next entry is read
    before the body runs, so the body may unlink the entry. *)
Fixpoint for_each_safe_loop (fuel : nat) (entry next_entry l : ptr) (body : ptr → HM unit) : HM unit :=
  match fuel with
  | O => λ _, Fault NoFuel
  | S fuel =>
      if ptr_eqb entry l then mret tt
      else body entry;; (n ← next next_entry; for_each_safe_loop fuel next_entry n l body)
  end.

Definition fusion_list_for_each_safe (fuel : nat) (l : ptr) (body : ptr → HM unit) : HM unit :=
  e ← next l; n ← next e; for_each_safe_loop fuel e n l body.

(** ** The sequence a list stands for *)

Definition nxt (h : heap) (a : loc) : ptr := h !! a ≫= e_next.
Definition prv (h : heap) (a : loc) : ptr := h !! a ≫= e_prev.

(** [a] is followed by [b], in both directions. *)
Definition linked (h : heap) (a b : loc) : Prop := nxt h a = Some b ∧ prv h b = Some a.

(** From [a] through [xs] to [z]. *)
Fixpoint links (h : heap) (a : loc) (xs : list loc) (z : loc) : Prop :=
  match xs with
  | [] => linked h a z
  | x :: xs => linked h a x ∧ links h x xs z
  end.

(** The list headed by [l] holds the entries [xs], in order. *)
Definition is_list (h : heap) (l : loc) (xs : list loc) : Prop :=
  NoDup (l :: xs) ∧ links h l xs l.

(** The heap after writing one pointer. *)
Definition upd_next (h : heap) (a : loc) (v : ptr) : heap := alter (λ c, mk_entry v (e_prev c)) a h.
Definition upd_prev (h : heap) (a : loc) (v : ptr) : heap := alter (λ c, mk_entry (e_next c) v) a h.

Section pointers.
Implicit Types (h : heap) (a b l : loc) (xs ys : list loc) (v : ptr).

Lemma nxt_some h a b : nxt h a = Some b → is_Some (h !! a).
Proof. unfold nxt. destruct (h !! a); simpl; [eauto|done]. Qed.
Lemma prv_some h a b : prv h a = Some b → is_Some (h !! a).
Proof. unfold prv. destruct (h !! a); simpl; [eauto|done]. Qed.

Lemma nxt_upd_next h a v b :
  is_Some (h !! a) → nxt (upd_next h a v) b = if decide (b = a) then v else nxt h b.
Proof.
  intros [c Hc]. unfold nxt, upd_next. case_decide as Hd.
  - subst. by rewrite lookup_alter_eq, Hc.
  - by rewrite lookup_alter_ne by congruence.
Qed.
Lemma prv_upd_prev h a v b :
  is_Some (h !! a) → prv (upd_prev h a v) b = if decide (b = a) then v else prv h b.
Proof.
  intros [c Hc]. unfold prv, upd_prev. case_decide as Hd.
  - subst. by rewrite lookup_alter_eq, Hc.
  - by rewrite lookup_alter_ne by congruence.
Qed.
Lemma nxt_upd_prev h a v b : nxt (upd_prev h a v) b = nxt h b.
Proof.
  unfold nxt, upd_prev. destruct (decide (a = b)) as [->|Hne]; [|by rewrite lookup_alter_ne].
  rewrite lookup_alter_eq. by destruct (h !! b).
Qed.
Lemma prv_upd_next h a v b : prv (upd_next h a v) b = prv h b.
Proof.
  unfold prv, upd_next. destruct (decide (a = b)) as [->|Hne]; [|by rewrite lookup_alter_ne].
  rewrite lookup_alter_eq. by destruct (h !! b).
Qed.
Lemma dom_upd_next h a v b : is_Some (upd_next h a v !! b) ↔ is_Some (h !! b).
Proof. apply lookup_alter_is_Some. Qed.
Lemma dom_upd_prev h a v b : is_Some (upd_prev h a v !! b) ↔ is_Some (h !! b).
Proof. apply lookup_alter_is_Some. Qed.

Lemma next_run h a : is_Some (h !! a) → next (Some a) h = Ok (nxt h a, h).
Proof. intros [c Hc]. unfold next, nxt, mbind, stateful_bind, cell. by rewrite Hc. Qed.
Lemma prev_run h a : is_Some (h !! a) → prev (Some a) h = Ok (prv h a, h).
Proof. intros [c Hc]. unfold prev, prv, mbind, stateful_bind, cell. by rewrite Hc. Qed.
Lemma set_next_run h a v : is_Some (h !! a) → set_next (Some a) v h = Ok (tt, upd_next h a v).
Proof.
  intros [c Hc]. unfold set_next, mbind, stateful_bind, cell, store. rewrite Hc.
  do 2 f_equal. apply map_eq. intros b. unfold upd_next.
  destruct (decide (a = b)) as [->|]; [by rewrite lookup_insert_eq, lookup_alter_eq, Hc|].
  by rewrite lookup_insert_ne, lookup_alter_ne.
Qed.
Lemma set_prev_run h a v : is_Some (h !! a) → set_prev (Some a) v h = Ok (tt, upd_prev h a v).
Proof.
  intros [c Hc]. unfold set_prev, mbind, stateful_bind, cell, store. rewrite Hc.
  do 2 f_equal. apply map_eq. intros b. unfold upd_prev.
  destruct (decide (a = b)) as [->|]; [by rewrite lookup_insert_eq, lookup_alter_eq, Hc|].
  by rewrite lookup_insert_ne, lookup_alter_ne.
Qed.
End pointers.

Create HintDb heap.
#[export] Hint Resolve nxt_some prv_some : heap.
#[export] Hint Extern 1 (is_Some (upd_next _ _ _ !! _)) => apply dom_upd_next : heap.
#[export] Hint Extern 1 (is_Some (upd_prev _ _ _ !! _)) => apply dom_upd_prev : heap.

(** Runs the pointer accesses of a computation one after the other. *)
Ltac hrun1 :=
  first
    [ erewrite stateful_bind_ok; [|apply next_run; by eauto 8 with heap]
    | erewrite stateful_bind_ok; [|apply prev_run; by eauto 8 with heap]
    | erewrite stateful_bind_ok; [|apply set_next_run; by eauto 8 with heap]
    | erewrite stateful_bind_ok; [|apply set_prev_run; by eauto 8 with heap] ].

(** Reads a pointer of an updated heap. *)
Ltac hread :=
  repeat first [rewrite nxt_upd_prev | rewrite prv_upd_next
               | rewrite nxt_upd_next by eauto 8 with heap
               | rewrite prv_upd_prev by eauto 8 with heap].

(** *** Link sequences *)

Section links.
Implicit Types (h : heap) (a b l e z : loc) (xs ys : list loc).

Lemma links_ext h h' a xs z :
  (∀ x, x ∈ a :: xs → nxt h' x = nxt h x) → (∀ x, x ∈ xs ++ [z] → prv h' x = prv h x) →
  links h a xs z → links h' a xs z.
Proof.
  revert a. induction xs as [|x xs IH]; intros a Hn Hp; unfold linked in *; simpl; unfold linked.
  - rewrite Hn, Hp by set_solver. done.
  - rewrite Hn, Hp by set_solver. intros [? ?]. split; [done|].
    apply IH; [..|done]; intros; [apply Hn|apply Hp]; set_solver.
Qed.

Lemma links_app h a xs y ys z :
  links h a (xs ++ y :: ys) z ↔ links h a xs y ∧ links h y ys z.
Proof.
  revert a. induction xs as [|x xs IH]; intros a; simpl; [done|]. rewrite IH. tauto.
Qed.

Lemma links_next h a xs z : links h a xs z → nxt h a = Some (hd z xs).
Proof. destruct xs; simpl; unfold linked; tauto. Qed.

Lemma links_prev h a xs z : links h a xs z → prv h z = Some (default a (list.last xs)).
Proof.
  revert a. induction xs as [|x xs IH]; intros a; simpl; unfold linked; [tauto|].
  intros [_ Hl]. rewrite (IH x Hl). rewrite list.last_cons. by destruct (list.last xs).
Qed.

(** A list links both ways: every entry of it is a live cell. *)
Lemma links_live h a xs z x : links h a xs z → x ∈ a :: xs → is_Some (h !! x).
Proof.
  revert a. induction xs as [|y xs IH]; intros a; simpl; unfold linked.
  - intros [Hn _] Hx. apply list_elem_of_singleton in Hx as ->. by eapply nxt_some.
  - intros [[Hn _] Hl] Hx. apply elem_of_cons in Hx as [->|Hx]; [by eapply nxt_some|eauto].
Qed.

Lemma is_list_live h l xs x : is_list h l xs → x ∈ l :: xs → is_Some (h !! x).
Proof. intros [_ Hl]. by eapply links_live. Qed.

Lemma is_list_ext h h' l xs :
  (∀ x, x ∈ l :: xs → nxt h' x = nxt h x ∧ prv h' x = prv h x) →
  is_list h l xs → is_list h' l xs.
Proof.
  intros He [Hn Hl]. split; [done|].
  eapply links_ext; [| |exact Hl]; intros x Hx; apply He; set_solver.
Qed.

Lemma is_list_frame h h' l xs :
  (∀ x, x ∈ l :: xs → h' !! x = h !! x) → is_list h l xs → is_list h' l xs.
Proof.
  intros He. apply is_list_ext. intros x Hx. unfold nxt, prv. by rewrite He.
Qed.

Lemma is_list_nil h l : is_list h l [] ↔ nxt h l = Some l ∧ prv h l = Some l.
Proof.
  unfold is_list. simpl. unfold linked. split; [by intros [_ ?]|].
  intros ?. split; [apply NoDup_singleton|done].
Qed.
End links.

(** *** Cutting and joining sequences *)

(** The entry before the end, the entry after the start. *)
Abbreviation final a xs := (default a (list.last xs)).

Section cut.
Implicit Types (h : heap) (a b l e z : loc) (xs ys : list loc).

Lemma final_cons a x xs : final a (x :: xs) = final x xs.
Proof. rewrite list.last_cons. by destruct (list.last xs). Qed.

Lemma final_in a xs : final a xs ∈ a :: xs.
Proof.
  revert a. induction xs as [|x xs IH]; intros a; [by left|].
  rewrite final_cons. right. apply IH.
Qed.

Lemma hd_in z xs : hd z xs ∈ xs ++ [z].
Proof. destruct xs; simpl; set_solver. Qed.

Lemma links_split h a xs ys z :
  links h a (xs ++ ys) z ↔ links h a xs (hd z ys) ∧ links h (final a xs) ys z.
Proof.
  revert a. induction xs as [|x xs IH]; intros a; simpl.
  - split; [|by intros [_ ?]]. intros Hl. split; [|done].
    destruct ys; [done|]. by destruct Hl.
  - rewrite IH, (list.last_cons x xs). destruct (list.last xs); tauto.
Qed.

(** The same entries, with another end. *)
Lemma links_end h h' a xs z z' :
  NoDup (a :: xs) → links h a xs z →
  (∀ x, x ∈ a :: xs → x ≠ final a xs → nxt h' x = nxt h x) →
  (∀ x, x ∈ xs → prv h' x = prv h x) →
  nxt h' (final a xs) = Some z' → prv h' z' = Some (final a xs) →
  links h' a xs z'.
Proof.
  revert a. induction xs as [|x xs IH]; intros a Hnd; [done|].
  rewrite final_cons. intros [Hax Hl] Hn Hp Hz1 Hz2.
  apply list.NoDup_cons in Hnd as [Hni Hnd]. split.
  - unfold linked in *. rewrite Hn, Hp; [done| | |]; try set_solver.
    intros ->. apply Hni, final_in.
  - apply IH; try done; intros y Hy; [intros ?; apply Hn|apply Hp]; set_solver.
Qed.

(** The same entries, with another start. *)
Lemma links_start h h' a a' xs z :
  links h a xs z →
  (∀ x, x ∈ xs → nxt h' x = nxt h x) →
  (∀ x, x ∈ tail (xs ++ [z]) → prv h' x = prv h x) →
  nxt h' a' = Some (hd z xs) → prv h' (hd z xs) = Some a' →
  links h' a' xs z.
Proof.
  destruct xs as [|x xs]; simpl; [done|].
  intros [_ Hl] Hn Hp Ha1 Ha2. split; [done|]. by eapply links_ext.
Qed.
End cut.

(** *** What the primitive writes do *)

Section primitives.
Implicit Types (h : heap) (a b l e p n : loc) (xs ys : list loc).

(** [h'] differs from [h] in one forward pointer and one backward pointer
    besides those of [e]. *)
Lemma add_run h e p n :
  linked h p n → is_Some (h !! e) → e ≠ p → e ≠ n →
  ∃ h', fusion_list_add (Some e) (Some p) (Some n) h = Ok (tt, h')
    ∧ (∀ a, nxt h' a = if decide (a = e) then Some n else if decide (a = p) then Some e else nxt h a)
    ∧ (∀ a, prv h' a = if decide (a = e) then Some p else if decide (a = n) then Some e else prv h a)
    ∧ (∀ a, a ≠ e → a ≠ p → a ≠ n → h' !! a = h !! a).
Proof.
  intros [Hpn Hnp] He Hep Hen.
  exists (upd_next (upd_prev (upd_next (upd_prev h n (Some e)) e (Some n)) e (Some p)) p (Some e)).
  assert (is_Some (h !! p)) by eauto with heap.
  assert (is_Some (h !! n)) by eauto with heap.
  split_and!.
  - unfold fusion_list_add. do 3 hrun1. apply set_next_run. by eauto 8 with heap.
  - intros a. hread. repeat case_decide; congruence.
  - intros a. hread. repeat case_decide; congruence.
  - intros a Ha1 Ha2 Ha3. unfold upd_next, upd_prev. by rewrite !lookup_alter_ne.
Qed.

Lemma del_raw_run h e p n :
  prv h e = Some p → nxt h e = Some n → linked h p e → linked h e n →
  ∃ h', __fusion_list_del (Some e) h = Ok (tt, h')
    ∧ (e ≠ p → e ≠ n →
       (∀ a, nxt h' a = if decide (a = p) then Some n else nxt h a)
       ∧ (∀ a, prv h' a = if decide (a = n) then Some p else prv h a))
    ∧ (e = p → e = n → ∀ a, nxt h' a = nxt h a ∧ prv h' a = prv h a)
    ∧ (∀ a, a ≠ p → a ≠ n → h' !! a = h !! a).
Proof.
  intros Hp Hn [Hpe _] [_ Hne].
  exists (upd_next (upd_prev h n (Some p)) p (Some n)).
  assert (is_Some (h !! e)) by eauto with heap.
  assert (is_Some (h !! p)) by eauto with heap.
  assert (is_Some (h !! n)) by eauto with heap.
  split_and!.
  - unfold __fusion_list_del. do 2 hrun1. rewrite Hp, Hn. simpl.
    do 3 hrun1. hread. rewrite Hn.
    replace (if decide (e = n) then Some p else prv h e) with (Some p) by (by case_decide).
    apply set_next_run. by eauto with heap.
  - intros Hep Hen. split; intros a; hread; done.
  - intros -> -> a. hread. split; repeat case_decide; congruence.
  - intros a Ha1 Ha2. unfold upd_next, upd_prev. by rewrite !lookup_alter_ne.
Qed.

Lemma init_run h e :
  is_Some (h !! e) →
  ∃ h', fusion_init_list (Some e) h = Ok (tt, h')
    ∧ is_list h' e [] ∧ (∀ a, a ≠ e → h' !! a = h !! a).
Proof.
  intros He. exists (upd_prev (upd_next h e (Some e)) e (Some e)). split_and!.
  - unfold fusion_init_list. hrun1. apply set_prev_run. by eauto with heap.
  - apply is_list_nil. hread. by rewrite !decide_True.
  - intros a Ha. unfold upd_next, upd_prev. by rewrite !lookup_alter_ne.
Qed.
End primitives.

(** *** What the operations do to one list, or two *)

Section lists.
Implicit Types (h : heap) (a b l e p n s d : loc) (xs ys : list loc).

Lemma is_list_split h l xs ys :
  is_list h l (xs ++ ys) →
  NoDup (l :: xs) ∧ links h l xs (hd l ys) ∧ links h (final l xs) ys l.
Proof.
  intros [Hn Hl]. apply links_split in Hl as [? ?]. split; [|done].
  by rewrite app_comm_cons in Hn; apply list.NoDup_app in Hn as (? & _).
Qed.

(** Where the two neighbours of a cut are not. *)
Lemma cut_facts l xs ys :
  NoDup (l :: xs ++ ys) →
  (∀ x, x ∈ xs → x ≠ hd l ys) ∧ (∀ y, y ∈ ys → y ≠ final l xs)
  ∧ (∀ y, y ∈ tail (ys ++ [l]) → y ≠ hd l ys).
Proof.
  intros Hnd. rewrite app_comm_cons in Hnd.
  apply list.NoDup_app in Hnd as (Hx & Hdis & Hy). split_and!.
  - intros x Hin ->. destruct ys as [|y ys]; simpl in *.
    + by apply list.NoDup_cons in Hx as [? _].
    + apply (Hdis y); [by right|by left].
  - intros y Hin ->. apply (Hdis (final l xs)); [apply final_in|done].
  - intros y Hin ->. destruct ys as [|y ys]; simpl in *; [by apply elem_of_nil in Hin|].
    apply list.NoDup_cons in Hy as [Hny _].
    apply elem_of_app in Hin as [?|Hin]; [done|]. apply list_elem_of_singleton in Hin as ->.
    apply (Hdis l); by left.
Qed.

Lemma not_in_cut e l xs ys :
  e ∉ l :: xs ++ ys → (e ≠ final l xs) ∧ e ≠ hd l ys ∧ (e ∉ xs) ∧ (e ∉ ys) ∧ e ≠ l.
Proof.
  intros He. apply not_elem_of_cons in He as [Hl He]. apply not_elem_of_app in He as [Hx Hy].
  split_and!; try done.
  - intros ->. pose proof (final_in l xs) as Hf. apply elem_of_cons in Hf as [?|?]; done.
  - intros ->. by destruct ys; simpl in *; [|apply Hy; left].
Qed.

Lemma tail_in y ys l : y ∈ tail (ys ++ [l]) → y ∈ ys ∨ y = l.
Proof.
  intros Hy. assert (y ∈ ys ++ [l]) as Hin.
  { destruct (ys ++ [l]); simpl in *; [done|by right]. }
  apply elem_of_app in Hin as [?|Hin]; [by left|right]. by apply list_elem_of_singleton in Hin.
Qed.

(** Where [e] went in: between the entries of [xs] and those of [ys]. *)
Lemma insert_list h h' l xs ys e :
  is_list h l (xs ++ ys) → e ∉ l :: xs ++ ys →
  (∀ a, nxt h' a = if decide (a = e) then Some (hd l ys)
                   else if decide (a = final l xs) then Some e else nxt h a) →
  (∀ a, prv h' a = if decide (a = e) then Some (final l xs)
                   else if decide (a = hd l ys) then Some e else prv h a) →
  is_list h' l (xs ++ e :: ys).
Proof.
  intros Hl He Hn Hp. pose proof (is_list_split h l xs ys Hl) as (Hnd & H1 & H2).
  destruct (cut_facts l xs ys (proj1 Hl)) as (Hxh & Hyf & Hth).
  destruct (not_in_cut e l xs ys He) as (Hef & Heh & Hex & Hey & Hel).
  split.
  - rewrite app_comm_cons, <- Permutation_middle, list.NoDup_cons. split; [done|apply Hl].
  - apply links_split. split.
    + apply (links_end h h' l xs (hd l ys)); try done.
      * intros x Hx Hne. rewrite Hn, !decide_False; [done|done|].
        intros ->. by apply elem_of_cons in Hx as [?|?].
      * intros x Hx. rewrite Hp, !decide_False; [done|by apply Hxh|congruence].
      * simpl. rewrite Hn, decide_False, decide_True; done.
      * simpl. rewrite Hp, decide_True; done.
    + split.
      { split; [rewrite Hn, decide_False, decide_True; done|by rewrite Hp, decide_True]. }
      apply (links_start h h' (final l xs)); [done| | | |].
      * intros y Hy. rewrite Hn, !decide_False; [done|by apply Hyf|congruence].
      * intros y Hy. rewrite Hp, !decide_False; [done|by apply Hth|].
        intros ->. by apply tail_in in Hy as [?|?].
      * by rewrite Hn, decide_True.
      * by rewrite Hp, decide_False, decide_True.
Qed.

(** What is left when [e] goes. *)
Lemma remove_list h h' l xs ys e :
  is_list h l (xs ++ e :: ys) →
  (∀ a, a ≠ e → nxt h' a = if decide (a = final l xs) then Some (hd l ys) else nxt h a) →
  (∀ a, a ≠ e → prv h' a = if decide (a = hd l ys) then Some (final l xs) else prv h a) →
  is_list h' l (xs ++ ys).
Proof.
  intros Hl Hn Hp. pose proof (is_list_split h l xs (e :: ys) Hl) as (Hnd & H1 & H2).
  destruct H2 as [_ H2]. simpl in H1. destruct Hl as [Hl _].
  rewrite app_comm_cons, <- Permutation_middle in Hl.
  apply list.NoDup_cons in Hl as [He Hl].
  destruct (cut_facts l xs ys Hl) as (Hxh & Hyf & Hth).
  destruct (not_in_cut e l xs ys He) as (Hef & Heh & Hex & Hey & Hel).
  split; [done|]. apply links_split. split.
  - apply (links_end h h' l xs e); try done.
    + intros x Hx Hne. rewrite Hn, decide_False; [done|done|].
      intros ->. by apply elem_of_cons in Hx as [?|?].
    + intros x Hx. rewrite Hp, decide_False; [done|by apply Hxh|congruence].
    + rewrite Hn, decide_True; done.
    + rewrite Hp, decide_True; done.
  - apply (links_start h h' e); [done| | | |].
    + intros y Hy. rewrite Hn, decide_False; [done|by apply Hyf|congruence].
    + intros y Hy. rewrite Hp, decide_False; [done|by apply Hth|].
      intros ->. by apply tail_in in Hy as [?|?].
    + rewrite Hn, decide_True; done.
    + rewrite Hp, decide_True; done.
Qed.

(** [h'] is [h] outside the cells [F]. *)
Definition agree (F : list loc) (h h' : heap) : Prop := ∀ a, a ∉ F → h' !! a = h !! a.

Lemma insert_run h l xs ys e :
  is_list h l (xs ++ ys) → e ∉ l :: xs ++ ys → is_Some (h !! e) →
  ∃ h', fusion_list_add (Some e) (Some (final l xs)) (Some (hd l ys)) h = Ok (tt, h')
    ∧ is_list h' l (xs ++ e :: ys) ∧ agree (e :: l :: xs ++ ys) h h'.
Proof.
  intros Hl He Hlive. pose proof (is_list_split h l xs ys Hl) as (_ & H1 & H2).
  destruct (not_in_cut e l xs ys He) as (Hef & Heh & _).
  assert (linked h (final l xs) (hd l ys)) as Hlk.
  { split; [by eapply links_next|by eapply links_prev]. }
  destruct (add_run h e _ _ Hlk Hlive Hef Heh) as (h' & Hrun & Hn & Hp & Hag).
  exists h'. split; [done|]. split; [by eapply insert_list|].
  intros a Ha. apply not_elem_of_cons in Ha as [Hae Ha].
  destruct (not_in_cut a l xs ys Ha) as (? & ? & _). by apply Hag.
Qed.

Lemma add_head_run h l xs e :
  is_list h l xs → e ∉ l :: xs → is_Some (h !! e) →
  ∃ h', fusion_list_add_head (Some e) (Some l) h = Ok (tt, h')
    ∧ is_list h' l (e :: xs) ∧ agree (e :: l :: xs) h h'.
Proof.
  intros Hl He Hlive. destruct (insert_run h l [] xs e Hl He Hlive) as (h' & Hrun & ? & ?).
  exists h'. split; [|done]. unfold fusion_list_add_head.
  erewrite stateful_bind_ok; [|apply next_run; eapply is_list_live; [exact Hl|by left]].
  destruct Hl as [_ Hl]. by rewrite (links_next _ _ _ _ Hl).
Qed.

Lemma add_tail_run h l xs e :
  is_list h l xs → e ∉ l :: xs → is_Some (h !! e) →
  ∃ h', fusion_list_add_tail (Some e) (Some l) h = Ok (tt, h')
    ∧ is_list h' l (xs ++ [e]) ∧ agree (e :: l :: xs) h h'.
Proof.
  intros Hl He Hlive.
  destruct (insert_run h l xs [] e) as (h' & Hrun & ? & ?); [by rewrite app_nil_r..|done|].
  exists h'. rewrite app_nil_r in *. split; [|done]. unfold fusion_list_add_tail.
  erewrite stateful_bind_ok; [|apply prev_run; eapply is_list_live; [exact Hl|by left]].
  destruct Hl as [_ Hl]. by rewrite (links_prev _ _ _ _ Hl).
Qed.

Lemma is_list_around h l xs ys e :
  is_list h l (xs ++ e :: ys) →
  linked h (final l xs) e ∧ linked h e (hd l ys) ∧ e ≠ final l xs ∧ e ≠ hd l ys.
Proof.
  intros Hl. pose proof (is_list_split h l xs (e :: ys) Hl) as (_ & H1 & H2).
  destruct H2 as [H2 H3]. destruct Hl as [Hl _].
  rewrite app_comm_cons, <- Permutation_middle in Hl. apply list.NoDup_cons in Hl as [He _].
  destruct (not_in_cut e l xs ys He) as (Hef & Heh & _).
  split_and!; [done| |done|done]. destruct ys; simpl in *; [done|by destruct H3].
Qed.

Lemma del_raw_linked_run h l xs ys e :
  is_list h l (xs ++ e :: ys) →
  ∃ h', __fusion_list_del (Some e) h = Ok (tt, h')
    ∧ is_list h' l (xs ++ ys) ∧ is_Some (h' !! e) ∧ agree (l :: xs ++ ys) h h'.
Proof.
  intros Hl. pose proof (is_list_around h l xs ys e Hl) as (Hpe & Hen & Hep & Hne).
  destruct (del_raw_run h e _ _ (proj2 Hpe) (proj1 Hen) Hpe Hen) as (h' & Hrun & Hd & _ & Hag).
  destruct (Hd Hep Hne) as [Hn Hp]. exists h'. split; [done|].
  split; [by eapply remove_list; [done|intros; apply Hn|intros; apply Hp]|].
  split.
  - rewrite Hag by done. eapply is_list_live; [exact Hl|]. set_solver.
  - intros a Ha. destruct (not_in_cut a l xs ys Ha) as (? & ? & _). by apply Hag.
Qed.

Lemma del_raw_alone_run h e :
  is_list h e [] → ∃ h', __fusion_list_del (Some e) h = Ok (tt, h')
    ∧ is_list h' e [] ∧ agree [e] h h'.
Proof.
  intros Hl. pose proof (proj1 (is_list_nil h e) Hl) as [Hn Hp].
  destruct (del_raw_run h e e e) as (h' & Hrun & _ & Hd & Hag); [done..|].
  exists h'. split; [done|]. split.
  - apply is_list_nil. destruct (Hd eq_refl eq_refl e) as [-> ->]. done.
  - intros a Ha. apply Hag; set_solver.
Qed.
End lists.

(** *** Two lists *)

Section splice.
Implicit Types (h : heap) (a b l e p n s d : loc) (xs ys : list loc).

(** The entries that move and those of the list they go to are apart. *)
Lemma splice_apart s y ys d xs1 xs2 :
  (∀ a, a ∈ s :: y :: ys → a ∉ d :: xs1 ++ xs2) → s ∉ y :: ys →
  (∀ a, a ∈ y :: ys → (a ≠ s) ∧ (a ≠ d) ∧ (a ∉ xs1) ∧ (a ∉ xs2) ∧ (a ≠ final d xs1) ∧ a ≠ hd d xs2)
  ∧ (∀ x, x ∈ d :: xs1 ∨ x ∈ xs2 → x ≠ s ∧ x ≠ final y ys ∧ x ≠ y).
Proof.
  intros Hdis Hsn. pose proof (final_in y ys) as Hfin. split.
  - intros a Ha. destruct (not_in_cut a d xs1 xs2) as (? & ? & ? & ? & ?); [apply Hdis; by right|].
    split_and!; try done. by intros ->.
  - intros x Hx. assert (x ∈ d :: xs1 ++ xs2) as Hx' by (rewrite app_comm_cons; by apply elem_of_app).
    split_and!; intros ->; (eapply Hdis; [|exact Hx']); [by left|by right|]. right. by left.
Qed.

Lemma splice_nodup ys d xs1 xs2 :
  NoDup ys → NoDup (d :: xs1 ++ xs2) → (∀ a, a ∈ ys → a ∉ d :: xs1 ++ xs2) → NoDup (d :: xs1 ++ ys ++ xs2).
Proof.
  intros Hys Hd Hdis. assert (d :: xs1 ++ ys ++ xs2 ≡ₚ ys ++ (d :: xs1 ++ xs2)) as ->.
  { rewrite (assoc_L (++) xs1), (Permutation_app_comm xs1), <- (assoc_L (++)). apply Permutation_middle. }
  by apply list.NoDup_app.
Qed.

(** All of [s]'s entries [ys] went into [d], between [xs1] and [xs2]. *)
Lemma splice_list h h' s ys d xs1 xs2 :
  is_list h s ys → ys ≠ [] → is_list h d (xs1 ++ xs2) → (∀ a, a ∈ s :: ys → a ∉ d :: xs1 ++ xs2) →
  (∀ a, a ≠ s → nxt h' a = if decide (a = final s ys) then Some (hd d xs2)
                           else if decide (a = final d xs1) then Some (hd s ys) else nxt h a) →
  (∀ a, a ≠ s → prv h' a = if decide (a = hd d xs2) then Some (final s ys)
                           else if decide (a = hd s ys) then Some (final d xs1) else prv h a) →
  is_list h' d (xs1 ++ ys ++ xs2).
Proof.
  intros Hs Hne Hd Hdis Hn Hp.
  pose proof (is_list_split h d xs1 xs2 Hd) as (Hnd & H1 & H2).
  destruct (cut_facts d xs1 xs2 (proj1 Hd)) as (Hxh & Hyf & Hth).
  destruct ys as [|y ys]; [done|]. simpl (hd s (y :: ys)) in *. rewrite final_cons in *.
  destruct Hs as [Hns [Hsy Hs]]. apply list.NoDup_cons in Hns as [Hsn Hns].
  assert (s ∉ d :: xs1 ++ xs2) as Hsout by (apply Hdis; by left).
  destruct (not_in_cut s d xs1 xs2 Hsout) as (Hsf & Hsh & Hsx & Hsy' & Hsd).
  destruct (splice_apart s y ys d xs1 xs2 Hdis Hsn) as [Hout Hin].
  pose proof (final_in y ys) as Hfin.
  destruct (Hout _ Hfin) as (Hfs & Hfd & Hf1 & Hf2 & Hff & Hfh).
  destruct (Hout y) as (Hys & Hyd & Hy1 & Hy2 & Hyfd & Hyh); [by left|].
  split.
  - apply splice_nodup; [done|apply Hd|]. intros a Ha. apply Hdis. by right.
  - rewrite links_split. simpl hd. split.
    + apply (links_end h h' d xs1 (hd d xs2)); try done.
      * intros x Hx Hxf. destruct (Hin x) as (? & ? & ?); [by left|].
        by rewrite Hn, !decide_False.
      * intros x Hx. destruct (Hin x) as (? & ? & ?); [left; by right|].
        rewrite Hp, !decide_False; [done..|by apply Hxh|done].
      * by rewrite Hn, decide_False, decide_True.
      * by rewrite Hp, decide_False, decide_True.
    + apply links_split. rewrite final_cons. split.
      * split.
        { split; [by rewrite Hn, decide_False, decide_True|by rewrite Hp, decide_False, decide_True]. }
        apply (links_end h h' y ys s); try done.
        -- intros x Hx Hxf. destruct (Hout x Hx) as (? & _ & _ & _ & ? & _).
           by rewrite Hn, !decide_False.
        -- intros x Hx. destruct (Hout x) as (? & _ & _ & _ & _ & ?); [by right|].
           assert (x ≠ y) by (intros ->; by apply list.NoDup_cons in Hns as [? _]).
           by rewrite Hp, !decide_False.
        -- by rewrite Hn, decide_True.
        -- by rewrite Hp, decide_True.
      * apply (links_start h h' (final d xs1)); [done| | | |].
        -- intros x Hx. destruct (Hin x) as (? & ? & ?); [by right|].
           pose proof (Hyf x Hx). by rewrite Hn, !decide_False.
        -- intros x Hx. pose proof (Hth x Hx).
           destruct (Hin x) as (? & ? & ?).
           { apply tail_in in Hx as [?| ->]; [by right|left; by left]. }
           by rewrite Hp, !decide_False.
        -- by rewrite Hn, decide_True.
        -- by rewrite Hp, decide_True.
Qed.
End splice.

Section runs.
Implicit Types (h : heap) (a b l e p n s d : loc) (xs ys : list loc).

Lemma agree_trans F F' h1 h2 h3 :
  agree F h1 h2 → agree F' h2 h3 → (∀ a, a ∈ F' → a ∈ F) → agree F h1 h3.
Proof. intros H1 H2 Hsub a Ha. rewrite H2 by auto. by apply H1. Qed.

Lemma agree_sub F F' h h' : agree F h h' → (∀ a, a ∈ F → a ∈ F') → agree F' h h'.
Proof. intros H1 Hsub a Ha. apply H1. auto. Qed.

Lemma agree_list F h h' l xs :
  agree F h h' → is_list h l xs → (∀ a, a ∈ l :: xs → a ∉ F) → is_list h' l xs.
Proof. intros Ha Hl Hd. eapply is_list_frame; [|exact Hl]. intros x Hx. auto. Qed.

Lemma agree_live F h h' a : agree F h h' → a ∉ F → is_Some (h !! a) → is_Some (h' !! a).
Proof. intros Hag Ha. by rewrite Hag. Qed.

Lemma empty_run h l xs :
  is_list h l xs → fusion_list_empty (Some l) h = Ok (bool_decide (xs = []), h).
Proof.
  intros Hl. unfold fusion_list_empty.
  erewrite stateful_bind_ok; [|apply next_run; eapply is_list_live; [exact Hl|by left]].
  destruct Hl as [Hn Hl]. rewrite (links_next _ _ _ _ Hl). unfold mret, stateful_ret, ptr_eqb.
  do 2 f_equal. apply bool_decide_ext. destruct xs as [|x xs]; simpl; [done|].
  split; [|done]. intros [= ->]. apply list.NoDup_cons in Hn as [Hn _]. set_solver.
Qed.

Lemma del_linked_run h l xs ys e :
  is_list h l (xs ++ e :: ys) →
  ∃ h', fusion_list_del (Some e) h = Ok (tt, h')
    ∧ is_list h' l (xs ++ ys) ∧ is_list h' e [] ∧ agree (l :: xs ++ e :: ys) h h'.
Proof.
  intros Hl. destruct (del_raw_linked_run h l xs ys e Hl) as (h1 & Hr1 & Hl1 & He1 & Ha1).
  destruct (init_run h1 e He1) as (h2 & Hr2 & Hl2 & Ha2).
  exists h2. unfold fusion_list_del. erewrite stateful_bind_ok; [|exact Hr1]. split; [done|].
  destruct Hl as [Hn _]. rewrite app_comm_cons, <- Permutation_middle in Hn.
  apply list.NoDup_cons in Hn as [He _].
  split; [|split; [done|]].
  - eapply is_list_frame; [|exact Hl1]. intros x Hx. apply Ha2. by intros ->.
  - intros a Ha. rewrite Ha2 by set_solver. apply Ha1. set_solver.
Qed.

Lemma del_alone_run h e :
  is_list h e [] →
  ∃ h', fusion_list_del (Some e) h = Ok (tt, h') ∧ is_list h' e [] ∧ agree [e] h h'.
Proof.
  intros Hl. destruct (del_raw_alone_run h e Hl) as (h1 & Hr1 & Hl1 & Ha1).
  destruct (init_run h1 e) as (h2 & Hr2 & Hl2 & Ha2).
  { eapply is_list_live; [exact Hl1|by left]. }
  exists h2. unfold fusion_list_del. erewrite stateful_bind_ok; [|exact Hr1]. split_and!; try done.
  intros a Ha. rewrite Ha2 by set_solver. by apply Ha1.
Qed.

Lemma pop_run h l xs e :
  is_list h l (e :: xs) →
  ∃ h', fusion_list_pop_head (Some l) h = Ok (Some e, h')
    ∧ is_list h' l xs ∧ is_list h' e [] ∧ agree (l :: e :: xs) h h'.
Proof.
  intros Hl. destruct (del_linked_run h l [] xs e Hl) as (h' & Hr & Hl1 & Hl2 & Ha).
  exists h'. split; [|done]. unfold fusion_list_pop_head.
  erewrite stateful_bind_ok; [|by apply (empty_run h l)]. simpl.
  erewrite stateful_bind_ok; [|apply next_run; eapply is_list_live; [exact Hl|by left]].
  destruct Hl as [_ Hl]. rewrite (links_next _ _ _ _ Hl). simpl.
  by erewrite stateful_bind_ok; [|exact Hr].
Qed.

Lemma pop_empty_run h l : is_list h l [] → fusion_list_pop_head (Some l) h = Ok (None, h).
Proof.
  intros Hl. unfold fusion_list_pop_head.
  by erewrite stateful_bind_ok; [|by apply (empty_run h l)].
Qed.

(** Cells of two lists in one heap. *)
Definition apart l xs d ys : Prop := ∀ a, a ∈ l :: xs → a ∉ d :: ys.

(** The writes of [__fusion_list_splice] and of [fusion_list_add_list]. *)
Definition spliced h p n first last : heap :=
  upd_prev (upd_next (upd_next (upd_prev h first (Some p)) p (Some first)) last (Some n))
    n (Some last).
Definition joined h p n first last : heap :=
  upd_next (upd_prev (upd_next (upd_prev h n (Some last)) last (Some n)) first (Some p))
    p (Some first).

Lemma splice_cells h s ys d xs1 xs2 :
  is_list h s ys → ys ≠ [] → is_list h d (xs1 ++ xs2) → apart s ys d (xs1 ++ xs2) →
  is_Some (h !! s) ∧ is_Some (h !! hd s ys) ∧ is_Some (h !! final s ys)
  ∧ is_Some (h !! final d xs1) ∧ is_Some (h !! hd d xs2)
  ∧ (final s ys ≠ final d xs1) ∧ hd d xs2 ≠ hd s ys
  ∧ nxt h s = Some (hd s ys) ∧ prv h s = Some (final s ys)
  ∧ hd s ys ≠ s ∧ (final s ys ≠ s) ∧ (final d xs1 ≠ s) ∧ hd d xs2 ≠ s
  ∧ prv h d = Some (final d (xs1 ++ xs2)) ∧ nxt h d = Some (hd d (xs1 ++ xs2)).
Proof.
  intros Hs Hne Hd Hap.
  assert (final d xs1 ∈ d :: xs1 ++ xs2) as Hf.
  { rewrite app_comm_cons. apply elem_of_app. left. apply final_in. }
  assert (hd d xs2 ∈ d :: xs1 ++ xs2) as Hh.
  { destruct xs2; simpl; [by left|]. right. apply elem_of_app. right. by left. }
  assert (hd s ys ∈ s :: ys) as Hh' by (destruct ys; simpl; [by left|right; by left]).
  pose proof (final_in s ys) as Hf'.
  assert (∀ x, x ∈ ys → x ≠ s) as Hys.
  { destruct Hs as [Hn _]. apply list.NoDup_cons in Hn as [Hn _]. by intros x Hx ->. }
  assert (s ∉ d :: xs1 ++ xs2) as Hsd by (apply Hap; by left).
  split_and!; try (eapply is_list_live; [exact Hs|done || by left]);
    try (eapply is_list_live; [exact Hd|done]).
  - intros E. apply (Hap (final s ys)); [done|by rewrite E].
  - intros E. apply (Hap (hd s ys)); [done|by rewrite <- E].
  - destruct Hs as [_ Hs]. by rewrite (links_next _ _ _ _ Hs).
  - destruct Hs as [_ Hs]. by rewrite (links_prev _ _ _ _ Hs).
  - destruct ys as [|y ys]; [done|]. simpl. apply Hys. by left.
  - destruct ys as [|y ys]; [done|]. rewrite final_cons. apply Hys. apply final_in.
  - intros E. apply Hsd. by rewrite <- E.
  - intros E. apply Hsd. by rewrite <- E.
  - destruct Hd as [_ Hd]. by rewrite (links_prev _ _ _ _ Hd).
  - destruct Hd as [_ Hd]. by rewrite (links_next _ _ _ _ Hd).
Qed.

Lemma spliced_list h s ys d xs1 xs2 h' :
  is_list h s ys → ys ≠ [] → is_list h d (xs1 ++ xs2) → apart s ys d (xs1 ++ xs2) →
  h' = spliced h (final d xs1) (hd d xs2) (hd s ys) (final s ys)
  ∨ h' = joined h (final d xs1) (hd d xs2) (hd s ys) (final s ys) →
  is_list h' d (xs1 ++ ys ++ xs2) ∧ is_Some (h' !! s) ∧ agree (ys ++ d :: xs1 ++ xs2) h h'.
Proof.
  intros Hs Hne Hd Hap Hh'.
  destruct (splice_cells h s ys d xs1 xs2 Hs Hne Hd Hap)
    as (L1 & L2 & L3 & L4 & L5 & N1 & N2 & _ & _ & N3 & N4 & N5 & N6 & _).
  assert (agree (ys ++ d :: xs1 ++ xs2) h h') as Hag.
  { intros a Ha. apply not_elem_of_app in Ha as [Hy Hx].
    destruct (not_in_cut a d xs1 xs2 Hx) as (A1 & A2 & _).
    assert (a ≠ hd s ys) as A3 by (intros ->; destruct ys; simpl in *; [done|apply Hy; by left]).
    assert (a ≠ final s ys) as A4.
    { intros ->. destruct ys; [done|]. rewrite final_cons in Hy. apply Hy, final_in. }
    destruct Hh' as [-> | ->]; unfold spliced, joined, upd_next, upd_prev;
      by rewrite !lookup_alter_ne. }
  split; [|split; [|done]].
  - eapply (splice_list h h' s ys d xs1 xs2); try done;
      intros a _; destruct Hh' as [-> | ->]; unfold spliced, joined; hread;
      repeat case_decide; congruence.
  - apply (agree_live _ _ _ _ Hag); [|done]. apply not_elem_of_app. split.
    + destruct Hs as [Hn _]. by apply list.NoDup_cons in Hn as [? _].
    + apply Hap. by left.
Qed.
End runs.

Section splice_runs.
Implicit Types (h : heap) (a b l e p n s d : loc) (xs ys : list loc).

(** After the entries have moved, the source is made empty. *)
Lemma finish_splice h1 h2 s ys d zs :
  is_list h1 d zs → s ∉ d :: zs → is_list h2 s [] → (∀ a, a ≠ s → h2 !! a = h1 !! a) →
  is_list h2 d zs ∧ is_list h2 s [].
Proof.
  intros Hd Hs Hl Hag. split; [|done].
  eapply is_list_frame; [|exact Hd]. intros x Hx. apply Hag. by intros ->.
Qed.

Lemma splice_raw_run h s ys d xs1 xs2 :
  is_list h s ys → ys ≠ [] → is_list h d (xs1 ++ xs2) → apart s ys d (xs1 ++ xs2) →
  ∃ h', (__fusion_list_splice (Some s) (Some (final d xs1)) (Some (hd d xs2));;
         fusion_init_list (Some s)) h = Ok (tt, h')
    ∧ is_list h' d (xs1 ++ ys ++ xs2) ∧ is_list h' s [] ∧ agree (s :: ys ++ d :: xs1 ++ xs2) h h'.
Proof.
  intros Hs Hne Hd Hap.
  destruct (splice_cells h s ys d xs1 xs2 Hs Hne Hd Hap)
    as (L1 & L2 & L3 & L4 & L5 & N1 & N2 & R1 & R2 & _).
  set (h1 := spliced h (final d xs1) (hd d xs2) (hd s ys) (final s ys)).
  destruct (spliced_list h s ys d xs1 xs2 h1 Hs Hne Hd Hap (or_introl eq_refl)) as (Hl1 & Hs1 & Ha1).
  destruct (init_run h1 s Hs1) as (h2 & Hr2 & Hl2 & Ha2). exists h2.
  assert (__fusion_list_splice (Some s) (Some (final d xs1)) (Some (hd d xs2)) h = Ok (tt, h1)) as Hr1.
  { unfold __fusion_list_splice, h1, spliced. do 2 hrun1. rewrite R1, R2. do 3 hrun1.
    apply set_prev_run. by eauto 8 with heap. }
  erewrite stateful_bind_ok; [|exact Hr1]. split; [done|].
  assert (s ∉ d :: xs1 ++ ys ++ xs2) as Hsn.
  { intros Hin. destruct (not_in_cut s d xs1 xs2) as (_ & _ & ? & ? & ?); [by apply Hap; left|].
    destruct Hs as [Hn _]. apply list.NoDup_cons in Hn as [? _].
    apply elem_of_cons in Hin as [?|Hin]; [done|].
    by apply elem_of_app in Hin as [?|[?|?]%elem_of_app]. }
  destruct (finish_splice h1 h2 s ys d _ Hl1 Hsn Hl2 Ha2) as [? ?]. split_and!; try done.
  intros a Ha. apply not_elem_of_cons in Ha as [? Ha]. rewrite Ha2 by done. by apply Ha1.
Qed.

(** A non-empty source is not equal to its own head pointer. *)
Lemma not_empty_run h s ys :
  is_list h s ys → ys ≠ [] → fusion_list_empty (Some s) h = Ok (false, h).
Proof. intros Hs Hne. rewrite (empty_run h s ys Hs). by rewrite bool_decide_false. Qed.

Lemma splice_run h s ys d xs :
  is_list h s ys → is_list h d xs → apart s ys d xs →
  ∃ h', fusion_list_splice (Some s) (Some d) h = Ok (tt, h')
    ∧ is_list h' d (ys ++ xs) ∧ is_list h' s [] ∧ agree (s :: ys ++ d :: xs) h h'.
Proof.
  intros Hs Hd Hap. unfold fusion_list_splice. destruct (decide (ys = [])) as [->|Hne].
  - exists h. erewrite stateful_bind_ok; [|by apply (empty_run h s [])]. by split_and!.
  - erewrite stateful_bind_ok; [|by apply (not_empty_run h s ys)].
    destruct (splice_cells h s ys d [] xs Hs Hne Hd Hap)
      as (_ & _ & _ & L4 & _ & _ & _ & _ & _ & _ & _ & _ & _ & _ & R3).
    destruct (splice_raw_run h s ys d [] xs Hs Hne Hd Hap) as (h' & Hr & ?).
    exists h'. split; [|done]. hrun1. rewrite R3. exact Hr.
Qed.

Lemma splice_tail_run h s ys d xs :
  is_list h s ys → is_list h d xs → apart s ys d xs →
  ∃ h', fusion_list_splice_tail (Some s) (Some d) h = Ok (tt, h')
    ∧ is_list h' d (xs ++ ys) ∧ is_list h' s [] ∧ agree (s :: ys ++ d :: xs) h h'.
Proof.
  intros Hs Hd Hap. unfold fusion_list_splice_tail. destruct (decide (ys = [])) as [->|Hne].
  - exists h. erewrite stateful_bind_ok; [|by apply (empty_run h s [])]. rewrite app_nil_r. by split_and!.
  - erewrite stateful_bind_ok; [|by apply (not_empty_run h s ys)].
    assert (is_list h d (xs ++ [])) as Hd' by (by rewrite app_nil_r).
    assert (apart s ys d (xs ++ [])) as Hap' by (by rewrite app_nil_r).
    destruct (splice_cells h s ys d xs [] Hs Hne Hd' Hap')
      as (_ & _ & _ & _ & L5 & _ & _ & _ & _ & _ & _ & _ & _ & R3 & _).
    destruct (splice_raw_run h s ys d xs [] Hs Hne Hd' Hap') as (h' & Hr & Hl & H2 & H3).
    rewrite !app_nil_r in *. exists h'. split; [|done]. simpl in L5. hrun1. rewrite R3. exact Hr.
Qed.

Lemma add_list_run h s ys d xs :
  is_list h s ys → is_list h d xs → apart s ys d xs →
  ∃ h', fusion_list_add_list (Some s) (Some d) h = Ok (tt, h')
    ∧ is_list h' d (ys ++ xs) ∧ is_list h' s [] ∧ agree (s :: ys ++ d :: xs) h h'.
Proof.
  intros Hs Hd Hap. unfold fusion_list_add_list.
  assert (is_Some (h !! s)) as L1 by (eapply is_list_live; [exact Hs|by left]).
  assert (nxt h s = Some (hd s ys)) as R1.
  { destruct Hs as [_ Hs]. by rewrite (links_next _ _ _ _ Hs). }
  hrun1. rewrite R1. destruct (decide (ys = [])) as [->|Hne].
  { exists h. unfold ptr_eqb. simpl. rewrite bool_decide_true by done. by split_and!. }
  destruct (splice_cells h s ys d [] xs Hs Hne Hd Hap)
    as (_ & L2 & L3 & L4 & L5 & N1 & N2 & _ & R2 & N3 & N4 & N5 & N6 & _ & R3).
  unfold ptr_eqb. rewrite bool_decide_false by congruence.
  set (h1 := joined h d (hd d xs) (hd s ys) (final s ys)).
  destruct (spliced_list h s ys d [] xs h1 Hs Hne Hd Hap (or_intror eq_refl)) as (Hl1 & Hs1 & Ha1).
  exists (upd_next (upd_prev h1 s (Some s)) s (Some s)).
  assert (is_Some (h1 !! s)) by done.
  assert (is_list (upd_next (upd_prev h1 s (Some s)) s (Some s)) s []) as Hl2.
  { apply is_list_nil. hread. by rewrite !decide_True. }
  split.
  - simpl in L4, R3, L5, L2, N5. do 3 hrun1. rewrite R1, R2, R3. hrun1.
    rewrite stateful_bind_assoc. hrun1. rewrite prv_upd_prev by done. rewrite decide_False by congruence. rewrite R2.
    do 4 hrun1. apply set_next_run. by eauto 8 with heap.
  - destruct (finish_splice h1 (upd_next (upd_prev h1 s (Some s)) s (Some s)) s ys d (ys ++ xs))
      as [? ?]; try done.
    + intros Hin. apply elem_of_cons in Hin as [?|Hin]; [done|].
      destruct (not_in_cut s d [] xs) as (_ & _ & _ & ? & _); [by apply Hap; left|].
      destruct Hs as [Hn _]. apply list.NoDup_cons in Hn as [? _].
      by apply elem_of_app in Hin as [?|?].
    + intros a Ha. unfold upd_next, upd_prev. by rewrite !lookup_alter_ne.
    + split_and!; try done. intros a Ha. apply not_elem_of_cons in Ha as [? Ha].
      unfold upd_next at 1, upd_prev at 1. rewrite !lookup_alter_ne by done. by apply Ha1.
Qed.
End splice_runs.
