(* ===== verification/DListSpec.v ===== *)
(** * Intrusive lists: what the operations of list.h do to the sequences

    The abstract machine [astep] works on sequences of entries, for all lists
    of a heap at once; [list_refinement] shows that the pointer operations of
    DList.v implement it, and the remaining theorems cover the observers and
    the iteration macros. *)
From S2P Require Import Prelude DList.

(** ** All lists of a heap

    The abstract state maps the cells that head a list to its entries; an
    unlinked, initialised entry is the head of an empty list, and [Raw] is a
    cell with undefined pointers.  Different heads own different cells. *)

Inductive cstate := Raw | Head (xs : list loc).
Abbreviation astate := (gmap loc cstate).

Definition cells (l : loc) (c : cstate) : list loc :=
  match c with Raw => [l] | Head xs => l :: xs end.

Definition good (h : heap) (l : loc) (c : cstate) : Prop :=
  match c with Raw => is_Some (h !! l) | Head xs => is_list h l xs end.

Record rep (h : heap) (A : astate) : Prop := {
  rep_good l c : A !! l = Some c → good h l c;
  rep_apart l1 l2 c1 c2 : l1 ≠ l2 → A !! l1 = Some c1 → A !! l2 = Some c2 →
                          ∀ a, a ∈ cells l1 c1 → a ∉ cells l2 c2
}.

(** The operations that change lists. *)
Inductive op :=
| OInit (e : loc)
| OAddHead (e l : loc) | OAddTail (e l : loc)
| ODel (e : loc)
| OMoveHead (e l : loc) | OMoveTail (e l : loc)
| OPopHead (l : loc)
| OAddList (src dst : loc) | OSplice (l head : loc) | OSpliceTail (l head : loc).

Definition exec_op (o : op) : HM ptr :=
  match o with
  | OInit e => fusion_init_list (Some e);; mret None
  | OAddHead e l => fusion_list_add_head (Some e) (Some l);; mret None
  | OAddTail e l => fusion_list_add_tail (Some e) (Some l);; mret None
  | ODel e => fusion_list_del (Some e);; mret None
  | OMoveHead e l => fusion_list_move_head (Some e) (Some l);; mret None
  | OMoveTail e l => fusion_list_move_tail (Some e) (Some l);; mret None
  | OPopHead l => fusion_list_pop_head (Some l)
  | OAddList s d => fusion_list_add_list (Some s) (Some d);; mret None
  | OSplice s d => fusion_list_splice (Some s) (Some d);; mret None
  | OSpliceTail s d => fusion_list_splice_tail (Some s) (Some d);; mret None
  end.

(** [e] leaves the list it is on, if any. *)
Inductive detach (A : astate) (e : loc) : astate → Prop :=
| detach_linked l xs ys :
    A !! l = Some (Head (xs ++ e :: ys)) →
    detach A e (<[e := Head []]> (<[l := Head (xs ++ ys)]> A))
| detach_alone : A !! e = Some (Head []) → detach A e A.

(** What each operation promises, on sequences. *)
Inductive astep (A : astate) : op → ptr → astate → Prop :=
| a_init e c : A !! e = Some c → c = Raw ∨ c = Head [] →
    astep A (OInit e) None (<[e := Head []]> A)
| a_add_head e l c xs : A !! e = Some c → c = Raw ∨ c = Head [] → e ≠ l → A !! l = Some (Head xs) →
    astep A (OAddHead e l) None (<[l := Head (e :: xs)]> (delete e A))
| a_add_tail e l c xs : A !! e = Some c → c = Raw ∨ c = Head [] → e ≠ l → A !! l = Some (Head xs) →
    astep A (OAddTail e l) None (<[l := Head (xs ++ [e])]> (delete e A))
| a_del e A' : detach A e A' → astep A (ODel e) None A'
| a_move_head e l xs A' : detach A e A' → e ≠ l → A' !! l = Some (Head xs) →
    astep A (OMoveHead e l) None (<[l := Head (e :: xs)]> (delete e A'))
| a_move_tail e l xs A' : detach A e A' → e ≠ l → A' !! l = Some (Head xs) →
    astep A (OMoveTail e l) None (<[l := Head (xs ++ [e])]> (delete e A'))
| a_pop_head l e xs : A !! l = Some (Head (e :: xs)) →
    astep A (OPopHead l) (Some e) (<[e := Head []]> (<[l := Head xs]> A))
| a_pop_empty l : A !! l = Some (Head []) → astep A (OPopHead l) None A
| a_add_list s d xs ys : s ≠ d → A !! s = Some (Head ys) → A !! d = Some (Head xs) →
    astep A (OAddList s d) None (<[s := Head []]> (<[d := Head (ys ++ xs)]> A))
| a_splice s d xs ys : s ≠ d → A !! s = Some (Head ys) → A !! d = Some (Head xs) →
    astep A (OSplice s d) None (<[s := Head []]> (<[d := Head (ys ++ xs)]> A))
| a_splice_tail s d xs ys : s ≠ d → A !! s = Some (Head ys) → A !! d = Some (Head xs) →
    astep A (OSpliceTail s d) None (<[s := Head []]> (<[d := Head (xs ++ ys)]> A)).

Section refinement.
Implicit Types (h : heap) (A : astate) (a b l e p n s d k : loc) (xs ys F : list loc) (c : cstate).

Lemma cells_head l c : l ∈ cells l c.
Proof. destruct c; by left. Qed.

Lemma good_frame h h' l c F :
  agree F h h' → (∀ a, a ∈ cells l c → a ∉ F) → good h l c → good h' l c.
Proof.
  intros Hag Hd. destruct c as [|xs]; simpl in *.
  - apply (agree_live _ _ _ _ Hag), Hd. by left.
  - intros Hl. by eapply agree_list.
Qed.

Lemma good_live h l c : good h l c → is_Some (h !! l).
Proof. destruct c; simpl; [done|]. intros Hl. eapply is_list_live; [exact Hl|by left]. Qed.

(** The heads other than [k] and [e] keep their lists. *)
Lemma rep_one h h' A k e c' F :
  rep h A → agree F h h' →
  (∀ l c, A !! l = Some c → l ≠ k → l ≠ e → ∀ a, a ∈ cells l c → a ∉ F) →
  good h' k c' → (∀ a, a ∈ cells k c' → a ∈ F) →
  rep h' (<[k := c']> (delete e A)).
Proof.
  intros [Hg Hap] Hag Hout Hk HF. split.
  - intros l c. rewrite lookup_insert_Some, lookup_delete_Some.
    intros [[<- <-]|(Hlk & Hle & Hl)]; [done|].
    eapply good_frame; [exact Hag| |by apply Hg]. apply (Hout l c); congruence.
  - intros l1 l2 c1 c2 Hne. rewrite !lookup_insert_Some, !lookup_delete_Some.
    intros [[<- <-]|(H1k & H1e & H1)] [[<- <-]|(H2k & H2e & H2)] a Ha1 Ha2.
    + done.
    + apply (Hout l2 c2) in Ha2; [|congruence..]. by apply Ha2, HF.
    + apply (Hout l1 c1) in Ha1; [|congruence..]. by apply Ha1, HF.
    + by apply (Hap l1 l2 c1 c2 Hne H1 H2 a).
Qed.

Lemma rep_two h h' A k1 k2 c1 c2 F :
  rep h A → k1 ≠ k2 → agree F h h' →
  (∀ l c, A !! l = Some c → l ≠ k1 → l ≠ k2 → ∀ a, a ∈ cells l c → a ∉ F) →
  good h' k1 c1 → good h' k2 c2 →
  (∀ a, a ∈ cells k1 c1 → a ∈ F) → (∀ a, a ∈ cells k2 c2 → a ∈ F) →
  (∀ a, a ∈ cells k1 c1 → a ∉ cells k2 c2) →
  rep h' (<[k1 := c1]> (<[k2 := c2]> A)).
Proof.
  intros [Hg Hap] Hk Hag Hout Hg1 Hg2 HF1 HF2 Hdis. split.
  - intros l c. rewrite !lookup_insert_Some.
    intros [[<- <-]|(Hl1 & [[<- <-]|[Hl2 Hl]])]; [done|done|].
    eapply good_frame; [exact Hag| |by apply Hg]. apply (Hout l c); congruence.
  - assert (∀ l c a, A !! l = Some c → k1 ≠ l → k2 ≠ l → a ∈ cells l c → a ∈ F → False) as Hno.
    { intros l c a Hl N1 N2 Ha. by apply (Hout l c Hl). }
    intros l1 l2 d1 d2 Hne. rewrite !lookup_insert_Some.
    intros [[<- <-]|(N1 & [[<- <-]|[M1 E1]])] [[<- <-]|(N2 & [[<- <-]|[M2 E2]])] a Ha1 Ha2;
      try done; eauto.
    + by apply (Hdis a).
    + by apply (Hdis a).
    + by apply (Hap l1 l2 d1 d2 Hne E1 E2 a).
Qed.
End refinement.

Section simulation.
Implicit Types (h : heap) (A : astate) (a b l e p n s d k : loc) (xs ys F : list loc) (c : cstate).

(** An unlinked cell is outside every list. *)
Lemma outside h A e c l xs :
  rep h A → A !! e = Some c → A !! l = Some (Head xs) → e ≠ l → e ∉ l :: xs.
Proof. intros [_ Hap] He Hl Hne. apply (Hap e l _ _ Hne He Hl). apply cells_head. Qed.

(** The cells of other heads are outside those of [k] and [e]. *)
Lemma others_outside h A k ck e ce F :
  rep h A → A !! k = Some ck → A !! e = Some ce →
  (∀ a, a ∈ F → a ∈ cells k ck ∨ a ∈ cells e ce) →
  ∀ l c, A !! l = Some c → l ≠ k → l ≠ e → ∀ a, a ∈ cells l c → a ∉ F.
Proof.
  intros [_ Hap] Hk He HF l c Hl N1 N2 a Ha HaF. apply HF in HaF as [Hin|Hin].
  - by apply (Hap l k c ck N1 Hl Hk a).
  - by apply (Hap l e c ce N2 Hl He a).
Qed.

Lemma add_head_rep h A e l c xs :
  rep h A → A !! e = Some c → e ≠ l → A !! l = Some (Head xs) →
  ∃ h', fusion_list_add_head (Some e) (Some l) h = Ok (tt, h')
        ∧ rep h' (<[l := Head (e :: xs)]> (delete e A)).
Proof.
  intros Hr He Hne Hl. pose proof (outside h A e c l xs Hr He Hl Hne) as Hout.
  destruct (add_head_run h l xs e) as (h' & Hrun & Hl' & Hag);
    [by apply (rep_good _ _ Hr l (Head xs))|done| |].
  { eapply good_live. by eapply rep_good. }
  exists h'. split; [done|]. eapply rep_one; [done|exact Hag| |done|].
  - apply (others_outside h A l (Head xs) e c); [done..|]. pose proof (cells_head e c).
    intros a [->|Ha]%elem_of_cons; [by right|by left].
  - simpl. set_solver.
Qed.

Lemma add_tail_rep h A e l c xs :
  rep h A → A !! e = Some c → e ≠ l → A !! l = Some (Head xs) →
  ∃ h', fusion_list_add_tail (Some e) (Some l) h = Ok (tt, h')
        ∧ rep h' (<[l := Head (xs ++ [e])]> (delete e A)).
Proof.
  intros Hr He Hne Hl. pose proof (outside h A e c l xs Hr He Hl Hne) as Hout.
  destruct (add_tail_run h l xs e) as (h' & Hrun & Hl' & Hag);
    [by apply (rep_good _ _ Hr l (Head xs))|done| |].
  { eapply good_live. by eapply rep_good. }
  exists h'. split; [done|]. eapply rep_one; [done|exact Hag| |done|].
  - apply (others_outside h A l (Head xs) e c); [done..|]. pose proof (cells_head e c).
    intros a [->|Ha]%elem_of_cons; [by right|by left].
  - simpl. set_solver.
Qed.

(** The list that loses [e], and [e]. *)
Lemma removed_rep h h' A l xs ys e c :
  rep h A → A !! l = Some (Head (xs ++ e :: ys)) → agree (l :: xs ++ e :: ys) h h' →
  is_list h' l (xs ++ ys) → good h' e c → c = Raw ∨ c = Head [] →
  rep h' (<[e := c]> (<[l := Head (xs ++ ys)]> A)).
Proof.
  intros Hr Hl Hag Hl' He Hc. pose proof (rep_good _ _ Hr _ _ Hl) as [Hn _].
  assert (e ∉ l :: xs ++ ys) as Hex.
  { rewrite app_comm_cons, <- Permutation_middle in Hn. by apply list.NoDup_cons in Hn as [? _]. }
  assert (cells e c = [e]) as Ece by (by destruct Hc as [-> | ->]).
  eapply rep_two; [done| |exact Hag| |done|done| | |].
  - intros ->. apply Hex. by left.
  - intros k ck Hk N1 N2. eapply (others_outside h A l _ l _ _ Hr Hl Hl); [|done..].
    intros a Ha. left. done.
  - rewrite Ece. set_solver.
  - simpl. set_solver.
  - rewrite Ece. intros a ->%list_elem_of_singleton. done.
Qed.

Lemma detach_raw_rep h A e A' :
  rep h A → detach A e A' →
  ∃ h', __fusion_list_del (Some e) h = Ok (tt, h') ∧ rep h' (<[e := Raw]> A').
Proof.
  intros Hr [l xs ys Hl|He].
  - destruct (del_raw_linked_run h l xs ys e) as (h' & Hrun & Hl' & He' & Hag);
      [by apply (rep_good _ _ Hr l (Head _))|].
    exists h'. split; [done|]. rewrite insert_insert_eq.
    eapply removed_rep; [done|done| |done|done|by left].
    eapply agree_sub; [exact Hag|]. set_solver.
  - destruct (del_raw_alone_run h e) as (h' & Hrun & Hl' & Hag);
      [by apply (rep_good _ _ Hr e (Head _))|].
    exists h'. split; [done|]. rewrite <- insert_delete_eq.
    eapply rep_one; [done|exact Hag| | |].
    + eapply (others_outside h A e _ e _ _ Hr He He). by left.
    + simpl. eapply is_list_live; [exact Hl'|by left].
    + done.
Qed.

Lemma detach_rep h A e A' :
  rep h A → detach A e A' → ∃ h', fusion_list_del (Some e) h = Ok (tt, h') ∧ rep h' A'.
Proof.
  intros Hr [l xs ys Hl|He].
  - destruct (del_linked_run h l xs ys e) as (h' & Hrun & Hl' & He' & Hag);
      [by apply (rep_good _ _ Hr l (Head _))|].
    exists h'. split; [done|]. eapply removed_rep; [done|done|done|done|done|by right].
  - destruct (del_alone_run h e) as (h' & Hrun & Hl' & Hag);
      [by apply (rep_good _ _ Hr e (Head _))|].
    exists h'. split; [done|]. rewrite <- (insert_delete_id A e _ He).
    eapply rep_one; [done|exact Hag| |done|done].
    eapply (others_outside h A e _ e _ _ Hr He He). by left.
Qed.

Lemma spliced_rep h h' A s d xs ys zs :
  rep h A → s ≠ d → A !! s = Some (Head ys) → A !! d = Some (Head xs) →
  is_list h' d zs → is_list h' s [] → agree (s :: ys ++ d :: xs) h h' → zs ≡ₚ ys ++ xs →
  rep h' (<[s := Head []]> (<[d := Head zs]> A)).
Proof.
  intros Hr Hne Hs Hd Hd' Hs' Hag Hzs.
  pose proof (rep_apart _ _ Hr s d _ _ Hne Hs Hd) as Hap. simpl in Hap.
  eapply rep_two; [done|done|exact Hag| |done|done| | |].
  - eapply (others_outside h A s _ d _ _ Hr Hs Hd). simpl. set_solver.
  - simpl. set_solver.
  - simpl. intros a. rewrite Hzs. set_solver.
  - simpl. intros a ->%list_elem_of_singleton. rewrite Hzs.
    pose proof (rep_good _ _ Hr _ _ Hs) as [Hn _]. apply list.NoDup_cons in Hn as [Hn _].
    pose proof (Hap s ltac:(by left)). set_solver.
Qed.

Lemma apart_of h A s d xs ys :
  rep h A → s ≠ d → A !! s = Some (Head ys) → A !! d = Some (Head xs) → apart s ys d xs.
Proof. intros Hr Hne Hs Hd. exact (rep_apart _ _ Hr s d _ _ Hne Hs Hd). Qed.
End simulation.

Lemma list_ops_implemented h A o r A' :
  rep h A → astep A o r A' → ∃ h', exec_op o h = Ok (r, h') ∧ rep h' A'.
Proof.
  intros Hr Hs. destruct Hs as [e c He Hc|e l c xs He Hc Hne Hl|e l c xs He Hc Hne Hl|e A' Hd
    |e l xs A' Hd Hne Hl|e l xs A' Hd Hne Hl|l e xs Hl|l Hl|s d xs ys Hne Hs Hd
    |s d xs ys Hne Hs Hd|s d xs ys Hne Hs Hd]; simpl.
  - destruct (init_run h e) as (h' & Hrun & Hl & Hag); [eapply good_live; by eapply rep_good|].
    exists h'. erewrite stateful_bind_ok; [|exact Hrun]. split; [done|]. rewrite <- insert_delete_eq.
    eapply (rep_one _ _ _ _ _ _ [e]); [done| | |done|done].
    + intros a Ha. apply Hag. set_solver.
    + eapply (others_outside h A e _ e _ _ Hr He He). left. destruct c; simpl; set_solver.
  - destruct (add_head_rep h A e l c xs) as (h' & Hrun & ?); [done..|].
    exists h'. by erewrite stateful_bind_ok; [|exact Hrun].
  - destruct (add_tail_rep h A e l c xs) as (h' & Hrun & ?); [done..|].
    exists h'. by erewrite stateful_bind_ok; [|exact Hrun].
  - destruct (detach_rep h A e A') as (h' & Hrun & ?); [done..|].
    exists h'. by erewrite stateful_bind_ok; [|exact Hrun].
  - destruct (detach_raw_rep h A e A') as (h1 & Hrun1 & Hr1); [done..|].
    destruct (add_head_rep h1 (<[e := Raw]> A') e l Raw xs) as (h2 & Hrun2 & Hr2);
      [done|by rewrite lookup_insert_eq|done|by rewrite lookup_insert_ne|].
    exists h2. rewrite delete_insert_eq in Hr2. split; [|done].
    unfold fusion_list_move_head. rewrite stateful_bind_assoc.
    erewrite stateful_bind_ok; [|exact Hrun1]. by erewrite stateful_bind_ok; [|exact Hrun2].
  - destruct (detach_raw_rep h A e A') as (h1 & Hrun1 & Hr1); [done..|].
    destruct (add_tail_rep h1 (<[e := Raw]> A') e l Raw xs) as (h2 & Hrun2 & Hr2);
      [done|by rewrite lookup_insert_eq|done|by rewrite lookup_insert_ne|].
    exists h2. rewrite delete_insert_eq in Hr2. split; [|done].
    unfold fusion_list_move_tail. rewrite stateful_bind_assoc.
    erewrite stateful_bind_ok; [|exact Hrun1]. by erewrite stateful_bind_ok; [|exact Hrun2].
  - destruct (pop_run h l xs e) as (h' & Hrun & Hl' & He' & Hag);
      [by apply (rep_good _ _ Hr l (Head _))|].
    exists h'. split; [done|].
    eapply (removed_rep h h' A l [] xs e (Head [])); [done|done|done|done|done|by right].
  - exists h. split; [|done]. apply pop_empty_run. by apply (rep_good _ _ Hr l (Head [])).
  - destruct (add_list_run h s ys d xs) as (h' & Hrun & ? & ? & ?);
      [by apply (rep_good _ _ Hr s (Head _))|by apply (rep_good _ _ Hr d (Head _))|by eapply apart_of|].
    exists h'. erewrite stateful_bind_ok; [|exact Hrun]. split; [done|]. by eapply spliced_rep.
  - destruct (splice_run h s ys d xs) as (h' & Hrun & ? & ? & ?);
      [by apply (rep_good _ _ Hr s (Head _))|by apply (rep_good _ _ Hr d (Head _))|by eapply apart_of|].
    exists h'. erewrite stateful_bind_ok; [|exact Hrun]. split; [done|]. by eapply spliced_rep.
  - destruct (splice_tail_run h s ys d xs) as (h' & Hrun & ? & ? & ?);
      [by apply (rep_good _ _ Hr s (Head _))|by apply (rep_good _ _ Hr d (Head _))|by eapply apart_of|].
    exists h'. erewrite stateful_bind_ok; [|exact Hrun]. split; [done|]. eapply spliced_rep; try done.
    apply Permutation_app_comm.
Qed.

(** C19: Every operation of list.h that changes lists does to the pointers what
    the abstract machine does to the sequences, for all lists of the heap at
    once: it runs without a fault, it returns what the machine returns, and
    the heap afterwards represents the machine's next state - lists that the
    operation does not name keep their entries. *)
Theorem list_refinement h A o r A' :
  rep h A → astep A o r A' → ∃ h', exec_op o h = Ok (r, h') ∧ rep h' A'.
Proof. apply list_ops_implemented. Qed.

(** ** Two lists in one heap, for the examples *)

(** List 1 holds 2 and 3, list 4 holds 5, and 6 is not linked. *)
Definition sample_heap : heap :=
  list_to_map [(1%positive, mk_entry (Some 2%positive) (Some 3%positive));
               (2%positive, mk_entry (Some 3%positive) (Some 1%positive));
               (3%positive, mk_entry (Some 1%positive) (Some 2%positive));
               (4%positive, mk_entry (Some 5%positive) (Some 5%positive));
               (5%positive, mk_entry (Some 4%positive) (Some 4%positive));
               (6%positive, mk_entry (Some 6%positive) (Some 6%positive))].

Definition sample_state : astate :=
  list_to_map [(1%positive, Head [2%positive; 3%positive]); (4%positive, Head [5%positive]);
               (6%positive, Head [])].

Lemma sample_list : is_list sample_heap 1%positive [2%positive; 3%positive].
Proof. split; [by apply (bool_decide_unpack (NoDup _))|]. by repeat split. Qed.

Lemma sample_rep : rep sample_heap sample_state.
Proof.
  assert (∀ l c, sample_state !! l = Some c →
            (l = 1%positive ∧ c = Head [2%positive; 3%positive])
            ∨ (l = 4%positive ∧ c = Head [5%positive]) ∨ (l = 6%positive ∧ c = Head [])) as Hc.
  { intros l c Hl. apply elem_of_list_to_map_2 in Hl. rewrite !elem_of_cons, elem_of_nil in Hl.
    destruct Hl as [?|[?|[?|[]]]]; simplify_eq; auto. }
  split.
  - intros l c Hl. destruct (Hc l c Hl) as [[-> ->]|[[-> ->]|[-> ->]]].
    + exact sample_list.
    + split; [by apply (bool_decide_unpack (NoDup _))|]. by repeat split.
    + by apply is_list_nil.
  - intros l1 l2 c1 c2 Hne H1 H2.
    destruct (Hc l1 c1 H1) as [[-> ->]|[[-> ->]|[-> ->]]],
      (Hc l2 c2 H2) as [[-> ->]|[[-> ->]|[-> ->]]]; try done; simpl; set_solver.
Qed.

Lemma list_refinement_witness :
  ∃ h', exec_op (OMoveTail 2%positive 4%positive) sample_heap = Ok (None, h')
        ∧ rep h' (<[4%positive := Head [5%positive; 2%positive]]>
                    (delete 2%positive (<[2%positive := Head []]>
                       (<[1%positive := Head [3%positive]]> sample_state)))).
Proof.
  apply (list_refinement sample_heap sample_state); [exact sample_rep|].
  apply (a_move_tail _ 2%positive 4%positive [5%positive]); [|done|done].
  by apply (detach_linked _ _ 1%positive [] [3%positive]).
Defined.

(** ** Observers *)

(** On a list, the observers answer about the sequence of its entries. *)
Theorem observers_exact h l xs e :
  is_list h l xs → e ≠ l →
  fusion_list_empty (Some l) h = Ok (bool_decide (xs = []), h)
  ∧ fusion_list_is_head (Some e) (Some l) h = Ok (bool_decide (head xs = Some e), h)
  ∧ fusion_list_is_tail (Some e) (Some l) h = Ok (bool_decide (list.last xs = Some e), h)
  ∧ fusion_list_get_head (Some l) h = Ok (head xs, h)
  ∧ fusion_list_get_tail (Some l) h = Ok (list.last xs, h).
Proof.
  intros Hl Hne. pose proof (empty_run h l xs Hl) as He.
  assert (is_Some (h !! l)) as Hlive by (eapply is_list_live; [exact Hl|by left]).
  destruct Hl as [_ Hl]. pose proof (links_next _ _ _ _ Hl) as Hn. pose proof (links_prev _ _ _ _ Hl) as Hp.
  split_and!; [done|..].
  - unfold fusion_list_is_head. hrun1. rewrite Hn. unfold ptr_eqb, mret, stateful_ret.
    do 2 f_equal. apply bool_decide_ext. destruct xs; simpl; naive_solver.
  - unfold fusion_list_is_tail. hrun1. rewrite Hp. unfold ptr_eqb, mret, stateful_ret.
    do 2 f_equal. apply bool_decide_ext. destruct (list.last xs); simpl; naive_solver.
  - unfold fusion_list_get_head. erewrite stateful_bind_ok; [|exact He].
    destruct xs as [|x xs]; simpl; [done|]. rewrite next_run by done. by rewrite Hn.
  - unfold fusion_list_get_tail. erewrite stateful_bind_ok; [|exact He].
    destruct xs as [|x xs]; simpl; [done|]. rewrite prev_run by done. rewrite Hp.
    rewrite list.last_cons. by destruct (list.last xs).
Qed.

Lemma observers_exact_witness :
  fusion_list_is_tail (Some 3%positive) (Some 1%positive) sample_heap = Ok (true, sample_heap).
Proof.
  destruct (observers_exact sample_heap 1%positive [2%positive; 3%positive] 3%positive) as (_ & _ & E & _);
    [exact sample_list|done|exact E].
Defined.

(** ** Iteration *)

Section iteration.
Context (l : loc) (xs : list loc) (body : ptr → HM unit).

(** [fusion_list_for_each] terminates having run its body once on each
    entry, in order, provided the body keeps the list; the fuel needed is
    one more than the number of entries. *)
Theorem for_each_visits_in_order (I : list loc → heap → Prop) h fuel :
  (∀ done x todo h, xs = done ++ x :: todo → I done h → is_list h l xs →
     ∃ h', body (Some x) h = Ok (tt, h') ∧ I (done ++ [x]) h' ∧ is_list h' l xs) →
  is_list h l xs → I [] h → (length xs < fuel)%nat →
  ∃ h', fusion_list_for_each fuel (Some l) body h = Ok (tt, h') ∧ I xs h' ∧ is_list h' l xs.
Proof.
  intros Hbody Hl HI Hfuel. unfold fusion_list_for_each.
  erewrite stateful_bind_ok; [|apply next_run; eapply is_list_live; [exact Hl|by left]].
  rewrite (links_next _ _ _ _ (proj2 Hl)).
  assert (∀ todo fuel done h, xs = done ++ todo → (length todo < fuel)%nat → I done h →
            is_list h l xs →
            ∃ h', for_each_loop fuel (Some (hd l todo)) (Some l) body h = Ok (tt, h')
                  ∧ I xs h' ∧ is_list h' l xs) as Hloop.
  { clear fuel h Hl HI Hfuel. induction todo as [|x todo IH]; intros fuel done h E Hf HI Hl;
      (destruct fuel as [|fuel]; [simpl in Hf; lia|]); simpl; unfold ptr_eqb.
    - rewrite bool_decide_true by done. exists h. rewrite app_nil_r in E. by subst done.
    - destruct (Hbody done x todo h E HI Hl) as (h1 & Hrun & HI1 & Hl1).
      assert (x ≠ l) as Hxl.
      { destruct Hl as [Hn _]. apply list.NoDup_cons in Hn as [Hn _]. intros ->. apply Hn.
        rewrite E. apply elem_of_app. right. by left. }
      rewrite bool_decide_false by congruence. erewrite stateful_bind_ok; [|exact Hrun].
      assert (nxt h1 x = Some (hd l todo)) as Hx.
      { destruct Hl1 as [_ Hl1]. rewrite E in Hl1. apply links_app in Hl1 as [_ Hl1].
        by apply links_next in Hl1. }
      erewrite stateful_bind_ok; [|apply next_run; by eapply nxt_some]. rewrite Hx.
      apply (IH fuel (done ++ [x])); [by rewrite <- (assoc_L (++))|simpl in Hf; lia|done|done]. }
  by apply (Hloop xs fuel []).
Qed.

(** [fusion_list_for_each_safe] visits every entry once, in order, also
    when its body unlinks the entry it is given: [kept] are the entries that
    the body has left on the list. *)
Theorem for_each_safe_visits_in_order (I : list loc → list loc → heap → Prop) h fuel :
  (∀ done kept x todo h, xs = done ++ x :: todo → I done kept h → is_list h l (kept ++ x :: todo) →
     ∃ h' kept', body (Some x) h = Ok (tt, h') ∧ I (done ++ [x]) kept' h'
                 ∧ is_list h' l (kept' ++ todo)) →
  is_list h l xs → I [] [] h → (length xs < fuel)%nat →
  ∃ h' kept, fusion_list_for_each_safe fuel (Some l) body h = Ok (tt, h')
             ∧ I xs kept h' ∧ is_list h' l kept.
Proof.
  intros Hbody Hl HI Hfuel. unfold fusion_list_for_each_safe.
  erewrite stateful_bind_ok; [|apply next_run; eapply is_list_live; [exact Hl|by left]].
  rewrite (links_next _ _ _ _ (proj2 Hl)).
  erewrite stateful_bind_ok.
  2:{ apply next_run. eapply is_list_live; [exact Hl|]. destruct xs; simpl; set_solver. }
  assert (∀ todo fuel done kept h n, xs = done ++ todo → (length todo < fuel)%nat →
            I done kept h → is_list h l (kept ++ todo) →
            (todo ≠ [] → n = Some (hd l (tail todo))) →
            ∃ h' kept, for_each_safe_loop fuel (Some (hd l todo)) n (Some l) body h = Ok (tt, h')
                       ∧ I xs kept h' ∧ is_list h' l kept) as Hloop.
  { clear fuel h Hl HI Hfuel.
    induction todo as [|x todo IH]; intros fuel done kept h n E Hf HI Hl Hn;
      (destruct fuel as [|fuel]; [simpl in Hf; lia|]); simpl; unfold ptr_eqb.
    - rewrite bool_decide_true by done. exists h, kept. rewrite app_nil_r in E, Hl. by subst done.
    - destruct (Hbody done kept x todo h E HI Hl) as (h1 & kept' & Hrun & HI1 & Hl1).
      assert (x ≠ l) as Hxl.
      { destruct Hl as [Hnd _]. apply list.NoDup_cons in Hnd as [Hnd _]. intros ->. apply Hnd.
        apply elem_of_app. right. by left. }
      rewrite bool_decide_false by congruence. erewrite stateful_bind_ok; [|exact Hrun].
      rewrite Hn by done. simpl.
      erewrite stateful_bind_ok.
      2:{ apply next_run. eapply is_list_live; [exact Hl1|]. destruct todo; simpl; set_solver. }
      apply (IH fuel (done ++ [x]) kept');
        [by rewrite <- (assoc_L (++))|simpl in Hf; lia|done|done|].
      intros Hne. destruct todo as [|y todo]; [done|]. simpl.
      destruct Hl1 as [_ Hl1]. apply links_app in Hl1 as [_ Hl1]. by apply links_next in Hl1. }
  apply (Hloop xs fuel [] []); try done.
  intros Hne. destruct Hl as [_ Hl]. destruct xs as [|x ys]; [done|]. simpl.
  destruct Hl as [_ Hl]. by apply links_next in Hl.
Qed.
End iteration.

Lemma for_each_visits_in_order_witness :
  ∃ h', fusion_list_for_each 3 (Some 1%positive) (λ _, mret tt) sample_heap = Ok (tt, h')
        ∧ True ∧ is_list h' 1%positive [2%positive; 3%positive].
Proof.
  apply (for_each_visits_in_order 1%positive [2%positive; 3%positive] (λ _, mret tt) (λ _ _, True)).
  - intros done x todo h _ _ Hl. by exists h.
  - exact sample_list.
  - done.
  - simpl. lia.
Defined.

(** Unlinking every entry while iterating leaves the empty list. *)
Lemma for_each_safe_visits_in_order_witness :
  ∃ h' kept, fusion_list_for_each_safe 3 (Some 1%positive) fusion_list_del sample_heap = Ok (tt, h')
             ∧ kept = [] ∧ is_list h' 1%positive kept.
Proof.
  apply (for_each_safe_visits_in_order 1%positive [2%positive; 3%positive] fusion_list_del
           (λ _ kept _, kept = [])).
  - intros done kept x todo h _ -> Hl.
    destruct (del_linked_run h 1%positive [] todo x Hl) as (h' & Hrun & Hl' & _).
    exists h', []. split; [exact Hrun|]. split; [reflexivity|exact Hl'].
  - exact sample_list.
  - done.
  - simpl. lia.
Defined.
