(* ===== verification/AtomicList.v ===== *)
(** * Lock-free lists: include/fio/port/atomic_list.h

    Any number of threads add entries to one shared list with compare-and-
    exchange, and take the whole list with an exchange.  Each access to shared
    memory is one step, so all interleavings are covered, including those in
    which an entry that was taken is added again while another thread still
    holds its old pointer. *)
From S2P Require Import Prelude.

Abbreviation entry := positive.
Abbreviation ptr := (option entry).      (* [None] is NULL *)

(** ** The code, one memory access at a time *)

Definition fusion_atomic_list_init : ptr := None.
Definition fusion_atomic_list_empty (list_next : ptr) : bool := bool_decide (list_next = None).

(** [kfio_cmpxchg(&head->next, cur, entry)]: the value found, and the new one. *)
Definition kfio_cmpxchg (mem old new : ptr) : ptr * ptr :=
  if decide (mem = old) then (mem, new) else (mem, mem).
(** [kfio_xchg] *)
Definition kfio_xchg (mem new : ptr) : ptr * ptr := (mem, new).

(** Where a thread is, with its locals. *)
Inductive pc :=
| Idle
| AddStart (e : entry)               (* at the top of the loop of fusion_atomic_list_add *)
| AddRead (e : entry) (cur : ptr)    (* cur = head->next *)
| AddStored (e : entry) (cur : ptr)  (* entry->next = cur *)
| Took (p : ptr)                     (* kfio_xchg returned p *)
| Ready                              (* fusion_atomic_list_splice returned *)
| Walk (pos n : ptr).                (* inside fusion_atomic_list_for_each *)

(** [t_list] is the [next] field of the thread's own list head. *)
Record thread := mk_thread { t_list : ptr; t_pc : pc }.

(** [c_head] is the shared [head->next], [c_next] the entries' [next] fields.
    The last four fields are history: the entries handed over and not yet given
    back, those added since the list was last taken (newest first), all that
    were ever added, and all that were visited after a take. *)
Record config := mk_config {
  c_head : ptr; c_next : gmap entry ptr; c_threads : list thread;
  c_busy : gset entry; c_since : list entry; c_added : list entry; c_visited : list entry
}.

Inductive label :=
| LAdd (t : nat) (e : entry)     (* a call of fusion_atomic_list_add *)
| LRead (t : nat)
| LStore (t : nat)
| LCas (t : nat)
| LXchg (t : nat)                (* a call of fusion_atomic_list_splice *)
| LPut (t : nat)
| LFirst (t : nat)               (* the first clause of the for *)
| LVisit (t : nat).              (* the body, then the last clause *)

Definition init_config (n : nat) : config :=
  mk_config fusion_atomic_list_init ∅ (replicate n (mk_thread None Idle)) ∅ [] [] [].

Definition put (t : nat) (th : thread) (c : config) : config :=
  mk_config (c_head c) (c_next c) (<[t := th]> (c_threads c)) (c_busy c) (c_since c)
    (c_added c) (c_visited c).

(** [pos ? pos->next : NULL] *)
Definition next_or_null (c : config) (pos : ptr) : option ptr :=
  match pos with None => Some None | Some x => c_next c !! x end.

(** The caller of [add] owns the entry: it is not in use. *)
Definition exec (c : config) (l : label) : option config :=
  match l with
  | LAdd t e =>
      match c_threads c !! t with
      | Some (mk_thread lst Idle) =>
          if decide (e ∈ c_busy c) then None
          else Some (mk_config (c_head c) (c_next c) (<[t := mk_thread lst (AddStart e)]> (c_threads c))
                       ({[e]} ∪ c_busy c) (c_since c) (c_added c) (c_visited c))
      | _ => None
      end
  | LRead t =>
      match c_threads c !! t with
      | Some (mk_thread lst (AddStart e)) => Some (put t (mk_thread lst (AddRead e (c_head c))) c)
      | _ => None
      end
  | LStore t =>
      match c_threads c !! t with
      | Some (mk_thread lst (AddRead e cur)) =>
          Some (mk_config (c_head c) (<[e := cur]> (c_next c))
                  (<[t := mk_thread lst (AddStored e cur)]> (c_threads c)) (c_busy c) (c_since c)
                  (c_added c) (c_visited c))
      | _ => None
      end
  | LCas t =>
      match c_threads c !! t with
      | Some (mk_thread lst (AddStored e cur)) =>
          let '(found, head) := kfio_cmpxchg (c_head c) cur (Some e) in
          if decide (found ≠ cur) then Some (put t (mk_thread lst (AddStart e)) c)
          else Some (mk_config head (c_next c) (<[t := mk_thread lst Idle]> (c_threads c)) (c_busy c)
                       (e :: c_since c) (e :: c_added c) (c_visited c))
      | _ => None
      end
  | LXchg t =>
      match c_threads c !! t with
      | Some (mk_thread lst Idle) =>
          let '(p, head) := kfio_xchg (c_head c) None in
          Some (mk_config head (c_next c) (<[t := mk_thread lst (Took p)]> (c_threads c)) (c_busy c)
                  [] (c_added c) (c_visited c))
      | _ => None
      end
  | LPut t =>
      match c_threads c !! t with
      | Some (mk_thread _ (Took p)) => Some (put t (mk_thread p Ready) c)
      | _ => None
      end
  | LFirst t =>
      match c_threads c !! t with
      | Some (mk_thread lst Ready) =>
          n ← next_or_null c lst; Some (put t (mk_thread lst (Walk lst n)) c)
      | _ => None
      end
  | LVisit t =>
      match c_threads c !! t with
      | Some (mk_thread lst (Walk None _)) => Some (put t (mk_thread lst Idle) c)
      | Some (mk_thread lst (Walk (Some x) n)) =>
          n' ← next_or_null c n;
          Some (mk_config (c_head c) (c_next c) (<[t := mk_thread lst (Walk n n')]> (c_threads c))
                  (c_busy c ∖ {[x]}) (c_since c) (c_added c) (c_visited c ++ [x]))
      | _ => None
      end
  end.

Inductive reachable (n : nat) : config → Prop :=
| reachable_init : reachable n (init_config n)
| reachable_step c l c' : reachable n c → exec c l = Some c' → reachable n c'.

Definition run (c : config) (ls : list label) : option config :=
  foldl (λ oc l, oc ≫= λ c, exec c l) (Some c) ls.

Lemma alist_reachable_run n c ls c' : reachable n c → run c ls = Some c' → reachable n c'.
Proof.
  unfold run. revert c. induction ls as [|l ls IH]; intros c Hr E; simplify_eq/=; [done|].
  destruct (exec c l) as [c1|] eqn:E1.
  - eapply IH; [|done]. by econstructor.
  - exfalso. revert E. clear. induction ls; simpl; [done|auto].
Qed.

(** ** The invariant *)

(** The NULL-terminated list from [p]. *)
Fixpoint chain (m : gmap entry ptr) (p : ptr) (xs : list entry) : Prop :=
  match xs with
  | [] => p = None
  | x :: xs => p = Some x ∧ ∃ n, m !! x = Some n ∧ chain m n xs
  end.

(** The entries thread [th] has to itself. *)
Definition thread_ok (m : gmap entry ptr) (p : thread * list entry) : Prop :=
  match t_pc p.1 with
  | Idle => p.2 = []
  | AddStart e | AddRead e _ => p.2 = [e]
  | AddStored e cur => p.2 = [e] ∧ m !! e = Some cur
  | Took q => chain m q p.2
  | Ready => chain m (t_list p.1) p.2
  | Walk pos n =>
      match p.2 with
      | [] => pos = None
      | x :: xs => pos = Some x ∧ chain m n xs
      end
  end.

(** Those it has taken from the list. *)
Definition taken (p : thread * list entry) : list entry :=
  match t_pc p.1 with
  | Took _ | Ready | Walk _ _ => p.2
  | _ => []
  end.

Definition owned (e : entry) (ts : list (thread * list entry)) : Z := zsum (λ p, zcount e p.2) ts.
Definition in_hand (e : entry) (ts : list (thread * list entry)) : Z :=
  zsum (λ p, zcount e (taken p)) ts.

Record list_inv (c : config) (ts : list (thread * list entry)) : Prop := {
  li_threads : ts.*1 = c_threads c;
  li_ok : Forall (thread_ok (c_next c)) ts;
  li_chain : chain (c_next c) (c_head c) (c_since c);
  li_once e : zcount e (c_since c) + owned e ts <= 1;
  li_busy e : 0 < zcount e (c_since c) + owned e ts → e ∈ c_busy c;
  li_added e : zcount e (c_added c)
               = zcount e (c_visited c) + in_hand e ts + zcount e (c_since c)
}.

Lemma chain_insert m p xs e v : e ∉ xs → chain m p xs → chain (<[e := v]> m) p xs.
Proof.
  revert p. induction xs as [|x xs IH]; intros p; simpl; [done|].
  rewrite not_elem_of_cons. intros [Hne Hni] [-> (n & Hn & Hc)]. split; [done|].
  exists n. rewrite lookup_insert_ne by done. auto.
Qed.

Lemma thread_ok_insert m p e v : e ∉ p.2 → thread_ok m p → thread_ok (<[e := v]> m) p.
Proof.
  unfold thread_ok. destruct (t_pc p.1); intros He; try done.
  - intros [E Hm]. split; [done|]. rewrite E in He. rewrite lookup_insert_ne; [done|set_solver].
  - by apply chain_insert.
  - by apply chain_insert.
  - destruct (p.2) as [|x xs]; [done|]. intros [? ?]. split; [done|].
    apply chain_insert; [set_solver|done].
Qed.

Lemma owned_put e ts t p p' :
  ts !! t = Some p → owned e (<[t := p']> ts) = owned e ts - zcount e p.2 + zcount e p'.2.
Proof. apply (zsum_insert (λ p, zcount e p.2)). Qed.

Lemma in_hand_put e ts t p p' :
  ts !! t = Some p →
  in_hand e (<[t := p']> ts) = in_hand e ts - zcount e (taken p) + zcount e (taken p').
Proof. apply (zsum_insert (λ p, zcount e (taken p))). Qed.

Lemma owned_lookup e ts t p : ts !! t = Some p → zcount e p.2 <= owned e ts.
Proof. apply (zsum_lookup_le (λ p, zcount e p.2)). intros. apply zcount_nonneg. Qed.

Lemma zcount_head (e : entry) xs : zcount e (e :: xs) = 1 + zcount e xs.
Proof. unfold zcount. simpl. by rewrite decide_True. Qed.

Lemma lookup_owner c ts t th :
  list_inv c ts → c_threads c !! t = Some th →
  ∃ own, ts !! t = Some (th, own) ∧ thread_ok (c_next c) (th, own).
Proof.
  intros Hi Ht. rewrite <- (li_threads _ _ Hi), list_lookup_fmap in Ht.
  destruct (ts !! t) as [[th' own]|] eqn:E; simplify_eq/=. exists own. split; [done|].
  by apply (Forall_lookup_1 _ _ _ _ (li_ok _ _ Hi) E).
Qed.

(** One thread moves, and with it the memory, the history and what it owns. *)
Lemma step_inv c ts t th own c' th' own' :
  list_inv c ts → ts !! t = Some (th, own) →
  c_threads c' = <[t := th']> (c_threads c) →
  thread_ok (c_next c') (th', own') →
  (∀ u p, u ≠ t → ts !! u = Some p → thread_ok (c_next c') p) →
  chain (c_next c') (c_head c') (c_since c') →
  (∀ e, zcount e (c_since c') + zcount e own' <= zcount e (c_since c) + zcount e own
        ∨ (zcount e (c_since c') + zcount e own' = 1
           ∧ zcount e (c_since c) + owned e ts = 0)) →
  (∀ e, 0 < zcount e (c_since c') + owned e (<[t := (th', own')]> ts) → e ∈ c_busy c') →
  (∀ e, zcount e (c_added c') - zcount e (c_visited c') - zcount e (c_since c')
        - zcount e (taken (th', own'))
        = zcount e (c_added c) - zcount e (c_visited c) - zcount e (c_since c)
          - zcount e (taken (th, own))) →
  list_inv c' (<[t := (th', own')]> ts).
Proof.
  intros [Ht Hok Hch Honce Hbusy Hadd] Hlk Eth Hok' Hoth Hch' Hone Hb' Ha'.
  split; try done.
  - by rewrite list_fmap_insert, Ht, Eth.
  - apply Forall_lookup_2. intros u p Hu.
    apply list_lookup_insert_Some in Hu as [(<- & <- & _)|[Hne Hu]]; [done|]. by eapply Hoth.
  - intros e. rewrite (owned_put _ _ _ _ _ Hlk). simpl.
    pose proof (owned_lookup e ts t _ Hlk) as Hle. simpl in Hle.
    pose proof (Honce e). destruct (Hone e); [lia|].
    pose proof (zcount_nonneg e (c_since c)). pose proof (zcount_nonneg e own). lia.
  - intros e. rewrite (in_hand_put _ _ _ _ _ Hlk). pose proof (Hadd e). pose proof (Ha' e). lia.
Qed.

(** The usual step: only the thread's own state changes. *)
Lemma local_inv c ts t th own th' :
  list_inv c ts → ts !! t = Some (th, own) →
  thread_ok (c_next c) (th', own) → taken (th', own) = taken (th, own) →
  list_inv (put t th' c) (<[t := (th', own)]> ts).
Proof.
  intros Hi Hlk Hok Htk. pose proof Hi as [Ht Hoks Hch Honce Hbusy Hadd].
  eapply step_inv; try done.
  - intros u p _ Hu. by apply (Forall_lookup_1 _ _ _ _ Hoks Hu).
  - intros e. left. simpl. lia.
  - intros e. rewrite (owned_put _ _ _ _ _ Hlk). simpl. intros He. apply Hbusy. lia.
  - intros e. simpl. rewrite Htk. lia.
Qed.

Lemma not_owned_twice c ts t u p q e :
  list_inv c ts → u ≠ t → ts !! t = Some p → ts !! u = Some q → e ∈ p.2 → e ∉ q.2.
Proof.
  intros Hi Hne Ht Hu Hp Hq. apply zcount_pos in Hp, Hq.
  pose proof (li_once _ _ Hi e) as Ho. pose proof (zcount_nonneg e (c_since c)).
  pose proof (owned_put e ts t p (p.1, []) Ht) as E1. simpl in E1.
  pose proof (owned_lookup e (<[t := (p.1, [])]> ts) u q) as E2.
  rewrite list_lookup_insert_ne in E2 by done. specialize (E2 Hu).
  change (zcount e (@nil entry)) with 0 in E1. lia.
Qed.

Lemma owned_not_listed c ts t p e : list_inv c ts → ts !! t = Some p → e ∈ p.2 → e ∉ c_since c.
Proof.
  intros Hi Ht Hp Hs. apply zcount_pos in Hp, Hs.
  pose proof (li_once _ _ Hi e). pose proof (owned_lookup e ts t p Ht). lia.
Qed.

Lemma others_ok c ts t u p : list_inv c ts → ts !! u = Some p → u ≠ t → thread_ok (c_next c) p.
Proof. intros Hi Hu _. exact (Forall_lookup_1 _ _ _ _ (li_ok _ _ Hi) Hu). Qed.

Lemma chain_next_or_null c p xs n :
  chain (c_next c) p xs → next_or_null c p = Some n →
  match xs with [] => p = None ∧ n = None | x :: xs => p = Some x ∧ chain (c_next c) n xs end.
Proof.
  destruct xs as [|x xs]; simpl; [intros ->; by intros [= <-]|].
  intros [-> (n' & Hn & Hc)]. simpl. rewrite Hn. by intros [= <-].
Qed.

(** Projections of explicit configurations, without unfolding the counts. *)
Ltac reduce_config := cbn [c_head c_next c_threads c_busy c_since c_added c_visited fst snd].

Lemma store_inv c ts t lst e cur :
  list_inv c ts → c_threads c !! t = Some (mk_thread lst (AddRead e cur)) →
  ∃ ts', list_inv (mk_config (c_head c) (<[e := cur]> (c_next c))
                     (<[t := mk_thread lst (AddStored e cur)]> (c_threads c)) (c_busy c) (c_since c)
                     (c_added c) (c_visited c)) ts'.
Proof.
  intros Hi Ht. destruct (lookup_owner _ _ _ _ Hi Ht) as (own & Hlk & Hok). simpl in Hok.
  unfold thread_ok in Hok. simpl in Hok. subst own.
  exists (<[t := (mk_thread lst (AddStored e cur), [e])]> ts). eapply step_inv; try done; reduce_config.
  - split; [done|]. by rewrite lookup_insert_eq.
  - intros u p Hne Hu. apply thread_ok_insert; [|by eapply others_ok].
    eapply (not_owned_twice c ts t u); [done|done|exact Hlk|exact Hu|by left].
  - apply chain_insert; [|apply Hi]. eapply owned_not_listed; [done|exact Hlk|by left].
  - intros e'. left. lia.
  - intros e'. rewrite (owned_put _ _ _ _ _ Hlk). simpl. intros He. apply (li_busy _ _ Hi). lia.
Qed.

Lemma cas_inv c ts t lst e cur :
  list_inv c ts → c_threads c !! t = Some (mk_thread lst (AddStored e cur)) → c_head c = cur →
  ∃ ts', list_inv (mk_config (Some e) (c_next c) (<[t := mk_thread lst Idle]> (c_threads c)) (c_busy c)
                     (e :: c_since c) (e :: c_added c) (c_visited c)) ts'.
Proof.
  intros Hi Ht <-. destruct (lookup_owner _ _ _ _ Hi Ht) as (own & Hlk & Hok).
  unfold thread_ok in Hok. simpl in Hok. destruct Hok as [-> He].
  exists (<[t := (mk_thread lst Idle, [])]> ts). eapply step_inv; try done; reduce_config.
  - intros u p Hne Hu. by eapply others_ok.
  - split; [done|]. exists (c_head c). split; [done|apply Hi].
  - intros e'. left. unfold zcount. simpl. lia.
  - intros e'. rewrite (owned_put _ _ _ _ _ Hlk). intros Hpos. apply (li_busy _ _ Hi).
    unfold zcount in *. simpl in *. lia.
  - intros e'. unfold taken, zcount. simpl. lia.
Qed.

Lemma xchg_inv c ts t lst :
  list_inv c ts → c_threads c !! t = Some (mk_thread lst Idle) →
  ∃ ts', list_inv (mk_config None (c_next c) (<[t := mk_thread lst (Took (c_head c))]> (c_threads c))
                     (c_busy c) [] (c_added c) (c_visited c)) ts'.
Proof.
  intros Hi Ht. destruct (lookup_owner _ _ _ _ Hi Ht) as (own & Hlk & Hok).
  unfold thread_ok in Hok. simpl in Hok. subst own.
  exists (<[t := (mk_thread lst (Took (c_head c)), c_since c)]> ts). eapply step_inv; try done; reduce_config.
  - apply Hi.
  - intros u p Hne Hu. by eapply others_ok.
  - intros e'. left. unfold zcount. simpl. lia.
  - intros e'. rewrite (owned_put _ _ _ _ _ Hlk). intros Hpos. apply (li_busy _ _ Hi).
    unfold zcount in *. simpl in *. lia.
  - intros e'. unfold taken, zcount. simpl. lia.
Qed.

Lemma visit_inv c ts t lst x n n' :
  list_inv c ts → c_threads c !! t = Some (mk_thread lst (Walk (Some x) n)) →
  next_or_null c n = Some n' →
  ∃ ts', list_inv (mk_config (c_head c) (c_next c) (<[t := mk_thread lst (Walk n n')]> (c_threads c))
                     (c_busy c ∖ {[x]}) (c_since c) (c_added c) (c_visited c ++ [x])) ts'.
Proof.
  intros Hi Ht Hn. destruct (lookup_owner _ _ _ _ Hi Ht) as (own & Hlk & Hok).
  unfold thread_ok in Hok. simpl in Hok. destruct own as [|y xs]; [done|].
  destruct Hok as [[= <-] Hch].
  assert (zcount x (c_since c) + (owned x ts - zcount x (x :: xs) + zcount x xs) <= 0) as Hx.
  { pose proof (li_once _ _ Hi x). rewrite (zcount_head x xs). lia. }
  exists (<[t := (mk_thread lst (Walk n n'), xs)]> ts). eapply step_inv; try done; reduce_config.
  - unfold thread_ok. simpl. by destruct xs as [|y xs]; apply chain_next_or_null with (n := n') in Hch;
      [destruct Hch|..|].
  - intros u p Hne Hu. by eapply others_ok.
  - apply Hi.
  - intros e'. left. unfold zcount. simpl. case_decide; lia.
  - intros e'. rewrite (owned_put _ _ _ _ _ Hlk). cbn [fst snd]. intros Hpos.
    destruct (decide (e' = x)) as [->|Hne]; [lia|]. apply elem_of_difference. split; [|set_solver].
    apply (li_busy _ _ Hi). unfold zcount in *. simpl in *. case_decide; [done|lia].
  - intros e'. unfold taken, zcount. simpl. rewrite zsum_app. simpl. lia.
Qed.

Lemma add_inv c ts t lst e :
  list_inv c ts → c_threads c !! t = Some (mk_thread lst Idle) → e ∉ c_busy c →
  ∃ ts', list_inv (mk_config (c_head c) (c_next c) (<[t := mk_thread lst (AddStart e)]> (c_threads c))
                     ({[e]} ∪ c_busy c) (c_since c) (c_added c) (c_visited c)) ts'.
Proof.
  intros Hi Ht He. destruct (lookup_owner _ _ _ _ Hi Ht) as (own & Hlk & Hok).
  unfold thread_ok in Hok. simpl in Hok. subst own.
  assert (zcount e (c_since c) + owned e ts = 0) as H0.
  { pose proof (li_busy _ _ Hi e). pose proof (zcount_nonneg e (c_since c)).
    assert (0 <= owned e ts) by (apply zsum_nonneg; intros; apply zcount_nonneg).
    destruct (decide (0 < zcount e (c_since c) + owned e ts)) as [Hp|]; [|lia].
    by apply (li_busy _ _ Hi) in Hp. }
  exists (<[t := (mk_thread lst (AddStart e), [e])]> ts). eapply step_inv; try done; reduce_config.
  - intros u p Hne Hu. by eapply others_ok.
  - apply Hi.
  - intros e'. destruct (decide (e' = e)) as [->|Hne].
    + right. split; [|done]. change (zcount e (c_since c) + zcount e [e] = 1).
      pose proof (zcount_nonneg e (c_since c)).
      assert (0 <= owned e ts) by (apply zsum_nonneg; intros; apply zcount_nonneg).
      assert (zcount e [e] = 1) as -> by (rewrite zcount_head; done). lia.
    + left. unfold zcount. simpl. rewrite decide_False by done. lia.
  - intros e'. rewrite (owned_put _ _ _ _ _ Hlk). intros Hpos. apply elem_of_union.
    destruct (decide (e' = e)) as [->|Hne]; [left; set_solver|right].
    apply (li_busy _ _ Hi). unfold zcount in *. simpl in *. rewrite decide_False in Hpos by done. lia.
Qed.

Lemma alist_exec_inv c ts l c' : list_inv c ts → exec c l = Some c' → ∃ ts', list_inv c' ts'.
Proof.
  intros Hi E. destruct l as [t e|t|t|t|t|t|t|t]; simpl in E;
    (destruct (c_threads c !! t) as [[lst p]|] eqn:Ht; [|done]); destruct p; try done.
  - case_decide; simplify_eq. by eapply add_inv.
  - simplify_eq. destruct (lookup_owner _ _ _ _ Hi Ht) as (own & Hlk & Hok).
    eexists. eapply local_inv; [done|exact Hlk|done|done].
  - simplify_eq. by eapply store_inv.
  - unfold kfio_cmpxchg in E. case_decide as Eh; simpl in E; case_decide; simplify_eq.
    + by eapply cas_inv.
    + destruct (lookup_owner _ _ _ _ Hi Ht) as (own & Hlk & Hok).
      eexists. eapply local_inv; [done|exact Hlk| |done]. by destruct Hok.
  - simplify_eq/=. by eapply xchg_inv.
  - simplify_eq. destruct (lookup_owner _ _ _ _ Hi Ht) as (own & Hlk & Hok).
    eexists. eapply local_inv; [done|exact Hlk|done|done].
  - destruct (next_or_null c lst) as [n|] eqn:En; simplify_eq/=.
    destruct (lookup_owner _ _ _ _ Hi Ht) as (own & Hlk & Hok).
    eexists. eapply local_inv; [done|exact Hlk| |done].
    unfold thread_ok in *. simpl in *. pose proof (chain_next_or_null c lst own n Hok En) as Hc.
    by destruct own; destruct Hc.
  - destruct pos as [x|].
    + destruct (next_or_null c n) as [n'|] eqn:En; simplify_eq/=. by eapply visit_inv.
    + simplify_eq. destruct (lookup_owner _ _ _ _ Hi Ht) as (own & Hlk & Hok).
      unfold thread_ok in Hok. simpl in Hok. destruct own; [|by destruct Hok].
      eexists. eapply local_inv; [done|exact Hlk|done|done].
Qed.

Lemma init_inv n : list_inv (init_config n) (replicate n (mk_thread None Idle, [])).
Proof.
  assert (∀ f : thread * list entry → Z, f (mk_thread None Idle, []) = 0 →
            zsum f (replicate n (mk_thread None Idle, [])) = 0) as Hz.
  { intros f Hf. induction n; simpl; [done|]. rewrite Hf. lia. }
  split; simpl.
  - by rewrite fmap_replicate.
  - apply Forall_lookup_2. intros t p Ht. by apply lookup_replicate in Ht as [-> _].
  - done.
  - intros e. unfold owned. by rewrite Hz.
  - intros e. unfold owned. rewrite Hz by done. by intros ?%Z.lt_irrefl.
  - intros e. unfold in_hand. by rewrite Hz.
Qed.

Lemma alist_reachable_inv n c : reachable n c → ∃ ts, list_inv c ts.
Proof.
  induction 1 as [|c l c' Hr [ts Hi] E]; [eexists; apply init_inv|by eapply alist_exec_inv].
Qed.

(** ** What the list promises *)

(** Between its take and the end of its loop. *)
Definition has_taken (th : thread) : bool :=
  match t_pc th with Took _ | Ready | Walk _ _ => true | _ => false end.

(** C15: Entries are neither lost nor duplicated, whatever the interleaving of
    adders and takers: at any time an entry has been visited as often as it was
    added, or once less (it is still on the list or in a taker's hands); and
    when the list is empty and no taker is at work, exactly as often. *)
Theorem entries_delivered_once n c e :
  reachable n c →
  zcount e (c_visited c) <= zcount e (c_added c) <= zcount e (c_visited c) + 1
  ∧ (fusion_atomic_list_empty (c_head c) = true →
     (∀ t th, c_threads c !! t = Some th → has_taken th = false) →
     zcount e (c_added c) = zcount e (c_visited c)).
Proof.
  intros Hr. apply alist_reachable_inv in Hr as [ts Hi]. pose proof (li_added _ _ Hi e) as Ha.
  pose proof (li_once _ _ Hi e) as Ho. pose proof (zcount_nonneg e (c_since c)).
  assert (0 <= in_hand e ts) by (apply zsum_nonneg; intros; apply zcount_nonneg).
  assert (in_hand e ts <= owned e ts) as Hle.
  { apply zsum_le. intros [th own]. unfold taken. simpl. pose proof (zcount_nonneg e own).
    by destruct (t_pc th). }
  split; [lia|]. unfold fusion_atomic_list_empty. intros Hh%bool_decide_eq_true Hq.
  pose proof (li_chain _ _ Hi) as Hc. rewrite Hh in Hc.
  destruct (c_since c) as [|x xs]; [|by destruct Hc].
  assert (in_hand e ts = 0) as Hz.
  { unfold in_hand. rewrite <- (li_threads _ _ Hi) in Hq. clear -Hq.
    induction ts as [|[th own] ts IH]; simpl; [done|].
    rewrite IH by (intros t th' Ht; by apply (Hq (S t))).
    specialize (Hq 0%nat th eq_refl). unfold has_taken in Hq. unfold taken. simpl.
    by destruct (t_pc th). }
  change (zcount e []) with 0 in Ha. lia.
Qed.

(** Two adders race; the first compare-and-exchange of thread 1 fails; then
    thread 0 takes both entries and visits them. *)
Definition race : list label :=
  [LAdd 0 7%positive; LAdd 1 8%positive; LRead 0; LRead 1; LStore 1; LStore 0; LCas 0; LCas 1;
   LRead 1; LStore 1; LCas 1; LXchg 0; LPut 0; LFirst 0; LVisit 0; LVisit 0; LVisit 0].

Lemma entries_delivered_once_witness :
  ∃ c, run (init_config 2) race = Some c
       ∧ c_visited c = [8%positive; 7%positive]
       ∧ zcount 7%positive (c_added c) = zcount 7%positive (c_visited c).
Proof.
  evar (c : config). exists c.
  assert (run (init_config 2) race = Some c) as Hc by (vm_compute; unfold c; reflexivity).
  split; [exact Hc|]. split; [reflexivity|].
  apply (entries_delivered_once 2 c 7%positive).
  - exact (alist_reachable_run 2 _ race c (reachable_init 2) Hc).
  - reflexivity.
  - by intros [|[|t]] th [= <-].
Defined.

(** At any time the shared list links, in memory, the entries added since
    it was last taken, the newest first and each once; a take hands all of them
    to the taker and leaves the list empty. *)
Theorem take_gets_all_newest_first n c t c' :
  reachable n c → exec c (LXchg t) = Some c' →
  NoDup (c_since c)
  ∧ (fusion_atomic_list_empty (c_head c) = true ↔ c_since c = [])
  ∧ ∃ lst p, c_threads c' !! t = Some (mk_thread lst (Took p))
             ∧ chain (c_next c') p (c_since c) ∧ c_head c' = None ∧ c_since c' = [].
Proof.
  intros Hr E. apply alist_reachable_inv in Hr as [ts Hi]. pose proof (li_chain _ _ Hi) as Hc.
  split_and!.
  - assert (∀ xs : list entry, (∀ e, zcount e xs <= 1) → NoDup xs) as Hnd.
    { induction xs as [|x xs IH]; intros Hx; [constructor|]. apply list.NoDup_cons. split.
      - intros Hin%zcount_pos. specialize (Hx x). rewrite zcount_head in Hx. lia.
      - apply IH. intros e. specialize (Hx e). unfold zcount in *. simpl in Hx. case_decide; lia. }
    apply Hnd. intros e. pose proof (li_once _ _ Hi e).
    assert (0 <= owned e ts) by (apply zsum_nonneg; intros; apply zcount_nonneg). lia.
  - unfold fusion_atomic_list_empty. rewrite bool_decide_eq_true.
    destruct (c_since c) as [|x xs]; simpl in Hc; [done|]. destruct Hc as [-> _]. done.
  - simpl in E. destruct (c_threads c !! t) as [[lst []]|] eqn:Ht; simplify_eq/=.
    exists lst, (c_head c). split_and!; try done.
    apply list_lookup_insert_eq. by eapply lookup_lt_Some.
Qed.

Lemma take_gets_all_newest_first_witness :
  ∃ c c', run (init_config 2) (take 11 race) = Some c ∧ exec c (LXchg 0) = Some c'
          ∧ NoDup (c_since c) ∧ c_since c = [8%positive; 7%positive].
Proof.
  evar (c : config). evar (c' : config). exists c, c'.
  assert (run (init_config 2) (take 11 race) = Some c) as Hc by (vm_compute; unfold c; reflexivity).
  assert (exec c (LXchg 0) = Some c') as Hc' by (vm_compute; unfold c'; reflexivity).
  split; [exact Hc|]. split; [exact Hc'|]. split; [|reflexivity].
  apply (take_gets_all_newest_first 2 c 0 c').
  - exact (alist_reachable_run 2 _ _ c (reachable_init 2) Hc).
  - exact Hc'.
Defined.
