(* ===== verification/KScatter.v ===== *)
(** * Scatter-gather lists: kscatter.c, include/fio/port/kscatter.h (building)

    A [linux_sgl] is one allocation: a header, an array of [linux_sgentry] and
    an array of [scatterlist], both of [max_entries] elements, of which the
    first [num_entries] are in use.  This file has the operations that build
    and tear down a list; KScatterDma.v those that map it for DMA and read it.
    What a list means is its bytes, [sgl_bytes]: the (page, offset) pairs it
    names, in order. *)
From S2P Require Import Prelude.

(** ** Data *)

Definition FUSION_PAGE_SHIFT : Z := 12.
Definition FUSION_PAGE_SIZE : Z := 4096.

Definition SGE_BUFFERED : Z := 1.
Definition SGE_USER : Z := 2.
Definition SGE_READ_MAPPED : Z := 4.

Record linux_sgentry := mk_sge { sge_flags : Z; sge_current : Z }.

(** [struct scatterlist]: the page is a [struct page *], 0 when NULL. *)
Record scatterlist := mk_sl { sl_page : Z; sl_offset : Z; sl_length : Z; sl_dma : Z }.

Record linux_sgl := mk_sgl {
  max_entries : Z; num_entries : Z; num_mapped : Z; sgl_size : Z;     (* uint32_t *)
  sge : list linux_sgentry;
  sl : list scatterlist
}.

#[global] Instance linux_sgentry_eq_dec : EqDecision linux_sgentry.
Proof. solve_decision. Defined.
#[global] Instance scatterlist_eq_dec : EqDecision scatterlist.
Proof. solve_decision. Defined.
#[global] Instance linux_sgl_eq_dec : EqDecision linux_sgl.
Proof. solve_decision. Defined.

(** What happens to pages outside the list. *)
Inductive page_event := SetPageDirty (page : Z) | PutPage (page : Z).

#[global] Instance page_event_eq_dec : EqDecision page_event.
Proof. solve_decision. Defined.

Inductive kfio_mem_seg := kfio_mem_seg_system | kfio_mem_seg_user.

#[global] Instance kfio_mem_seg_eq_dec : EqDecision kfio_mem_seg.
Proof. solve_decision. Defined.

(** [lsg->sge[i]] and [lsg->sl[i]], through pointers that may be out of the arrays. *)
Definition sge_update (i : Z) (f : linux_sgentry → linux_sgentry) (lsg : linux_sgl) : outcome linux_sgl :=
  if (0 <=? i) && (i <? Z.of_nat (length (sge lsg)))
  then Ok (mk_sgl (max_entries lsg) (num_entries lsg) (num_mapped lsg) (sgl_size lsg)
             (alter f (Z.to_nat i) (sge lsg)) (sl lsg))
  else Fault OutOfBounds.

Definition sl_update (i : Z) (f : scatterlist → scatterlist) (lsg : linux_sgl) : outcome linux_sgl :=
  if (0 <=? i) && (i <? Z.of_nat (length (sl lsg)))
  then Ok (mk_sgl (max_entries lsg) (num_entries lsg) (num_mapped lsg) (sgl_size lsg)
             (sge lsg) (alter f (Z.to_nat i) (sl lsg)))
  else Fault OutOfBounds.

Definition sge_at (lsg : linux_sgl) (i : Z) : outcome linux_sgentry :=
  if 0 <=? i then of_option OutOfBounds (sge lsg !! Z.to_nat i) else Fault OutOfBounds.
Definition sl_at (lsg : linux_sgl) (i : Z) : outcome scatterlist :=
  if 0 <=? i then of_option OutOfBounds (sl lsg !! Z.to_nat i) else Fault OutOfBounds.

Definition set_num_entries (v : Z) (lsg : linux_sgl) : linux_sgl :=
  mk_sgl (max_entries lsg) v (num_mapped lsg) (sgl_size lsg) (sge lsg) (sl lsg).
Definition set_num_mapped (v : Z) (lsg : linux_sgl) : linux_sgl :=
  mk_sgl (max_entries lsg) (num_entries lsg) v (sgl_size lsg) (sge lsg) (sl lsg).
Definition set_sgl_size (v : Z) (lsg : linux_sgl) : linux_sgl :=
  mk_sgl (max_entries lsg) (num_entries lsg) (num_mapped lsg) v (sge lsg) (sl lsg).

(** [sg_set_page]: the DMA address stays. *)
Definition sg_set_page (page len offset : Z) (s : scatterlist) : scatterlist :=
  mk_sl page offset len (sl_dma s).

(** ** Allocation *)

Definition sizeof_linux_sgl : Z := 32.
Definition sizeof_linux_sgentry : Z := 16.

Section alloc.
(** [sizeof(struct scatterlist)], which depends on the kernel. *)
Context (sizeof_scatterlist : Z).

Definition kfio_sgl_size_bytes (nvecs : Z) : Z :=
  u32 (sizeof_linux_sgl + u32 nvecs * (sizeof_linux_sgentry + sizeof_scatterlist)).

(** [fresh]: the memory of the [sge] array, which is not initialised; [None]:
    the allocation failed.  Returns the bytes asked for as well. *)
Definition kfio_sgl_alloc_nvec (nvecs : Z) (fresh : option (list linux_sgentry)) :
    Z * Z * option linux_sgl :=
  let sgl_bytes := kfio_sgl_size_bytes nvecs in
  match fresh with
  | None => (sgl_bytes, - ENOMEM, None)
  | Some entries =>
      (sgl_bytes, 0,
       Some (mk_sgl (u32 nvecs) 0 0 0 entries (replicate (Z.to_nat nvecs) (mk_sl 0 0 0 0))))
  end.

(** The bytes given back to [kfio_free], a [size_t]. *)
Definition kfio_sgl_destroy (lsg : linux_sgl) : Z :=
  u64 (sizeof_linux_sgl + max_entries lsg * (sizeof_linux_sgentry + sizeof_scatterlist)).
End alloc.

Definition kfio_sgl_size (lsg : linux_sgl) : Z := sgl_size lsg.

(** ** Reset *)

(** The page events of one entry. *)
Definition unmap_entry (e : linux_sgentry) (s : scatterlist) : list page_event :=
  if negb (Z.land (sge_flags e) SGE_USER =? 0)
  then (if negb (Z.land (sge_flags e) SGE_READ_MAPPED =? 0) then [SetPageDirty (sl_page s)] else [])
       ++ [PutPage (sl_page s)]
  else [].

Fixpoint unmap_loop (n : nat) (i : Z) (lsg : linux_sgl) : outcome (list page_event) :=
  match n with
  | O => Ok []
  | S n =>
      e ← sge_at lsg i;
      s ← sl_at lsg i;
      rest ← unmap_loop n (i + 1) lsg;
      Ok (unmap_entry e s ++ rest)
  end.

Definition kfio_sgl_unmap (lsg : linux_sgl) : outcome (list page_event) :=
  unmap_loop (Z.to_nat (num_entries lsg)) 0 lsg.

Definition kfio_sgl_reset (lsg : linux_sgl) : outcome (linux_sgl * list page_event) :=
  events ← kfio_sgl_unmap lsg;
  Ok (set_num_entries 0 (set_num_mapped 0 (set_sgl_size 0 lsg)), events).

(** ** Mapping a buffer *)

(** The kernel's side of [kfio_sgl_map_bytes_gen]. *)
Class Memory := {
  VMALLOC_START : Z;
  VMALLOC_END : Z;
  vmalloc_to_page : Z → Z;
  virt_to_page : Z → Z;
  get_user_pages_fast : Z → Z → Z * Z;    (* address, flags: the result and the page *)
  FOLL_WRITE : Z;
  FOLL_FORCE : Z;
  current : Z
}.

Section map_bytes.
Context `{Memory}.

(** As the macro parses: [write ? FOLL_WRITE : ((0 | force) ? FOLL_FORCE : 0)]. *)
Definition GET_USER_PAGES_FLAGS (write force : Z) : Z :=
  if negb (write =? 0) then FOLL_WRITE
  else if negb (Z.lor 0 force =? 0) then FOLL_FORCE else 0.

(** [put_page] of the entries from [i] to the last. *)
Fixpoint put_pages (n : nat) (i : Z) (lsg : linux_sgl) : outcome (list page_event) :=
  match n with
  | O => Ok []
  | S n =>
      s ← sl_at lsg i;
      rest ← put_pages n (i + 1) lsg;
      Ok (PutPage (sl_page s) :: rest)
  end.

(** The page of address [bp]; a failure of [get_user_pages_fast] is its result. *)
Definition fetch_page (seg : kfio_mem_seg) (vmalloc_buffer : bool) (bp : Z) : Z + Z :=
  if decide (seg = kfio_mem_seg_system)
  then inl (if vmalloc_buffer then vmalloc_to_page bp else virt_to_page bp)
  else
    let '(retval, page) := get_user_pages_fast bp (GET_USER_PAGES_FLAGS 1 0) in
    if retval <=? 0 then inr retval else inl page.

(** [sge->flags |= SGE_USER; sge->this_current = current;] *)
Definition mark_user (seg : kfio_mem_seg) (e : linux_sgentry) : linux_sgentry :=
  if decide (seg = kfio_mem_seg_system) then e
  else mk_sge (Z.lor (sge_flags e) SGE_USER) current.

(** The loop [while (size)]; [fuel] bounds the iterations. *)
Fixpoint map_bytes_loop (fuel : nat) (seg : kfio_mem_seg) (vmalloc_buffer : bool) (old_num : Z)
    (lsg : linux_sgl) (bp size : Z) : outcome (linux_sgl * Z * list page_event) :=
  match fuel with
  | O => Fault NoFuel
  | S fuel =>
      if size =? 0 then Ok (lsg, 0, [])
      else
        let i := num_entries lsg in
        lsg ← sge_update i (λ e, mk_sge 0 (sge_current e)) lsg;
        if num_entries lsg >=? max_entries lsg then Ok (lsg, - ENOMEM, [])
        else
          let page_offset := u32 (bp `mod` FUSION_PAGE_SIZE) in
          let page_remainder := u32 (FUSION_PAGE_SIZE - page_offset) in
          let mapped_bytes := if size <? page_remainder then size else page_remainder in
          match fetch_page seg vmalloc_buffer bp with
          | inr retval =>
              events ← put_pages (Z.to_nat (num_entries lsg - old_num)) old_num lsg;
              Ok (lsg, retval, events)
          | inl page =>
              lsg ← sge_update i (mark_user seg) lsg;
              _ ← oassert AssertFail (negb (page =? 0));
              lsg ← sl_update i (sg_set_page page mapped_bytes page_offset) lsg;
              let size := u32 (size - mapped_bytes) in
              let bp := u64 (bp + mapped_bytes) in
              let lsg := set_num_entries (u32 (num_entries lsg + 1)) lsg in
              let lsg := set_sgl_size (u32 (sgl_size lsg + mapped_bytes)) lsg in
              map_bytes_loop fuel seg vmalloc_buffer old_num lsg bp size
          end
  end.

(** Every iteration but the last maps up to a page boundary. *)
Definition map_bytes_fuel (size : Z) : nat := Z.to_nat (size / FUSION_PAGE_SIZE + 3).

Definition kfio_sgl_map_bytes_gen (lsg : linux_sgl) (buffer size : Z) (seg : kfio_mem_seg) :
    outcome (linux_sgl * Z * list page_event) :=
  let vmalloc_buffer := (VMALLOC_START <=? buffer) && (buffer <? VMALLOC_END) in
  map_bytes_loop (map_bytes_fuel size) seg vmalloc_buffer (num_entries lsg) lsg buffer size.

Definition kfio_sgl_map_bytes (lsg : linux_sgl) (buffer size : Z) :=
  kfio_sgl_map_bytes_gen lsg buffer size kfio_mem_seg_system.
End map_bytes.

(** include/fio/port/kmem.h: the pages a range of addresses touches. *)
Definition kfio_get_memory_range_num_pages (start len : Z) : Z :=
  u32 (Z.shiftr (u64 (start + len + FUSION_PAGE_SIZE - 1)) FUSION_PAGE_SHIFT
       - Z.shiftr start FUSION_PAGE_SHIFT).

(** ** Mapping a page, a bio *)

Definition kfio_sgl_map_page (lsg : linux_sgl) (page offset size : Z) : outcome (linux_sgl * Z) :=
  if num_entries lsg >=? max_entries lsg then Ok (lsg, - EINVAL)
  else if u32 (offset + size) >? FUSION_PAGE_SIZE then Ok (lsg, - EINVAL)
  else
    let i := num_entries lsg in
    lsg ← sge_update i (λ e, mk_sge 0 (sge_current e)) lsg;
    lsg ← sl_update i (sg_set_page page size offset) lsg;
    let lsg := set_num_entries (u32 (num_entries lsg + 1)) lsg in
    Ok (set_sgl_size (u32 (sgl_size lsg + size)) lsg, 0).

(** A [struct bio_vec] as [bio_for_each_segment] yields it. *)
Record bio_vec := mk_bvec { bv_page : Z; bv_len : Z; bv_offset : Z }.

(** The loop over the segments. *)
Fixpoint map_bio_loop (vecs : list bio_vec) (lsg : linux_sgl) : outcome (linux_sgl * Z) :=
  match vecs with
  | [] => Ok (lsg, 0)
  | vec :: vecs =>
      let map_page :=
        '(lsg, rval) ← kfio_sgl_map_page lsg (bv_page vec) (bv_offset vec) (bv_len vec);
        if rval =? 0 then map_bio_loop vecs lsg else Ok (lsg, rval) in
      if num_entries lsg >? 0 then
        s ← sl_at lsg (num_entries lsg - 1);
        if (sl_page s =? bv_page vec) && (u32 (sl_offset s + sl_length s) =? bv_offset vec) then
          lsg ← sl_update (num_entries lsg - 1)
                  (λ s, mk_sl (sl_page s) (sl_offset s) (u32 (sl_length s + bv_len vec)) (sl_dma s)) lsg;
          map_bio_loop vecs (set_sgl_size (u32 (sgl_size lsg + bv_len vec)) lsg)
        else if num_entries lsg >=? max_entries lsg then Ok (lsg, - EAGAIN)
        else map_page
      else map_page
  end.

(** [vecs]: the segments of the bio; [bio_segments(pbio)] is their number. *)
Definition kfio_sgl_map_bio (lsg : linux_sgl) (vecs : list bio_vec) : outcome (linux_sgl * Z) :=
  if u32 (num_entries lsg + Z.of_nat (length vecs)) >? max_entries lsg then Ok (lsg, - EAGAIN)
  else
    old ← (if num_entries lsg >? 0
           then s ← sl_at lsg (num_entries lsg - 1); Ok (Some (num_entries lsg - 1, sl_length s))
           else Ok None);
    let old_sgl_len := num_entries lsg in
    let old_sgl_size := sgl_size lsg in
    '(lsg, rval) ← map_bio_loop vecs lsg;
    if rval =? 0 then Ok (lsg, rval)
    else
      let lsg := set_sgl_size old_sgl_size (set_num_entries old_sgl_len lsg) in
      match old with
      | None => Ok (lsg, rval)
      | Some (i, old_len) =>
          lsg ← sl_update i (λ s, mk_sl (sl_page s) (sl_offset s) old_len (sl_dma s)) lsg;
          Ok (lsg, rval)
      end.

(** ** What a list means *)

(** The bytes of one entry: page and offset in the page. *)
Definition sl_bytes (s : scatterlist) : list (Z * Z) :=
  (λ k, (sl_page s, sl_offset s + Z.of_nat k)) <$> seq 0 (Z.to_nat (sl_length s)).

Lemma length_sl_bytes s : length (sl_bytes s) = Z.to_nat (sl_length s).
Proof. unfold sl_bytes. by rewrite length_fmap, length_seq. Qed.

Definition used (lsg : linux_sgl) : list scatterlist := take (Z.to_nat (num_entries lsg)) (sl lsg).

Definition sgl_bytes (lsg : linux_sgl) : list (Z * Z) := concat (sl_bytes <$> used lsg).

(** The header agrees with the arrays. *)
Record sgl_wf (lsg : linux_sgl) : Prop := {
  wf_sge : Z.of_nat (length (sge lsg)) = max_entries lsg;
  wf_sl : Z.of_nat (length (sl lsg)) = max_entries lsg;
  wf_num : 0 <= num_entries lsg <= max_entries lsg;
  wf_max : max_entries lsg < 2 ^ 31;
  wf_size : sgl_size lsg = u32 (zsum sl_length (used lsg))
}.

Lemma wrapu_add w a b : 0 <= w → wrapu w (wrapu w a + b) = wrapu w (a + b).
Proof. intros Hw. unfold wrapu. apply Zplus_mod_idemp_l. Qed.

Lemma concat_snoc {A} (l : list (list A)) x : concat (l ++ [x]) = concat l ++ x.
Proof. by rewrite concat_app, concat_cons, app_nil_r. Qed.

(** [lsg->num_entries++; lsg->sgl_size += m;] *)
Definition count_in (m : Z) (lsg : linux_sgl) : linux_sgl :=
  set_sgl_size (u32 (sgl_size lsg + m)) (set_num_entries (u32 (num_entries lsg + 1)) lsg).

(** [lsg'] is [lsg] with the entry [s] of [m] bytes at its end. *)
Definition appended (lsg lsg' : linux_sgl) (s : scatterlist) (m : Z) : Prop :=
  used lsg' = used lsg ++ [s] ∧ num_entries lsg' = num_entries lsg + 1
  ∧ max_entries lsg' = max_entries lsg ∧ sgl_size lsg' = u32 (sgl_size lsg + m).

(** Writing the first free entry and counting it in. *)
Lemma append_entry lsg f g m :
  sgl_wf lsg → num_entries lsg < max_entries lsg →
  ∃ x lsg1 lsg2,
    sl lsg !! Z.to_nat (num_entries lsg) = Some x ∧
    sge_update (num_entries lsg) f lsg = Ok lsg1 ∧
    sl_update (num_entries lsg) g lsg1 = Ok lsg2 ∧
    (sl_length (g x) = m →
     sgl_wf (count_in m lsg2) ∧ appended lsg (count_in m lsg2) (g x) m
     ∧ sge (count_in m lsg2) = alter f (Z.to_nat (num_entries lsg)) (sge lsg)).
Proof.
  intros [Hsge Hsl Hnum Hmax Hsize] Hlt.
  destruct (lookup_lt_is_Some_2 (sl lsg) (Z.to_nat (num_entries lsg))) as [x Hx]; [lia|].
  unfold sge_update, sl_update.
  destruct ((0 <=? num_entries lsg) && (num_entries lsg <? Z.of_nat (length (sge lsg)))) eqn:E1; [|lia].
  eexists x, _, _. split; [done|]. split; [done|].
  change (sl (mk_sgl _ _ _ _ _ ?s)) with s.
  destruct ((0 <=? num_entries lsg) && (num_entries lsg <? Z.of_nat (length (sl lsg)))) eqn:E2; [|lia].
  split; [done|]. intros Hm. set (lsg' := count_in _ _).
  assert (u32 (num_entries lsg + 1) = num_entries lsg + 1) as En.
  { apply wrapu_small. unfold in_u. change (2 ^ 31) with 2147483648 in Hmax. lia. }
  assert (used lsg' = used lsg ++ [g x]) as Hu.
  { unfold used, lsg'. simpl. rewrite En. replace (Z.to_nat (num_entries lsg + 1))
      with (S (Z.to_nat (num_entries lsg))) by lia.
    erewrite take_S_r by (rewrite list_lookup_alter_eq, Hx; done).
    by rewrite take_alter, decide_False by lia. }
  split; [|split; [by split_and!|done]]. split.
  - simpl. by rewrite length_alter.
  - simpl. by rewrite length_alter.
  - simpl. rewrite En. lia.
  - done.
  - rewrite Hu, zsum_app. simpl. rewrite Hsize, Hm, wrapu_add by lia. f_equal. lia.
Qed.

Lemma sgl_bytes_snoc lsg lsg' s :
  used lsg' = used lsg ++ [s] → sgl_bytes lsg' = sgl_bytes lsg ++ sl_bytes s.
Proof. intros E. unfold sgl_bytes. rewrite E, fmap_app. simpl. apply concat_snoc. Qed.

(** A mark on the [sge] array changes no byte. *)
Lemma sge_update_used i f lsg lsg' :
  sge_update i f lsg = Ok lsg' →
  used lsg' = used lsg ∧ num_entries lsg' = num_entries lsg ∧ max_entries lsg' = max_entries lsg
  ∧ sgl_size lsg' = sgl_size lsg ∧ sl lsg' = sl lsg
  ∧ sge lsg' = alter f (Z.to_nat i) (sge lsg).
Proof. unfold sge_update. destruct (_ && _); [|done]. by intros [= <-]. Qed.

Lemma sge_update_wf i f lsg lsg' : sgl_wf lsg → sge_update i f lsg = Ok lsg' → sgl_wf lsg'.
Proof.
  intros [? ? ? ? ?] E. destruct (sge_update_used _ _ _ _ E) as (Eu & En & Em & Es & El & Eg).
  split; rewrite ?Eg, ?El, ?En, ?Em, ?Es, ?Eu, ?length_alter; done.
Qed.

Lemma sge_update_ok i f lsg :
  sgl_wf lsg → 0 <= i < max_entries lsg → ∃ lsg', sge_update i f lsg = Ok lsg'.
Proof.
  intros [Hsge _ _ _ _] Hi. unfold sge_update.
  destruct ((0 <=? i) && (i <? Z.of_nat (length (sge lsg)))) eqn:E; [eauto|lia].
Qed.

(** ** Pages of a range of addresses *)

Definition pages (bp size : Z) : Z :=
  (bp + size + FUSION_PAGE_SIZE - 1) / FUSION_PAGE_SIZE - bp / FUSION_PAGE_SIZE.

Lemma num_pages_exact bp size :
  0 <= bp → 0 <= size < 2 ^ 32 → bp + size + FUSION_PAGE_SIZE <= 2 ^ 64 →
  kfio_get_memory_range_num_pages bp size = pages bp size.
Proof.
  unfold FUSION_PAGE_SIZE. intros Hb Hs Hend. unfold kfio_get_memory_range_num_pages, pages.
  change FUSION_PAGE_SIZE with 4096. change FUSION_PAGE_SHIFT with 12.
  rewrite !Z.shiftr_div_pow2 by lia. change (2 ^ 12) with 4096.
  change (2 ^ 64) with 18446744073709551616 in Hend. change (2 ^ 32) with 4294967296 in Hs.
  rewrite (wrapu_small 64) by (unfold in_u; change (2 ^ 64) with 18446744073709551616; lia).
  apply wrapu_small. unfold in_u. change (2 ^ 32) with 4294967296.
  Z.to_euclidean_division_equations. lia.
Qed.

(** One iteration maps to the end of the page or of the range. *)
Definition chunk (bp size : Z) : Z := Z.min size (FUSION_PAGE_SIZE - bp `mod` FUSION_PAGE_SIZE).

Lemma chunk_bounds bp size :
  0 < size → 0 < chunk bp size <= size ∧ bp `mod` FUSION_PAGE_SIZE + chunk bp size <= FUSION_PAGE_SIZE.
Proof. unfold chunk, FUSION_PAGE_SIZE. Z.to_euclidean_division_equations. lia. Qed.

Lemma pages_step bp size :
  0 <= bp → 0 < size →
  (chunk bp size = size → pages bp size = 1)
  ∧ (chunk bp size < size → pages bp size = 1 + pages (bp + chunk bp size) (size - chunk bp size)).
Proof.
  unfold chunk, pages, FUSION_PAGE_SIZE. intros Hb Hs.
  split; intros Hc; Z.to_euclidean_division_equations; lia.
Qed.

Lemma pages_fuel bp size :
  0 <= bp → 0 < size → (Z.to_nat (pages bp size) < map_bytes_fuel size)%nat.
Proof.
  unfold map_bytes_fuel, pages, FUSION_PAGE_SIZE. intros Hb Hs.
  apply Z2Nat.inj_lt; Z.to_euclidean_division_equations; lia.
Qed.

Section addresses.
Context (page_of : Z → Z).
Hypothesis page_of_page : ∀ a b, a / FUSION_PAGE_SIZE = b / FUSION_PAGE_SIZE → page_of a = page_of b.

(** The bytes at addresses [bp] .. [bp + size - 1]. *)
Definition addr_bytes (bp size : Z) : list (Z * Z) :=
  (λ k, (page_of (bp + Z.of_nat k), (bp + Z.of_nat k) `mod` FUSION_PAGE_SIZE))
    <$> seq 0 (Z.to_nat size).

Lemma addr_bytes_app bp m n :
  0 <= m → 0 <= n → addr_bytes bp (m + n) = addr_bytes bp m ++ addr_bytes (bp + m) n.
Proof.
  intros Hm Hn. unfold addr_bytes. rewrite Z2Nat.inj_add by done. rewrite seq_app, fmap_app. f_equal.
  rewrite (Nat.add_comm 0 (Z.to_nat m)), <- fmap_add_seq, <- list_fmap_compose.
  apply list_fmap_ext. intros _ k _. simpl. do 2 f_equal; lia.
Qed.

(** Within one page, they are those of one entry. *)
Lemma addr_bytes_page bp m d :
  bp `mod` FUSION_PAGE_SIZE + m <= FUSION_PAGE_SIZE →
  addr_bytes bp m = sl_bytes (mk_sl (page_of bp) (bp `mod` FUSION_PAGE_SIZE) m d).
Proof.
  intros Hm. unfold addr_bytes, sl_bytes. apply list_fmap_ext. intros i k Hk. simpl.
  apply lookup_seq in Hk as [-> Hk]. simpl in Hk. rewrite Nat.add_0_l.
  assert ((bp + Z.of_nat i) / FUSION_PAGE_SIZE = bp / FUSION_PAGE_SIZE
          ∧ (bp + Z.of_nat i) `mod` FUSION_PAGE_SIZE = bp `mod` FUSION_PAGE_SIZE + Z.of_nat i)
    as [E1 E2].
  { clear page_of_page. unfold FUSION_PAGE_SIZE in *. assert (Z.of_nat i < m) by lia. clear Hk.
    pose proof (Z.div_mod bp 4096). pose proof (Z.mod_pos_bound bp 4096).
    split; symmetry;
      [apply (Z.div_unique_pos _ _ _ (bp `mod` 4096 + Z.of_nat i))
      |apply (Z.mod_unique_pos _ _ (bp / 4096))]; lia. }
  rewrite E2. f_equal. by apply page_of_page.
Qed.
End addresses.

(** ** Mapping a buffer *)

Section map_bytes_spec.
Context `{Memory} (seg : kfio_mem_seg) (vmalloc_buffer : bool) (old_num : Z) (page_of : Z → Z).

(** One iteration with room in the list and a page. *)
Lemma map_bytes_step lsg bp size :
  sgl_wf lsg → num_entries lsg < max_entries lsg →
  0 <= bp → 0 < size < 2 ^ 32 → bp + size < 2 ^ 64 →
  fetch_page seg vmalloc_buffer bp = inl (page_of bp) → page_of bp ≠ 0 →
  ∃ lsg' d,
    (∀ fuel, map_bytes_loop (S fuel) seg vmalloc_buffer old_num lsg bp size
             = map_bytes_loop fuel seg vmalloc_buffer old_num lsg' (bp + chunk bp size)
                 (size - chunk bp size))
    ∧ sgl_wf lsg'
    ∧ appended lsg lsg' (mk_sl (page_of bp) (bp `mod` FUSION_PAGE_SIZE) (chunk bp size) d)
        (chunk bp size).
Proof.
  intros Hwf Hlt Hbp Hsize Hend Hf Hpage.
  change (2 ^ 32) with 4294967296 in Hsize. change (2 ^ 64) with 18446744073709551616 in Hend.
  set (m := chunk bp size). set (po := bp `mod` FUSION_PAGE_SIZE).
  pose proof (chunk_bounds bp size ltac:(lia)) as Hm. fold m po in Hm.
  assert (0 <= po < FUSION_PAGE_SIZE) as Hpo by (apply Z.mod_pos_bound; done).
  unfold FUSION_PAGE_SIZE in Hpo.
  destruct (sge_update_ok (num_entries lsg) (λ e, mk_sge 0 (sge_current e)) lsg Hwf) as [lsg0 E0].
  { destruct Hwf. lia. }
  destruct (sge_update_used _ _ _ _ E0) as (Eu & En & Em & Es & El & _).
  pose proof (sge_update_wf _ _ _ _ Hwf E0) as Hwf0.
  destruct (append_entry lsg0 (mark_user seg) (sg_set_page (page_of bp) m po) m Hwf0)
    as (x & lsg1 & lsg2 & Hx & E1 & E2 & Hpost); [lia|].
  destruct (Hpost eq_refl) as (Hwf2 & Happ & _).
  exists (count_in m lsg2), (sl_dma x). split; [|split; [done|]].
  - intros fuel. simpl. destruct (size =? 0) eqn:Ez; [lia|]. rewrite E0. simpl.
    rewrite En, Em. destruct (num_entries lsg >=? max_entries lsg) eqn:Ege; [lia|].
    rewrite Hf, <- En, E1. simpl. rewrite (proj2 (Z.eqb_neq _ _) Hpage). simpl.
    assert (u32 (bp `mod` FUSION_PAGE_SIZE) = po) as ->.
    { apply wrapu_small. unfold in_u. change (2 ^ 32) with 4294967296. fold po. lia. }
    assert (u32 (FUSION_PAGE_SIZE - po) = FUSION_PAGE_SIZE - po) as ->.
    { apply wrapu_small. unfold in_u, FUSION_PAGE_SIZE. change (2 ^ 32) with 4294967296. lia. }
    assert ((if size <? FUSION_PAGE_SIZE - po then size else FUSION_PAGE_SIZE - po) = m) as ->.
    { unfold m, chunk. fold po. destruct (size <? _) eqn:El'; lia. }
    rewrite E2. simpl. unfold count_in.
    rewrite (wrapu_small 32 (size - m)), (wrapu_small 64 (bp + m)); [done|..];
      unfold in_u; change (2 ^ 32) with 4294967296; change (2 ^ 64) with 18446744073709551616; lia.
  - destruct Happ as (H1 & H2 & H3 & H4). unfold appended. rewrite H1, H2, H3, H4, Eu, En, Em, Es.
    by split_and!.
Qed.

Context (bp0 size0 : Z).
Hypothesis page_of_page : ∀ a b, a / FUSION_PAGE_SIZE = b / FUSION_PAGE_SIZE → page_of a = page_of b.
Hypothesis fetched : ∀ a, bp0 <= a < bp0 + size0 →
  fetch_page seg vmalloc_buffer a = inl (page_of a) ∧ page_of a ≠ 0.

Lemma map_bytes_loop_fits fuel lsg bp size :
  sgl_wf lsg → bp0 <= bp → 0 <= bp → 0 < size < 2 ^ 32 → bp + size = bp0 + size0 →
  bp + size < 2 ^ 64 →
  num_entries lsg + pages bp size <= max_entries lsg → (Z.to_nat (pages bp size) < fuel)%nat →
  ∃ lsg', map_bytes_loop fuel seg vmalloc_buffer old_num lsg bp size = Ok (lsg', 0, [])
    ∧ sgl_wf lsg' ∧ sgl_bytes lsg' = sgl_bytes lsg ++ addr_bytes page_of bp size
    ∧ num_entries lsg' = num_entries lsg + pages bp size
    ∧ max_entries lsg' = max_entries lsg ∧ sgl_size lsg' = u32 (sgl_size lsg + size).
Proof.
  revert lsg bp size. induction fuel as [|fuel IH]; intros lsg bp size Hwf Hb0 Hb Hs Hr Hend Hroom Hfuel;
    [lia|].
  destruct (pages_step bp size) as [P1 P2]; [lia..|].
  pose proof (chunk_bounds bp size ltac:(lia)) as [Hc1 Hc2].
  assert (0 < pages bp size) as Hpp.
  { destruct (decide (chunk bp size = size)); [lia|].
    rewrite P2 by lia. unfold pages, FUSION_PAGE_SIZE.
    assert (0 < size - chunk bp size) by lia.
    Z.to_euclidean_division_equations; lia. }
  destruct (fetched bp) as [Hf Hpg]; [lia|].
  destruct (map_bytes_step lsg bp size) as (lsg1 & d & Hloop & Hwf1 & Hu & Hn & Hm & Hz); try done; [lia|].
  rewrite Hloop. pose proof (sgl_bytes_snoc _ _ _ Hu) as Hbytes.
  rewrite <- (addr_bytes_page page_of page_of_page) in Hbytes by done.
  destruct (decide (chunk bp size = size)) as [Ec|Ec].
  - exists lsg1. rewrite Ec, Z.sub_diag in *. split.
    + destruct fuel; [lia|]. done.
    + split_and!; try done. rewrite P1 by done. done.
  - set (m := chunk bp size) in *. assert (m < size) as Hmlt by lia.
    specialize (P2 Hmlt).
    destruct (IH lsg1 (bp + m) (size - m)) as (lsg' & E & Hwf' & Hb' & Hn' & Hm' & Hz'); try done; try lia.
    exists lsg'. split; [done|]. split; [done|]. split_and!; try lia.
    + rewrite Hb', Hbytes, <- (assoc_L (++)). f_equal.
      rewrite <- addr_bytes_app by lia. f_equal. lia.
    + rewrite Hz', Hz, wrapu_add by lia. f_equal. lia.
Qed.

Lemma map_bytes_loop_full fuel lsg bp size :
  sgl_wf lsg → bp0 <= bp → 0 <= bp → 0 < size < 2 ^ 32 → bp + size = bp0 + size0 →
  bp + size < 2 ^ 64 →
  max_entries lsg < num_entries lsg + pages bp size → (Z.to_nat (pages bp size) < fuel)%nat →
  map_bytes_loop fuel seg vmalloc_buffer old_num lsg bp size = Fault OutOfBounds.
Proof.
  revert lsg bp size. induction fuel as [|fuel IH]; intros lsg bp size Hwf Hb0 Hb Hs Hr Hend Hroom Hfuel;
    [lia|].
  destruct (decide (num_entries lsg = max_entries lsg)) as [Efull|Hfull].
  { simpl. destruct (size =? 0) eqn:Ez; [lia|]. unfold sge_update.
    pose proof (wf_sge _ Hwf). destruct (_ && (_ <? _)) eqn:E; [lia|]. done. }
  assert (num_entries lsg < max_entries lsg) as Hlt by (destruct Hwf; lia).
  destruct (pages_step bp size) as [P1 P2]; [lia..|].
  pose proof (chunk_bounds bp size ltac:(lia)) as [Hc1 Hc2].
  destruct (fetched bp) as [Hf Hpg]; [lia|].
  destruct (map_bytes_step lsg bp size) as (lsg1 & d & Hloop & Hwf1 & Hu & Hn & Hm & Hz); try done.
  rewrite Hloop. destruct (decide (chunk bp size = size)) as [Ec|Ec]; [lia|].
  set (m := chunk bp size) in *. assert (m < size) as Hmlt by lia. specialize (P2 Hmlt).
  apply IH; try done; lia.
Qed.
End map_bytes_spec.

(** The buffer may be mapped: every address has a page. *)
Definition mappable `{Memory} (seg : kfio_mem_seg) (buffer size : Z) (page_of : Z → Z) : Prop :=
  (∀ a b, a / FUSION_PAGE_SIZE = b / FUSION_PAGE_SIZE → page_of a = page_of b)
  ∧ ∀ a, buffer <= a < buffer + size →
      fetch_page seg ((VMALLOC_START <=? buffer) && (buffer <? VMALLOC_END)) a = inl (page_of a)
      ∧ page_of a ≠ 0.

(** C23: Mapping a buffer with enough entries left returns 0 and appends exactly
    the buffer's bytes, in order, to the bytes of the list; it uses as many
    entries as [kfio_get_memory_range_num_pages] announces, adds the size to
    the total, and keeps the list well formed. *)
Theorem map_bytes_appends_buffer `{Memory} seg lsg buffer size page_of :
  sgl_wf lsg → 0 <= buffer → 0 < size < 2 ^ 32 → buffer + size + FUSION_PAGE_SIZE <= 2 ^ 64 →
  mappable seg buffer size page_of →
  num_entries lsg + kfio_get_memory_range_num_pages buffer size <= max_entries lsg →
  ∃ lsg', kfio_sgl_map_bytes_gen lsg buffer size seg = Ok (lsg', 0, [])
    ∧ sgl_wf lsg' ∧ sgl_bytes lsg' = sgl_bytes lsg ++ addr_bytes page_of buffer size
    ∧ num_entries lsg' = num_entries lsg + kfio_get_memory_range_num_pages buffer size
    ∧ kfio_sgl_size lsg' = u32 (kfio_sgl_size lsg + size).
Proof.
  intros Hwf Hb Hs Hend [Hpp Hf]. rewrite num_pages_exact by lia. intros Hroom.
  destruct (map_bytes_loop_fits seg ((VMALLOC_START <=? buffer) && (buffer <? VMALLOC_END))
      (num_entries lsg) page_of buffer size Hpp Hf (map_bytes_fuel size) lsg buffer size)
    as (lsg' & E & Hwf' & Hby & Hn & Hm & Hz); try done.
  - unfold FUSION_PAGE_SIZE in Hend. lia.
  - apply pages_fuel; lia.
  - by exists lsg'.
Qed.

(** When the entries run out, the call does not return -ENOMEM: it first
    clears the flags of the entry after the last, which is outside the array
    (in memory, the first word of [sl[0]]). *)
Theorem map_bytes_full_writes_out_of_bounds `{Memory} seg lsg buffer size page_of :
  sgl_wf lsg → 0 <= buffer → 0 < size < 2 ^ 32 → buffer + size + FUSION_PAGE_SIZE <= 2 ^ 64 →
  mappable seg buffer size page_of →
  max_entries lsg < num_entries lsg + kfio_get_memory_range_num_pages buffer size →
  kfio_sgl_map_bytes_gen lsg buffer size seg = Fault OutOfBounds.
Proof.
  intros Hwf Hb Hs Hend [Hpp Hf]. rewrite num_pages_exact by lia. intros Hroom.
  apply (map_bytes_loop_full seg ((VMALLOC_START <=? buffer) && (buffer <? VMALLOC_END))
      (num_entries lsg) page_of buffer size Hf); try done.
  - unfold FUSION_PAGE_SIZE in Hend. lia.
  - apply pages_fuel; lia.
Qed.
