(* ===== verification/KScatterBio.v ===== *)
(** * Scatter-gather lists: pages, bios and user buffers (kscatter.c)

    What [kfio_sgl_map_page] and [kfio_sgl_map_bio] do to the bytes of a list,
    the all-or-nothing contract of [kfio_sgl_map_bio], and the page references
    that a failed user mapping leaves behind. *)
From S2P Require Import Prelude KScatter.

(** ** One page *)

(** An entry that stays inside its page. *)
Definition in_page (s : scatterlist) : Prop :=
  0 <= sl_offset s ∧ 0 <= sl_length s ∧ sl_offset s + sl_length s <= FUSION_PAGE_SIZE.

Lemma map_page_cases lsg page offset size :
  sgl_wf lsg →
  (∃ lsg' d,
      kfio_sgl_map_page lsg page offset size = Ok (lsg', 0) ∧ sgl_wf lsg'
      ∧ appended lsg lsg' (mk_sl page offset size d) size
      ∧ num_entries lsg < max_entries lsg ∧ u32 (offset + size) <= FUSION_PAGE_SIZE
      ∧ ∀ i, i ≠ Z.to_nat (num_entries lsg) → sl lsg' !! i = sl lsg !! i)
  ∨ (kfio_sgl_map_page lsg page offset size = Ok (lsg, - EINVAL)
     ∧ (max_entries lsg <= num_entries lsg ∨ FUSION_PAGE_SIZE < u32 (offset + size))).
Proof.
  intros Hwf. unfold kfio_sgl_map_page.
  destruct (num_entries lsg >=? max_entries lsg) eqn:E1; [right; split; [done|lia]|].
  destruct (u32 (offset + size) >? FUSION_PAGE_SIZE) eqn:E2; [right; split; [done|lia]|]. left.
  destruct (append_entry lsg (λ e, mk_sge 0 (sge_current e)) (sg_set_page page size offset) size Hwf)
    as (x & lsg1 & lsg2 & Hx & R1 & R2 & Hpost); [lia|].
  destruct (Hpost eq_refl) as (Hwf' & Happ & _).
  exists (count_in size lsg2), (sl_dma x). rewrite R1. simpl. rewrite R2. simpl.
  split_and!; try done; try lia.
  intros i Hi. unfold sl_update in R2. destruct (_ && _); [|done]. injection R2 as <-. simpl.
  rewrite list_lookup_alter_ne by congruence.
  by destruct (sge_update_used _ _ _ _ R1) as (_ & _ & _ & _ & -> & _).
Qed.

(** [kfio_sgl_map_page] appends the [size] bytes at [offset] of the page
    when an entry is left and they fit the page; otherwise it returns -EINVAL
    and changes nothing. *)
Theorem map_page_spec lsg page offset size :
  sgl_wf lsg → 0 <= offset → 0 <= size → offset + size < 2 ^ 32 →
  if decide (num_entries lsg < max_entries lsg ∧ offset + size <= FUSION_PAGE_SIZE)
  then ∃ lsg', kfio_sgl_map_page lsg page offset size = Ok (lsg', 0) ∧ sgl_wf lsg'
         ∧ sgl_bytes lsg' = sgl_bytes lsg ++ sl_bytes (mk_sl page offset size 0)
         ∧ num_entries lsg' = num_entries lsg + 1
         ∧ sgl_size lsg' = u32 (sgl_size lsg + size)
  else kfio_sgl_map_page lsg page offset size = Ok (lsg, - EINVAL).
Proof.
  intros Hwf Ho Hs Hlt.
  assert (u32 (offset + size) = offset + size) as Eo by (apply wrapu_small; unfold in_u; lia).
  destruct (map_page_cases lsg page offset size Hwf)
    as [(lsg' & d & E & Hwf' & (Hu & Hn & _ & Hz) & ? & ? & _)|[E ?]]; rewrite Eo in *.
  - rewrite decide_True by lia. exists lsg'. split_and!; try done.
    by rewrite (sgl_bytes_snoc _ _ _ Hu).
  - rewrite decide_False by lia. done.
Qed.

Definition empty_sgl (n : nat) : linux_sgl :=
  mk_sgl (Z.of_nat n) 0 0 0 (replicate n (mk_sge 0 0)) (replicate n (mk_sl 0 0 0 0)).

Lemma empty_sgl_wf n : Z.of_nat n < 2 ^ 31 → sgl_wf (empty_sgl n).
Proof.
  intros Hn. split; simpl; rewrite ?length_replicate; try done; try lia.
Qed.

Lemma map_page_spec_witness :
  ∃ lsg', kfio_sgl_map_page (empty_sgl 2) 7 512 1024 = Ok (lsg', 0) ∧ num_entries lsg' = 1.
Proof.
  pose proof (map_page_spec (empty_sgl 2) 7 512 1024 (empty_sgl_wf 2 eq_refl)
                ltac:(done) ltac:(done) ltac:(done)) as H.
  rewrite decide_True in H by done. destruct H as (lsg' & E & _ & _ & Hn & _). by exists lsg'.
Defined.

(** ** Bios *)

Definition bvec_bytes (v : bio_vec) : list (Z * Z) :=
  sl_bytes (mk_sl (bv_page v) (bv_offset v) (bv_len v) 0).
Definition bio_bytes (vecs : list bio_vec) : list (Z * Z) := concat (bvec_bytes <$> vecs).

(** A segment of a bio lies in its page. *)
Definition bvec_ok (v : bio_vec) : Prop :=
  0 <= bv_offset v ∧ 0 <= bv_len v ∧ bv_offset v + bv_len v <= FUSION_PAGE_SIZE.

Definition add_length (m : Z) (s : scatterlist) : scatterlist :=
  mk_sl (sl_page s) (sl_offset s) (u32 (sl_length s + m)) (sl_dma s).

Lemma last_used lsg :
  sgl_wf lsg → 0 < num_entries lsg →
  ∃ us s, used lsg = us ++ [s] ∧ sl lsg !! Z.to_nat (num_entries lsg - 1) = Some s
          ∧ us = take (Z.to_nat (num_entries lsg - 1)) (sl lsg)
          ∧ sl_at lsg (num_entries lsg - 1) = Ok s.
Proof.
  intros [_ Hsl Hn _ _] Hpos.
  destruct (lookup_lt_is_Some_2 (sl lsg) (Z.to_nat (num_entries lsg - 1))) as [s Hs]; [lia|].
  exists (take (Z.to_nat (num_entries lsg - 1)) (sl lsg)), s. split_and!; try done.
  - unfold used. replace (Z.to_nat (num_entries lsg)) with (S (Z.to_nat (num_entries lsg - 1))) by lia.
    by apply take_S_r.
  - unfold sl_at. destruct (0 <=? _) eqn:E; [|lia]. by rewrite Hs.
Qed.

(** Lengthening the last entry keeps the header in step, also modulo 2^32. *)
Lemma merge_entry lsg us s m :
  sgl_wf lsg → 0 < num_entries lsg → used lsg = us ++ [s] →
  ∃ lsg1, sl_update (num_entries lsg - 1) (add_length m) lsg = Ok lsg1
    ∧ let lsg' := set_sgl_size (u32 (sgl_size lsg1 + m)) lsg1 in
      sgl_wf lsg' ∧ used lsg' = us ++ [add_length m s]
      ∧ num_entries lsg' = num_entries lsg ∧ max_entries lsg' = max_entries lsg
      ∧ sgl_size lsg' = u32 (sgl_size lsg + m)
      ∧ sl lsg' = alter (add_length m) (Z.to_nat (num_entries lsg - 1)) (sl lsg).
Proof.
  intros Hwf Hpos Hu. destruct (last_used lsg Hwf Hpos) as (us' & s' & Hu' & Hs & Hus & _).
  rewrite Hu' in Hu. apply app_inj_tail in Hu as [-> ->].
  pose proof Hwf as [Hsge Hsl Hn Hmax Hz]. unfold sl_update.
  destruct (_ && (_ <? Z.of_nat (length (sl lsg)))) eqn:E; [|lia]. eexists. split; [done|].
  set (lsg' := set_sgl_size _ _). cbv zeta.
  assert (used lsg' = us ++ [add_length m s]) as Hu2.
  { unfold used, lsg'. simpl.
    replace (Z.to_nat (num_entries lsg)) with (S (Z.to_nat (num_entries lsg - 1))) by lia.
    erewrite take_S_r by (rewrite list_lookup_alter_eq, Hs; done).
    by rewrite take_alter, decide_False, <- Hus by lia. }
  split; [|by split_and!]. split.
  - done.
  - simpl. by rewrite length_alter.
  - done.
  - done.
  - rewrite Hu2. rewrite Hu' in Hz. rewrite zsum_app in *. simpl in *. rewrite Hz.
    rewrite wrapu_add by lia. unfold wrapu.
    rewrite !Z.add_0_r, Zplus_mod_idemp_r. f_equal. lia.
Qed.

(** What mapping segments into a list makes of it: their bytes at the end, at most an
    entry for each. *)
Definition extends lsg vecs lsg' : Prop :=
  sgl_wf lsg' ∧ Forall in_page (used lsg')
  ∧ sgl_bytes lsg' = sgl_bytes lsg ++ bio_bytes vecs
  ∧ num_entries lsg <= num_entries lsg' <= num_entries lsg + Z.of_nat (length vecs)
  ∧ max_entries lsg' = max_entries lsg
  ∧ sgl_size lsg' = u32 (sgl_size lsg + zsum bv_len vecs).

Lemma bio_bytes_one v : bio_bytes [v] = bvec_bytes v.
Proof. unfold bio_bytes. simpl. by rewrite app_nil_r. Qed.

Lemma extends_nil lsg : sgl_wf lsg → Forall in_page (used lsg) → extends lsg [] lsg.
Proof.
  intros Hwf Hin. split_and!; simpl; try done; try lia.
  - unfold bio_bytes. simpl. by rewrite app_nil_r.
  - rewrite Z.add_0_r, (wf_size _ Hwf). unfold wrapu. by rewrite Zmod_mod.
Qed.

Lemma extends_cons lsg v vecs lsg1 lsg' :
  extends lsg [v] lsg1 → extends lsg1 vecs lsg' → extends lsg (v :: vecs) lsg'.
Proof.
  intros (_ & _ & B1 & N1 & M1 & Z1) (W & I & B & N & M & Z'). rewrite bio_bytes_one in B1. cbn [length] in *.
  split_and!; cbn [length]; try done; try lia.
  - rewrite B, B1, <- (assoc_L (++)). done.
  - rewrite Z', Z1, wrapu_add by lia. simpl. f_equal. lia.
Qed.

(** A segment in an entry of its own. *)
Lemma page_extends lsg v :
  sgl_wf lsg → Forall in_page (used lsg) → bvec_ok v → num_entries lsg < max_entries lsg →
  ∃ lsg1, kfio_sgl_map_page lsg (bv_page v) (bv_offset v) (bv_len v) = Ok (lsg1, 0) ∧ extends lsg [v] lsg1.
Proof.
  intros Hwf Hin (Hv1 & Hv2 & Hv3) Hroom.
  assert (u32 (bv_offset v + bv_len v) = bv_offset v + bv_len v) as Ev.
  { apply wrapu_small. unfold in_u, FUSION_PAGE_SIZE in *. change (2 ^ 32) with 4294967296. lia. }
  destruct (map_page_cases lsg (bv_page v) (bv_offset v) (bv_len v) Hwf)
    as [(lsg1 & d & E & W1 & (U1 & N1 & M1 & Z1) & _)|[_ [Hbad|Hbad]]]; [|lia|lia].
  exists lsg1. split; [done|]. split_and!; simpl; try done; try lia.
  - rewrite U1. apply Forall_app. split; [done|]. by apply Forall_singleton.
  - by rewrite (sgl_bytes_snoc _ _ _ U1), bio_bytes_one.
  - by rewrite Z.add_0_r.
Qed.

(** A segment that continues the last entry in its page. *)
Lemma merge_extends lsg us s v :
  sgl_wf lsg → Forall in_page (used lsg) → bvec_ok v → 0 < num_entries lsg → used lsg = us ++ [s] →
  sl_page s = bv_page v → u32 (sl_offset s + sl_length s) = bv_offset v →
  ∃ lsg1, sl_update (num_entries lsg - 1) (add_length (bv_len v)) lsg = Ok lsg1
    ∧ extends lsg [v] (set_sgl_size (u32 (sgl_size lsg1 + bv_len v)) lsg1).
Proof.
  intros Hwf Hin (Hv1 & Hv2 & Hv3) Hpos Hu Em1 Em2. pose proof Hin as Hin'. rewrite Hu in Hin'.
  apply Forall_app in Hin' as [Hin1 [(Hi1 & Hi2 & Hi3) _]%list.Forall_cons].
  destruct (merge_entry lsg us s (bv_len v) Hwf Hpos Hu) as (lsg1 & E1 & W1 & U1 & N1 & M1 & Z1 & _).
  exists lsg1. split; [done|]. unfold FUSION_PAGE_SIZE in *.
  rewrite wrapu_small in Em2 by (unfold in_u; change (2 ^ 32) with 4294967296; lia).
  assert (u32 (sl_length s + bv_len v) = sl_length s + bv_len v) as El.
  { apply wrapu_small. unfold in_u. change (2 ^ 32) with 4294967296. lia. }
  split; [done|]. split; [|split_and!; [|lia|cbn [length]; lia|done|by rewrite Z1; simpl; rewrite Z.add_0_r]].
  - rewrite U1. apply Forall_app. split; [done|]. apply Forall_singleton.
    unfold in_page, add_length, FUSION_PAGE_SIZE. simpl. lia.
  - unfold sgl_bytes. rewrite U1, Hu, bio_bytes_one, !fmap_app. simpl. rewrite !concat_snoc, <- (assoc_L (++)). f_equal.
    unfold sl_bytes, bvec_bytes, sl_bytes, add_length. simpl. rewrite El, Z2Nat.inj_add by done.
    rewrite seq_app, fmap_app. f_equal.
    rewrite (Nat.add_comm 0), <- fmap_add_seq, <- list_fmap_compose.
    apply list_fmap_ext. intros _ k _. simpl. f_equal; [done|lia].
Qed.

(** Each segment is merged or takes one entry, as long as it lies in its page. *)
Lemma map_bio_loop_fits vecs lsg :
  sgl_wf lsg → Forall in_page (used lsg) → Forall bvec_ok vecs →
  num_entries lsg + Z.of_nat (length vecs) <= max_entries lsg →
  ∃ lsg', map_bio_loop vecs lsg = Ok (lsg', 0) ∧ extends lsg vecs lsg'.
Proof.
  revert lsg. induction vecs as [|v vecs IH]; intros lsg Hwf Hin Hok Hroom; [eauto using extends_nil|].
  apply list.Forall_cons in Hok as [Hv Hok]. cbn [length] in Hroom.
  assert (∀ lsg1, extends lsg [v] lsg1 → ∃ lsg', map_bio_loop vecs lsg1 = Ok (lsg', 0) ∧ extends lsg (v :: vecs) lsg') as Hnext.
  { intros lsg1 X. pose proof X as (W1 & I1 & _ & N1 & M1 & _). cbn [length] in N1.
    destruct (IH lsg1) as (lsg' & E & X'); try done; [lia|]. eauto using extends_cons. }
  destruct (page_extends lsg v) as (lsgp & Ep & Xp); try done; [lia|].
  simpl. rewrite Ep. simpl. destruct (num_entries lsg >? 0) eqn:Epos; [|auto].
  destruct (last_used lsg Hwf ltac:(lia)) as (us & s & Hu & _ & _ & ->). simpl. destruct (_ && _) eqn:Em.
  - apply andb_true_iff in Em as [Em1%Z.eqb_eq Em2%Z.eqb_eq].
    destruct (merge_extends lsg us s v) as (lsg1 & E1 & X1); try done; [lia|].
    unfold add_length at 1 in E1. rewrite E1. simpl. auto.
  - destruct (num_entries lsg >=? max_entries lsg) eqn:Efull; [lia|auto].
Qed.

(** A bio with an entry left for each segment. *)
Lemma map_bio_fits lsg vecs :
  sgl_wf lsg → Forall in_page (used lsg) → Forall bvec_ok vecs →
  num_entries lsg + Z.of_nat (length vecs) <= max_entries lsg →
  ∃ lsg', kfio_sgl_map_bio lsg vecs = Ok (lsg', 0) ∧ sgl_wf lsg' ∧ Forall in_page (used lsg')
    ∧ sgl_bytes lsg' = sgl_bytes lsg ++ bio_bytes vecs
    ∧ num_entries lsg' <= num_entries lsg + Z.of_nat (length vecs)
    ∧ max_entries lsg' = max_entries lsg
    ∧ sgl_size lsg' = u32 (sgl_size lsg + zsum bv_len vecs).
Proof.
  intros Hwf Hin Hok Hroom.
  destruct (map_bio_loop_fits vecs lsg Hwf Hin Hok Hroom) as (lsg' & E & W & I & B & N & M & Z').
  exists lsg'. split; [|split_and!; try done; lia]. unfold kfio_sgl_map_bio.
  rewrite (wrapu_small 32).
  2:{ unfold in_u. pose proof (wf_max _ Hwf). pose proof (wf_num _ Hwf).
      change (2 ^ 31) with 2147483648 in *. change (2 ^ 32) with 4294967296. lia. }
  destruct (_ >? _) eqn:E1; [lia|].
  destruct (num_entries lsg >? 0) eqn:E2.
  - destruct (last_used lsg Hwf ltac:(lia)) as (us & s & _ & _ & _ & ->). simpl. by rewrite E.
  - simpl. by rewrite E.
Qed.

(** C22: A bio whose segments lie in their pages is mapped whole when the list
    has an entry for each segment: the list's bytes are extended by the bio's,
    in order, although segments that continue the last entry share it. *)
Theorem map_bio_appends_bio lsg vecs :
  sgl_wf lsg → Forall in_page (used lsg) → Forall bvec_ok vecs →
  num_entries lsg + Z.of_nat (length vecs) <= max_entries lsg →
  ∃ lsg', kfio_sgl_map_bio lsg vecs = Ok (lsg', 0) ∧ sgl_wf lsg' ∧ Forall in_page (used lsg')
    ∧ sgl_bytes lsg' = sgl_bytes lsg ++ bio_bytes vecs
    ∧ num_entries lsg' <= num_entries lsg + Z.of_nat (length vecs)
    ∧ max_entries lsg' = max_entries lsg
    ∧ sgl_size lsg' = u32 (sgl_size lsg + zsum bv_len vecs).
Proof. apply map_bio_fits. Qed.

Definition sample_vecs : list bio_vec := [mk_bvec 7 512 0; mk_bvec 7 512 512; mk_bvec 9 4096 0].

Lemma map_bio_appends_bio_witness :
  ∃ lsg', kfio_sgl_map_bio (empty_sgl 4) sample_vecs = Ok (lsg', 0) ∧ num_entries lsg' <= 3.
Proof.
  destruct (map_bio_appends_bio (empty_sgl 4) sample_vecs) as (lsg' & E & _ & _ & _ & Hn & _).
  - by apply empty_sgl_wf.
  - constructor.
  - unfold sample_vecs. repeat constructor; done.
  - done.
  - exists lsg'. split; [exact E|]. exact Hn.
Defined.

(** *** All or nothing *)

(** [lsg] has the first [n] entries of [lsg0], up to the length of the last. *)
Definition keeps (n : nat) (lsg0 lsg : linux_sgl) : Prop :=
  (∀ i, (S i < n)%nat → sl lsg !! i = sl lsg0 !! i)
  ∧ (∀ s, (0 < n)%nat → sl lsg0 !! (n - 1)%nat = Some s →
     ∃ len, sl lsg !! (n - 1)%nat = Some (mk_sl (sl_page s) (sl_offset s) len (sl_dma s))).

Lemma keeps_refl n lsg : keeps n lsg lsg.
Proof. split; [done|]. intros [p o l d] _ Hs. by exists l. Qed.

Lemma keeps_trans n lsg0 lsg1 lsg2 :
  keeps n lsg0 lsg1 →
  (∀ i, (i < n)%nat → sl lsg2 !! i = sl lsg1 !! i
        ∨ (S i = n ∧ ∃ m, sl lsg2 !! i = add_length m <$> sl lsg1 !! i)) →
  keeps n lsg0 lsg2.
Proof.
  intros [K1 K2] Hs. split.
  - intros i Hi. destruct (Hs i) as [->|[? _]]; [lia|by apply K1|lia].
  - intros s Hn Hl. destruct (K2 s Hn Hl) as [len Hl1].
    destruct (Hs (n - 1)%nat) as [->|(_ & m & ->)]; [lia|by exists len|].
    rewrite Hl1. by eexists.
Qed.

(** The loop never faults, and only adds: whatever its result. *)
Lemma map_bio_loop_keeps n lsg0 vecs lsg :
  sgl_wf lsg → Z.of_nat n <= num_entries lsg → keeps n lsg0 lsg →
  ∃ lsg' rval, map_bio_loop vecs lsg = Ok (lsg', rval) ∧ sgl_wf lsg'
    ∧ max_entries lsg' = max_entries lsg ∧ Z.of_nat n <= num_entries lsg' ∧ keeps n lsg0 lsg'.
Proof.
  revert lsg. induction vecs as [|v vecs IH]; intros lsg Hwf Hn Hk; [by exists lsg, 0|].
  assert (∃ lsg' rval, ('(lsg, rval) ← kfio_sgl_map_page lsg (bv_page v) (bv_offset v) (bv_len v);
                        if rval =? 0 then map_bio_loop vecs lsg else Ok (lsg, rval)) = Ok (lsg', rval)
            ∧ sgl_wf lsg' ∧ max_entries lsg' = max_entries lsg ∧ Z.of_nat n <= num_entries lsg'
            ∧ keeps n lsg0 lsg') as Hpage.
  { destruct (map_page_cases lsg (bv_page v) (bv_offset v) (bv_len v) Hwf)
      as [(lsg1 & d & E & W1 & (U1 & N1 & M1 & Z1) & _ & _ & Hsame)|[E _]]; rewrite E; simpl.
    - destruct (IH lsg1) as (lsg' & rval & E' & W & M & N & K); [done|lia| |].
      + eapply keeps_trans; [exact Hk|]. intros i Hi. left. apply Hsame. lia.
      + exists lsg', rval. split_and!; try done. lia.
    - exists lsg, (- EINVAL). by split_and!. }
  simpl. destruct (num_entries lsg >? 0) eqn:Epos; [|done].
  destruct (last_used lsg Hwf ltac:(lia)) as (us & s & Hu & Hs & _ & ->). simpl.
  destruct (_ && _).
  2:{ destruct (num_entries lsg >=? max_entries lsg); [|done]. exists lsg, (- EAGAIN). by split_and!. }
  destruct (merge_entry lsg us s (bv_len v) Hwf ltac:(lia) Hu) as (lsg1 & E1 & W1 & _ & N1 & M1 & _ & L1).
  unfold add_length at 1 in E1. rewrite E1. simpl.
  destruct (IH (set_sgl_size (u32 (sgl_size lsg1 + bv_len v)) lsg1)) as (lsg' & rval & E' & W & M & N & K);
    [done|lia| |].
  - eapply keeps_trans; [exact Hk|]. intros i Hi. rewrite L1.
    destruct (decide (i = Z.to_nat (num_entries lsg - 1))) as [->|Hne].
    + right. split; [lia|]. exists (bv_len v). apply list_lookup_alter_eq.
    + left. by rewrite list_lookup_alter_ne.
  - exists lsg', rval. split_and!; try done. lia.
Qed.

(** Success or the list as before. *)
Lemma map_bio_restores lsg vecs :
  sgl_wf lsg →
  ∃ lsg' rval, kfio_sgl_map_bio lsg vecs = Ok (lsg', rval) ∧ sgl_wf lsg'
    ∧ (rval ≠ 0 → num_entries lsg' = num_entries lsg ∧ sgl_size lsg' = sgl_size lsg
                  ∧ used lsg' = used lsg).
Proof.
  intros Hwf. unfold kfio_sgl_map_bio. destruct (_ >? max_entries lsg).
  { by exists lsg, (- EAGAIN). }
  pose proof (wf_num _ Hwf) as Hnum.
  destruct (map_bio_loop_keeps (Z.to_nat (num_entries lsg)) lsg vecs lsg Hwf ltac:(lia) (keeps_refl _ _))
    as (lsg1 & rval & E & W1 & M1 & N1 & K1 & K2).
  destruct (num_entries lsg >? 0) eqn:Epos; simpl.
  2:{ rewrite E. simpl. destruct (rval =? 0) eqn:Er; [exists lsg1, rval; split_and!; try done; lia|].
      assert (num_entries lsg = 0) as E0 by lia.
      assert (used lsg = []) as Eu by (unfold used; by rewrite E0).
      eexists _, rval. split; [done|]. split; [split; simpl; try apply W1|].
      - lia.
      - rewrite (wf_size _ Hwf), Eu. unfold used. simpl. by rewrite E0.
      - intros _. simpl. split_and!; try done. rewrite Eu. unfold used. simpl. by rewrite E0. }
  destruct (last_used lsg Hwf ltac:(lia)) as (us & s & Hu & Hs & Hus & ->). simpl. rewrite E. simpl.
  destruct (rval =? 0) eqn:Er; [exists lsg1, rval; split_and!; try done; lia|].
  replace (Z.to_nat (num_entries lsg - 1)) with (Z.to_nat (num_entries lsg) - 1)%nat in * by lia.
  destruct (K2 s ltac:(lia) Hs) as [len Hlen].
  unfold sl_update. simpl. pose proof (wf_sl _ W1) as Hsl1.
  destruct (_ && (_ <? Z.of_nat (length (sl lsg1)))) eqn:Eb; [|lia]. simpl.
  set (lsg' := mk_sgl _ _ _ _ _ _).
  assert (used lsg' = used lsg) as Hused.
  { rewrite Hu, Hus. unfold used, lsg'. simpl.
    replace (Z.to_nat (num_entries lsg)) with (S (Z.to_nat (num_entries lsg) - 1)) at 1 by lia.
    replace (Z.to_nat (num_entries lsg - 1)) with (Z.to_nat (num_entries lsg) - 1)%nat by lia.
    erewrite take_S_r by (rewrite list_lookup_alter_eq, Hlen; done).
    rewrite take_alter, decide_False by lia. f_equal; [|by destruct s].
    apply list_eq. intros i. destruct (decide (i < Z.to_nat (num_entries lsg) - 1)%nat) as [Hi|Hi].
    - rewrite !lookup_take_lt by lia. apply K1. lia.
    - by rewrite !lookup_take_ge by lia. }
  exists lsg', rval. split; [done|]. split; [|done]. split; simpl.
  - apply W1.
  - rewrite length_alter. apply W1.
  - lia.
  - apply W1.
  - rewrite Hused. apply Hwf.
Qed.

(** A run of the loop that ends with 0 has mapped every segment. *)
Lemma map_bio_loop_done vecs lsg lsg' :
  sgl_wf lsg → Forall in_page (used lsg) → Forall bvec_ok vecs →
  map_bio_loop vecs lsg = Ok (lsg', 0) → extends lsg vecs lsg'.
Proof.
  revert lsg. induction vecs as [|v vecs IH]; intros lsg Hwf Hin Hok; [intros [= <-]; by apply extends_nil|].
  apply list.Forall_cons in Hok as [Hv Hok].
  assert (∀ lsg1, extends lsg [v] lsg1 → map_bio_loop vecs lsg1 = Ok (lsg', 0) → extends lsg (v :: vecs) lsg') as Hnext.
  { intros lsg1 X E. pose proof X as (W1 & I1 & _). eauto using extends_cons. }
  assert (('(lsg, rval) ← kfio_sgl_map_page lsg (bv_page v) (bv_offset v) (bv_len v);
           if rval =? 0 then map_bio_loop vecs lsg else Ok (lsg, rval)) = Ok (lsg', 0) →
          extends lsg (v :: vecs) lsg') as Hpage.
  { destruct (decide (num_entries lsg < max_entries lsg)) as [Hroom|Hfull].
    - destruct (page_extends lsg v) as (lsgp & Ep & Xp); try done. rewrite Ep. exact (Hnext _ Xp).
    - unfold kfio_sgl_map_page. by destruct (num_entries lsg >=? max_entries lsg) eqn:E; [|lia]. }
  simpl. destruct (num_entries lsg >? 0) eqn:Epos; [|done].
  destruct (last_used lsg Hwf ltac:(lia)) as (us & s & Hu & _ & _ & ->). simpl. destruct (_ && _) eqn:Em.
  - apply andb_true_iff in Em as [Em1%Z.eqb_eq Em2%Z.eqb_eq].
    destruct (merge_extends lsg us s v) as (lsg1 & E1 & X1); try done; [lia|].
    unfold add_length at 1 in E1. rewrite E1. exact (Hnext _ X1).
  - destruct (num_entries lsg >=? max_entries lsg); [done|exact Hpage].
Qed.

Lemma map_bio_done lsg vecs lsg' :
  sgl_wf lsg → Forall in_page (used lsg) → Forall bvec_ok vecs →
  kfio_sgl_map_bio lsg vecs = Ok (lsg', 0) → extends lsg vecs lsg'.
Proof.
  intros Hwf Hin Hok. unfold kfio_sgl_map_bio. destruct (_ >? max_entries lsg); [done|].
  assert (∃ old, (if num_entries lsg >? 0
                  then s ← sl_at lsg (num_entries lsg - 1); Ok (Some (num_entries lsg - 1, sl_length s))
                  else Ok None) = Ok old) as [old ->].
  { destruct (num_entries lsg >? 0) eqn:Epos; [|eauto].
    destruct (last_used lsg Hwf ltac:(lia)) as (us & s & _ & _ & _ & ->). by eexists. }
  simpl. destruct (map_bio_loop vecs lsg) as [[lsg1 rval]|e] eqn:E; simpl; [|done].
  destruct (Z.eqb_spec rval 0) as [->|Hr]; [intros [= <-]; by apply map_bio_loop_done|].
  destruct old as [[i len]|]; [|by intros [= _ ?]]. by destruct (sl_update _ _ _); simpl; [intros [= _ ?]|].
Qed.

(** C17: [kfio_sgl_map_bio] is all or nothing: whatever the bio, the call runs
    without a fault and leaves a well-formed list.  When it returns an error the
    list is as before - the same entries in use with the same pages, offsets and
    lengths, and the same total - even if a first segment had been merged into
    the last entry.  When it returns 0, and the segments of the bio and the
    entries of the list lie in their pages, all of the bio was mapped: the bytes
    of the list are extended by exactly the bio's, in order, and its total by
    their lengths. *)
Theorem map_bio_all_or_nothing lsg vecs :
  sgl_wf lsg →
  ∃ lsg' rval, kfio_sgl_map_bio lsg vecs = Ok (lsg', rval) ∧ sgl_wf lsg'
    ∧ (rval ≠ 0 → num_entries lsg' = num_entries lsg ∧ sgl_size lsg' = sgl_size lsg
                  ∧ used lsg' = used lsg)
    ∧ (rval = 0 → Forall in_page (used lsg) → Forall bvec_ok vecs →
       sgl_bytes lsg' = sgl_bytes lsg ++ bio_bytes vecs
       ∧ sgl_size lsg' = u32 (sgl_size lsg + zsum bv_len vecs)).
Proof.
  intros Hwf. destruct (map_bio_restores lsg vecs Hwf) as (lsg' & rval & E & W & R).
  exists lsg', rval. split_and!; try done. intros -> Hin Hok.
  by destruct (map_bio_done lsg vecs lsg' Hwf Hin Hok E) as (_ & _ & ? & _ & _ & ?).
Qed.

(** A list with one entry, and a bio that continues it and then crosses a page. *)
Definition one_entry : linux_sgl := mk_sgl 3 1 0 512
  (replicate 3 (mk_sge 0 0)) [mk_sl 7 0 512 0; mk_sl 0 0 0 0; mk_sl 0 0 0 0].

Lemma map_bio_all_or_nothing_witness :
  ∃ lsg', kfio_sgl_map_bio one_entry [mk_bvec 7 512 512; mk_bvec 9 4096 512] = Ok (lsg', - EINVAL)
          ∧ used lsg' = [mk_sl 7 0 512 0].
Proof.
  destruct (map_bio_all_or_nothing one_entry [mk_bvec 7 512 512; mk_bvec 9 4096 512])
    as (lsg' & rval & E & _ & H & _); [by split|].
  assert (rval = - EINVAL) as -> by (vm_compute in E; by injection E as _ <-).
  exists lsg'. split; [exact E|]. destruct H as (_ & _ & H); [done|exact H].
Defined.

(** ** User buffers *)

(** Memory in which the page of an address is its page number plus one, and
    the user pages from number [limit] on cannot be pinned. *)
Definition sample_memory (limit : Z) : Memory := {|
  VMALLOC_START := 2 ^ 46; VMALLOC_END := 2 ^ 47;
  vmalloc_to_page a := a / FUSION_PAGE_SIZE + 1;
  virt_to_page a := a / FUSION_PAGE_SIZE + 1;
  get_user_pages_fast a _ :=
    if a / FUSION_PAGE_SIZE <? limit then (1, a / FUSION_PAGE_SIZE + 1) else (- EFAULT, 0);
  FOLL_WRITE := 1; FOLL_FORCE := 16; current := 42
|}.

Lemma sample_mappable limit seg buffer size :
  0 <= buffer → buffer + size <= limit * FUSION_PAGE_SIZE →
  @mappable (sample_memory limit) seg buffer size (λ a, a / FUSION_PAGE_SIZE + 1).
Proof.
  unfold FUSION_PAGE_SIZE. intros Hb Hl. split; [by intros a b; change FUSION_PAGE_SIZE with 4096; intros ->|].
  intros a Ha. change FUSION_PAGE_SIZE with 4096.
  assert (0 <= a / 4096 < limit) as Hp by (Z.to_euclidean_division_equations; lia).
  split; [|lia]. unfold fetch_page. simpl. change FUSION_PAGE_SIZE with 4096.
  case_decide; [by destruct (_ && _)|]. destruct (a / 4096 <? limit) eqn:E; [done|lia].
Qed.

Lemma map_bytes_appends_buffer_witness :
  ∃ lsg', @kfio_sgl_map_bytes_gen (sample_memory 8) (empty_sgl 4) 5000 9000 kfio_mem_seg_user
          = Ok (lsg', 0, []) ∧ num_entries lsg' = 3.
Proof.
  destruct (@map_bytes_appends_buffer (sample_memory 8) kfio_mem_seg_user (empty_sgl 4) 5000 9000
    (λ a, a / FUSION_PAGE_SIZE + 1)) as (lsg' & E & _ & _ & Hn & _).
  - by apply empty_sgl_wf.
  - lia.
  - lia.
  - by vm_compute.
  - apply sample_mappable; by vm_compute.
  - by vm_compute.
  - exists lsg'. split; [exact E|]. exact Hn.
Defined.

Lemma map_bytes_full_writes_out_of_bounds_witness :
  @kfio_sgl_map_bytes_gen (sample_memory 8) (empty_sgl 2) 5000 9000 kfio_mem_seg_system
  = Fault OutOfBounds.
Proof.
  apply (@map_bytes_full_writes_out_of_bounds (sample_memory 8) kfio_mem_seg_system (empty_sgl 2)
    5000 9000 (λ a, a / FUSION_PAGE_SIZE + 1)).
  - by apply empty_sgl_wf.
  - lia.
  - lia.
  - by vm_compute.
  - apply sample_mappable; by vm_compute.
  - by vm_compute.
Defined.

(** A user mapping that fails on a later page drops the references of the
    pages it had pinned but leaves their entries on the list, marked as user
    pages: the reset that must follow drops the same references again. *)
Theorem failed_user_mapping_releases_twice :
  ∃ lsg' lsg'',
    @kfio_sgl_map_bytes_gen (sample_memory 1) (empty_sgl 4) 0 8192 kfio_mem_seg_user
    = Ok (lsg', - EFAULT, [PutPage 1])
    ∧ num_entries lsg' = 1
    ∧ kfio_sgl_reset lsg' = Ok (lsg'', [PutPage 1]).
Proof. eexists _, _. split; [vm_compute; reflexivity|]. split; vm_compute; reflexivity. Qed.

(** ** Life cycle *)

Lemma unmap_loop_events n i lsg :
  sgl_wf lsg → 0 <= i → i + Z.of_nat n <= max_entries lsg →
  unmap_loop n i lsg
  = Ok (concat (zip_with unmap_entry (take n (drop (Z.to_nat i) (sge lsg)))
                  (take n (drop (Z.to_nat i) (sl lsg))))).
Proof.
  intros Hwf. revert i. induction n as [|n IH]; intros i Hi Hle; [done|].
  pose proof (wf_sge _ Hwf). pose proof (wf_sl _ Hwf).
  destruct (lookup_lt_is_Some_2 (sge lsg) (Z.to_nat i)) as [e He]; [lia|].
  destruct (lookup_lt_is_Some_2 (sl lsg) (Z.to_nat i)) as [s Hs]; [lia|].
  simpl. unfold sge_at, sl_at. destruct (0 <=? i) eqn:E; [|lia]. rewrite He, Hs. simpl.
  rewrite IH by lia. simpl. rewrite (drop_S _ _ _ He), (drop_S _ _ _ Hs). simpl.
  by replace (Z.to_nat (i + 1)) with (S (Z.to_nat i)) by lia.
Qed.

(** A reset releases each entry in use once, in order - a user page is put,
    after having been marked dirty if it was mapped for reading - and leaves a
    well-formed list with no bytes and size 0. *)
Theorem reset_releases_entries lsg :
  sgl_wf lsg →
  ∃ lsg', kfio_sgl_reset lsg
          = Ok (lsg', concat (zip_with unmap_entry (take (Z.to_nat (num_entries lsg)) (sge lsg)) (used lsg)))
    ∧ sgl_wf lsg' ∧ sgl_bytes lsg' = [] ∧ kfio_sgl_size lsg' = 0 ∧ num_mapped lsg' = 0.
Proof.
  intros Hwf. unfold kfio_sgl_reset, kfio_sgl_unmap. pose proof (wf_num _ Hwf).
  rewrite unmap_loop_events by (done || lia). simpl. rewrite !drop_0.
  eexists. split; [done|]. split_and!; try done.
  destruct Hwf. split; simpl; try done. lia.
Qed.

Lemma reset_releases_entries_witness :
  ∃ lsg', kfio_sgl_reset (mk_sgl 2 2 0 600 [mk_sge 6 42; mk_sge 0 0]
                            [mk_sl 7 0 500 0; mk_sl 8 0 100 0])
          = Ok (lsg', [SetPageDirty 7; PutPage 7]) ∧ kfio_sgl_size lsg' = 0.
Proof.
  destruct (reset_releases_entries (mk_sgl 2 2 0 600 [mk_sge 6 42; mk_sge 0 0]
              [mk_sl 7 0 500 0; mk_sl 8 0 100 0])) as (lsg' & E & _ & _ & Hz & _).
  - by split.
  - exists lsg'. split; [exact E|exact Hz].
Defined.

(** A fresh list is well formed and empty, and [kfio_sgl_destroy] frees the
    number of bytes that [kfio_sgl_alloc_nvec] asked for, provided that number
    fits 32 bits; a failed allocation returns -ENOMEM and no list. *)
Theorem alloc_destroy_balanced sizeof_scatterlist nvecs entries :
  0 <= nvecs < 2 ^ 31 → length entries = Z.to_nat nvecs → 0 <= sizeof_scatterlist →
  sizeof_linux_sgl + nvecs * (sizeof_linux_sgentry + sizeof_scatterlist) < 2 ^ 32 →
  (kfio_sgl_alloc_nvec sizeof_scatterlist nvecs None).1.2 = - ENOMEM
  ∧ ∃ bytes lsg, kfio_sgl_alloc_nvec sizeof_scatterlist nvecs (Some entries) = (bytes, 0, Some lsg)
      ∧ sgl_wf lsg ∧ sgl_bytes lsg = [] ∧ kfio_sgl_destroy sizeof_scatterlist lsg = bytes.
Proof.
  intros Hn Hlen Hs Hfit. split; [done|]. unfold kfio_sgl_alloc_nvec. eexists _, _. split; [done|].
  unfold sizeof_linux_sgl, sizeof_linux_sgentry in *.
  assert (u32 nvecs = nvecs) as En.
  { apply wrapu_small. unfold in_u. change (2 ^ 31) with 2147483648 in Hn.
    change (2 ^ 32) with 4294967296. lia. }
  split; [split; simpl; rewrite ?length_replicate, ?En; try done; lia|]. split; [done|].
  unfold kfio_sgl_destroy, kfio_sgl_size_bytes. simpl. rewrite En.
  unfold sizeof_linux_sgl, sizeof_linux_sgentry.
  assert (0 <= nvecs * (16 + sizeof_scatterlist)) by nia.
  rewrite !wrapu_small; try done; unfold in_u; change (2 ^ 32) with 4294967296 in *;
    change (2 ^ 64) with 18446744073709551616; lia.
Qed.

Lemma alloc_destroy_balanced_witness :
  ∃ bytes lsg, kfio_sgl_alloc_nvec 32 3 (Some (replicate 3 (mk_sge 0 0))) = (bytes, 0, Some lsg)
               ∧ kfio_sgl_destroy 32 lsg = bytes.
Proof.
  destruct (alloc_destroy_balanced 32 3 (replicate 3 (mk_sge 0 0))) as (_ & b & lsg & E & _ & _ & Hd);
    try done. exists b, lsg. split; [exact E|exact Hd].
Defined.
