(* ===== verification/KScatterDma.v ===== *)
(** * Scatter-gather lists: DMA maps, slices, byte access (kscatter.c)

    A [kfio_dma_map] names a range of a mapped list by its first and last
    entry, the bytes skipped in the first and cut from the last; the hardware
    reads it with [kfio_dma_map_first] and [kfio_dma_map_next].  Pointers into
    the [sge] array are indices, NULL is [None]. *)
From S2P Require Import Prelude KScatter.

Record kfio_dma_map := mk_dmap {
  map_offset : Z; map_length : Z; sge_count : Z; sge_skip : Z; sge_trunc : Z;   (* uint32_t *)
  sge_first : option Z; sge_last : option Z
}.

(** [struct linux_dma_cookie]: the device is the kernel's. *)
Record linux_dma_cookie := mk_cookie { pci_dev : Z; pci_dir : Z }.

Definition IODRIVE_DMA_DIR_WRITE : Z := 0.
Definition IODRIVE_DMA_DIR_READ : Z := 1.

Definition kfio_dma_cookie_create (pcidev : Z) : linux_dma_cookie * Z := (mk_cookie pcidev (-1), 0).

(** [kfio_dma_map_alloc], when the allocation succeeds: zeroed. *)
Definition kfio_dma_map_alloc : kfio_dma_map := mk_dmap 0 0 0 0 0 None None.

(** ** Mapping and unmapping *)

Section dma_map.
(** [dma_map_sg]: the number of entries mapped, and the entries with their
    DMA addresses. *)
Context (dma_map_sg : list scatterlist → Z → Z * list scatterlist).

Fixpoint mark_loop (n : nat) (i : Z) (dir : Z) (lsg : linux_sgl) : outcome linux_sgl :=
  match n with
  | O => Ok lsg
  | S n =>
      lsg ← (if dir =? IODRIVE_DMA_DIR_READ
             then sge_update i (λ e, mk_sge (Z.lor (sge_flags e) SGE_READ_MAPPED) (sge_current e)) lsg
             else Ok lsg);
      mark_loop n (i + 1) dir lsg
  end.

Definition kfio_sgl_dma_unmap (lsg : linux_sgl) (cookie : linux_dma_cookie) :
    linux_sgl * linux_dma_cookie * Z :=
  (set_num_mapped 0 lsg, mk_cookie (pci_dev cookie) (-1), 0).

(** [dmap]: [None] when the caller passes NULL. *)
Definition kfio_sgl_dma_map (lsg : linux_sgl) (cookie : linux_dma_cookie)
    (dmap : option kfio_dma_map) (dir : Z) :
    outcome (linux_sgl * linux_dma_cookie * option kfio_dma_map * Z) :=
  let cookie := mk_cookie (pci_dev cookie) dir in
  lsg ← mark_loop (Z.to_nat (num_entries lsg)) 0 dir lsg;
  let '(i, sl') := dma_map_sg (sl lsg) (num_entries lsg) in
  let lsg := mk_sgl (max_entries lsg) (num_entries lsg) (u32 i) (sgl_size lsg) (sge lsg) sl' in
  if u32 i <? num_entries lsg then
    let '(lsg, cookie, _) := kfio_sgl_dma_unmap lsg cookie in
    Ok (lsg, cookie, dmap, - EINVAL)
  else
    let dmap := match dmap with
                | None => None
                | Some _ => Some (mk_dmap 0 (sgl_size lsg) (num_mapped lsg) 0 0 (Some 0)
                                    (Some (u32 (num_mapped lsg - 1))))
                end in
    Ok (lsg, cookie, dmap, s32 (num_mapped lsg)).
End dma_map.

(** ** Slices *)

(** The first loop: the entry that holds byte [offset]; [n] entries left. *)
Fixpoint slice_find (n : nat) (i : Z) (offset : Z) (lsg : linux_sgl) (dmap : kfio_dma_map) :
    outcome (Z * kfio_dma_map) :=
  match n with
  | O => Ok (i, dmap)
  | S n =>
      s ← sl_at lsg i;
      if offset <? sl_length s
      then Ok (i, mk_dmap (map_offset dmap) (u32 (sl_length s - offset)) 1 offset (sge_trunc dmap)
                    (Some i) (Some i))
      else slice_find n (i + 1) (u32 (offset - sl_length s)) lsg dmap
  end.

(** The second loop: [n] passes left, [i] the next entry. *)
Fixpoint slice_extend (n : nat) (i : Z) (length : Z) (lsg : linux_sgl) (dmap : kfio_dma_map) :
    outcome kfio_dma_map :=
  match n with
  | O => Ok dmap
  | S n =>
      if map_length dmap >=? length then
        let trunc := u32 (map_length dmap - length) in
        Ok (mk_dmap (map_offset dmap) (u32 (map_length dmap - trunc)) (sge_count dmap) (sge_skip dmap)
              trunc (sge_first dmap) (sge_last dmap))
      else
        s ← sl_at lsg i;
        slice_extend n (i + 1) length lsg
          (mk_dmap (map_offset dmap) (u32 (map_length dmap + sl_length s)) (u32 (sge_count dmap + 1))
             (sge_skip dmap) (sge_trunc dmap) (sge_first dmap) (Some i))
  end.

Definition kfio_sgl_dma_slice (lsg : linux_sgl) (dmap : kfio_dma_map) (offset length : Z) :
    outcome (kfio_dma_map * Z) :=
  let dmap := mk_dmap offset (map_length dmap) (sge_count dmap) (sge_skip dmap) (sge_trunc dmap)
                (sge_first dmap) (sge_last dmap) in
  '(i, dmap) ← slice_find (Z.to_nat (num_mapped lsg)) 0 offset lsg dmap;
  dmap ← slice_extend (Z.to_nat (num_mapped lsg - i)) (i + 1) length lsg dmap;
  Ok (dmap, 0).

Definition kfio_dma_map_nvecs (dmap : kfio_dma_map) : Z := s32 (sge_count dmap).
Definition kfio_dma_map_size (dmap : kfio_dma_map) : Z := map_length dmap.

(** ** Enumerating the segments *)

(** [struct kfio_sgl_phys]; the iterator is an index. *)
Record kfio_sgl_phys := mk_phys { addr : Z; len : Z }.

#[global] Instance kfio_sgl_phys_eq_dec : EqDecision kfio_sgl_phys.
Proof. solve_decision. Defined.

Definition kfio_dma_map_first (lsg : linux_sgl) (dmap : kfio_dma_map) :
    outcome (option (Z * kfio_sgl_phys)) :=
  match sge_first dmap with
  | None => Ok None
  | Some i =>
      s ← sl_at lsg i;
      let n := u32 (sl_length s - sge_skip dmap) in
      let n := if decide (Some i = sge_last dmap) then u32 (n - sge_trunc dmap) else n in
      Ok (Some (i, mk_phys (u64 (sl_dma s + sge_skip dmap)) n))
  end.

Definition kfio_dma_map_next (lsg : linux_sgl) (dmap : kfio_dma_map) (iter : Z) :
    outcome (option (Z * kfio_sgl_phys)) :=
  match sge_first dmap, sge_last dmap with
  | Some first, Some last =>
      if (first <=? iter) && (iter <? last) then
        let i := iter + 1 in
        s ← sl_at lsg i;
        let n := sl_length s in
        let n := if decide (i = last) then u32 (n - sge_trunc dmap) else n in
        Ok (Some (i, mk_phys (u64 (sl_dma s)) n))
      else Ok None
  | _, _ => Ok None
  end.

(** The loop every user of a DMA map runs: [first], then [next] until NULL. *)
Fixpoint next_segments (fuel : nat) (lsg : linux_sgl) (dmap : kfio_dma_map) (iter : Z) :
    outcome (list kfio_sgl_phys) :=
  match fuel with
  | O => Fault NoFuel
  | S fuel =>
      r ← kfio_dma_map_next lsg dmap iter;
      match r with
      | None => Ok []
      | Some (iter, seg) => rest ← next_segments fuel lsg dmap iter; Ok (seg :: rest)
      end
  end.

Definition segments (fuel : nat) (lsg : linux_sgl) (dmap : kfio_dma_map) : outcome (list kfio_sgl_phys) :=
  r ← kfio_dma_map_first lsg dmap;
  match r with
  | None => Ok []
  | Some (iter, seg) => rest ← next_segments fuel lsg dmap iter; Ok (seg :: rest)
  end.

(** ** Byte access *)

Section byte_pointer.
(** [page_address] *)
Context (page_address : Z → Z).

Definition kfio_sgl_get_vaddr (s : scatterlist) : Z := u64 (page_address (sl_page s) + sl_offset s).

Fixpoint byte_pointer_loop (n : nat) (i : Z) (total_offset offset : Z) (lsg : linux_sgl) : outcome Z :=
  match n with
  | O => Ok 0
  | S n =>
      s ← sl_at lsg i;
      if offset <? u32 (total_offset + sl_length s)
      then Ok (u64 (kfio_sgl_get_vaddr s + u32 (offset - total_offset)))
      else byte_pointer_loop n (i + 1) (u32 (total_offset + sl_length s)) offset lsg
  end.

(** The address of byte [offset], 0 on error. *)
Definition kfio_sgl_get_byte_pointer (lsg : linux_sgl) (offset : Z) : outcome Z :=
  byte_pointer_loop (Z.to_nat (num_entries lsg)) 0 0 offset lsg.
End byte_pointer.

(** ** Entries one after the other *)

(** [n] consecutive numbers from [a]: the addresses of a segment. *)
Definition run_of (a n : Z) : list Z := (λ k, a + Z.of_nat k) <$> seq 0 (Z.to_nat n).

Lemma length_run_of a n : length (run_of a n) = Z.to_nat n.
Proof. unfold run_of. by rewrite length_fmap, length_seq. Qed.

Lemma run_of_app a m n : 0 <= m → 0 <= n → run_of a (m + n) = run_of a m ++ run_of (a + m) n.
Proof.
  intros Hm Hn. unfold run_of. rewrite Z2Nat.inj_add, seq_app, fmap_app by done. f_equal.
  rewrite (Nat.add_comm 0), <- fmap_add_seq, <- list_fmap_compose.
  apply list_fmap_ext. intros _ k _. simpl. lia.
Qed.

(** A part of a run. *)
Lemma run_of_part a l skip n :
  0 <= skip → 0 <= n → skip + n <= l →
  run_of (a + skip) n = take (Z.to_nat n) (drop (Z.to_nat skip) (run_of a l)).
Proof.
  intros Hs Hn Hl. replace l with (skip + (n + (l - skip - n))) by lia.
  rewrite !run_of_app by lia.
  rewrite drop_app_length' by (by rewrite length_run_of).
  by rewrite take_app_length' by (by rewrite length_run_of).
Qed.

(** What the hardware sees of an entry, of a list of entries, of a map. *)
Definition dma_bytes (s : scatterlist) : list Z := run_of (sl_dma s) (sl_length s).
Definition seg_bytes (p : kfio_sgl_phys) : list Z := run_of (addr p) (len p).

Definition mapped (lsg : linux_sgl) : list scatterlist := take (Z.to_nat (num_mapped lsg)) (sl lsg).
Definition total (ss : list scatterlist) : Z := zsum sl_length ss.

(** The mapped part of the list makes sense: lengths are 32-bit, addresses do
    not wrap, the total is below 2^32. *)
Record mapped_ok (lsg : linux_sgl) : Prop := {
  mo_num : 0 <= num_mapped lsg <= Z.of_nat (length (sl lsg));
  mo_entry s : s ∈ mapped lsg → 0 <= sl_length s ∧ 0 <= sl_dma s ∧ sl_dma s + sl_length s < 2 ^ 64;
  mo_total : total (mapped lsg) < 2 ^ 32;
  mo_max : num_mapped lsg < 2 ^ 32
}.

Lemma mapped_at lsg i :
  mapped_ok lsg → 0 <= i < num_mapped lsg →
  ∃ s, mapped lsg !! Z.to_nat i = Some s ∧ sl_at lsg i = Ok s
       ∧ 0 <= sl_length s ∧ 0 <= sl_dma s ∧ sl_dma s + sl_length s < 2 ^ 64.
Proof.
  intros [Hn He _ _] Hi.
  destruct (lookup_lt_is_Some_2 (sl lsg) (Z.to_nat i)) as [s Hs]; [lia|].
  assert (mapped lsg !! Z.to_nat i = Some s) as Hm.
  { unfold mapped. by rewrite lookup_take_lt by lia. }
  exists s. split; [done|]. split; [|by apply He; eapply list_elem_of_lookup_2].
  unfold sl_at. destruct (0 <=? i) eqn:E; [|lia]. by rewrite Hs.
Qed.

(** *** The byte pointer *)

Lemma byte_pointer_loop_spec page_address n i lsg offset tot :
  sgl_wf lsg → (∀ s, s ∈ used lsg → 0 <= sl_length s) → 0 <= i →
  i + Z.of_nat n = num_entries lsg →
  tot = total (take (Z.to_nat i) (used lsg)) → total (used lsg) < 2 ^ 32 →
  0 <= tot <= offset → offset < 2 ^ 32 →
  byte_pointer_loop page_address n i tot offset lsg
  = Ok (match concat (sl_bytes <$> drop (Z.to_nat i) (used lsg)) !! Z.to_nat (offset - tot) with
        | Some (p, o) => u64 (page_address p + o)
        | None => 0
        end).
Proof.
  change (2 ^ 32) with 4294967296.
  intros Hwf Hpos. revert i tot. induction n as [|n IH]; intros i tot Hi Hn Ht Htot Ho Hmax.
  { simpl. rewrite drop_ge; [done|]. unfold used. rewrite length_take. lia. }
  pose proof (wf_num _ Hwf). pose proof (wf_sl _ Hwf).
  destruct (lookup_lt_is_Some_2 (sl lsg) (Z.to_nat i)) as [s Hs]; [lia|].
  assert (used lsg !! Z.to_nat i = Some s) as Hu.
  { unfold used. by rewrite lookup_take_lt by lia. }
  pose proof (Hpos s ltac:(by eapply list_elem_of_lookup_2)) as Hlen.
  assert (total (take (S (Z.to_nat i)) (used lsg)) = tot + sl_length s) as Hstep.
  { rewrite (take_S_r _ _ _ Hu). unfold total. rewrite zsum_app. simpl. subst tot. unfold total. lia. }
  assert (tot + sl_length s <= total (used lsg)) as Hle.
  { rewrite <- Hstep. unfold total.
    rewrite <- (take_drop (S (Z.to_nat i)) (used lsg)) at 2. rewrite zsum_app.
    assert (0 <= zsum sl_length (drop (S (Z.to_nat i)) (used lsg))); [|lia].
    assert (∀ l, (∀ s, s ∈ l → 0 <= sl_length s) → 0 <= zsum sl_length l) as Hnn.
    { induction l as [|a l IHl]; intros Hl; simpl; [lia|].
      pose proof (Hl a ltac:(by left)). pose proof (IHl ltac:(intros; apply Hl; by right)). lia. }
    apply Hnn. intros s' Hs'. apply Hpos. rewrite <- (take_drop (S (Z.to_nat i)) (used lsg)).
    apply elem_of_app. by right. }
  simpl. unfold sl_at. destruct (0 <=? i) eqn:E; [|lia]. rewrite Hs. simpl.
  rewrite (wrapu_small 32 (tot + _)) by (unfold in_u; lia).
  rewrite (drop_S _ _ _ Hu). simpl. destruct (offset <? tot + sl_length s) eqn:Elt.
  - rewrite lookup_app_l by (rewrite length_sl_bytes; lia).
    unfold sl_bytes. rewrite list_lookup_fmap, lookup_seq_lt by lia. simpl.
    rewrite (wrapu_small 32 (offset - tot)) by (unfold in_u; lia).
    unfold kfio_sgl_get_vaddr. rewrite wrapu_add by lia. do 2 f_equal. lia.
  - rewrite lookup_app_r by (rewrite length_sl_bytes; lia).
    rewrite length_sl_bytes.
    rewrite (IH (i + 1) (tot + sl_length s)); [|lia|lia| |lia|lia|lia].
    + replace (Z.to_nat (i + 1)) with (S (Z.to_nat i)) by lia.
      by replace (Z.to_nat (offset - tot) - Z.to_nat (sl_length s))%nat
        with (Z.to_nat (offset - (tot + sl_length s))) by lia.
    + by replace (Z.to_nat (i + 1)) with (S (Z.to_nat i)) by lia.
Qed.

(** [kfio_sgl_get_byte_pointer] returns the address of the byte that the
    list has at the given offset, and NULL exactly when the offset is beyond
    the list. *)
Theorem byte_pointer_exact page_address lsg offset :
  sgl_wf lsg → (∀ s, s ∈ used lsg → 0 <= sl_length s) → total (used lsg) < 2 ^ 32 →
  in_u 32 offset →
  kfio_sgl_get_byte_pointer page_address lsg offset
  = Ok (match sgl_bytes lsg !! Z.to_nat offset with
        | Some (p, o) => u64 (page_address p + o)
        | None => 0
        end).
Proof.
  intros Hwf Hpos Htot Ho. unfold in_u in Ho. pose proof (wf_num _ Hwf).
  unfold kfio_sgl_get_byte_pointer, sgl_bytes.
  rewrite (byte_pointer_loop_spec _ _ 0 lsg offset 0); try done; try lia.
  by rewrite Z.sub_0_r.
Qed.

(** *** Slices *)

Section slices.
Context (lsg : linux_sgl) (Hok : mapped_ok lsg).
Let L := mapped lsg.

(** The bytes of [n] entries from entry [a], and their number. *)
Definition seg_total (a n : nat) : Z := total (take n (drop a L)).
Definition from (a : nat) : list Z := concat (dma_bytes <$> drop a L).

Lemma entry_at i :
  (i < Z.to_nat (num_mapped lsg))%nat →
  ∃ s, L !! i = Some s ∧ sl_at lsg (Z.of_nat i) = Ok s
       ∧ 0 <= sl_length s ∧ 0 <= sl_dma s ∧ sl_dma s + sl_length s < 2 ^ 64
       ∧ from i = dma_bytes s ++ from (S i)
       ∧ (∀ n, seg_total i (S n) = sl_length s + seg_total (S i) n).
Proof.
  intros Hi. destruct (mapped_at lsg (Z.of_nat i) Hok) as (s & Hs & Ha & H1 & H2 & H3); [lia|].
  rewrite Nat2Z.id in Hs. fold L in Hs. exists s. split_and!; try done.
  - unfold from. by rewrite (drop_S _ _ _ Hs).
  - intros n. unfold seg_total. by rewrite (drop_S _ _ _ Hs).
Qed.

Lemma length_L : length L = Z.to_nat (num_mapped lsg).
Proof. unfold L, mapped. rewrite length_take. destruct Hok. lia. Qed.

Lemma seg_total_nonneg a n : 0 <= seg_total a n.
Proof.
  unfold seg_total, total.
  assert (∀ s, s ∈ take n (drop a L) → 0 <= sl_length s) as Hp.
  { intros s Hs. apply (mo_entry _ Hok). fold L. rewrite <- (take_drop a L), elem_of_app. right.
    rewrite <- (take_drop n (drop a L)), elem_of_app. by left. }
  revert Hp. generalize (take n (drop a L)). intros l. induction l as [|x l IH]; intros Hp; simpl; [lia|].
  pose proof (Hp x ltac:(by left)). pose proof (IH ltac:(intros; apply Hp; by right)). lia.
Qed.

Lemma seg_total_snoc a n s :
  L !! (a + n)%nat = Some s → seg_total a (S n) = seg_total a n + sl_length s.
Proof.
  intros Hs. unfold seg_total, total. rewrite (take_S_r _ _ s) by (by rewrite lookup_drop).
  rewrite zsum_app. simpl. lia.
Qed.

Lemma seg_total_app a m n : seg_total a (m + n) = seg_total a m + seg_total (a + m) n.
Proof.
  unfold seg_total, total. rewrite <- zsum_app. f_equal.
  rewrite <- (drop_drop L m a). symmetry. apply take_take_drop.
Qed.

Lemma seg_total_bound a n : seg_total a n < 2 ^ 32.
Proof.
  eapply Z.le_lt_trans; [|apply (mo_total _ Hok)]. fold L. unfold seg_total, total.
  rewrite <- (take_drop a L) at 2. rewrite zsum_app. rewrite <- (take_drop n (drop a L)) at 2.
  rewrite zsum_app. pose proof (seg_total_nonneg 0 a) as H1.
  pose proof (seg_total_nonneg (a + n) (length L)) as H2. unfold seg_total, total in *.
  rewrite drop_0 in H1. rewrite <- (drop_drop L n a) in H2. rewrite (take_ge (drop n (drop a L))) in H2; [lia|].
  rewrite !length_drop. lia.
Qed.

Lemma seg_total_all a : seg_total a (Z.to_nat (num_mapped lsg) - a) = total (drop a L).
Proof. unfold seg_total. by rewrite take_ge by (rewrite length_drop, length_L; lia). Qed.

Lemma length_dma_bytes s : length (dma_bytes s) = Z.to_nat (sl_length s).
Proof. apply length_run_of. Qed.

Lemma slice_find_spec n i offset d :
  (i + n = Z.to_nat (num_mapped lsg))%nat → 0 <= offset < seg_total i n →
  ∃ j skip s, slice_find n (Z.of_nat i) offset lsg d
      = Ok (Z.of_nat j, mk_dmap (map_offset d) (sl_length s - skip) 1 skip (sge_trunc d)
                          (Some (Z.of_nat j)) (Some (Z.of_nat j)))
    ∧ (i <= j < Z.to_nat (num_mapped lsg))%nat ∧ L !! j = Some s ∧ 0 <= skip < sl_length s
    ∧ drop (Z.to_nat offset) (from i) = drop (Z.to_nat skip) (from j)
    ∧ seg_total j (Z.to_nat (num_mapped lsg) - j) - skip = seg_total i n - offset.
Proof.
  revert i offset. induction n as [|n IH]; intros i offset Hn Ho.
  { unfold seg_total in Ho. simpl in Ho. lia. }
  destruct (entry_at i) as (s & Hs & Ha & H1 & H2 & H3 & Hf & Ht); [lia|].
  rewrite Ht in Ho. simpl. rewrite Ha. simpl.
  pose proof (seg_total_bound i (S n)) as Hb. rewrite Ht in Hb.
  pose proof (seg_total_nonneg (S i) n) as Hnn. change (2 ^ 32) with 4294967296 in Hb.
  destruct (offset <? sl_length s) eqn:E.
  - exists i, offset, s. rewrite wrapu_small by (unfold in_u; change (2 ^ 32) with 4294967296; lia).
    split_and!; try done; try lia.
    by replace (Z.to_nat (num_mapped lsg) - i)%nat with (S n) by lia.
  - rewrite wrapu_small by (unfold in_u; change (2 ^ 32) with 4294967296; lia).
    replace (Z.of_nat i + 1) with (Z.of_nat (S i)) by lia.
    destruct (IH (S i) (offset - sl_length s)) as (j & skip & s' & -> & Hj & Hs' & Hk & Hd & Htt);
      [lia|lia|].
    exists j, skip, s'. rewrite Ht. split_and!; try done; try lia.
    rewrite <- Hd, Hf.
    replace (Z.to_nat offset) with (length (dma_bytes s) + Z.to_nat (offset - sl_length s))%nat
      by (rewrite length_dma_bytes; lia).
    by rewrite drop_app_add.
Qed.

(** The map once [p] entries from [j] are in it. *)
Lemma slice_extend_spec n j p skip len d sp :
  (j + p + n = S (Z.to_nat (num_mapped lsg)))%nat → (0 < p)%nat →
  L !! (j + p - 1)%nat = Some sp →
  d = mk_dmap (map_offset d) (seg_total j p - skip) (Z.of_nat p) skip (sge_trunc d)
        (Some (Z.of_nat j)) (Some (Z.of_nat (j + p - 1))) →
  (p = 1%nat ∨ seg_total j p - skip - sl_length sp < len) →
  0 <= skip <= seg_total j 1 → 0 <= len <= seg_total j (Z.to_nat (num_mapped lsg) - j) - skip →
  ∃ q trunc sq, slice_extend n (Z.of_nat (j + p)) len lsg d
      = Ok (mk_dmap (map_offset d) len (Z.of_nat q) skip trunc
              (Some (Z.of_nat j)) (Some (Z.of_nat (j + q - 1))))
    ∧ (p <= q)%nat ∧ (j + q <= Z.to_nat (num_mapped lsg))%nat
    ∧ L !! (j + q - 1)%nat = Some sq ∧ 0 <= trunc
    ∧ (if decide (q = 1%nat) then skip + trunc <= sl_length sq else trunc <= sl_length sq)
    ∧ seg_total j q - skip - trunc = len.
Proof.
  revert p d sp. induction n as [|n IH]; intros p d sp Hn Hp Hsp Hd Hlast Hskip Hlen.
  { exfalso. apply lookup_lt_Some in Hsp. rewrite length_L in Hsp. lia. }
  pose proof (seg_total_bound j p) as Hb. change (2 ^ 32) with 4294967296 in Hb.
  assert (skip <= seg_total j p) as Hsp'.
  { replace p with (1 + (p - 1))%nat by lia. rewrite seg_total_app.
    pose proof (seg_total_nonneg (j + 1) (p - 1)). lia. }
  simpl. destruct (map_length d >=? len) eqn:E; rewrite Hd in E; simpl in E.
  - exists p, (seg_total j p - skip - len), sp. rewrite Hd. simpl.
    rewrite (wrapu_small 32 (_ - len)) by (unfold in_u; change (2 ^ 32) with 4294967296; lia).
    rewrite (wrapu_small 32) by (unfold in_u; change (2 ^ 32) with 4294967296; lia).
    split; [do 2 f_equal; lia|]. apply lookup_lt_Some in Hsp as Hlt. rewrite length_L in Hlt.
    split_and!; try done; try lia. case_decide as Hp1.
    + subst p. assert (seg_total j 1 = sl_length sp) as ->; [|lia].
      rewrite (seg_total_snoc j 0 sp); [unfold seg_total; simpl; lia|].
      by replace (j + 1 - 1)%nat with (j + 0)%nat in Hsp by lia.
    + destruct Hlast; [done|lia].
  - assert (j + p < Z.to_nat (num_mapped lsg))%nat as Hlt.
    { destruct (decide (j + p = Z.to_nat (num_mapped lsg))%nat) as [Ee|]; [|lia].
      exfalso. replace (Z.to_nat (num_mapped lsg) - j)%nat with p in Hlen by lia. lia. }
    destruct (entry_at (j + p) Hlt) as (s & Hs & Ha & H1 & _). rewrite Ha. simpl.
    pose proof (seg_total_snoc j p s Hs) as Hsn.
    pose proof (seg_total_bound j (S p)) as Hb'. change (2 ^ 32) with 4294967296 in Hb'.
    replace (Z.of_nat (j + p) + 1) with (Z.of_nat (j + S p)) by lia.
    pose proof (mo_max _ Hok) as Hmax. change (2 ^ 32) with 4294967296 in Hmax.
    destruct (IH (S p) (mk_dmap (map_offset d) (seg_total j (S p) - skip) (Z.of_nat (S p)) skip
                          (sge_trunc d) (Some (Z.of_nat j)) (Some (Z.of_nat (j + S p - 1)))) s)
      as (q & trunc & sq & Eq & Hq & Hrest); try done; try lia.
    { by replace (j + S p - 1)%nat with (j + p)%nat by lia. }
    cbn [map_offset] in Eq. exists q, trunc, sq. split; [|split; [lia|done]]. rewrite <- Eq. f_equal.
    rewrite Hd. cbn [map_offset map_length sge_count sge_skip sge_trunc sge_first sge_last].
    rewrite (wrapu_small 32 (seg_total j p - skip + sl_length s)) by
      (unfold in_u; change (2 ^ 32) with 4294967296; lia).
    rewrite (wrapu_small 32 (Z.of_nat p + 1)) by (unfold in_u; change (2 ^ 32) with 4294967296; lia).
    f_equal; [lia..|]. f_equal. lia.
Qed.
End slices.

(** *** Enumerating a map *)

Section enumerate.
Context (lsg : linux_sgl) (Hok : mapped_ok lsg).
Context (mo ml count skip trunc : Z) (j q : nat) (sq : scatterlist).
Let L := mapped lsg.
Let dmap := mk_dmap mo ml count skip trunc (Some (Z.of_nat j)) (Some (Z.of_nat (j + q - 1))).
Hypothesis Hq : (0 < q)%nat.
Hypothesis Hend : (j + q <= Z.to_nat (num_mapped lsg))%nat.
Hypothesis Hlast : L !! (j + q - 1)%nat = Some sq.
Hypothesis Htrunc : 0 <= trunc.
Hypothesis Hcut : if decide (q = 1%nat) then skip + trunc <= sl_length sq else trunc <= sl_length sq.

Lemma take_from i n : 0 <= n → (i < Z.to_nat (num_mapped lsg))%nat →
  ∀ s, L !! i = Some s → n <= sl_length s →
  take (Z.to_nat n) (from lsg i) = run_of (sl_dma s) n.
Proof.
  intros Hn Hi s Hs Hle. destruct (entry_at lsg Hok i Hi) as (s' & Hs' & _ & H1 & _ & _ & -> & _).
  fold L in Hs'. simplify_eq.
  rewrite take_app_le by (rewrite length_dma_bytes; lia).
  unfold dma_bytes. pose proof (run_of_part (sl_dma s) (sl_length s) 0 n) as E.
  rewrite Z.add_0_r in E. rewrite E by lia. done.
Qed.

(** From the [p]-th entry of the map on, [p] being past the first. *)
Lemma next_segments_spec fuel p :
  (p < q)%nat → (q - p <= fuel)%nat →
  ∃ segs, next_segments fuel lsg dmap (Z.of_nat (j + p)) = Ok segs
    ∧ length segs = (q - p - 1)%nat
    ∧ concat (seg_bytes <$> segs)
      = if decide (p = (q - 1)%nat) then []
        else take (Z.to_nat (seg_total lsg (j + S p) (q - p - 1) - trunc)) (from lsg (j + S p)).
Proof.
  revert p. induction fuel as [|fuel IH]; intros p Hp Hf; [lia|]. simpl. unfold kfio_dma_map_next.
  simpl. destruct (decide (p = (q - 1)%nat)) as [->|Hne].
  { replace (j + (q - 1))%nat with (j + q - 1)%nat by lia.
    destruct (_ && _) eqn:E; [lia|]. exists []. simpl. split_and!; [done|lia|done]. }
  destruct (_ && _) eqn:E; [|apply andb_false_iff in E as [E%Z.leb_gt|E%Z.ltb_ge]; lia].
  replace (Z.of_nat (j + p) + 1) with (Z.of_nat (j + S p)) by lia.
  destruct (entry_at lsg Hok (j + S p)) as (s & Hs & Ha & H1 & H2 & H3 & Hfr & Ht); [lia|].
  fold L in Hs. rewrite Ha. simpl.
  assert (u64 (sl_dma s) = sl_dma s) as ->.
  { apply wrapu_small. unfold in_u. lia. }
  pose proof (seg_total_bound lsg Hok (j + S p) 1) as Hb. rewrite Ht in Hb.
  unfold seg_total in Hb at 1. simpl in Hb. change (2 ^ 32) with 4294967296 in Hb.
  destruct (IH (S p)) as (segs & -> & Hl & Hbytes); [lia|lia|]. simpl.
  eexists. split; [done|]. split; [simpl; lia|]. rewrite fmap_cons, concat_cons, Hbytes. unfold seg_bytes. simpl.
  replace (q - p - 1)%nat with (S (q - S p - 1)) by lia. rewrite Ht.
  destruct (decide (S p = (q - 1)%nat)) as [Hlst|Hnl].
  - rewrite decide_True by lia. rewrite app_nil_r.
    assert (s = sq) as -> by (replace (j + q - 1)%nat with (j + S p)%nat in Hlast by lia; congruence).
    rewrite decide_False in Hcut by lia.
    rewrite wrapu_small by (unfold in_u; change (2 ^ 32) with 4294967296; lia).
    replace (q - S p - 1)%nat with 0%nat by lia.
    assert (seg_total lsg (S (j + S p)) 0 = 0) as -> by done. rewrite Z.add_0_r.
    symmetry. apply take_from; [lia|lia|done|lia].
  - rewrite decide_False by lia. rewrite Hfr.
    replace (S (j + S p)) with (j + S (S p))%nat by lia.
    assert (trunc <= seg_total lsg (j + S (S p)) (q - S p - 1)) as Htr.
    { rewrite decide_False in Hcut by lia.
      replace (q - S p - 1)%nat with (S (q - S p - 2)) by lia.
      rewrite (seg_total_snoc lsg _ _ sq).
      - pose proof (seg_total_nonneg lsg Hok (j + S (S p)) (q - S p - 2)). lia.
      - fold L. by replace (j + S (S p) + (q - S p - 2))%nat with (j + q - 1)%nat by lia. }
    replace (Z.to_nat (sl_length s + seg_total lsg (j + S (S p)) (q - S p - 1) - trunc))
      with (length (dma_bytes s) + Z.to_nat (seg_total lsg (j + S (S p)) (q - S p - 1) - trunc))%nat
      by (rewrite length_dma_bytes; lia).
    by rewrite take_app_add.
Qed.

Lemma segments_spec fuel :
  0 <= skip → skip <= seg_total lsg j 1 → (q <= fuel)%nat →
  ∃ segs, segments fuel lsg dmap = Ok segs ∧ length segs = q
    ∧ concat (seg_bytes <$> segs)
      = take (Z.to_nat (seg_total lsg j q - skip - trunc)) (drop (Z.to_nat skip) (from lsg j)).
Proof.
  intros Hs0 Hs1 Hf. unfold segments, kfio_dma_map_first. simpl.
  destruct (entry_at lsg Hok j) as (s & Hs & Ha & H1 & H2 & H3 & Hfr & Ht); [lia|].
  fold L in Hs. rewrite Ha. simpl.
  pose proof (seg_total_bound lsg Hok j 1) as Hb. rewrite Ht in Hb, Hs1.
  unfold seg_total in Hb at 1, Hs1 at 1. simpl in Hb, Hs1. change (2 ^ 32) with 4294967296 in Hb.
  assert (u64 (sl_dma s + skip) = sl_dma s + skip) as ->.
  { apply wrapu_small. unfold in_u. lia. }
  rewrite (wrapu_small 32 (sl_length s - skip)) by (unfold in_u; change (2 ^ 32) with 4294967296; lia).
  destruct (next_segments_spec fuel 0) as (segs & Hn & Hl & Hbytes); [lia|lia|].
  rewrite Nat.add_0_r in Hn. rewrite Hn. simpl. eexists. split; [done|].
  split; [simpl; lia|]. rewrite fmap_cons, concat_cons, Hbytes. unfold seg_bytes. simpl. rewrite Hfr.
  rewrite drop_app_le by (rewrite length_dma_bytes; lia).
  destruct (decide (0 = q - 1)%nat) as [E|E].
  - assert (q = 1%nat) as -> by lia. rewrite decide_True by (do 2 f_equal; lia).
    rewrite decide_True in Hcut by done.
    assert (s = sq) as -> by (replace (j + 1 - 1)%nat with j in Hlast by lia; congruence).
    rewrite wrapu_small by (unfold in_u; change (2 ^ 32) with 4294967296; lia).
    rewrite app_nil_r, Ht. assert (seg_total lsg (S j) 0 = 0) as -> by done. rewrite Z.add_0_r.
    rewrite take_app_le by (rewrite length_drop, length_dma_bytes; lia).
    apply run_of_part; lia.
  - rewrite decide_False by (intros [= Eq]; lia). rewrite decide_False in Hcut by lia.
    replace (j + 1)%nat with (S j) by lia. replace (q - 0 - 1)%nat with (q - 1)%nat by lia.
    replace q with (S (q - 1)) at 2 by lia. rewrite Ht.
    assert (trunc <= seg_total lsg (S j) (q - 1)) as Htr.
    { replace (q - 1)%nat with (S (q - 2)) by lia. rewrite (seg_total_snoc lsg _ _ sq).
      - pose proof (seg_total_nonneg lsg Hok (S j) (q - 2)). lia.
      - fold L. by replace (S j + (q - 2))%nat with (j + q - 1)%nat by lia. }
    replace (Z.to_nat (sl_length s + seg_total lsg (S j) (q - 1) - skip - trunc))
      with (length (drop (Z.to_nat skip) (dma_bytes s))
            + Z.to_nat (seg_total lsg (S j) (q - 1) - trunc))%nat
      by (rewrite length_drop, length_dma_bytes; lia).
    rewrite take_app_add. f_equal.
    rewrite (run_of_part _ (sl_length s)) by lia.
    apply take_ge. rewrite length_drop, ?length_run_of, ?length_dma_bytes. lia.
Qed.
End enumerate.

(** C16: A slice of a mapped list, enumerated with [first] and [next], gives the
    hardware exactly the bytes [offset] .. [offset + length - 1] of the list's
    DMA addresses, in order; the enumeration ends after [sge_count] segments
    and the map's size is the length asked for. *)
Theorem dma_slice_exact lsg dmap offset length fuel :
  mapped_ok lsg → 0 <= offset → 0 <= length → offset < total (mapped lsg) →
  offset + length <= total (mapped lsg) → num_mapped lsg <= Z.of_nat fuel → num_mapped lsg < 2 ^ 31 →
  ∃ dmap' segs,
    kfio_sgl_dma_slice lsg dmap offset length = Ok (dmap', 0)
    ∧ kfio_dma_map_size dmap' = length
    ∧ segments fuel lsg dmap' = Ok segs
    ∧ Z.of_nat (List.length segs) = kfio_dma_map_nvecs dmap'
    ∧ concat (seg_bytes <$> segs)
      = take (Z.to_nat length) (drop (Z.to_nat offset) (concat (dma_bytes <$> mapped lsg))).
Proof.
  intros Hok Ho Hl Hlt Hle Hfuel Hmax. pose proof (mo_num _ Hok) as Hnum.
  assert (seg_total lsg 0 (Z.to_nat (num_mapped lsg)) = total (mapped lsg)) as Htot.
  { pose proof (seg_total_all lsg Hok 0) as E. by rewrite Nat.sub_0_r, drop_0 in E. }
  set (d0 := mk_dmap offset (map_length dmap) (sge_count dmap) (sge_skip dmap) (sge_trunc dmap)
               (sge_first dmap) (sge_last dmap)).
  destruct (slice_find_spec lsg Hok (Z.to_nat (num_mapped lsg)) 0 offset d0)
    as (j & skip & s & Efind & Hj & Hs & Hskip & Hdrop & Htj); [lia|lia|].
  assert (seg_total lsg j 1 = sl_length s) as Hj1.
  { rewrite (seg_total_snoc lsg j 0 s); [by unfold seg_total|by rewrite Nat.add_0_r]. }
  set (d1 := mk_dmap offset (sl_length s - skip) 1 skip (sge_trunc dmap) (Some (Z.of_nat j))
               (Some (Z.of_nat j))).
  destruct (slice_extend_spec lsg Hok (Z.to_nat (num_mapped lsg) - j) j 1 skip length d1 s)
    as (q & trunc & sq & Eext & Hq1 & Hq2 & Hsq & Htr & Hcut & Hlen); try lia.
  - by replace (j + 1 - 1)%nat with j by lia.
  - unfold d1. simpl. rewrite Hj1. by replace (j + 1 - 1)%nat with j by lia.
  - destruct (segments_spec lsg Hok offset length (Z.of_nat q) skip trunc j q sq) with (fuel := fuel)
      as (segs & Eseg & Hsl & Hby); try done; try lia.
    eexists _, segs. split; [|split; [|split; [exact Eseg|split]]].
    + unfold kfio_sgl_dma_slice. fold d0. change (Z.of_nat 0) with 0 in Efind. rewrite Efind. simpl.
      change (mk_dmap offset (sl_length s - skip) 1 skip _ _ _) with d1.
      replace (Z.to_nat (num_mapped lsg - Z.of_nat j)) with (Z.to_nat (num_mapped lsg) - j)%nat by lia.
      replace (Z.of_nat j + 1) with (Z.of_nat (j + 1)) by lia. rewrite Eext. done.
    + done.
    + unfold kfio_dma_map_nvecs. simpl. rewrite Hsl. symmetry. apply wraps_small; [lia|].
      unfold in_s. change (2 ^ (32 - 1)) with 2147483648. change (2 ^ 31) with 2147483648 in Hmax. lia.
    + rewrite Hby, Hlen, <- Hdrop. unfold from. by rewrite drop_0.
Qed.

(** Three entries of 300, 500 and 100 bytes, mapped at 1000, 9000 and 5000. *)
Definition mapped_sgl : linux_sgl :=
  mk_sgl 4 3 3 900 (replicate 4 (mk_sge 0 0))
    [mk_sl 7 0 300 1000; mk_sl 8 3000 500 9000; mk_sl 9 0 100 5000; mk_sl 0 0 0 0].

Lemma mapped_sgl_ok : mapped_ok mapped_sgl.
Proof.
  split; try done. intros s Hs. unfold mapped, mapped_sgl in Hs. simpl in Hs.
  rewrite !elem_of_cons, elem_of_nil in Hs. by destruct Hs as [->|[->|[->|[]]]].
Qed.

Lemma dma_slice_exact_witness :
  ∃ dmap' segs, kfio_sgl_dma_slice mapped_sgl kfio_dma_map_alloc 250 400 = Ok (dmap', 0)
    ∧ segments 3 mapped_sgl dmap' = Ok segs ∧ segs = [mk_phys 1250 50; mk_phys 9000 350].
Proof.
  destruct (dma_slice_exact mapped_sgl kfio_dma_map_alloc 250 400 3)
    as (dmap' & segs & E & _ & Es & _); try done; [exact mapped_sgl_ok|].
  exists dmap', segs. split; [exact E|]. split; [exact Es|].
  vm_compute in E. injection E as <-. vm_compute in Es. by injection Es as <-.
Defined.

Lemma byte_pointer_exact_witness :
  kfio_sgl_get_byte_pointer (λ p, p * 4096) mapped_sgl 310 = Ok (8 * 4096 + 3010).
Proof.
  rewrite (byte_pointer_exact (λ p, p * 4096) mapped_sgl 310); [reflexivity|by split| |done|done].
  intros s Hs. unfold used, mapped_sgl in Hs. simpl in Hs.
  rewrite !elem_of_cons, elem_of_nil in Hs. by destruct Hs as [->|[->|[->|[]]]].
Defined.

(** *** Mapping the whole list *)

(** [dma_map_sg] as documented: it maps a prefix of the entries, gives them bus
    addresses, and touches nothing else. *)
Definition dma_map_sg_ok (f : list scatterlist → Z → Z * list scatterlist) : Prop :=
  ∀ l n, 0 <= n →
    0 <= (f l n).1 <= n ∧ length (f l n).2 = length l
    ∧ ∀ k s, l !! k = Some s →
        ∃ d, (f l n).2 !! k = Some (mk_sl (sl_page s) (sl_offset s) (sl_length s) d).

Lemma mark_loop_spec n i dir lsg :
  sgl_wf lsg → 0 <= i → i + Z.of_nat n <= max_entries lsg →
  ∃ lsg', mark_loop n i dir lsg = Ok lsg' ∧ sgl_wf lsg' ∧ sl lsg' = sl lsg
    ∧ num_entries lsg' = num_entries lsg ∧ max_entries lsg' = max_entries lsg
    ∧ sgl_size lsg' = sgl_size lsg ∧ used lsg' = used lsg.
Proof.
  revert i lsg. induction n as [|n IH]; intros i lsg Hwf Hi Hn; [by exists lsg|]. simpl.
  destruct (dir =? IODRIVE_DMA_DIR_READ) eqn:Ed.
  - set (g := λ e : linux_sgentry, _).
    destruct (sge_update_ok i g lsg Hwf) as [lsg1 E1]; [lia|].
    destruct (sge_update_used _ _ _ _ E1) as (Eu & En & Em & Es & El & _).
    pose proof (sge_update_wf _ _ _ _ Hwf E1) as Hwf1. rewrite E1. simpl.
    destruct (IH (i + 1) lsg1 Hwf1) as (lsg' & Hl & W & A1 & A2 & A3 & A4 & A5); [lia|lia|].
    exists lsg'. rewrite Hl. split_and!; try done; congruence.
  - simpl. apply IH; [done|lia|lia].
Qed.

(** Entries that differ in their bus addresses only have the same bytes. *)
Lemma readdressed_bytes l l' n :
  length l' = length l →
  (∀ k s, l !! k = Some s → ∃ d, l' !! k = Some (mk_sl (sl_page s) (sl_offset s) (sl_length s) d)) →
  sl_bytes <$> take n l' = sl_bytes <$> take n l
  ∧ zsum sl_length (take n l') = zsum sl_length (take n l).
Proof.
  revert l' n. induction l as [|s l IH]; intros [|s' l'] n Hlen Hk; simpl in Hlen; try lia.
  { by destruct n. }
  destruct (Hk 0%nat s eq_refl) as [d Hd]. simpl in Hd. injection Hd as ->.
  destruct n as [|n]; [done|].
  destruct (IH l' n) as [E1 E2]; [lia|intros k; apply (Hk (S k))|].
  split; [exact (f_equal (cons (sl_bytes s)) E1)|]. exact (f_equal (Z.add (sl_length s)) E2).
Qed.

(** The bus addresses of a list of entries, one per byte. *)
Lemma length_concat_dma_bytes l :
  (∀ s, s ∈ l → 0 <= sl_length s) →
  0 <= zsum sl_length l ∧ length (concat (dma_bytes <$> l)) = Z.to_nat (zsum sl_length l).
Proof.
  induction l as [|x l IH]; intros Hx; [done|].
  destruct IH as [I1 I2]; [intros s Hs; apply Hx; by right|].
  pose proof (Hx x ltac:(by left)). rewrite fmap_cons, concat_cons, length_app, length_dma_bytes, I2.
  split; simpl; lia.
Qed.

(** The map of all entries, which [kfio_sgl_dma_map] sets up, enumerates to all of
    their bus addresses. *)
Lemma full_map_segments lsg size :
  mapped_ok lsg → 0 < num_mapped lsg →
  ∃ segs, segments (Z.to_nat (num_mapped lsg)) lsg
            (mk_dmap 0 size (num_mapped lsg) 0 0 (Some 0) (Some (u32 (num_mapped lsg - 1)))) = Ok segs
    ∧ concat (seg_bytes <$> segs) = concat (dma_bytes <$> mapped lsg).
Proof.
  intros Hok Hpos. pose proof (mo_max _ Hok) as Hr. change (2 ^ 32) with 4294967296 in Hr.
  pose proof (length_L lsg Hok) as Hlen. set (q := Z.to_nat (num_mapped lsg)) in *.
  destruct (lookup_lt_is_Some_2 (mapped lsg) (0 + q - 1)) as [sq Hsq]; [lia|].
  assert (∀ s, s ∈ mapped lsg → 0 <= sl_length s) as Hl by (intros s Hs; by apply (mo_entry _ Hok)).
  pose proof (Hl sq ltac:(by eapply list_elem_of_lookup_2)) as Hq.
  destruct (segments_spec lsg Hok 0 size (num_mapped lsg) 0 0 0 q sq) with (fuel := q)
    as (segs & Es & _ & Hb); try done; try lia.
  { case_decide; lia. }
  { apply (seg_total_nonneg lsg Hok). }
  exists segs. split.
  - rewrite <- Es. do 2 f_equal.
    rewrite wrapu_small by (unfold in_u; change (2 ^ 32) with 4294967296; lia). f_equal. lia.
  - rewrite Hb, drop_0, !Z.sub_0_r. unfold from, seg_total, total. rewrite !drop_0.
    apply take_ge. rewrite (proj2 (length_concat_dma_bytes _ Hl)). by rewrite take_ge by (rewrite Hlen; done).
Qed.

(** Mapping for DMA keeps the bytes of the list.  When the kernel maps
    fewer entries than there are, everything is undone and -EINVAL returned;
    otherwise the number of entries is returned and the map covers the whole
    list: its enumeration gives the bus addresses of all entries, in order. *)
Theorem dma_map_covers_list f lsg cookie d dir :
  sgl_wf lsg → dma_map_sg_ok f →
  ∃ lsg' cookie' dmap' r,
    kfio_sgl_dma_map f lsg cookie (Some d) dir = Ok (lsg', cookie', Some dmap', r)
    ∧ sgl_wf lsg' ∧ sgl_bytes lsg' = sgl_bytes lsg
    ∧ if (f (sl lsg) (num_entries lsg)).1 <? num_entries lsg
      then r = - EINVAL ∧ num_mapped lsg' = 0 ∧ dmap' = d ∧ pci_dir cookie' = -1
      else r = num_entries lsg ∧ num_mapped lsg' = num_entries lsg ∧ pci_dir cookie' = dir
           ∧ kfio_dma_map_size dmap' = kfio_sgl_size lsg
           ∧ (mapped_ok lsg' → 0 < num_entries lsg →
              ∃ segs, segments (Z.to_nat (num_entries lsg)) lsg' dmap' = Ok segs
                ∧ concat (seg_bytes <$> segs) = concat (dma_bytes <$> mapped lsg')).
Proof.
  intros Hwf Hf. pose proof (wf_num _ Hwf) as Hnum. pose proof (wf_max _ Hwf) as Hmax.
  change (2 ^ 31) with 2147483648 in Hmax.
  destruct (mark_loop_spec (Z.to_nat (num_entries lsg)) 0 dir lsg Hwf)
    as (lsg1 & E1 & Hwf1 & A1 & A2 & A3 & A4 & A5); [lia|lia|].
  unfold kfio_sgl_dma_map. rewrite E1. simpl. rewrite A1, A2.
  destruct (Hf (sl lsg) (num_entries lsg)) as (Hc & Hlen & Hsame); [lia|].
  destruct (f (sl lsg) (num_entries lsg)) as [i sl']. simpl in *.
  assert (u32 i = i) as Ei.
  { apply wrapu_small. unfold in_u. change (2 ^ 32) with 4294967296. lia. }
  rewrite Ei. destruct (readdressed_bytes _ _ (Z.to_nat (num_entries lsg)) Hlen Hsame) as [Hby Hsum].
  assert (∀ m, sgl_wf (mk_sgl (max_entries lsg1) (num_entries lsg) m (sgl_size lsg1) (sge lsg1) sl')
               ∧ sgl_bytes (mk_sgl (max_entries lsg1) (num_entries lsg) m (sgl_size lsg1) (sge lsg1) sl')
                 = sgl_bytes lsg) as Hkeep.
  { intros m. split; [split; simpl|].
    - apply Hwf1.
    - rewrite Hlen, A3. apply Hwf.
    - lia.
    - lia.
    - rewrite A4, (wf_size _ Hwf). unfold used. simpl. by rewrite Hsum.
    - unfold sgl_bytes, used. simpl. by rewrite Hby. }
  destruct (i <? num_entries lsg) eqn:El.
  - eexists _, _, d, _. split; [done|]. split; [apply Hkeep|]. split; [apply Hkeep|]. done.
  - assert (i = num_entries lsg) as -> by lia. eexists _, _, _, _. split; [done|].
    split; [apply Hkeep|]. split; [apply Hkeep|]. simpl.
    split. { apply wraps_small; [lia|]. unfold in_s. change (2 ^ (32 - 1)) with 2147483648. lia. }
    split; [done|]. split; [done|]. split; [by rewrite A4|]. intros Hok Hpos.
    set (lsg' := mk_sgl _ _ _ _ _ _) in *. exact (full_map_segments lsg' _ Hok Hpos).
Qed.

(** A kernel that maps every entry at its page number times 4096. *)
Definition identity_dma_map (l : list scatterlist) (n : Z) : Z * list scatterlist :=
  (n, (λ s, mk_sl (sl_page s) (sl_offset s) (sl_length s) (sl_page s * 4096 + sl_offset s)) <$> l).

Lemma identity_dma_map_ok : dma_map_sg_ok identity_dma_map.
Proof.
  intros l n Hn. unfold identity_dma_map. simpl. split_and!; try lia.
  - by rewrite length_fmap.
  - intros k s Hs. rewrite list_lookup_fmap, Hs. simpl. by eexists.
Qed.

Lemma dma_map_covers_list_witness :
  ∃ lsg' cookie' dmap', kfio_sgl_dma_map identity_dma_map mapped_sgl (mk_cookie 1 (-1))
                          (Some kfio_dma_map_alloc) IODRIVE_DMA_DIR_READ
                        = Ok (lsg', cookie', Some dmap', 3) ∧ kfio_dma_map_size dmap' = 900.
Proof.
  destruct (dma_map_covers_list identity_dma_map mapped_sgl (mk_cookie 1 (-1)) kfio_dma_map_alloc
              IODRIVE_DMA_DIR_READ) as (lsg' & cookie' & dmap' & r & E & _ & _ & H);
    [by split|exact identity_dma_map_ok|].
  destruct H as (-> & _ & _ & Hs & _). exists lsg', cookie', dmap'. split; [exact E|exact Hs].
Defined.
