(* ===== verification/KScatterCopy.v ===== *)
(** * Scatter-gather lists: copying (kscatter.c)

    [kfio_sgl_copy_data] copies bytes from one list to another, piece by piece, a
    piece being what is left of the current entry of either list.  It takes the
    offset of an entry in its page for a position in the entry: it is exact when all
    offsets are 0, and goes wrong otherwise. *)
From S2P Require Import Prelude KScatter.

(** The contents of pages. *)
Abbreviation memory := (Z → Z → Z).

(** [kfio_memcpy] between two pages that are mapped one at a time. *)
Definition memcpy (m : memory) (dst_page dst_off src_page src_off n : Z) : outcome memory :=
  if (0 <=? n) && (dst_off + n <=? FUSION_PAGE_SIZE) && (src_off + n <=? FUSION_PAGE_SIZE) then
    Ok (λ p o, if (p =? dst_page) && (dst_off <=? o) && (o <? dst_off + n)
               then m src_page (src_off + (o - dst_off)) else m p o)
  else Fault OutOfBounds.

(** [MIN] of an [int] and a [uint32_t], stored in the [int]. *)
Definition min_int (a b : Z) : Z := s32 (if u32 a <? b then u32 a else b).

Section copy.
(** [behind i]: what is found in place of the offset of an entry behind the array. *)
Context (behind : Z → Z).

Definition offset_at (lsg : linux_sgl) (i : Z) : Z :=
  match sl lsg !! Z.to_nat i with Some s => sl_offset s | None => behind i end.

(** [i] and [j] are the current entries, [di] and [sj] the positions in them. *)
Fixpoint copy_loop (fuel : nat) (dst src : linux_sgl) (len i di j sj : Z) (m : memory) : outcome memory :=
  match fuel with
  | O => Fault NoFuel
  | S fuel =>
      if len =? 0 then Ok m
      else
        d ← sl_at dst i;
        s ← sl_at src j;
        let sub := min_int (s32 len) (u32 (sl_length d - di)) in
        let sub := min_int sub (u32 (sl_length s - sj)) in
        m ← memcpy m (sl_page d) di (sl_page s) sj sub;
        let di := u32 (di + sub) in
        let sj := u32 (sj + sub) in
        let '(i, di) := if di =? sl_length d then (i + 1, offset_at dst (i + 1)) else (i, di) in
        let '(j, sj) := if sj =? sl_length s then (j + 1, offset_at src (j + 1)) else (j, sj) in
        copy_loop fuel dst src (u32 (len - sub)) i di j sj m
  end.

(** Each piece ends an entry of one of the lists, or the copy. *)
Definition copy_fuel (dst src : linux_sgl) : nat := length (sl dst) + length (sl src) + 2.

Definition kfio_sgl_copy_data (dst src : linux_sgl) (len : Z) (m : memory) : outcome (Z * memory) :=
  if (len >? sgl_size dst) || (len >? sgl_size src) then Ok (- EFAULT, m)
  else
    m ← copy_loop (copy_fuel dst src) dst src len 0 (offset_at dst 0) 0 (offset_at src 0) m;
    Ok (0, m).
End copy.

(** ** What is left of a list *)

(** From position [off] of the first of the entries. *)
Definition rest (l : list scatterlist) (off : Z) : list (Z * Z) := drop (Z.to_nat off) (concat (sl_bytes <$> l)).
Definition piece (page off n : Z) : list (Z * Z) := (λ k, (page, off + Z.of_nat k)) <$> seq 0 (Z.to_nat n).

(** An entry at the start of its page. *)
Definition from_start (s : scatterlist) : Prop := sl_offset s = 0 ∧ 0 <= sl_length s <= FUSION_PAGE_SIZE.

Lemma rest_next s l : rest (s :: l) (sl_length s) = rest l 0.
Proof.
  unfold rest. rewrite fmap_cons. cbn [concat]. rewrite drop_app_length' by (by rewrite length_sl_bytes). by rewrite drop_0.
Qed.

Lemma rest_piece s l off n :
  from_start s → 0 <= off → 0 <= n → off + n <= sl_length s →
  rest (s :: l) off = piece (sl_page s) off n ++ rest (s :: l) (off + n).
Proof.
  intros [O L] F N B. unfold rest. rewrite Z2Nat.inj_add by done.
  rewrite <-(take_drop (Z.to_nat n) (drop (Z.to_nat off) _)) at 1. rewrite drop_drop. f_equal. unfold piece.
  apply list_eq. intros k. rewrite list_lookup_fmap. destruct (decide (k < Z.to_nat n)%nat) as [Lt|Ge].
  - rewrite lookup_take, lookup_drop by done. rewrite fmap_cons. cbn [concat].
    rewrite lookup_app_l by (rewrite length_sl_bytes; lia). unfold sl_bytes. rewrite list_lookup_fmap, !lookup_seq_lt by lia.
    cbn [fmap option_fmap option_map]. rewrite O, decide_True by done. apply (f_equal Some), (f_equal (pair _)). lia.
  - rewrite lookup_take_ge by lia. by rewrite (lookup_ge_None_2 (seq 0 (Z.to_nat n))) by (rewrite length_seq; lia).
Qed.

Lemma piece_lookup page off n k : (k < Z.to_nat n)%nat → piece page off n !! k = Some (page, off + Z.of_nat k).
Proof. intros L. unfold piece. by rewrite list_lookup_fmap, lookup_seq_lt. Qed.

Lemma elem_of_piece page off n p o : (p, o) ∈ piece page off n ↔ p = page ∧ off <= o < off + n.
Proof.
  unfold piece. rewrite list_elem_of_fmap. split.
  - intros (k & [= -> ->] & K%elem_of_seq). lia.
  - intros [-> R]. exists (Z.to_nat (o - off)). rewrite elem_of_seq. split; [f_equal|]; lia.
Qed.

(** ** Copying *)

Definition at_byte (m : memory) (b : Z * Z) : Z := m b.1 b.2.

(** [m'] is [m] with the bytes at [ds] replaced by those at [ss]. *)
Definition copied (m m' : memory) (ds ss : list (Z * Z)) : Prop :=
  at_byte m' <$> ds = at_byte m <$> ss ∧ ∀ b, b ∉ ds → at_byte m' b = at_byte m b.

Lemma copied_app m m1 m2 d1 d2 s1 s2 :
  copied m m1 d1 s1 → copied m1 m2 d2 s2 → (∀ b, b ∈ d1 → b ∉ d2) → (∀ b, b ∈ s2 → b ∉ d1) →
  copied m m2 (d1 ++ d2) (s1 ++ s2).
Proof.
  intros [E1 F1] [E2 F2] D S. split.
  - rewrite !fmap_app, E2. f_equal; [rewrite <-E1|]; apply list_fmap_ext; intros i b B;
      apply list_elem_of_lookup_2 in B; [apply F2|apply F1]; auto.
  - intros b B. rewrite elem_of_app in B. rewrite F2, F1; [done|..]; intros ?; apply B; auto.
Qed.

Lemma memcpy_copied m dp d sp s n :
  0 <= d → 0 <= s → 0 <= n → d + n <= FUSION_PAGE_SIZE → s + n <= FUSION_PAGE_SIZE →
  ∃ m', memcpy m dp d sp s n = Ok m' ∧ copied m m' (piece dp d n) (piece sp s n).
Proof.
  intros D S N Bd Bs. unfold memcpy. rewrite !(proj2 (Z.leb_le _ _)) by done. eexists. split; [done|]. split.
  - apply list_eq. intros k. rewrite !list_lookup_fmap. destruct (decide (k < Z.to_nat n)%nat) as [L|G].
    + rewrite !piece_lookup by done. cbn [fmap option_fmap option_map]. unfold at_byte. cbn [fst snd].
      rewrite Z.eqb_refl, (proj2 (Z.leb_le d _)), (proj2 (Z.ltb_lt _ (d + n))) by lia. cbn [andb].
      apply (f_equal Some), (f_equal (m sp)). lia.
    + unfold piece. by rewrite !list_lookup_fmap, (lookup_ge_None_2 (seq 0 (Z.to_nat n))) by (rewrite length_seq; lia).
  - intros [p o] N'. rewrite elem_of_piece in N'. unfold at_byte. cbn.
    destruct (Z.eqb_spec p dp), (Z.leb_spec d o), (Z.ltb_spec o (d + n)); try done. exfalso. apply N'. done.
Qed.

(** A position in the used entries of a list: [bytes] follow it, over [k] entries. *)
Definition position (lsg : linux_sgl) (i off : Z) (k : nat) (bytes : list (Z * Z)) : Prop :=
  bytes = []
  ∨ 0 <= i ∧ bytes = rest (drop (Z.to_nat i) (used lsg)) off ∧ (Z.to_nat i + k)%nat = length (used lsg)
    ∧ ∀ s, used lsg !! Z.to_nat i = Some s → 0 <= off <= sl_length s.

Lemma min_int_min a b : 0 <= a < 2 ^ 31 → 0 <= b < 2 ^ 31 → min_int a b = Z.min a b.
Proof.
  change (2 ^ 31) with 2147483648. intros A B. unfold min_int.
  rewrite (wrapu_small 32 a) by (unfold in_u; change (2 ^ 32) with 4294967296; lia).
  rewrite wraps_small; [destruct (Z.ltb_spec a b); lia|lia|]. unfold in_s. change (2 ^ (32 - 1)) with 2147483648.
  destruct (a <? b); lia.
Qed.

Section run.
Context (behind : Z → Z).

Lemma used_entry lsg i s : used lsg !! i = Some s → sl lsg !! i = Some s.
Proof. unfold used. intros E. destruct (decide (i < Z.to_nat (num_entries lsg))%nat); [by rewrite lookup_take in E; rewrite decide_True in E|].
  by rewrite lookup_take_ge in E by lia.
Qed.

(** While bytes follow, the position has an entry. *)
Lemma position_entry lsg i off k bytes :
  position lsg i off k bytes → bytes ≠ [] →
  ∃ s, sl_at lsg i = Ok s ∧ used lsg !! Z.to_nat i = Some s ∧ 0 <= i ∧ 0 <= off <= sl_length s ∧ (0 < k)%nat
    ∧ bytes = rest (s :: drop (S (Z.to_nat i)) (used lsg)) off.
Proof.
  intros [->|(I & E & K & O)] N; [done|]. destruct (used lsg !! Z.to_nat i) as [s|] eqn:Es.
  - exists s. unfold sl_at. rewrite (proj2 (Z.leb_le 0 i) I), (used_entry lsg _ s Es). split; [done|].
    split; [done|]. split; [done|]. split; [by apply O|]. apply lookup_lt_Some in Es as L. split; [lia|].
    by rewrite E, (drop_S _ s).
  - exfalso. apply N. apply lookup_ge_None_1 in Es. rewrite E, drop_ge by done. unfold rest. by destruct (Z.to_nat off).
Qed.

Lemma position_advance lsg i off k s n :
  Forall from_start (used lsg) → used lsg !! Z.to_nat i = Some s → 0 <= i → 0 <= off → 0 <= n → off + n <= sl_length s →
  (Z.to_nat i + k)%nat = length (used lsg) →
  let '(i', off') := if u32 (off + n) =? sl_length s then (i + 1, offset_at behind lsg (i + 1)) else (i, u32 (off + n)) in
  ∃ k', position lsg i' off' k' (rest (s :: drop (S (Z.to_nat i)) (used lsg)) (off + n))
    ∧ (k' <= k)%nat ∧ (off + n = sl_length s → S k' = k).
Proof.
  intros F Es I O N B K. rewrite list.Forall_forall in F. destruct (F s ltac:(by eapply list_elem_of_lookup_2)) as [_ L]. unfold FUSION_PAGE_SIZE in L.
  rewrite wrapu_small by (unfold in_u; change (2 ^ 32) with 4294967296; lia). apply lookup_lt_Some in Es as Li.
  destruct (Z.eqb_spec (off + n) (sl_length s)) as [E|Ne].
  - exists (k - 1)%nat. split; [|lia]. rewrite E, rest_next. replace (S (Z.to_nat i)) with (Z.to_nat (i + 1)) by lia.
    destruct (used lsg !! Z.to_nat (i + 1)) as [s'|] eqn:Es'.
    + right. unfold offset_at. rewrite (used_entry _ _ _ Es'). destruct (F s' ltac:(by eapply list_elem_of_lookup_2)) as [-> L'].
      split; [lia|]. split; [done|]. split; [lia|]. intros s0 E0. assert (s0 = s') as -> by congruence. lia.
    + left. apply lookup_ge_None_1 in Es'. by rewrite drop_ge by done.
  - exists k. split; [|lia]. right. split; [done|]. split; [by rewrite (drop_S _ s (Z.to_nat i))|]. split; [done|].
    intros s' Es'. assert (s' = s) as -> by congruence. lia.
Qed.

Lemma take_piece (page off n len : Z) (bytes : list (Z * Z)) :
  0 <= n <= len → take (Z.to_nat len) (piece page off n ++ bytes) = piece page off n ++ take (Z.to_nat (len - n)) bytes.
Proof.
  intros N. assert (length (piece page off n) = Z.to_nat n) as L by (unfold piece; by rewrite length_fmap, length_seq).
  rewrite take_app, L, take_ge by lia. f_equal. f_equal. lia.
Qed.

Lemma copy_loop_run fuel dst src len i di kd ds j sj ks ss (m : memory) :
  Forall from_start (used dst) → Forall from_start (used src) →
  position dst i di kd ds → position src j sj ks ss →
  0 <= len < 2 ^ 31 → len <= Z.of_nat (length ds) → len <= Z.of_nat (length ss) →
  NoDup ds → (∀ b, b ∈ ss → b ∉ ds) → (0 < fuel)%nat → (0 < len → (kd + ks < fuel)%nat) →
  ∃ m', copy_loop behind fuel dst src len i di j sj m = Ok m'
    ∧ copied m m' (take (Z.to_nat len) ds) (take (Z.to_nat len) ss).
Proof.
  intros Fd Fs. revert len i di kd ds j sj ks ss m.
  induction fuel as [|fuel IH]; intros len i di kd ds j sj ks ss m Pd Ps L Ld Ls Nd Dj F0 F; [lia|]. cbn [copy_loop].
  destruct (Z.eqb_spec len 0) as [->|Nz]; [exists m; by repeat split|].
  destruct (position_entry dst i di kd ds Pd) as (d & Ed & Md & I & Od & Kd & Eds); [by intros ->; cbn in Ld; lia|].
  destruct (position_entry src j sj ks ss Ps) as (s & Es & Ms & J & Os & Ks & Ess); [by intros ->; cbn in Ls; lia|].
  rewrite Ed. cbn [mbind outcome_bind]. rewrite Es. cbn [mbind outcome_bind].
  assert (0 <= sl_length d <= 4096) as Lend by (apply list_elem_of_lookup_2 in Md; rewrite list.Forall_forall in Fd; apply (Fd d Md)).
  assert (0 <= sl_length s <= 4096) as Lens by (apply list_elem_of_lookup_2 in Ms; rewrite list.Forall_forall in Fs; apply (Fs s Ms)).
  change (2 ^ 31) with 2147483648 in L. rewrite (wraps_small 32 len) by (done || (unfold in_s; change (2 ^ (32 - 1)) with 2147483648; lia)).
  rewrite (wrapu_small 32 (sl_length d - di)), (wrapu_small 32 (sl_length s - sj)) by (unfold in_u; change (2 ^ 32) with 4294967296; lia).
  rewrite (min_int_min len) by (change (2 ^ 31) with 2147483648; lia).
  rewrite min_int_min by (change (2 ^ 31) with 2147483648; lia).
  set (n := Z.min (Z.min len (sl_length d - di)) (sl_length s - sj)).
  assert (0 <= n <= len ∧ di + n <= sl_length d ∧ sj + n <= sl_length s
    ∧ (n = len ∨ di + n = sl_length d ∨ sj + n = sl_length s)) as (N & Nd1 & Ns1 & Nc) by lia. clearbody n.
  rewrite list.Forall_forall in Fd, Fs. pose proof (Fd d ltac:(by eapply list_elem_of_lookup_2)) as Fd1.
  pose proof (Fs s ltac:(by eapply list_elem_of_lookup_2)) as Fs1. rewrite <-list.Forall_forall in Fd, Fs.
  destruct (memcpy_copied m (sl_page d) di (sl_page s) sj n) as (m1 & Em & Cm); try (unfold FUSION_PAGE_SIZE; lia).
  rewrite Em. cbn [mbind outcome_bind].
  destruct Pd as [->|(_ & _ & Kd' & _)]; [cbn in Ld; lia|]. destruct Ps as [->|(_ & _ & Ks' & _)]; [cbn in Ls; lia|].
  pose proof (position_advance dst i di kd d n Fd Md I (proj1 Od) (proj1 N) Nd1 Kd') as Ad.
  pose proof (position_advance src j sj ks s n Fs Ms J (proj1 Os) (proj1 N) Ns1 Ks') as As.
  destruct (if u32 (di + n) =? sl_length d then _ else _) as [i' di'].
  destruct (if u32 (sj + n) =? sl_length s then _ else _) as [j' sj'].
  destruct Ad as (kd' & Pd' & Kd1 & Kd2). destruct As as (ks' & Ps' & Ks1 & Ks2).
  rewrite (rest_piece d _ di n Fd1) in Eds by lia. rewrite (rest_piece s _ sj n Fs1) in Ess by lia.
  set (ds' := rest (d :: _) (di + n)) in *. set (ss' := rest (s :: _) (sj + n)) in *. clearbody ds' ss'. subst ds ss.
  assert (∀ p o, length (piece p o n) = Z.to_nat n) as Lp by (intros; unfold piece; by rewrite length_fmap, length_seq).
  rewrite length_app, Lp in Ld, Ls. apply list.NoDup_app in Nd as (_ & Nd2 & Nd3).
  rewrite (wrapu_small 32 (len - n)) by (unfold in_u; change (2 ^ 32) with 4294967296; lia).
  destruct (IH (len - n) i' di' kd' ds' j' sj' ks' ss' m1 Pd' Ps') as (m2 & E2 & C2); try done; try (change (2 ^ 31) with 2147483648); try lia.
  - intros b B B'. apply (Dj b); apply elem_of_app; by right.
  - exists m2. split; [done|]. rewrite !take_piece by lia. apply (copied_app m m1); try done.
    + intros b B B'. apply (Nd2 b B). by apply subseteq_take in B'.
    + intros b B B'. apply subseteq_take in B. apply (Dj b); apply elem_of_app; [by right|by left].
Qed.
End run.

(** The lists agree with their sizes and all entries start their pages. *)
Definition copyable (lsg : linux_sgl) : Prop :=
  Forall from_start (used lsg) ∧ sgl_size lsg = Z.of_nat (length (sgl_bytes lsg)).

Lemma position_start behind lsg :
  Forall from_start (used lsg) → position lsg 0 (offset_at behind lsg 0) (length (used lsg)) (sgl_bytes lsg).
Proof.
  intros F. destruct (used lsg) as [|s l] eqn:E.
  - left. unfold sgl_bytes. by rewrite E.
  - right. apply list.Forall_cons in F as [[O L] _]. assert (sl lsg !! 0%nat = Some s) as S0 by (apply used_entry; by rewrite E).
    unfold offset_at. change (Z.to_nat 0) with 0%nat. rewrite S0, O, E, drop_0. split; [done|]. split; [|split; [done|]].
    + unfold rest, sgl_bytes. by rewrite E, drop_0.
    + intros s' [= <-]. lia.
Qed.

(** C31: Copying between lists whose entries start at the beginning of their pages
    replaces the first bytes of one by those of the other, over entries of any
    sizes, and changes nothing else; a length that one of the lists does not have is
    refused and nothing is copied. *)
Theorem copy_data_exact behind dst src len m :
  copyable dst → copyable src → NoDup (sgl_bytes dst) → (∀ b, b ∈ sgl_bytes src → b ∉ sgl_bytes dst) → 0 <= len < 2 ^ 31 →
  if (sgl_size dst <? len) || (sgl_size src <? len) then kfio_sgl_copy_data behind dst src len m = Ok (- EFAULT, m)
  else ∃ m', kfio_sgl_copy_data behind dst src len m = Ok (0, m')
    ∧ at_byte m' <$> take (Z.to_nat len) (sgl_bytes dst) = at_byte m <$> take (Z.to_nat len) (sgl_bytes src)
    ∧ ∀ b, b ∉ take (Z.to_nat len) (sgl_bytes dst) → at_byte m' b = at_byte m b.
Proof.
  intros [Fd Sd] [Fs Ss] N D L. unfold kfio_sgl_copy_data. rewrite !Z.gtb_ltb.
  destruct (Z.ltb_spec (sgl_size dst) len), (Z.ltb_spec (sgl_size src) len); try done. cbn [orb].
  destruct (copy_loop_run behind (copy_fuel dst src) dst src len 0 (offset_at behind dst 0) (length (used dst)) (sgl_bytes dst)
    0 (offset_at behind src 0) (length (used src)) (sgl_bytes src) m) as (m' & E & C); try done; try lia.
  - by apply position_start.
  - by apply position_start.
  - unfold copy_fuel. lia.
  - intros _. unfold copy_fuel, used. rewrite !length_take. lia.
  - rewrite E. exists m'. done.
Qed.

(** A list of one entry at an offset in its page. *)
Definition one_entry (page offset len : Z) : linux_sgl :=
  mk_sgl 1 1 0 len [mk_sge 0 0] [mk_sl page offset len 0].

(** With an offset the copy goes wrong: an entry of 1024 bytes at offset 512 is
    left after 512 bytes, and the next entry is read behind the array; one of 512
    bytes at the same offset is skipped. *)
Theorem copy_data_ignores_offsets behind m :
  kfio_sgl_copy_data behind (one_entry 1 512 1024) (one_entry 2 0 1024) 1024 m = Fault OutOfBounds
  ∧ kfio_sgl_copy_data behind (one_entry 1 512 512) (one_entry 2 0 512) 512 m = Fault OutOfBounds.
Proof. split; by cbv -[memcpy]. Qed.

Theorem copy_data_exact_witness :
  ∃ m', kfio_sgl_copy_data (λ _, 7) (one_entry 1 0 3) (one_entry 2 0 3) 2 (λ p o, 10 * p + o) = Ok (0, m')
    ∧ at_byte m' (1, 1) = 21 ∧ at_byte m' (1, 2) = 12.
Proof.
  assert (∀ p, copyable (one_entry p 0 3)) as C by (intros p; split; [by apply list.Forall_cons_2; [|apply list.Forall_nil_2]|done]).
  assert (∀ p b, b ∈ sgl_bytes (one_entry p 0 3) → b.1 = p) as D.
  { intros p. apply list.Forall_forall. by repeat (apply list.Forall_cons_2; [done|]); apply list.Forall_nil_2. }
  destruct (copy_data_exact (λ _, 7) (one_entry 1 0 3) (one_entry 2 0 3) 2 (λ p o, 10 * p + o) (C 1) (C 2)) as (m' & E & B & O).
  - by apply (bool_decide_eq_true_1 (NoDup (sgl_bytes (one_entry 1 0 3)))).
  - intros b B1%D B2%D. congruence.
  - done.
  - exists m'. split; [exact E|]. split; [by injection B|]. apply (O (1, 2)).
    by apply (bool_decide_eq_true_1 ((1, 2) ∉ take (Z.to_nat 2) (sgl_bytes (one_entry 1 0 3)))).
Defined.
