(* ===== verification/KScatterDump.v ===== *)
(** * Scatter-gather lists: the dump of kscatter.c

    What [kfio_sgl_dump] prints, line by line. *)
From S2P Require Import Prelude KScatter KScatterDma.

(** One call of [infprint] or [infprintbuf8]; the bytes of an entry are those of its
    page from its offset on. *)
Inductive dump_line :=
| SgList (num max size : Z)
| SgMap (offset size count : Z)
| SgVec (i : Z) (vaddr offset size paddr : Z)
| MapFirst (skip : Z)
| MapLast (trunc : Z)
| Contents (bytes : list (Z * Z)).

#[global] Instance dump_line_eq_dec : EqDecision dump_line.
Proof. solve_decision. Defined.

Section dump.
Context (page_address : Z → Z).

(** The lines of entry [i]. *)
Definition dump_entry (dmap : option kfio_dma_map) (dump_contents : bool) (i : Z) (s : scatterlist) : list dump_line :=
  [SgVec i (kfio_sgl_get_vaddr page_address s) (sl_offset s) (sl_length s) (sl_dma s)]
  ++ match dmap with
     | Some d =>
         (if decide (sge_first d = Some i) then [MapFirst (sge_skip d)] else [])
         ++ (if decide (sge_last d = Some i) then [MapLast (sge_trunc d)] else [])
     | None => []
     end
  ++ (if dump_contents then [Contents (sl_bytes s)] else []).

Fixpoint dump_loop (n : nat) (i : Z) (lsg : linux_sgl) (dmap : option kfio_dma_map) (dump_contents : bool) :
    outcome (list dump_line) :=
  match n with
  | O => Ok []
  | S n =>
      _ ← sge_at lsg i;
      s ← sl_at lsg i;
      rest ← dump_loop n (i + 1) lsg dmap dump_contents;
      Ok (dump_entry dmap dump_contents i s ++ rest)
  end.

Definition kfio_sgl_dump (lsg : linux_sgl) (dmap : option kfio_dma_map) (dump_contents : bool) : outcome (list dump_line) :=
  let header := SgList (num_entries lsg) (max_entries lsg) (sgl_size lsg) ::
    match dmap with Some d => [SgMap (map_offset d) (map_length d) (sge_count d)] | None => [] end in
  rest ← dump_loop (Z.to_nat (num_entries lsg)) 0 lsg dmap dump_contents;
  Ok (header ++ rest).

Definition dumped (ls : list dump_line) : list (Z * Z) :=
  concat ((λ l, if l is Contents bs then bs else []) <$> ls).
Definition firsts (ls : list dump_line) : list Z := omap (λ l, if l is MapFirst k then Some k else None) ls.
Definition lasts (ls : list dump_line) : list Z := omap (λ l, if l is MapLast k then Some k else None) ls.

Lemma dumped_app l1 l2 : dumped (l1 ++ l2) = dumped l1 ++ dumped l2.
Proof. unfold dumped. by rewrite fmap_app, concat_app. Qed.

Lemma dump_entry_lines dmap b i s :
  dumped (dump_entry dmap b i s) = (if b then sl_bytes s else [])
  ∧ firsts (dump_entry dmap b i s) = match dmap with Some d => if decide (sge_first d = Some i) then [sge_skip d] else [] | None => [] end
  ∧ lasts (dump_entry dmap b i s) = match dmap with Some d => if decide (sge_last d = Some i) then [sge_trunc d] else [] | None => [] end.
Proof.
  unfold dump_entry, dumped, firsts, lasts. destruct dmap as [d|], b; repeat case_decide; cbn; by rewrite ?app_nil_r.
Qed.

(** A mark at entry [a] is printed once, when the loop comes to it. *)
Definition mark (at_ : option Z) (v i n : Z) : list Z :=
  match at_ with Some a => if decide (i <= a < i + n) then [v] else [] | None => [] end.

Lemma mark_step at_ v i n :
  0 <= n → (if decide (at_ = Some i) then [v] else []) ++ mark at_ v (i + 1) n = mark at_ v i (n + 1).
Proof.
  intros N. unfold mark. destruct at_ as [a|]; [|done]. destruct (decide (a = i)) as [->|Na].
  - by rewrite decide_True, decide_False, decide_True by (done || lia).
  - rewrite decide_False by (by intros [=]). repeat case_decide; done || lia.
Qed.

Lemma dump_loop_run n i lsg dmap b :
  sgl_wf lsg → 0 <= i → i + Z.of_nat n = num_entries lsg →
  ∃ ls, dump_loop n i lsg dmap b = Ok ls
    ∧ dumped ls = (if b then concat (sl_bytes <$> drop (Z.to_nat i) (used lsg)) else [])
    ∧ firsts ls = match dmap with Some d => mark (sge_first d) (sge_skip d) i (Z.of_nat n) | None => [] end
    ∧ lasts ls = match dmap with Some d => mark (sge_last d) (sge_trunc d) i (Z.of_nat n) | None => [] end.
Proof.
  intros [We Ws Wn _ _]. revert i. induction n as [|n IH]; intros i I N.
  - exists []. split; [done|]. rewrite drop_ge by (unfold used; rewrite length_take; lia). split; [by destruct b|].
    destruct dmap as [d|]; [|done]. unfold mark. split; case_match; try done; by rewrite decide_False by lia.
  - destruct (lookup_lt_is_Some_2 (sge lsg) (Z.to_nat i)) as [e Ee]; [lia|].
    destruct (lookup_lt_is_Some_2 (sl lsg) (Z.to_nat i)) as [s Es]; [lia|].
    destruct (IH (i + 1)) as (ls & E & D & F & L); [lia|lia|].
    exists (dump_entry dmap b i s ++ ls). cbn [dump_loop]. unfold sge_at, sl_at. rewrite (proj2 (Z.leb_le 0 i)), Ee, Es by lia.
    cbn -[dump_entry dumped firsts lasts]. rewrite E. split; [done|]. destruct (dump_entry_lines dmap b i s) as (D1 & F1 & L1).
    assert (used lsg !! Z.to_nat i = Some s) as Eu by (unfold used; rewrite lookup_take_lt by lia; done).
    rewrite dumped_app, D1, D. split.
    { destruct b; [|done]. rewrite (drop_S _ _ _ Eu). replace (Z.to_nat (i + 1)) with (S (Z.to_nat i)) by lia. done. }
    unfold firsts, lasts in *. rewrite !omap_app, F1, F, L1, L. rewrite Nat2Z.inj_succ.
    destruct dmap as [d|]; [|done]. split; apply mark_step; lia.
Qed.

(** The dump of a list returns; with the contents it prints the bytes of the list,
    in order, and without them none; and when a map is given its first and its last
    entry are marked once each, provided that they are entries of the list. *)
Theorem dump_complete lsg dmap b :
  sgl_wf lsg →
  ∃ ls, kfio_sgl_dump lsg dmap b = Ok ls ∧ dumped ls = (if b then sgl_bytes lsg else [])
    ∧ (∀ d a, dmap = Some d → sge_first d = Some a → 0 <= a < num_entries lsg → firsts ls = [sge_skip d])
    ∧ (∀ d a, dmap = Some d → sge_last d = Some a → 0 <= a < num_entries lsg → lasts ls = [sge_trunc d]).
Proof.
  intros W. pose proof (wf_num _ W) as Wn.
  destruct (dump_loop_run (Z.to_nat (num_entries lsg)) 0 lsg dmap b W) as (ls & E & D & F & L); [lia|lia|].
  unfold kfio_sgl_dump. rewrite E. cbn. eexists. split; [done|].
  split; [by destruct dmap; unfold dumped in *; cbn; rewrite D|].
  split; intros d a -> Ea A; unfold firsts, lasts in *; cbn; rewrite ?F, ?L; unfold mark; rewrite Ea, decide_True by lia; done.
Qed.
End dump.

Definition dump_sgl : linux_sgl :=
  mk_sgl 3 2 2 3 (replicate 3 (mk_sge 0 0)) [mk_sl 7 1 2 4096; mk_sl 9 0 1 8192; mk_sl 0 0 0 0].

Lemma dump_complete_witness :
  ∃ ls, kfio_sgl_dump id dump_sgl (Some (mk_dmap 0 3 2 0 0 (Some 0) (Some 1))) true = Ok ls
        ∧ dumped ls = [(7, 1); (7, 2); (9, 0)] ∧ firsts ls = [0] ∧ lasts ls = [0].
Proof.
  destruct (dump_complete id dump_sgl (Some (mk_dmap 0 3 2 0 0 (Some 0) (Some 1))) true) as (ls & E & D & F & L); [by split|].
  exists ls. split; [exact E|]. split; [exact D|]. split; [exact (F _ 0 eq_refl eq_refl ltac:(done))|exact (L _ 1 eq_refl eq_refl ltac:(done))].
Defined.
