(* ===== verification/KBio.v ===== *)
(** * Bios and requests of the core: kblock.c, include/fio/port/kbio.h

    How the block device turns a kernel [struct bio] into a [struct kfio_bio] of
    the core, merges contiguous bios into one request, submits and completes
    them.  The bios are cells of a heap, linked by [bi_next]; a [kfio_bio] is
    private to the function that builds it until it is submitted.  Queues and disks are
    read through the pointers between them ([devices]).  What leaves
    the component is recorded as events. *)
From S2P Require Import Prelude Ranges KScatter KScatterBio.

(** ** What the kernel and the core provide *)

Definition KERNEL_SECTOR_SIZE : Z := 512.
Definition FUSION_MAX_SECTORS_PER_OS_RW_REQUEST : Z := 2048.
Definition FIO_REQ_ATOMIC : Z := Z.shiftl 1 31.

(** The headers of the block layer.  [op_of] and [is_write_of] read the
    operation and the direction from [bi_opf]: [bio_op(bio)] and
    [bio_data_dir(bio) == WRITE]. *)
Class BlockLayer := {
  REQ_OP_MASK : Z;
  REQ_OP_DISCARD : Z;
  REQ_SYNC : Z;
  op_of : Z → Z;
  is_write_of : Z → bool;
  errno_to_blk_status : Z → Z
}.

(** ** Data *)

Abbreviation bio_id := positive.
Abbreviation bio_ptr := (option positive).      (* [None] is NULL *)

(** A [struct bio]; [bi_vecs] are its segments, as [bio_for_each_segment] yields
    them. *)
Record bio := mk_bio {
  bi_sector : Z;              (* BI_SECTOR, 64 bits *)
  bi_size : Z;                (* BI_SIZE, 32 bits *)
  bi_opf : Z;
  bi_flags : Z;
  bi_vecs : list bio_vec;
  bi_next : bio_ptr;
  bi_status : Z
}.

#[global] Instance bio_vec_eq_dec : EqDecision bio_vec.
Proof. solve_decision. Defined.
#[global] Instance bio_eq_dec : EqDecision bio.
Proof. solve_decision. Defined.

Definition KBIO_CMD_INVALID : Z := 0.
Definition KBIO_CMD_READ : Z := 1.
Definition KBIO_CMD_WRITE : Z := 2.
Definition KBIO_CMD_DISCARD : Z := 3.
Definition KBIO_CMD_FLUSH : Z := 4.

Definition KBIO_FLG_SYNC : Z := 1.
Definition KBIO_FLG_NONBLOCK : Z := 32.
Definition KBIO_FLG_ATOMIC : Z := 256.

(** The part of [struct fio_bdev] that describes the device. *)
Record fio_bdev := mk_bdev {
  bdev_index : Z;
  bdev_num_blocks : Z;
  bdev_block_size : Z;
  bdev_max_sg_entries : Z;
  bdev_offset : Z
}.

(** The completion callbacks of kblock.c. *)
Inductive kfio_bio_completor_t :=
| no_completor
| kfio_bio_completor_cb
| fusion_handle_atomic_chain_completor_cb
| kfio_req_completor_cb.

(** [struct kfio_bio]; the field [fbio_next] is represented by the position in
    a list of them. *)
Record kfio_bio := mk_fbio {
  fbio_bdev : fio_bdev;
  fbio_sgl : linux_sgl;
  fbio_flags : Z;
  fbio_cmd : Z;
  fbio_cpu : Z;
  fbio_completor : kfio_bio_completor_t;
  fbio_parameter : bio_ptr;
  fbio_range : fio_range
}.

#[global] Instance fio_bdev_eq_dec : EqDecision fio_bdev.
Proof. solve_decision. Defined.
#[global] Instance kfio_bio_completor_t_eq_dec : EqDecision kfio_bio_completor_t.
Proof. solve_decision. Defined.
#[global] Instance kfio_bio_eq_dec : EqDecision kfio_bio.
Proof. solve_decision. Defined.

Definition set_flags (v : Z) (f : kfio_bio) : kfio_bio :=
  mk_fbio (fbio_bdev f) (fbio_sgl f) v (fbio_cmd f) (fbio_cpu f) (fbio_completor f) (fbio_parameter f) (fbio_range f).
Definition set_cmd (v : Z) (f : kfio_bio) : kfio_bio :=
  mk_fbio (fbio_bdev f) (fbio_sgl f) (fbio_flags f) v (fbio_cpu f) (fbio_completor f) (fbio_parameter f) (fbio_range f).
Definition set_sgl (v : linux_sgl) (f : kfio_bio) : kfio_bio :=
  mk_fbio (fbio_bdev f) v (fbio_flags f) (fbio_cmd f) (fbio_cpu f) (fbio_completor f) (fbio_parameter f) (fbio_range f).
Definition set_cpu (v : Z) (f : kfio_bio) : kfio_bio :=
  mk_fbio (fbio_bdev f) (fbio_sgl f) (fbio_flags f) (fbio_cmd f) v (fbio_completor f) (fbio_parameter f) (fbio_range f).
Definition set_range (v : fio_range) (f : kfio_bio) : kfio_bio :=
  mk_fbio (fbio_bdev f) (fbio_sgl f) (fbio_flags f) (fbio_cmd f) (fbio_cpu f) (fbio_completor f) (fbio_parameter f) v.
Definition set_completion (c : kfio_bio_completor_t) (p : bio_ptr) (f : kfio_bio) : kfio_bio :=
  mk_fbio (fbio_bdev f) (fbio_sgl f) (fbio_flags f) (fbio_cmd f) (fbio_cpu f) c p (fbio_range f).

(** What the component does to the outside: [bio_endio], and [kfio_bio_submit]
    and [kfio_bio_free] of the core. *)
Inductive event :=
| EndIo (b : bio_id) (status : Z)
| Submit (chain : list kfio_bio)
| FreeFbio (chain : list kfio_bio).

#[global] Instance event_eq_dec : EqDecision event.
Proof. solve_decision. Defined.

(** The bios that the driver holds, the number of allocations made from the
    pool so far, and the events, oldest first. *)
Record world := mk_world {
  w_bios : gmap bio_id bio;
  w_allocs : nat;
  w_events : list event
}.

(** The functions of the core and the processor the driver runs on.  The
    results of successive allocations are numbered. *)
Class Core := {
  kfio_bio_alloc_result : nat → fio_bdev → option kfio_bio;
  kfio_bio_alloc_chain_result : nat → fio_bdev → Z → option (list kfio_bio);
  kfio_bio_set_cpu : kfio_bio → Z → kfio_bio;
  kfio_current_cpu : Z;
  kfio_bdev_max_atomic_iovs : fio_bdev → Z;
  kfio_bdev_max_atomic_total_write_size_bytes : fio_bdev → Z
}.

(** ** Disks and request queues *)

(** The pointers between them that these functions follow: [rq->queuedata], and
    [disk->bdev] and [disk->rq].  The disks are numbered, and so are the queues made for
    each (KDisk); a disk that was freed has no fields. *)
Abbreviation disk_ptr := (option nat).          (* [None] is NULL *)
Inductive rq_ptr := RqNull | RqErr | RqAt (disk : nat) (queue : positive).

#[global] Instance rq_ptr_eq_dec : EqDecision rq_ptr.
Proof. solve_decision. Defined.

Record disk_fields := mk_fields { fd_bdev : fio_bdev; fd_rq : rq_ptr }.

Record devices := mk_devices {
  dv_queuedata : nat → positive → option disk_ptr;
  dv_disks : nat → option disk_fields
}.

Definition load_queuedata (dv : devices) (q : rq_ptr) : outcome disk_ptr :=
  match q with
  | RqNull => Fault NullDeref
  | RqErr => Fault BadPointer
  | RqAt d i => of_option BadPointer (dv_queuedata dv d i)
  end.

Definition load_disk (dv : devices) (p : disk_ptr) : outcome disk_fields :=
  match p with None => Fault NullDeref | Some d => of_option BadPointer (dv_disks dv d) end.

(** [disk = queue->queuedata; bdev = disk->bdev] *)
Definition queue_bdev (dv : devices) (q : rq_ptr) : outcome fio_bdev :=
  disk ← load_queuedata dv q; fields ← load_disk dv disk; Ok (fd_bdev fields).

(** ** Access to the heap *)

Abbreviation M := (stateful world).

Definition load (p : bio_ptr) : M (bio_id * bio) := λ w,
  match p with
  | None => Fault NullDeref
  | Some i => match w_bios w !! i with None => Fault BadPointer | Some b => Ok ((i, b), w) end
  end.

Definition with_bios (h : gmap bio_id bio) (w : world) : world := mk_world h (w_allocs w) (w_events w).
Definition emit (e : event) : M unit := modify (λ w, mk_world (w_bios w) (w_allocs w) (w_events w ++ [e])).

Definition next_set (v : bio_ptr) (b : bio) : bio :=
  mk_bio (bi_sector b) (bi_size b) (bi_opf b) (bi_flags b) (bi_vecs b) v (bi_status b).

(** [p->bi_next = v] *)
Definition set_bi_next (p v : bio_ptr) : M unit :=
  '(i, b) ← load p; modify (λ w, with_bios (<[i := next_set v b]> (w_bios w)) w).

Section kblock.
Context `{BlockLayer} `{Core}.

Definition bio_flags (b : bio) : Z := Z.land (bi_opf b) REQ_OP_MASK.
Definition bio_op (b : bio) : Z := op_of (bi_opf b).
Definition bio_is_write (b : bio) : bool := is_write_of (bi_opf b).

Definition kfio_bio_is_discard (b : bio) : bool := bio_op b =? REQ_OP_DISCARD.
Definition __kfio_bio_sync (b : bio) : bool := bio_flags b =? REQ_SYNC.
Definition __kfio_bio_atomic (b : bio) : bool := false.

(** The block size is not 0 ([linux_bdev_create_disk]); the [kassert]s on the
    remainders are compiled out. *)
Definition linux_bio_get_bid (bdev : fio_bdev) (b : bio) : Z :=
  u64 (bi_sector b * KERNEL_SECTOR_SIZE) / bdev_block_size bdev.
Definition linux_bio_get_blen (bdev : fio_bdev) (b : bio) : Z := bi_size b / bdev_block_size bdev.

(** ** Sizes of requests *)

(** [kfio_bio_chain_for_each], with the sum in a [uint64_t]. *)
Definition kfio_bio_chain_size_blocks (chain : list kfio_bio) : Z :=
  foldl (λ retval f, u64 (retval + fr_length (fbio_range f))) 0 chain.

Definition kfio_bio_chain_size_bytes (chain : list kfio_bio) : outcome Z :=
  match chain with
  | [] => Fault NullDeref
  | f :: _ => Ok (u64 (kfio_bio_chain_size_blocks chain * bdev_block_size (fbio_bdev f)))
  end.

Definition kfio_bio_failure_is_retryable (status : Z) : bool := (status =? - ENOSPC) || (status =? - EBUSY).

Definition fio_bdev_range_to_global (bdev : fio_bdev) (r : fio_range) : fio_range :=
  mk_range (u64 (fr_base r + bdev_offset bdev)) (fr_length r).
Definition fio_bdev_range_from_global (bdev : fio_bdev) (r : fio_range) : fio_range :=
  mk_range (u64 (fr_base r - bdev_offset bdev)) (fr_length r).

(** ** Completion *)

(** After [bio_endio] the bio belongs to its submitter again: it leaves the
    heap.  (The byte count is not used.) *)
Definition __kfio_bio_complete (p : bio_ptr) (error : Z) : M unit :=
  '(i, b) ← load p;
  let status := if negb (error =? 0) then errno_to_blk_status error else bi_status b in
  modify (λ w, with_bios (delete i (w_bios w)) w);;
  emit (EndIo i status).

(** The [do ... while (bio)] of [complete_bio_chain] and [kfio_bio_completor];
    each round removes a bio from the heap. *)
Fixpoint complete_loop (fuel : nat) (p : bio_ptr) (error : Z) (bytes_completed : Z) : M Z :=
  match fuel with
  | O => fail NoFuel
  | S fuel =>
      '(_, b) ← load p;
      let next := bi_next b in
      let bytes_completed := u64 (bytes_completed + bi_size b) in
      __kfio_bio_complete p error;;
      (if next is Some _ then complete_loop fuel next error bytes_completed else mret bytes_completed)
  end.

(** Returned as an [int]. *)
Definition complete_bio_chain (p : bio_ptr) (error : Z) : M Z := λ w,
  ('(n) ← complete_loop (S (size (w_bios w))) p error 0; mret (s32 n)) w.

Definition kfio_bio_completor (f : kfio_bio) (error : Z) : M unit := λ w,
  (_ ← complete_loop (S (size (w_bios w))) (fbio_parameter f) error 0; mret tt) w.

Definition fusion_handle_atomic_chain_completor (f : kfio_bio) (error : Z) : M unit :=
  _ ← complete_bio_chain (fbio_parameter f) error; mret tt.

(** ** One bio, one request *)

Definition kfio_bio_alloc (bdev : fio_bdev) : M (option kfio_bio) := λ w,
  Ok (kfio_bio_alloc_result (w_allocs w) bdev, mk_world (w_bios w) (S (w_allocs w)) (w_events w)).

Definition kfio_set_comp_cpu (f : kfio_bio) : kfio_bio := kfio_bio_set_cpu f kfio_current_cpu.

Definition kfio_bio_submit (chain : list kfio_bio) : M unit := emit (Submit chain).
Definition kfio_bio_free (chain : list kfio_bio) : M unit := emit (FreeFbio chain).

(** The size or the start of the bio is not a multiple of the block size. *)
Definition malformed (bdev : fio_bdev) (b : bio) : bool :=
  negb (u64 (bi_sector b * KERNEL_SECTOR_SIZE) `mod` bdev_block_size bdev =? 0)
  || negb (bi_size b `mod` bdev_block_size bdev =? 0).

(** The flags of a write. *)
Definition write_flags (b : bio) : Z :=
  let flags := if __kfio_bio_sync b then KBIO_FLG_SYNC else 0 in
  if negb (Z.land (bi_flags b) FIO_REQ_ATOMIC =? 0) then Z.lor flags KBIO_FLG_ATOMIC else flags.

Definition kfio_map_to_fbio (dv : devices) (queue : rq_ptr) (p : bio_ptr) : M (option kfio_bio) :=
  bdev ← lift (queue_bdev dv queue);
  '(i, b) ← load p;
  if malformed bdev b then mret None
  else
    fbio ← kfio_bio_alloc bdev;
    match fbio with
    | None => mret None
    | Some f =>
        let f := set_flags 0 f in
        let f := set_range (mk_range (linux_bio_get_bid bdev b) (linux_bio_get_blen bdev b)) f in
        let f := set_completion kfio_bio_completor_cb (Some i) f in
        let f := kfio_set_comp_cpu f in
        if kfio_bio_is_discard b then mret (Some (set_cmd KBIO_CMD_DISCARD f))
        else
          let f := if bio_is_write b
                   then set_flags (Z.lor (fbio_flags f) (write_flags b)) (set_cmd KBIO_CMD_WRITE f)
                   else set_cmd KBIO_CMD_READ f in
          '(sgl, error) ← lift (kfio_sgl_map_bio (fbio_sgl f) (bi_vecs b));
          let f := set_sgl sgl f in
          if negb (error =? 0) then kfio_bio_free [f];; mret None
          else mret (Some f)
    end.

(** ** Merging *)

(** The tests of [kfio_kbio_add_bio] up to [kfio_sgl_map_bio]: the bio cannot be
    merged. *)
Definition not_mergeable (f : kfio_bio) (b : bio) : bool :=
  kfio_bio_is_discard b
  || (bio_is_write b && negb (fbio_cmd f =? KBIO_CMD_WRITE))
  || (negb (bio_is_write b) && negb (fbio_cmd f =? KBIO_CMD_READ))
  || negb (Z.land (fbio_flags f) KBIO_FLG_ATOMIC =? 0)
  || (bio_is_write b && negb (Z.land (bi_flags b) FIO_REQ_ATOMIC =? 0))
  || negb (fio_range_upper_bound (fbio_range f) =? linux_bio_get_bid (fbio_bdev f) b)
  || (u64 (fr_length (fbio_range f) + linux_bio_get_blen (fbio_bdev f) b)
        >? FUSION_MAX_SECTORS_PER_OS_RW_REQUEST).

(** Returns the request and 0 when the bio was added, 1 otherwise. *)
Definition kfio_kbio_add_bio (f : kfio_bio) (p : bio_ptr) : M (kfio_bio * Z) :=
  '(_, b) ← load p;
  if not_mergeable f b then mret (f, 1)
  else
    '(sgl, error) ← lift (kfio_sgl_map_bio (fbio_sgl f) (bi_vecs b));
    let f := set_sgl sgl f in
    if negb (error =? 0) then mret (f, 1)
    else
      let r := fbio_range f in
      mret (set_range (mk_range (fr_base r) (u64 (fr_length r + linux_bio_get_blen (fbio_bdev f) b))) f, 0).

(** One round of [kfio_kickoff_plugged_io], after the bio was unlinked: the new
    [tail] and [fbio]. *)
Definition kickoff_fresh (dv : devices) (q : rq_ptr) (tail p : bio_ptr) : M (bio_ptr * option kfio_bio) :=
  fbio ← kfio_map_to_fbio dv q p;
  match fbio with
  | None => __kfio_bio_complete p (- EIO);; mret (tail, None)
  | Some f => mret (p, Some f)
  end.

Definition kickoff_body (dv : devices) (q : rq_ptr) (tail : bio_ptr) (fbio : option kfio_bio) (p : bio_ptr) :
    M (bio_ptr * option kfio_bio) :=
  match fbio with
  | None => kickoff_fresh dv q tail p
  | Some f =>
      '(f, r) ← kfio_kbio_add_bio f p;
      if r =? 0 then (if tail is Some _ then set_bi_next tail p else mret tt);; mret (p, Some f)
      else kfio_bio_submit [f];; kickoff_fresh dv q None p
  end.

(** The [do ... while ((bio = next) != NULL)]; returns the last [fbio]. *)
Fixpoint kickoff_loop (fuel : nat) (dv : devices) (q : rq_ptr) (tail : bio_ptr) (fbio : option kfio_bio) (p : bio_ptr) :
    M (option kfio_bio) :=
  match fuel with
  | O => fail NoFuel
  | S fuel =>
      '(_, b) ← load p;
      let next := bi_next b in
      set_bi_next p None;;
      '(tail, fbio) ← kickoff_body dv q tail fbio p;
      (if next is Some _ then kickoff_loop fuel dv q tail fbio next else mret fbio)
  end.

Definition kfio_kickoff_plugged_io (dv : devices) (q : rq_ptr) (p : bio_ptr) : M unit := λ w,
  (fbio ← kickoff_loop (S (size (w_bios w))) dv q None None p;
   match fbio with None => mret tt | Some f => kfio_bio_submit [f] end) w.

(** ** Atomic chains *)

(** The [while (bio)] of [kfio_bio_chain_count]: the segments and the length, or
    the error. *)
Fixpoint chain_count_loop (fuel : nat) (p : bio_ptr) (segments total_length : Z) : M (Z * Z + Z) :=
  match p with
  | None => mret (inl (segments, total_length))
  | Some _ =>
      match fuel with
      | O => fail NoFuel
      | S fuel =>
          '(_, b) ← load p;
          let segments := segments + 1 in
          if negb (__kfio_bio_atomic b) then mret (inr (- EINVAL))
          else if kfio_bio_is_discard b then chain_count_loop fuel (bi_next b) segments total_length
          else if negb (bio_is_write b) then mret (inr (- EINVAL))
          else chain_count_loop fuel (bi_next b) segments (u64 (total_length + bi_size b))
      end
  end.

Definition kfio_bio_chain_count (bdev : fio_bdev) (first_bio : bio_ptr) : M Z := λ w,
  (r ← chain_count_loop (size (w_bios w)) first_bio 0 0;
   mret match r with
        | inr e => e
        | inl (segments, total_length) =>
            if segments >? kfio_bdev_max_atomic_iovs bdev then - EINVAL
            else if total_length >? u64 (kfio_bdev_max_atomic_total_write_size_bytes bdev) then - EINVAL
            else segments
        end) w.

(** The two chains are walked together; the walk ends with the shorter one. *)
Fixpoint kfio_bio_chain_to_fbio_chain (bdev : fio_bdev) (chain : list kfio_bio) (p : bio_ptr) :
    M (list kfio_bio * Z) :=
  match p, chain with
  | Some _, f :: chain =>
      '(_, b) ← load p;
      let f := set_range (mk_range (linux_bio_get_bid bdev b) (linux_bio_get_blen bdev b)) f in
      let f := set_flags KBIO_FLG_ATOMIC f in
      if kfio_bio_is_discard b then
        '(chain, ret) ← kfio_bio_chain_to_fbio_chain bdev chain (bi_next b);
        mret (set_cmd KBIO_CMD_DISCARD f :: chain, ret)
      else
        '(sgl, ret) ← lift (kfio_sgl_map_bio (fbio_sgl f) (bi_vecs b));
        let f := set_sgl sgl (set_cmd KBIO_CMD_WRITE f) in
        if negb (ret =? 0) then mret (f :: chain, ret)
        else
          '(chain, ret) ← kfio_bio_chain_to_fbio_chain bdev chain (bi_next b);
          mret (f :: chain, ret)
  | _, _ => mret (chain, 0)
  end.

Definition kfio_bio_alloc_chain (bdev : fio_bdev) (len : Z) : M (option (list kfio_bio)) := λ w,
  Ok (kfio_bio_alloc_chain_result (w_allocs w) bdev len, mk_world (w_bios w) (S (w_allocs w)) (w_events w)).

Definition kfio_submit_atomic_chain (dv : devices) (queue : rq_ptr) (first_bio : bio_ptr) : M unit :=
  bdev ← lift (queue_bdev dv queue);
  ret ← kfio_bio_chain_count bdev first_bio;
  if ret <? 0 then _ ← complete_bio_chain first_bio ret; mret tt
  else
    chain ← kfio_bio_alloc_chain bdev ret;
    match chain with
    | None => _ ← complete_bio_chain first_bio (- ENOMEM); mret tt
    | Some chain =>
        '(chain, ret) ← kfio_bio_chain_to_fbio_chain bdev chain first_bio;
        if ret <? 0 then
          kfio_bio_free chain;; _ ← complete_bio_chain first_bio ret; mret tt
        else
          match chain with
          | [] => fail NullDeref
          | f :: chain => kfio_bio_submit (set_completion fusion_handle_atomic_chain_completor_cb first_bio f :: chain)
          end
    end.
End kblock.
