(* ===== verification/KBioSpec.v ===== *)
(** * What a chain of bios becomes (kblock.c)

    The contract of [kfio_kickoff_plugged_io] and of the completion callbacks:
    the chain of bios is cut into batches, one request of the core per batch,
    each bio ends up in one batch or is failed, and completing the requests
    gives every bio back once. *)
From S2P Require Import Prelude Ranges KScatter KScatterBio KBio.

(** ** Chains in the heap *)

(** From [p], the [bi_next] links give the bios [ids] and end in NULL. *)
Fixpoint bchain (h : gmap bio_id bio) (p : bio_ptr) (ids : list bio_id) : Prop :=
  match ids with
  | [] => p = None
  | i :: ids => p = Some i ∧ ∃ b, h !! i = Some b ∧ bchain h (bi_next b) ids
  end.

Lemma bchain_det h p xs ys : bchain h p xs → bchain h p ys → xs = ys.
Proof.
  revert p ys. induction xs as [|x xs IH]; intros p [|y ys]; simpl; naive_solver.
Qed.

Lemma bchain_app h p xs ys : bchain h p (xs ++ ys) → ∃ q, bchain h q ys.
Proof. revert p. induction xs as [|x xs IH]; intros p; simpl; [eauto|]. naive_solver. Qed.

Lemma bchain_nodup h p ids : bchain h p ids → NoDup ids.
Proof.
  revert p. induction ids as [|i ids IH]; intros p Hc; [constructor|].
  pose proof Hc as [-> (b & Hb & Ht)]. apply list.NoDup_cons. split; [|by eapply IH].
  intros (l1 & l2 & ->)%list_elem_of_split.
  destruct (bchain_app _ _ _ _ Ht) as [q Hq]. pose proof Hq as [-> _].
  pose proof (bchain_det _ _ _ _ Hc Hq) as E. apply (f_equal length) in E.
  simpl in E. rewrite length_app in E. simpl in E. lia.
Qed.

Lemma bchain_live h p ids i : bchain h p ids → i ∈ ids → is_Some (h !! i).
Proof.
  revert p. induction ids as [|j ids IH]; intros p; simpl; [by intros _ ?%not_elem_of_nil|].
  intros [-> (b & Hb & Ht)] [->|Hi]%elem_of_cons; [eauto|]. by eapply IH.
Qed.

Lemma bchain_frame h h' p ids :
  (∀ j, j ∈ ids → h' !! j = h !! j) → bchain h p ids → bchain h' p ids.
Proof.
  revert p. induction ids as [|i ids IH]; intros p Hs; simpl; [done|].
  intros [-> (b & Hb & Ht)]. split; [done|]. exists b. split.
  - rewrite Hs; [done|by left].
  - apply IH; [|done]. intros j Hj. apply Hs. by right.
Qed.

Lemma bchain_size h p ids : bchain h p ids → (length ids <= size h)%nat.
Proof.
  intros Hc. rewrite <- (size_list_to_set (C := gset bio_id)) by (by eapply bchain_nodup).
  rewrite <- (size_dom (D := gset bio_id)). apply subseteq_size. intros i Hi.
  apply elem_of_list_to_set in Hi. apply elem_of_dom. by eapply bchain_live.
Qed.

(** Linking a new last bio. *)
Lemma bchain_snoc h p ids last b i bi :
  bchain h p (ids ++ [last]) → h !! last = Some b → h !! i = Some bi → bi_next bi = None →
  i ∉ ids ++ [last] →
  bchain (<[last := next_set (Some i) b]> h) p ((ids ++ [last]) ++ [i]).
Proof.
  revert p. induction ids as [|j ids IH]; intros p Hc Hb Hi Hn Hni; simpl in *.
  - destruct Hc as [-> _]. split; [done|]. eexists. rewrite lookup_insert_eq. split; [done|].
    simpl. split; [done|]. exists bi. rewrite lookup_insert_ne by set_solver. done.
  - pose proof (bchain_nodup _ _ (j :: ids ++ [last]) Hc) as Hd. apply list.NoDup_cons in Hd as [Hd _].
    destruct Hc as [-> (bj & Hj & Ht)]. split; [done|]. exists bj.
    rewrite lookup_insert_ne by (intros ->; apply Hd; set_solver). split; [done|].
    apply IH; try done. set_solver.
Qed.

Section spec.
Context `{BlockLayer} `{Core}.

(** ** The laws of the core *)

(** A bio from the pool has an empty list; setting its processor is all that
    [kfio_bio_set_cpu] does. *)
Class CoreLaws : Prop := {
  alloc_fresh n bdev f :
    kfio_bio_alloc_result n bdev = Some f →
    sgl_wf (fbio_sgl f) ∧ num_entries (fbio_sgl f) = 0 ∧ fbio_bdev f = bdev;
  set_cpu_only f c : ∃ c', kfio_bio_set_cpu f c = set_cpu c' f
}.

(** A bio as the block layer delivers it. *)
Record bio_ok (b : bio) : Prop := {
  ok_sector : 0 <= bi_sector b;
  ok_size : 0 <= bi_size b < 2 ^ 32;
  ok_vecs : Forall bvec_ok (bi_vecs b);
  ok_count : Z.of_nat (length (bi_vecs b)) < 2 ^ 31;
  ok_total : zsum bv_len (bi_vecs b) = bi_size b
}.

Lemma bio_ok_next b v : bio_ok b → bio_ok (next_set v b).
Proof. intros []. by split. Qed.

(** ** Mapping a bio into a list, both ways it can end *)

Lemma map_bio_cases lsg b :
  sgl_wf lsg → Forall in_page (used lsg) → bio_ok b →
  ∃ lsg' rval, kfio_sgl_map_bio lsg (bi_vecs b) = Ok (lsg', rval) ∧ sgl_wf lsg' ∧ Forall in_page (used lsg')
    ∧ (rval = 0 ∧ sgl_bytes lsg' = sgl_bytes lsg ++ bio_bytes (bi_vecs b)
         ∧ sgl_size lsg' = u32 (sgl_size lsg + bi_size b)
       ∨ rval ≠ 0 ∧ used lsg' = used lsg ∧ sgl_size lsg' = sgl_size lsg).
Proof.
  intros Hwf Hin Hok. destruct (decide (num_entries lsg + Z.of_nat (length (bi_vecs b)) <= max_entries lsg)) as [Hr|Hr].
  - destruct (map_bio_fits lsg (bi_vecs b) Hwf Hin (ok_vecs _ Hok) Hr) as (lsg' & E & W & I & B & _ & _ & Z).
    exists lsg', 0. split_and!; try done. left. split_and!; try done. by rewrite Z, (ok_total _ Hok).
  - exists lsg, (- EAGAIN). unfold kfio_sgl_map_bio. rewrite (wrapu_small 32).
    2:{ pose proof (wf_max _ Hwf). pose proof (wf_num _ Hwf). pose proof (ok_count _ Hok).
        unfold in_u. change (2 ^ 31) with 2147483648 in *. change (2 ^ 32) with 4294967296. lia. }
    destruct (_ >? _) eqn:E; [|lia]. split_and!; try done. by right.
Qed.

(** ** Requests that carry a list of bios *)

Definition bio_cmd (b : bio) : Z :=
  if kfio_bio_is_discard b then KBIO_CMD_DISCARD
  else if bio_is_write b then KBIO_CMD_WRITE else KBIO_CMD_READ.

(** The request [f] carries the bios [bs]: it has their operation, covers their
    blocks one after the other, and its scatter-gather list has their bytes in
    order. *)
Record carries (bdev : fio_bdev) (f : kfio_bio) (bs : list bio) : Prop := {
  ca_ok : Forall bio_ok bs;
  ca_bdev : fbio_bdev f = bdev;
  ca_completor : fbio_completor f = kfio_bio_completor_cb;
  ca_cmd b : b ∈ bs → fbio_cmd f = bio_cmd b;
  ca_base : in_u 64 (fr_base (fbio_range f));
  ca_length : fr_length (fbio_range f) = zsum (linux_bio_get_blen bdev) bs;
  ca_place k b : bs !! k = Some b →
    linux_bio_get_bid bdev b = u64 (fr_base (fbio_range f) + zsum (linux_bio_get_blen bdev) (take k bs));
  ca_merged : (1 < length bs)%nat → fr_length (fbio_range f) <= FUSION_MAX_SECTORS_PER_OS_RW_REQUEST;
  ca_sgl : sgl_wf (fbio_sgl f) ∧ Forall in_page (used (fbio_sgl f));
  ca_bytes : fbio_cmd f ≠ KBIO_CMD_DISCARD →
    sgl_bytes (fbio_sgl f) = concat ((λ b, bio_bytes (bi_vecs b)) <$> bs)
    ∧ kfio_sgl_size (fbio_sgl f) = u32 (zsum bi_size bs)
}.

Lemma blen_range bdev b :
  0 < bdev_block_size bdev → bio_ok b → 0 <= linux_bio_get_blen bdev b < 2 ^ 32.
Proof.
  intros Hbs [_ Hs _ _ _]. unfold linux_bio_get_blen. split; [apply Z.div_pos; lia|].
  apply Z.le_lt_trans with (bi_size b); [|lia]. apply Z.div_le_upper_bound; nia.
Qed.

Lemma bid_range bdev b : 0 < bdev_block_size bdev → in_u 64 (linux_bio_get_bid bdev b).
Proof.
  intros Hbs. unfold linux_bio_get_bid, in_u.
  pose proof (wrapu_range 64 (bi_sector b * KERNEL_SECTOR_SIZE) ltac:(lia)) as [H1 H2]. split.
  - apply Z.div_pos; lia.
  - apply Z.le_lt_trans with (u64 (bi_sector b * KERNEL_SECTOR_SIZE)); [|done]. apply Z.div_le_upper_bound; nia.
Qed.

Lemma carries_length bdev f bs :
  0 < bdev_block_size bdev → carries bdev f bs → bs ≠ [] → 0 <= fr_length (fbio_range f) < 2 ^ 32.
Proof.
  intros Hbs [Hok _ _ _ _ Hlen _ Hmax _ _] Hne.
  assert (0 <= zsum (linux_bio_get_blen bdev) bs).
  { clear -Hok Hbs. induction Hok as [|b bs Hb _ IH]; simpl; [lia|].
    pose proof (blen_range bdev b Hbs Hb). lia. }
  rewrite Hlen in *. split; [done|]. destruct bs as [|b [|b' bs]]; [done| |].
  - apply list.Forall_cons in Hok as [Hb _]. pose proof (blen_range bdev b Hbs Hb). simpl. lia.
  - apply Z.le_lt_trans with FUSION_MAX_SECTORS_PER_OS_RW_REQUEST; [|done]. apply Hmax. simpl. lia.
Qed.

(** Replacing the list by one with the same contents. *)
Lemma carries_sgl bdev f bs sgl :
  carries bdev f bs → sgl_wf sgl → used sgl = used (fbio_sgl f) → sgl_size sgl = sgl_size (fbio_sgl f) →
  carries bdev (set_sgl sgl f) bs.
Proof.
  intros [? ? ? ? ? ? ? ? [? Hin] Hby] Hwf Hu Hz. split; try done; simpl.
  - by rewrite Hu.
  - unfold sgl_bytes, kfio_sgl_size. by rewrite Hu, Hz.
Qed.

Section laws.
Context {HL : CoreLaws} (dv : devices) (q : rq_ptr) (bdev : fio_bdev).
Context (Hq : queue_bdev dv q = Ok bdev) (Hbs : 0 < bdev_block_size bdev).

(** What [kfio_map_to_fbio] gives back when it fails: the request, if it had one. *)
Definition free_events (freed : option kfio_bio) : list event :=
  match freed with None => [] | Some f => [FreeFbio [f]] end.

Lemma map_to_fbio_spec w i b :
  w_bios w !! i = Some b → bio_ok b →
  ∃ r w', kfio_map_to_fbio dv q (Some i) w = Ok (r, w') ∧ w_bios w' = w_bios w
    ∧ match r with
      | None => ∃ freed, w_events w' = w_events w ++ free_events freed
      | Some f => w_events w' = w_events w ∧ carries bdev f [b] ∧ fbio_parameter f = Some i
      end.
Proof.
  intros Hb Hok. unfold kfio_map_to_fbio. rewrite Hq. erewrite stateful_bind_ok; [|done]. cbv beta. erewrite stateful_bind_ok; [|unfold load; by rewrite Hb]. cbv beta iota.
  assert (∀ e, e = w_events w → ∃ freed, e = w_events w ++ free_events freed) as Hnone.
  { intros e ->. exists None. by rewrite app_nil_r. }
  destruct (malformed bdev b); [by eexists _, _; split; [done|]; split; [done|]; apply Hnone|].
  unfold kfio_bio_alloc. erewrite stateful_bind_ok; [|done]. cbv beta iota.
  destruct (kfio_bio_alloc_result _ _) as [f|] eqn:Ef; [|by eexists _, _; split; [done|]; auto].
  destruct (alloc_fresh _ _ _ Ef) as (Hwf & Hn & Hd).
  unfold kfio_set_comp_cpu. set (f0 := set_completion _ _ _).
  destruct (set_cpu_only f0 kfio_current_cpu) as [c ->]. set (f1 := set_cpu c f0).
  assert (used (fbio_sgl f) = []) as Hu by (unfold used; by rewrite Hn).
  assert (∀ f2, fbio_bdev f2 = bdev → fbio_completor f2 = kfio_bio_completor_cb →
            fbio_range f2 = fbio_range f1 → fbio_cmd f2 = bio_cmd b →
            sgl_wf (fbio_sgl f2) → Forall in_page (used (fbio_sgl f2)) →
            (fbio_cmd f2 ≠ KBIO_CMD_DISCARD → sgl_bytes (fbio_sgl f2) = bio_bytes (bi_vecs b)
               ∧ sgl_size (fbio_sgl f2) = u32 (bi_size b)) → carries bdev f2 [b]) as Hmake.
  { intros f2 E1 E2 E3 E4 W2 I2 B2. split; try done; rewrite ?E3; simpl.
    - by apply Forall_singleton.
    - intros b' ->%list_elem_of_singleton. done.
    - by apply bid_range.
    - lia.
    - intros [|k] b'; simpl; [|done]. intros [= <-]. rewrite Z.add_0_r.
      rewrite wrapu_small; [done|by apply bid_range].
    - lia.
    - intros Hc. destruct (B2 Hc) as [-> Hz]. rewrite app_nil_r, Z.add_0_r. done. }
  destruct (kfio_bio_is_discard b) eqn:Ed.
  { eexists _, _. split; [done|]. split; [done|]. split; [done|]. split; [|done].
    apply Hmake; try done; simpl; [unfold bio_cmd; by rewrite Ed|by rewrite Hu]. }
  set (f2 := if bio_is_write b then _ else _).
  assert (fbio_sgl f2 = fbio_sgl f ∧ fbio_bdev f2 = bdev ∧ fbio_completor f2 = kfio_bio_completor_cb
          ∧ fbio_range f2 = fbio_range f1 ∧ fbio_cmd f2 = bio_cmd b ∧ fbio_parameter f2 = Some i)
    as (Es & Eb & Ec & Er & Em & Ep).
  { unfold f2, bio_cmd. rewrite Ed. by destruct (bio_is_write b). }
  rewrite Es. destruct (map_bio_cases (fbio_sgl f) b Hwf ltac:(by rewrite Hu) Hok)
    as (sgl & rval & E & W & I & Hcase).
  rewrite E. erewrite stateful_bind_ok; [|done]. cbv beta iota.
  destruct Hcase as [(-> & Hby & Hz)|(Hr & _ & _)].
  - eexists _, _. split; [done|]. split; [done|]. split; [done|]. split; [|done].
    apply Hmake; try done. intros _. simpl. split.
    + rewrite Hby. unfold sgl_bytes. by rewrite Hu.
    + rewrite Hz, (wf_size _ Hwf), Hu, wrapu_add by lia. done.
  - destruct (rval =? 0) eqn:Ez; [lia|]. eexists _, _. split; [done|]. split; [done|].
    by exists (Some (set_sgl sgl f2)).
Qed.

Lemma add_bio_spec w f bs i b :
  w_bios w !! i = Some b → bio_ok b → carries bdev f bs → bs ≠ [] →
  ∃ f' r, kfio_kbio_add_bio f (Some i) w = Ok ((f', r), w) ∧ fbio_parameter f' = fbio_parameter f
    ∧ (r = 0 ∧ carries bdev f' (bs ++ [b]) ∨ r ≠ 0 ∧ carries bdev f' bs).
Proof.
  intros Hb Hok Hc Hne. unfold kfio_kbio_add_bio. erewrite stateful_bind_ok; [|unfold load; by rewrite Hb]. cbv beta iota.
  destruct (not_mergeable f b) eqn:Em; [exists f, 1; split_and!; auto|].
  pose proof Hc as [Hoks Hd Hcb Hcmd Hbase Hlen Hpl Hmax [Hwf Hin] Hby].
  destruct (map_bio_cases (fbio_sgl f) b Hwf Hin Hok) as (sgl & rval & E & W & I & Hcase).
  rewrite E. erewrite stateful_bind_ok; [|done]. cbv beta iota.
  destruct Hcase as [(-> & Hby' & Hz)|(Hr & Hu & Hz)].
  2:{ destruct (rval =? 0) eqn:Ez; [lia|]. eexists _, 1. split; [done|]. split; [done|]. right.
      split; [done|]. by apply carries_sgl. }
  eexists _, 0. split; [done|]. split; [done|]. left. split; [done|].
  unfold not_mergeable in Em. rewrite !orb_false_iff in Em.
  destruct Em as ((((((Edis & Ew) & Er) & _) & _) & Eub) & Emx).
  rewrite Hd in Emx, Eub. pose proof (blen_range bdev b Hbs Hok) as Hbl.
  assert (bio_cmd b = fbio_cmd f) as Ecmd.
  { unfold bio_cmd. rewrite Edis. destruct (bio_is_write b); cbn [negb andb] in Ew, Er;
      [by apply negb_false_iff, Z.eqb_eq in Ew|by apply negb_false_iff, Z.eqb_eq in Er]. }
  apply negb_false_iff, Z.eqb_eq in Eub.
  assert (∃ b0, b0 ∈ bs) as [b0 Hb0] by (destruct bs as [|b0 ?]; [done|exists b0; by left]).
  assert (fbio_cmd f ≠ KBIO_CMD_DISCARD) as Hnd.
  { rewrite <- Ecmd. unfold bio_cmd. rewrite Edis. by destruct (bio_is_write b). }
  pose proof (carries_length bdev f bs Hbs Hc Hne) as Hlr. change (2 ^ 32) with 4294967296 in *. unfold FUSION_MAX_SECTORS_PER_OS_RW_REQUEST in *.
  rewrite wrapu_small in Emx by (unfold in_u; change (2 ^ 64) with 18446744073709551616; lia).
  simpl. rewrite Hd. rewrite (wrapu_small 64 (fr_length _ + _)) by (unfold in_u; change (2 ^ 64) with 18446744073709551616; lia).
  split; simpl; try done.
  - apply Forall_app. split; [done|]. by apply Forall_singleton.
  - intros b' [Hb'| ->%list_elem_of_singleton]%elem_of_app; [by apply Hcmd|done].
  - rewrite zsum_app, Hlen. simpl. lia.
  - intros k b' [Hk|[Hk Hb']]%lookup_app_Some.
    + rewrite take_app_le by (apply lookup_lt_Some in Hk; lia). by apply Hpl.
    + destruct (k - length bs)%nat as [|m] eqn:Ek; [|done]. injection Hb' as <-.
      rewrite take_app_ge by lia. rewrite Ek, app_nil_r, <- Hlen, <- Eub. done.
  - intros _. rewrite Z.gtb_ltb, Z.ltb_ge in Emx. exact Emx.
  - intros _. destruct (Hby Hnd) as [Eby Esz]. rewrite Hby', Eby, fmap_app, concat_app. simpl.
    rewrite app_nil_r. split; [done|]. unfold kfio_sgl_size in *. rewrite Hz, Esz, zsum_app, wrapu_add by lia.
    simpl. f_equal. lia.
Qed.

Lemma elem_of_concat {A} (a : A) l ls : a ∈ l → l ∈ ls → a ∈ concat ls.
Proof. rewrite !list_elem_of_In. intros Ha Hl. apply in_concat. eauto. Qed.

(** ** Batches *)

(** A batch: a request with the chain of its bios, or a bio that got none. *)
Inductive batch :=
| Sent (f : kfio_bio) (ids : list bio_id)
| Failed (i : bio_id) (freed : option kfio_bio).

Definition batch_ids (x : batch) : list bio_id := match x with Sent _ ids => ids | Failed i _ => [i] end.

Definition batch_events (x : batch) : list event :=
  match x with
  | Sent f _ => [Submit [f]]
  | Failed i freed => free_events freed ++ [EndIo i (errno_to_blk_status (- EIO))]
  end.

(** The bio [i] as it was handed over, unlinked. *)
Definition unlinked (h0 : gmap bio_id bio) (i : bio_id) : option bio := next_set None <$> h0 !! i.

Definition batch_ok (h0 h : gmap bio_id bio) (x : batch) : Prop :=
  match x with
  | Sent f ids =>
      ids ≠ [] ∧ bchain h (fbio_parameter f) ids
      ∧ ∃ bs, Forall2 (λ i b, unlinked h0 i = Some b) ids bs ∧ carries bdev f bs
  | Failed i _ => h !! i = None
  end.

(** The loop between two rounds: [ids] are the bios of the open request. *)
Definition pending (h0 h : gmap bio_id bio) (tail : bio_ptr) (fbio : option kfio_bio) (ids : list bio_id) : Prop :=
  match fbio with
  | None => tail = None ∧ ids = []
  | Some f => batch_ok h0 h (Sent f ids) ∧ tail = list.last ids
  end.

Lemma batch_ok_frame h0 h h' x :
  (∀ j, j ∈ batch_ids x → h' !! j = h !! j) → batch_ok h0 h x → batch_ok h0 h' x.
Proof.
  destruct x as [f ids|i freed]; simpl; intros Hs.
  - intros (Hne & Hc & Hbs'). split_and!; try done. by eapply bchain_frame.
  - intros <-. apply Hs. by left.
Qed.

(** Submitting the open request closes its batch. *)
Definition close (fbio : option kfio_bio) (ids : list bio_id) : list batch :=
  match fbio with None => [] | Some f => [Sent f ids] end.

(** What a part of the loop did, from [w] to [w']: it closed the batches
    [closed] and left the request [fbio] with the bios [ids] open. *)
Record progress (h0 : gmap bio_id bio) (w w' : world) (todo : list bio_id) (closed : list batch)
    (tail : bio_ptr) (fbio : option kfio_bio) (ids : list bio_id) : Prop := {
  pr_ids : concat (batch_ids <$> closed) ++ ids = todo;
  pr_events : w_events w' = w_events w ++ concat (batch_events <$> closed);
  pr_closed : Forall (batch_ok h0 (w_bios w')) closed;
  pr_pending : pending h0 (w_bios w') tail fbio ids;
  pr_frame j : j ∉ todo → w_bios w' !! j = w_bios w !! j
}.

Lemma complete_run w i b error :
  w_bios w !! i = Some b →
  __kfio_bio_complete (Some i) error w
  = Ok (tt, mk_world (delete i (w_bios w)) (w_allocs w)
              (w_events w ++ [EndIo i (if negb (error =? 0) then errno_to_blk_status error else bi_status b)])).
Proof.
  intros Hb. unfold __kfio_bio_complete. erewrite stateful_bind_ok; [|unfold load; by rewrite Hb]. done.
Qed.

Lemma kickoff_fresh_spec h0 w i b :
  unlinked h0 i = Some b → w_bios w !! i = Some b → bio_ok b →
  ∃ tail fbio w' closed ids,
    kickoff_fresh dv q None (Some i) w = Ok ((tail, fbio), w') ∧ progress h0 w w' [i] closed tail fbio ids.
Proof.
  intros Hi Hb Hok. destruct (map_to_fbio_spec w i b Hb Hok) as (r & w1 & E & Eh & Hr).
  unfold kickoff_fresh. erewrite stateful_bind_ok; [|exact E]. destruct r as [f|].
  - destruct Hr as (Ev & Hc & Hp). exists (Some i), (Some f), w1, [], [i]. split; [done|]. split; try done.
    + by rewrite app_nil_r.
    + split; [|done]. split; [done|]. split.
      * rewrite Hp. split; [done|]. exists b. rewrite Eh. split; [done|].
        unfold unlinked in Hi. destruct (h0 !! i); [|done]. by injection Hi as <-.
      * exists [b]. split; [by constructor|done].
    + by rewrite Eh.
  - destruct Hr as [freed Ev].
    erewrite stateful_bind_ok; [|apply (complete_run _ _ b); by rewrite Eh].
    exists None, None. eexists _, [Failed i freed], []. split; [done|]. split; simpl; try done.
    + by rewrite app_nil_r, Ev, (assoc_L (++)).
    + apply Forall_singleton. simpl. apply lookup_delete_eq.
    + intros j Hj. rewrite Eh. apply lookup_delete_ne. set_solver.
Qed.

(** Two parts of the loop, one after the other. *)
Lemma progress_trans h0 w w1 w2 todo1 todo2 c1 t1 f1 ids1 c2 t2 f2 ids2 :
  NoDup (todo1 ++ todo2) →
  progress h0 w w1 todo1 c1 t1 f1 ids1 → progress h0 w1 w2 (ids1 ++ todo2) c2 t2 f2 ids2 →
  progress h0 w w2 (todo1 ++ todo2) (c1 ++ c2) t2 f2 ids2.
Proof.
  intros Hd [I1 E1 C1 P1 F1] [I2 E2 C2 P2 F2]. split; try done.
  - by rewrite fmap_app, concat_app, <- (assoc_L (++)), I2, <- I1, (assoc_L (++)).
  - by rewrite E2, E1, fmap_app, concat_app, (assoc_L (++)).
  - apply Forall_app. split; [|done]. apply list.Forall_forall. intros x Hx.
    eapply batch_ok_frame; [|by eapply list.Forall_forall; [exact C1|]].
    intros j Hj. apply F2. rewrite <- I1, <- (assoc_L (++)) in Hd. apply list.NoDup_app in Hd as (_ & Hd & _).
    apply Hd. eapply elem_of_concat; [exact Hj|]. by apply list_elem_of_fmap_2.
  - intros j Hj. rewrite not_elem_of_app in Hj. rewrite F2, F1; [done|tauto|].
    rewrite <- I1 in Hj. set_solver.
Qed.

Lemma unlinked_next h0 i b : unlinked h0 i = Some b → bi_next b = None.
Proof. unfold unlinked. destruct (h0 !! i); [|done]. by intros [= <-]. Qed.

Lemma carried_ne h0 (ids : list bio_id) bs :
  ids ≠ [] → Forall2 (λ i b, unlinked h0 i = Some b) ids bs → bs ≠ [].
Proof. intros Hne Hf ->. by apply list.Forall2_nil_inv_r in Hf. Qed.

Lemma kickoff_body_spec h0 w tail fbio ids i b :
  pending h0 (w_bios w) tail fbio ids → unlinked h0 i = Some b → w_bios w !! i = Some b → bio_ok b → i ∉ ids →
  ∃ tail' fbio' w' closed ids',
    kickoff_body dv q tail fbio (Some i) w = Ok ((tail', fbio'), w')
    ∧ progress h0 w w' (ids ++ [i]) closed tail' fbio' ids'.
Proof.
  intros Hp Hi Hb Hok Hni. destruct fbio as [f|]; simpl.
  2:{ destruct Hp as [-> ->]. by apply (kickoff_fresh_spec h0 w i b). }
  destruct Hp as ((Hne & Hc & bs & Hf & Hca) & ->).
  destruct (add_bio_spec w f bs i b Hb Hok Hca (carried_ne _ _ _ Hne Hf)) as (f' & r & E & Ep & Hr).
  unfold kickoff_body. erewrite stateful_bind_ok; [|exact E]. cbv beta iota.
  destruct Hr as [[-> Hca']|[Hr Hca']].
  - change (0 =? 0) with true. cbv iota. destruct (exists_last Hne) as (us & l & ->). rewrite last_snoc.
    destruct (bchain_live _ _ _ l Hc) as [bl Hl]; [set_solver|].
    erewrite stateful_bind_ok; [|unfold set_bi_next; erewrite stateful_bind_ok; [|unfold load; by rewrite Hl]; done].
    eexists (Some i), (Some f'), _, [], ((us ++ [l]) ++ [i]). split; [done|]. split; simpl; try done.
    + by rewrite app_nil_r.
    + split; [|by rewrite last_snoc]. split; [by destruct us|]. split.
      * rewrite Ep. eapply bchain_snoc; try done. by eapply unlinked_next.
      * exists (bs ++ [b]). split; [|done]. apply Forall2_app; [done|]. by constructor.
    + intros j Hj. rewrite lookup_insert_ne; [done|]. set_solver.
  - destruct (r =? 0) eqn:Er; [lia|]. cbv beta iota.
    set (w1 := mk_world (w_bios w) (w_allocs w) (w_events w ++ [Submit [f']])).
    erewrite (stateful_bind_ok _ _ _ tt w1) by done.
    destruct (kickoff_fresh_spec h0 w1 i b Hi Hb Hok) as (t & fb & w' & closed & ids' & E2 & Hpr).
    exists t, fb, w', ([Sent f' ids] ++ closed), ids'. split; [exact E2|].
    eapply (progress_trans h0 w w1 w' ids [i] _ None None []); [| |exact Hpr].
    + apply list.NoDup_app. split; [by eapply bchain_nodup|]. split; [|by apply NoDup_singleton].
      intros j Hj ->%list_elem_of_singleton. done.
    + split; simpl; try done.
      * by rewrite !app_nil_r.
      * apply Forall_singleton. split; [done|]. rewrite Ep. split; [done|]. by exists bs.
Qed.

(** The rest of the loop, with [rest] still linked in the heap as it was handed over. *)
Lemma kickoff_loop_spec h0 rest fuel w tail fbio ids p :
  pending h0 (w_bios w) tail fbio ids → NoDup (ids ++ rest) → rest ≠ [] →
  bchain h0 p rest → (∀ j, j ∈ rest → w_bios w !! j = h0 !! j) →
  (∀ j b, j ∈ rest → h0 !! j = Some b → bio_ok b) → (length rest <= fuel)%nat →
  ∃ tail' fbio' w' closed ids',
    kickoff_loop fuel dv q tail fbio p w = Ok (fbio', w')
    ∧ progress h0 w w' (ids ++ rest) closed tail' fbio' ids'.
Proof.
  revert fuel w tail fbio ids p. induction rest as [|i rest IH]; intros fuel w tail fbio ids p Hp Hd Hne Hc Hh Hok Hf; [done|].
  destruct fuel as [|fuel]; [simpl in Hf; lia|]. destruct Hc as [-> (b & Hb & Ht)]. simpl.
  assert (w_bios w !! i = Some b) as Hw by (rewrite Hh; [done|by left]).
  erewrite stateful_bind_ok; [|unfold load; by rewrite Hw]. cbv beta iota.
  set (w1 := with_bios (<[i := next_set None b]> (w_bios w)) w).
  erewrite (stateful_bind_ok _ _ _ tt w1).
  2:{ unfold set_bi_next. erewrite stateful_bind_ok; [|unfold load; by rewrite Hw]. done. }
  apply list.NoDup_app in Hd as Hd'. destruct Hd' as (Hd1 & Hd2 & Hd3). apply list.NoDup_cons in Hd3 as [Hd3 Hd4].
  destruct (kickoff_body_spec h0 w1 tail fbio ids i (next_set None b)) as (t & fb & w2 & c1 & ids1 & E1 & P1).
  - destruct fbio as [f|]; [|done]. destruct Hp as [Hp ->]. split; [|done].
    eapply batch_ok_frame; [|exact Hp]. intros j Hj. simpl. apply lookup_insert_ne. intros ->. apply (Hd2 j Hj). by left.
  - unfold unlinked. by rewrite Hb.
  - apply lookup_insert_eq.
  - apply bio_ok_next. eapply Hok; [|exact Hb]. by left.
  - intros Hin. apply (Hd2 i Hin). by left.
  - assert (progress h0 w w2 (ids ++ [i]) c1 t fb ids1) as P1'.
    { destruct P1 as [A1 A2 A3 A4 A5]. split; try done. intros j Hj. rewrite A5 by done.
      simpl. apply lookup_insert_ne. set_solver. }
    erewrite stateful_bind_ok; [|exact E1]. cbv beta iota.
    rewrite (assoc_L (++) ids [i] rest : ids ++ i :: rest = (ids ++ [i]) ++ rest) in *.
    destruct rest as [|i' rest'].
    + rewrite Ht. exists t, fb, w2, c1, ids1. split; [done|]. by rewrite app_nil_r.
    + pose proof Ht as [En _]. rewrite En in Ht |- *. pose proof (pr_ids _ _ _ _ _ _ _ _ P1') as Hids.
      destruct (IH fuel w2 t fb ids1 (Some i')) as (t' & fb' & w' & c2 & ids2 & E2 & P2); try done.
      * apply (pr_pending _ _ _ _ _ _ _ _ P1').
      * rewrite <- Hids, <- (assoc_L (++)) in Hd. by apply list.NoDup_app in Hd as (_ & _ & Hd).
      * intros j Hj. rewrite (pr_frame _ _ _ _ _ _ _ _ P1').
        -- apply Hh. by right.
        -- rewrite elem_of_app, list_elem_of_singleton. intros [Hj'| ->]; [|done].
           apply (Hd2 j Hj'). by right.
      * intros j b' Hj. apply Hok. by right.
      * simpl in Hf |- *. lia.
      * exists t', fb', w', (c1 ++ c2), ids2. split; [exact E2|].
        eapply progress_trans; [exact Hd|exact P1'|exact P2].
Qed.

(** The whole walk. *)
Lemma kickoff_batches w p ids :
  bchain (w_bios w) p ids → ids ≠ [] →
  (∀ j b, j ∈ ids → w_bios w !! j = Some b → bio_ok b) →
  ∃ w' batches, kfio_kickoff_plugged_io dv q p w = Ok (tt, w')
    ∧ concat (batch_ids <$> batches) = ids
    ∧ w_events w' = w_events w ++ concat (batch_events <$> batches)
    ∧ Forall (batch_ok (w_bios w) (w_bios w')) batches
    ∧ ∀ j, j ∉ ids → w_bios w' !! j = w_bios w !! j.
Proof.
  intros Hc Hne Hok.
  destruct (kickoff_loop_spec (w_bios w) ids (S (size (w_bios w))) w None None [] p)
    as (t & fb & w1 & closed & ids' & E & [I1 E1 C1 P1 F1]); try done.
  - by eapply bchain_nodup.
  - pose proof (bchain_size _ _ _ Hc). lia.
  - simpl in *. unfold kfio_kickoff_plugged_io. erewrite stateful_bind_ok; [|exact E].
    destruct fb as [f|].
    + destruct P1 as [P1 _]. eexists _, (closed ++ [Sent f ids']). split; [done|]. split_and!.
      * rewrite fmap_app, concat_app. simpl. by rewrite app_nil_r.
      * simpl. rewrite E1, fmap_app, concat_app, (assoc_L (++)). done.
      * apply Forall_app. split; [done|]. by apply Forall_singleton.
      * done.
    + destruct P1 as [_ ->]. rewrite app_nil_r in I1. exists w1, closed. by split_and!.
Qed.

(** C2: The chain of bios of a plug, sent to a queue that leads to a block device, is
    cut into batches, in order: every bio is in one batch, the bios of a batch are linked behind the parameter of one
    request that was submitted once and that carries them - same operation,
    consecutive blocks, at most 2048 blocks once merged, their bytes in order in
    its list - or the bio is alone and was failed with -EIO.  The walk never
    follows a bad pointer and touches no other bio. *)
Theorem kickoff_partitions w p ids :
  bchain (w_bios w) p ids → ids ≠ [] →
  (∀ j b, j ∈ ids → w_bios w !! j = Some b → bio_ok b) →
  ∃ w' batches, kfio_kickoff_plugged_io dv q p w = Ok (tt, w')
    ∧ concat (batch_ids <$> batches) = ids
    ∧ w_events w' = w_events w ++ concat (batch_events <$> batches)
    ∧ Forall (batch_ok (w_bios w) (w_bios w')) batches
    ∧ ∀ j, j ∉ ids → w_bios w' !! j = w_bios w !! j.
Proof. apply kickoff_batches. Qed.
End laws.

(** ** Completion *)

(** What the submitter of bio [i] is told. *)
Definition end_event (h : gmap bio_id bio) (error : Z) (i : bio_id) : event :=
  EndIo i (if negb (error =? 0) then errno_to_blk_status error
           else from_option bi_status 0 (h !! i)).

Definition chain_size (h : gmap bio_id bio) (ids : list bio_id) : Z :=
  zsum (λ i, from_option bi_size 0 (h !! i)) ids.

Lemma end_events_frame h h' error ids :
  (∀ j, j ∈ ids → h' !! j = h !! j) →
  end_event h' error <$> ids = end_event h error <$> ids ∧ chain_size h' ids = chain_size h ids.
Proof.
  intros Hs. split.
  - apply list_fmap_ext. intros k j Hj. unfold end_event. rewrite Hs; [done|].
    by eapply list_elem_of_lookup_2.
  - apply zsum_ext. intros j Hj. by rewrite Hs.
Qed.

Lemma foldr_delete (h : gmap bio_id bio) i ids : foldr delete (delete i h) ids = delete i (foldr delete h ids).
Proof. induction ids as [|j ids IH]; cbn; [done|]. by rewrite IH, delete_delete. Qed.

Lemma complete_loop_spec fuel w p error acc ids :
  bchain (w_bios w) p ids → ids ≠ [] → (length ids <= fuel)%nat → in_u 64 acc →
  complete_loop fuel p error acc w
  = Ok (u64 (acc + chain_size (w_bios w) ids),
        mk_world (foldr delete (w_bios w) ids) (w_allocs w)
          (w_events w ++ (end_event (w_bios w) error <$> ids))).
Proof.
  revert w p acc ids. induction fuel as [|fuel IH]; intros w p acc [|i ids] Hc Hne Hf Hacc; simpl in Hf; try lia; try done.
  pose proof (bchain_nodup _ _ _ Hc) as Hd. apply list.NoDup_cons in Hd as [Hni Hd].
  destruct Hc as [-> (b & Hb & Ht)].
  cbn [complete_loop]. erewrite stateful_bind_ok; [|unfold load; by rewrite Hb]. cbv beta iota zeta.
  erewrite stateful_bind_ok; [|by apply complete_run].
  assert (∀ j, j ∈ ids → delete i (w_bios w) !! j = w_bios w !! j) as Hs.
  { intros j Hj. apply lookup_delete_ne. by intros ->. }
  destruct (end_events_frame (w_bios w) (delete i (w_bios w)) error ids Hs) as [Ee Ec].
  unfold chain_size, end_event in *. cbn [fmap list_fmap zsum foldr]. rewrite Hb. cbn [from_option].
  change (foldr _ 0 ids) with (zsum (λ i, from_option bi_size 0 (w_bios w !! i)) ids).
  destruct ids as [|i' ids].
  - rewrite Ht. cbn [zsum foldr fmap list_fmap]. by rewrite Z.add_0_r.
  - pose proof Ht as [En _]. rewrite En. rewrite En in Ht. rewrite IH with (ids := i' :: ids).
    + cbn [w_bios w_allocs w_events]. rewrite Ec, Ee, foldr_delete, wrapu_add by lia. f_equal. f_equal; [f_equal; lia|].
      f_equal. by rewrite <- (assoc_L (++)).
    + by apply (bchain_frame (w_bios w)).
    + done.
    + simpl in *. lia.
    + apply wrapu_range. lia.
Qed.

Lemma complete_chain_spec w p error ids :
  bchain (w_bios w) p ids → ids ≠ [] →
  complete_loop (S (size (w_bios w))) p error 0 w
  = Ok (u64 (chain_size (w_bios w) ids),
        mk_world (foldr delete (w_bios w) ids) (w_allocs w)
          (w_events w ++ (end_event (w_bios w) error <$> ids))).
Proof.
  intros Hc Hne. rewrite (complete_loop_spec _ _ _ _ _ ids); try done.
  pose proof (bchain_size _ _ _ Hc). lia.
Qed.

Lemma lookup_delete_chain (h : gmap bio_id bio) ids j :
  foldr delete h ids !! j = if decide (j ∈ ids) then None else h !! j.
Proof.
  induction ids as [|i ids IH]; cbn [foldr].
  - rewrite decide_False; [done|apply not_elem_of_nil].
  - destruct (decide (j = i)) as [->|Hji].
    + rewrite lookup_delete_eq, decide_True; [done|by left].
    + rewrite lookup_delete_ne by done. rewrite IH. repeat case_decide; set_solver.
Qed.

(** Completing a request hands back every bio of its chain exactly once, in
    order, with the status of the error (or the bio's own when there was none),
    and never looks at a bio after handing it back. *)
Theorem completor_ends_chain w f error ids :
  bchain (w_bios w) (fbio_parameter f) ids → ids ≠ [] →
  ∃ w', kfio_bio_completor f error w = Ok (tt, w')
    ∧ w_events w' = w_events w ++ (end_event (w_bios w) error <$> ids)
    ∧ (∀ j, w_bios w' !! j = if decide (j ∈ ids) then None else w_bios w !! j).
Proof.
  intros Hc Hne. unfold kfio_bio_completor. erewrite stateful_bind_ok; [|by apply complete_chain_spec].
  eexists. split; [done|]. split; [done|]. apply lookup_delete_chain.
Qed.

(** A write is never marked synchronous: [__kfio_bio_sync] compares the bits
    of the operation with [REQ_SYNC], which is a flag outside them, so no
    request made from a bio has [KBIO_FLG_SYNC]. *)
Theorem sync_never_detected b :
  REQ_SYNC ≠ 0 → Z.land REQ_SYNC REQ_OP_MASK = 0 →
  __kfio_bio_sync b = false ∧ Z.land (write_flags b) KBIO_FLG_SYNC = 0.
Proof.
  intros Hne Hand.
  assert (__kfio_bio_sync b = false) as E.
  { unfold __kfio_bio_sync, bio_flags. apply Z.eqb_neq. intros E. apply Hne.
    rewrite <- E in Hand |- *. by rewrite <- Z.land_assoc, Z.land_diag in Hand. }
  split; [done|]. unfold write_flags. rewrite E. by case_match.
Qed.

(** No chain is ever submitted as an atomic write: [__kfio_bio_atomic]
    answers 0, so [kfio_bio_chain_count] fails on the first bio and every bio
    of the chain is completed with -EINVAL. *)
Theorem atomic_chains_are_refused dv q bdev w p ids :
  queue_bdev dv q = Ok bdev →
  bchain (w_bios w) p ids → ids ≠ [] →
  ∃ w', kfio_submit_atomic_chain dv q p w = Ok (tt, w')
    ∧ w_events w' = w_events w ++ ((λ i, EndIo i (errno_to_blk_status (- EINVAL))) <$> ids).
Proof.
  intros Hq Hc Hne. destruct ids as [|i ids]; [done|]. pose proof Hc as [-> (b & Hb & _)].
  unfold kfio_submit_atomic_chain. rewrite Hq. erewrite stateful_bind_ok; [|done]. cbv beta.
  assert (kfio_bio_chain_count bdev (Some i) w = Ok (- EINVAL, w)) as E.
  { unfold kfio_bio_chain_count. assert (size (w_bios w) ≠ 0%nat) as Hsz.
    { intros Hz. apply map_size_empty_inv in Hz. by rewrite Hz in Hb. }
    destruct (size (w_bios w)) as [|n]; [done|]. cbn [chain_count_loop].
    erewrite stateful_bind_ok; [|erewrite stateful_bind_ok; [|unfold load; by rewrite Hb]; done]. done. }
  erewrite stateful_bind_ok; [|exact E]. change (- EINVAL <? 0) with true. cbv iota.
  unfold complete_bio_chain. erewrite stateful_bind_ok.
  2:{ erewrite stateful_bind_ok; [|by apply complete_chain_spec]. done. }
  eexists. split; [done|]. done.
Qed.
End spec.

(** ** Instances *)

(** The operation is the low byte of [bi_opf], odd operations write. *)
Definition linux_layer : BlockLayer := {|
  REQ_OP_MASK := 255; REQ_OP_DISCARD := 3; REQ_SYNC := 2048;
  op_of f := Z.land f 255; is_write_of f := Z.testbit f 0; errno_to_blk_status e := e |}.

Definition fresh_fbio (bdev : fio_bdev) : kfio_bio :=
  mk_fbio bdev (empty_sgl 8) 0 KBIO_CMD_INVALID 0 no_completor None (mk_range 0 0).

(** A pool that is empty at the allocations with a number from 8 on. *)
Definition small_core : Core := {|
  kfio_bio_alloc_result n bdev := if (n <? 8)%nat then Some (fresh_fbio bdev) else None;
  kfio_bio_alloc_chain_result n bdev len := None;
  kfio_bio_set_cpu f c := set_cpu c f;
  kfio_current_cpu := 3;
  kfio_bdev_max_atomic_iovs bdev := 64;
  kfio_bdev_max_atomic_total_write_size_bytes bdev := 1048576 |}.

Lemma small_core_laws : @CoreLaws small_core.
Proof.
  split.
  - intros n bdev f E. unfold kfio_bio_alloc_result, small_core in E.
    destruct (n <? 8)%nat; [|discriminate E]. injection E as <-.
    by split_and!.
  - intros f c. by exists c.
Qed.

Definition sample_bdev : fio_bdev := mk_bdev 0 1000 512 64 0.
Definition sample_devices : devices := {|
  dv_queuedata d i := if (d =? 0)%nat then Some (Some 0%nat) else None;
  dv_disks d := if (d =? 0)%nat then Some (mk_fields sample_bdev (RqAt 0 1)) else None |}.

(** Two writes of consecutive blocks and a read, in a chain. *)
Definition sample_bios : gmap bio_id bio :=
  {[ 1%positive := mk_bio 8 1024 1 0 [mk_bvec 7 1024 0] (Some 2%positive) 0;
     2%positive := mk_bio 10 512 1 0 [mk_bvec 7 512 1024] (Some 3%positive) 0;
     3%positive := mk_bio 11 512 0 0 [mk_bvec 9 512 0] None 0 ]}.
Definition sample_world : world := mk_world sample_bios 0 [].

Lemma sample_chain : bchain sample_bios (Some 1%positive) [1; 2; 3]%positive.
Proof. do 3 (split; [done|]; eexists; split; [vm_compute; reflexivity|]). done. Qed.

Lemma sample_bios_ok j b : sample_bios !! j = Some b → bio_ok b.
Proof.
  unfold sample_bios. rewrite !lookup_insert_Some, lookup_singleton_Some.
  intros [[_ <-]|[_ [[_ <-]|[_ [_ <-]]]]];
    (split; simpl; [lia|lia| |lia|lia]; apply Forall_singleton; unfold bvec_ok, FUSION_PAGE_SIZE; simpl; lia).
Qed.

Lemma kickoff_partitions_witness :
  ∃ w' batches, @kfio_kickoff_plugged_io linux_layer small_core sample_devices (RqAt 0 1) (Some 1%positive) sample_world
                = Ok (tt, w') ∧ concat (batch_ids <$> batches) = [1; 2; 3]%positive
                ∧ (length batches = 2)%nat.
Proof.
  destruct (@kickoff_partitions linux_layer small_core small_core_laws sample_devices (RqAt 0 1) sample_bdev eq_refl eq_refl sample_world
              (Some 1%positive) [1; 2; 3]%positive sample_chain ltac:(done)
              (λ j b _ Hj, sample_bios_ok j b Hj)) as (w' & batches & E & Hids & Hev & _).
  exists w', batches. split; [exact E|]. split; [exact Hids|].
  vm_compute in E. injection E as <-.
  destruct batches as [|[f1 l1|i1 [f1|]] [|[f2 l2|i2 [f2|]] [|[f3 l3|i3 [f3|]] bs]]]; vm_compute in Hev;
    simplify_eq; done.
Defined.

Lemma completor_ends_chain_witness :
  ∃ w', @kfio_bio_completor linux_layer
          (set_completion kfio_bio_completor_cb (Some 1%positive) (fresh_fbio sample_bdev)) (- EIO) sample_world
        = Ok (tt, w') ∧ w_events w' = [EndIo 1 (-5); EndIo 2 (-5); EndIo 3 (-5)].
Proof.
  destruct (@completor_ends_chain linux_layer sample_world
              (set_completion kfio_bio_completor_cb (Some 1%positive) (fresh_fbio sample_bdev)) (- EIO)
              [1; 2; 3]%positive sample_chain ltac:(done)) as (w' & E & Hev & _).
  exists w'. split; [exact E|exact Hev].
Defined.

Lemma sync_never_detected_witness :
  @__kfio_bio_sync linux_layer (mk_bio 0 0 (2048 + 1) 0 [] None 0) = false.
Proof. by apply (@sync_never_detected linux_layer). Defined.

Lemma atomic_chains_are_refused_witness :
  ∃ w', @kfio_submit_atomic_chain linux_layer small_core sample_devices (RqAt 0 1) (Some 1%positive) sample_world = Ok (tt, w')
        ∧ w_events w' = [EndIo 1 (-22); EndIo 2 (-22); EndIo 3 (-22)].
Proof.
  destruct (@atomic_chains_are_refused linux_layer small_core sample_devices (RqAt 0 1) sample_bdev sample_world (Some 1%positive)
              [1; 2; 3]%positive eq_refl sample_chain ltac:(done)) as (w' & E & Hev).
  exists w'. split; [exact E|exact Hev].
Defined.
