(* ===== verification/KPlug.v ===== *)
(** * Submission of bios: plugging and back-pressure (kblock.c)

    [kfio_submit_bio] holds writes off while the device is stalled, and then
    sends the bio to the core at once or queues it on the plug of the calling
    thread, which the kernel empties later through [kfio_unplug_cb]. *)
From S2P Require Import Prelude Condvar Ranges KScatter KScatterBio KBio.

(** ** Back-pressure *)


Section holdoff.
(** What the calling thread observes: [stalled k] is the holdoff bit at its
    [k]-th test, [waited k] the result of its [k]-th timed wait. *)
Context (stalled : nat → bool) (waited : nat → Z).

(** The inner [while]: the last reason, and the tests and waits made so far. *)
Fixpoint holdoff_wait_loop (fuel : nat) (reason : Z) (tests waits : nat) : outcome (Z * nat * nat) :=
  match fuel with
  | O => Fault NoFuel
  | S fuel =>
      if stalled tests then
        let reason := waited waits in
        if reason =? FUSION_WAIT_TIMEDOUT then Ok (reason, S tests, S waits)
        else holdoff_wait_loop fuel reason (S tests) (S waits)
      else Ok (reason, S tests, waits)
  end.

(** The outer [while]; the message that tells the seconds tests the bit, too. *)
Fixpoint holdoff_loop (fuel : nat) (count : Z) (tests waits : nat) : outcome (bool * nat * nat) :=
  match fuel with
  | O => Fault NoFuel
  | S fuel =>
      if stalled tests then
        '(reason, tests, waits) ← holdoff_wait_loop (S fuel) FUSION_WAIT_TRIGGERED (S tests) waits;
        if reason =? FUSION_WAIT_TIMEDOUT then
          let count := count + 1 in
          let tests := S tests in
          if count >=? 12 then Ok (negb (stalled tests), S tests, waits)
          else holdoff_loop fuel count tests waits
        else holdoff_loop fuel count tests waits
      else Ok (true, S tests, waits)
  end.

Definition holdoff_writes_under_pressure (fuel : nat) : outcome (bool * nat * nat) := holdoff_loop fuel 0 0 0.

(** ** How long a writer is held off *)

(** The timed waits that timed out, among those numbered from [a] to [b - 1]. *)
Definition timeouts (a b : nat) : Z :=
  zsum (λ k, if waited k =? FUSION_WAIT_TIMEDOUT then 1 else 0) (seq a (b - a)).

Lemma timeouts_self a : timeouts a a = 0.
Proof. unfold timeouts. by rewrite Nat.sub_diag. Qed.

Lemma timeouts_app a b c : (a <= b)%nat → (b <= c)%nat → timeouts a c = timeouts a b + timeouts b c.
Proof.
  intros Hab Hbc. unfold timeouts. replace (c - a)%nat with ((b - a) + (c - b))%nat by lia.
  rewrite seq_app, zsum_app. by replace (a + (b - a))%nat with b by lia.
Qed.

Lemma timeouts_step a : timeouts a (S a) = if waited a =? FUSION_WAIT_TIMEDOUT then 1 else 0.
Proof. unfold timeouts. replace (S a - a)%nat with 1%nat by lia. simpl. lia. Qed.

Lemma wait_loop_spec fuel reason tests waits r t w :
  reason ≠ FUSION_WAIT_TIMEDOUT →
  holdoff_wait_loop fuel reason tests waits = Ok (r, t, w) →
  (tests < t)%nat ∧ (waits <= w)%nat
  ∧ timeouts waits w = if r =? FUSION_WAIT_TIMEDOUT then 1 else 0.
Proof.
  revert reason tests waits. induction fuel as [|fuel IH]; intros reason tests waits Hr; [done|]. simpl.
  destruct (stalled tests).
  - destruct (waited waits =? FUSION_WAIT_TIMEDOUT) eqn:E.
    + intros [= <- <- <-]. rewrite timeouts_step, E. split_and!; try done; lia.
    + intros H. apply IH in H as (? & ? & Ht); [|by apply Z.eqb_neq].
      rewrite (timeouts_app _ (S waits)), timeouts_step, E by lia. split_and!; lia.
  - intros [= <- <- <-]. rewrite timeouts_self. apply Z.eqb_neq in Hr. rewrite Hr. split_and!; lia.
Qed.

Lemma holdoff_loop_spec fuel count tests waits r t w :
  0 <= count < 12 → holdoff_loop fuel count tests waits = Ok (r, t, w) →
  (tests < t)%nat ∧ (waits <= w)%nat ∧ stalled (t - 1) = negb r
  ∧ count + timeouts waits w <= 12 ∧ (r = false → count + timeouts waits w = 12).
Proof.
  revert count tests waits. induction fuel as [|fuel IH]; intros count tests waits Hc; [done|].
  cbn [holdoff_loop]. destruct (stalled tests) eqn:Es.
  2:{ intros [= <- <- <-]. rewrite timeouts_self. replace (S tests - 1)%nat with tests by lia.
      split_and!; try done; lia. }
  destruct (holdoff_wait_loop _ _ _ _) as [[[reason t1] w1]|] eqn:E; [|done]. simpl.
  apply wait_loop_spec in E as (Ht1 & Hw1 & Hn); [|done].
  destruct (reason =? FUSION_WAIT_TIMEDOUT).
  - destruct (count + 1 >=? 12) eqn:E12.
    + intros [= <- <- <-]. replace (S (S t1) - 1)%nat with (S t1) by lia.
      rewrite negb_involutive. split_and!; try done; lia.
    + intros H. apply IH in H as (? & ? & ? & ? & Hf); [|lia].
      rewrite (timeouts_app _ w1) by lia. split_and!; try done; try lia. intros Hr. specialize (Hf Hr). lia.
  - intros H. apply IH in H as (? & ? & ? & ? & Hf); [|lia].
    rewrite (timeouts_app _ w1) by lia. split_and!; try done; try lia. intros Hr. specialize (Hf Hr). lia.
Qed.

(** A silent, stalled device: each round is one timeout. *)
Lemma holdoff_loop_stalled fuel count tests waits :
  (∀ k, stalled k = true) → (∀ k, waited k = FUSION_WAIT_TIMEDOUT) →
  0 <= count < 12 → 12 - count <= Z.of_nat fuel →
  ∃ t w, holdoff_loop fuel count tests waits = Ok (false, t, w)
         ∧ Z.of_nat w = Z.of_nat waits + (12 - count).
Proof.
  intros Hs Hw. revert count tests waits. induction fuel as [|fuel IH]; intros count tests waits Hc Hf; [lia|].
  cbn [holdoff_loop]. rewrite Hs. simpl. rewrite Hs, Hw. simpl.
  destruct (count + 1 >=? 12) eqn:E.
  - rewrite Hs. eexists _, _. split; [done|]. lia.
  - destruct (IH (count + 1) (S (S (S tests))) (S waits)) as (t & w & Er & El); [lia|lia|].
    rewrite Er. exists t, w. split; [done|]. lia.
Qed.

Lemma wait_loop_cleared k fuel reason tests waits :
  (∀ j, (k <= j)%nat → stalled j = false) → (k - tests < fuel)%nat →
  ∃ r t w, holdoff_wait_loop fuel reason tests waits = Ok (r, t, w) ∧ (tests < t)%nat.
Proof.
  intros Hk. revert reason tests waits. induction fuel as [|fuel IH]; intros reason tests waits Hf; [lia|]. simpl.
  destruct (stalled tests) eqn:Es; [|eexists _, _, _; split; [done|lia]].
  destruct (waited waits =? FUSION_WAIT_TIMEDOUT); [eexists _, _, _; split; [done|lia]|].
  assert (tests < k)%nat by (destruct (decide (k <= tests)%nat) as [Hle|]; [by rewrite Hk in Es|lia]).
  destruct (IH (waited waits) (S tests) (S waits)) as (r & t & w & E & Ht); [lia|].
  exists r, t, w. split; [done|lia].
Qed.

Lemma holdoff_loop_cleared k fuel count tests waits :
  (∀ j, (k <= j)%nat → stalled j = false) → (k - tests < fuel)%nat →
  ∃ r t w, holdoff_loop fuel count tests waits = Ok (r, t, w).
Proof.
  intros Hk. revert count tests waits. induction fuel as [|fuel IH]; intros count tests waits Hf; [lia|].
  cbn [holdoff_loop]. destruct (stalled tests) eqn:Es; [|eauto].
  assert (tests < k)%nat by (destruct (decide (k <= tests)%nat) as [Hle|]; [by rewrite Hk in Es|lia]).
  destruct (wait_loop_cleared k (S fuel) FUSION_WAIT_TRIGGERED (S tests) waits Hk)
    as (r & t & w & E & Ht); [lia|].
  unfold mbind, outcome_bind. rewrite E. cbv beta iota.
  destruct (r =? FUSION_WAIT_TIMEDOUT); [destruct (count + 1 >=? 12); [eauto|]|]; apply IH; lia.
Qed.

(** A writer is held off for at most twelve timed waits that time out (one
    minute).  It is let through only when its last test found the device not
    stalled, and turned away only after twelve timeouts and a last test that
    found it stalled.  A device that stays silent and stalled turns it away
    after exactly twelve waits; once the stall is over for good, the call
    returns. *)
Theorem holdoff_bounded :
  (∀ fuel r t w, holdoff_writes_under_pressure fuel = Ok (r, t, w) →
     stalled (t - 1) = negb r ∧ timeouts 0 w <= 12 ∧ (r = false → timeouts 0 w = 12))
  ∧ ((∀ k, stalled k = true) → (∀ k, waited k = FUSION_WAIT_TIMEDOUT) →
     ∃ t, holdoff_writes_under_pressure 12 = Ok (false, t, 12%nat))
  ∧ (∀ k, (∀ j, (k <= j)%nat → stalled j = false) →
     ∃ r t w, holdoff_writes_under_pressure (S k) = Ok (r, t, w)).
Proof.
  unfold holdoff_writes_under_pressure. split_and!.
  - intros fuel r t w E. apply holdoff_loop_spec in E as (_ & _ & ? & ? & Hf); [|lia]. split_and!; [done|lia|].
    intros Hr. specialize (Hf Hr). lia.
  - intros Hs Hw. destruct (holdoff_loop_stalled 12 0 0 0 Hs Hw) as (t & w & E & El); [lia|lia|].
    assert (w = 12%nat) as -> by lia. by exists t.
  - intros k Hk. apply (holdoff_loop_cleared k); [done|lia].
Qed.
End holdoff.

(** ** Plugging *)

Definition USE_QUEUE_NONE : Z := 0.
Definition USE_QUEUE_RQ : Z := 3.
Definition USE_QUEUE_MQ : Z := 4.

(** One [struct kfio_plug] on the [cb_list] of a thread's plug; the callbacks of
    other drivers on that list are skipped by the search and left out. *)
Record kfio_plug := mk_plug { plug_disk : disk_ptr; bio_head : bio_ptr; bio_tail : bio_ptr }.

#[global] Instance kfio_plug_eq_dec : EqDecision kfio_plug.
Proof. solve_decision. Defined.

(** What the driver reads while submitting: the module parameter and the probe of
    [test_safe_plugging].  [bio_split_to_limits] is the kernel's. *)
Class Driver := {
  use_workqueue : Z;
  dangerous_plugging_callback : Z;
  bio_split_to_limits : bio_ptr → stateful world bio_ptr
}.

Section submit.
Context `{BlockLayer} `{Core} `{Driver}.

Definition kfio_bio_should_submit_now (b : bio) : bool := (bi_size b =? 0) || kfio_bio_is_discard b.

(** [disk] is [q->queuedata]; [cb_list] is [current->plug]: [None] when the
    thread has no plug.  Returns the list and the position of the plug of [disk] in it;
    [kmalloc_ok] tells whether the allocation of a new one succeeds. *)
Definition kfio_should_plug (cb_list : option (list kfio_plug)) (disk : disk_ptr) (kmalloc_ok : bool) :
    option (list kfio_plug * nat) :=
  if negb (use_workqueue =? USE_QUEUE_NONE) then None
  else if dangerous_plugging_callback =? 1 then None
  else
    plugs ← cb_list;
    match list_find (λ kplug, plug_disk kplug = disk) plugs with
    | Some (k, _) => Some (plugs, k)
    | None => if kmalloc_ok then Some (plugs ++ [mk_plug disk None None], length plugs) else None
    end.

(** Returns the plug and the chain to send now, if any. *)
Definition kfio_add_bio_to_plugged_list (plug : kfio_plug) (p : bio_ptr) : M (kfio_plug * bio_ptr) :=
  plug ← (if bio_tail plug is Some _
          then set_bi_next (bio_tail plug) p;; mret (mk_plug (plug_disk plug) (bio_head plug) p)
          else mret (mk_plug (plug_disk plug) p p));
  '(_, b) ← load p;
  if kfio_bio_should_submit_now b && (use_workqueue =? USE_QUEUE_NONE)
  then mret (mk_plug (plug_disk plug) None None, bio_head plug)
  else mret (plug, None).

(** The end of [kfio_submit_bio] without a plug. *)
Definition submit_unplugged (dv : devices) (queue : rq_ptr) (p : bio_ptr) : M unit :=
  fbio ← kfio_map_to_fbio dv queue p;
  match fbio with
  | Some f => kfio_bio_submit [f]
  | None => __kfio_bio_complete p (- EIO)
  end.

(** The end of [kfio_submit_bio] with the plug [k] of [plugs]. *)
Definition submit_plugged (dv : devices) (queue : rq_ptr) (plugs : list kfio_plug) (k : nat) (p : bio_ptr) :
    M (list kfio_plug) :=
  plug ← lift (of_option OutOfBounds (plugs !! k));
  '(plug, ret) ← kfio_add_bio_to_plugged_list plug p;
  (if ret is Some _ then kfio_kickoff_plugged_io dv queue ret else mret tt);;
  mret (<[k := plug]> plugs).

(** The call of [holdoff_writes_under_pressure], which reads the disk.  [stalled], [waited]
    and [fuel] are what the loop observes, and how long it may take. *)
Definition submit_holdoff (dv : devices) (disk : disk_ptr) (stalled : nat → bool) (waited : nat → Z) (fuel : nat) :
    outcome bool :=
  _ ← load_disk dv disk;
  '(ok, _, _) ← holdoff_writes_under_pressure stalled waited fuel;
  Ok ok.

(** [queue] is [bio->BIO_DISK->queue].  Returns the thread's plug.  Neither the
    bios nor the thread's plug are used while the writer is held off. *)
Definition kfio_submit_bio (dv : devices) (queue : rq_ptr) (stalled : nat → bool) (waited : nat → Z) (fuel : nat)
    (kmalloc_ok : bool) (cb_list : option (list kfio_plug)) (p : bio_ptr) : M (option (list kfio_plug)) :=
  disk ← lift (load_queuedata dv queue);
  '(_, b) ← load p;
  ok ← (if bio_is_write b then lift (submit_holdoff dv disk stalled waited fuel) else mret true);
  if negb ok then
    __kfio_bio_complete p (- EIO);; mret cb_list
  else
    p ← bio_split_to_limits p;
    match p with
    | None => mret cb_list
    | Some _ =>
        '(_, b) ← load p;
        if (if bi_next b is Some _ then true else false) && __kfio_bio_atomic b && bio_is_write b then
          kfio_submit_atomic_chain dv queue p;; mret cb_list
        else
          match kfio_should_plug cb_list disk kmalloc_ok with
          | None => submit_unplugged dv queue p;; mret cb_list
          | Some (plugs, k) => plugs ← submit_plugged dv queue plugs k p; mret (Some plugs)
          end
    end.

(** The plug is freed, then its chain is sent to [disk->rq]. *)
Definition kfio_unplug_do_cb (dv : devices) (plug : kfio_plug) : M unit :=
  let disk := plug_disk plug in
  let bio := bio_head plug in
  if bio is Some _ then fields ← lift (load_disk dv disk); kfio_kickoff_plugged_io dv (fd_rq fields) bio else mret tt.

(** Returns the plug when its work was queued for [kblockd]. *)
Definition kfio_unplug_cb (dv : devices) (plug : kfio_plug) (from_schedule : bool) : M (list kfio_plug) :=
  if from_schedule then mret [plug] else (kfio_unplug_do_cb dv plug;; mret []).
End submit.

Lemma holdoff_bounded_witness :
  ∃ t, holdoff_writes_under_pressure (λ _, true) (λ _, FUSION_WAIT_TIMEDOUT) 12 = Ok (false, t, 12%nat).
Proof. by apply (holdoff_bounded (λ _, true) (λ _, FUSION_WAIT_TIMEDOUT)). Defined.
