(* ===== verification/KDisk.v ===== *)
(** * The disk behind a block device: kblock.c (create, open, expose, hide)

    The life of a [kfio_disk]: creation and its checks, the reference count of
    openers, exposure to the kernel with the limits of its queue, back-pressure
    and pending exclusive locks, and the removal with its error paths.  Request
    queues are cells of a store, since [disk->rq] and [gd->queue] may be one
    queue or two. *)
From S2P Require Import Prelude Ranges KScatter KScatterBio KBio KBioSpec KPlug.

(** ** Data *)

Abbreviation queue_id := positive.

(** A pointer returned by a queue allocation: NULL, an [ERR_PTR], or a queue. *)
Inductive queue_ptr := QNull | QErr | QAt (q : queue_id).

#[global] Instance queue_ptr_eq_dec : EqDecision queue_ptr.
Proof. solve_decision. Defined.

(** [rq->limits]. *)
Record queue_limits := mk_limits {
  io_min : Z; io_opt : Z; max_hw_sectors : Z; max_segments : Z; max_segment_size : Z;
  logical_block_size : Z; physical_block_size : Z; max_sectors : Z;
  max_hw_discard_sectors : Z; discard_granularity : Z
}.

Record request_queue := mk_queue {
  q_dying : bool;              (* QUEUE_FLAG_DYING *)
  q_has_data : bool;           (* queuedata points at the disk *)
  q_mq_ops : bool;
  q_limits : queue_limits
}.

(** [ios], [sectors] and [nsecs] of one direction. *)
Record part_stats := mk_stats { st_ios : Z; st_sectors : Z; st_nsecs : Z }.

Record gendisk := mk_gd {
  gd_queue : queue_ptr; gd_first_minor : Z; gd_capacity : Z;
  gd_stats_read : part_stats; gd_stats_write : part_stats
}.

Record kfio_disk := mk_disk {
  disk_gd : option gendisk;
  disk_rq : queue_ptr;
  disk_bio_head : bio_ptr;
  holdoff_bit : bool;          (* KFIO_DISK_HOLDOFF_BIT of disk_state *)
  lock_pending : Z;
  sector_mask : Z;
  last_dispatch_rw : Z;
  ref_count : Z;               (* fusion_atomic32_t *)
  disk_use_workqueue : Z
}.

(** What the disk has the kernel and the core do. *)
Inductive action :=
| CoreOpen (retval : Z)
| CoreRelease
| Broadcast
| InvalidateBdev
| StopHwQueues
| DrainWait
| DelGendisk
| WaitForOpeners
| PutDisk
| FreeTagSet
| AddDisk
| WaitForDevice.

#[global] Instance action_eq_dec : EqDecision action.
Proof. solve_decision. Defined.

Record dstate := mk_dstate {
  bdev_gd : option kfio_disk;             (* bdev->bdev_gd *)
  queues : gmap queue_id request_queue;
  dworld : world;
  log : list action
}.

Abbreviation D := (stateful dstate).

Definition set_rq (v : queue_ptr) (d : kfio_disk) : kfio_disk :=
  mk_disk (disk_gd d) v (disk_bio_head d) (holdoff_bit d) (lock_pending d) (sector_mask d) (last_dispatch_rw d)
    (ref_count d) (disk_use_workqueue d).
Definition set_gd (v : option gendisk) (d : kfio_disk) : kfio_disk :=
  mk_disk v (disk_rq d) (disk_bio_head d) (holdoff_bit d) (lock_pending d) (sector_mask d) (last_dispatch_rw d)
    (ref_count d) (disk_use_workqueue d).
Definition set_ref (v : Z) (d : kfio_disk) : kfio_disk :=
  mk_disk (disk_gd d) (disk_rq d) (disk_bio_head d) (holdoff_bit d) (lock_pending d) (sector_mask d)
    (last_dispatch_rw d) v (disk_use_workqueue d).
Definition set_holdoff (v : bool) (d : kfio_disk) : kfio_disk :=
  mk_disk (disk_gd d) (disk_rq d) (disk_bio_head d) v (lock_pending d) (sector_mask d) (last_dispatch_rw d)
    (ref_count d) (disk_use_workqueue d).
Definition set_pending (v : Z) (d : kfio_disk) : kfio_disk :=
  mk_disk (disk_gd d) (disk_rq d) (disk_bio_head d) (holdoff_bit d) v (sector_mask d) (last_dispatch_rw d)
    (ref_count d) (disk_use_workqueue d).
Definition set_bio_head (v : bio_ptr) (d : kfio_disk) : kfio_disk :=
  mk_disk (disk_gd d) (disk_rq d) v (holdoff_bit d) (lock_pending d) (sector_mask d) (last_dispatch_rw d)
    (ref_count d) (disk_use_workqueue d).

(** ** Access *)

Definition the_disk : D kfio_disk := λ s, match bdev_gd s with Some d => Ok (d, s) | None => Fault NullDeref end.
Definition put_disk_state (d : kfio_disk) : D unit :=
  modify (λ s, mk_dstate (Some d) (queues s) (dworld s) (log s)).
Definition act (a : action) : D unit := modify (λ s, mk_dstate (bdev_gd s) (queues s) (dworld s) (log s ++ [a])).

Definition the_queue (p : queue_ptr) : D (queue_id * request_queue) := λ s,
  match p with
  | QNull => Fault NullDeref
  | QErr => Fault BadPointer
  | QAt q => match queues s !! q with Some r => Ok ((q, r), s) | None => Fault BadPointer end
  end.

Definition put_queue (q : queue_id) (r : request_queue) : D unit :=
  modify (λ s, mk_dstate (bdev_gd s) (<[q := r]> (queues s)) (dworld s) (log s)).

(** A computation on the bios. *)
Definition on_bios {A} (m : M A) : D A := λ s,
  match m (dworld s) with Ok (a, w) => Ok (a, mk_dstate (bdev_gd s) (queues s) w (log s)) | Fault e => Fault e end.

(** ** Creation *)

Definition fresh_disk (block_size use_workqueue : Z) : kfio_disk :=
  mk_disk None QNull None false 0 (u32 (block_size - 1)) (-1) 0 use_workqueue.

(** [allocated]: whether [kfio_malloc_node] succeeds. *)
Definition linux_bdev_create_disk (bdev : fio_bdev) (use_workqueue : Z) (allocated : bool) : D Z :=
  let bs := bdev_block_size bdev in
  if (bs <? KERNEL_SECTOR_SIZE) || negb (Z.land bs (u32 (bs - 1)) =? 0) then mret (- EINVAL)
  else if negb allocated then mret (- ENOMEM)
  else modify (λ s, mk_dstate (Some (fresh_disk bs use_workqueue)) (queues s) (dworld s) (log s));; mret 0.

Definition linux_bdev_destroy_disk : D unit :=
  _ ← the_disk; modify (λ s, mk_dstate None (queues s) (dworld s) (log s)).

(** ** Open and close *)

(** [bdev_do_open]: [None] when the device has no such function, otherwise its
    result. *)
Definition fio_bdev_open (bdev_do_open : option Z) : D Z :=
  match bdev_do_open with None => mret 0 | Some r => act (CoreOpen r);; mret r end.

Definition fio_bdev_release (bdev_do_release : bool) : D unit :=
  if bdev_do_release then act CoreRelease else mret tt.

Definition kfio_open_disk (bdev_do_open : option Z) : D Z :=
  d ← the_disk;
  '(_, q) ← the_queue (disk_rq d);
  if q_dying q then mret (- ENXIO)
  else
    let n := s32 (ref_count d + 1) in
    put_disk_state (set_ref n d);;
    if n =? 1 then
      retval ← fio_bdev_open bdev_do_open;
      if negb (retval =? 0) then put_disk_state (set_ref (s32 (n - 1)) d);; mret retval
      else mret retval
    else mret 0.

Definition kfio_close_disk (bdev_do_release : bool) : D unit :=
  d ← the_disk;
  let n := s32 (ref_count d - 1) in
  put_disk_state (set_ref n d);;
  if n =? 0 then
    fio_bdev_release bdev_do_release;;
    '(_, q) ← the_queue (disk_rq d);
    if q_dying q then act Broadcast else mret tt
  else mret tt.

Definition fio_bdev_ioctl (bdev_do_ioctl : option Z) : Z :=
  match bdev_do_ioctl with None => - ENOTTY | Some r => r end.
Definition kfio_ioctl (bdev_do_ioctl : option Z) : Z := fio_bdev_ioctl bdev_do_ioctl.
Definition kfio_compat_ioctl (bdev_do_ioctl : option Z) : Z :=
  let rc := kfio_ioctl bdev_do_ioctl in
  if rc =? - ENOTTY then - ENOIOCTLCMD else rc.

(** ** Back-pressure and exclusive locks *)

Definition linux_bdev_backpressure (on : bool) : D unit := λ s,
  match bdev_gd s with
  | None => Ok (tt, s)
  | Some d =>
      (put_disk_state (set_holdoff on d);; (if on then mret tt else act Broadcast)) s
  end.

Definition linux_bdev_lock_pending (pending : bool) : D unit := λ s,
  match bdev_gd s with
  | Some d =>
      match disk_gd d with
      | Some gd =>
          if decide (gd_queue gd = QNull) then Ok (tt, s)
          else if pending then put_disk_state (set_pending (s32 (lock_pending d + 1)) d) s
          else
            let n := s32 (lock_pending d - 1) in
            put_disk_state (set_pending (if n >? 0 then 0 else n) d) s
      | None => Ok (tt, s)
      end
  | None => Ok (tt, s)
  end.

(** ** Exposing and hiding *)

Definition FIO_NUM_MINORS : Z := 16.
Definition KFIO_DISK_OP_DESTROY : Z := 1.
Definition KFIO_DISK_OP_SHUTDOWN : Z := 2.
Definition KFIO_DISK_OP_FORCE : Z := 4.
Definition PAGE_SIZE : Z := 4096.
Definition SECTOR_SHIFT : Z := 9.
Definition UINT_MAX : Z := 2 ^ 32 - 1.

Definition set_queue_data (b : bool) (q : request_queue) : request_queue := mk_queue (q_dying q) b (q_mq_ops q) (q_limits q).
Definition set_dying (q : request_queue) : request_queue := mk_queue true (q_has_data q) (q_mq_ops q) (q_limits q).
Definition set_limits (l : queue_limits) (q : request_queue) : request_queue :=
  mk_queue (q_dying q) (q_has_data q) (q_mq_ops q) l.
Definition set_capacity (c : Z) (g : gendisk) : gendisk :=
  mk_gd (gd_queue g) (gd_first_minor g) c (gd_stats_read g) (gd_stats_write g).

(** The loop that fails the bios of the disk's own queue. *)
Section with_block_layer.
Context `{BlockLayer}.

Fixpoint fail_bios (fuel : nat) : D unit :=
  match fuel with
  | O => fail NoFuel
  | S fuel =>
      d ← the_disk;
      if disk_bio_head d is Some _ then
        '(_, b) ← on_bios (load (disk_bio_head d));
        put_disk_state (set_bio_head (bi_next b) d);;
        on_bios (__kfio_bio_complete (disk_bio_head d) (- EIO));;
        fail_bios fuel
      else mret tt
  end.

(** [linux_bdev_hide_disk] under [if (disk->gd != NULL)], up to the wait for the
    openers.  [linux_bdev]: whether [GET_BDEV] yields a device. *)
Definition hide_begin (linux_bdev : bool) (gd : gendisk) : D unit :=
  (if linux_bdev then act InvalidateBdev else mret tt);;
  d ← the_disk;
  put_disk_state (set_gd (Some (set_capacity 0 gd)) d);;
  '(i, q) ← the_queue (disk_rq d);
  put_queue i (set_dying q);;
  (if q_mq_ops q then act StopHwQueues else mret tt);;
  (if negb (disk_use_workqueue d =? USE_QUEUE_RQ) && negb (disk_use_workqueue d =? USE_QUEUE_MQ)
   then λ s, fail_bios (S (size (w_bios (dworld s)))) s else mret tt);;
  act DrainWait;;
  act DelGendisk.

(** From [put_disk] on, and the part under [if (disk->rq != NULL)]. *)
Definition drop_gendisk : D unit :=
  act PutDisk;;
  d ← the_disk;
  put_disk_state (set_gd None d).

Definition drop_queue (use_workqueue : Z) : D unit :=
  d ← the_disk;
  if decide (disk_rq d ≠ QNull) then
    (if use_workqueue =? USE_QUEUE_MQ then act FreeTagSet else mret tt);;
    d ← the_disk;
    put_disk_state (set_rq QNull d)
  else mret tt.

(** The openers are waited for, or at shutdown not.  The wait is a single entry of the
    log here; KDiskSpec has the calls of others during it, and KDiskWait the threads. *)
Definition hide_openers (bdev_do_release linux_bdev : bool) (opflags : Z) : D unit :=
  if linux_bdev then
    if Z.land opflags KFIO_DISK_OP_SHUTDOWN =? 0 then act WaitForOpeners
    else
      d ← the_disk;
      let n := s32 (ref_count d - 1) in
      put_disk_state (set_ref n d);;
      if n >? 0 then fio_bdev_release bdev_do_release else mret tt
  else mret tt.

(** The whole part under [if (disk->gd != NULL)]. *)
Definition hide_gendisk (bdev_do_release linux_bdev : bool) (opflags : Z) (gd : gendisk) : D unit :=
  hide_begin linux_bdev gd;;
  hide_openers bdev_do_release linux_bdev opflags;;
  drop_gendisk.

Definition linux_bdev_hide_disk (use_workqueue : Z) (bdev_do_release linux_bdev : bool) (opflags : Z) : D Z :=
  d ← the_disk;
  (if disk_gd d is Some gd then hide_gendisk bdev_do_release linux_bdev opflags gd else mret tt);;
  drop_queue use_workqueue;;
  mret 0.

(** [kfio_alloc_queue], where [blk_alloc_disk] also makes the queue. *)
Definition kfio_alloc_queue : D queue_ptr :=
  d ← the_disk;
  match disk_gd d with
  | None => fail NullDeref
  | Some gd =>
      if decide (gd_queue gd = QNull) then mret QNull
      else
        '(i, q) ← the_queue (gd_queue gd);
        put_queue i (set_queue_data true q);;
        mret (gd_queue gd)
  end.

(** What the allocations of [linux_bdev_expose_disk] yield, and the module
    parameters it reads. *)
Record expose_env := mk_env {
  env_gd : option gendisk;         (* BLK_ALLOC_DISK, [None] is NULL *)
  env_mq : queue_ptr;              (* BLK_MQ_ALLOC_QUEUE *)
  env_param : bool;                (* kfio_malloc(sizeof(param)) succeeds *)
  env_discard : bool;              (* enable_discard *)
  env_opt_size : Z;                (* fio_dev_optimal_blk_size *)
  env_release : bool;              (* bdev->bdev_do_release is set *)
  env_linux_bdev : bool
}.

Definition round_down32 (x y : Z) : Z := Z.land x (u32 (Z.lnot (u32 (y - 1)))).

Definition new_limits (bdev : fio_bdev) (env : expose_env) (old : queue_limits) : queue_limits :=
  let bs := bdev_block_size bdev in
  mk_limits bs (u32 (env_opt_size env)) FUSION_MAX_SECTORS_PER_OS_RW_REQUEST
    (u16 (bdev_max_sg_entries bdev)) PAGE_SIZE bs bs
    (round_down32 (max_sectors old) (Z.shiftr bs SECTOR_SHIFT))
    (if env_discard env then Z.shiftr (Z.land UINT_MAX (u32 (Z.lnot (u32 (bs - 1))))) 9
     else max_hw_discard_sectors old)
    (if env_discard env then bs else discard_granularity old).

(** The capacity in sectors of 512 bytes. *)
Definition disk_capacity (bdev : fio_bdev) : Z :=
  u64 (bdev_num_blocks bdev * bdev_block_size bdev) / KERNEL_SECTOR_SIZE.

Definition expose_failed (use_workqueue : Z) (env : expose_env) : D Z :=
  _ ← linux_bdev_hide_disk use_workqueue (env_release env) (env_linux_bdev env) (Z.lor KFIO_DISK_OP_SHUTDOWN KFIO_DISK_OP_FORCE);
  mret (- ENOMEM).

(** The [switch] on the queue mode: [false] is [goto err]. *)
Definition expose_queue (use_workqueue : Z) (env : expose_env) : D bool :=
  if use_workqueue =? USE_QUEUE_MQ then
    d ← the_disk; put_disk_state (set_rq (env_mq env) d);; mret (bool_decide (env_mq env ≠ QErr))
  else if use_workqueue =? USE_QUEUE_NONE then
    rq ← kfio_alloc_queue;
    d ← the_disk; put_disk_state (set_rq rq d);; mret (bool_decide (rq ≠ QErr))
  else mret false.

(** From the gendisk's fields to the end; [add_disk] runs in a worker that the
    function waits for (KDiskWait). *)
Definition expose_gendisk (use_workqueue : Z) (bdev : fio_bdev) (env : expose_env) (rq : queue_ptr) (gd : gendisk) : D Z :=
  let gd := mk_gd rq (s32 (FIO_NUM_MINORS * bdev_index bdev)) (disk_capacity bdev) (gd_stats_read gd) (gd_stats_write gd) in
  d ← the_disk;
  put_disk_state (set_gd (Some gd) d);;
  if env_param env then act AddDisk;; act WaitForDevice;; mret 0
  else
    act PutDisk;;
    d ← the_disk;
    put_disk_state (set_gd None d);;
    expose_failed use_workqueue env.

Definition linux_bdev_expose_disk (use_workqueue : Z) (bdev : fio_bdev) (env : expose_env) : D Z := λ s,
  match bdev_gd s with
  | None => Ok (- ENODEV, s)
  | Some d =>
      (put_disk_state (set_gd (env_gd env) d);;
       ok ← expose_queue use_workqueue env;
       if negb ok then expose_failed use_workqueue env
       else
         d ← the_disk;
         match disk_gd d with
         | None => fail NullDeref            (* disk->gd->queue *)
         | Some gd =>
             let rq := if decide (gd_queue gd = QNull) then disk_rq d else gd_queue gd in
             '(i, q) ← the_queue rq;
             put_queue i (set_limits (new_limits bdev env (q_limits q)) q);;
             (* the test disk->gd == NULL is false here *)
             expose_gendisk use_workqueue bdev env rq gd
         end) s
  end.

End with_block_layer.

(** ** Statistics *)

Definition BIO_DIR_READ : Z := 0.
Definition BIO_DIR_WRITE : Z := 1.
Definition FIO_USEC_PER_SEC : Z := 1000000.

Definition add_stats (HZ totalsize duration : Z) (p : part_stats) : part_stats :=
  mk_stats (u64 (st_ios p + 1)) (u64 (st_sectors p + Z.shiftr totalsize 9))
    (u64 (st_nsecs p + u64 (duration * HZ) / FIO_USEC_PER_SEC)).

Definition linux_bdev_update_stats (HZ dir totalsize duration : Z) : D unit := λ s,
  match bdev_gd s with
  | None => Ok (tt, s)
  | Some d =>
      if negb (disk_use_workqueue d =? USE_QUEUE_NONE) then Ok (tt, s)
      else if negb (dir =? BIO_DIR_WRITE) && negb (dir =? BIO_DIR_READ) then Ok (tt, s)
      else
        match disk_gd d with
        | None => Fault NullDeref
        | Some g =>
            let upd := add_stats HZ totalsize duration in
            let r := if dir =? BIO_DIR_READ then upd (gd_stats_read g) else gd_stats_read g in
            let w := if dir =? BIO_DIR_WRITE then upd (gd_stats_write g) else gd_stats_write g in
            put_disk_state (set_gd (Some (mk_gd (gd_queue g) (gd_first_minor g) (gd_capacity g) r w)) d) s
        end
  end.
