(* ===== verification/KDiskSpec.v ===== *)
(** * The life cycle of a disk: specification of KDisk

    Creation accepts exactly the block sizes that are powers of two from 512
    on; opens and closes keep the core's reference in step with the openers;
    exposure sets the limits of the queue; and what the error and shutdown
    paths do. *)
From S2P Require Import Prelude Ranges KScatter KScatterBio KBio KBioSpec KPlug KDisk.

(** ** Creation *)

(** [disk_created d bs]: the disk as [linux_bdev_create_disk] leaves it. *)
Lemma block_size_ok_iff (bs : Z) :
  in_u 32 bs →
  ((bs <? KERNEL_SECTOR_SIZE) || negb (Z.land bs (u32 (bs - 1)) =? 0)) = false ↔ ∃ k, 9 <= k < 32 ∧ bs = 2 ^ k.
Proof.
  unfold KERNEL_SECTOR_SIZE, in_u. intros B. rewrite orb_false_iff, negb_false_iff, Z.ltb_ge, Z.eqb_eq. split.
  - intros [L E]. rewrite (wrapu_small 32) in E by (unfold in_u; lia).
    apply land_pred_pow2 in E as (k & K & ->); [|lia]. exists k. split; [|done].
    split; [apply (Z.pow_le_mono_r_iff 2) | apply (Z.pow_lt_mono_r_iff 2)]; lia.
  - intros (k & K & ->).
    assert (2 ^ 9 <= 2 ^ k) by (apply Z.pow_le_mono_r; lia). change (2 ^ 9) with 512 in *.
    split; [lia|]. rewrite (wrapu_small 32) by (unfold in_u; lia). apply land_pred_pow2; [lia|]. exists k. lia.
Qed.

(** [linux_bdev_create_disk] accepts a device exactly when its block size
    is a power of two of at least 512 bytes and the memory is available; the
    new disk has no openers, is not held off, and masks sectors by the block
    size minus one.  Otherwise it returns [-EINVAL], or [-ENOMEM], and the state
    is as it was. *)
Theorem create_disk_accepts (bdev : fio_bdev) (wq : Z) (allocated : bool) (s : dstate) :
  in_u 32 (bdev_block_size bdev) →
  (∃ k, 9 <= k < 32 ∧ bdev_block_size bdev = 2 ^ k) ∧ allocated = true ∧
    linux_bdev_create_disk bdev wq allocated s
      = Ok (0, mk_dstate (Some (mk_disk None QNull None false 0 (bdev_block_size bdev - 1) (-1) 0 wq))
                 (queues s) (dworld s) (log s))
  ∨ (∃ k, 9 <= k < 32 ∧ bdev_block_size bdev = 2 ^ k) ∧ allocated = false ∧
    linux_bdev_create_disk bdev wq allocated s = Ok (- ENOMEM, s)
  ∨ (¬ ∃ k, 9 <= k < 32 ∧ bdev_block_size bdev = 2 ^ k) ∧
    linux_bdev_create_disk bdev wq allocated s = Ok (- EINVAL, s).
Proof.
  intros B. pose proof (block_size_ok_iff _ B) as E. unfold linux_bdev_create_disk.
  destruct (_ || _) eqn:G; [right; right | destruct allocated; [left|right; left]].
  - split; [|done]. intros P. apply E in P. discriminate.
  - destruct E as [E _]. pose proof (E eq_refl) as (k & K & P). repeat split; [eauto|].
    cbn. unfold fresh_disk. rewrite (wrapu_small 32); [done|]. unfold in_u in *.
    enough (0 < 2 ^ k) by lia. apply Z.pow_pos_nonneg; lia.
  - destruct E as [E _]. repeat split. by apply E.
Qed.

(** Runs the computation of the goal on its state as far as it is known. *)
Ltac run_disk :=
  cbv [mbind stateful_bind mret stateful_ret the_disk the_queue put_disk_state put_queue act modify fail
       fio_bdev_open fio_bdev_release]; cbn [bdev_gd queues dworld log disk_gd disk_rq ref_count disk_use_workqueue disk_bio_head negb fst snd
       set_gd set_rq set_ref set_bio_head q_dying q_mq_ops q_limits set_queue_data set_dying].

(** ** Openers *)

(** Successful opens of the core's device less its releases. *)
Definition core_refs (l : list action) : Z := zcount (CoreOpen 0) l - zcount CoreRelease l.

Record opened_by (s : dstate) (n : Z) : Prop := {
  ob_disk : ∃ d i, bdev_gd s = Some d ∧ disk_rq d = QAt i ∧ is_Some (queues s !! i) ∧ ref_count d = n;
  ob_range : 0 <= n < 2 ^ 31;
  ob_core : core_refs (log s) = if decide (n = 0) then 0 else 1
}.

Lemma core_refs_app l1 l2 : core_refs (l1 ++ l2) = core_refs l1 + core_refs l2.
Proof. unfold core_refs. rewrite !zcount_app. lia. Qed.

Lemma core_refs_other a : (∀ r, a ≠ CoreOpen r) → a ≠ CoreRelease → core_refs [a] = 0.
Proof.
  intros A B. unfold core_refs, zcount. cbn.
  rewrite (decide_False (P := CoreOpen 0 = a)) by (intros <-; by eapply A).
  by rewrite (decide_False (P := CoreRelease = a)) by (intros <-; by apply B).
Qed.

(** The whole effect of opening the disk. *)
Lemma open_disk_spec s n r :
  opened_by s n → n < 2 ^ 31 - 1 →
  ∃ v s', kfio_open_disk (Some r) s = Ok (v, s') ∧ opened_by s' (if v =? 0 then n + 1 else n).
Proof.
  intros [(d & i & D & Q & [q L] & R) B C] N. unfold kfio_open_disk. run_disk. rewrite D. run_disk. rewrite Q, L.
  destruct (q_dying q); run_disk; [do 2 eexists; split; [done|]; by split; eauto 6|].
  rewrite R. rewrite (wraps_small 32 (n + 1)) by (unfold in_s; lia).
  destruct (n + 1 =? 1) eqn:E; run_disk.
  - assert (n = 0) as -> by lia. rewrite decide_True in C by done. destruct (r =? 0) eqn:Z; run_disk.
    + assert (r = 0) as -> by lia. do 2 eexists. split; [done|]. cbn. split; cbn; [eauto 10|lia|].
      rewrite core_refs_app, C. by vm_compute.
    + do 2 eexists. split; [done|]. rewrite Z. split; cbn; [eauto 10|lia|].
      rewrite core_refs_app, C. unfold core_refs, zcount. cbn. rewrite decide_False by (intros [=]; lia). done.
  - do 2 eexists. split; [done|]. split; cbn; [eauto 10|lia|].
    rewrite decide_False in C by lia. by rewrite decide_False by lia.
Qed.

(** The whole effect of closing it. *)
Lemma close_disk_spec s n :
  opened_by s n → 0 < n → ∃ s', kfio_close_disk true s = Ok (tt, s') ∧ opened_by s' (n - 1).
Proof.
  intros [(d & i & D & Q & [q L] & R) B C] N. unfold kfio_close_disk.
  rewrite decide_False in C by lia. run_disk. rewrite D. run_disk.
  rewrite R, (wraps_small 32 (n - 1)) by (unfold in_s; lia).
  destruct (n - 1 =? 0) eqn:E; run_disk.
  - rewrite Q, L. assert (n = 1) as -> by lia.
    assert (∀ l, core_refs (l ++ [CoreRelease]) = core_refs l - 1) as K
      by (intros; rewrite core_refs_app; change (core_refs [CoreRelease]) with (-1); lia).
    destruct (q_dying q); run_disk; eexists; (split; [done|]); split; cbn; eauto 10; try lia.
    + rewrite core_refs_app, K, C. by rewrite (core_refs_other Broadcast).
    + by rewrite K, C.
  - eexists. split; [done|]. split; cbn; [eauto 10|lia|]. by rewrite decide_False by lia.
Qed.

(** ** Exposure *)

(** The limits a queue gets, for blocks of 2{^k} bytes. *)
Record limits_for (bs : Z) (env : expose_env) (old l : queue_limits) : Prop := {
  lf_blocks : logical_block_size l = bs ∧ physical_block_size l = bs ∧ io_min l = bs;
  lf_max_hw : max_hw_sectors l = 2048;
  lf_max_sectors : max_sectors l `mod` (bs / 512) = 0 ∧ max_sectors l <= max_sectors old < max_sectors l + bs / 512;
  lf_discard : env_discard env = true → discard_granularity l = bs ∧
    (max_hw_discard_sectors l * 512) `mod` bs = 0 ∧ 2 ^ 32 - bs = max_hw_discard_sectors l * 512;
  lf_no_discard : env_discard env = false →
    max_hw_discard_sectors l = max_hw_discard_sectors old ∧ discard_granularity l = discard_granularity old
}.

Lemma block_sectors k : 9 <= k → 2 ^ k = 512 * 2 ^ (k - 9).
Proof. intros. change 512 with (2 ^ 9). rewrite <-Z.pow_add_r by lia. f_equal. lia. Qed.

Lemma new_limits_ok bdev env old k :
  bdev_block_size bdev = 2 ^ k → 9 <= k < 32 → in_u 32 (max_sectors old) →
  limits_for (bdev_block_size bdev) env old (new_limits bdev env old).
Proof.
  intros B K M. unfold new_limits, round_down32. rewrite B.
  pose proof (block_sectors k ltac:(lia)) as E.
  assert (0 < 2 ^ (k - 9)) as P by (apply Z.pow_pos_nonneg; lia).
  assert (Z.shiftr (2 ^ k) SECTOR_SHIFT = 2 ^ (k - 9)) as S
    by (rewrite Z.shiftr_div_pow2 by done; unfold SECTOR_SHIFT; rewrite <-Z.pow_sub_r; lia).
  assert (2 ^ k / 512 = 2 ^ (k - 9)) as D by (rewrite E, Z.mul_comm; apply Z.div_mul; lia).
  split; cbn; rewrite ?S, ?D; [done|done| | |].
  - rewrite mask_off_low by (done || lia).
    pose proof (Z.mod_pos_bound (max_sectors old) (2 ^ (k - 9)) P). split; [|lia].
    rewrite Zminus_mod_idemp_r, Z.sub_diag. apply Z.mod_0_l; lia.
  - intros ->. split; [done|].
    assert (2 ^ 32 = 2 ^ k * 2 ^ (32 - k)) as F by (rewrite <-Z.pow_add_r by lia; f_equal; lia).
    assert (0 < 2 ^ (32 - k)) by (apply Z.pow_pos_nonneg; lia).
    assert (UINT_MAX `mod` 2 ^ k = 2 ^ k - 1) as R.
    { unfold UINT_MAX. symmetry. apply (Z.mod_unique_pos _ _ (2 ^ (32 - k) - 1)); lia. }
    rewrite mask_off_low by (done || lia). rewrite R.
    replace (UINT_MAX - (2 ^ k - 1)) with (2 ^ 9 * (2 ^ (k - 9) * (2 ^ (32 - k) - 1)))
      by (unfold UINT_MAX; rewrite F, E; change (2 ^ 9) with 512; lia).
    rewrite Z.shiftr_div_pow2, (Z.mul_comm (2 ^ 9)), Z.div_mul by lia. split; [|rewrite E in *; lia].
    replace (2 ^ (k - 9) * (2 ^ (32 - k) - 1) * 512) with ((2 ^ (32 - k) - 1) * 2 ^ k) by (rewrite E; lia).
    apply Z.mod_mul. lia.
  - by intros ->.
Qed.

(** [linux_bdev_expose_disk] without a request queue succeeds when the
    gendisk, its queue and the work item can be had.  The disk then shows, in
    sectors of 512 bytes, the size of the device, as long as it is below 2{^64}
    bytes; its minor numbers start at 16 times its index; the queue's limits
    describe the device's blocks, with the largest transfer and the largest
    discard both cut to whole blocks; and the disk is added before the device
    node is waited for. *)
Theorem expose_configures `{BlockLayer} (bdev : fio_bdev) (env : expose_env) (s : dstate)
    (d : kfio_disk) (gd : gendisk) (i : queue_id) (q : request_queue) (k : Z) :
  bdev_gd s = Some d → env_gd env = Some gd → gd_queue gd = QAt i → queues s !! i = Some q → env_param env = true →
  bdev_block_size bdev = 2 ^ k → 9 <= k < 32 → in_u 32 (max_sectors (q_limits q)) →
  0 <= bdev_num_blocks bdev → 0 <= 16 * bdev_index bdev < 2 ^ 31 →
  ∃ s' d' g' q',
    linux_bdev_expose_disk USE_QUEUE_NONE bdev env s = Ok (0, s')
    ∧ bdev_gd s' = Some d' ∧ disk_rq d' = QAt i ∧ disk_gd d' = Some g' ∧ ref_count d' = ref_count d
    ∧ gd_queue g' = QAt i ∧ gd_first_minor g' = 16 * bdev_index bdev
    ∧ (bdev_num_blocks bdev * bdev_block_size bdev < 2 ^ 64 →
       gd_capacity g' * 512 = bdev_num_blocks bdev * bdev_block_size bdev)
    ∧ queues s' = <[i := q']> (queues s) ∧ q_has_data q' = true ∧ q_dying q' = q_dying q
    ∧ limits_for (bdev_block_size bdev) env (q_limits q) (q_limits q')
    ∧ log s' = log s ++ [AddDisk; WaitForDevice].
Proof.
  intros D G Q L P B K M N I. unfold linux_bdev_expose_disk. rewrite D.
  unfold expose_queue, kfio_alloc_queue, expose_gendisk. change (USE_QUEUE_NONE =? USE_QUEUE_MQ) with false.
  cbn [Z.eqb USE_QUEUE_NONE]. run_disk. rewrite G. run_disk. rewrite Q, decide_False by done. run_disk. rewrite L.
  rewrite bool_decide_eq_true_2 by done. run_disk. rewrite Q, decide_False by done.
  run_disk. rewrite lookup_insert_eq, P. run_disk. cbn [q_limits set_queue_data].
  eexists _, _, _, (set_limits _ (set_queue_data true q)). split; [done|]. split_and!; cbn [bdev_gd disk_rq disk_gd ref_count gd_queue gd_first_minor gd_capacity
    queues q_has_data q_dying q_limits log set_limits set_queue_data set_rq set_gd]; try done.
  - rewrite wraps_small; [done|lia|]. unfold in_s, FIO_NUM_MINORS. lia.
  - intros F. unfold disk_capacity, KERNEL_SECTOR_SIZE. rewrite wrapu_small.
    + rewrite B, (block_sectors k) by lia.
      replace (bdev_num_blocks bdev * (512 * 2 ^ (k - 9))) with (bdev_num_blocks bdev * 2 ^ (k - 9) * 512) by lia.
      by rewrite Z.div_mul.
    + unfold in_u. split; [|done]. apply Z.mul_nonneg_nonneg; [done|]. rewrite B. apply Z.pow_nonneg. lia.
  - by rewrite insert_insert_eq.
  - eapply new_limits_ok; done.
  - by rewrite <-app_assoc.
Qed.

(** ** Hiding *)

Section hide.
Context `{BlockLayer}.

(** The effect of [fail_bios] on the state of disk [d]. *)
Definition bios_failed (s : dstate) (d : kfio_disk) (ids : list bio_id) : dstate :=
  mk_dstate (Some (set_bio_head None d)) (queues s)
    (mk_world (foldr delete (w_bios (dworld s)) ids) (w_allocs (dworld s))
       (w_events (dworld s) ++ (end_event (w_bios (dworld s)) (- EIO) <$> ids))) (log s).

Lemma fail_bios_spec fuel s d ids :
  bdev_gd s = Some d → bchain (w_bios (dworld s)) (disk_bio_head d) ids → (length ids < fuel)%nat →
  fail_bios fuel s = Ok (tt, bios_failed s d ids).
Proof.
  revert s d ids. induction fuel as [|fuel IH]; intros s d ids D C F; [lia|]. cbn [fail_bios].
  erewrite stateful_bind_ok; [|unfold the_disk; by rewrite D]. cbv beta.
  destruct ids as [|i ids].
  - cbn in C. rewrite C. cbv iota. unfold bios_failed, mret, stateful_ret. cbn [fmap list_fmap foldr].
    rewrite app_nil_r. destruct s as [? ? [] ?], d. cbn in *. by subst.
  - pose proof (bchain_nodup _ _ _ C) as N. apply list.NoDup_cons in N as [N _].
    destruct C as [E (b & B & C)]. rewrite E. cbv iota.
    erewrite stateful_bind_ok; [|unfold on_bios, load; rewrite B; by destruct s]. cbv beta iota.
    erewrite stateful_bind_ok; [|done]. cbv beta.
    erewrite stateful_bind_ok; [|unfold on_bios; cbn [dworld]; by erewrite complete_run]. cbv beta.
    assert (∀ j, j ∈ ids → delete i (w_bios (dworld s)) !! j = w_bios (dworld s) !! j) as K.
    { intros j J. apply lookup_delete_ne. by intros ->. }
    rewrite (IH _ (set_bio_head (bi_next b) d) ids); [|done| |cbn in F; lia].
    + unfold bios_failed. cbn [dworld w_bios w_allocs w_events queues log fmap list_fmap foldr].
      destruct (end_events_frame (w_bios (dworld s)) _ (- EIO) ids K) as [-> _].
      rewrite <-(assoc_L (++)), foldr_delete. unfold end_event at 2. by rewrite B.
    + cbn. by eapply bchain_frame.
Qed.

(** What hiding a disk with [n] openers has the kernel and the core do. *)
Definition hide_log (release linux_bdev : bool) (opflags n : Z) (mq : bool) : list action :=
  (if linux_bdev then [InvalidateBdev] else []) ++ (if mq then [StopHwQueues] else []) ++ [DrainWait; DelGendisk]
  ++ (if linux_bdev then
        if Z.land opflags KFIO_DISK_OP_SHUTDOWN =? 0 then [WaitForOpeners]
        else if (s32 (n - 1) >? 0) && release then [CoreRelease] else []
      else [])
  ++ [PutDisk].

Definition hide_refs (linux_bdev : bool) (opflags n : Z) : Z :=
  if linux_bdev && negb (Z.land opflags KFIO_DISK_OP_SHUTDOWN =? 0) then s32 (n - 1) else n.

Definition hidden (s : dstate) (d : kfio_disk) (ids : list bio_id) (i : queue_id) (q : request_queue) (n : Z)
    (l : list action) : dstate :=
  let f := bios_failed s d ids in
  mk_dstate (Some (set_ref n (set_bio_head None (set_gd None d)))) (<[i := set_dying q]> (queues s)) (dworld f) (log s ++ l).

Lemma hide_gendisk_spec s d gd i q ids release linux_bdev opflags :
  bdev_gd s = Some d → disk_rq d = QAt i → queues s !! i = Some q →
  disk_use_workqueue d = USE_QUEUE_NONE → bchain (w_bios (dworld s)) (disk_bio_head d) ids →
  hide_gendisk release linux_bdev opflags gd s
  = Ok (tt, hidden s d ids i q (hide_refs linux_bdev opflags (ref_count d))
              (hide_log release linux_bdev opflags (ref_count d) (q_mq_ops q))).
Proof.
  intros D Q L W C. unfold hide_gendisk, hide_begin, hide_openers, drop_gendisk, hidden, hide_log, hide_refs.
  pose proof (bchain_size _ _ _ C) as Z.
  destruct linux_bdev, (q_mq_ops q) eqn:MQ, (Z.land opflags KFIO_DISK_OP_SHUTDOWN =? 0), release; run_disk.
  all: rewrite D; run_disk; rewrite Q, L, W; run_disk; rewrite MQ;
    change (negb (USE_QUEUE_NONE =? USE_QUEUE_RQ) && negb (USE_QUEUE_NONE =? USE_QUEUE_MQ)) with true; run_disk;
    (erewrite fail_bios_spec; [|done|exact C|cbn [dworld]; lia]); unfold bios_failed; run_disk.
  all: destruct d; cbn in *; repeat (destruct (s32 _ >? 0); cbn); by rewrite <- ?(assoc_L (++)).
Qed.

Lemma hide_disk_effect s d gd i q ids wq release linux_bdev opflags :
  bdev_gd s = Some d → disk_gd d = Some gd → disk_rq d = QAt i → queues s !! i = Some q →
  disk_use_workqueue d = USE_QUEUE_NONE → bchain (w_bios (dworld s)) (disk_bio_head d) ids →
  ∃ s' d', linux_bdev_hide_disk wq release linux_bdev opflags s = Ok (0, s')
    ∧ bdev_gd s' = Some d' ∧ disk_gd d' = None ∧ disk_rq d' = QNull ∧ disk_bio_head d' = None
    ∧ ref_count d' = hide_refs linux_bdev opflags (ref_count d)
    ∧ queues s' = <[i := set_dying q]> (queues s)
    ∧ w_events (dworld s') = w_events (dworld s) ++ (end_event (w_bios (dworld s)) (- EIO) <$> ids)
    ∧ log s' = log s ++ hide_log release linux_bdev opflags (ref_count d) (q_mq_ops q)
                 ++ (if wq =? USE_QUEUE_MQ then [FreeTagSet] else []).
Proof.
  intros D G Q L W C. unfold linux_bdev_hide_disk.
  erewrite stateful_bind_ok; [|unfold the_disk; by rewrite D]. cbv beta. rewrite G. cbv iota.
  erewrite stateful_bind_ok; [|by eapply hide_gendisk_spec]. cbv beta. unfold hidden, drop_queue. run_disk.
  rewrite decide_True by (cbn; by rewrite Q).
  destruct (wq =? USE_QUEUE_MQ); run_disk; do 2 eexists; (split; [done|]); cbn;
    rewrite <- ?(assoc_L (++)), ?app_nil_r; split_and!; done.
Qed.

(** [linux_bdev_hide_disk] on an exposed disk returns 0.  It marks the queue
    as dying and drains the device before the disk is deleted, fails the bios of
    the disk's own queue with -EIO in order, waits for the openers unless the
    system is shutting down, and only then drops the disk; the disk is left
    without gendisk and queue. *)
Theorem hide_disk_spec s d gd i q ids wq release linux_bdev opflags :
  bdev_gd s = Some d → disk_gd d = Some gd → disk_rq d = QAt i → queues s !! i = Some q →
  disk_use_workqueue d = USE_QUEUE_NONE → bchain (w_bios (dworld s)) (disk_bio_head d) ids →
  ∃ s' d', linux_bdev_hide_disk wq release linux_bdev opflags s = Ok (0, s')
    ∧ bdev_gd s' = Some d' ∧ disk_gd d' = None ∧ disk_rq d' = QNull ∧ disk_bio_head d' = None
    ∧ ref_count d' = hide_refs linux_bdev opflags (ref_count d)
    ∧ queues s' = <[i := set_dying q]> (queues s)
    ∧ w_events (dworld s') = w_events (dworld s) ++ (end_event (w_bios (dworld s)) (- EIO) <$> ids)
    ∧ log s' = log s ++ hide_log release linux_bdev opflags (ref_count d) (q_mq_ops q)
                 ++ (if wq =? USE_QUEUE_MQ then [FreeTagSet] else []).
Proof. apply hide_disk_effect. Qed.

(** When the system shuts down, the core's device is released if and only if
    the disk has more than one opener: the references are decremented once and
    compared with 0, so the last opener's reference, the one that keeps the
    device open, is never given back.  With exactly one opener the device stays
    open. *)
Theorem shutdown_keeps_last_opener s n opflags d gd i q ids wq :
  opened_by s n → Z.land opflags KFIO_DISK_OP_SHUTDOWN ≠ 0 →
  bdev_gd s = Some d → disk_gd d = Some gd → disk_rq d = QAt i → queues s !! i = Some q →
  disk_use_workqueue d = USE_QUEUE_NONE → bchain (w_bios (dworld s)) (disk_bio_head d) ids →
  ∃ s', linux_bdev_hide_disk wq true true opflags s = Ok (0, s')
    ∧ core_refs (log s') = if decide (n = 1) then 1 else 0.
Proof.
  intros [(d' & _ & D' & _ & _ & R) B O] F D G Q L W C. rewrite D' in D. injection D as ->.
  destruct (hide_disk_effect s d gd i q ids wq true true opflags) as (s' & d'' & E & _ & _ & _ & _ & _ & _ & _ & Lg);
    try done.
  exists s'. split; [done|]. rewrite Lg, !core_refs_app, O. unfold hide_log. rewrite R.
  destruct (Z.eqb_spec (Z.land opflags KFIO_DISK_OP_SHUTDOWN) 0) as [|_]; [done|].
  rewrite wraps_small by (unfold in_s; lia). rewrite !core_refs_app.
  assert (∀ b, core_refs (if b : bool then [StopHwQueues] else []) = 0) as -> by (by intros []).
  assert (core_refs (if wq =? USE_QUEUE_MQ then [FreeTagSet] else []) = 0) as -> by (by case_match).
  change (core_refs [InvalidateBdev]) with 0. change (core_refs [DrainWait; DelGendisk]) with 0.
  change (core_refs [PutDisk]) with 0. rewrite andb_true_r.
  destruct (n - 1 >? 0) eqn:N; rewrite ?Z.gtb_ltb, ?Z.ltb_lt, ?Z.ltb_ge in N;
    [change (core_refs [CoreRelease]) with (-1) | change (core_refs []) with 0]; repeat case_decide; lia.
Qed.
End hide.

(** ** Failed exposures *)

Section failures.
Context `{BlockLayer}.

(** The failures of [linux_bdev_expose_disk] before the work item is
    allocated do not come back as [-ENOMEM].  On a disk that is not exposed: when
    the gendisk cannot be allocated, [disk->gd->queue] is read through NULL before
    the test of [disk->gd]; when the queue of the multi-queue mode cannot be made,
    or the queue mode is another one, the clean-up sets a flag through
    [disk->rq], which is an error pointer or NULL. *)
Theorem expose_failure_faults bdev env s d :
  bdev_gd s = Some d → disk_rq d = QNull →
  (env_gd env = None → linux_bdev_expose_disk USE_QUEUE_NONE bdev env s = Fault NullDeref)
  ∧ (env_gd env = None → env_mq env ≠ QErr →
     linux_bdev_expose_disk USE_QUEUE_MQ bdev env s = Fault NullDeref)
  ∧ (is_Some (env_gd env) → env_mq env = QErr →
     linux_bdev_expose_disk USE_QUEUE_MQ bdev env s = Fault BadPointer)
  ∧ (is_Some (env_gd env) → ∀ wq, wq ≠ USE_QUEUE_MQ → wq ≠ USE_QUEUE_NONE →
     linux_bdev_expose_disk wq bdev env s = Fault NullDeref).
Proof.
  intros D Q. unfold linux_bdev_expose_disk, expose_queue, kfio_alloc_queue, expose_failed, linux_bdev_hide_disk,
    hide_gendisk, hide_begin. rewrite D. split_and!.
  - intros G. change (USE_QUEUE_NONE =? USE_QUEUE_MQ) with false. change (USE_QUEUE_NONE =? USE_QUEUE_NONE) with true.
    run_disk. by rewrite G.
  - intros G N. change (USE_QUEUE_MQ =? USE_QUEUE_MQ) with true. run_disk. rewrite bool_decide_eq_true_2 by done.
    run_disk. by rewrite G.
  - intros [gd G] N. change (USE_QUEUE_MQ =? USE_QUEUE_MQ) with true. run_disk. rewrite N.
    rewrite bool_decide_eq_false_2 by (intros K; by apply K). run_disk. rewrite G. run_disk.
    by destruct (env_linux_bdev env).
  - intros [gd G] wq M N. apply Z.eqb_neq in M, N. rewrite M, N. run_disk. rewrite G. run_disk.
    destruct (env_linux_bdev env); run_disk; by rewrite Q.
Qed.

(** When only the work item cannot be allocated, [linux_bdev_expose_disk]
    returns [-ENOMEM], the gendisk is put once and never deleted, and the disk is
    again without gendisk and queue. *)
Theorem expose_undoes_work bdev env s d gd i q :
  bdev_gd s = Some d → env_gd env = Some gd → gd_queue gd = QAt i → queues s !! i = Some q → env_param env = false →
  ∃ s' d', linux_bdev_expose_disk USE_QUEUE_NONE bdev env s = Ok (- ENOMEM, s')
    ∧ bdev_gd s' = Some d' ∧ disk_gd d' = None ∧ disk_rq d' = QNull ∧ ref_count d' = ref_count d
    ∧ log s' = log s ++ [PutDisk].
Proof.
  intros D G Q L P. unfold linux_bdev_expose_disk, expose_queue, kfio_alloc_queue, expose_gendisk, expose_failed,
    linux_bdev_hide_disk, drop_queue. rewrite D.
  change (USE_QUEUE_NONE =? USE_QUEUE_MQ) with false. change (USE_QUEUE_NONE =? USE_QUEUE_NONE) with true.
  run_disk. rewrite G. run_disk. rewrite Q, decide_False by done. run_disk. rewrite L.
  rewrite bool_decide_eq_true_2 by done. run_disk. rewrite Q, decide_False by done.
  run_disk. rewrite lookup_insert_eq, P. run_disk. rewrite decide_True by done. run_disk.
  do 2 eexists. split; [done|]. by split_and!.
Qed.
End failures.

(** ** Openers across the life of a disk *)

Section uses.
Context `{BlockLayer}.

(** The disk of a device: the state, the number of successful opens not yet closed, and
    whether the thread that hides the disk waits for the openers. *)
Record use := mk_use { us_state : dstate; us_openers : Z; us_removing : bool }.

Definition exposed (s : dstate) : bool :=
  if bdev_gd s is Some d then (if disk_gd d is Some _ then true else false) else false.
Definition created (s : dstate) : bool := if bdev_gd s is Some _ then true else false.

(** What [linux_bdev_hide_disk] does after the wait. *)
Definition hide_finish : D Z := drop_gendisk;; drop_queue USE_QUEUE_NONE;; mret 0.

(** The kernel makes a gendisk with a queue of its own. *)
Definition with_new_queue (i : queue_id) (q : request_queue) (s : dstate) : dstate :=
  mk_dstate (bdev_gd s) (<[i := q]> (queues s)) (dworld s) (log s).

(** The calls at a disk, each answered as it may be by the core and the kernel.  The
    kernel opens and closes only a disk it has been given.  Hiding is two steps, before and
    after the wait for the openers, so that others close the disk, or try to open it,
    meanwhile; the system is not shutting down. *)
Inductive use_step : use → use → Prop :=
| use_create s n r bdev allocated v s' :
    created s = false → linux_bdev_create_disk bdev USE_QUEUE_NONE allocated s = Ok (v, s') →
    use_step (mk_use s n r) (mk_use s' n r)
| use_destroy s n r s' :
    created s = true → exposed s = false → linux_bdev_destroy_disk s = Ok (tt, s') →
    use_step (mk_use s n r) (mk_use s' n r)
| use_expose s n r bdev env gd i q v s' :
    created s = true → exposed s = false →
    env_gd env = Some gd → gd_queue gd = QAt i → queues s !! i = None → q_dying q = false →
    linux_bdev_expose_disk USE_QUEUE_NONE bdev env (with_new_queue i q s) = Ok (v, s') →
    use_step (mk_use s n r) (mk_use s' n r)
| use_open s n r result v s' :
    exposed s = true → n < 2 ^ 31 - 1 → kfio_open_disk (Some result) s = Ok (v, s') →
    use_step (mk_use s n r) (mk_use s' (if v =? 0 then n + 1 else n) r)
| use_close s n r s' :
    0 < n → kfio_close_disk true s = Ok (tt, s') →
    use_step (mk_use s n r) (mk_use s' (n - 1) r)
| use_hide s n d gd s' :
    bdev_gd s = Some d → disk_gd d = Some gd → hide_begin true gd s = Ok (tt, s') →
    use_step (mk_use s n false) (mk_use s' n true)
| use_hidden s s' :
    hide_finish s = Ok (0, s') → use_step (mk_use s 0 true) (mk_use s' 0 false).

(** The two steps are the whole of [linux_bdev_hide_disk], around the wait. *)
Lemma hide_disk_halves s d gd release opflags :
  bdev_gd s = Some d → disk_gd d = Some gd → Z.land opflags KFIO_DISK_OP_SHUTDOWN = 0 →
  linux_bdev_hide_disk USE_QUEUE_NONE release true opflags s
  = (hide_begin true gd;; act WaitForOpeners;; hide_finish) s.
Proof.
  intros D G O. unfold linux_bdev_hide_disk, hide_finish, hide_gendisk, hide_openers. rewrite O.
  erewrite stateful_bind_ok; [|unfold the_disk; by rewrite D]. cbv beta. rewrite G. cbn [Z.eqb].
  cbv [mbind stateful_bind]. destruct (hide_begin true gd s) as [[[] t]|]; [|done]. cbn.
  by destruct (drop_gendisk _) as [[[] t']|].
Qed.

(** The invariant: the reference count of the disk is the number of its openers, the
    device of the core is open while there is one, and the queue is there as long as the
    gendisk, and dying once it is hidden. *)
Record disk_used (n : Z) (r : bool) (s : dstate) (d : kfio_disk) : Prop := {
  du_bios : disk_bio_head d = None ∧ disk_use_workqueue d = USE_QUEUE_NONE;
  du_refs : ref_count d = n ∧ 0 <= n < 2 ^ 31;
  du_queue : if disk_gd d is Some _ then ∃ i q, disk_rq d = QAt i ∧ queues s !! i = Some q ∧ q_dying q = r
             else n = 0 ∧ r = false ∧ disk_rq d = QNull
}.

Record used (u : use) : Prop := {
  us_disk : if bdev_gd (us_state u) is Some d then disk_used (us_openers u) (us_removing u) (us_state u) d
            else us_openers u = 0 ∧ us_removing u = false;
  us_core : core_refs (log (us_state u)) = if decide (us_openers u = 0) then 0 else 1
}.

Lemma used_opened_by s n r :
  used (mk_use s n r) → exposed s = true → opened_by s n.
Proof.
  intros [U C] E. unfold exposed in E. cbn in *. destruct (bdev_gd s) as [d|] eqn:D; [|done].
  destruct U as [_ [R B] Q]. destruct (disk_gd d); [|done]. destruct Q as (i & q & Q & L & _).
  split; [eauto 8|done|done].
Qed.

Lemma used_exposed s n r : used (mk_use s n r) → n ≠ 0 ∨ r = true → exposed s = true.
Proof.
  intros [U C] N. unfold exposed. cbn in *. destruct (bdev_gd s) as [d|]; [|naive_solver].
  destruct U as [_ _ Q]. destruct (disk_gd d); naive_solver.
Qed.
(** The calls, run. *)
Definition recount (n : Z) (l : list action) (s : dstate) (d : kfio_disk) : dstate :=
  mk_dstate (Some (set_ref n d)) (queues s) (dworld s) (log s ++ l).

Definition open_result (dying : bool) (n result : Z) : Z :=
  if dying then - ENXIO else if n =? 0 then result else 0.

Lemma recount_id s d : bdev_gd s = Some d → recount (ref_count d) [] s d = s.
Proof. unfold recount. rewrite app_nil_r. destruct s, d; cbn. by intros ->. Qed.

Lemma open_disk_run s d i q result :
  bdev_gd s = Some d → disk_rq d = QAt i → queues s !! i = Some q → 0 <= ref_count d < 2 ^ 31 - 1 →
  let v := open_result (q_dying q) (ref_count d) result in
  ∃ l, kfio_open_disk (Some result) s = Ok (v, recount (ref_count d + if v =? 0 then 1 else 0) l s d)
    ∧ core_refs l = if (v =? 0) && (ref_count d =? 0) then 1 else 0.
Proof.
  intros D Q L B v. unfold kfio_open_disk, v, open_result. run_disk. rewrite D. run_disk. rewrite Q, L.
  destruct (q_dying q); run_disk.
  { exists []. change (- ENXIO =? 0) with false. by rewrite Z.add_0_r, recount_id. }
  rewrite (wraps_small 32 (ref_count d + 1)) by (unfold in_s; lia).
  destruct (Z.eqb_spec (ref_count d) 0) as [E|E]; [rewrite E|rewrite (proj2 (Z.eqb_neq _ _)) by lia]; run_disk.
  - destruct (Z.eqb_spec result 0) as [->|N]; run_disk; eexists; (split; [done|]); [done|].
    unfold core_refs, zcount. cbn. by rewrite decide_False by (intros [= ]; lia).
  - exists []. unfold recount. by rewrite app_nil_r.
Qed.

Lemma close_disk_run s d i q :
  bdev_gd s = Some d → disk_rq d = QAt i → queues s !! i = Some q → 0 < ref_count d < 2 ^ 31 →
  ∃ l, kfio_close_disk true s = Ok (tt, recount (ref_count d - 1) l s d)
    ∧ core_refs l = if ref_count d =? 1 then -1 else 0.
Proof.
  intros D Q L B. unfold kfio_close_disk. run_disk. rewrite D. run_disk.
  rewrite (wraps_small 32 (ref_count d - 1)) by (unfold in_s; lia).
  destruct (Z.eqb_spec (ref_count d) 1) as [E|E]; [rewrite E|rewrite (proj2 (Z.eqb_neq _ _)) by lia]; run_disk.
  - change (1 - 1 =? 0) with true. run_disk. rewrite Q, L. destruct (q_dying q); run_disk; [exists [CoreRelease; Broadcast] | exists [CoreRelease]];
      (split; [|done]); unfold recount; by rewrite <-?(assoc_L (++)).
  - exists []. unfold recount. by rewrite app_nil_r.
Qed.

Lemma hide_begin_run s d gd i q linux_bdev :
  bdev_gd s = Some d → disk_rq d = QAt i → queues s !! i = Some q →
  disk_bio_head d = None → disk_use_workqueue d = USE_QUEUE_NONE →
  ∃ l, hide_begin linux_bdev gd s
    = Ok (tt, mk_dstate (Some (set_gd (Some (set_capacity 0 gd)) d)) (<[i := set_dying q]> (queues s)) (dworld s) (log s ++ l))
    ∧ core_refs l = 0.
Proof.
  intros D Q L Bh W. unfold hide_begin.
  destruct linux_bdev, (q_mq_ops q) eqn:MQ; run_disk; rewrite D; run_disk; rewrite Q, L, W; run_disk; rewrite MQ;
    change (negb (USE_QUEUE_NONE =? USE_QUEUE_RQ) && negb (USE_QUEUE_NONE =? USE_QUEUE_MQ)) with true; run_disk;
    (erewrite fail_bios_spec; [|done|instantiate (1 := []); by cbn|cbn; lia]); unfold bios_failed; run_disk;
    cbn [fmap list_fmap foldr]; rewrite (app_nil_r (w_events _)), <- ?(assoc_L (++)); eexists;
    (split; [destruct s as [? ? [] ?], d; cbn in *; subst; reflexivity|reflexivity]).
Qed.

Lemma hide_finish_run s d i :
  bdev_gd s = Some d → disk_rq d = QAt i →
  hide_finish s = Ok (0, mk_dstate (Some (set_rq QNull (set_gd None d))) (queues s) (dworld s) (log s ++ [PutDisk])).
Proof.
  intros D Q. unfold hide_finish, drop_gendisk, drop_queue. run_disk. rewrite D. run_disk.
  rewrite Q, decide_True by done. by run_disk.
Qed.

(** Exposing a disk with what the kernel made for it: it works, or the work item could
    not be allocated and all is as before. *)
Lemma expose_run bdev env s d gd i q :
  bdev_gd s = Some d → disk_rq d = QNull → env_gd env = Some gd → gd_queue gd = QAt i → q_dying q = false →
  ∃ gd' q' l,
    let ok := env_param env in
    linux_bdev_expose_disk USE_QUEUE_NONE bdev env (with_new_queue i q s)
    = Ok (if ok then 0 else - ENOMEM,
          mk_dstate (Some (set_rq (if ok then QAt i else QNull) (set_gd (if ok then Some gd' else None) d)))
            (<[i := q']> (queues s)) (dworld s) (log s ++ l))
    ∧ q_dying q' = false ∧ q_has_data q' = true ∧ gd_queue gd' = QAt i ∧ core_refs l = 0.
Proof.
  intros D R G Q Dy. unfold linux_bdev_expose_disk, expose_queue, kfio_alloc_queue, expose_gendisk, expose_failed,
    linux_bdev_hide_disk, drop_queue, with_new_queue. cbn [bdev_gd]. rewrite D.
  change (USE_QUEUE_NONE =? USE_QUEUE_MQ) with false. change (USE_QUEUE_NONE =? USE_QUEUE_NONE) with true.
  run_disk. rewrite G. run_disk. rewrite Q, decide_False by done. run_disk. rewrite lookup_insert_eq.
  rewrite bool_decide_eq_true_2 by done. run_disk. rewrite Q, decide_False by done.
  run_disk. rewrite lookup_insert_eq. destruct (env_param env); run_disk.
  - rewrite !insert_insert_eq. eexists _, _, _. rewrite <- ?(assoc_L (++)). split; [destruct d; done|]. done.
  - rewrite decide_True by done. run_disk. rewrite !insert_insert_eq. exists gd. do 2 eexists. rewrite <- ?(assoc_L (++)).
    split; [destruct d; cbn in *; done|]. done.
Qed.
(** What an exposed disk looks like. *)
Lemma used_cell s n r :
  used (mk_use s n r) → exposed s = true →
  ∃ d gd i q, bdev_gd s = Some d ∧ disk_gd d = Some gd ∧ disk_rq d = QAt i ∧ queues s !! i = Some q
    ∧ q_dying q = r ∧ disk_used n r s d.
Proof.
  intros [U _] E. unfold exposed in E. cbn in U. destruct (bdev_gd s) as [d|] eqn:D; [|done].
  destruct (disk_gd d) as [gd|] eqn:G; [|done]. pose proof (du_queue _ _ _ _ U) as Q. rewrite G in Q.
  destruct Q as (i & q & Q & L & Dy). by exists d, gd, i, q.
Qed.

Lemma used_hidden s n r :
  used (mk_use s n r) → exposed s = false → n = 0 ∧ r = false ∧ (∀ d, bdev_gd s = Some d → disk_rq d = QNull).
Proof.
  intros [U _] E. unfold exposed in E. cbn in U. destruct (bdev_gd s) as [d|]; [|naive_solver].
  destruct U as [_ _ Q]. destruct (disk_gd d); [done|]. naive_solver.
Qed.

(** Opening and closing keep the invariant. *)
Lemma used_recount s n r d l n' :
  used (mk_use s n r) → exposed s = true → bdev_gd s = Some d → 0 <= n' < 2 ^ 31 →
  core_refs l = (if decide (n' = 0) then 0 else 1) - (if decide (n = 0) then 0 else 1) →
  used (mk_use (recount n' l s d) n' r).
Proof.
  intros U E D B C. destruct (used_cell _ _ _ U E) as (d' & gd & i & q & D' & G & Q & L & Dy & [Bi Re Qu]).
  rewrite D in D'. injection D' as <-. rewrite G in Qu. destruct U as [_ Co]. split; cbn.
  - split; cbn; [done|done|]. by rewrite G.
  - cbn in Co. rewrite core_refs_app, C, Co. lia.
Qed.

Lemma used_open s n r result v s' :
  used (mk_use s n r) → exposed s = true → n < 2 ^ 31 - 1 → kfio_open_disk (Some result) s = Ok (v, s') →
  v = open_result r n result ∧ used (mk_use s' (if v =? 0 then n + 1 else n) r).
Proof.
  intros U E N R. destruct (used_cell _ _ _ U E) as (d & gd & i & q & D & G & Q & L & Dy & [_ [Re B] _]).
  destruct (open_disk_run s d i q result D Q L ltac:(lia)) as (l & R' & C).
  rewrite R' in R. injection R as <- <-. rewrite Re, Dy in *. split; [done|].
  set (v := open_result r n result) in *.
  replace (if v =? 0 then n + 1 else n) with (n + (if v =? 0 then 1 else 0)) by (destruct (v =? 0); lia).
  eapply used_recount; [done|done|done|destruct (v =? 0); lia|]. rewrite C.
  destruct (v =? 0); cbn; [|rewrite Z.add_0_r; lia].
  destruct (Z.eqb_spec n 0); repeat case_decide; lia.
Qed.

Lemma used_close s n r s' :
  used (mk_use s n r) → 0 < n → kfio_close_disk true s = Ok (tt, s') → used (mk_use s' (n - 1) r).
Proof.
  intros U N R. pose proof (used_exposed _ _ _ U ltac:(lia)) as E.
  destruct (used_cell _ _ _ U E) as (d & gd & i & q & D & G & Q & L & Dy & [_ [Re B] _]).
  destruct (close_disk_run s d i q D Q L ltac:(lia)) as (l & R' & C).
  rewrite R' in R. injection R as <-. rewrite Re in *.
  eapply used_recount; [done|done|done|lia|]. rewrite C.
  destruct (Z.eqb_spec n 1); repeat case_decide; lia.
Qed.

Lemma use_step_inv u u' : use_step u u' → used u → used u'.
Proof.
  intros S U. destruct S as
    [s n r bdev al v s' E R | s n r s' E X R | s n r bdev env gd i q v s' E X G Q L Dy R | s n r x v s' E N R
    |s n r s' N R | s n d gd s' D G R | s s' R].
  - destruct U as [U C]. cbn in *. unfold created in E. destruct (bdev_gd s) eqn:D; [done|].
    unfold linux_bdev_create_disk in R. destruct (_ || _); [|destruct (negb al)]; cbn in R; injection R as <- <-.
    1,2: split; cbn; [by rewrite D|done]. split; cbn; [|done]. split; cbn; [done|lia|naive_solver].
  - pose proof (used_hidden _ _ _ U X) as (-> & -> & _). destruct U as [_ C]. unfold created in E.
    unfold linux_bdev_destroy_disk in R. run_disk. destruct (bdev_gd s) eqn:D; [|done].
    cbv [linux_bdev_destroy_disk the_disk modify mbind stateful_bind] in R. rewrite D in R. injection R as <-. by split.
  - pose proof (used_hidden _ _ _ U X) as (-> & -> & Rq). unfold created in E. destruct (bdev_gd s) as [d|] eqn:D; [|done].
    destruct (expose_run bdev env s d gd i q D (Rq _ eq_refl) G Q Dy) as (gd' & q' & l & R' & Dy' & _ & _ & C).
    rewrite R' in R. injection R as <- <-. destruct U as [U Co]. cbn in *. rewrite D in U. destruct U as [Bi Re Qu].
    split; cbn; [|by rewrite core_refs_app, C, Co].
    split; cbn; [done|done|]. destruct (env_param env); cbn; [|done].
    exists i, q'. by rewrite lookup_insert_eq.
  - by eapply used_open.
  - by eapply used_close.
  - assert (exposed s = true) as E by (unfold exposed; by rewrite D, G).
    destruct (used_cell _ _ _ U E) as (d' & gd' & i & q & D' & G' & Q & L & Dy & [[Bh W] Re _]).
    rewrite D in D'. injection D' as <-.
    destruct (hide_begin_run s d gd i q true D Q L Bh W) as (l & R' & C). rewrite R' in R. injection R as <-.
    destruct U as [_ Co]. cbn in Co. split; cbn; [|by rewrite core_refs_app, C, Z.add_0_r].
    split; cbn; [done|done|]. exists i, (set_dying q). by rewrite lookup_insert_eq.
  - destruct (used_cell _ _ _ U (used_exposed _ _ _ U ltac:(auto))) as (d & gd & i & q & D & G & Q & L & Dy & [Bi Re _]).
    rewrite (hide_finish_run s d i D Q) in R. injection R as <-. destruct U as [_ Co].
    cbn in Co. split; cbn; [|by rewrite core_refs_app, Co]. by split.
Qed.

Definition new_device (qs : gmap queue_id request_queue) (w : world) : use := mk_use (mk_dstate None qs w []) 0 false.

Lemma use_steps_inv qs w u : rtc use_step (new_device qs w) u → used u.
Proof.
  intros R. apply (rtc_ind_r used (new_device qs w)) in R; [done| |eauto using use_step_inv]. by split.
Qed.

(** C39: The core's device is open exactly while the disk has an opener.  From a device
    without disk, in any sequence of creations, exposures (with what the kernel makes for
    them, and a work item or none), opens (each answered as it may be by the core), closes
    of opened disks, removals around which others close the disk or try to open it, and
    destructions of hidden disks: the reference count of the disk is the number of openers;
    the core's device was opened once more than it was released if there are openers, and
    as often otherwise; a disk with openers is still exposed.  A further open returns:
    [-ENXIO] once the disk is being hidden, else the answer of the core if it is the first,
    and 0 otherwise; a close of an opened disk returns, also while it is being hidden; and so do
    both parts of hiding it, after which it is hidden.  Only when the system shuts down,
    where nobody is waited for, the balance ends: the core's device stays open if
    the disk has exactly one opener, and is released otherwise. *)
Theorem open_close_balanced (qs : gmap queue_id request_queue) (w : world) (s : dstate) (n : Z) (removing : bool) :
  rtc use_step (new_device qs w) (mk_use s n removing) →
  0 <= n ∧ (∀ d, bdev_gd s = Some d → ref_count d = n) ∧ (n ≠ 0 ∨ removing = true → exposed s = true)
  ∧ core_refs (log s) = (if decide (n = 0) then 0 else 1)
  ∧ (exposed s = true → n < 2 ^ 31 - 1 → ∀ r, ∃ t,
       kfio_open_disk (Some r) s = Ok (if removing then - ENXIO else if n =? 0 then r else 0, t))
  ∧ (0 < n → ∃ t, kfio_close_disk true s = Ok (tt, t))
  ∧ (∀ d gd, bdev_gd s = Some d → disk_gd d = Some gd → ∃ t, hide_begin true gd s = Ok (tt, t))
  ∧ (removing = true → ∃ t, hide_finish s = Ok (0, t) ∧ exposed t = false)
  ∧ (exposed s = true → ∀ wq opflags, Z.land opflags KFIO_DISK_OP_SHUTDOWN ≠ 0 →
     ∃ t, linux_bdev_hide_disk wq true true opflags s = Ok (0, t) ∧ exposed t = false
       ∧ core_refs (log t) = if decide (n = 1) then 1 else 0).
Proof.
  intros R%use_steps_inv. split_and!.
  - destruct (decide (n = 0)) as [->|N]; [done|].
    destruct (used_cell _ _ _ R (used_exposed _ _ _ R ltac:(auto))) as (d & gd & i & q & _ & _ & _ & _ & _ & [_ ? _]). lia.
  - intros d D. destruct R as [U _]. cbn in U. rewrite D in U. apply U.
  - by apply used_exposed.
  - apply R.
  - intros E N r. destruct (used_cell _ _ _ R E) as (d & gd & i & q & D & G & Q & L & Dy & [_ [Re B] _]).
    destruct (open_disk_run s d i q r D Q L ltac:(lia)) as (l & Rn & _). rewrite Re, Dy in Rn. eauto.
  - intros N. destruct (used_cell _ _ _ R (used_exposed _ _ _ R ltac:(lia)))
      as (d & gd & i & q & D & G & Q & L & Dy & [_ [Re B] _]).
    destruct (close_disk_run s d i q D Q L ltac:(lia)) as (l & Rn & _). eauto.
  - intros d gd D G. destruct (used_cell _ _ _ R) as (d' & gd' & i & q & D' & G' & Q & L & Dy & [[Bh W] _ _]).
    { unfold exposed. by rewrite D, G. }
    rewrite D in D'. injection D' as <-. destruct (hide_begin_run s d gd i q true D Q L Bh W) as (l & Rn & _). eauto.
  - intros M. destruct (used_cell _ _ _ R (used_exposed _ _ _ R ltac:(auto))) as (d & gd & i & q & D & G & Q & _).
    rewrite (hide_finish_run s d i D Q). by eexists.
  - intros E wq opflags F.
    destruct (used_cell _ _ _ R E) as (d & gd & i & q & D & G & Q & L & Dy & [[Bh W] _ _]).
    assert (bchain (w_bios (dworld s)) (disk_bio_head d) []) as B by (by rewrite Bh).
    destruct (shutdown_keeps_last_opener s n opflags d gd i q [] wq) as (t & Rn & C); eauto using used_opened_by.
    exists t. split; [done|]. split; [|done].
    destruct (hide_disk_effect s d gd i q [] wq true true opflags D G Q L W B) as (t' & d' & Rn' & D' & G' & _).
    rewrite Rn in Rn'. injection Rn' as <-. unfold exposed. by rewrite D', G'.
Qed.
End uses.

(** ** Instances *)

Definition no_limits : queue_limits := mk_limits 0 0 0 0 0 0 0 2560 0 0.
Definition no_stats : part_stats := mk_stats 0 0 0.
Definition sample_gd : gendisk := mk_gd (QAt 1) 0 0 no_stats no_stats.
Definition sample_queues : gmap queue_id request_queue := {[ 1%positive := mk_queue false false false no_limits ]}.
Definition sample_env : expose_env := mk_env (Some sample_gd) QErr true true 32768 true true.

(** A disk just created, and one that is exposed, for blocks of 4096 bytes. *)
Definition disk_4k : fio_bdev := mk_bdev 2 1000 4096 64 0.
Definition created_state : dstate :=
  mk_dstate (Some (fresh_disk 4096 USE_QUEUE_NONE)) sample_queues (mk_world ∅ 0 []) [].
Definition exposed_state : dstate :=
  mk_dstate (Some (set_rq (QAt 1) (set_gd (Some sample_gd) (fresh_disk 4096 USE_QUEUE_NONE))))
    sample_queues (mk_world ∅ 0 []) [].

Lemma create_disk_accepts_witness :
  in_u 32 4096 ∧ in_u 32 520 ∧ in_u 32 256
  ∧ linux_bdev_create_disk disk_4k USE_QUEUE_NONE true (mk_dstate None ∅ (mk_world ∅ 0 []) [])
    = Ok (0, mk_dstate (Some (mk_disk None QNull None false 0 4095 (-1) 0 USE_QUEUE_NONE)) ∅ (mk_world ∅ 0 []) []).
Proof.
  split_and!; [by vm_compute..|].
  destruct (create_disk_accepts disk_4k USE_QUEUE_NONE true (mk_dstate None ∅ (mk_world ∅ 0 []) [])
              ltac:(by vm_compute)) as [(_ & _ & E)|[(_ & E & _)|(E & _)]]; [exact E|discriminate|].
  exfalso. apply E. by exists 12.
Defined.

Lemma exposed_opened_by : opened_by exposed_state 0.
Proof. split; [|lia|done]. do 2 eexists. split; [done|]. split; [done|]. by split; [eexists|]. Qed.

(** A disk created and exposed; a failed open, two opens; the disk is hidden, and an open
    refused; two closes, and the wait is over. *)
Lemma sample_uses : let H := linux_layer in
  ∃ s s', rtc use_step (new_device ∅ (mk_world ∅ 0 [])) (mk_use s 2 true) ∧ rtc use_step (mk_use s 2 true) (mk_use s' 0 false)
    ∧ log s = [AddDisk; WaitForDevice; CoreOpen (-5); CoreOpen 0; InvalidateBdev; DrainWait; DelGendisk]
    ∧ log s' = log s ++ [CoreRelease; Broadcast; PutDisk].
Proof.
  cbv zeta. do 2 eexists. split; [|split; [|shelve]].
  - eapply rtc_l; [apply (use_create _ 0 false disk_4k true 0); [done|vm_compute; reflexivity]|].
    eapply rtc_l; [apply (use_expose _ 0 false disk_4k sample_env sample_gd 1 (mk_queue false false false no_limits) 0);
      [done..|vm_compute; reflexivity]|].
    eapply rtc_l; [apply (use_open _ 0 false (-5)); [done|lia|vm_compute; reflexivity]|].
    eapply rtc_l; [apply (use_open _ 0 false 0); [done|lia|vm_compute; reflexivity]|].
    eapply rtc_l; [apply (use_open _ 1 false 0); [done|lia|vm_compute; reflexivity]|].
    eapply rtc_l; [eapply use_hide; [reflexivity|reflexivity|vm_compute; reflexivity]|]. apply rtc_refl.
  - eapply rtc_l; [apply (use_open _ 2 true 0); [done|lia|vm_compute; reflexivity]|].
    eapply rtc_l; [apply (use_close _ 2 true); [lia|vm_compute; reflexivity]|].
    eapply rtc_l; [apply (use_close _ 1 true); [lia|vm_compute; reflexivity]|].
    eapply rtc_l; [apply use_hidden; vm_compute; reflexivity|]. apply rtc_refl.
  Unshelve. done.
Qed.

Lemma open_close_balanced_witness : let H := linux_layer in
  ∃ s s', rtc use_step (new_device ∅ (mk_world ∅ 0 [])) (mk_use s 2 true) ∧ rtc use_step (mk_use s 2 true) (mk_use s' 0 false)
    ∧ core_refs (log s) = 1 ∧ core_refs (log s') = 0 ∧ ∃ t, kfio_close_disk true s = Ok (tt, t).
Proof.
  cbv zeta. destruct sample_uses as (s & s' & R & R' & _). exists s, s'.
  destruct (@open_close_balanced linux_layer ∅ (mk_world ∅ 0 []) s 2 true R) as (_ & _ & _ & C & _ & K & _).
  destruct (@open_close_balanced linux_layer ∅ (mk_world ∅ 0 []) s' 0 false ltac:(etransitivity; [exact R|exact R'])) as (_ & _ & _ & C' & _).
  split; [exact R|]. split; [exact R'|]. split; [exact C|]. split; [exact C'|]. apply K. lia.
Defined.

Lemma expose_configures_witness :
  ∃ s', @linux_bdev_expose_disk linux_layer USE_QUEUE_NONE disk_4k sample_env created_state = Ok (0, s')
        ∧ log s' = [AddDisk; WaitForDevice].
Proof.
  destruct (@expose_configures linux_layer disk_4k sample_env created_state (fresh_disk 4096 USE_QUEUE_NONE)
              sample_gd 1 (mk_queue false false false no_limits) 12)
    as (s' & d' & g' & q' & E & _ & _ & _ & _ & _ & _ & _ & _ & _ & _ & _ & Lg); try (vm_compute; done).
  exists s'. split; [exact E | exact Lg].
Defined.

Lemma hide_disk_spec_witness :
  ∃ s' d', @linux_bdev_hide_disk linux_layer USE_QUEUE_NONE true true KFIO_DISK_OP_DESTROY exposed_state = Ok (0, s')
           ∧ bdev_gd s' = Some d' ∧ log s' = [InvalidateBdev; DrainWait; DelGendisk; WaitForOpeners; PutDisk].
Proof.
  destruct (@hide_disk_spec linux_layer exposed_state
              (set_rq (QAt 1) (set_gd (Some sample_gd) (fresh_disk 4096 USE_QUEUE_NONE))) sample_gd 1
              (mk_queue false false false no_limits) [] USE_QUEUE_NONE true true KFIO_DISK_OP_DESTROY)
    as (s' & d' & E & D & _ & _ & _ & _ & _ & _ & Lg); try done.
  exists s', d'. split; [exact E|]. split; [exact D|exact Lg].
Defined.

(** One opener when the system shuts down. *)
Definition one_opener : dstate :=
  mk_dstate (Some (set_ref 1 (set_rq (QAt 1) (set_gd (Some sample_gd) (fresh_disk 4096 USE_QUEUE_NONE)))))
    sample_queues (mk_world ∅ 0 []) [CoreOpen 0].

Lemma shutdown_keeps_last_opener_witness :
  ∃ s', @linux_bdev_hide_disk linux_layer USE_QUEUE_NONE true true KFIO_DISK_OP_SHUTDOWN one_opener = Ok (0, s')
        ∧ core_refs (log s') = 1.
Proof.
  apply (@shutdown_keeps_last_opener linux_layer one_opener 1 KFIO_DISK_OP_SHUTDOWN
           (set_ref 1 (set_rq (QAt 1) (set_gd (Some sample_gd) (fresh_disk 4096 USE_QUEUE_NONE)))) sample_gd 1
           (mk_queue false false false no_limits) [] USE_QUEUE_NONE); try done.
  split; [|lia|done]. do 2 eexists. split; [done|]. split; [done|]. by split; [eexists|].
Defined.

Lemma expose_failure_faults_witness :
  @linux_bdev_expose_disk linux_layer USE_QUEUE_MQ disk_4k sample_env created_state = Fault BadPointer.
Proof.
  apply (@expose_failure_faults linux_layer disk_4k sample_env created_state (fresh_disk 4096 USE_QUEUE_NONE)); done.
Defined.

Lemma expose_undoes_work_witness :
  ∃ s', @linux_bdev_expose_disk linux_layer USE_QUEUE_NONE disk_4k
          (mk_env (Some sample_gd) QErr false true 32768 true true) created_state = Ok (- ENOMEM, s')
        ∧ log s' = [PutDisk].
Proof.
  destruct (@expose_undoes_work linux_layer disk_4k (mk_env (Some sample_gd) QErr false true 32768 true true)
              created_state (fresh_disk 4096 USE_QUEUE_NONE) sample_gd 1 (mk_queue false false false no_limits))
    as (s' & d' & E & _ & _ & _ & _ & Lg); try done.
  exists s'. split; [exact E|exact Lg].
Defined.
