(* ===== verification/KBioDisk.v ===== *)
(** * The disks that bios are submitted to: kblock.c

    Several disks in one memory: the pointers from a queue to its disk, to its block
    device and back that the functions of KBio and KPlug follow are those that the
    operations of KDisk set and clear.  A disk is numbered when it is created, and the
    number is not used again. *)
From S2P Require Import Prelude Ranges KScatter KScatterBio KBio KBioSpec KPlug KDisk KDiskSpec.

(** ** State *)

(** One disk: the block device it was made for, and the part of KDisk's state that belongs
    to it. *)
Record cell := mk_cell {
  cl_bdev : fio_bdev;
  cl_gd : option kfio_disk;                    (* bdev->bdev_gd *)
  cl_queues : gmap queue_id request_queue;
  cl_log : list action
}.

(** The queue pointer [p] of disk [d], by the name KBio has for it. *)
Definition rq_name (d : nat) (p : queue_ptr) : rq_ptr :=
  match p with QNull => RqNull | QErr => RqErr | QAt i => RqAt d i end.

(** What is found behind the pointers. *)
Definition devices_of (cells : list cell) : devices := {|
  dv_queuedata d i :=
    c ← cells !! d; q ← cl_queues c !! i; Some (if q_has_data q then Some d else None);
  dv_disks d :=
    c ← cells !! d; k ← cl_gd c; Some (mk_fields (cl_bdev c) (rq_name d (disk_rq k))) |}.

Definition cell_state (c : cell) (w : world) : dstate := mk_dstate (cl_gd c) (cl_queues c) w (cl_log c).
Definition cell_of (bdev : fio_bdev) (s : dstate) : cell := mk_cell bdev (bdev_gd s) (queues s) (log s).

(** A call of KDisk at disk [d]. *)
Definition at_disk {A} (d : nat) (m : D A) (w : world) (cells : list cell) : outcome (A * world * list cell) :=
  c ← of_option OutOfBounds (cells !! d);
  '(a, s) ← m (cell_state c w);
  Ok (a, dworld s, <[d := cell_of (cl_bdev c) s]> cells).

(** The kernel's view: whether it has been given the disk, the queue of the
    disk, and whether it still lets bios through, which it does until the queue is
    dying. *)
Definition cell_gd (c : cell) : option gendisk := k ← cl_gd c; disk_gd k.
Definition cell_exposed (c : cell) : bool := if cell_gd c is Some _ then true else false.

Definition cell_queue (c : cell) : option (queue_id * request_queue) :=
  g ← cell_gd c;
  match gd_queue g with QAt i => q ← cl_queues c !! i; Some (i, q) | _ => None end.

Definition accepts (cells : list cell) (d : nat) : option rq_ptr :=
  c ← cells !! d; '(i, q) ← cell_queue c; if q_dying q then None else Some (RqAt d i).

(** ** Invariant *)

Definition exposed_ok (c : cell) (k : kfio_disk) (g : gendisk) : Prop :=
  ∃ i q, gd_queue g = QAt i ∧ disk_rq k = QAt i ∧ cl_queues c !! i = Some q ∧ q_has_data q = true.

(** A disk that has been given to the kernel has one queue, which leads back to it; one
    that has not, has none. *)
Record disk_ok (c : cell) (k : kfio_disk) : Prop := {
  do_bios : disk_bio_head k = None;
  do_mode : disk_use_workqueue k = USE_QUEUE_NONE;
  do_block : 0 < bdev_block_size (cl_bdev c);
  do_queue : if disk_gd k is Some g then exposed_ok c k g else disk_rq k = QNull
}.

Definition cell_ok (c : cell) : Prop := if cl_gd c is Some k then disk_ok c k else True.

(** A bio sent to disk [d] finds its block device. *)
Lemma accepts_exposed cells d q :
  accepts cells d = Some q → ∃ c, cells !! d = Some c ∧ cell_exposed c = true.
Proof.
  unfold accepts, cell_queue, cell_exposed. destruct (cells !! d) as [c|]; [|done]. simpl. intros E. exists c.
  split; [done|]. by destruct (cell_gd c).
Qed.

Lemma exposed_inv c :
  cell_ok c → cell_exposed c = true →
  ∃ k g i q, cl_gd c = Some k ∧ disk_gd k = Some g ∧ disk_ok c k ∧ gd_queue g = QAt i ∧ disk_rq k = QAt i
    ∧ cl_queues c !! i = Some q ∧ q_has_data q = true.
Proof.
  unfold cell_ok, cell_exposed, cell_gd. intros Hok E. destruct (cl_gd c) as [k|]; [|done]. simpl in E.
  destruct (disk_gd k) as [g|] eqn:G; [|done]. pose proof (do_queue _ _ Hok) as Q.
  rewrite G in Q. destruct Q as (i & q & Q). by exists k, g, i, q.
Qed.

Lemma exposed_pointers cells d c :
  Forall cell_ok cells → cells !! d = Some c → cell_exposed c = true →
  ∃ i, load_disk (devices_of cells) (Some d) = Ok (mk_fields (cl_bdev c) (RqAt d i))
    ∧ load_queuedata (devices_of cells) (RqAt d i) = Ok (Some d)
    ∧ queue_bdev (devices_of cells) (RqAt d i) = Ok (cl_bdev c) ∧ 0 < bdev_block_size (cl_bdev c)
    ∧ ∀ q, accepts cells d = Some q → q = RqAt d i.
Proof.
  intros Hok L E. rewrite list.Forall_forall in Hok.
  destruct (exposed_inv c (Hok c (list_elem_of_lookup_2 _ _ _ L)) E) as (k & g & i & q & K & G & D & Gq & Rq & Q & H).
  exists i. unfold queue_bdev, load_queuedata, load_disk, devices_of, accepts, cell_queue, cell_gd. simpl.
  rewrite L. simpl. rewrite K. simpl. rewrite G. simpl. rewrite Gq, Rq, Q. simpl. rewrite H. simpl. rewrite L. simpl.
  rewrite K. simpl. split_and!; try done; [apply D|].
  intros q' E'. destruct (q_dying q); [done|]. by injection E' as <-.
Qed.

(** ** The operations *)

Section operations.
Context `{BlockLayer}.

(** Creating a disk: a new cell, empty if the creation failed. *)
Definition create_cell (bdev : fio_bdev) (use_workqueue : Z) (allocated : bool) (w : world) : outcome (world * cell) :=
  '(_, s) ← linux_bdev_create_disk bdev use_workqueue allocated (mk_dstate None ∅ w []);
  Ok (dworld s, cell_of bdev s).

(** Hiding a disk, from the wait for the openers on. *)
Definition hide_end (use_workqueue : Z) (bdev_do_release linux_bdev : bool) (opflags : Z) : D Z :=
  hide_openers bdev_do_release linux_bdev opflags;; drop_gendisk;; drop_queue use_workqueue;; mret 0.

(** The two parts are the whole. *)
Lemma hide_disk_parts s d gd wq release linux_bdev opflags :
  bdev_gd s = Some d → disk_gd d = Some gd →
  linux_bdev_hide_disk wq release linux_bdev opflags s
  = (hide_begin linux_bdev gd;; hide_end wq release linux_bdev opflags) s.
Proof.
  intros D G. unfold linux_bdev_hide_disk, hide_end, hide_gendisk.
  erewrite stateful_bind_ok; [|unfold the_disk; by rewrite D]. cbv beta. rewrite G.
  cbv [mbind stateful_bind]. destruct (hide_begin linux_bdev gd s) as [[[] t]|]; [|done].
  destruct (hide_openers _ _ _ t) as [[[] t']|]; [|done]. by destruct (drop_gendisk t') as [[[] t'']|].
Qed.

Lemma create_cell_ok bdev allocated w :
  ∃ c, create_cell bdev USE_QUEUE_NONE allocated w = Ok (w, c) ∧ cell_ok c ∧ cell_exposed c = false.
Proof.
  unfold create_cell, linux_bdev_create_disk. destruct (_ || _) eqn:B; [|destruct (negb allocated)].
  1,2: eexists; by split_and!.
  eexists. split_and!; try done. split; try done. cbn. apply orb_false_iff in B as [B _].
  apply Z.ltb_ge in B. unfold KERNEL_SECTOR_SIZE in B. lia.
Qed.

Lemma expose_cell c w k bdev env gd i q :
  cell_ok c → cl_gd c = Some k → disk_gd k = None → env_gd env = Some gd → gd_queue gd = QAt i → q_dying q = false →
  ∃ v s, linux_bdev_expose_disk USE_QUEUE_NONE bdev env (with_new_queue i q (cell_state c w)) = Ok (v, s)
    ∧ dworld s = w ∧ cell_ok (cell_of (cl_bdev c) s).
Proof.
  unfold cell_ok. intros Hok K G Eg Gq Dy. rewrite K in Hok. destruct Hok as [B M Z R]. rewrite G in R.
  destruct (expose_run bdev env (cell_state c w) k gd i q K R Eg Gq Dy) as (gd' & q' & l & E & _ & Hd & Gq' & _).
  do 2 eexists. split; [exact E|]. split; [done|]. cbn. destruct (env_param env); split; cbn; try done.
  exists i, q'. cbn. by rewrite lookup_insert_eq.
Qed.

Lemma hide_begin_cell c w k gd linux_bdev :
  cell_ok c → cl_gd c = Some k → disk_gd k = Some gd →
  ∃ s, hide_begin linux_bdev gd (cell_state c w) = Ok (tt, s) ∧ dworld s = w
    ∧ cell_ok (cell_of (cl_bdev c) s) ∧ cell_exposed (cell_of (cl_bdev c) s) = true.
Proof.
  unfold cell_ok. intros Hok K G. rewrite K in Hok. destruct Hok as [B M Z R]. rewrite G in R.
  destruct R as (i & q & Gq & Rq & L & Hd).
  destruct (hide_begin_run (cell_state c w) k gd i q linux_bdev K Rq L B M) as (l & E & _).
  eexists. split; [exact E|]. split; [done|]. split; [|done]. split; cbn; try done.
  exists i, (set_dying q). cbn. by rewrite lookup_insert_eq.
Qed.

Lemma hide_openers_run s d release linux_bdev opflags :
  bdev_gd s = Some d →
  ∃ n l, hide_openers release linux_bdev opflags s
    = Ok (tt, mk_dstate (Some (set_ref n d)) (queues s) (dworld s) (log s ++ l)).
Proof.
  intros D. unfold hide_openers.
  assert (∀ t, bdev_gd t = Some d → t = mk_dstate (Some (set_ref (ref_count d) d)) (queues t) (dworld t) (log t ++ [])) as I.
  { intros [] E. rewrite app_nil_r. destruct d; cbn in *. by subst. }
  destruct linux_bdev; [|exists (ref_count d), []; by rewrite <- (I s D)].
  destruct (_ =? 0).
  - exists (ref_count d), [WaitForOpeners]. run_disk. rewrite D. by destruct d.
  - exists (s32 (ref_count d - 1)). run_disk. rewrite D. run_disk.
    destruct (_ >? 0); [destruct release|]; run_disk; [by eexists|exists []; by rewrite app_nil_r..].
Qed.

Lemma hide_end_cell c w k release linux_bdev opflags :
  cell_ok c → cl_gd c = Some k →
  ∃ s, hide_end USE_QUEUE_NONE release linux_bdev opflags (cell_state c w) = Ok (0, s) ∧ dworld s = w
    ∧ cell_ok (cell_of (cl_bdev c) s).
Proof.
  unfold cell_ok. intros Hok K. rewrite K in Hok. destruct Hok as [B M Z R]. unfold hide_end.
  destruct (hide_openers_run (cell_state c w) k release linux_bdev opflags K) as (n & l & E).
  erewrite stateful_bind_ok; [|exact E]. unfold drop_gendisk, drop_queue. run_disk.
  change (USE_QUEUE_NONE =? USE_QUEUE_MQ) with false.
  destruct (decide (disk_rq k ≠ QNull)) as [N|N]; run_disk; eexists; (split; [done|]); (split; [done|]); split; cbn; try done.
  destruct (decide (disk_rq k = QNull)); [done|]. by destruct N.
Qed.

Lemma destroy_cell c w :
  is_Some (cl_gd c) →
  ∃ s, linux_bdev_destroy_disk (cell_state c w) = Ok (tt, s) ∧ dworld s = w ∧ cell_ok (cell_of (cl_bdev c) s).
Proof.
  intros [k K]. unfold linux_bdev_destroy_disk. run_disk. cbn [cell_state bdev_gd]. rewrite K. by eexists.
Qed.
End operations.
