(* ===== verification/KBioSystem.v ===== *)
(** * The life of a bio: threads, plugs, work items and the core (kblock.c)

    The block device as a transition system: disks are created, exposed, hidden and
    destroyed; threads submit bios to them and have their plugs flushed by the kernel,
    [kblockd] runs deferred unplugs, the core completes requests - in any order.
    Every bio handed to the driver is, at any time, in exactly one place: on a plug,
    behind a deferred unplug, behind a request of the core, or handed back, once. *)
From S2P Require Import Prelude Ranges KScatter KScatterBio KBio KBioSpec KPlug KDisk KDiskSpec KBioDisk.

(** ** The system *)

(** The requests that a list of events passes to the core, and the bios that it
    hands back. *)
Definition submitted (evs : list event) : list kfio_bio :=
  omap (λ e, match e with Submit (f :: _) => Some f | _ => None end) evs.
Definition ended (evs : list event) : list bio_id :=
  omap (λ e, match e with EndIo i _ => Some i | _ => None end) evs.

(** [c_disks]: the disks; [c_plugs]: the plug of each thread; [c_works]: unplugs queued for kblockd;
    [c_out]: requests in the core; [c_handed]: the bios ever handed over. *)
Record config := mk_config {
  c_world : world;
  c_disks : list cell;
  c_plugs : list (option (list kfio_plug));
  c_works : list kfio_plug;
  c_out : list kfio_bio;
  c_handed : list bio_id
}.

Definition init_config (threads : nat) : config :=
  mk_config (mk_world ∅ 0 []) [] (replicate threads None) [] [] [].

(** The requests submitted between two worlds. *)
Definition newly (w w' : world) : list kfio_bio := submitted (drop (length (w_events w)) (w_events w')).

Section system.
Context `{BlockLayer} `{Core} `{Driver}.

(** The core calls the completor that the request names. *)
Definition run_completor (f : kfio_bio) (error : Z) : M unit :=
  match fbio_completor f with
  | kfio_bio_completor_cb => kfio_bio_completor f error
  | fusion_handle_atomic_chain_completor_cb => fusion_handle_atomic_chain_completor f error
  | _ => fail BadPointer
  end.

(** The kernel runs the callbacks of a plug one after the other. *)
Fixpoint unplug_all (dv : devices) (plugs : list kfio_plug) (from_schedule : bool) : M (list kfio_plug) :=
  match plugs with
  | [] => mret []
  | plug :: plugs =>
      works ← kfio_unplug_cb dv plug from_schedule;
      more ← unplug_all dv plugs from_schedule;
      mret (works ++ more)
  end.

(** A call at disk [d] as a step. *)
Definition disk_call {A} (c : config) (d : nat) (m : D A) : outcome config :=
  '(_, w, cells) ← at_disk d m (c_world c) (c_disks c);
  Ok (mk_config w cells (c_plugs c) (c_works c) (c_out c) (c_handed c)).

(** The steps, with their outcome.  The kernel makes a gendisk with a new queue for a disk
    that is to be exposed; it passes bios to the queue of a gendisk until the queue is
    dying, and a writer is held off for as long as the loop takes.  Hiding is two steps,
    around the wait for the openers.  The label of a step is the disk that is given up by
    it: whose pointer to its queue is cleared. *)
Inductive step (c : config) : option nat → outcome config → Prop :=
| step_create bdev allocated :
    step c None ('(w, cell) ← create_cell bdev use_workqueue allocated (c_world c);
                 Ok (mk_config w (c_disks c ++ [cell]) (c_plugs c) (c_works c) (c_out c) (c_handed c)))
| step_expose d cell k bdev env gd i q :
    c_disks c !! d = Some cell → cl_gd cell = Some k → disk_gd k = None →
    env_gd env = Some gd → gd_queue gd = QAt i → cl_queues cell !! i = None → q_dying q = false →
    step c None (disk_call c d (λ s, linux_bdev_expose_disk use_workqueue bdev env (with_new_queue i q s)))
| step_hide_begin d cell k gd linux_bdev :
    c_disks c !! d = Some cell → cl_gd cell = Some k → disk_gd k = Some gd → is_Some (accepts (c_disks c) d) →
    step c None (disk_call c d (hide_begin linux_bdev gd))
| step_hide_end d cell release linux_bdev opflags :
    c_disks c !! d = Some cell → cell_exposed cell = true → accepts (c_disks c) d = None →
    step c (Some d) (disk_call c d (hide_end use_workqueue release linux_bdev opflags))
| step_destroy d cell :
    c_disks c !! d = Some cell → is_Some (cl_gd cell) → cell_exposed cell = false →
    step c None (disk_call c d linux_bdev_destroy_disk)
| step_start_plug t :
    c_plugs c !! t = Some None →
    step c None (Ok (mk_config (c_world c) (c_disks c) (<[t := Some []]> (c_plugs c)) (c_works c) (c_out c) (c_handed c)))
| step_end_plug t :
    c_plugs c !! t = Some (Some []) →
    step c None (Ok (mk_config (c_world c) (c_disks c) (<[t := None]> (c_plugs c)) (c_works c) (c_out c) (c_handed c)))
| step_submit t d queue i b stalled waited fuel r kmalloc_ok cb_list :
    accepts (c_disks c) d = Some queue → holdoff_writes_under_pressure stalled waited fuel = Ok r →
    c_plugs c !! t = Some cb_list → w_bios (c_world c) !! i = None → bi_next b = None → bio_ok b →
    step c None
           (let w := with_bios (<[i := b]> (w_bios (c_world c))) (c_world c) in
            '(cb_list, w') ← kfio_submit_bio (devices_of (c_disks c)) queue stalled waited fuel kmalloc_ok cb_list (Some i) w;
            Ok (mk_config w' (c_disks c) (<[t := cb_list]> (c_plugs c)) (c_works c) (c_out c ++ newly w w')
                  (c_handed c ++ [i])))
| step_flush t plugs from_schedule :
    c_plugs c !! t = Some (Some plugs) →
    step c None
           ('(works, w') ← unplug_all (devices_of (c_disks c)) plugs from_schedule (c_world c);
            Ok (mk_config w' (c_disks c) (<[t := Some []]> (c_plugs c)) (c_works c ++ works)
                  (c_out c ++ newly (c_world c) w') (c_handed c)))
| step_work n plug :
    c_works c !! n = Some plug →
    step c None
           ('(_, w') ← kfio_unplug_do_cb (devices_of (c_disks c)) plug (c_world c);
            Ok (mk_config w' (c_disks c) (c_plugs c) (delete n (c_works c)) (c_out c ++ newly (c_world c) w') (c_handed c)))
| step_complete n f error :
    c_out c !! n = Some f →
    step c None
           ('(_, w') ← run_completor f error (c_world c);
            Ok (mk_config w' (c_disks c) (c_plugs c) (c_works c) (delete n (c_out c) ++ newly (c_world c) w') (c_handed c))).

Inductive reachable (n : nat) : config → Prop :=
| reachable_init : reachable n (init_config n)
| reachable_step c a c' : reachable n c → step c a (Ok c') → reachable n c'.

(** The plugs, of threads and behind work items, and whether they hold no bio of disk [d]. *)
Definition all_plugs (c : config) : list kfio_plug := concat (default [] <$> c_plugs c) ++ c_works c.
Definition unplugged (c : config) (d : nat) : Prop :=
  ∀ plug, plug ∈ all_plugs c → plug_disk plug = Some d → bio_head plug = None.

(** Reachable without a disk given up that has bios on a plug. *)
Inductive safely_reachable (n : nat) : config → Prop :=
| safely_init : safely_reachable n (init_config n)
| safely_step c a c' :
    safely_reachable n c → step c a (Ok c') → (∀ d, a = Some d → unplugged c d) → safely_reachable n c'.

(** The kernel either leaves a bio as it is or ends it; and it passes bios to the driver in
    the mode without requests. *)
Class DriverLaws : Prop := {
  split_or_end w i b :
    w_bios w !! i = Some b →
    bio_split_to_limits (Some i) w = Ok (Some i, w)
    ∨ ∃ status, bio_split_to_limits (Some i) w
                = Ok (None, mk_world (delete i (w_bios w)) (w_allocs w) (w_events w ++ [EndIo i status]));
  queue_mode : use_workqueue = USE_QUEUE_NONE
}.

(** Permutations, by counting. *)
Ltac count_perm :=
  apply (proj2 (Permutation_count_occ Pos.eq_dec _ _)); let x := fresh "x" in intros x;
  repeat match goal with
    | E : _ ≡ₚ _ |- _ =>
        let F := fresh "F" in
        pose proof (proj1 (Permutation_count_occ Pos.eq_dec _ _) E x) as F; clear E;
        rewrite ?count_occ_app in F
    end;
  rewrite ?count_occ_app; lia.

(** ** Who holds a bio *)

Inductive holder := HPlug (plug : kfio_plug) | HOut (f : kfio_bio).

Definition first_bio (x : holder) : bio_ptr :=
  match x with HPlug plug => bio_head plug | HOut f => fbio_parameter f end.

(** The bios of a chain, walked with fuel; [bchain_walk] below says it is enough. *)
Fixpoint walk (fuel : nat) (h : gmap bio_id bio) (p : bio_ptr) : list bio_id :=
  match fuel, p with
  | S fuel, Some i => i :: match h !! i with Some b => walk fuel h (bi_next b) | None => [] end
  | _, _ => []
  end.

Definition bios_of (h : gmap bio_id bio) (x : holder) : list bio_id := walk (size h) h (first_bio x).
Definition held (h : gmap bio_id bio) (xs : list holder) : list bio_id := concat (bios_of h <$> xs).

Definition holders (c : config) : list holder :=
  (HPlug <$> concat (default [] <$> c_plugs c)) ++ (HPlug <$> c_works c) ++ (HOut <$> c_out c).

Lemma walk_chain fuel h p ids : bchain h p ids → (length ids <= fuel)%nat → walk fuel h p = ids.
Proof.
  revert p ids. induction fuel as [|fuel IH]; intros p [|i ids] Hc Hf; simpl in *; try lia; try done.
  - by rewrite Hc.
  - destruct Hc as [-> (b & Hb & Ht)]. rewrite Hb. f_equal. apply IH; [done|lia].
Qed.

Lemma bios_of_chain h x ids : bchain h (first_bio x) ids → bios_of h x = ids.
Proof. intros Hc. apply walk_chain; [done|]. by eapply bchain_size. Qed.

(** A plug's tail is its last bio; a request in the core has bios and the
    completor that walks them. *)
Definition holder_ok (h : gmap bio_id bio) (x : holder) : Prop :=
  bchain h (first_bio x) (bios_of h x)
  ∧ match x with
    | HPlug plug => bio_tail plug = list.last (bios_of h x)
                    ∧ ∀ j b, j ∈ bios_of h x → h !! j = Some b → bio_ok b
    | HOut f => bios_of h x ≠ [] ∧ fbio_completor f = kfio_bio_completor_cb
    end.

Lemma holder_ok_frame h h' x :
  (∀ j, j ∈ bios_of h x → h' !! j = h !! j) → holder_ok h x → holder_ok h' x ∧ bios_of h' x = bios_of h x.
Proof.
  intros Hs [Hc Hx]. pose proof (bchain_frame _ _ _ _ Hs Hc) as Hc'.
  pose proof (bios_of_chain _ _ _ Hc') as E. split; [|done]. split; [by rewrite E|].
  destruct x as [plug|f]; rewrite ?E; [|done]. destruct Hx as [Ht Hok]. split; [done|].
  intros j b Hj. rewrite Hs by done. by apply Hok.
Qed.

(** The heap [h] is exactly what [xs] hold; what was handed over is held or
    ended. *)
Record sound (h : gmap bio_id bio) (xs : list holder) (handed : list bio_id) (evs : list event) : Prop := {
  so_holders : Forall (holder_ok h) xs;
  so_held : held h xs ≡ₚ elements (dom h);
  so_handed : handed ≡ₚ held h xs ++ ended evs
}.

Lemma held_app h xs ys : held h (xs ++ ys) = held h xs ++ held h ys.
Proof. unfold held. by rewrite fmap_app, concat_app. Qed.

Lemma held_perm h xs ys : xs ≡ₚ ys → held h xs ≡ₚ held h ys.
Proof.
  unfold held. induction 1 as [|x xs ys _ IH|x y xs|xs ys zs _ IH1 _ IH2]; simpl.
  - done.
  - by rewrite IH.
  - by rewrite !(assoc_L (++)), (Permutation_app_comm (bios_of h y)).
  - by rewrite IH1.
Qed.

#[global] Instance held_proper h : Proper ((≡ₚ) ==> (≡ₚ)) (held h).
Proof. intros xs ys. apply held_perm. Qed.

Lemma sound_perm h xs ys handed evs : xs ≡ₚ ys → sound h xs handed evs → sound h ys handed evs.
Proof.
  intros Hp [A1 A2 A3]. split.
  - by rewrite <- Hp.
  - by rewrite <- (held_perm h _ _ Hp).
  - by rewrite <- (held_perm h _ _ Hp).
Qed.

Lemma ended_app xs ys : ended (xs ++ ys) = ended xs ++ ended ys.
Proof. apply omap_app. Qed.
Lemma submitted_app xs ys : submitted (xs ++ ys) = submitted xs ++ submitted ys.
Proof. apply omap_app. Qed.

(** ** Handing bios on *)

(** From [w] to [w'] the driver disposed of the bios [ids]: those it still has
    are with the holders [kept] or with new requests of the core, the others
    were ended; no other bio was touched. *)
Definition moves (w w' : world) (ids : list bio_id) (kept : list holder) : Prop :=
  ∃ evs, w_events w' = w_events w ++ evs
    ∧ Forall (holder_ok (w_bios w')) (kept ++ (HOut <$> submitted evs))
    ∧ held (w_bios w') (kept ++ (HOut <$> submitted evs)) ++ ended evs ≡ₚ ids
    ∧ (∀ j, j ∈ ended evs → w_bios w' !! j = None)
    ∧ ∀ j, j ∉ ids → w_bios w' !! j = w_bios w !! j.

Lemma elem_of_held h xs j : j ∈ held h xs → ∃ x, x ∈ xs ∧ j ∈ bios_of h x.
Proof.
  unfold held. induction xs as [|x xs IH]; simpl; [by intros ?%not_elem_of_nil|].
  rewrite elem_of_app. intros [Hj|Hj]; [exists x; split; [by left|done]|].
  destruct (IH Hj) as (y & Hy & ?). exists y. split; [by right|done].
Qed.

Lemma held_cons h x xs : held h (x :: xs) = bios_of h x ++ held h xs.
Proof. done. Qed.

Lemma held_frame h h' xs :
  (∀ j, j ∈ held h xs → h' !! j = h !! j) → Forall (holder_ok h) xs →
  Forall (holder_ok h') xs ∧ held h' xs = held h xs.
Proof.
  induction xs as [|x xs IH]; [done|]. rewrite !held_cons. intros Hs Hok.
  apply list.Forall_cons in Hok as [Hx Hok].
  destruct (holder_ok_frame h h' x) as [Hx' Ex]; [intros j Hj; apply Hs; set_solver|done|].
  destruct IH as [Hok' E]; [intros j Hj; apply Hs; set_solver|done|].
  split; [by constructor|]. by rewrite Ex, E.
Qed.

Lemma held_live h xs j : Forall (holder_ok h) xs → j ∈ held h xs → is_Some (h !! j).
Proof.
  intros Hok Hj. apply elem_of_held in Hj as (x & Hx & Hj).
  rewrite list.Forall_forall in Hok. destruct (Hok x Hx) as [Hc _]. by eapply bchain_live.
Qed.

(** The holders [olds] and the fresh bios [F] give way to what [moves] says. *)
Lemma transfer h w w' olds rest handed F kept :
  sound h (olds ++ rest) handed (w_events w) →
  moves w w' (held h olds ++ F) kept →
  (∀ j, j ∈ F → h !! j = None) → NoDup F →
  (∀ j, j ∉ F → w_bios w !! j = h !! j) →
  sound (w_bios w') ((kept ++ (HOut <$> newly w w')) ++ rest) (handed ++ F) (w_events w').
Proof.
  intros [A1 A2 A3] (evs & Ev & Hnew & Hp & Hdead & Hfr) HF HdF Hw.
  assert (newly w w' = submitted evs) as -> by (unfold newly; by rewrite Ev, drop_app_length).
  set (news := kept ++ (HOut <$> submitted evs)) in *. rewrite held_app in A2, A3.
  apply Forall_app in A1 as [A1 A1'].
  assert (NoDup (held h olds ++ held h rest)) as Hd by (rewrite A2; apply NoDup_elements).
  assert (∀ j, j ∈ held h rest → j ∉ held h olds ++ F) as Hrest.
  { intros j Hj [Ho|HjF]%elem_of_app.
    - apply list.NoDup_app in Hd as (_ & Hd & _). by apply (Hd j).
    - destruct (held_live h rest j A1' Hj) as [b Hb]. by rewrite (HF j HjF) in Hb. }
  assert (∀ j, j ∉ held h olds ++ F → w_bios w' !! j = h !! j) as Hsame.
  { intros j Hj. rewrite Hfr by done. apply Hw. set_solver. }
  destruct (held_frame h (w_bios w') rest) as [B1 B2]; [intros j Hj; by apply Hsame, Hrest|done|].
  assert (NoDup ((held (w_bios w') news ++ ended evs) ++ held h rest)) as Hd2.
  { rewrite Hp. apply list.NoDup_app in Hd as (Hd1 & _ & Hd3). apply list.NoDup_app. split_and!; [|set_solver|done].
    apply list.NoDup_app. split_and!; [done| |done]. intros j Hj HjF.
    destruct (held_live h olds j A1 Hj) as [b Hb]. by rewrite (HF j HjF) in Hb. }
  split.
  - by apply Forall_app.
  - rewrite held_app, B2. apply NoDup_Permutation.
    + rewrite <- (assoc_L (++)), (Permutation_app_comm (ended evs)), (assoc_L (++)) in Hd2.
      by apply list.NoDup_app in Hd2 as (? & _ & _).
    + apply NoDup_elements.
    + intros j. rewrite elem_of_elements, elem_of_dom, elem_of_app. split.
      * intros [Hj|Hj]; [by apply (held_live _ news)|]. rewrite Hsame by by apply Hrest. by apply (held_live _ rest).
      * intros [b Hb]. destruct (decide (j ∈ held h olds ++ F)) as [Hj|Hj].
        -- rewrite <- Hp, elem_of_app in Hj. destruct Hj as [Hj|Hj]; [by left|]. by rewrite (Hdead j Hj) in Hb.
        -- right. rewrite Hsame in Hb by done. assert (j ∈ elements (dom h)) as Hj'.
           { apply elem_of_elements, elem_of_dom. by exists b. }
           rewrite <- A2 in Hj'. set_solver.
  - rewrite A3, held_app, B2, Ev, ended_app. clear -Hp. count_perm.
Qed.
Context {HC : CoreLaws} {HD : DriverLaws}.

Lemma moves_none w : moves w w [] [].
Proof. exists []. rewrite app_nil_r. split_and!; try done. intros j Hj. by apply not_elem_of_nil in Hj. Qed.

Lemma moves_trans w w1 w2 ids1 ids2 :
  moves w w1 ids1 [] → moves w1 w2 ids2 [] → (∀ j, j ∈ ids1 → j ∉ ids2) → moves w w2 (ids1 ++ ids2) [].
Proof.
  intros (e1 & E1 & O1 & P1 & D1 & F1) (e2 & E2 & O2 & P2 & D2 & F2) Hd. simpl in *.
  assert (∀ j, j ∈ ids1 → w_bios w2 !! j = w_bios w1 !! j) as Hs by (intros j Hj; by apply F2, Hd).
  destruct (held_frame (w_bios w1) (w_bios w2) (HOut <$> submitted e1)) as [O1' Eh1]; [|done|].
  { intros j Hj. apply Hs. rewrite <- P1. set_solver. }
  exists (e1 ++ e2). rewrite submitted_app, ended_app, fmap_app. simpl. split_and!.
  - by rewrite E2, E1, (assoc_L (++)).
  - by apply Forall_app.
  - rewrite held_app, Eh1. clear -P1 P2. count_perm.
  - intros j [Hj|Hj]%elem_of_app; [|by apply D2]. rewrite Hs; [by apply D1|]. rewrite <- P1. set_solver.
  - intros j Hj. rewrite not_elem_of_app in Hj. rewrite F2, F1; tauto.
Qed.

(** A batch as the kickoff leaves it. *)
Lemma batches_hold bdev h0 h batches :
  let evs := concat (batch_events <$> batches) in
  Forall (batch_ok bdev h0 h) batches →
  Forall (holder_ok h) (HOut <$> submitted evs)
  ∧ held h (HOut <$> submitted evs) ++ ended evs ≡ₚ concat (batch_ids <$> batches)
  ∧ ∀ j, j ∈ ended evs → h !! j = None.
Proof.
  induction batches as [|x batches IH]; cbn [fmap list_fmap concat]; intros Hok.
  { split_and!; try done. intros j Hj. by apply not_elem_of_nil in Hj. }
  apply list.Forall_cons in Hok as [Hx Hok]. destruct (IH Hok) as (O & P & D).
  rewrite submitted_app, ended_app, fmap_app. destruct x as [f ids|i freed]; simpl in *.
  - destruct Hx as (Hne & Hc & bs & _ & Hca). pose proof (bios_of_chain h (HOut f) ids Hc) as E.
    rewrite held_cons, E. split_and!; [|clear -P; count_perm|done]. constructor; [|done].
    split; rewrite E; [done|]. split; [done|]. apply Hca.
  - destruct freed as [f|]; simpl; (split_and!; [done| |]).
    1,3: clear -P; rewrite Permutation_app_comm; simpl; rewrite Permutation_app_comm; by rewrite P.
    all: intros j [->|Hj]%elem_of_cons; [done|by apply D].
Qed.

(** A queue that leads to a block device. *)
Definition leads (dv : devices) (q : rq_ptr) : Prop :=
  ∃ bdev, queue_bdev dv q = Ok bdev ∧ 0 < bdev_block_size bdev.

Lemma kickoff_moves w dv q p ids :
  leads dv q → bchain (w_bios w) p ids → ids ≠ [] → (∀ j b, j ∈ ids → w_bios w !! j = Some b → bio_ok b) →
  ∃ w', kfio_kickoff_plugged_io dv q p w = Ok (tt, w') ∧ moves w w' ids [].
Proof.
  intros (bdev & Hq & Hbs) Hc Hne Hok.
  destruct (kickoff_batches dv q bdev Hq Hbs w p ids Hc Hne Hok)
    as (w' & batches & E & Hids & Hev & Hb & Hf).
  exists w'. split; [done|]. destruct (batches_hold _ _ _ _ Hb) as (O & P & D).
  exists (concat (batch_events <$> batches)). simpl. rewrite <- Hids in *. by split_and!.
Qed.

Lemma end_moves w w' i status :
  w_bios w' = delete i (w_bios w) → w_events w' = w_events w ++ [EndIo i status] → moves w w' [i] [].
Proof.
  intros Eb Ee. exists [EndIo i status]. rewrite Eb. split_and!; try done.
  - intros j ->%list_elem_of_singleton. apply lookup_delete_eq.
  - intros j Hj. apply lookup_delete_ne. set_solver.
Qed.

Lemma chain_moves w p error ids :
  bchain (w_bios w) p ids → ids ≠ [] →
  ∃ n w', complete_loop (S (size (w_bios w))) p error 0 w = Ok (n, w') ∧ moves w w' ids [].
Proof.
  intros Hc Hne. rewrite (complete_chain_spec w p error ids Hc Hne). eexists _, _. split; [done|].
  exists (end_event (w_bios w) error <$> ids). cbn [w_bios w_events].
  assert (submitted (end_event (w_bios w) error <$> ids) = []) as -> by (clear; by induction ids).
  assert (ended (end_event (w_bios w) error <$> ids) = ids) as ->.
  { clear. induction ids as [|i ids IH]; [done|]. cbn. by f_equal. }
  assert (∀ j, foldr delete (w_bios w) ids !! j = if decide (j ∈ ids) then None else w_bios w !! j) as Hl
    by apply lookup_delete_chain.
  split_and!; try done.
  - intros j Hj. by rewrite Hl, decide_True.
  - intros j Hj. by rewrite Hl, decide_False.
Qed.

Lemma submit_unplugged_moves w dv q i b :
  leads dv q → w_bios w !! i = Some b → bi_next b = None → bio_ok b →
  ∃ w', submit_unplugged dv q (Some i) w = Ok (tt, w') ∧ moves w w' [i] [].
Proof.
  intros (bdev & Hq & Hbs) Hb Hn Hok. unfold submit_unplugged.
  destruct (map_to_fbio_spec dv q bdev Hq Hbs w i b Hb Hok) as (r & w1 & E & Eh & Hr).
  erewrite stateful_bind_ok; [|exact E]. destruct r as [f|].
  - destruct Hr as (Ev & Hca & Hp). eexists. split; [done|]. exists [Submit [f]]. cbn [w_bios w_events].
    assert (bchain (w_bios w1) (first_bio (HOut f)) [i]) as Hc.
    { simpl. rewrite Hp, Eh. split; [done|]. by exists b. }
    pose proof (bios_of_chain _ _ _ Hc) as Ei. simpl. rewrite held_cons, Ei, Ev. split_and!; try done.
    + constructor; [|done]. split; rewrite Ei; [done|]. split; [done|]. apply Hca.
    + intros j Hj. by apply not_elem_of_nil in Hj.
    + intros j Hj. by rewrite Eh.
  - destruct Hr as [freed Ev].
    rewrite (complete_run w1 i b (- EIO)) by by rewrite Eh. eexists. split; [done|].
    exists (free_events freed ++ [EndIo i (errno_to_blk_status (- EIO))]). cbn [w_bios w_events].
    assert (submitted (free_events freed ++ [EndIo i (errno_to_blk_status (- EIO))]) = []) as -> by by destruct freed.
    assert (ended (free_events freed ++ [EndIo i (errno_to_blk_status (- EIO))]) = [i]) as -> by by destruct freed.
    split_and!; try done.
    + by rewrite Ev, (assoc_L (++)).
    + intros j ->%list_elem_of_singleton. apply lookup_delete_eq.
    + intros j Hj. rewrite Eh. apply lookup_delete_ne. set_solver.
Qed.

(** A plug with nothing on it. *)
Lemma moves_keep_empty w w' ids disk :
  moves w w' ids [] → moves w w' ids [HPlug (mk_plug disk None None)].
Proof.
  intros (evs & Ee & O & P & D & F). exists evs. simpl in *.
  assert (bios_of (w_bios w') (HPlug (mk_plug disk None None)) = []) as E by by apply bios_of_chain.
  rewrite held_cons, E. split_and!; try done. constructor; [|done].
  split; rewrite E; [done|]. split; [done|]. intros j b Hj. by apply not_elem_of_nil in Hj.
Qed.

(** Queueing [i] at the end of a plug. *)
Lemma queue_bio w plug i b :
  holder_ok (w_bios w) (HPlug plug) → w_bios w !! i = Some b → bi_next b = None → bio_ok b →
  i ∉ bios_of (w_bios w) (HPlug plug) →
  let ids := bios_of (w_bios w) (HPlug plug) ++ [i] in
  ∃ plug1 w1,
    (if bio_tail plug is Some _
     then set_bi_next (bio_tail plug) (Some i);; mret (mk_plug (plug_disk plug) (bio_head plug) (Some i))
     else mret (mk_plug (plug_disk plug) (Some i) (Some i))) w = Ok (plug1, w1)
    ∧ plug_disk plug1 = plug_disk plug ∧ w_events w1 = w_events w ∧ w_bios w1 !! i = Some b
    ∧ holder_ok (w_bios w1) (HPlug plug1) ∧ bios_of (w_bios w1) (HPlug plug1) = ids
    ∧ ∀ j, j ∉ ids → w_bios w1 !! j = w_bios w !! j.
Proof.
  intros [Hc [Ht Hok]] Hb Hn Hbok Hni. cbv zeta.
  set (old := bios_of (w_bios w) (HPlug plug)) in *. clearbody old.
  destruct (decide (old = [])) as [->|Hne].
  - simpl in Ht. rewrite Ht. eexists _, w. split; [done|].
    assert (bchain (w_bios w) (Some i) [i]) as Hc1 by (split; [done|]; by exists b).
    pose proof (bios_of_chain (w_bios w) (HPlug (mk_plug (plug_disk plug) (Some i) (Some i))) [i] Hc1) as Ei.
    split_and!; try done. split; rewrite Ei; [done|]. split; [done|].
    intros j b' ->%list_elem_of_singleton. by intros [= <-]%(eq_trans (eq_sym Hb)).
  - destruct (exists_last Hne) as (us & l & ->). rewrite last_snoc in Ht. rewrite Ht.
    destruct (bchain_live _ _ _ l Hc) as [bl Hl]; [set_solver|].
    erewrite stateful_bind_ok; [|unfold set_bi_next; erewrite stateful_bind_ok; [|unfold load; by rewrite Hl]; done].
    eexists _, _. split; [done|]. cbn [w_bios w_events with_bios].
    pose proof (bchain_snoc _ _ _ _ _ _ _ Hc Hl Hb Hn Hni) as Hc1.
    pose proof (bios_of_chain _ (HPlug (mk_plug (plug_disk plug) (bio_head plug) (Some i))) _ Hc1) as Ei.
    split_and!; try done.
    + rewrite lookup_insert_ne by set_solver. done.
    + split; rewrite Ei; [done|]. split; [by rewrite last_snoc|]. intros j b' Hj Hb'.
      destruct (decide (j = l)) as [->|Hjl].
      * rewrite lookup_insert_eq in Hb'. injection Hb' as <-. apply bio_ok_next. apply (Hok l); [set_solver|done].
      * rewrite lookup_insert_ne in Hb' by done. apply elem_of_app in Hj as [Hj| ->%list_elem_of_singleton].
        -- by apply (Hok j).
        -- by rewrite Hb in Hb'; injection Hb' as <-.
    + intros j Hj. rewrite lookup_insert_ne; [done|]. set_solver.
Qed.

(** A call that changed the heap silently, then one that disposed of the bios. *)
Lemma moves_after w w1 w' ids kept :
  w_events w1 = w_events w → (∀ j, j ∉ ids → w_bios w1 !! j = w_bios w !! j) →
  moves w1 w' ids kept → moves w w' ids kept.
Proof.
  intros Ee Hf (evs & Ev & O & P & D & F). exists evs. rewrite <- Ee. split_and!; try done.
  intros j Hj. by rewrite F, Hf.
Qed.

Lemma plugged_moves w dv q plugs k plug i b :
  leads dv q → plugs !! k = Some plug → holder_ok (w_bios w) (HPlug plug) → w_bios w !! i = Some b →
  bi_next b = None → bio_ok b → i ∉ bios_of (w_bios w) (HPlug plug) →
  ∃ plug' w', submit_plugged dv q plugs k (Some i) w = Ok (<[k := plug']> plugs, w') ∧ plug_disk plug' = plug_disk plug
    ∧ moves w w' (bios_of (w_bios w) (HPlug plug) ++ [i]) [HPlug plug'].
Proof.
  intros Hq Hk Hh Hb Hn Hok Hni.
  destruct (queue_bio w plug i b Hh Hb Hn Hok Hni) as (plug1 & w1 & E & Ed & Ee & Hb1 & Hh1 & Ei & Hf).
  unfold submit_plugged. rewrite Hk. erewrite stateful_bind_ok; [|done].
  set (ids := bios_of (w_bios w) (HPlug plug) ++ [i]) in *.
  unfold kfio_add_bio_to_plugged_list at 1.
  destruct (kfio_bio_should_submit_now b && (use_workqueue =? USE_QUEUE_NONE)) eqn:Enow.
  - destruct Hh1 as [Hc1 [_ Hok1]]. rewrite Ei in Hc1, Hok1.
    destruct (kickoff_moves w1 dv q (bio_head plug1) ids) as (w' & E' & Hm); [done|done|by destruct (bios_of _ _)|done|].
    exists (mk_plug (plug_disk plug1) None None), w'. split.
    + erewrite stateful_bind_ok.
      2:{ erewrite stateful_bind_ok; [|exact E]. erewrite stateful_bind_ok; [|unfold load; by rewrite Hb1].
          cbv beta iota. rewrite Enow. done. }
      cbv beta iota. assert (∃ x, bio_head plug1 = Some x) as [x Ex].
      { destruct ids as [|x ids'] eqn:Eids; [subst ids; by destruct (bios_of _ _)|].
        destruct Hc1 as [Ex _]. by exists x. }
      rewrite Ex in *. by erewrite stateful_bind_ok; [|exact E'].
    + split; [done|]. apply moves_keep_empty. by eapply moves_after.
  - exists plug1, w1. split.
    + erewrite stateful_bind_ok.
      2:{ erewrite stateful_bind_ok; [|exact E]. erewrite stateful_bind_ok; [|unfold load; by rewrite Hb1].
          cbv beta iota. rewrite Enow. done. }
      done.
    + split; [done|]. apply (moves_after w w1); try done. exists []. rewrite app_nil_r. simpl. rewrite held_cons, Ei.
      split_and!; try done.
      * by constructor.
      * by rewrite !app_nil_r.
      * intros j Hj. by apply not_elem_of_nil in Hj.
Qed.

Abbreviation plugs_of cb_list := (HPlug <$> default [] cb_list).

Lemma insert_perm {A} (l : list A) k x y : l !! k = Some x → <[k := y]> l ≡ₚ y :: delete k l.
Proof.
  intros Hk. rewrite (delete_Permutation (<[k := y]> l) k y).
  - apply Permutation_cons; [done|]. clear. revert k. induction l as [|z l IH]; intros [|k]; try done.
    apply (Permutation_cons eq_refl (IH k)).
  - apply list_lookup_insert_eq. by eapply lookup_lt_Some.
Qed.

(** A submission: some plug of the thread is replaced, or none; the bio [i] and
    the bios of that plug were disposed of. *)
Lemma submit_moves w dv q d stalled waited fuel r kmalloc_ok cb_list i b :
  leads dv q → load_queuedata dv q = Ok (Some d) → (∃ fields, load_disk dv (Some d) = Ok fields) →
  holdoff_writes_under_pressure stalled waited fuel = Ok r →
  Forall (holder_ok (w_bios w)) (plugs_of cb_list) → i ∉ held (w_bios w) (plugs_of cb_list) →
  w_bios w !! i = Some b → bi_next b = None → bio_ok b →
  ∃ cb_list' w' olds kept rest,
    kfio_submit_bio dv q stalled waited fuel kmalloc_ok cb_list (Some i) w = Ok (cb_list', w')
    ∧ plugs_of cb_list ≡ₚ olds ++ rest ∧ plugs_of cb_list' ≡ₚ kept ++ rest
    ∧ moves w w' (held (w_bios w) olds ++ [i]) kept
    ∧ ∀ plug, HPlug plug ∈ kept → plug_disk plug = Some d.
Proof.
  intros Hq Hqd [fields Hd] Hold Hh Hni Hb Hn Hok. unfold kfio_submit_bio. rewrite Hqd.
  erewrite stateful_bind_ok; [|done]. cbv beta.
  erewrite stateful_bind_ok; [|unfold load; by rewrite Hb]. cbv beta iota.
  assert (∃ ok, (if bio_is_write b then lift (submit_holdoff dv (Some d) stalled waited fuel) else mret true) w
                = Ok (ok, w)) as [ok Eok].
  { destruct (bio_is_write b); [|by exists true]. unfold submit_holdoff. rewrite Hd, Hold. destruct r as [[ok ?] ?].
    by exists ok. }
  erewrite stateful_bind_ok; [|exact Eok]. cbv beta. clear Eok.
  assert (∀ plug, HPlug plug ∈ ([] : list holder) → plug_disk plug = Some d) as Hno
    by (intros plug Hin; by apply not_elem_of_nil in Hin).
  destruct ok; cbn [negb].
  2:{ erewrite stateful_bind_ok; [|by apply complete_run]. eexists cb_list, _, [], [], (plugs_of cb_list). split; [done|].
    split; [done|]. split; [done|]. split; [by eapply end_moves|done]. }
  destruct (split_or_end w i b Hb) as [E|[status E]]; (erewrite stateful_bind_ok; [|exact E]); cbv beta iota.
  2:{ eexists cb_list, _, [], [], (plugs_of cb_list). split; [done|]. split; [done|]. split; [done|].
      split; [by eapply end_moves|done]. }
  erewrite stateful_bind_ok; [|unfold load; by rewrite Hb]. cbv beta iota. rewrite Hn. cbn [andb].
  assert (∃ cb_list' w' olds kept rest,
            (submit_unplugged dv q (Some i);; mret cb_list) w = Ok (cb_list', w')
            ∧ plugs_of cb_list ≡ₚ olds ++ rest ∧ plugs_of cb_list' ≡ₚ kept ++ rest
            ∧ moves w w' (held (w_bios w) olds ++ [i]) kept
            ∧ ∀ plug, HPlug plug ∈ kept → plug_disk plug = Some d) as Hun.
  { destruct (submit_unplugged_moves w dv q i b Hq Hb Hn Hok) as (w' & E' & Hm).
    erewrite stateful_bind_ok; [|exact E']. eexists cb_list, w', [], [], (plugs_of cb_list). by split_and!. }
  destruct (kfio_should_plug cb_list (Some d) kmalloc_ok) as [[plugs k]|] eqn:Ep; [|exact Hun]. clear Hun E.
  unfold kfio_should_plug in Ep. destruct (negb _); [done|]. destruct (_ =? 1); [done|].
  destruct cb_list as [plugs0|]; [|done]. simpl in *.
  destruct (list_find _ plugs0) as [[k0 plug]|] eqn:Ef.
  - injection Ep as -> ->. apply list_find_Some in Ef as (Hk & Hpd & _).
    pose proof (delete_Permutation _ _ _ Hk) as Hperm.
    destruct (plugged_moves w dv q plugs k plug i b Hq Hk) as (plug' & w' & E & Ed & Hm); try done.
    + rewrite list.Forall_forall in Hh. apply Hh. apply list_elem_of_fmap_2. by eapply list_elem_of_lookup_2.
    + intros Hin. apply Hni. rewrite (held_perm _ _ _ (fmap_Permutation HPlug _ _ Hperm)).
      simpl. rewrite held_cons. set_solver.
    + exists (Some (<[k := plug']> plugs)), w', [HPlug plug], [HPlug plug'], (HPlug <$> delete k plugs).
      split; [by erewrite stateful_bind_ok; [|exact E]|]. split; [by rewrite Hperm at 1|].
      split; [by rewrite (fmap_Permutation HPlug _ _ (insert_perm _ _ _ plug' Hk))|].
      rewrite held_cons. unfold held at 1. simpl. rewrite app_nil_r. split; [done|].
      intros p [= ->]%list_elem_of_singleton. by rewrite Ed.
  - destruct kmalloc_ok; [|done]. injection Ep as <- <-.
    set (fresh := mk_plug (Some d) None None).
    assert (bios_of (w_bios w) (HPlug fresh) = []) as Efr by by apply bios_of_chain.
    destruct (plugged_moves w dv q (plugs0 ++ [fresh]) (length plugs0) fresh i b Hq) as (plug' & w' & E & Ed & Hm); try done.
    + by rewrite lookup_app_r, Nat.sub_diag by lia.
    + split; rewrite Efr; [done|]. split; [done|]. intros j b' Hj. by apply not_elem_of_nil in Hj.
    + rewrite Efr. apply not_elem_of_nil.
    + exists (Some (<[length plugs0 := plug']> (plugs0 ++ [fresh]))), w', [], [HPlug plug'], (HPlug <$> plugs0).
      split; [by erewrite stateful_bind_ok; [|exact E]|]. split; [done|].
      rewrite Efr in Hm. split; [|split; [exact Hm|]]. 2:{ intros p [= ->]%list_elem_of_singleton. by rewrite Ed. } simpl.
      rewrite <- (Nat.add_0_r (length plugs0)), insert_app_r, fmap_app. simpl. by rewrite Permutation_app_comm.
Qed.

(** The queue of a plug, if it has bios, leads to a block device. *)
Definition plug_ready (dv : devices) (plug : kfio_plug) : Prop :=
  bio_head plug = None ∨ ∃ fields, load_disk dv (plug_disk plug) = Ok fields ∧ leads dv (fd_rq fields).

Lemma unplug_moves w dv plug :
  plug_ready dv plug → holder_ok (w_bios w) (HPlug plug) →
  ∃ w', kfio_unplug_do_cb dv plug w = Ok (tt, w') ∧ moves w w' (bios_of (w_bios w) (HPlug plug)) [].
Proof.
  intros Hr [Hc [_ Hok]]. unfold kfio_unplug_do_cb. set (ids := bios_of _ _) in *. clearbody ids.
  destruct ids as [|i ids].
  - simpl in Hc. rewrite Hc. exists w. split; [done|]. apply moves_none.
  - pose proof Hc as [E _]. simpl in E. destruct Hr as [Hr|(fields & Hf & Hl)]; [by rewrite Hr in E|].
    rewrite E, Hf. erewrite stateful_bind_ok; [|done]. cbv beta. rewrite <- E. by apply kickoff_moves.
Qed.

Lemma unplug_all_moves dv plugs (from_schedule : bool) w :
  (if from_schedule then True else Forall (plug_ready dv) plugs) →
  Forall (holder_ok (w_bios w)) (HPlug <$> plugs) → NoDup (held (w_bios w) (HPlug <$> plugs)) →
  ∃ works w', unplug_all dv plugs from_schedule w = Ok (works, w')
    ∧ (if from_schedule : bool then works = plugs ∧ w' = w
       else works = [] ∧ moves w w' (held (w_bios w) (HPlug <$> plugs)) []).
Proof.
  revert w. induction plugs as [|plug plugs IH]; intros w Hr Hh Hd; cbn [unplug_all fmap list_fmap] in *.
  { exists [], w. split; [done|]. destruct from_schedule; [done|]. split; [done|]. apply moves_none. }
  rewrite held_cons in *. apply list.Forall_cons in Hh as [Hp Hh]. apply list.NoDup_app in Hd as (Hd1 & Hd2 & Hd3).
  destruct from_schedule; simpl.
  - erewrite stateful_bind_ok; [|done]. destruct (IH w Hr Hh Hd3) as (works & w' & E & -> & ->).
    erewrite stateful_bind_ok; [|exact E]. by exists (plug :: plugs), w.
  - apply list.Forall_cons in Hr as [Hr1 Hr]. destruct (unplug_moves w dv plug Hr1 Hp) as (w1 & E1 & M1).
    erewrite stateful_bind_ok; [|erewrite stateful_bind_ok; [|exact E1]; done].
    assert (∀ j, j ∈ held (w_bios w) (HPlug <$> plugs) → w_bios w1 !! j = w_bios w !! j) as Hs.
    { intros j Hj. destruct M1 as (evs & _ & _ & _ & _ & F). apply F. intros Hin. by apply (Hd2 j Hin). }
    destruct (held_frame _ _ _ Hs Hh) as [Hh1 Eh].
    destruct (IH w1 Hr Hh1) as (works & w' & E & -> & M2); [by rewrite Eh|].
    erewrite stateful_bind_ok; [|exact E]. exists [], w'. split; [done|]. split; [done|].
    rewrite Eh in M2. eapply moves_trans; try done.
Qed.

Lemma complete_moves w f error :
  holder_ok (w_bios w) (HOut f) →
  ∃ w', run_completor f error w = Ok (tt, w') ∧ moves w w' (bios_of (w_bios w) (HOut f)) [].
Proof.
  intros [Hc [Hne Hcb]]. unfold run_completor. rewrite Hcb. unfold kfio_bio_completor.
  destruct (chain_moves w (fbio_parameter f) error _ Hc Hne) as (n & w' & E & M).
  exists w'. split; [by erewrite stateful_bind_ok; [|exact E]|done].
Qed.

(** ** Every step keeps track of the bios *)

Definition sound_bios (c : config) : Prop :=
  sound (w_bios (c_world c)) (holders c) (c_handed c) (w_events (c_world c)).

(** The holders outside the plug of thread [t]. *)
Definition others (c : config) (t : nat) : list holder :=
  (HPlug <$> concat (default [] <$> delete t (c_plugs c))) ++ (HPlug <$> c_works c) ++ (HOut <$> c_out c).

Lemma plugs_split (plugs : list (option (list kfio_plug))) t cb_list :
  plugs !! t = Some cb_list →
  concat (default [] <$> plugs) ≡ₚ default [] cb_list ++ concat (default [] <$> delete t plugs).
Proof.
  revert t. induction plugs as [|pl plugs IH]; intros [|t] Ht; simplify_eq/=; [done|].
  rewrite (IH t Ht), !(assoc_L (++)). f_equiv. apply Permutation_app_comm.
Qed.

Lemma holders_split c t cb_list :
  c_plugs c !! t = Some cb_list → holders c ≡ₚ plugs_of cb_list ++ others c t.
Proof. intros Ht. unfold holders, others. by rewrite (plugs_split _ _ _ Ht), fmap_app, <- (assoc_L (++)). Qed.

Lemma delete_insert_same {A} (l : list A) k x : delete k (<[k := x]> l) = delete k l.
Proof. revert k. induction l as [|y l IH]; intros [|k]; try done. exact (f_equal (cons y) (IH k)). Qed.

Lemma holders_update c w t cb_list cb_list' works out handed :
  c_plugs c !! t = Some cb_list →
  holders (mk_config w (c_disks c) (<[t := cb_list']> (c_plugs c)) (c_works c ++ works) (c_out c ++ out) handed)
  ≡ₚ (plugs_of cb_list' ++ (HPlug <$> works) ++ (HOut <$> out)) ++ others c t.
Proof.
  intros Ht. assert (<[t := cb_list']> (c_plugs c) !! t = Some cb_list') as Ht'.
  { apply list_lookup_insert_eq. by eapply lookup_lt_Some. }
  rewrite (holders_split (mk_config w (c_disks c) (<[t := cb_list']> (c_plugs c)) (c_works c ++ works) (c_out c ++ out)
             handed) t cb_list' Ht').
  unfold others. simpl. rewrite !fmap_app, delete_insert_same.
  set (P := HPlug <$> default [] cb_list'). set (R := HPlug <$> concat _). set (W := HPlug <$> c_works c).
  set (O := HOut <$> c_out c). set (W' := HPlug <$> works). set (O' := HOut <$> out). clearbody P R W O W' O'.
  rewrite <- !(assoc_L (++)). f_equiv. rewrite (Permutation_app_comm W' (O' ++ R ++ W ++ O)).
  rewrite <- !(assoc_L (++)), (Permutation_app_comm O' (R ++ W ++ O ++ W')). rewrite <- !(assoc_L (++)).
  do 2 f_equiv. rewrite !(assoc_L (++)). f_equiv. apply Permutation_app_comm.
Qed.

Lemma sound_init n : sound_bios (init_config n).
Proof.
  assert (holders (init_config n) = []) as Eh.
  { unfold holders, init_config. simpl. by induction n. }
  unfold sound_bios. rewrite Eh. simpl. split; [done| |done]. by rewrite dom_empty_L, elements_empty.
Qed.

(** A step without a call of the driver. *)
Lemma sound_silent c cb_list cb_list' t :
  c_plugs c !! t = Some cb_list → default [] cb_list = [] → default [] cb_list' = [] → sound_bios c →
  sound_bios (mk_config (c_world c) (c_disks c) (<[t := cb_list']> (c_plugs c)) (c_works c) (c_out c) (c_handed c)).
Proof.
  intros Ht E E'. apply sound_perm. rewrite (holders_split c t cb_list Ht), E.
  pose proof (holders_update c (c_world c) t cb_list cb_list' [] [] (c_handed c) Ht) as Hu.
  rewrite !app_nil_r in Hu. rewrite Hu, E'. done.
Qed.

(** What [transfer] gives for a step: the holders [olds] disposed of. *)
Lemma sound_moves c w w' olds rest F kept c' :
  sound_bios c → holders c ≡ₚ olds ++ rest →
  w_events w = w_events (c_world c) → (∀ j, j ∉ F → w_bios w !! j = w_bios (c_world c) !! j) →
  moves w w' (held (w_bios (c_world c)) olds ++ F) kept →
  (∀ j, j ∈ F → w_bios (c_world c) !! j = None) → NoDup F →
  c_world c' = w' → c_handed c' = c_handed c ++ F →
  holders c' ≡ₚ (kept ++ (HOut <$> newly w w')) ++ rest → sound_bios c'.
Proof.
  intros Hs Hh Ee Hw Hm HF Hd Ew Ehd Hh'. unfold sound_bios. rewrite Ew, Ehd.
  eapply sound_perm; [symmetry; exact Hh'|]. eapply transfer; try done. rewrite Ee. by eapply sound_perm.
Qed.

Lemma sound_parts c olds rest :
  sound_bios c → holders c ≡ₚ olds ++ rest →
  Forall (holder_ok (w_bios (c_world c))) olds ∧ NoDup (held (w_bios (c_world c)) olds)
  ∧ ∀ j, j ∈ held (w_bios (c_world c)) olds → is_Some (w_bios (c_world c) !! j).
Proof.
  intros Hs Hh. apply (sound_perm _ _ _ _ _ Hh) in Hs as [A1 A2 _]. rewrite held_app in A2.
  apply Forall_app in A1 as [A1 _]. split_and!; [done| |by intros j; apply held_live].
  assert (NoDup (held (w_bios (c_world c)) olds ++ held (w_bios (c_world c)) rest)) as Hd
    by (rewrite A2; apply NoDup_elements).
  by apply list.NoDup_app in Hd as (? & _ & _).
Qed.

Lemma submit_sound c t dv q d stalled waited fuel r kmalloc_ok i b cb_list :
  leads dv q → load_queuedata dv q = Ok (Some d) → (∃ fields, load_disk dv (Some d) = Ok fields) →
  holdoff_writes_under_pressure stalled waited fuel = Ok r → sound_bios c → c_plugs c !! t = Some cb_list → w_bios (c_world c) !! i = None → bi_next b = None → bio_ok b →
  let w := with_bios (<[i := b]> (w_bios (c_world c))) (c_world c) in
  ∃ cb_list' w', kfio_submit_bio dv q stalled waited fuel kmalloc_ok cb_list (Some i) w = Ok (cb_list', w')
    ∧ (∀ plug, plug ∈ default [] cb_list' → plug ∈ default [] cb_list ∨ plug_disk plug = Some d)
    ∧ sound_bios (mk_config w' (c_disks c) (<[t := cb_list']> (c_plugs c)) (c_works c) (c_out c ++ newly w w')
                      (c_handed c ++ [i])).
Proof.
  intros Hq Hqd Hd Hold Hs Ht Hi Hn Hok w. pose proof (holders_split c t cb_list Ht) as Hh.
  destruct (sound_parts c _ _ Hs Hh) as (Hok1 & Hd1 & Hl1).
  assert (∀ j, j ≠ i → w_bios w !! j = w_bios (c_world c) !! j) as Hw by (intros j Hj; by apply lookup_insert_ne).
  assert (i ∉ held (w_bios (c_world c)) (plugs_of cb_list)) as Hni.
  { intros Hin. destruct (Hl1 i Hin) as [? Hx]. by rewrite Hi in Hx. }
  destruct (held_frame (w_bios (c_world c)) (w_bios w) (plugs_of cb_list)) as [Hok2 Eh];
    [intros j Hj; apply Hw; by intros ->|done|].
  destruct (submit_moves w dv q d stalled waited fuel r kmalloc_ok cb_list i b Hq Hqd Hd Hold Hok2) as
    (cb' & w' & olds & kept & rest & E & P1 & P2 & M & Hkept); try done; [by rewrite Eh|apply lookup_insert_eq|].
  exists cb', w'. split; [done|]. split.
  { intros plug Hin. assert (HPlug plug ∈ kept ++ rest) as [Hk|Hk]%elem_of_app by (rewrite <- P2; by apply list_elem_of_fmap_2).
    - right. by apply Hkept.
    - left. assert (HPlug plug ∈ plugs_of cb_list) as (p & [= ->] & Hp)%list_elem_of_fmap by (rewrite P1; set_solver). done. }
  assert (held (w_bios w) olds = held (w_bios (c_world c)) olds) as Eo.
  { rewrite P1 in Hok1, Hni. rewrite held_app in Hni. apply Forall_app in Hok1 as [Hok1 _].
    apply held_frame; [|done]. intros j Hj. apply Hw. intros ->. set_solver. }
  rewrite Eo in M. eapply (sound_moves c w w' olds (rest ++ others c t)); try done.
  - by rewrite Hh, P1, <- (assoc_L (++)).
  - intros j Hj. apply Hw. set_solver.
  - intros j ->%list_elem_of_singleton. done.
  - apply NoDup_singleton.
  - pose proof (holders_update c w' t cb_list cb' [] (newly w w') (c_handed c ++ [i]) Ht) as Hu.
    rewrite app_nil_r in Hu. rewrite Hu. simpl. rewrite P2. rewrite <- !(assoc_L (++)). f_equiv.
    rewrite !(assoc_L (++)). f_equiv. apply Permutation_app_comm.
Qed.

Lemma flush_sound c t dv plugs (from_schedule : bool) :
  (if from_schedule then True else Forall (plug_ready dv) plugs) → sound_bios c → c_plugs c !! t = Some (Some plugs) →
  ∃ works w', unplug_all dv plugs from_schedule (c_world c) = Ok (works, w')
    ∧ (∀ plug, plug ∈ works → plug ∈ plugs)
    ∧ sound_bios (mk_config w' (c_disks c) (<[t := Some []]> (c_plugs c)) (c_works c ++ works)
                      (c_out c ++ newly (c_world c) w') (c_handed c)).
Proof.
  intros Hready Hs Ht. pose proof (holders_split c t _ Ht) as Hh.
  destruct (sound_parts c _ _ Hs Hh) as (Hok1 & Hd1 & _). simpl in *.
  destruct (unplug_all_moves dv plugs from_schedule (c_world c) Hready Hok1 Hd1) as (works & w' & E & Hr).
  exists works, w'. split; [done|]. split.
  { destruct from_schedule; destruct Hr as [-> _]; [done|]. intros plug Hin. by apply not_elem_of_nil in Hin. }
  pose proof (holders_update c w' t _ (Some []) works (newly (c_world c) w') (c_handed c) Ht) as Hu.
  destruct from_schedule.
  - destruct Hr as [-> ->]. assert (newly (c_world c) (c_world c) = []) as En.
    { unfold newly. by rewrite drop_all. }
    rewrite En in *. revert Hs. unfold sound_bios. simpl. apply sound_perm.
    rewrite Hu, Hh. simpl. by rewrite app_nil_r.
  - destruct Hr as [-> M].
    eapply (sound_moves c (c_world c) w' (HPlug <$> plugs) (others c t) []); try done.
    + by rewrite app_nil_r.
    + intros j Hj. by apply not_elem_of_nil in Hj.
    + constructor.
    + simpl. by rewrite app_nil_r.
Qed.

Lemma work_sound c k dv plug :
  plug_ready dv plug → sound_bios c → c_works c !! k = Some plug →
  ∃ w', kfio_unplug_do_cb dv plug (c_world c) = Ok (tt, w')
    ∧ sound_bios (mk_config w' (c_disks c) (c_plugs c) (delete k (c_works c)) (c_out c ++ newly (c_world c) w') (c_handed c)).
Proof.
  intros Hr Hs Hk. set (R := (HPlug <$> concat (default [] <$> c_plugs c)) ++ (HPlug <$> delete k (c_works c))
                           ++ (HOut <$> c_out c)).
  assert (holders c ≡ₚ [HPlug plug] ++ R) as Hh.
  { unfold holders, R. rewrite (fmap_Permutation HPlug _ _ (delete_Permutation _ _ _ Hk)). simpl.
    by rewrite <- Permutation_middle. }
  destruct (sound_parts c _ _ Hs Hh) as (Hok1 & _ & _). apply list.Forall_cons in Hok1 as [Hok1 _].
  destruct (unplug_moves (c_world c) dv plug Hr Hok1) as (w' & E & M). exists w'. split; [done|].
  eapply (sound_moves c (c_world c) w' [HPlug plug] R [] []); try done.
  - unfold held. simpl. by rewrite !app_nil_r.
  - intros j Hj. by apply not_elem_of_nil in Hj.
  - constructor.
  - simpl. by rewrite app_nil_r.
  - unfold holders, R. simpl. rewrite fmap_app, !(assoc_L (++)). by rewrite Permutation_app_comm, !(assoc_L (++)).
Qed.

Lemma complete_sound c k f error :
  sound_bios c → c_out c !! k = Some f →
  ∃ w', run_completor f error (c_world c) = Ok (tt, w')
    ∧ sound_bios (mk_config w' (c_disks c) (c_plugs c) (c_works c) (delete k (c_out c) ++ newly (c_world c) w') (c_handed c)).
Proof.
  intros Hs Hk. set (R := (HPlug <$> concat (default [] <$> c_plugs c)) ++ (HPlug <$> c_works c)
                           ++ (HOut <$> delete k (c_out c))).
  assert (holders c ≡ₚ [HOut f] ++ R) as Hh.
  { unfold holders, R. rewrite (fmap_Permutation HOut _ _ (delete_Permutation _ _ _ Hk)). simpl.
    by rewrite !(assoc_L (++)), <- Permutation_middle, <- !(assoc_L (++)). }
  destruct (sound_parts c _ _ Hs Hh) as (Hok1 & _ & _). apply list.Forall_cons in Hok1 as [Hok1 _].
  destruct (complete_moves (c_world c) f error Hok1) as (w' & E & M). exists w'. split; [done|].
  eapply (sound_moves c (c_world c) w' [HOut f] R [] []); try done.
  - unfold held. simpl. by rewrite !app_nil_r.
  - intros j Hj. by apply not_elem_of_nil in Hj.
  - constructor.
  - simpl. by rewrite app_nil_r.
  - unfold holders, R. simpl. rewrite fmap_app, !(assoc_L (++)). by rewrite Permutation_app_comm, !(assoc_L (++)).
Qed.

(** ** Every step keeps the disks in order *)

Record sound_config (c : config) : Prop := {
  sc_bios : sound_bios c;
  sc_disks : Forall cell_ok (c_disks c)
}.

Abbreviation devs c := (devices_of (c_disks c)).

Lemma queue_bdev_block cells q bdev :
  Forall cell_ok cells → queue_bdev (devices_of cells) q = Ok bdev → 0 < bdev_block_size bdev.
Proof.
  rewrite list.Forall_forall. intros Hok. unfold queue_bdev. destruct (load_queuedata _ q) as [p|]; [|done]. simpl.
  destruct p as [d|]; [|done]. simpl. destruct (cells !! d) as [cell|] eqn:L; [|done]. simpl.
  pose proof (Hok _ (list_elem_of_lookup_2 _ _ _ L)) as Hc. unfold cell_ok in Hc.
  destruct (cl_gd cell) as [k|]; [|done]. simpl. intros [= <-]. by apply Hc.
Qed.

(** A chain sent to a queue that leads nowhere. *)
Lemma kickoff_strays dv q p w :
  (∀ bdev, queue_bdev dv q ≠ Ok bdev) → ∃ e, kfio_kickoff_plugged_io dv q p w = Fault e.
Proof.
  intros Hq. unfold kfio_kickoff_plugged_io. cbn [kickoff_loop]. cbv [mbind stateful_bind].
  destruct (load p w) as [[[i b] w1]|]; [|by eexists]. destruct (set_bi_next p None w1) as [[[] w2]|]; [|by eexists].
  unfold kickoff_body, kickoff_fresh, kfio_map_to_fbio. cbv [mbind stateful_bind lift].
  destruct (queue_bdev dv q) as [bdev|] eqn:E; [by destruct (Hq bdev)|by eexists].
Qed.

Lemma ready_or_fault cells plug w :
  Forall cell_ok cells →
  plug_ready (devices_of cells) plug ∨ ∃ e, kfio_unplug_do_cb (devices_of cells) plug w = Fault e.
Proof.
  intros Hok. unfold plug_ready, kfio_unplug_do_cb. destruct (bio_head plug) as [i|] eqn:B; [|by left; left].
  destruct (load_disk _ (plug_disk plug)) as [fields|e] eqn:L; [|right; by exists e].
  destruct (queue_bdev (devices_of cells) (fd_rq fields)) as [bdev|e] eqn:E.
  - left. right. exists fields. split; [done|]. exists bdev. split; [done|]. by eapply queue_bdev_block.
  - right. erewrite stateful_bind_ok; [|done]. cbv beta. apply kickoff_strays. intros bdev. by rewrite E.
Qed.

Lemma unplug_all_ready cells plugs w x :
  Forall cell_ok cells → unplug_all (devices_of cells) plugs false w = Ok x →
  Forall (plug_ready (devices_of cells)) plugs.
Proof.
  intros Hok. revert w x. induction plugs as [|plug plugs IH]; intros w x E; [done|]. cbn [unplug_all kfio_unplug_cb] in E.
  destruct (ready_or_fault cells plug w Hok) as [Hr|[e F]].
  - constructor; [done|]. revert E. cbv [mbind stateful_bind mret stateful_ret].
    destruct (kfio_unplug_do_cb _ plug w) as [[[] w1]|]; [|done].
    destruct (unplug_all _ plugs false w1) as [y|] eqn:E1; [|done]. intros _. by eapply IH.
  - revert E. cbv [mbind stateful_bind]. by rewrite F.
Qed.

(** A plug with bios is one of an exposed disk. *)
Definition plug_exposed (cells : list cell) (plug : kfio_plug) : Prop :=
  bio_head plug = None ∨ ∃ d cell, plug_disk plug = Some d ∧ cells !! d = Some cell ∧ cell_exposed cell = true.
Definition plugs_exposed (c : config) : Prop := ∀ plug, plug ∈ all_plugs c → plug_exposed (c_disks c) plug.

Lemma exposed_leads cells d cell :
  Forall cell_ok cells → cells !! d = Some cell → cell_exposed cell = true →
  ∃ fields, load_disk (devices_of cells) (Some d) = Ok fields ∧ leads (devices_of cells) (fd_rq fields)
    ∧ load_queuedata (devices_of cells) (fd_rq fields) = Ok (Some d)
    ∧ ∀ q, accepts cells d = Some q → q = fd_rq fields.
Proof.
  intros Hok L E. destruct (exposed_pointers cells d cell Hok L E) as (i & Ld & Lq & Qb & B & Ac).
  eexists. split; [exact Ld|]. split; [by eexists|]. by split.
Qed.

Lemma exposed_ready cells plug :
  Forall cell_ok cells → plug_exposed cells plug → plug_ready (devices_of cells) plug.
Proof.
  intros Hok [Hb|(d & cell & Hd & L & E)]; [by left|]. right. rewrite Hd.
  destruct (exposed_leads cells d cell Hok L E) as (fields & ? & ? & _). by exists fields.
Qed.

Lemma plug_exposed_mono cells cells' plug :
  (∀ d cell, cells !! d = Some cell → cell_exposed cell = true → plug_disk plug = Some d →
     bio_head plug = None ∨ ∃ cell', cells' !! d = Some cell' ∧ cell_exposed cell' = true) →
  plug_exposed cells plug → plug_exposed cells' plug.
Proof.
  intros Hm [Hb|(d & cell & Hd & L & E)]; [by left|].
  destruct (Hm d cell L E Hd) as [Hb|(cell' & L' & E')]; [by left|]. right. by exists d, cell'.
Qed.

(** The step made by a call at a disk. *)
Definition with_cell (c : config) (d : nat) (cell : cell) : config :=
  mk_config (c_world c) (<[d := cell]> (c_disks c)) (c_plugs c) (c_works c) (c_out c) (c_handed c).

Lemma disk_call_run {A} c d cell (m : D A) a s :
  c_disks c !! d = Some cell → m (cell_state cell (c_world c)) = Ok (a, s) → dworld s = c_world c →
  disk_call c d m = Ok (with_cell c d (cell_of (cl_bdev cell) s)).
Proof. intros L E W. unfold disk_call, at_disk. rewrite L. simpl. rewrite E. simpl. by rewrite W. Qed.

Lemma with_cell_sound c d cell cell' a :
  c_disks c !! d = Some cell → cell_ok cell' → sound_config c →
  (cell_exposed cell = true → cell_exposed cell' = true ∨ a = Some d) →
  sound_config (with_cell c d cell')
  ∧ (plugs_exposed c → (∀ d, a = Some d → unplugged c d) → plugs_exposed (with_cell c d cell')).
Proof.
  intros L Hok [Hb Hd] Hx. split.
  - split; [exact Hb|]. by apply Forall_insert.
  - intros Hp Hu plug Hin. specialize (Hp plug Hin). revert Hp. apply plug_exposed_mono. intros d' x L' E Hpd. simpl.
    destruct (decide (d' = d)) as [->|N].
    + rewrite L in L'. injection L' as <-. destruct (Hx E) as [E'|Ea].
      * right. exists cell'. split; [|done]. apply list_lookup_insert_eq. by eapply lookup_lt_Some.
      * left. by apply (Hu d Ea).
    + right. exists x. by rewrite list_lookup_insert_ne.
Qed.

Lemma cell_at c d cell : sound_config c → c_disks c !! d = Some cell → cell_ok cell.
Proof. intros [_ Hd] L. rewrite list.Forall_forall in Hd. apply Hd. by eapply list_elem_of_lookup_2. Qed.

(** The plugs after a step that replaces those of thread [t]. *)
Lemma all_plugs_update c w cells t cb cb' (works works' : list kfio_plug) out handed (plug : kfio_plug) :
  c_plugs c !! t = Some cb → (∀ p, p ∈ works' → p ∈ works ∨ p ∈ c_works c) →
  plug ∈ all_plugs (mk_config w cells (<[t := cb']> (c_plugs c)) works' out handed) →
  plug ∈ default [] cb' ∨ plug ∈ works ∨ plug ∈ all_plugs c.
Proof.
  intros Ht Hw. unfold all_plugs. simpl. rewrite !elem_of_app. intros [Hin|Hin]; [|by destruct (Hw _ Hin); auto].
  assert (<[t := cb']> (c_plugs c) !! t = Some cb') as Ht' by (apply list_lookup_insert_eq; by eapply lookup_lt_Some).
  rewrite (plugs_split _ _ _ Ht') in Hin. apply elem_of_app in Hin as [Hin|Hin]; [by left|]. right; right; left.
  rewrite (plugs_split _ _ _ Ht). apply elem_of_app. right.
  by rewrite delete_insert_same in Hin.
Qed.

(** A step keeps the disks and the bios in order, and it returns if all plugs with bios are
    those of exposed disks; that remains so if the disk that is given up has none. *)
Definition good_step (c : config) (a : option nat) (o : outcome config) : Prop :=
  (∀ c', o = Ok c' → sound_config c')
  ∧ (plugs_exposed c → ∃ c', o = Ok c' ∧ ((∀ d, a = Some d → unplugged c d) → plugs_exposed c')).

Lemma good_ok c a c' :
  sound_config c' → (plugs_exposed c → (∀ d, a = Some d → unplugged c d) → plugs_exposed c') → good_step c a (Ok c').
Proof. intros Hs Hp. split; [by intros x [= <-]|]. intros Hc. exists c'. split; [done|]. by apply Hp. Qed.

Lemma good_call {A} c d cell (m : D A) x s a :
  sound_config c → c_disks c !! d = Some cell → m (cell_state cell (c_world c)) = Ok (x, s) → dworld s = c_world c →
  cell_ok (cell_of (cl_bdev cell) s) →
  (cell_exposed cell = true → cell_exposed (cell_of (cl_bdev cell) s) = true ∨ a = Some d) →
  good_step c a (disk_call c d m).
Proof.
  intros Hs L E W Hok Hx. rewrite (disk_call_run c d cell m x s L E W).
  destruct (with_cell_sound c d cell _ a L Hok Hs Hx). by apply good_ok.
Qed.

Lemma good_create c bdev allocated :
  sound_config c →
  good_step c None ('(w, cell) ← create_cell bdev use_workqueue allocated (c_world c);
                    Ok (mk_config w (c_disks c ++ [cell]) (c_plugs c) (c_works c) (c_out c) (c_handed c))).
Proof.
  intros [Hb Hd]. rewrite queue_mode.
  destruct (create_cell_ok bdev allocated (c_world c)) as (cell & E & Hok & _). rewrite E. simpl. apply good_ok.
  - split; [exact Hb|]. simpl. apply Forall_app. split; [done|]. by constructor.
  - intros Hp _ plug Hin. specialize (Hp plug Hin). revert Hp. apply plug_exposed_mono. intros d x L Ex _. right. exists x.
    split; [|done]. simpl. apply lookup_app_l_Some. done.
Qed.

Lemma good_submit c t d queue i b stalled waited fuel r kmalloc_ok cb_list :
  sound_config c → accepts (c_disks c) d = Some queue → holdoff_writes_under_pressure stalled waited fuel = Ok r →
  c_plugs c !! t = Some cb_list → w_bios (c_world c) !! i = None → bi_next b = None → bio_ok b →
  let w := with_bios (<[i := b]> (w_bios (c_world c))) (c_world c) in
  good_step c None
    ('(cb_list, w') ← kfio_submit_bio (devs c) queue stalled waited fuel kmalloc_ok cb_list (Some i) w;
     Ok (mk_config w' (c_disks c) (<[t := cb_list]> (c_plugs c)) (c_works c) (c_out c ++ newly w w') (c_handed c ++ [i]))).
Proof.
  intros [Hb Hd] Ha Hold Ht Hi Hn Hok w. destruct (accepts_exposed _ _ _ Ha) as (cell & L & E).
  destruct (exposed_leads _ d cell Hd L E) as (fields & Hf & Hl & Hq & Eq). rewrite <- (Eq _ Ha) in *.
  destruct (submit_sound c t (devs c) queue d stalled waited fuel r kmalloc_ok i b cb_list)
    as (cb' & w' & R & Hplugs & Hs); eauto.
  fold w in R, Hs. rewrite R. simpl. apply good_ok; [by split|]. intros Hp _ plug Hin.
  apply (all_plugs_update c w' (c_disks c) t cb_list cb' []) in Hin; [|done|by auto].
  destruct Hin as [Hin|[Hin|Hin]]; [|by apply not_elem_of_nil in Hin|by apply Hp].
  destruct (Hplugs _ Hin) as [Hold'|Hpd]; [|right; by exists d, cell].
  apply Hp. unfold all_plugs. apply elem_of_app. left. rewrite (plugs_split _ _ _ Ht). set_solver.
Qed.

Lemma good_flush c t plugs from_schedule :
  sound_config c → c_plugs c !! t = Some (Some plugs) →
  good_step c None
    ('(works, w') ← unplug_all (devs c) plugs from_schedule (c_world c);
     Ok (mk_config w' (c_disks c) (<[t := Some []]> (c_plugs c)) (c_works c ++ works)
           (c_out c ++ newly (c_world c) w') (c_handed c))).
Proof.
  intros [Hb Hd] Ht.
  assert (∀ plug, plug ∈ plugs → plug ∈ all_plugs c) as Hin.
  { intros plug Hin. unfold all_plugs. apply elem_of_app. left. rewrite (plugs_split _ _ _ Ht). set_solver. }
  assert ((if from_schedule then True else Forall (plug_ready (devs c)) plugs) →
    ∃ works w', unplug_all (devs c) plugs from_schedule (c_world c) = Ok (works, w')
      ∧ (∀ plug, plug ∈ works → plug ∈ plugs)
      ∧ sound_config (mk_config w' (c_disks c) (<[t := Some []]> (c_plugs c)) (c_works c ++ works)
                        (c_out c ++ newly (c_world c) w') (c_handed c))) as Hgo.
  { intros Hr. destruct (flush_sound c t (devs c) plugs from_schedule Hr Hb Ht) as (works & w' & E & Hw & Hs).
    exists works, w'. by split_and!. }
  split.
  - intros c' E. destruct (unplug_all _ _ _ _) as [[works w']|] eqn:U; [|done].
    destruct Hgo as (works' & w'' & E' & _ & Hs); [|injection E' as <- <-; by injection E as <-].
    destruct from_schedule; [done|]. by eapply unplug_all_ready.
  - intros Hp. destruct Hgo as (works & w' & E & Hw & _).
    { destruct from_schedule; [done|]. apply list.Forall_forall. intros plug Hpl. by apply exposed_ready, Hp, Hin. }
    rewrite E. eexists. split; [done|]. intros _ plug Hpl.
    apply (all_plugs_update c w' (c_disks c) t (Some plugs) (Some []) works) in Hpl; [|done|].
    + destruct Hpl as [Hpl|[Hpl|Hpl]]; [by apply not_elem_of_nil in Hpl|by apply Hp, Hin, Hw|by apply Hp].
    + intros p. rewrite elem_of_app. tauto.
Qed.

Lemma good_work c k plug :
  sound_config c → c_works c !! k = Some plug →
  good_step c None
    ('(_, w') ← kfio_unplug_do_cb (devs c) plug (c_world c);
     Ok (mk_config w' (c_disks c) (c_plugs c) (delete k (c_works c)) (c_out c ++ newly (c_world c) w') (c_handed c))).
Proof.
  intros [Hb Hd] Hk. split.
  - intros c' E. destruct (ready_or_fault (c_disks c) plug (c_world c) Hd) as [Hr|[e F]]; [|by rewrite F in E].
    destruct (work_sound c k (devs c) plug Hr Hb Hk) as (w' & E' & Hs). rewrite E' in E. injection E as <-. by split.
  - intros Hp. destruct (work_sound c k (devs c) plug) as (w' & E & Hs); [|done|done|].
    { apply exposed_ready, Hp; [done|]. apply elem_of_app. right. by eapply list_elem_of_lookup_2. }
    rewrite E. eexists. split; [done|]. intros _ p Hin. apply Hp. revert Hin. unfold all_plugs. simpl.
    rewrite !elem_of_app. intros [Hin|Hin]; [by left|]. right. rewrite (delete_Permutation _ _ _ Hk). by right.
Qed.

Lemma good_complete c k f error :
  sound_config c → c_out c !! k = Some f →
  good_step c None
    ('(_, w') ← run_completor f error (c_world c);
     Ok (mk_config w' (c_disks c) (c_plugs c) (c_works c) (delete k (c_out c) ++ newly (c_world c) w') (c_handed c))).
Proof.
  intros [Hb Hd] Hk. destruct (complete_sound c k f error Hb Hk) as (w' & E & Hs). rewrite E. by apply good_ok.
Qed.

Lemma step_good c a o : sound_config c → step c a o → good_step c a o.
Proof.
  intros Hs Hst. destruct Hst as
    [bdev al|d cell k bdev env gd i q L K G Eg Gq Qi Dy|d cell k gd lb L K G _|d cell rel lb fl L Ex _|d cell L K Ex
    |t Ht|t Ht|t d queue i b st wa fu r km cb Ha Hold Ht Hi Hn Hok|t plugs fs Ht|k plug Hk|k f error Hk].
  - by apply good_create.
  - rewrite queue_mode. destruct (expose_cell cell (c_world c) k bdev env gd i q) as (v & s & E & W & Hok);
      try done; [by eapply cell_at|].
    eapply good_call; try done. unfold cell_exposed, cell_gd. rewrite K. simpl. by rewrite G.
  - destruct (hide_begin_cell cell (c_world c) k gd lb) as (s & E & W & Hok & Ex); try done; [by eapply cell_at|].
    eapply good_call; try done. by left.
  - rewrite queue_mode. destruct (exposed_inv cell (cell_at c d cell Hs L) Ex) as (k & g & i & q & K & _).
    destruct (hide_end_cell cell (c_world c) k rel lb fl (cell_at c d cell Hs L) K) as (s & E & W & Hok).
    eapply good_call; try done. by right.
  - destruct (destroy_cell cell (c_world c) K) as (s & E & W & Hok). eapply good_call; try done. by rewrite Ex.
  - apply good_ok; [|]. 
    + split; [by eapply sound_silent; try apply Hs|apply Hs].
    + intros Hp _ plug Hin. apply (all_plugs_update c (c_world c) (c_disks c) t None (Some []) []) in Hin; [|done|by auto].
      destruct Hin as [Hin|[Hin|Hin]]; [by apply not_elem_of_nil in Hin..|by apply Hp].
  - apply good_ok; [|].
    + split; [by eapply sound_silent; try apply Hs|apply Hs].
    + intros Hp _ plug Hin. apply (all_plugs_update c (c_world c) (c_disks c) t (Some []) None []) in Hin; [|done|by auto].
      destruct Hin as [Hin|[Hin|Hin]]; [by apply not_elem_of_nil in Hin..|by apply Hp].
  - by eapply good_submit.
  - by apply good_flush.
  - by apply good_work.
  - by apply good_complete.
Qed.

Lemma sound_start n : sound_config (init_config n).
Proof. split; [apply sound_init|constructor]. Qed.

Lemma reachable_sound n c : reachable n c → sound_config c.
Proof.
  induction 1 as [|c a c' _ IH Hst]; [apply sound_start|]. by apply (step_good c a _ IH Hst).
Qed.

Lemma safely_reachable_inv n c : safely_reachable n c → reachable n c ∧ plugs_exposed c.
Proof.
  induction 1 as [|c a c' _ [IHr IHp] Hst Hu].
  - split; [constructor|]. intros plug Hin. unfold all_plugs, init_config in Hin. simpl in Hin. rewrite app_nil_r in Hin.
    assert (concat (default [] <$> replicate n None) = [] :> list kfio_plug) as E by (clear; by induction n).
    rewrite E in Hin. by apply not_elem_of_nil in Hin.
  - split; [by eapply reachable_step|]. destruct (step_good c a _ (reachable_sound n c IHr) Hst) as [_ Hg].
    destruct (Hg IHp) as (c1 & [= <-] & Hp). by apply Hp.
Qed.


End system.

(** ** Runs *)

Definition sample_driver : Driver := {|
  use_workqueue := USE_QUEUE_NONE; dangerous_plugging_callback := 0; bio_split_to_limits p := mret p |}.

Lemma sample_driver_laws : @DriverLaws sample_driver.
Proof. split; [intros w i b _; by left|done]. Qed.

Abbreviation sample_step := (@step linux_layer small_core sample_driver).
Abbreviation sample_reachable := (@reachable linux_layer small_core sample_driver 1).
Abbreviation sample_safely := (@safely_reachable linux_layer small_core sample_driver 1).

Definition write_at (sector page : Z) : bio := mk_bio sector 512 1 0 [mk_bvec page 512 0] None 0.

Lemma write_at_ok sector page : 0 <= sector → bio_ok (write_at sector page).
Proof.
  split; simpl; [lia|lia| |lia|lia]. apply Forall_singleton. unfold bvec_ok, FUSION_PAGE_SIZE. simpl. lia.
Qed.

(** A step that gives no disk up. *)
Lemma safely_to c o c' : sample_safely c → sample_step c None o → o = Ok c' → sample_safely c'.
Proof. intros Hr Hs ->. eapply safely_step; [exact Hr|exact Hs|done]. Qed.

Definition sample_queue : request_queue := mk_queue false false false no_limits.

(** A disk is created and exposed; one thread plugs and submits a write. *)
Lemma sample_plugged :
  { c | sample_safely c ∧ c_handed c = [1]%positive ∧ c_works c = [] ∧ (c_out c = [] ∧ w_bios (c_world c) = {[1%positive := write_at 8 7]})
        ∧ c_plugs c = [Some [mk_plug (Some 0%nat) (Some 1%positive) (Some 1%positive)]]
        ∧ accepts (c_disks c) 0 = Some (RqAt 0 1)
        ∧ ∃ cell k, c_disks c = [cell] ∧ cl_gd cell = Some k ∧ disk_gd k = Some (mk_gd (QAt 1) 0 1000 no_stats no_stats)
          ∧ cell_exposed cell = true }.
Proof.
  eexists. split.
  - eapply safely_to; [eapply safely_to; [eapply safely_to; [eapply safely_to; [apply safely_init| |]| |]| |]| |].
    + apply (step_create _ sample_bdev true).
    + vm_compute. reflexivity.
    + eapply (step_expose _ 0 _ _ sample_bdev sample_env sample_gd 1 sample_queue); reflexivity.
    + vm_compute. reflexivity.
    + by apply (step_start_plug _ 0).
    + vm_compute. reflexivity.
    + by apply (step_submit _ 0 0 (RqAt 0 1) 1 (write_at 8 7) (λ _, false) (λ _, 0) 1 (true, 1%nat, 0%nat) true (Some []));
        [..|by apply write_at_ok].
    + vm_compute. reflexivity.
  - split_and!; try reflexivity. do 2 eexists. by split_and!.
Defined.





(** ** A disk given up with a bio on a plug *)

Lemma reached_by c a o c' : sample_reachable c → sample_step c a o → o = Ok c' → sample_reachable c'.
Proof. intros Hr Hs ->. by eapply reachable_step. Qed.

(** [linux_bdev_hide_disk] neither flushes plugs nor, at shutdown, waits for the openers.
    A plug flushed after it reads [disk->rq], which is NULL. *)
Theorem given_up_plug_faults :
  ∃ c o, sample_reachable c ∧ sample_step c None o ∧ o = Fault NullDeref.
Proof.
  destruct (proj2_sig sample_plugged) as (Hr & _).
  apply (@safely_reachable_inv linux_layer small_core sample_driver small_core_laws sample_driver_laws) in Hr as [Hr _].
  do 2 eexists. split.
  - eapply reached_by; [eapply reached_by; [exact Hr| |]| |].
    + by eapply (step_hide_begin _ 0 _ _ _ true); [..|eexists].
    + vm_compute. reflexivity.
    + by eapply (step_hide_end _ 0 _ true true KFIO_DISK_OP_SHUTDOWN).
    + vm_compute. reflexivity.
  - split; [by eapply (step_flush _ 0 _ false)|]. vm_compute. reflexivity.
Qed.
