(* ===== verification/KDiskWait.v ===== *)
(** * Threads at one disk: kblock.c

    Four kinds of threads sleep on the condition variable [state_cv] of a disk, or wake
    those that do: the one that exposes the disk and later hides it, the worker that adds
    the disk to the kernel, the kernel's threads that open and close it, and writers that
    are held off.  A section under [state_lk] is one step, and so is each call of the
    disk's operations (KDisk) up to such a section. *)
From stdpp Require Import gmap.
From S2P Require Import Prelude Condvar KScatter KBio KPlug KDisk.

(** ** State *)

(** The kernel opens and closes a disk under a mutex of its own: it calls [kfio_open]
    and then counts the opener; it takes it off the count and then calls
    [kfio_release]. *)
Inductive user_phase :=
  | Idle
  | Opening | Counting | Opened
  | Closing                        (* off the count, not yet released *)
  | Telling                        (* released; to wake who waits for it *)
  | HoldLoop | HoldTest | HoldSleep.   (* a writer: before the lock, under it, waiting *)

(** The thread that has the device of the core: first [linux_bdev_expose_disk], then
    [linux_bdev_hide_disk]. *)
Inductive control_phase :=
  | New
  | ExposeTest | ExposeSleep | ExposeFree
  | Live
  | HideDelete | HideMutex | HideTest | HideSleep | HideFinish
  | Hidden.

Inductive worker_phase := NoWork | WorkQueued | WorkTell | WorkDone.

#[global] Instance user_phase_eq_dec : EqDecision user_phase.
Proof. solve_decision. Defined.
#[global] Instance control_phase_eq_dec : EqDecision control_phase.
Proof. solve_decision. Defined.
#[global] Instance worker_phase_eq_dec : EqDecision worker_phase.
Proof. solve_decision. Defined.

Record scene (Q : Type) := mk_scene {
  the_dstate : dstate;
  bd_openers : Z;                  (* linux_bdev->bd_openers *)
  open_mutex : option positive;    (* the kernel's mutex of the disk *)
  added : bool;                    (* the kernel lets the disk be opened *)
  state_cv : Q;                    (* disk->state_cv *)
  param : option bool;             (* kfio_blk_add_disk_param: done, while it is allocated *)
  worker : worker_phase;
  control : control_phase;
  users : gmap positive user_phase
}.
Arguments mk_scene {Q} _ _ _ _ _ _ _ _ _.
Arguments the_dstate {Q} _. Arguments bd_openers {Q} _. Arguments open_mutex {Q} _.
Arguments added {Q} _. Arguments state_cv {Q} _. Arguments param {Q} _.
Arguments worker {Q} _. Arguments control {Q} _. Arguments users {Q} _.

(** The module parameter [use_workqueue], and whether the block device of the disk still
    belongs to it ([linux_bdev->bd_disk == disk->gd]) while the disk is hidden, which the
    kernel promises. *)
Class DiskEnv := { use_workqueue : Z; bd_disk_is_gd : bool }.
Class DiskEnvLaws `{DiskEnv} : Prop := { bdev_keeps_disk : bd_disk_is_gd = true }.

Section waits.
Context {Q : Type} `{WaitQueue Q} `{DiskEnv}.
Implicit Types (c : scene Q) (t : positive).

Definition set_disk (s : dstate) c := mk_scene s (bd_openers c) (open_mutex c) (added c) (state_cv c) (param c) (worker c) (control c) (users c).
Definition set_openers (n : Z) c := mk_scene (the_dstate c) n (open_mutex c) (added c) (state_cv c) (param c) (worker c) (control c) (users c).
Definition set_mutex (m : option positive) c := mk_scene (the_dstate c) (bd_openers c) m (added c) (state_cv c) (param c) (worker c) (control c) (users c).
Definition set_added (b : bool) c := mk_scene (the_dstate c) (bd_openers c) (open_mutex c) b (state_cv c) (param c) (worker c) (control c) (users c).
Definition set_queue (q : Q) c := mk_scene (the_dstate c) (bd_openers c) (open_mutex c) (added c) q (param c) (worker c) (control c) (users c).
Definition set_param (p : option bool) c := mk_scene (the_dstate c) (bd_openers c) (open_mutex c) (added c) (state_cv c) p (worker c) (control c) (users c).
Definition set_worker (w : worker_phase) c := mk_scene (the_dstate c) (bd_openers c) (open_mutex c) (added c) (state_cv c) (param c) w (control c) (users c).
Definition set_control (p : control_phase) c := mk_scene (the_dstate c) (bd_openers c) (open_mutex c) (added c) (state_cv c) (param c) (worker c) p (users c).
Definition set_user t (p : user_phase) c := mk_scene (the_dstate c) (bd_openers c) (open_mutex c) (added c) (state_cv c) (param c) (worker c) (control c) (<[t := p]> (users c)).

Definition user c t : user_phase := default Idle (users c !! t).

(** The names of the threads in the queue. *)
Definition control_id : nat := 0.
Definition user_id t : nat := Pos.to_nat t.

Definition asleep (n : nat) c : Prop := n ∈ wq_waiters (state_cv c).
#[global] Instance asleep_dec n c : Decision (asleep n c).
Proof. unfold asleep. apply _. Defined.

Definition sleep_begin (n : nat) c : scene Q := set_queue (fusion_condvar_wait_begin n (state_cv c)) c.
Definition sleep_end (n : nat) c : scene Q := set_queue (fusion_condvar_wait_end n (state_cv c)) c.
Definition broadcast c : scene Q := set_queue (fusion_condvar_broadcast (state_cv c)).2 c.

Definition on_disk {A} (m : D A) c : outcome (A * scene Q) :=
  '(x, s) ← m (the_dstate c); Ok (x, set_disk s c).

(** ** Exposing *)

(** [param] is allocated and the work scheduled. *)
Definition expose_begin c : scene Q :=
  set_control ExposeTest (set_worker WorkQueued (set_param (Some false) c)).

(** The test of the loop, and what follows it before the lock is released. *)
Definition expose_test c : outcome (scene Q) :=
  done ← of_option BadPointer (param c);
  Ok (if negb done then set_control ExposeSleep (sleep_begin control_id c) else set_control ExposeFree c).

Definition expose_end c : scene Q := set_control Live (set_param None c).

(** [kfio_blk_add_disk]: [ADD_DISK] first, whose failure is only reported. *)
Definition kfio_blk_add_disk_add c : scene Q := set_worker WorkTell (set_added true c).
Definition kfio_blk_add_disk_tell c : outcome (scene Q) :=
  _ ← of_option BadPointer (param c);
  Ok (set_worker WorkDone (broadcast (set_param (Some true) c))).

(** ** Hiding *)

(** [set_bit(QUEUE_FLAG_DYING, ...)]. *)
Definition mark_dying : D unit :=
  d ← the_disk; '(i, q) ← the_queue (disk_rq d); put_queue i (set_dying q).

(** From [put_disk] on. *)
Definition forget_disk : D unit := drop_gendisk;; drop_queue use_workqueue.

(** The test of the loop that waits for the openers. *)
Definition hide_test c : scene Q :=
  if (bd_openers c >? 0) && bd_disk_is_gd then set_control HideSleep (sleep_begin control_id c) else set_control HideFinish c.

(** The next step of the thread, if it has one: one that sleeps has none, and one that
    needs the mutex none while another has it.  The disk has a block device and the system
    is not shutting down; KDisk has the other branches. *)
Definition control_step c : outcome (scene Q) :=
  match control c with
  | New => Ok (expose_begin c)
  | ExposeTest => expose_test c
  | ExposeSleep => if decide (asleep control_id c) then Ok c else expose_test (sleep_end control_id c)
  | ExposeFree => Ok (expose_end c)
  | Live => '(_, c) ← on_disk mark_dying c; Ok (set_control HideDelete c)
  | HideDelete => Ok (set_control HideMutex (set_added false c))
  | HideMutex => Ok (if open_mutex c is Some _ then c else set_control HideTest c)
  | HideTest => Ok (hide_test c)
  | HideSleep => Ok (if decide (asleep control_id c) then c else hide_test (sleep_end control_id c))
  | HideFinish => '(_, c) ← on_disk forget_disk c; Ok (set_control Hidden c)
  | Hidden => Ok c
  end.

Definition worker_step c : outcome (scene Q) :=
  match worker c with
  | WorkQueued => Ok (kfio_blk_add_disk_add c)
  | WorkTell => kfio_blk_add_disk_tell c
  | NoWork | WorkDone => Ok c
  end.

(** ** Users *)

(** Whether [kfio_close_disk] comes to its broadcast: it is the one entry that its run
    adds to the log. *)
Definition tells (s s' : dstate) : bool := bool_decide (Broadcast ∈ drop (length (log s)) (log s')).

(** The tests of a writer: of the outer loop, and of the inner one under the lock. *)
Definition should_holdoff_writes c : outcome bool :=
  d ← of_option NullDeref (bdev_gd (the_dstate c)); Ok (holdoff_bit d).
Definition hold_loop t c : outcome (scene Q) :=
  b ← should_holdoff_writes c; Ok (set_user t (if b : bool then HoldTest else Idle) c).
Definition hold_test t c : outcome (scene Q) :=
  b ← should_holdoff_writes c;
  Ok (if b : bool then set_user t HoldSleep (sleep_begin (user_id t) c) else set_user t HoldLoop c).

(** [r]: what the core's [bdev_do_open] returns, if it is called. *)
Definition user_step t (r : Z) c : outcome (scene Q) :=
  match user c t with
  | Opening =>
      '(ret, c) ← on_disk (kfio_open_disk (Some r)) c;
      Ok (if ret =? 0 then set_user t Counting c else set_user t Idle (set_mutex None c))
  | Counting => Ok (set_user t Opened (set_mutex None (set_openers (bd_openers c + 1) c)))
  | Closing =>
      '(_, c') ← on_disk (kfio_close_disk true) c;
      Ok (if tells (the_dstate c) (the_dstate c') then set_user t Telling c' else set_user t Idle (set_mutex None c'))
  | Telling => Ok (set_user t Idle (set_mutex None (broadcast c)))
  | HoldLoop => hold_loop t c
  | HoldTest => hold_test t c
  | HoldSleep => if decide (asleep (user_id t) c) then Ok c else hold_test t (sleep_end (user_id t) c)
  | Idle | Opened => Ok c
  end.

(** ** Schedules *)

Inductive wait_action :=
  | Control
  | Worker
  | User (t : positive) (r : Z)
  | StartOpen (t : positive)
  | StartClose (t : positive)
  | StartWrite (t : positive)
  | TimedOut (t : positive) (return_now : bool)
  | Backpressure (on : bool).

Definition wait_step (a : wait_action) c : outcome (scene Q) :=
  match a with
  | Control => control_step c
  | Worker => worker_step c
  | User t r => user_step t r c
  | StartOpen t =>
      Ok (if bool_decide (user c t = Idle) && added c && bool_decide (open_mutex c = None)
          then set_user t Opening (set_mutex (Some t) c) else c)
  | StartClose t =>
      Ok (if bool_decide (user c t = Opened) && bool_decide (open_mutex c = None)
          then set_user t Closing (set_mutex (Some t) (set_openers (bd_openers c - 1) c)) else c)
  | StartWrite t => Ok (if bool_decide (user c t = Idle) then set_user t HoldLoop c else c)
  | TimedOut t return_now =>
      Ok (if bool_decide (user c t = HoldSleep)
          then set_user t (if return_now then Idle else HoldLoop) (sleep_end (user_id t) c) else c)
  | Backpressure on =>
      '(_, c) ← on_disk (linux_bdev_backpressure on) c; Ok (if on then c else broadcast c)
  end.

Fixpoint run_waits (l : list wait_action) c : outcome (scene Q) :=
  match l with [] => Ok c | a :: l => c ← wait_step a c; run_waits l c end.

(** A disk that is about to be exposed. *)
Definition unexposed (s : dstate) : scene Q := mk_scene s 0 None false wq_init None NoWork New ∅.
End waits.
