(* ===== verification/KDiskWaitSpec.v ===== *)
(** * Threads at one disk: theorems

    No wake-up is lost on the condition variable that exposing, hiding and held-off
    writers share, and nothing is used after it is gone, as long as the calls of
    [kfio_release] that have begun are over when the disk is given up: the wait for the
    openers does not see to that. *)
From stdpp Require Import gmap.
From S2P Require Import Prelude Condvar KScatter KBio KPlug KDisk KDiskSpec KDiskWait.

(** ** What the operations of the disk keep *)

Definition dying (s : dstate) : Prop :=
  ∃ d i q, bdev_gd s = Some d ∧ disk_rq d = QAt i ∧ queues s !! i = Some q ∧ q_dying q = true.
Definition held_off (s : dstate) : bool := if bdev_gd s is Some d then holdoff_bit d else false.

(** Only the count of the disk changes, and the log grows. *)
Definition recounted (s s' : dstate) : Prop :=
  ∃ d n l, bdev_gd s = Some d ∧ s' = mk_dstate (Some (set_ref n d)) (queues s) (dworld s) (log s ++ l).

Lemma recounted_keeps s s' : recounted s s' → (dying s → dying s') ∧ held_off s' = held_off s.
Proof.
  intros (d & n & l & E & ->). unfold dying, held_off. simpl. rewrite E. split; [|done].
  intros (d' & i & q & [= <-] & Hr & Hq & Hd). exists (set_ref n d), i, q. done.
Qed.

Lemma open_disk_recounts s n r v s' :
  opened_by s n → kfio_open_disk (Some r) s = Ok (v, s') → s' = s ∨ recounted s s'.
Proof.
  intros [(d & i & D & Q & [q L] & R) _ _]. unfold kfio_open_disk. run_disk. rewrite D. run_disk. rewrite Q, L.
  destruct (q_dying q); run_disk; [intros [= <- <-]; by left|]. right.
  destruct (_ =? 1); run_disk.
  - destruct (r =? 0); run_disk; injection H as <- <-; (eexists d, _, [CoreOpen r]); by split.
  - injection H as <- <-. exists d, (s32 (ref_count d + 1)), []. by rewrite app_nil_r.
Qed.

(** A disk that is dying is not opened. *)
Lemma open_disk_dying s r : dying s → kfio_open_disk (Some r) s = Ok (- ENXIO, s).
Proof.
  intros (d & i & q & D & Q & L & Hq). unfold kfio_open_disk. run_disk. rewrite D. run_disk. rewrite Q, L.
  run_disk. by rewrite Hq.
Qed.

(** The last close of a dying disk, and no other, comes to the broadcast. *)
Lemma close_disk_tells s n s' :
  opened_by s n → 0 < n → kfio_close_disk true s = Ok (tt, s') →
  recounted s s' ∧ (dying s → tells s s' = bool_decide (n = 1)).
Proof.
  intros [(d & i & D & Q & [q L] & R) B _] N. unfold kfio_close_disk. run_disk. rewrite D. run_disk.
  rewrite R, (wraps_small 32 (n - 1)) by (unfold in_s; lia).
  assert (dying s → q_dying q = true) as Hdy by (intros (d' & i' & q' & ? & ? & ? & ?); congruence).
  destruct (Z.eqb_spec (n - 1) 0) as [Hn|Hn]; run_disk.
  - rewrite Q, L. rewrite (bool_decide_true (n = 1)) by lia.
    destruct (q_dying q) eqn:Eq; run_disk; intros [= <-].
    + split; [exists d, (n - 1), [CoreRelease; Broadcast]; by rewrite <- app_assoc|].
      intros _. unfold tells. simpl. rewrite <- app_assoc, drop_app_length. by vm_compute.
    + split; [by exists d, (n - 1), [CoreRelease]|]. intros Hd. by specialize (Hdy Hd).
  - rewrite (bool_decide_false (n = 1)) by lia. intros [= <-].
    split; [exists d, (n - 1), []; by rewrite app_nil_r|].
    intros _. unfold tells. simpl. by rewrite drop_all.
Qed.

Lemma mark_dying_spec s n :
  opened_by s n → ∃ s', mark_dying s = Ok (tt, s') ∧ opened_by s' n ∧ dying s' ∧ held_off s' = held_off s.
Proof.
  intros [(d & i & D & Q & [q L] & R) B C]. unfold mark_dying. run_disk. rewrite D. run_disk. rewrite Q, L. run_disk.
  eexists. split; [done|]. unfold dying, held_off. simpl. rewrite D. split_and!; [|exists d, i, (set_dying q)|done].
  - split; [|done|done]. exists d, i. split_and!; try done. simpl. rewrite lookup_insert_eq. eauto.
  - split_and!; try done. apply lookup_insert_eq.
Qed.

Lemma backpressure_spec s on :
  (∃ d, bdev_gd s = Some d) →
  ∃ s', linux_bdev_backpressure on s = Ok (tt, s') ∧ held_off s' = on ∧ (dying s → dying s')
    ∧ (∃ d, bdev_gd s' = Some d) ∧ core_refs (log s') = core_refs (log s) ∧ ∀ n, opened_by s n → opened_by s' n.
Proof.
  intros [d D]. unfold linux_bdev_backpressure. rewrite D.
  assert (∀ x, bdev_gd x = Some (set_holdoff on d) → queues x = queues s → core_refs (log x) = core_refs (log s) →
    held_off x = on ∧ (dying s → dying x) ∧ (∃ d, bdev_gd x = Some d) ∧ core_refs (log x) = core_refs (log s)
    ∧ ∀ n, opened_by s n → opened_by x n) as Hx.
  { intros x E Eq El. unfold held_off, dying. rewrite E, D, Eq. split_and!; try done; [|by eexists|].
    - intros (d' & i & q & [= <-] & ?). by exists (set_holdoff on d), i, q.
    - intros n [(d' & i & D' & Q & L & R) B C]. rewrite D in D'. injection D' as <-. split; [|done|by rewrite El].
      exists (set_holdoff on d), i. by rewrite Eq. }
  destruct on; run_disk; (eexists; split; [done|]); apply Hx; simpl; try done.
  rewrite core_refs_app. rewrite (core_refs_other Broadcast) by done. lia.
Qed.

Lemma forget_disk_spec `{DiskEnv} s :
  (∃ d, bdev_gd s = Some d) →
  ∃ s', forget_disk s = Ok (tt, s') ∧ held_off s' = held_off s ∧ (∃ d, bdev_gd s' = Some d)
    ∧ core_refs (log s') = core_refs (log s).
Proof.
  intros [d D]. unfold forget_disk, drop_gendisk, drop_queue. run_disk. rewrite D. run_disk.
  destruct (decide (disk_rq d ≠ QNull)); [destruct (use_workqueue =? USE_QUEUE_MQ)|]; run_disk;
    (eexists; split; [done|]); unfold held_off; simpl; rewrite D; (split_and!; [done|by eexists|]);
    rewrite ?core_refs_app, ?(core_refs_other PutDisk), ?(core_refs_other FreeTagSet) by done; lia.
Qed.

(** ** The invariant *)

Definition locked (p : user_phase) : bool :=
  match p with Opening | Counting | Closing | Telling => true | _ => false end.
(** Whether the opener is in the count of the disk. *)
Definition counted (p : user_phase) : bool :=
  match p with Counting | Opened | Closing => true | _ => false end.

(** Off the count of the kernel, but not done with [kfio_release]. *)
Definition releasing (p : user_phase) : bool := match p with Closing | Telling => true | _ => false end.

Definition marked (k : control_phase) : bool :=
  match k with HideDelete | HideMutex | HideTest | HideSleep | HideFinish => true | _ => false end.
Definition deleted (k : control_phase) : bool :=
  match k with HideMutex | HideTest | HideSleep | HideFinish | Hidden => true | _ => false end.
(** No thread is about to open the disk any more. *)
Definition shut (k : control_phase) : bool :=
  match k with HideTest | HideSleep | HideFinish | Hidden => true | _ => false end.
Definition finished (k : control_phase) : bool := match k with HideFinish | Hidden => true | _ => false end.

Definition phase_of (U : gmap positive user_phase) t : user_phase := default Idle (U !! t).

Lemma phase_insert U t p t' : phase_of (<[t := p]> U) t' = if decide (t' = t) then p else phase_of U t'.
Proof. unfold phase_of. case_decide; [subst; by rewrite lookup_insert_eq|by rewrite lookup_insert_ne]. Qed.

Definition count_opened (U : gmap positive user_phase) : Z := mcount (λ p, p = Opened) U.
Definition count_refs (U : gmap positive user_phase) : Z := mcount (λ p, counted p = true) U.

Lemma count_opened_insert U t p :
  count_opened (<[t := p]> U) = count_opened U - (if decide (phase_of U t = Opened) then 1 else 0) + (if decide (p = Opened) then 1 else 0).
Proof. unfold count_opened. by rewrite (mcount_insert _ Idle). Qed.
Lemma count_refs_insert U t p :
  count_refs (<[t := p]> U) = count_refs U - (if decide (counted (phase_of U t) = true) then 1 else 0) + (if decide (counted p = true) then 1 else 0).
Proof. unfold count_refs. by rewrite (mcount_insert _ Idle). Qed.

Lemma count_opened_same U t p : (p = Opened ↔ phase_of U t = Opened) → count_opened (<[t := p]> U) = count_opened U.
Proof. intros E. rewrite count_opened_insert. do 2 case_decide; tauto || lia. Qed.
Lemma count_refs_same U t p : counted p = counted (phase_of U t) → count_refs (<[t := p]> U) = count_refs U.
Proof. intros E. rewrite count_refs_insert, E. case_decide; lia. Qed.

(** A counted user, if there are any. *)
Lemma count_refs_some U : count_refs U ≠ 0 → ∃ t, counted (phase_of U t) = true.
Proof. intros (t & p & E & Hp)%mcount_some. exists t. unfold phase_of. by rewrite E. Qed.
Lemma count_opened_pos U t : phase_of U t = Opened → 0 < count_opened U.
Proof.
  unfold phase_of. destruct (U !! t) as [p|] eqn:E; [|done]. simpl. intros ->. by apply (mcount_pos _ U t Opened).
Qed.
Lemma count_refs_pos U t : counted (phase_of U t) = true → 0 < count_refs U.
Proof.
  unfold phase_of. destruct (U !! t) as [p|] eqn:E; [|done]. simpl. intros Hp. by apply (mcount_pos _ U t p).
Qed.

Section invariant.
Context (threads : gset positive) (few : Z.of_nat (size threads) < 2 ^ 31 - 1).
Implicit Types (U : gmap positive user_phase) (k : control_phase) (t : positive).

(** The disk, the openers and the mutex. *)
Record users_inv (s : dstate) (n : Z) (m : option positive) k U : Prop := {
  ui_dom : dom U ⊆ threads;
  ui_disk : if decide (k = Hidden) then (∃ d, bdev_gd s = Some d) ∧ core_refs (log s) = 0 else opened_by s (count_refs U);
  ui_openers : n = count_opened U;
  ui_mutex t : locked (phase_of U t) = true ↔ m = Some t;
  ui_dying : marked k = true → dying s;
  ui_shut t : shut k = true → phase_of U t ≠ Opening ∧ phase_of U t ≠ Counting;
  ui_finish : finished k = true → n = 0;
  ui_hidden t : k = Hidden → locked (phase_of U t) = false
}.

(** The parameter of the worker and its phase. *)
Definition param_inv (p : option bool) (w : worker_phase) k : Prop :=
  match k with
  | New => p = None ∧ w = NoWork
  | ExposeTest | ExposeSleep => p = Some (bool_decide (w = WorkDone)) ∧ w ≠ NoWork
  | ExposeFree => p = Some true ∧ w = WorkDone
  | _ => p = None ∧ w = WorkDone
  end.
Definition has_added (w : worker_phase) : bool := match w with WorkTell | WorkDone => true | _ => false end.

(** Who sleeps ([a]), and that there is somebody to wake him. *)
Record sleep_inv (a : nat → Prop) (w : worker_phase) k (n : Z) U (hold : bool) : Prop := {
  si_queue i : a i → (i = control_id ∧ (k = ExposeSleep ∨ k = HideSleep)) ∨ ∃ t, i = user_id t ∧ phase_of U t = HoldSleep;
  si_expose : k = ExposeSleep → a control_id → w ≠ WorkDone;
  si_hide : k = HideSleep → a control_id → 0 < n ∨ ∃ t, releasing (phase_of U t) = true;
  si_writer t : phase_of U t = HoldSleep → a (user_id t) → hold = true
}.

Lemma users_in_threads s n m k U : users_inv s n m k U → Z.of_nat (size U) < 2 ^ 31 - 1.
Proof. intros I. pose proof (subseteq_size _ _ (ui_dom _ _ _ _ _ I)) as Hs. rewrite size_dom in Hs. lia. Qed.

Lemma refs_bound s n m k U : users_inv s n m k U → count_refs U < 2 ^ 31 - 1.
Proof.
  intros I. pose proof (users_in_threads _ _ _ _ _ I). pose proof (mcount_size (λ p, counted p = true) U).
  unfold count_refs. lia.
Qed.

Lemma users_disk s n m k U : users_inv s n m k U → ∃ d, bdev_gd s = Some d.
Proof. intros I. pose proof (ui_disk _ _ _ _ _ I) as Hd. case_decide; [apply Hd|]. destruct Hd as [(d & _ & D & _) _ _]. eauto. Qed.

(** Only one user has the mutex. *)
Lemma mutex_one s n m k U t t' : users_inv s n m k U → locked (phase_of U t) = true → locked (phase_of U t') = true → t' = t.
Proof. intros I Ht%(ui_mutex _ _ _ _ _ I) Ht'%(ui_mutex _ _ _ _ _ I). congruence. Qed.

(** A step of one user. *)
Lemma user_moves s s' n n' m m' k U t p :
  users_inv s n m k U → t ∈ threads →
  (if decide (k = Hidden) then (∃ d, bdev_gd s' = Some d) ∧ core_refs (log s') = 0 else opened_by s' (count_refs (<[t := p]> U))) →
  n' = count_opened (<[t := p]> U) → (dying s → dying s') →
  (m' = if locked p then Some t else if locked (phase_of U t) then None else m) →
  (locked p = true → locked (phase_of U t) = false → m = None) →
  (shut k = true → p ≠ Opening ∧ p ≠ Counting) → (finished k = true → p ≠ Opened) → (k = Hidden → locked p = false) →
  users_inv s' n' m' k (<[t := p]> U).
Proof.
  intros I Ht Hd -> Hdy Hm Hfree Hshut Hfin Hhid. split; try done.
  - rewrite dom_insert. pose proof (ui_dom _ _ _ _ _ I). set_solver.
  - intros t'. rewrite phase_insert, Hm. pose proof (ui_mutex _ _ _ _ _ I t') as Ht'. pose proof (ui_mutex _ _ _ _ _ I t) as Hown.
    destruct (decide (t' = t)) as [->|E]; [destruct (locked p), (locked (phase_of U t)); naive_solver congruence|].
    destruct (locked p) eqn:Ep, (locked (phase_of U t)) eqn:El; split; intros X; try congruence.
    + apply Ht' in X. pose proof (proj1 Hown eq_refl). congruence.
    + apply Ht' in X. rewrite (Hfree eq_refl eq_refl) in X. done.
    + apply Ht' in X. pose proof (proj1 Hown eq_refl). congruence.
    + by apply Ht'.
    + by apply Ht'.
  - intros Hk. by apply Hdy, I.
  - intros t' Hk. rewrite phase_insert. destruct (decide (t' = t)); [by apply Hshut|by apply I].
  - intros Hk. rewrite count_opened_insert. pose proof (ui_openers _ _ _ _ _ I) as Ho. rewrite (ui_finish _ _ _ _ _ I Hk) in Ho.
    rewrite (decide_False (P := p = Opened)) by (by apply Hfin). destruct (decide (phase_of U t = Opened)) as [E|]; [|lia].
    pose proof (count_opened_pos _ _ E). lia.
  - intros t' Hk. rewrite phase_insert. destruct (decide (t' = t)); [by apply Hhid|by apply I].
Qed.

(** A step of one user keeps the wake-ups. *)
Lemma sleep_moves (a a' : nat → Prop) w k n n' U t p hold :
  sleep_inv a w k n U hold →
  (∀ i, a' i → (a i ∧ (i = user_id t → p = HoldSleep)) ∨ (i = user_id t ∧ p = HoldSleep ∧ hold = true)) →
  (k = HideSleep → a' control_id → 0 < n ∨ (∃ t', releasing (phase_of U t') = true) →
     0 < n' ∨ ∃ t', releasing (phase_of (<[t := p]> U) t') = true) →
  sleep_inv a' w k n' (<[t := p]> U) hold.
Proof.
  intros [Hq He Hh Hw] Ha Hrel.
  assert (∀ t', control_id ≠ user_id t') as Hc by (intros t'; unfold control_id, user_id; lia).
  split.
  - intros i Hi. destruct (Ha i Hi) as [[Hai Hp]|(-> & -> & _)].
    + destruct (Hq i Hai) as [?|(t' & -> & Ht')]; [by left|]. right. exists t'. split; [done|]. rewrite phase_insert.
      destruct (decide (t' = t)) as [->|]; [by apply Hp|done].
    + right. exists t. by rewrite phase_insert, decide_True.
  - intros Hk Hi. destruct (Ha _ Hi) as [[Hai _]|(E & _)]; [by apply He|by apply Hc in E].
  - intros Hk Hi. apply Hrel; [done..|]. destruct (Ha _ Hi) as [[Hai _]|(E & _)]; [by apply Hh|by apply Hc in E].
  - intros t'. rewrite phase_insert. intros Hp Hi. destruct (Ha _ Hi) as [[Hai Hpt]|(_ & _ & ?)]; [|done].
    destruct (decide (t' = t)) as [->|]; [|by apply (Hw t')].
    destruct (Hq _ Hai) as [[E _]|(t'' & E & Ht'')]; [by apply eq_sym, Hc in E|].
    apply Pos2Nat.inj in E as <-. by apply (Hw t).
Qed.

Lemma releasing_stays n n' U t p :
  n <= n' → releasing (phase_of U t) = false →
  0 < n ∨ (∃ t', releasing (phase_of U t') = true) → 0 < n' ∨ ∃ t', releasing (phase_of (<[t := p]> U) t') = true.
Proof.
  intros Hn Ht [?|[t' Ht']]; [left; lia|]. right. exists t'. rewrite phase_insert, decide_False; congruence.
Qed.

(** If another changes than the users, who sleeps has been asleep. *)
Lemma sleep_fewer (a a' : nat → Prop) w w' k n U hold hold' :
  sleep_inv a w k n U hold → (∀ i, a' i → a i) → (k = ExposeSleep → a' control_id → w' ≠ WorkDone) →
  (∀ t, a' (user_id t) → hold' = true) → sleep_inv a' w' k n U hold'.
Proof. intros [Hq He Hh Hw] Ha Hx Ht. split; eauto. Qed.

(** The control thread goes on. *)
Lemma sleep_control (a a' : nat → Prop) w w' k k' n U hold :
  sleep_inv a w k n U hold → (∀ i, a' i → (a i ∧ i ≠ control_id) ∨ (i = control_id ∧ (k' = ExposeSleep ∨ k' = HideSleep))) →
  (k' = ExposeSleep → a' control_id → w' ≠ WorkDone) →
  (k' = HideSleep → a' control_id → 0 < n ∨ ∃ t, releasing (phase_of U t) = true) →
  sleep_inv a' w' k' n U hold.
Proof.
  intros [Hq He Hh Hw] Ha Hx Hr. split; [|done..|].
  - intros i Hi. destruct (Ha i Hi) as [[Hai Hn]|?]; [|by left]. destruct (Hq i Hai) as [[? _]|?]; [done|by right].
  - intros t Ht Hi. destruct (Ha _ Hi) as [[Hai _]|[E _]]; [by apply (Hw t)|]. unfold user_id, control_id in E. lia.
Qed.

Context {Q : Type} `{WaitQueueLaws Q} `{DiskEnvLaws}.
Implicit Types (c : scene Q).

Record scene_inv c : Prop := {
  sc_users : users_inv (the_dstate c) (bd_openers c) (open_mutex c) (control c) (users c);
  sc_param : param_inv (param c) (worker c) (control c);
  sc_added : added c = has_added (worker c) && negb (deleted (control c));
  sc_sleep : sleep_inv (λ i, asleep i c) (worker c) (control c) (bd_openers c) (users c) (held_off (the_dstate c))
}.

Lemma asleep_begin i j c : ¬ asleep j c → asleep i (sleep_begin j c) ↔ i = j ∨ asleep i c.
Proof.
  intros Hn. unfold asleep, sleep_begin, fusion_condvar_wait_begin in *. simpl.
  by rewrite (wq_waiters_prepare j (state_cv c) Hn), elem_of_cons.
Qed.
Lemma asleep_end i j c : asleep i (sleep_end j c) ↔ i ≠ j ∧ asleep i c.
Proof. unfold asleep, sleep_end. simpl. apply wait_end_elem. Qed.
Lemma asleep_broadcast i c : ¬ asleep i (broadcast c).
Proof.
  unfold asleep, broadcast, fusion_condvar_broadcast. simpl. rewrite (proj2 (wq_wake_up_all_spec (state_cv c))).
  apply not_elem_of_nil.
Qed.

Lemma sleeper_phase c t : scene_inv c → asleep (user_id t) c → user c t = HoldSleep.
Proof.
  intros I Ha. destruct (si_queue _ _ _ _ _ _ (sc_sleep _ I) _ Ha) as [[E _]|(t' & E & Ht)].
  - unfold user_id, control_id in E. lia.
  - by apply Pos2Nat.inj in E as <-.
Qed.
Lemma control_phase_asleep c : scene_inv c → asleep control_id c → control c = ExposeSleep ∨ control c = HideSleep.
Proof.
  intros I Ha. destruct (si_queue _ _ _ _ _ _ (sc_sleep _ I) _ Ha) as [[_ E]|(t & E & _)]; [done|].
  unfold user_id, control_id in E. lia.
Qed.

(** ** Writers *)

Definition writing (p : user_phase) : bool :=
  match p with Idle | HoldLoop | HoldTest | HoldSleep => true | _ => false end.

(** The steps of a writer touch neither the disk nor the openers. *)
Lemma writer_moves c c' t p :
  scene_inv c → t ∈ threads → writing (user c t) = true → writing p = true →
  the_dstate c' = the_dstate c → bd_openers c' = bd_openers c → open_mutex c' = open_mutex c → added c' = added c →
  param c' = param c → worker c' = worker c → control c' = control c → users c' = <[t := p]> (users c) →
  (∀ i, asleep i c' → (asleep i c ∧ (i = user_id t → p = HoldSleep)) ∨ (i = user_id t ∧ p = HoldSleep ∧ held_off (the_dstate c) = true)) →
  scene_inv c'.
Proof.
  intros I Ht Hw Hp E1 E2 E3 E4 E5 E6 E7 E8 Ha. pose proof I as [Iu Ip Ia Is].
  change (user c t) with (phase_of (users c) t) in Hw.
  assert (locked (phase_of (users c) t) = false ∧ counted (phase_of (users c) t) = false ∧ phase_of (users c) t ≠ Opened
    ∧ releasing (phase_of (users c) t) = false) as (Hl & Hc & Ho & Hr) by (by destruct (phase_of (users c) t)).
  assert (locked p = false ∧ counted p = false ∧ p ≠ Opened ∧ p ≠ Opening ∧ p ≠ Counting) as (Hl' & Hc' & Ho' & Hop & Hcn) by (by destruct p).
  split; rewrite ?E1, ?E2, ?E3, ?E4, ?E5, ?E6, ?E7, ?E8; try done.
  - eapply (user_moves _ _ _ _ (open_mutex c)); try done; try (by rewrite ?Hl, ?Hl').
    + rewrite count_refs_same by congruence. apply Iu.
    + rewrite count_opened_same by tauto. apply Iu.
  - eapply sleep_moves; [done..|]. intros _ _. by apply releasing_stays.
Qed.

Lemma holdoff_runs c : scene_inv c → should_holdoff_writes c = Ok (held_off (the_dstate c)).
Proof.
  intros I. destruct (users_disk _ _ _ _ _ (sc_users _ I)) as [d Hd]. unfold should_holdoff_writes, held_off. by rewrite Hd.
Qed.

Lemma hold_test_inv c0 c t :
  scene_inv c0 → t ∈ threads → writing (user c0 t) = true → (c = c0 ∧ user c0 t = HoldTest ∨ c = sleep_end (user_id t) c0) →
  ∃ c', hold_test t c = Ok c' ∧ scene_inv c'.
Proof.
  intros I Ht Hw Hc. unfold hold_test.
  assert (¬ asleep (user_id t) c) as Hn.
  { destruct Hc as [[-> Hp]| ->]; [|rewrite asleep_end; naive_solver]. intros Ha. apply sleeper_phase in Ha; [congruence|done]. }
  assert (∀ i, asleep i c → asleep i c0) as Hfew by (destruct Hc as [[-> _]| ->]; [done|intros i; rewrite asleep_end; tauto]).
  assert (should_holdoff_writes c = Ok (held_off (the_dstate c0))) as -> by (destruct Hc as [[-> _]| ->]; exact (holdoff_runs c0 I)).
  simpl. destruct (held_off _) eqn:Eh; (eexists; split; [done|]).
  - apply (writer_moves c0 _ t HoldSleep); try done; try (by destruct Hc as [[-> _]| ->]).
    intros i. change (asleep i (set_user t HoldSleep (sleep_begin (user_id t) c))) with (asleep i (sleep_begin (user_id t) c)).
    rewrite asleep_begin by done. intros [->|Hi]; [by right|left; auto].
  - apply (writer_moves c0 _ t HoldLoop); try done; try (by destruct Hc as [[-> _]| ->]).
    intros i. change (asleep i (set_user t HoldLoop c)) with (asleep i c). intros Hi. left. split; [auto|]. intros ->. done.
Qed.

(** ** Opening and closing *)

(** The steps of one who opens or closes the disk. *)
Lemma door_moves c c' t p :
  scene_inv c → user c t ≠ HoldSleep →
  added c' = added c → param c' = param c → worker c' = worker c → control c' = control c → users c' = <[t := p]> (users c) →
  held_off (the_dstate c') = held_off (the_dstate c) → (∀ i, asleep i c' → asleep i c) →
  users_inv (the_dstate c') (bd_openers c') (open_mutex c') (control c) (<[t := p]> (users c)) →
  (control c = HideSleep → asleep control_id c' → 0 < bd_openers c ∨ (∃ t', releasing (phase_of (users c) t') = true) →
     0 < bd_openers c' ∨ ∃ t', releasing (phase_of (<[t := p]> (users c)) t') = true) →
  scene_inv c'.
Proof.
  intros I Hp E4 E5 E6 E7 E8 Eh Ha Hu Hr. pose proof I as [Iu Ip Ia Is].
  split; rewrite ?E4, ?E5, ?E6, ?E7, ?E8, ?Eh; try done.
  eapply sleep_moves; [done| |done]. intros i Hi. left. split; [by apply Ha|]. intros ->.
  apply Ha, sleeper_phase in Hi; done.
Qed.

(** The state of the disk that the users find. *)
Lemma disk_there c t : scene_inv c → locked (user c t) = true → opened_by (the_dstate c) (count_refs (users c)) ∧ control c ≠ Hidden.
Proof.
  intros I Hl. pose proof (sc_users _ I) as Iu. change (user c t) with (phase_of (users c) t) in Hl.
  assert (control c ≠ Hidden) as Hk by (intros Hk; by rewrite (ui_hidden _ _ _ _ _ Iu t Hk) in Hl).
  pose proof (ui_disk _ _ _ _ _ Iu) as Hd. by rewrite decide_False in Hd.
Qed.

Lemma opening_inv c t r :
  scene_inv c → t ∈ threads → user c t = Opening → ∃ c', user_step t r c = Ok c' ∧ scene_inv c'.
Proof.
  intros I Ht Hp. pose proof (sc_users _ I) as Iu. destruct (disk_there c t I) as [Hd Hk]; [by rewrite Hp|].
  change (user c t) with (phase_of (users c) t) in Hp.
  assert (shut (control c) = false) as Hs.
  { destruct (shut _) eqn:E; [|done]. by destruct (proj1 (ui_shut _ _ _ _ _ Iu t E)). }
  assert (finished (control c) = false) as Hf by (by destruct (control c)).
  destruct (open_disk_spec _ _ r Hd (refs_bound _ _ _ _ _ Iu)) as (v & s' & E & Ho).
  assert ((dying (the_dstate c) → dying s') ∧ held_off s' = held_off (the_dstate c)) as [Hdy Hh].
  { destruct (open_disk_recounts _ _ _ _ _ Hd E) as [->|Hr]; [done|by apply recounted_keeps]. }
  unfold user_step. change (user c t) with (phase_of (users c) t). rewrite Hp. unfold on_disk. rewrite E. simpl.
  destruct (v =? 0); (eexists; split; [done|]).
  all: eapply (door_moves c _ t); try done; [by change (phase_of (users c) t ≠ HoldSleep); rewrite Hp| |intros _ _; apply releasing_stays; [done|by rewrite Hp]].
  all: eapply (user_moves _ _ _ _ (open_mutex c)); try done; rewrite ?decide_False, ?Hp, ?Hs, ?Hf by done; try done.
  - rewrite count_refs_insert, Hp, decide_False, decide_True by done. by rewrite Z.sub_0_r.
  - simpl. rewrite count_opened_same by (rewrite Hp; done). apply Iu.
  - simpl. by apply (ui_mutex _ _ _ _ _ Iu); rewrite Hp.
  - rewrite count_refs_same by (by rewrite Hp). done.
  - simpl. rewrite count_opened_same by (rewrite Hp; done). apply Iu.
Qed.

Lemma counting_inv c t r :
  scene_inv c → t ∈ threads → user c t = Counting → ∃ c', user_step t r c = Ok c' ∧ scene_inv c'.
Proof.
  intros I Ht Hp. pose proof (sc_users _ I) as Iu. destruct (disk_there c t I) as [Hd Hk]; [by rewrite Hp|].
  change (user c t) with (phase_of (users c) t) in Hp.
  assert (shut (control c) = false) as Hs.
  { destruct (shut _) eqn:E; [|done]. by destruct (proj2 (ui_shut _ _ _ _ _ Iu t E)). }
  assert (finished (control c) = false) as Hf by (by destruct (control c)).
  unfold user_step. change (user c t) with (phase_of (users c) t). rewrite Hp. eexists. split; [done|].
  eapply (door_moves c _ t Opened); try done.
  - by change (phase_of (users c) t ≠ HoldSleep); rewrite Hp.
  - eapply (user_moves _ _ _ _ (open_mutex c)); try done; rewrite ?Hp, ?Hs, ?Hf; try done.
    + rewrite decide_False by done. by rewrite count_refs_same by (by rewrite Hp).
    + simpl. rewrite count_opened_insert, Hp, decide_False, decide_True by done.
      rewrite (ui_openers _ _ _ _ _ Iu). lia.
  - intros _ _. apply releasing_stays; [simpl; lia|by rewrite Hp].
Qed.

(** Another opener than the one that is about to release the disk is counted by the
    kernel too. *)
Lemma other_opener c t :
  scene_inv c → user c t = Closing → 1 < count_refs (users c) → 0 < bd_openers c.
Proof.
  intros I Hp Hn. pose proof (sc_users _ I) as Iu. change (user c t) with (phase_of (users c) t) in Hp.
  assert (count_refs (<[t := Idle]> (users c)) ≠ 0) as Hne.
  { rewrite count_refs_insert, Hp, decide_True, decide_False by done. lia. }
  destruct (count_refs_some _ Hne) as [t' Ht']. rewrite phase_insert in Ht'. destruct (decide (t' = t)) as [|Hd]; [done|].
  rewrite (ui_openers _ _ _ _ _ Iu). apply (count_opened_pos _ t').
  destruct (phase_of (users c) t') eqn:E; try done; exfalso; apply Hd;
    apply (mutex_one _ _ _ _ _ t t' Iu); by rewrite ?Hp, ?E.
Qed.

Lemma closing_inv c t r :
  scene_inv c → t ∈ threads → user c t = Closing → ∃ c', user_step t r c = Ok c' ∧ scene_inv c'.
Proof.
  intros I Ht Hp. pose proof (sc_users _ I) as Iu. destruct (disk_there c t I) as [Hd Hk]; [by rewrite Hp|].
  pose proof (other_opener c t I Hp) as Hother.
  change (user c t) with (phase_of (users c) t) in Hp.
  assert (0 < count_refs (users c)) as Hpos by (apply (count_refs_pos _ t); by rewrite Hp).
  destruct (close_disk_spec _ _ Hd Hpos) as (s' & E & Ho).
  destruct (close_disk_tells _ _ _ Hd Hpos E) as [[Hdy Hh]%recounted_keeps Htell].
  unfold user_step. change (user c t) with (phase_of (users c) t). rewrite Hp. unfold on_disk. rewrite E. simpl.
  destruct (tells _ _) eqn:Et; (eexists; split; [done|]).
  all: eapply (door_moves c _ t); try done; [by change (phase_of (users c) t ≠ HoldSleep); rewrite Hp| |].
  1, 3: eapply (user_moves _ _ _ _ (open_mutex c)); try done; rewrite ?decide_False, ?Hp by done; try done.
  1, 4: by rewrite count_refs_insert, Hp, decide_True, decide_False, Z.add_0_r by done.
  1, 3: simpl; rewrite count_opened_same by (rewrite Hp; done); apply Iu.
  - simpl. by apply (ui_mutex _ _ _ _ _ Iu); rewrite Hp.
  - intros _ _ _. right. exists t. by rewrite phase_insert, decide_True.
  - intros Hc _ _. left. simpl. apply Hother. specialize (Htell (ui_dying _ _ _ _ _ Iu ltac:(by rewrite Hc))).
    symmetry in Htell. apply bool_decide_eq_false in Htell. lia.
Qed.

Lemma telling_inv c t r :
  scene_inv c → t ∈ threads → user c t = Telling → ∃ c', user_step t r c = Ok c' ∧ scene_inv c'.
Proof.
  intros I Ht Hp. pose proof (sc_users _ I) as Iu. destruct (disk_there c t I) as [Hd Hk]; [by rewrite Hp|].
  change (user c t) with (phase_of (users c) t) in Hp.
  unfold user_step. change (user c t) with (phase_of (users c) t). rewrite Hp. eexists. split; [done|].
  assert (∀ i, ¬ asleep i (set_user t Idle (set_mutex None (broadcast c)))) as Hn by (intros i; apply asleep_broadcast).
  eapply (door_moves c _ t Idle); try done.
  - by change (phase_of (users c) t ≠ HoldSleep); rewrite Hp.
  - intros i Hi. by apply Hn in Hi.
  - eapply (user_moves _ _ _ _ (open_mutex c)); try done; rewrite ?Hp; try done.
    + rewrite decide_False by done. by rewrite count_refs_same by (by rewrite Hp).
    + simpl. rewrite count_opened_same by (rewrite Hp; done). apply Iu.
  - intros _ Hi. by apply Hn in Hi.
Qed.

Lemma start_open_inv c t :
  scene_inv c → t ∈ threads → ∃ c', wait_step (StartOpen t) c = Ok c' ∧ scene_inv c'.
Proof.
  intros I Ht. simpl. eexists. split; [done|]. destruct (_ && _) eqn:E; [|done].
  apply andb_true_iff in E as [[Hp%bool_decide_eq_true Had]%andb_true_iff Hm%bool_decide_eq_true].
  pose proof (sc_users _ I) as Iu. change (user c t) with (phase_of (users c) t) in Hp.
  assert (shut (control c) = false ∧ finished (control c) = false ∧ control c ≠ Hidden) as (Hs & Hf & Hk).
  { rewrite (sc_added _ I) in Had. apply andb_true_iff in Had as [_ Hd%negb_true_iff]. by destruct (control c). }
  eapply (door_moves c _ t Opening); try done.
  - by change (phase_of (users c) t ≠ HoldSleep); rewrite Hp.
  - eapply (user_moves _ _ _ _ (open_mutex c)); try done; rewrite ?Hp, ?Hs, ?Hf; try done.
    + rewrite decide_False by done. rewrite count_refs_same by (by rewrite Hp).
      pose proof (ui_disk _ _ _ _ _ Iu) as Hd. by rewrite decide_False in Hd.
    + simpl. rewrite count_opened_same by (rewrite Hp; done). apply Iu.
  - intros _ _. apply releasing_stays; [done|by rewrite Hp].
Qed.

Lemma start_close_inv c t :
  scene_inv c → t ∈ threads → ∃ c', wait_step (StartClose t) c = Ok c' ∧ scene_inv c'.
Proof.
  intros I Ht. simpl. eexists. split; [done|]. destruct (_ && _) eqn:E; [|done].
  apply andb_true_iff in E as [Hp%bool_decide_eq_true Hm%bool_decide_eq_true].
  pose proof (sc_users _ I) as Iu. change (user c t) with (phase_of (users c) t) in Hp.
  pose proof (count_opened_pos _ _ Hp) as Hpos. pose proof (ui_openers _ _ _ _ _ Iu) as Ho.
  assert (control c ≠ Hidden) as Hk.
  { intros Hk. assert (bd_openers c = 0) by (apply Iu; by rewrite Hk). lia. }
  eapply (door_moves c _ t Closing); try done.
  - by change (phase_of (users c) t ≠ HoldSleep); rewrite Hp.
  - eapply (user_moves _ _ _ _ (open_mutex c)); try done; rewrite ?Hp; try done.
    + rewrite decide_False by done. rewrite count_refs_same by (by rewrite Hp).
      pose proof (ui_disk _ _ _ _ _ Iu) as Hd. by rewrite decide_False in Hd.
    + simpl. rewrite count_opened_insert, Hp, decide_True, decide_False by done. lia.
  - intros _ _ _. right. exists t. by rewrite phase_insert, decide_True.
Qed.

Lemma writer_step_inv c c' t p :
  scene_inv c → t ∈ threads → writing (user c t) = true → writing p = true → (user c t ≠ HoldSleep ∨ c' = sleep_end (user_id t) c) →
  c' = c ∨ c' = sleep_end (user_id t) c → p ≠ HoldSleep → scene_inv (set_user t p c').
Proof.
  intros I Ht Hw Hp Hs Hc Hn. apply (writer_moves c _ t p); try done; try (by destruct Hc as [->| ->]).
  intros i. change (asleep i (set_user t p c')) with (asleep i c'). intros Hi. left.
  destruct Hc as [-> | ->].
  - split; [done|]. intros ->. destruct Hs as [Hs|E]; [by apply sleeper_phase in Hi|].
    rewrite E in Hi. apply asleep_end in Hi. tauto.
  - apply asleep_end in Hi. tauto.
Qed.

Lemma user_step_inv c t r :
  scene_inv c → t ∈ threads → ∃ c', user_step t r c = Ok c' ∧ scene_inv c'.
Proof.
  intros I Ht. destruct (user c t) eqn:Hp; try (by eauto using opening_inv, counting_inv, closing_inv, telling_inv);
    unfold user_step; rewrite Hp; try (by eexists).
  - unfold hold_loop. rewrite holdoff_runs by done. eexists. split; [done|].
    apply (writer_step_inv c); rewrite ?Hp; auto; by destruct (held_off _).
  - apply (hold_test_inv c); auto. by rewrite Hp.
  - case_decide; [by eexists|]. apply (hold_test_inv c); auto. by rewrite Hp.
Qed.

(** ** Exposing and hiding *)

Lemma control_moves c c' :
  scene_inv c → bd_openers c' = bd_openers c → users c' = users c →
  held_off (the_dstate c') = held_off (the_dstate c) →
  users_inv (the_dstate c') (bd_openers c) (open_mutex c') (control c') (users c) →
  param_inv (param c') (worker c') (control c') → added c' = has_added (worker c') && negb (deleted (control c')) →
  (∀ i, asleep i c' → (asleep i c ∧ i ≠ control_id) ∨ (i = control_id ∧ (control c' = ExposeSleep ∨ control c' = HideSleep))) →
  (control c' = ExposeSleep → worker c' ≠ WorkDone) → (control c' = HideSleep → 0 < bd_openers c) →
  scene_inv c'.
Proof.
  intros [Iu Ip Ia Is] E1 E2 Eh Hu Hp Ha Hi Hx Hs. split; rewrite ?E1, ?E2, ?Eh; try done.
  eapply sleep_control; [done|done|by intros; apply Hx|]. intros Hk _. left. by apply Hs.
Qed.

(** The users find nothing changed when the thread goes on. *)
Lemma users_control s n m k k' U :
  users_inv s n m k U → k ≠ Hidden → k' ≠ Hidden → (marked k' = true → marked k = true) →
  (shut k' = true → shut k = true ∨ m = None) → (finished k' = true → n = 0) → users_inv s n m k' U.
Proof.
  intros I Hk Hk' Hm Hs Hf. pose proof (ui_disk _ _ _ _ _ I) as Hd. rewrite decide_False in Hd by done.
  split; try apply I; try done.
  - by rewrite decide_False.
  - intros Hmk. by apply I, Hm.
  - intros t Ht. destruct (Hs Ht) as [Hsk|Hmn]; [by apply (ui_shut _ _ _ _ _ I)|].
    assert (locked (phase_of U t) = false) as Hl.
    { destruct (locked _) eqn:E; [|done]. apply (ui_mutex _ _ _ _ _ I) in E. congruence. }
    by destruct (phase_of U t).
Qed.

Lemma control_awake c k : scene_inv c → control c = k → k ≠ ExposeSleep → k ≠ HideSleep → ¬ asleep control_id c.
Proof. intros I Hk Hx Hh [E|E]%control_phase_asleep; congruence. Qed.

(** Where the thread does not sleep before or after a step that leaves the queue. *)
Lemma awake_stays c (P : nat → Prop) : ¬ asleep control_id c → ∀ i, asleep i c → (asleep i c ∧ i ≠ control_id) ∨ P i.
Proof. intros Hn i Hi. left. split; [done|]. by intros ->. Qed.

Lemma expose_test_inv c0 c :
  scene_inv c0 → (c = c0 ∧ control c0 = ExposeTest) ∨ (c = sleep_end control_id c0 ∧ control c0 = ExposeSleep) →
  ∃ c', expose_test c = Ok c' ∧ scene_inv c'.
Proof.
  intros I Hc. pose proof I as [Iu Ip Ia Is].
  assert (param c = Some (bool_decide (worker c = WorkDone)) ∧ worker c ≠ NoWork) as [Hp Hw].
  { destruct Hc as [[-> Hk]|[-> Hk]]; rewrite Hk in Ip; by destruct Ip. }
  assert (¬ asleep control_id c) as Hn.
  { destruct Hc as [[-> Hk]|[-> Hk]]; [by apply (control_awake _ _ I Hk)|]. rewrite asleep_end. tauto. }
  assert (∀ i, asleep i c → asleep i c0) as Hfew by (destruct Hc as [[-> _]|[-> _]]; [done|intros i; rewrite asleep_end; tauto]).
  assert (users_inv (the_dstate c) (bd_openers c) (open_mutex c) (control c) (users c) ∧ added c = has_added (worker c)
    ∧ control c ≠ Hidden) as (Iu' & Ha & Hk).
  { destruct Hc as [[-> Hk]|[-> Hk]]; simpl; rewrite Ia, Hk in *; simpl; by rewrite andb_true_r. }
  unfold expose_test. rewrite Hp. simpl.
  destruct (decide (worker c = WorkDone)) as [E|E].
  - rewrite bool_decide_true by done. simpl. eexists. split; [done|].
    apply (control_moves c0); try done; simpl; try (by destruct Hc as [[-> _]|[-> _]]).
    + destruct Hc as [[-> _]|[-> _]]; eapply users_control; done.
    + by rewrite Hp, E, bool_decide_true.
    + by rewrite andb_true_r.
    + intros i Hi. left. split; [by apply Hfew|]. by intros ->.
  - rewrite bool_decide_false by done. simpl. eexists. split; [done|].
    apply (control_moves c0); try done; simpl; try (by destruct Hc as [[-> _]|[-> _]]).
    + destruct Hc as [[-> _]|[-> _]]; eapply users_control; done.
    + by rewrite andb_true_r.
    + intros i. change (asleep i (set_control ExposeSleep (sleep_begin control_id c))) with (asleep i (sleep_begin control_id c)).
      rewrite asleep_begin by done. intros [->|Hi]; [by right; auto|]. left. split; [by apply Hfew|]. by intros ->.
Qed.

Lemma hide_test_inv c0 c :
  scene_inv c0 → (c = c0 ∧ control c0 = HideTest) ∨ (c = sleep_end control_id c0 ∧ control c0 = HideSleep) →
  scene_inv (hide_test c).
Proof.
  intros I Hc. pose proof I as [Iu Ip Ia Is].
  assert (¬ asleep control_id c) as Hn.
  { destruct Hc as [[-> Hk]|[-> Hk]]; [by apply (control_awake _ _ I Hk)|]. rewrite asleep_end. tauto. }
  assert (∀ i, asleep i c → asleep i c0) as Hfew by (destruct Hc as [[-> _]|[-> _]]; [done|intros i; rewrite asleep_end; tauto]).
  assert (param c = None ∧ worker c = WorkDone ∧ added c = false ∧ bd_openers c = bd_openers c0) as (Hp & Hw & Ha & Ho).
  { destruct Hc as [[-> Hk]|[-> Hk]]; rewrite Hk in Ip; simpl in *; rewrite Ia, Hk, andb_false_r; by destruct Ip. }
  unfold hide_test. rewrite Ho, bdev_keeps_disk, andb_true_r. destruct (bd_openers c0 >? 0) eqn:Hg.
  - apply (control_moves c0); try done; simpl; try (by destruct Hc as [[-> _]|[-> _]]); try lia.
    + destruct Hc as [[-> Hk]|[-> Hk]]; rewrite Hk in Iu; (eapply users_control; [exact Iu|..]); simpl; auto; done.
    + by rewrite Hw.
    + intros i. change (asleep i (set_control HideSleep (sleep_begin control_id c))) with (asleep i (sleep_begin control_id c)).
      rewrite asleep_begin by done. intros [->|Hi]; [by right; auto|]. left. split; [by apply Hfew|]. by intros ->.
  - assert (0 <= bd_openers c0) by (rewrite (ui_openers _ _ _ _ _ Iu); apply mcount_nonneg).
    apply (control_moves c0); try done; simpl; try (by destruct Hc as [[-> _]|[-> _]]).
    + destruct Hc as [[-> Hk]|[-> Hk]]; rewrite Hk in Iu; (eapply users_control; [exact Iu|..]); simpl; auto; lia || done.
    + by rewrite Ha, andb_false_r.
    + intros i Hi. left. split; [by apply Hfew|]. by intros ->.
Qed.

(** The kernel's calls of [kfio_release] that have begun are over when the disk is given
    up. *)
Definition released_first c : Prop := control c = HideFinish → ∀ t, releasing (user c t) = false.

Lemma hide_finish_inv c :
  scene_inv c → control c = HideFinish → released_first c → ∃ c', control_step c = Ok c' ∧ scene_inv c'.
Proof.
  intros I Hk Hrel. pose proof I as [Iu Ip Ia Is]. rewrite Hk in Ip, Ia.
  assert (∀ t, locked (phase_of (users c) t) = false) as Hl.
  { intros t. destruct (ui_shut _ _ _ _ _ Iu t) as [Hno Hnc]; [by rewrite Hk|].
    pose proof (Hrel Hk t) as Hr. change (user c t) with (phase_of (users c) t) in Hr. by destruct (phase_of (users c) t). }
  assert (bd_openers c = 0) as Ho by (apply Iu; by rewrite Hk).
  assert (count_refs (users c) = 0) as Hc.
  { destruct (decide (count_refs (users c) = 0)) as [|Hne]; [done|]. destruct (count_refs_some _ Hne) as [t Ht].
    assert (phase_of (users c) t = Opened) as E by (specialize (Hl t); by destruct (phase_of (users c) t)).
    pose proof (count_opened_pos _ _ E). rewrite (ui_openers _ _ _ _ _ Iu) in Ho. lia. }
  destruct (users_disk _ _ _ _ _ Iu) as [d Hd].
  destruct (forget_disk_spec (the_dstate c)) as (s' & E & Hh & Hd' & Hlog); [eauto|].
  unfold control_step. rewrite Hk. unfold on_disk. rewrite E. simpl. eexists. split; [done|].
  apply (control_moves c); try done; simpl.
  - split; simpl; try apply Iu; try done.
    + split; [done|]. rewrite Hlog. pose proof (ui_disk _ _ _ _ _ Iu) as Hob.
      rewrite Hk, decide_False, Hc in Hob by done. by destruct Hob.
    + intros t _. specialize (Hl t). by destruct (phase_of (users c) t).
  - apply (awake_stays c). by apply (control_awake _ _ I Hk).
Qed.

Lemma control_step_inv c :
  scene_inv c → released_first c → ∃ c', control_step c = Ok c' ∧ scene_inv c'.
Proof.
  intros I Hrel. pose proof I as [Iu Ip Ia Is]. destruct (control c) eqn:Hk; simpl in Ip; destruct Ip as [Hp Hw].
  all: try (destruct (users_disk _ _ _ _ _ Iu) as [d Hd]).
  all: try (assert (¬ asleep control_id c) as Hn by (by apply (control_awake _ _ I Hk))).
  all: try (by apply hide_finish_inv). all: unfold control_step; rewrite Hk.
  - eexists. split; [done|]. apply (control_moves c); try done; simpl; try (by rewrite Ia, ?Hw); [by eapply users_control|exact (awake_stays c _ Hn)].
  - apply (expose_test_inv c); auto.
  - destruct (decide (asleep control_id c)); [by exists c|]. apply (expose_test_inv c); auto.
  - eexists. split; [done|]. apply (control_moves c); try done; simpl; try (by rewrite Ia, ?Hw); [by eapply users_control|exact (awake_stays c _ Hn)].
  - pose proof (ui_disk _ _ _ _ _ Iu) as Hob. simpl in Hob. destruct (mark_dying_spec _ _ Hob) as (s' & E & Ho' & Hdy & Hh).
    unfold on_disk. rewrite E. simpl. eexists. split; [done|].
    apply (control_moves c); try done; simpl; try (by rewrite Ia, ?Hw); [|exact (awake_stays c _ Hn)]. by split; simpl; try apply Iu.
  - eexists. split; [done|]. apply (control_moves c); try done; simpl; try (by rewrite Ia, ?Hw); [|by rewrite andb_false_r|exact (awake_stays c _ Hn)].
    by eapply users_control.
  - eexists. split; [done|]. destruct (open_mutex c) eqn:Em; [done|].
    apply (control_moves c); try done; simpl; try (by rewrite Ia, ?Hw); [|exact (awake_stays c _ Hn)].
    rewrite Em. eapply users_control; auto; done.
  - eexists. split; [done|]. apply (hide_test_inv c); auto.
  - eexists. split; [done|]. destruct (decide (asleep control_id c)); [done|]. apply (hide_test_inv c); auto.
  - by exists c.
Qed.

Lemma worker_step_inv c : scene_inv c → ∃ c', worker_step c = Ok c' ∧ scene_inv c'.
Proof.
  intros I. pose proof I as [Iu Ip Ia Is]. unfold worker_step. destruct (worker c) eqn:Hw; try by eexists.
  - eexists. split; [done|].
    assert (control c = ExposeTest ∨ control c = ExposeSleep) as Hk by (destruct (control c), Ip; auto; done).
    split; simpl; [done| | |].
    + destruct Hk as [Hk|Hk]; rewrite Hk in Ip |- *; simpl in *; by destruct Ip.
    + by destruct Hk as [-> | ->].
    + eapply sleep_fewer; [done|done|done|]. intros t Hi.
      apply (si_writer _ _ _ _ _ _ Is t); [|done]. by apply (sleeper_phase c).
  - assert (param c = Some false ∧ (control c = ExposeTest ∨ control c = ExposeSleep)) as [Hp Hk]
      by (destruct (control c), Ip; auto; done).
    unfold kfio_blk_add_disk_tell. rewrite Hp. simpl. eexists. split; [done|].
    assert (∀ i, ¬ asleep i (set_worker WorkDone (broadcast (set_param (Some true) c)))) as Hn
      by (intros i; apply asleep_broadcast).
    split; simpl; [done| | |].
    + by destruct Hk as [-> | ->].
    + by rewrite Ia.
    + eapply sleep_fewer; [done|..]; [intros i Hi|intros _ Hi|intros t Hi]; by apply Hn in Hi.
Qed.

(** ** Schedules *)

Lemma backpressure_inv c on : scene_inv c → ∃ c', wait_step (Backpressure on) c = Ok c' ∧ scene_inv c'.
Proof.
  intros I. pose proof I as [Iu Ip Ia Is]. destruct (backpressure_spec (the_dstate c) on) as (s' & E & Eh & Hdy & Hd' & Hl & Hob).
  { by eapply users_disk. }
  simpl. unfold on_disk. rewrite E. simpl. eexists. split; [done|].
  assert (users_inv s' (bd_openers c) (open_mutex c) (control c) (users c)) as Iu'.
  { split; try apply Iu; [|intros Hk; by apply Hdy, Iu]. pose proof (ui_disk _ _ _ _ _ Iu) as Hd.
    destruct (decide (control c = Hidden)); [|by apply Hob]. split; [done|]. rewrite Hl. apply Hd. }
  destruct on; (split; simpl; try done); rewrite Eh.
  - eapply sleep_fewer; [done|done|by apply (si_expose _ _ _ _ _ _ Is)|done].
  - assert (∀ i, ¬ asleep i (broadcast (set_disk s' c))) as Hn by (intros i; apply asleep_broadcast).
    eapply sleep_fewer; [done|intros i Hi|intros _ Hi|intros t Hi]; by apply Hn in Hi.
Qed.

Definition thread_of (a : wait_action) : option positive :=
  match a with User t _ | StartOpen t | StartClose t | StartWrite t | TimedOut t _ => Some t | _ => None end.

Definition allowed (a : wait_action) c : Prop := (∀ t, thread_of a = Some t → t ∈ threads) ∧ (a = Control → released_first c).

Fixpoint allowed_run (l : list wait_action) c : Prop :=
  match l with [] => True | a :: l => allowed a c ∧ ∀ c', wait_step a c = Ok c' → allowed_run l c' end.

Lemma wait_step_inv a c : scene_inv c → allowed a c → ∃ c', wait_step a c = Ok c' ∧ scene_inv c'.
Proof.
  intros I [Ht Hrel]. destruct a as [| |t r|t|t|t|t b|on]; try specialize (Ht t eq_refl).
  - by apply control_step_inv; auto.
  - by apply worker_step_inv.
  - by apply user_step_inv.
  - by apply start_open_inv.
  - by apply start_close_inv.
  - simpl. eexists. split; [done|]. case_bool_decide as Hp; [|done].
    apply (writer_step_inv c); rewrite ?Hp; auto.
  - simpl. eexists. split; [done|]. case_bool_decide as Hp; [|done].
    apply (writer_step_inv c); rewrite ?Hp; auto; by destruct b.
  - by apply backpressure_inv.
Qed.

Lemma run_waits_inv l c : scene_inv c → allowed_run l c → ∃ c', run_waits l c = Ok c' ∧ scene_inv c'.
Proof.
  revert c. induction l as [|a l IH]; intros c I Hl; simpl; [by eexists|]. destruct Hl as [Ha Hl].
  destruct (wait_step_inv a c I Ha) as (c' & E & I'). rewrite E. apply IH; auto.
Qed.

Lemma unexposed_inv s : opened_by s 0 → scene_inv (unexposed s).
Proof.
  intros Ho. assert (∀ t, phase_of ∅ t = Idle) as Hi by (intros t; unfold phase_of; by rewrite lookup_empty).
  assert (∀ i, ¬ asleep i (unexposed s)) as Hn.
  { intros i. unfold asleep, unexposed. simpl. rewrite wq_waiters_init. apply not_elem_of_nil. }
  split; simpl; try done. split; try done; intros *; try (intros Ha; by apply Hn in Ha).
Qed.

(** Whatever the others have done, the worker's two steps let the thread that exposes the
    disk finish. *)
Lemma expose_finishes c :
  scene_inv c → control c = ExposeTest ∨ control c = ExposeSleep →
  ∃ c', run_waits [Worker; Worker; Control; Control] c = Ok c' ∧ control c' = Live ∧ added c' = true ∧ param c' = None.
Proof.
  intros I Hk.
  assert (∃ c1, run_waits [Worker; Worker] c = Ok c1 ∧ scene_inv c1 ∧ worker c1 = WorkDone
    ∧ (control c1 = ExposeTest ∨ control c1 = ExposeSleep) ∧ param c1 = Some true) as (c1 & E1 & I1 & Hw1 & Hk1 & Hp1).
  { destruct (worker_step_inv c I) as (ca & Ea & Ia). destruct (worker_step_inv ca Ia) as (cb & Eb & Ib).
    exists cb. simpl. rewrite Ea. simpl. rewrite Eb. split; [done|]. split; [done|].
    pose proof (sc_param _ I) as Hp. assert (param c = Some (bool_decide (worker c = WorkDone)) ∧ worker c ≠ NoWork) as [Hpc Hw]
      by (destruct Hk as [Hk|Hk]; by rewrite Hk in Hp).
    unfold worker_step, kfio_blk_add_disk_tell in Ea, Eb. destruct (worker c) eqn:Ew; [done| | |]; rewrite ?Hpc in Ea;
      simplify_eq/=; try rewrite Hpc in Eb; rewrite ?Ew in *; simplify_eq/=; by rewrite ?bool_decide_true in Hpc. }
  assert (¬ (control c1 = ExposeSleep ∧ asleep control_id c1)) as Hn.
  { intros [Hs Ha]. by apply (si_expose _ _ _ _ _ _ (sc_sleep _ I1) Hs Ha). }
  pose proof (sc_added _ I1) as Had. simpl in E1. simpl.
  destruct (worker_step c) as [ca|]; [simpl in *|done]. destruct (worker_step ca) as [cb|]; [simpl in *|done]. injection E1 as ->.
  assert (∃ c2, control_step c1 = Ok c2 ∧ control c2 = ExposeFree ∧ added c2 = true) as (c2 & E2 & Hk2 & Ha2).
  { unfold control_step. destruct Hk1 as [Hk1|Hk1]; rewrite Hk1 in Had |- *; [|rewrite decide_False by naive_solver];
      unfold expose_test; simpl; rewrite Hp1; simpl; eexists; (split; [done|]); simpl; by rewrite Had, Hw1. }
  rewrite E2. simpl. unfold control_step. rewrite Hk2. simpl. by eexists.
Qed.

(** C4: From a disk that is about to be exposed, whatever its threads do and in whatever
    order, as long as the calls of [kfio_release] that have begun are over when the disk
    is given up: no call uses the worker's parameter or the disk's queue after it is
    gone; who sleeps has somebody to wake him: the one that exposes the disk the worker,
    which lets him finish in two steps, with the disk added and the parameter freed, the
    one that hides it an opener or a release that is under way, a writer the end of the
    back-pressure; and when the disk is hidden nobody has it open or is about to open or
    release it, and the core's device has been released as often as opened. *)
Theorem disk_waits s l :
  opened_by s 0 → allowed_run l (unexposed s) →
  ∃ c, run_waits l (unexposed s) = Ok c
    ∧ (control c = ExposeTest ∨ control c = ExposeSleep →
       ∃ c', run_waits [Worker; Worker; Control; Control] c = Ok c' ∧ control c' = Live ∧ added c' = true ∧ param c' = None)
    ∧ (control c = HideSleep → asleep control_id c → 0 < bd_openers c ∨ ∃ t, releasing (user c t) = true)
    ∧ (∀ t, asleep (user_id t) c → user c t = HoldSleep ∧ held_off (the_dstate c) = true)
    ∧ (control c = Hidden → bd_openers c = 0 ∧ core_refs (log (the_dstate c)) = 0 ∧ ∀ t, writing (user c t) = true).
Proof.
  intros Ho Hl. destruct (run_waits_inv l _ (unexposed_inv s Ho) Hl) as (c & E & I). exists c. split; [done|].
  pose proof I as [Iu Ip Ia Is]. split_and!.
  - by apply expose_finishes.
  - apply Is.
  - intros t Ha. assert (user c t = HoldSleep) as Hp by by apply sleeper_phase. split; [done|]. by apply (si_writer _ _ _ _ _ _ Is t).
  - intros Hk. assert (bd_openers c = 0) as H0' by (apply Iu; by rewrite Hk). split_and!; [done| |].
    + pose proof (ui_disk _ _ _ _ _ Iu) as Hd. rewrite decide_True in Hd by done. apply Hd.
    + intros t. pose proof (ui_hidden _ _ _ _ _ Iu t Hk) as Hl'. change (user c t) with (phase_of (users c) t).
      destruct (phase_of (users c) t) eqn:E'; try done. pose proof (count_opened_pos _ _ E').
      rewrite (ui_openers _ _ _ _ _ Iu) in H0'. lia.
Qed.

(** ** Concrete schedules *)

(** Decides [allowed_run] by running the schedule. *)
Definition released_firstb c : bool :=
  negb (bool_decide (control c = HideFinish)) || forallb (λ p : positive * user_phase, negb (releasing p.2)) (map_to_list (users c)).
Definition allowedb (a : wait_action) c : bool :=
  match thread_of a with Some t => bool_decide (t ∈ threads) | None => true end
  && match a with Control => released_firstb c | _ => true end.
Fixpoint allowed_runb (l : list wait_action) c : bool :=
  match l with [] => true | a :: l => allowedb a c && match wait_step a c with Ok c' => allowed_runb l c' | Fault _ => true end end.

Lemma released_firstb_sound c : released_firstb c = true → released_first c.
Proof.
  intros Hb Hk t. unfold released_firstb in Hb. rewrite bool_decide_eq_true_2 in Hb by done. simpl in Hb.
  unfold user. destruct (users c !! t) as [p|] eqn:E; [|done]. simpl. rewrite forallb_forall in Hb.
  apply negb_true_iff, (Hb (t, p)), list_elem_of_In, elem_of_map_to_list. done.
Qed.

Lemma allowed_runb_sound l c : allowed_runb l c = true → allowed_run l c.
Proof.
  revert c. induction l as [|a l IH]; intros c; [done|].
  cbn [allowed_runb allowed_run]. intros [[Ht Ha]%andb_true_iff Hl]%andb_true_iff. split.
  - split; [|intros ->; by apply released_firstb_sound]. intros t E. rewrite E in Ht. by apply bool_decide_eq_true in Ht.
  - intros c' E. rewrite E in Hl. by apply IH.
Qed.
End invariant.

(** The disk is exposed, while a writer waits for the back-pressure to end and wakes the
    exposing thread with it; a user opens it; it is hidden, and waits until the user has
    closed it. *)
Definition expose_schedule : list wait_action :=
  [Backpressure true; Control; StartWrite 2; User 2 0; User 2 0; Control; Backpressure false; Control; User 2 0; User 2 0;
   Worker; Worker; Control; Control].
Definition open_schedule : list wait_action := [StartOpen 1; User 1 0; User 1 0].
Definition hide_schedule : list wait_action := [Control; Control; Control; Control].
Definition close_schedule : list wait_action := [StartClose 1; User 1 0; User 1 0; Control; Control].

#[local] Instance plain_disk : DiskEnv := {| use_workqueue := USE_QUEUE_NONE; bd_disk_is_gd := true |}.
#[local] Instance plain_disk_laws : DiskEnvLaws.
Proof. by split. Qed.
Definition users_1_2 : gset positive := {[1%positive; 2%positive]}.

Lemma disk_waits_witness :
  ∃ c, run_waits (expose_schedule ++ open_schedule ++ hide_schedule ++ close_schedule) (unexposed (Q := list nat) exposed_state) = Ok c
    ∧ control c = Hidden ∧ core_refs (log (the_dstate c)) = 0.
Proof.
  assert (Z.of_nat (size users_1_2) < 2 ^ 31 - 1) as Hsize by (vm_compute; reflexivity).
  assert (allowed_run users_1_2 (expose_schedule ++ open_schedule ++ hide_schedule ++ close_schedule)
            (unexposed (Q := list nat) exposed_state)) as Hl by (apply allowed_runb_sound; vm_compute; reflexivity).
  destruct (disk_waits users_1_2 Hsize exposed_state _ exposed_opened_by Hl) as (c & E & _ & _ & _ & Hh).
  assert (control c = Hidden) as Hk by (vm_compute in E; by injection E as <-).
  exists c. split; [exact E|]. split; [exact Hk|]. by apply Hh.
Defined.

(** A close that has taken the last opener off the count when the disk is hidden: nothing
    waits for it, and it finds the disk without a queue. *)
Example late_release_faults :
  run_waits (expose_schedule ++ open_schedule ++ [Control; Control; Control; StartClose 1; Control; Control; User 1 0])
    (unexposed (Q := list nat) exposed_state) = Fault NullDeref.
Proof. by vm_compute. Qed.

(** Also when the hiding thread has gone to sleep, if the back-pressure ends meanwhile. *)
Example late_release_after_sleep :
  run_waits (expose_schedule ++ open_schedule ++ hide_schedule ++ [StartClose 1; Backpressure false; Control; Control; User 1 0])
    (unexposed (Q := list nat) exposed_state) = Fault NullDeref.
Proof. by vm_compute. Qed.
