(* ===== verification/KMq.v ===== *)
(** * The multi-queue path of the block device: kblock.c

    [fio_queue_rq] turns a [struct request] of the kernel into a request of the
    core and submits it; a request that the core is too busy to take is parked in
    [disk->fbio].  [kfio_req_completor] and [complete_list_entries] end the
    requests.  The entry that the completor links into the completion list is the
    field [disk->fbio] itself, seen as a list entry, so the field is one cell with
    two uses. *)
From S2P Require Import Prelude Ranges KScatter KScatterBio KBio KBioSpec KPlug KDisk.

(** ** Data *)

Abbreviation req_id := positive.

(** A [struct request], as the accessors of the kernel present it. *)
Record request := mk_req {
  rq_pos : Z;                 (* blk_rq_pos, sectors of 512 bytes *)
  rq_bytes : Z;               (* blk_rq_bytes, 32 bits *)
  rq_opf : Z;                 (* cmd_flags *)
  rq_sync : bool;             (* rq_is_sync *)
  rq_bios : list bio          (* __rq_for_each_bio *)
}.

Class MqLayer := { REQ_OP_FLUSH : Z; REQ_FUA : Z; BLK_STS_OK : Z; BLK_STS_RESOURCE : Z }.

(** The functions of the core, by the number of the call. *)
Class MqCore := {
  kfio_bio_try_alloc_result : nat → fio_bdev → option kfio_bio;
  kfio_bio_submit_handle_retryable_result : nat → Z
}.

Inductive mq_event :=
| StartRequest (r : req_id)
| SubmitReq (f : kfio_bio) (rc : Z)
| FreeReq (f : kfio_bio)
| DelayRunQueue
| RunHwQueues.

(** A pointer to a completion entry: the only entries ever linked are the field
    [fbio] of the disk. *)
Inductive entry_ptr := ENull | EDiskFbio.

#[global] Instance entry_ptr_eq_dec : EqDecision entry_ptr.
Proof. solve_decision. Defined.

(** What the word [disk->fbio] holds: a request that waits to be submitted again,
    or the [next] link of the list entry overlaid on it. *)
Inductive fbio_word := Parked (f : kfio_bio) | Link (p : entry_ptr).

(** The fields of [struct kfio_disk] that this path uses. *)
Record mq_disk := mk_mq {
  mq_fbio : fbio_word;            (* [Link ENull] is NULL *)
  comp_list : entry_ptr;          (* the head's next *)
  mq_completion : bool;           (* KFIO_DISK_COMPLETION *)
  last_dispatch : Z;
  mq_last_dispatch_rw : Z;
  mq_requests : gmap req_id request;
  mq_calls : nat;                 (* calls of the core made *)
  mq_log : list mq_event
}.

Abbreviation Q := (stateful mq_disk).

Definition put_fbio (v : fbio_word) : Q unit := modify (λ s,
  mk_mq v (comp_list s) (mq_completion s) (last_dispatch s) (mq_last_dispatch_rw s) (mq_requests s) (mq_calls s) (mq_log s)).
Definition put_comp_list (v : entry_ptr) : Q unit := modify (λ s,
  mk_mq (mq_fbio s) v (mq_completion s) (last_dispatch s) (mq_last_dispatch_rw s) (mq_requests s) (mq_calls s) (mq_log s)).
Definition put_completion (v : bool) : Q unit := modify (λ s,
  mk_mq (mq_fbio s) (comp_list s) v (last_dispatch s) (mq_last_dispatch_rw s) (mq_requests s) (mq_calls s) (mq_log s)).
Definition put_dispatch (d rw : Z) : Q unit := modify (λ s,
  mk_mq (mq_fbio s) (comp_list s) (mq_completion s) d rw (mq_requests s) (mq_calls s) (mq_log s)).
Definition call_core : Q nat := λ s,
  Ok (mq_calls s, mk_mq (mq_fbio s) (comp_list s) (mq_completion s) (last_dispatch s) (mq_last_dispatch_rw s)
                    (mq_requests s) (S (mq_calls s)) (mq_log s)).
Definition note (e : mq_event) : Q unit := modify (λ s,
  mk_mq (mq_fbio s) (comp_list s) (mq_completion s) (last_dispatch s) (mq_last_dispatch_rw s) (mq_requests s)
    (mq_calls s) (mq_log s ++ [e])).

(** A pointer to a request: the parameter of the core's request. *)
Definition the_request (p : option req_id) : Q (req_id * request) := λ s,
  match p with
  | None => Fault NullDeref
  | Some i => match mq_requests s !! i with None => Fault BadPointer | Some r => Ok ((i, r), s) end
  end.

Section mq.
Context `{BlockLayer} `{Core} `{MqLayer} `{MqCore}.

Definition req_op (r : request) : Z := op_of (rq_opf r).
Definition rq_is_write (r : request) : bool := is_write_of (rq_opf r).
Definition rq_is_empty_flush (r : request) : bool := (rq_bytes r =? 0) && (req_op r =? REQ_OP_FLUSH).

(** ** From a request to a request of the core *)

(** [__rq_for_each_bio (lbio, req) error = kfio_sgl_map_bio (fbio->fbio_sgl, lbio)],
    left at the first error. *)
Fixpoint map_rq_bios (lsg : linux_sgl) (bios : list bio) : outcome (linux_sgl * Z) :=
  match bios with
  | [] => mret (lsg, 0)
  | b :: bios =>
      '(lsg, error) ← kfio_sgl_map_bio lsg (bi_vecs b);
      if negb (error =? 0) then mret (lsg, error) else map_rq_bios lsg bios
  end.

Definition rq_flags (r : request) : Z :=
  if rq_sync r || negb (Z.land (rq_opf r) REQ_FUA =? 0) then KBIO_FLG_SYNC else 0.

(** A [can_block] of [true] takes [kfio_bio_alloc].  The request is returned
    whether or not the sizes agree: [error] is not used after the test. *)
Definition kfio_request_to_bio (enable_discard : bool) (bdev : fio_bdev) (i : req_id) (req : request)
    (can_block : bool) : Q (option kfio_bio) :=
  n ← call_core;
  match (if can_block then kfio_bio_alloc_result n bdev else kfio_bio_try_alloc_result n bdev) with
  | None => mret None
  | Some f =>
      let start := u64 (Z.shiftl (rq_pos req) 9) in
      let f := set_range (mk_range (start / bdev_block_size bdev) (rq_bytes req / bdev_block_size bdev)) f in
      let f := set_completion kfio_req_completor_cb (Some i) f in
      if rq_is_empty_flush req then
        let f := set_cmd KBIO_CMD_FLUSH f in
        let f := set_range (mk_range 0 (fr_length (fbio_range f))) f in
        mret (Some (set_flags (Z.lor (fbio_flags f) KBIO_FLG_SYNC) f))
      else if enable_discard && (req_op req =? REQ_OP_DISCARD) then
        mret (Some (set_cmd KBIO_CMD_DISCARD f))
      else
        let f := kfio_set_comp_cpu f in
        let f := if rq_is_write req
                 then set_flags (Z.lor (fbio_flags f) (rq_flags req)) (set_cmd KBIO_CMD_WRITE f)
                 else set_cmd KBIO_CMD_READ f in
        '(sgl, error) ← lift (map_rq_bios (fbio_sgl f) (rq_bios req));
        let f := set_sgl sgl f in
        if negb (error =? 0) then note (FreeReq f);; mret None
        else
          mapped ← lift (kfio_bio_chain_size_bytes [f]);
          let error := if negb (mapped =? kfio_sgl_size (fbio_sgl f)) then - EIO else error in
          mret (Some f)
  end.

(** ** Dispatch *)

(** The word [disk->fbio], read as a request of the core. *)
Definition parked_fbio : Q (option kfio_bio) := λ s,
  match mq_fbio s with
  | Parked f => Ok (Some f, s)
  | Link ENull => Ok (None, s)
  | Link EDiskFbio => Fault BadPointer
  end.

(** [kfio_bio_submit_handle_retryable] of a request. *)
Definition submit_handle_retryable (f : kfio_bio) : Q Z :=
  n ← call_core;
  let rc := kfio_bio_submit_handle_retryable_result n in
  note (SubmitReq f rc);; mret rc.

Definition fio_queue_rq (enable_discard : bool) (bdev : fio_bdev) (i : req_id) : Q Z :=
  '(_, req) ← the_request (Some i);
  fbio ← parked_fbio;
  fbio ← (match fbio with Some f => mret (Some f) | None => kfio_request_to_bio enable_discard bdev i req false end);
  match fbio with
  | None => note DelayRunQueue;; mret BLK_STS_RESOURCE
  | Some f =>
      let f := set_flags (Z.lor (fbio_flags f) KBIO_FLG_NONBLOCK) f in
      note (StartRequest i);;
      rc ← submit_handle_retryable f;
      if negb (rc =? 0) && kfio_bio_failure_is_retryable rc then
        put_fbio (Parked f);; note RunHwQueues;; mret BLK_STS_RESOURCE
      else mret BLK_STS_OK
  end.

(** ** Completion *)

(** [fusion_atomic_list_init(entry)] and [fusion_atomic_list_add(entry, &comp_list)]
    with [entry = &disk->fbio]. *)
Definition link_entry : Q unit :=
  put_fbio (Link ENull);;
  s ← get;
  put_fbio (Link (comp_list s));;
  put_comp_list EDiskFbio.

(** The loop takes the entry for a [struct kfio_bio] and reads its
    [fbio_parameter]; the entry is inside the disk. *)
Definition complete_list_entries : Q Z :=
  s ← get;
  let list := comp_list s in
  put_comp_list ENull;;
  match list with
  | ENull => mret 0
  | EDiskFbio => fail BadPointer
  end.

(** [polls]: what the calls of [fusion_spin_trylock_irqsave] that failed read from
    the completion bit before the one that got the lock. *)
Fixpoint get_queue_lock (polls : list bool) : bool :=
  match polls with
  | [] => true
  | completing :: polls => if completing then false else get_queue_lock polls
  end.

Definition kfio_req_completor (polls : list bool) (f : kfio_bio) : Q unit :=
  '(_, req) ← the_request (fbio_parameter f);
  let last_sector := u64 (rq_pos req + Z.shiftr (rq_bytes req) 9) in
  let last_rw := if rq_is_write req then 1 else 0 in
  link_entry;;
  if negb (get_queue_lock polls) then mret tt
  else
    s ← get;
    (if (last_dispatch s =? last_sector) && (mq_last_dispatch_rw s =? last_rw) then put_dispatch 0 (-1) else mret tt);;
    put_completion true;;
    _ ← complete_list_entries;
    put_completion false.

End mq.

(** * What the path does *)

Section mq_spec.
Context `{BlockLayer} `{Core} `{MqLayer} `{MqCore}.

(** A request of the pool is fresh, like those of [kfio_bio_alloc]. *)
Class MqCoreLaws : Prop := {
  try_alloc_fresh n bdev f :
    kfio_bio_try_alloc_result n bdev = Some f →
    sgl_wf (fbio_sgl f) ∧ num_entries (fbio_sgl f) = 0 ∧ fbio_bdev f = bdev
}.

Definition rq_vecs (bs : list bio) : list bio_vec := bs ≫= bi_vecs.

Lemma map_rq_bios_fits bs lsg :
  sgl_wf lsg → Forall in_page (used lsg) → Forall bio_ok bs →
  num_entries lsg + Z.of_nat (length (rq_vecs bs)) <= max_entries lsg →
  ∃ lsg', map_rq_bios lsg bs = Ok (lsg', 0) ∧ sgl_wf lsg' ∧ Forall in_page (used lsg')
    ∧ sgl_bytes lsg' = sgl_bytes lsg ++ concat ((λ b, bio_bytes (bi_vecs b)) <$> bs)
    ∧ sgl_size lsg' = u32 (sgl_size lsg + zsum bi_size bs).
Proof.
  revert lsg. induction bs as [|b bs IH]; intros lsg W I K F; cbn [map_rq_bios].
  - exists lsg. split; [done|]. split; [done|]. split; [done|]. cbn [fmap list_fmap concat zsum foldr].
    rewrite app_nil_r, Z.add_0_r. split; [done|]. symmetry. apply wrapu_small. rewrite (wf_size _ W). by apply wrapu_range.
  - apply list.Forall_cons in K as [B K]. unfold rq_vecs in F. cbn [mbind list_bind] in F. rewrite length_app in F.
    destruct (map_bio_fits lsg (bi_vecs b) W I (ok_vecs _ B) ltac:(lia)) as (l1 & E & W1 & I1 & B1 & N1 & M1 & Z1).
    rewrite E. cbn [mbind outcome_bind Z.eqb negb].
    destruct (IH l1 W1 I1 K) as (l2 & E2 & W2 & I2 & B2 & Z2).
    { unfold rq_vecs. lia. }
    exists l2. split; [done|]. split; [done|]. split; [done|]. cbn [fmap list_fmap concat zsum foldr].
    split; [by rewrite B2, B1, <-app_assoc|].
    rewrite Z2, Z1, (ok_total _ B), wrapu_add by lia. f_equal. unfold zsum. lia.
Qed.

Context `{!CoreLaws} `{!MqCoreLaws}.

(** The request [f] of the core carries the request [req] number [i]. *)
Record rq_carried (bdev : fio_bdev) (i : req_id) (req : request) (f : kfio_bio) : Prop := {
  rc_range : fbio_range f = mk_range (u64 (rq_pos req * 512) / bdev_block_size bdev) (rq_bytes req / bdev_block_size bdev);
  rc_owner : fbio_completor f = kfio_req_completor_cb ∧ fbio_parameter f = Some i ∧ fbio_bdev f = bdev;
  rc_cmd : fbio_cmd f = if rq_is_write req then KBIO_CMD_WRITE else KBIO_CMD_READ;
  rc_sync : rq_is_write req = true → rq_sync req = true → Z.testbit (fbio_flags f) 0 = true;
  rc_bytes : sgl_bytes (fbio_sgl f) = concat ((λ b, bio_bytes (bi_vecs b)) <$> rq_bios req);
  rc_size : kfio_sgl_size (fbio_sgl f) = u32 (zsum bi_size (rq_bios req))
}.

(** A plain read or write whose bios fit the lists of the pool. *)
Record rq_ok (enable_discard : bool) (req : request) (f0 : kfio_bio) : Prop := {
  ro_plain : rq_is_empty_flush req = false ∧ (enable_discard && (req_op req =? REQ_OP_DISCARD)) = false;
  ro_bios : Forall bio_ok (rq_bios req);
  ro_fits : Z.of_nat (length (rq_vecs (rq_bios req))) <= max_entries (fbio_sgl f0)
}.

Lemma request_to_bio_carries enable_discard bdev i req s f0 :
  kfio_bio_try_alloc_result (mq_calls s) bdev = Some f0 → rq_ok enable_discard req f0 →
  ∃ f, kfio_request_to_bio enable_discard bdev i req false s
       = Ok (Some f, mk_mq (mq_fbio s) (comp_list s) (mq_completion s) (last_dispatch s) (mq_last_dispatch_rw s)
                       (mq_requests s) (S (mq_calls s)) (mq_log s)) ∧ rq_carried bdev i req f.
Proof.
  intros A [[F D] B R]. destruct (try_alloc_fresh _ _ _ A) as (W & N & Eb).
  assert (used (fbio_sgl f0) = []) as U by (unfold used; by rewrite N).
  unfold kfio_request_to_bio. erewrite stateful_bind_ok; [|done]. cbv beta iota. rewrite A, F, D. cbv zeta iota.
  unfold kfio_set_comp_cpu. set (f1 := set_completion _ _ _).
  destruct (set_cpu_only f1 kfio_current_cpu) as [c ->].
  destruct (map_rq_bios_fits (rq_bios req) (fbio_sgl f0) W ltac:(by rewrite U) B ltac:(lia))
    as (sgl & E & W' & I' & By & Sz).
  assert (∀ fl cmd, rq_carried bdev i req (set_sgl sgl (set_flags fl (set_cmd cmd (set_cpu c f1)))) ↔
            cmd = (if rq_is_write req then KBIO_CMD_WRITE else KBIO_CMD_READ)
            ∧ (rq_is_write req = true → rq_sync req = true → Z.testbit fl 0 = true)) as K.
  { intros fl cmd. split; [by intros [_ _ ? ? _ _]|]. intros [-> ?]. split; cbn; try done.
    - by rewrite Z.shiftl_mul_pow2.
    - rewrite By. unfold sgl_bytes. by rewrite U.
    - unfold kfio_sgl_size. rewrite Sz, (wf_size _ W), U, wrapu_add by lia. done. }
  destruct (rq_is_write req); cbn [fbio_sgl set_flags set_cmd set_cpu]; change (fbio_sgl f1) with (fbio_sgl f0); rewrite E;
    (erewrite stateful_bind_ok; [|done]); cbv beta iota; change (negb (0 =? 0)) with false; cbv iota;
    (erewrite stateful_bind_ok; [|done]); cbv beta zeta; eexists; (split; [done|]).
  - apply K. split; [done|]. intros _ Sy. cbn [fbio_flags set_cmd set_cpu]. unfold rq_flags. rewrite Sy, Z.lor_spec.
    cbn. by rewrite orb_true_r.
  - refine (proj2 (K (fbio_flags (set_cpu c f1)) KBIO_CMD_READ) (conj eq_refl _)). discriminate.
Qed.

Lemma carried_or_flags bdev i req f x :
  rq_carried bdev i req f → rq_carried bdev i req (set_flags (Z.lor (fbio_flags f) x) f).
Proof.
  intros [Rg Ow Cm Sy By Sz]. split; try done. intros Wr Sn. cbn [fbio_flags set_flags]. by rewrite Z.lor_spec, Sy.
Qed.

Lemma submit_run f s :
  submit_handle_retryable f s
  = let rc := kfio_bio_submit_handle_retryable_result (mq_calls s) in
    Ok (rc, mk_mq (mq_fbio s) (comp_list s) (mq_completion s) (last_dispatch s) (mq_last_dispatch_rw s)
              (mq_requests s) (S (mq_calls s)) (mq_log s ++ [SubmitReq f rc])).
Proof. done. Qed.

Definition retryable (rc : Z) : bool := negb (rc =? 0) && kfio_bio_failure_is_retryable rc.

(** C40: With nothing parked, [fio_queue_rq] starts a read or write request and
    submits exactly one request of the core, which has its direction, its blocks
    and the bytes of its bios in order.  When the core answers that it is busy or
    out of space the request stays parked in the disk and the kernel is told to
    try again; in every other case the kernel is told that the request was taken.
    No comparison of the request's size with the size of its bios stands in the
    way of the submission. *)
Theorem queue_rq_submits_request enable_discard bdev i req s f0 :
  mq_requests s !! i = Some req → mq_fbio s = Link ENull →
  kfio_bio_try_alloc_result (mq_calls s) bdev = Some f0 → rq_ok enable_discard req f0 →
  let rc := kfio_bio_submit_handle_retryable_result (S (mq_calls s)) in
  ∃ f s', fio_queue_rq enable_discard bdev i s = Ok (if retryable rc then BLK_STS_RESOURCE else BLK_STS_OK, s')
    ∧ rq_carried bdev i req f
    ∧ mq_log s' = mq_log s ++ [StartRequest i; SubmitReq f rc] ++ (if retryable rc then [RunHwQueues] else [])
    ∧ mq_fbio s' = if retryable rc then Parked f else Link ENull.
Proof.
  intros L P A O rc. destruct (request_to_bio_carries enable_discard bdev i req s f0 A O) as (f & E & C).
  exists (set_flags (Z.lor (fbio_flags f) KBIO_FLG_NONBLOCK) f).
  unfold fio_queue_rq. erewrite stateful_bind_ok; [|unfold the_request; by rewrite L]. cbv beta iota.
  erewrite stateful_bind_ok; [|unfold parked_fbio; by rewrite P]. cbv beta iota.
  erewrite stateful_bind_ok; [|exact E]. cbv beta iota zeta.
  erewrite stateful_bind_ok; [|done]. cbv beta. erewrite stateful_bind_ok; [|apply submit_run]. cbv beta iota.
  cbn [mq_calls]. fold rc (retryable rc).
  destruct (retryable _); eexists; (split; [done|]); cbn; rewrite <- ?(assoc_L (++)); (split; [|by rewrite ?P]);
    by apply carried_or_flags.
Qed.

(** A parked request is submitted again for whatever request the kernel
    dispatches next, and stays parked after it was taken.  The kernel starts
    request [i] and is told that it was taken, while the core gets request [f],
    whatever request [f] was made for; [i] itself is not submitted. *)
Theorem parked_request_replaces_others enable_discard bdev i req s f :
  mq_requests s !! i = Some req → mq_fbio s = Parked f →
  let g := set_flags (Z.lor (fbio_flags f) KBIO_FLG_NONBLOCK) f in
  let rc := kfio_bio_submit_handle_retryable_result (mq_calls s) in
  ∃ s', fio_queue_rq enable_discard bdev i s = Ok (if retryable rc then BLK_STS_RESOURCE else BLK_STS_OK, s')
    ∧ mq_log s' = mq_log s ++ [StartRequest i; SubmitReq g rc] ++ (if retryable rc then [RunHwQueues] else [])
    ∧ fbio_parameter g = fbio_parameter f
    ∧ mq_fbio s' = Parked (if retryable rc then g else f).
Proof.
  intros L P g rc. unfold fio_queue_rq. erewrite stateful_bind_ok; [|unfold the_request; by rewrite L]. cbv beta iota.
  erewrite stateful_bind_ok; [|unfold parked_fbio; by rewrite P]. cbv beta iota.
  erewrite stateful_bind_ok; [|done]. cbv beta iota zeta.
  erewrite stateful_bind_ok; [|done]. cbv beta. erewrite stateful_bind_ok; [|apply submit_run]. cbv beta iota.
  cbn [mq_calls]. fold rc (retryable rc). destruct (retryable rc); eexists; (split; [done|]); cbn; rewrite <- ?(assoc_L (++)); by rewrite ?P.
Qed.

(** A completion that gets the queue lock never completes its request:
    the entry it puts on the completion list is the disk's own field, not a part
    of the request, and the list is then walked as if its entries were requests.
    A completion that leaves the work to another one overwrites what was parked. *)
Theorem req_completor_follows_wrong_entry polls f i req s :
  fbio_parameter f = Some i → mq_requests s !! i = Some req →
  (get_queue_lock polls = true → kfio_req_completor polls f s = Fault BadPointer)
  ∧ (get_queue_lock polls = false →
     ∃ s', kfio_req_completor polls f s = Ok (tt, s') ∧ comp_list s' = EDiskFbio ∧ mq_fbio s' = Link (comp_list s)).
Proof.
  intros P L. unfold kfio_req_completor. split; intros G;
    (erewrite stateful_bind_ok; [|unfold the_request; by rewrite P, L]); cbv beta iota zeta;
    (erewrite stateful_bind_ok; [|done]); cbv beta; rewrite G; cbv beta iota; cbn [negb].
  - erewrite stateful_bind_ok; [|done]. cbv beta. by case_match.
  - eexists. split; [done|]. done.
Qed.
End mq_spec.

(** ** Instances *)

Definition linux_mq : MqLayer := {| REQ_OP_FLUSH := 2; REQ_FUA := 131072; BLK_STS_OK := 0; BLK_STS_RESOURCE := 9 |}.

(** A core that is busy at its first submission. *)
Definition busy_core : MqCore := {|
  kfio_bio_try_alloc_result n bdev := Some (fresh_fbio bdev);
  kfio_bio_submit_handle_retryable_result n := if (n =? 1)%nat then - EBUSY else 0 |}.

Lemma busy_core_laws : @MqCoreLaws busy_core.
Proof. split. intros n bdev f E. injection E as <-. by split_and!. Qed.

(** A write of two blocks, of which the bios have only one: a size mismatch. *)
Definition sample_req : request :=
  mk_req 8 1024 1 true [mk_bio 8 512 1 0 [mk_bvec 7 512 0] None 0].
Definition other_req : request :=
  mk_req 64 512 0 false [mk_bio 64 512 0 0 [mk_bvec 9 512 0] None 0].
Definition sample_mq (w : fbio_word) (n : nat) : mq_disk :=
  mk_mq w ENull false 0 (-1) {[ 1%positive := sample_req; 2%positive := other_req ]} n [].

Lemma sample_req_ok : @rq_ok linux_layer linux_mq true sample_req (fresh_fbio sample_bdev).
Proof.
  split; [done| |done]. repeat constructor; try (simpl; lia). unfold bvec_ok, FUSION_PAGE_SIZE. simpl. lia.
Qed.

Lemma queue_rq_submits_request_witness :
  ∃ f s', @fio_queue_rq linux_layer small_core linux_mq busy_core true sample_bdev 1 (sample_mq (Link ENull) 0)
          = Ok (9, s') ∧ fr_length (fbio_range f) = 2 ∧ kfio_sgl_size (fbio_sgl f) = 512
          ∧ mq_log s' = [StartRequest 1; SubmitReq f (- EBUSY); RunHwQueues].
Proof.
  destruct (@queue_rq_submits_request linux_layer small_core linux_mq busy_core small_core_laws busy_core_laws
              true sample_bdev 1 sample_req (sample_mq (Link ENull) 0) (fresh_fbio sample_bdev)
              eq_refl eq_refl eq_refl sample_req_ok) as (f & s' & E & C & L & _).
  exists f, s'. split; [exact E|]. split; [by rewrite (rc_range _ _ _ _ C)|].
  split; [by rewrite (rc_size _ _ _ _ C)|exact L].
Defined.

Lemma parked_request_replaces_others_witness :
  ∃ f s', fbio_parameter f = Some 1%positive
          ∧ @fio_queue_rq linux_layer small_core linux_mq busy_core true sample_bdev 2 (sample_mq (Parked f) 2) = Ok (0, s')
          ∧ ∃ g, fbio_parameter g = Some 1%positive ∧ mq_log s' = [StartRequest 2; SubmitReq g 0].
Proof.
  set (f := set_completion kfio_req_completor_cb (Some 1%positive) (fresh_fbio sample_bdev)).
  destruct (@parked_request_replaces_others linux_layer small_core linux_mq busy_core true sample_bdev 2 other_req
              (sample_mq (Parked f) 2) f eq_refl eq_refl) as (s' & E & L & P & _).
  exists f, s'. split; [done|]. split; [exact E|]. eexists. split; [exact P|exact L].
Defined.

Lemma req_completor_follows_wrong_entry_witness :
  @kfio_req_completor linux_layer [false; false]
    (set_completion kfio_req_completor_cb (Some 1%positive) (fresh_fbio sample_bdev)) (sample_mq (Link ENull) 2)
  = Fault BadPointer.
Proof.
  by apply (@req_completor_follows_wrong_entry linux_layer [false; false]
              (set_completion kfio_req_completor_cb (Some 1%positive) (fresh_fbio sample_bdev)) 1 sample_req).
Defined.
