(* ===== verification/Kinfo.v ===== *)
(** * The information tree: common_kinfo.c and the node hooks of kinfo.c

    A tree of named nodes (directories, values, text and sequential files) that
    is mirrored in the proc file system.  The nodes are cells of a store.  The
    list of a directory's nodes is represented by its sequence: [subnodes] maps
    each list head [uu.subnode_list] to the nodes linked to it, which DListSpec
    shows the operations of list.h to implement (see KinfoSystem). *)
From S2P Require Import Prelude.

(** ** Data *)

Definition KFIO_INFO_DIR : Z := 1.
Definition KFIO_INFO_INT32 : Z := 2.
Definition KFIO_INFO_UINT32 : Z := 3.
Definition KFIO_INFO_UINT64 : Z := 4.
Definition KFIO_INFO_STRING : Z := 5.
Definition KFIO_INFO_TEXT : Z := 6.
Definition KFIO_INFO_SEQFILE : Z := 7.

Definition KFIO_INFO_MAX_NAMELEN : Z := 64.
Definition KFIO_INFO_MAX_FULLPATHLEN : Z := 256.

Definition S_IRUGO : Z := 292.                  (* 0444 *)

(** A C string without its terminator: character codes from 1 to 255. *)
Abbreviation cstring := (list Z).
Abbreviation node_id := positive.
Abbreviation node_ptr := (option positive).     (* [None] is NULL *)

(** "fusion" and "fusion/" *)
Definition UFIO_KINFO_ROOT : cstring := [102; 117; 115; 105; 111; 110].
Definition fusion_prefix : cstring := UFIO_KINFO_ROOT ++ [47].

(** [struct kfio_info_node] without its list fields; [ni_handler] is the function
    pointer of the union, [ni_os_priv] the proc entry. *)
Record kfio_info_node := mk_node {
  ni_parent : node_ptr;
  ni_data : Z;
  ni_type : Z;
  ni_size : Z;
  ni_mode : Z;
  ni_os_priv : option Z;
  ni_handler : option Z;
  ni_name : cstring
}.

#[global] Instance kfio_info_node_eq_dec : EqDecision kfio_info_node.
Proof. solve_decision. Defined.

(** What the tree has the allocator and the proc file system do. *)
Inductive kinfo_event :=
| KMalloc (n : node_id) (size : Z)
| KFree (n : node_id) (size : Z)
| ProcCreate (name : cstring) (mode : Z) (type : Z) (base : option Z) (entry : Z)
| ProcRemove (name : cstring) (base : option Z).

#[global] Instance kinfo_event_eq_dec : EqDecision kinfo_event.
Proof. solve_decision. Defined.

Record kinfo := mk_kinfo {
  nodes : gmap node_id kfio_info_node;
  subnodes : gmap node_id (list node_id);
  kinfo_root_node : node_ptr;
  kinfo_locked : bool;                          (* kinfo_lock is held *)
  kinfo_os_init : bool;
  fusion_parent_dir : option Z;
  kinfo_calls : nat;                            (* calls of the environment *)
  kinfo_events : list kinfo_event
}.

(** The allocator and the proc file system, by the number of the call. *)
Class KinfoEnv := {
  kmalloc : gset node_id → nat → node_ptr;
  proc_entry : nat → option Z;
  sizeof_node : Z                               (* sizeof(struct kfio_info_node) *)
}.

(** Memory is new, and [kfio_malloc(sizeof *dbh)] etc. have a size. *)
Class KinfoEnvLaws `{KinfoEnv} : Prop := {
  kmalloc_fresh live k i : kmalloc live k = Some i → i ∉ live
}.

Abbreviation K := (stateful kinfo).

Definition with_nodes (v : gmap node_id kfio_info_node) (s : kinfo) : kinfo :=
  mk_kinfo v (subnodes s) (kinfo_root_node s) (kinfo_locked s) (kinfo_os_init s) (fusion_parent_dir s)
    (kinfo_calls s) (kinfo_events s).
Definition with_subnodes (v : gmap node_id (list node_id)) (s : kinfo) : kinfo :=
  mk_kinfo (nodes s) v (kinfo_root_node s) (kinfo_locked s) (kinfo_os_init s) (fusion_parent_dir s)
    (kinfo_calls s) (kinfo_events s).
Definition with_root (v : node_ptr) (s : kinfo) : kinfo :=
  mk_kinfo (nodes s) (subnodes s) v (kinfo_locked s) (kinfo_os_init s) (fusion_parent_dir s)
    (kinfo_calls s) (kinfo_events s).
Definition with_lock (v : bool) (s : kinfo) : kinfo :=
  mk_kinfo (nodes s) (subnodes s) (kinfo_root_node s) v (kinfo_os_init s) (fusion_parent_dir s)
    (kinfo_calls s) (kinfo_events s).
Definition with_os (i : bool) (d : option Z) (s : kinfo) : kinfo :=
  mk_kinfo (nodes s) (subnodes s) (kinfo_root_node s) (kinfo_locked s) i d (kinfo_calls s) (kinfo_events s).
Definition called (es : list kinfo_event) (s : kinfo) : kinfo :=
  mk_kinfo (nodes s) (subnodes s) (kinfo_root_node s) (kinfo_locked s) (kinfo_os_init s) (fusion_parent_dir s)
    (S (kinfo_calls s)) (kinfo_events s ++ es).
Definition logged (es : list kinfo_event) (s : kinfo) : kinfo :=
  mk_kinfo (nodes s) (subnodes s) (kinfo_root_node s) (kinfo_locked s) (kinfo_os_init s) (fusion_parent_dir s)
    (kinfo_calls s) (kinfo_events s ++ es).

(** ** Access *)

Definition node (p : node_ptr) : K (node_id * kfio_info_node) := λ s,
  match p with
  | None => Fault NullDeref
  | Some i => match nodes s !! i with None => Fault BadPointer | Some n => Ok ((i, n), s) end
  end.

Definition set_node (i : node_id) (n : kfio_info_node) : K unit := modify (λ s, with_nodes (<[i := n]> (nodes s)) s).

(** The mutex [kinfo_lock]: taking it twice is a deadlock. *)
Definition fusion_mutex_lock : K unit := λ s, if kinfo_locked s then Fault AssertFail else Ok (tt, with_lock true s).
Definition fusion_mutex_unlock : K unit := λ s, if kinfo_locked s then Ok (tt, with_lock false s) else Fault AssertFail.

(** [&p->uu.subnode_list] as a list: for a node that is no directory the union
    holds something else. *)
Definition initialised_list (i : node_id) : K (list node_id) := λ s,
  match subnodes s !! i with None => Fault NullDeref | Some l => Ok (l, s) end.
Definition subnode_list (p : node_ptr) : K (list node_id) :=
  '(i, n) ← node p;
  if ni_type n =? KFIO_INFO_DIR then initialised_list i else fail BadPointer.

Definition fusion_init_subnodes (i : node_id) : K unit := modify (λ s, with_subnodes (<[i := []]> (subnodes s)) s).

(** [fusion_list_add_tail(&e->node_entry, &p->uu.subnode_list)] *)
Definition subnodes_add_tail (e : node_id) (p : node_ptr) : K unit :=
  l ← subnode_list p;
  '(i, _) ← node p;
  modify (λ s, with_subnodes (<[i := l ++ [e]]> (subnodes s)) s).

(** [fusion_list_del(&e->node_entry)]: from whatever list it is on. *)
Definition unlisted (e : node_id) (l : list node_id) : list node_id := filter (λ i, i ≠ e) l.
Definition subnodes_del (e : node_id) : K unit := modify (λ s, with_subnodes (unlisted e <$> subnodes s) s).

Section kinfo.
Context `{KinfoEnv}.

(** [kfio_malloc(size)] of a node *)
Definition kfio_malloc_node (size : Z) : K node_ptr := λ s,
  match kmalloc (dom (nodes s)) (kinfo_calls s) with
  | None => Ok (None, called [] s)
  | Some i => Ok (Some i, called [KMalloc i size] s)
  end.

(** ** Nodes *)

Definition kfio_strlen (s : cstring) : Z := Z.of_nat (length s).

(** [kfio_memset] makes the node all zeros, which terminates the copied name. *)
Definition kfio_info_alloc_node (type : Z) (name : cstring) : K node_ptr :=
  let namelen := kfio_strlen name in
  if namelen >? KFIO_INFO_MAX_NAMELEN then mret None
  else
    let size := sizeof_node + namelen in
    p ← kfio_malloc_node size;
    match p with
    | None => mret None
    | Some i => set_node i (mk_node None 0 type 0 0 None None name);; mret (Some i)
    end.

(** The node and its list head cease to exist. *)
Definition kfio_info_free_node (p : node_ptr) : K unit :=
  '(i, n) ← node p;
  let size := sizeof_node + kfio_strlen (ni_name n) in
  modify (λ s, logged [KFree i size] (with_subnodes (delete i (subnodes s)) (with_nodes (delete i (nodes s)) s))).

Fixpoint lookup_loop (l : list node_id) (name : cstring) : K node_ptr :=
  match l with
  | [] => mret None
  | i :: l =>
      '(_, n) ← node (Some i);
      if decide (ni_name n = name) then mret (Some i) else lookup_loop l name
  end.

Definition kfio_info_lookup_node (parent : node_ptr) (name : cstring) : K node_ptr :=
  l ← subnode_list parent; lookup_loop l name.

(** ** The proc file system (kinfo.c) *)

(** [kfio_snprintf(root_name, sizeof(root_name), "fusion/%s", name)], with
    [sizeof("fusion/") + KFIO_INFO_MAX_NAMELEN] bytes of room. *)
Definition root_name (name : cstring) : cstring := take (8 + Z.to_nat KFIO_INFO_MAX_NAMELEN - 1) (fusion_prefix ++ name).

(** [kfio_proc_mkdir] or [kfio_create_proc_fops_entry] *)
Definition proc_create (name : cstring) (mode type : Z) (base : option Z) : K (option Z) := λ s,
  match proc_entry (kinfo_calls s) with
  | None => Ok (None, called [] s)
  | Some e => Ok (Some e, called [ProcCreate name mode type base e] s)
  end.

Definition kfio_remove_proc_entry (name : cstring) (base : option Z) : K unit := modify (logged [ProcRemove name base]).

Definition set_os_priv (v : option Z) (n : kfio_info_node) : kfio_info_node :=
  mk_node (ni_parent n) (ni_data n) (ni_type n) (ni_size n) (ni_mode n) v (ni_handler n) (ni_name n).

Definition kfio_info_node_set_os_private (p : node_ptr) (priv : option Z) : K unit :=
  '(i, n) ← node p; set_node i (set_os_priv priv n).
Definition kfio_info_node_get_os_private (p : node_ptr) : K (option Z) := '(_, n) ← node p; mret (ni_os_priv n).
Definition kfio_info_node_get_type (p : node_ptr) : K Z := '(_, n) ← node p; mret (ni_type n).
Definition kfio_info_node_get_size (p : node_ptr) : K Z := '(_, n) ← node p; mret (ni_size n).
Definition kfio_info_node_get_mode (p : node_ptr) : K Z := '(_, n) ← node p; mret (ni_mode n).
Definition kfio_info_node_get_name (p : node_ptr) : K cstring := '(_, n) ← node p; mret (ni_name n).
Definition kfio_info_node_get_data (p : node_ptr) : K Z := '(_, n) ← node p; mret (ni_data n).

(** Where the entry goes and under which name; [None] is [-EIO]. *)
Definition os_place (parent : node_ptr) (node_type : Z) (node_name : cstring) : K (option (cstring * option Z)) :=
  if parent is Some _ then
    parent_dir ← kfio_info_node_get_os_private parent;
    mret (if parent_dir is Some e then Some (node_name, Some e) else None)
  else if negb (node_type =? KFIO_INFO_DIR) then mret None
  else mret (Some (root_name node_name, None)).

Definition has_proc_file (type : Z) : bool :=
  (type =? KFIO_INFO_DIR) || (type =? KFIO_INFO_UINT32) || (type =? KFIO_INFO_UINT64) || (type =? KFIO_INFO_STRING)
  || (type =? KFIO_INFO_INT32) || (type =? KFIO_INFO_TEXT) || (type =? KFIO_INFO_SEQFILE).

Definition kfio_info_os_create_node (parent nodep : node_ptr) : K Z :=
  node_name ← kfio_info_node_get_name nodep;
  node_mode ← kfio_info_node_get_mode nodep;
  node_type ← kfio_info_node_get_type nodep;
  place ← os_place parent node_type node_name;
  match place with
  | None => mret (- EIO)
  | Some (name, base) =>
      node_entry ← (if has_proc_file node_type then proc_create name node_mode node_type base else mret None);
      match node_entry with
      | None => mret (- EIO)
      | Some e => kfio_info_node_set_os_private nodep (Some e);; mret 0
      end
  end.

Definition kfio_info_os_remove_node (parent nodep : node_ptr) : K unit :=
  node_name ← kfio_info_node_get_name nodep;
  node_entry ← kfio_info_node_get_os_private nodep;
  if node_entry is Some _ then
    kfio_info_node_set_os_private nodep None;;
    if parent is Some _ then
      parent_dir ← kfio_info_node_get_os_private parent;
      kfio_remove_proc_entry node_name parent_dir
    else kfio_remove_proc_entry (root_name node_name) None
  else mret tt.

(** ** Linking and unlinking *)

Definition set_parent (v : node_ptr) (n : kfio_info_node) : kfio_info_node :=
  mk_node v (ni_data n) (ni_type n) (ni_size n) (ni_mode n) (ni_os_priv n) (ni_handler n) (ni_name n).

Definition kfio_info_insert_node (parent : node_ptr) (nodep : node_id) : K Z :=
  '(_, n) ← node (Some nodep);
  found ← (if parent is Some _ then kfio_info_lookup_node parent (ni_name n) else mret None);
  if found is Some _ then mret (- EEXIST)
  else
    rc ← kfio_info_os_create_node parent (Some nodep);
    if negb (rc =? 0) then mret rc
    else
      s ← get;
      let parent := if parent is Some _ then parent else kinfo_root_node s in
      '(i, n) ← node (Some nodep);
      set_node i (set_parent parent n);;
      subnodes_add_tail nodep parent;;
      mret rc.

Definition kfio_info_unlink_node (nodep : node_ptr) : K unit :=
  '(i, n) ← node nodep;
  s ← get;
  kfio_info_os_remove_node (if decide (ni_parent n = kinfo_root_node s) then None else ni_parent n) nodep;;
  if ni_parent n is Some _ then
    subnodes_del i;;
    '(_, n) ← node nodep;
    set_node i (set_parent None n)
  else mret tt.

(** ** Creation *)

(** What the creators do with a node that was set up: insert it under the lock,
    free it again when that fails. *)
Definition insert_or_free (parent : node_ptr) (i : node_id) : K Z :=
  fusion_mutex_lock;;
  rc ← kfio_info_insert_node parent i;
  fusion_mutex_unlock;;
  (if negb (rc =? 0) then kfio_info_free_node (Some i) else mret tt);;
  mret rc.

(** Returns the result and the new directory ([newdir], when it was set). *)
Definition kfio_info_create_dir (parent : node_ptr) (name : cstring) : K (Z * node_ptr) :=
  dirp ← kfio_info_alloc_node KFIO_INFO_DIR name;
  match dirp with
  | None => mret (- ENOMEM, None)
  | Some i =>
      set_node i (mk_node None 0 KFIO_INFO_DIR 0 S_IRUGO None None name);;
      fusion_init_subnodes i;;
      rc ← insert_or_free parent i;
      mret (rc, if negb (rc =? 0) then None else Some i)
  end.

(** The size of a node of a fixed-size type; [None] is the default case. *)
Definition fixed_size (type size : Z) : option Z :=
  if type =? KFIO_INFO_INT32 then Some 4
  else if type =? KFIO_INFO_UINT32 then Some 4
  else if type =? KFIO_INFO_UINT64 then Some 8
  else if type =? KFIO_INFO_STRING then Some size
  else None.

Definition kfio_info_create_proc (parent : node_ptr) (name : cstring) (type mode : Z) (handler : option Z)
    (param size : Z) : K Z :=
  if parent is Some _ then
    nodep ← kfio_info_alloc_node type name;
    match nodep with
    | None => mret (- ENOMEM)
    | Some i =>
        match fixed_size type size with
        | None => kfio_info_free_node (Some i);; mret (- EINVAL)
        | Some sz =>
            set_node i (mk_node None param type sz mode None handler name);;
            rc ← insert_or_free parent i;
            mret rc
        end
    end
  else mret (- EINVAL).

Definition kfio_info_create_type (parent : node_ptr) (name : cstring) (type mode data size : Z) : K Z :=
  kfio_info_create_proc parent name type mode None data size.

Definition kfio_info_create_seqf (parent : node_ptr) (name : cstring) (mode : Z) (ops : option Z) (param : Z) : K Z :=
  if parent is Some _ then
    nodep ← kfio_info_alloc_node KFIO_INFO_SEQFILE name;
    match nodep with
    | None => mret (- ENOMEM)
    | Some i =>
        set_node i (mk_node None param KFIO_INFO_SEQFILE 0 mode None ops name);;
        rc ← insert_or_free parent i;
        mret rc
    end
  else mret (- EINVAL).

Definition kfio_info_create_text (parent : node_ptr) (name : cstring) (mode : Z) (handler : option Z) (param : Z) : K Z :=
  if parent is Some _ then
    nodep ← kfio_info_alloc_node KFIO_INFO_TEXT name;
    match nodep with
    | None => mret (- ENOMEM)
    | Some i =>
        set_node i (mk_node None param KFIO_INFO_TEXT 0 mode None handler name);;
        rc ← insert_or_free parent i;
        mret rc
    end
  else mret (- EINVAL).

(** ** Removal *)

(** The two nested loops of [kfio_info_remove_node]; [inner] tells that control is
    in the inner one, where [parent != nodep] is not tested. *)
Fixpoint remove_loop (fuel : nat) (inner : bool) (parent stop : node_ptr) : K unit :=
  match fuel with
  | O => fail NoFuel
  | S fuel =>
      if negb inner && bool_decide (parent = stop) then mret tt
      else
        l ← subnode_list parent;
        match l with
        | child :: _ =>
            '(_, c) ← node (Some child);
            if ni_type c =? KFIO_INFO_DIR then remove_loop fuel true (Some child) stop
            else
              kfio_info_unlink_node (Some child);;
              kfio_info_free_node (Some child);;
              remove_loop fuel true parent stop
        | [] =>
            '(_, p) ← node parent;
            kfio_info_unlink_node parent;;
            kfio_info_free_node parent;;
            remove_loop fuel false (ni_parent p) stop
        end
  end.

(** [nodepp]: [None] is a NULL argument, [Some p] the cell it points at.  Every
    round descends to a directory or removes a node, so twice as many rounds as
    nodes and one to leave are enough. *)
Definition kfio_info_remove_node (nodepp : option node_ptr) : K (option node_ptr) :=
  fusion_mutex_lock;;
  match nodepp with
  | Some (Some i) =>
      '(_, n) ← node (Some i);
      (if ni_type n =? KFIO_INFO_DIR then
         λ s, remove_loop (2 * size (nodes s) + 1) false (Some i) (ni_parent n) s
       else kfio_info_unlink_node (Some i);; kfio_info_free_node (Some i));;
      fusion_mutex_unlock;;
      mret (Some None)
  | _ => fusion_mutex_unlock;; mret nodepp
  end.

(** ** Start and end *)

Definition kfio_info_os_driver_init : K Z :=
  d ← proc_create UFIO_KINFO_ROOT 0 KFIO_INFO_DIR None;
  modify (λ s, with_os (kinfo_os_init s) d s);;
  mret (if d is Some _ then 0 else - ENOMEM).

Definition kfio_info_os_driver_fini : K unit := λ s,
  match fusion_parent_dir s with
  | Some _ => (kfio_remove_proc_entry UFIO_KINFO_ROOT None;; modify (λ s, with_os (kinfo_os_init s) None s)) s
  | None => Ok (tt, s)
  end.

Definition kfio_info_driver_fini : K unit :=
  s ← get;
  (if kinfo_os_init s
   then kfio_info_os_driver_fini;; modify (λ s, with_os false (fusion_parent_dir s) s) else mret tt);;
  s ← get;
  if kinfo_root_node s is Some _ then
    kfio_info_free_node (kinfo_root_node s);;
    modify (with_root None)
  else mret tt.

Definition kfio_info_driver_init : K Z :=
  root ← kfio_info_alloc_node KFIO_INFO_DIR UFIO_KINFO_ROOT;
  match root with
  | None => mret (- ENOMEM)
  | Some i =>
      modify (with_root (Some i));;
      set_node i (mk_node None 0 KFIO_INFO_DIR 0 S_IRUGO None None UFIO_KINFO_ROOT);;
      fusion_init_subnodes i;;
      modify (with_lock false);;
      rc ← kfio_info_os_driver_init;
      if negb (rc =? 0) then kfio_info_driver_fini;; mret rc
      else modify (λ s, with_os true (fusion_parent_dir s) s);; mret rc
  end.

Definition kfio_info_get_root_node : K node_ptr := s ← get; mret (kinfo_root_node s).
Definition kfio_info_lock : K unit := fusion_mutex_lock.
Definition kfio_info_unlock : K unit := fusion_mutex_unlock.

End kinfo.
