(* ===== verification/KinfoSpec.v ===== *)
(** * The information tree: invariant and creation

    What every operation keeps true of the tree of Kinfo, and what the creators
    of nodes do on each of their paths. *)
From S2P Require Import Prelude Kinfo.

Section spec.
Context `{EL : KinfoEnvLaws}.
Implicit Types (s : kinfo) (c d i : node_id) (r : kfio_info_node) (l : list node_id).

(** ** The invariant *)

Definition node_bytes r : Z := sizeof_node + kfio_strlen (ni_name r).

(** The blocks allocated and not freed, with their sizes; [None] when a block was
    freed that was not live or with another size. *)
Definition mem_step (m : option (gmap node_id Z)) (e : kinfo_event) : option (gmap node_id Z) :=
  match m, e with
  | Some m, KMalloc n sz => Some (<[n := sz]> m)
  | Some m, KFree n sz => if decide (m !! n = Some sz) then Some (delete n m) else None
  | _, _ => m
  end.
Definition live_blocks (es : list kinfo_event) : option (gmap node_id Z) := foldl mem_step (Some ∅) es.

Lemma live_blocks_app es es' : live_blocks (es ++ es') = foldl mem_step (live_blocks es) es'.
Proof. apply foldl_app. Qed.

Definition is_dir s d : Prop := ∃ r, nodes s !! d = Some r ∧ ni_type r = KFIO_INFO_DIR.

(** The state with the nodes of the tree and those in [P], each of which a thread
    has made and not put into the tree yet. *)
Record tree_wf (P : gset node_id) s : Prop := {
  (* a list belongs to a directory and holds its nodes, each once *)
  wf_list d l : subnodes s !! d = Some l →
    is_dir s d ∧ NoDup l ∧ ∀ c, c ∈ l → ∃ r, nodes s !! c = Some r ∧ ni_parent r = Some d;
  (* a node is on the list of its parent *)
  wf_parent c r d : nodes s !! c = Some r → ni_parent r = Some d → ∃ l, subnodes s !! d = Some l ∧ c ∈ l;
  wf_dir d : is_dir s d → is_Some (subnodes s !! d);
  (* the root, and of the tree only the root, has no parent *)
  wf_root : ∃ i r, kinfo_root_node s = Some i ∧ nodes s !! i = Some r ∧ ni_type r = KFIO_INFO_DIR ∧ ni_parent r = None;
  wf_orphan c r : nodes s !! c = Some r → ni_parent r = None → kinfo_root_node s = Some c ∨ c ∈ P;
  (* there are no cycles *)
  wf_rank : ∃ rank : node_id → nat, ∀ c r d, nodes s !! c = Some r → ni_parent r = Some d → (rank d < rank c)%nat;
  (* names are unique in every directory but the root *)
  wf_names d l c1 c2 r1 r2 : subnodes s !! d = Some l → kinfo_root_node s ≠ Some d → c1 ∈ l → c2 ∈ l →
    nodes s !! c1 = Some r1 → nodes s !! c2 = Some r2 → ni_name r1 = ni_name r2 → c1 = c2;
  wf_len c r : nodes s !! c = Some r → kfio_strlen (ni_name r) <= KFIO_INFO_MAX_NAMELEN;
  (* every node of the tree but the root has its entry in the proc file system *)
  wf_proc c r : nodes s !! c = Some r → kinfo_root_node s ≠ Some c → c ∉ P → is_Some (ni_os_priv r);
  (* a node that is not in the tree yet has no parent and no nodes of its own *)
  wf_made c : c ∈ P → kinfo_root_node s ≠ Some c ∧ (∃ r, nodes s !! c = Some r ∧ ni_parent r = None)
    ∧ ∀ l, subnodes s !! c = Some l → l = [];
  wf_unlocked : kinfo_locked s = false;
  (* the nodes are the blocks in use, with the sizes they will be freed with *)
  wf_memory : live_blocks (kinfo_events s) = Some (node_bytes <$> nodes s)
}.
#[global] Arguments wf_list {P} s _ d l _.
#[global] Arguments wf_parent {P} s _ c r d _ _.
#[global] Arguments wf_dir {P} s _ d _.
#[global] Arguments wf_root {P} s _.
#[global] Arguments wf_orphan {P} s _ c r _ _.
#[global] Arguments wf_rank {P} s _.
#[global] Arguments wf_names {P} s _ d l c1 c2 r1 r2 _ _ _ _ _ _ _.
#[global] Arguments wf_len {P} s _ c r _.
#[global] Arguments wf_proc {P} s _ c r _ _ _.
#[global] Arguments wf_made {P} s _ c _.
#[global] Arguments wf_unlocked {P} s _.
#[global] Arguments wf_memory {P} s _.

(** The tree while nobody makes a node. *)
Definition kinfo_wf s : Prop := tree_wf ∅ s.

(** ** Reading nodes *)

Lemma node_run s i r : nodes s !! i = Some r → node (Some i) s = Ok ((i, r), s).
Proof. intros E. unfold node. by rewrite E. Qed.

Lemma subnode_list_run s d l :
  is_dir s d → subnodes s !! d = Some l → subnode_list (Some d) s = Ok (l, s).
Proof.
  intros (r & E & T) L. unfold subnode_list. erewrite stateful_bind_ok; [|by apply node_run]. cbv beta iota.
  rewrite T. cbn. unfold initialised_list. by rewrite L.
Qed.

(** The node of the list with the name, or NULL. *)
Definition named s (name : cstring) l : node_ptr :=
  snd <$> list_find (λ c, ni_name <$> nodes s !! c = Some name) l.

Lemma lookup_loop_run s name l :
  (∀ c, c ∈ l → is_Some (nodes s !! c)) → lookup_loop l name s = Ok (named s name l, s).
Proof.
  induction l as [|c l IH]; intros L; [done|]. cbn [lookup_loop].
  destruct (L c ltac:(by left)) as [r E]. erewrite stateful_bind_ok; [|by apply node_run]. cbv beta iota.
  unfold named. cbn [list_find]. rewrite E. cbn [fmap option_fmap option_map].
  destruct (decide (ni_name r = name)) as [->|N].
  - by rewrite decide_True.
  - rewrite decide_False by (by intros [=]). rewrite IH by (intros; apply L; by right). unfold named.
    by destruct (list_find _ l) as [[]|].
Qed.

Lemma named_frame s s' name l : (∀ c, c ∈ l → nodes s' !! c = nodes s !! c) → named s' name l = named s name l.
Proof.
  unfold named. intros E. f_equal. induction l as [|c l IH]; cbn [list_find]; [done|].
  rewrite (E c) by (by left). rewrite IH by (intros; apply E; by right). done.
Qed.

Lemma named_some s name l c : named s name l = Some c → c ∈ l ∧ ∃ r, nodes s !! c = Some r ∧ ni_name r = name.
Proof.
  unfold named. intros ([j c'] & E & [= ->])%fmap_Some. apply list_find_Some in E as (L & E & _).
  split; [by eapply list_elem_of_lookup_2|]. apply fmap_Some in E as (r & E & ->). eauto.
Qed.

Lemma named_none s name l c r :
  named s name l = None → c ∈ l → nodes s !! c = Some r → ni_name r ≠ name.
Proof.
  unfold named. intros E C R N. apply fmap_None in E. apply list_find_None in E.
  rewrite list.Forall_forall in E. apply (E c C). rewrite R. cbn. by rewrite N.
Qed.

Lemma lookup_node_run P s d l name :
  tree_wf P s → subnodes s !! d = Some l →
  kfio_info_lookup_node (Some d) name s = Ok (named s name l, s).
Proof.
  intros W L. destruct (wf_list _ W _ _ L) as (D & _ & C).
  unfold kfio_info_lookup_node. erewrite stateful_bind_ok; [|by apply subnode_list_run].
  apply lookup_loop_run. intros c Hc. destruct (C c Hc) as (r & -> & _). done.
Qed.

(** ** Creation *)

(** The state after [r] was allocated at [i] and filled in. *)
Definition staged s i r : kinfo :=
  with_subnodes (if ni_type r =? KFIO_INFO_DIR then <[i := []]> (subnodes s) else subnodes s)
    (with_nodes (<[i := r]> (nodes s)) (called [KMalloc i (node_bytes r)] s)).

(** [i] is the new last node of directory [d], with proc entry [e]. *)
Definition placed s d l i r (e : Z) (ev : kinfo_event) : kinfo :=
  with_subnodes (<[d := l ++ [i]]> (subnodes s))
    (with_nodes (<[i := set_parent (Some d) (set_os_priv (Some e) r)]> (nodes s)) (called [ev] s)).

(** [i] was freed again. *)
Definition freed s i r : kinfo :=
  logged [KFree i (node_bytes r)] (with_subnodes (delete i (subnodes s)) (with_nodes (delete i (nodes s)) s)).

(** The directory a node goes to: a parent of NULL stands for the root. *)
Definition home s (p : node_ptr) : node_ptr := if p is Some _ then p else kinfo_root_node s.

(** The arguments the creators are called with. *)
Definition parent_ok s (p : node_ptr) : Prop := match p with None => True | Some d => is_dir s d end.

Definition proc_name (p : node_ptr) r : cstring := if p is Some _ then ni_name r else root_name (ni_name r).

(** Why an insertion can fail. *)
Definition insert_error s (p : node_ptr) r (rc : Z) : Prop :=
  rc = - EEXIST ∧ (∃ d l c rc, p = Some d ∧ subnodes s !! d = Some l ∧ c ∈ l
                      ∧ nodes s !! c = Some rc ∧ ni_name rc = ni_name r)
  ∨ rc = - EIO ∧ ∀ d l c r', p = Some d → subnodes s !! d = Some l → c ∈ l → nodes s !! c = Some r' →
      ni_name r' ≠ ni_name r.

Lemma insert_error_nonzero s p r rc : insert_error s p r rc → rc ≠ 0.
Proof. by intros [[-> _]|[-> _]]. Qed.

Lemma os_create_run s p i r :
  nodes s !! i = Some r → (∀ d, p = Some d → is_Some (nodes s !! d)) →
  (∃ e base, kfio_info_os_create_node p (Some i) s
     = Ok (0, with_nodes (<[i := set_os_priv (Some e) r]> (nodes s))
                (called [ProcCreate (proc_name p r) (ni_mode r) (ni_type r) base e] s)))
  ∨ ∃ s', kfio_info_os_create_node p (Some i) s = Ok (- EIO, s') ∧ (s' = s ∨ s' = called [] s).
Proof.
  intros E P. unfold kfio_info_os_create_node, kfio_info_node_get_name, kfio_info_node_get_mode, kfio_info_node_get_type.
  do 3 (erewrite stateful_bind_ok; [|erewrite stateful_bind_ok; [|by apply node_run]; done]; cbv beta iota).
  assert (∃ pl, os_place p (ni_type r) (ni_name r) s = Ok (pl, s)
          ∧ ∀ nm base, pl = Some (nm, base) → nm = proc_name p r) as (pl & Epl & Hpl).
  { unfold os_place. destruct p as [d|].
    - destruct (P d eq_refl) as [rd Ed].
      eexists. split.
      + erewrite stateful_bind_ok; [|unfold kfio_info_node_get_os_private; erewrite stateful_bind_ok; [|by apply node_run]; done].
        done.
      + destruct (ni_os_priv rd); intros nm base; [by intros [= <- _]|done].
    - destruct (negb _); eexists; (split; [done|]); intros nm base; [done|by intros [= <- _]]. }
  erewrite stateful_bind_ok; [|exact Epl]. cbv beta iota.
  destruct pl as [[nm base]|]; [|right; eauto]. rewrite (Hpl nm base eq_refl).
  destruct (has_proc_file (ni_type r)).
  - destruct (proc_entry (kinfo_calls s)) as [e|] eqn:Ep.
    + left. exists e, base. erewrite stateful_bind_ok; [|unfold proc_create; by rewrite Ep]. cbv beta iota.
      erewrite stateful_bind_ok; [done|]. unfold kfio_info_node_set_os_private.
      erewrite stateful_bind_ok; [|by apply node_run]. done.
    + right. exists (called [] s). erewrite stateful_bind_ok; [|unfold proc_create; by rewrite Ep]. auto.
  - right. exists s. erewrite stateful_bind_ok; [|done]. auto.
Qed.

Lemma wf_subnodes_none P s i : tree_wf P s → nodes s !! i = None → subnodes s !! i = None.
Proof.
  intros W E. destruct (subnodes s !! i) as [l|] eqn:L; [|done].
  destruct (wf_list _ W _ _ L) as ((r & E' & _) & _). congruence.
Qed.

Lemma wf_root_dir P s d : tree_wf P s → kinfo_root_node s = Some d → is_dir s d.
Proof. intros W E. destruct (wf_root _ W) as (i & r & E' & N & T & _). simplify_eq. by exists r. Qed.

Lemma home_dir P s p :
  tree_wf P s → parent_ok s p → ∃ d l, home s p = Some d ∧ is_dir s d ∧ subnodes s !! d = Some l.
Proof.
  intros W Pk. destruct (wf_root _ W) as (i & r & E & _).
  assert (∃ d, home s p = Some d ∧ is_dir s d) as (d & Hd & D).
  { destruct p as [d|]; [by exists d|]. exists i. split; [done|]. by eapply wf_root_dir. }
  destruct (wf_dir _ W _ D) as [l L]. eauto.
Qed.

(** A node of the tree or on a list is not one that was only made. *)
Lemma made_not_child P s i d l : tree_wf P s → i ∈ P → subnodes s !! d = Some l → i ∉ l.
Proof.
  intros W I L Il. destruct (wf_list _ W _ _ L) as (_ & _ & C). destruct (C i Il) as (r & E & Pr).
  destruct (wf_made _ W i I) as (_ & (r' & E' & Pr') & _). congruence.
Qed.
Lemma made_not_parent P s c r d : tree_wf P s → nodes s !! c = Some r → ni_parent r = Some d → d ∉ P.
Proof.
  intros W E Pr D. destruct (wf_parent _ W _ _ _ E Pr) as (l & L & C).
  destruct (wf_made _ W d D) as (_ & _ & Em). rewrite (Em l L) in C. by apply not_elem_of_nil in C.
Qed.
Lemma home_not_made P s p d : tree_wf P s → (∀ d, p = Some d → d ∉ P) → home s p = Some d → d ∉ P.
Proof.
  intros W Pk. destruct p as [d'|]; cbn; [by intros [= <-]; apply Pk|]. intros R D.
  by destruct (wf_made _ W d D) as (Nr & _).
Qed.

(** The list operations of the insertion. *)
Lemma link_tail_run s d l i :
  is_dir s d → subnodes s !! d = Some l →
  subnodes_add_tail i (Some d) s = Ok (tt, with_subnodes (<[d := l ++ [i]]> (subnodes s)) s).
Proof.
  intros D L. unfold subnodes_add_tail. erewrite stateful_bind_ok; [|by apply subnode_list_run]. cbv beta.
  destruct D as (r & E & _). erewrite stateful_bind_ok; [|by apply node_run]. done.
Qed.

Lemma free_node_run s i r : nodes s !! i = Some r → kfio_info_free_node (Some i) s = Ok (tt, freed s i r).
Proof. intros E. unfold kfio_info_free_node. erewrite stateful_bind_ok; [|by apply node_run]. done. Qed.

(** ** Putting a node into the tree *)

(** What the creators do under the lock, and after it. *)
Definition link_node (p : node_ptr) (i : node_id) : K Z :=
  fusion_mutex_lock;;
  rc ← kfio_info_insert_node p i;
  fusion_mutex_unlock;;
  mret rc.
Definition drop_node (i : node_id) (rc : Z) : K unit :=
  if negb (rc =? 0) then kfio_info_free_node (Some i) else mret tt.

Lemma insert_or_free_in_steps p i s :
  insert_or_free p i s = (rc ← link_node p i; drop_node i rc;; mret rc) s.
Proof.
  unfold insert_or_free, link_node, drop_node, mbind, stateful_bind, mret, stateful_ret. by repeat case_match; simplify_eq.
Qed.

Section insertion.
Context (P : gset node_id) s (p : node_ptr) d l i r (W : tree_wf P s).
Hypothesis I : i ∈ P.
Hypothesis Ei : nodes s !! i = Some r.
Hypothesis Pk : parent_ok s p.
Hypothesis Pm : ∀ q, p = Some q → q ∉ P.
Hypothesis Hd : home s p = Some d.
Hypothesis L : subnodes s !! d = Some l.

Let t := with_lock true s.

(** The name test of an insertion. *)
Lemma clash_run :
  (if p is Some _ then kfio_info_lookup_node p (ni_name r) else mret None) t
  = Ok (if p is Some _ then named s (ni_name r) l else None, t).
Proof.
  destruct p as [q|]; [|done]. injection Hd as ->. destruct (wf_list _ W _ _ L) as (D & _ & C).
  unfold kfio_info_lookup_node. erewrite stateful_bind_ok; [|by apply subnode_list_run].
  rewrite lookup_loop_run; [f_equal|]. intros c Hc. destruct (C c Hc) as (rc & Ec & _). by exists rc.
Qed.

(** Every way an insertion can end. *)
Lemma insert_node_run :
  ∃ rc t', kfio_info_insert_node p i t = Ok (rc, t')
    ∧ (rc = 0 ∧ (p ≠ None → named s (ni_name r) l = None)
         ∧ (∃ e base, t' = placed t d l i r e (ProcCreate (proc_name p r) (ni_mode r) (ni_type r) base e))
       ∨ insert_error s p r rc ∧ (t' = t ∨ t' = called [] t)).
Proof.
  unfold kfio_info_insert_node. erewrite stateful_bind_ok; [|by apply node_run]. cbv beta iota.
  erewrite stateful_bind_ok; [|by apply clash_run]. cbv beta.
  destruct (if p is Some _ then named s (ni_name r) l else None) as [c|] eqn:F.
  { destruct p as [q|] eqn:Ep; [|done]. injection Hd as ->. destruct (named_some _ _ _ _ F) as (Hc & rc & Ec & Nc).
    do 2 eexists. split; [done|]. right. split; [|by left]. left. split; [done|]. by exists d, l, c, rc. }
  destruct (os_create_run t p i r Ei) as [(e & base & E)|(t' & E & Ht')].
  - intros q Eq. rewrite Eq in Pk. destruct Pk as (rq & Erq & _). by exists rq.
  - erewrite stateful_bind_ok; [|exact E]. cbv beta iota. change (negb (0 =? 0)) with false. cbv iota.
    erewrite stateful_bind_ok; [|done]. cbv beta zeta.
    erewrite stateful_bind_ok; [|apply node_run, lookup_insert_eq]. cbv beta iota.
    erewrite stateful_bind_ok; [|done]. cbv beta.
    set (t2 := with_nodes _ _). change (kinfo_root_node _) with (kinfo_root_node s).
    change (if p is Some _ then p else kinfo_root_node s) with (home s p). rewrite Hd.
    erewrite stateful_bind_ok.
    2:{ apply (link_tail_run _ d l); [|done]. destruct (wf_list _ W _ _ L) as ((rd & Ed & T) & _).
        pose proof (home_not_made _ _ _ _ W Pm Hd). exists rd. split; [|done].
        unfold t2, t. cbn. by rewrite !lookup_insert_ne by (by intros ->). }
    do 2 eexists. split; [done|]. left. split; [done|]. split; [by destruct p|].
    exists e, base. unfold t2, placed, with_nodes, called, with_subnodes. cbn. by rewrite insert_insert_eq.
  - erewrite stateful_bind_ok; [|exact E]. cbv beta iota. do 2 eexists. split; [done|]. right. split; [|done].
    right. split; [done|]. intros q l' c r' Ep L' C' R'. rewrite Ep in F, Hd. injection Hd as ->. rewrite L in L'.
    injection L' as <-. by eapply named_none.
Qed.

(** The same with the lock around it. *)
Lemma link_node_run :
  ∃ rc s', link_node p i s = Ok (rc, s')
    ∧ (rc = 0 ∧ (p ≠ None → named s (ni_name r) l = None)
         ∧ (∃ e base, s' = placed s d l i r e (ProcCreate (proc_name p r) (ni_mode r) (ni_type r) base e))
       ∨ insert_error s p r rc ∧ (s' = s ∨ s' = called [] s)).
Proof.
  unfold link_node. pose proof (wf_unlocked _ W) as U. assert (with_lock false t = s) as Tw by (unfold t; destruct s; cbn in *; by subst).
  erewrite stateful_bind_ok; [|unfold fusion_mutex_lock; by rewrite U]. cbv beta. fold t.
  destruct insert_node_run as (rc & t' & E & Hc). erewrite stateful_bind_ok; [|exact E]. cbv beta.
  assert (kinfo_locked t' = true) as Lt by (by destruct Hc as [(_ & _ & e & base & ->)|(_ & [-> | ->])]).
  erewrite stateful_bind_ok; [|unfold fusion_mutex_unlock; by rewrite Lt]. do 2 eexists. split; [done|].
  destruct Hc as [(-> & Nm & e & base & ->)|(Er & Ht)]; [left|right]; (split; [done|]).
  - split; [done|]. exists e, base.
    by change (placed (with_lock false t) d l i r e (ProcCreate (proc_name p r) (ni_mode r) (ni_type r) base e)
               = placed s d l i r e (ProcCreate (proc_name p r) (ni_mode r) (ni_type r) base e)); rewrite Tw.
  - destruct Ht as [-> | ->]; [by left|right]. by change (called [] (with_lock false t) = called [] s); rewrite Tw.
Qed.
End insertion.

(** ** The invariant while a node is made, put into the tree, or given up *)

Lemma staged_nodes s i r c : nodes (staged s i r) !! c = (if decide (c = i) then Some r else nodes s !! c).
Proof. unfold staged. cbn. case_decide; [subst; apply lookup_insert_eq|by apply lookup_insert_ne]. Qed.

Lemma staged_list s i r c :
  subnodes (staged s i r) !! c = if decide (c = i ∧ ni_type r = KFIO_INFO_DIR) then Some [] else subnodes s !! c.
Proof.
  unfold staged. cbn. destruct (Z.eqb_spec (ni_type r) KFIO_INFO_DIR).
  - case_decide as D; [destruct D as [-> _]; apply lookup_insert_eq|apply lookup_insert_ne; naive_solver].
  - rewrite decide_False by naive_solver. done.
Qed.

Section staged.
Context (P : gset node_id) s i r (W : tree_wf P s).
Hypothesis N : nodes s !! i = None.
Hypothesis Pr : ni_parent r = None.
Hypothesis Len : kfio_strlen (ni_name r) <= KFIO_INFO_MAX_NAMELEN.

Lemma staged_new : (i ∉ P) ∧ kinfo_root_node s ≠ Some i ∧ subnodes s !! i = None.
Proof.
  split; [|split; [|by eapply wf_subnodes_none]].
  - intros I. destruct (wf_made _ W i I) as (_ & (r' & E' & _) & _). congruence.
  - intros R. destruct (wf_root_dir _ _ _ W R) as (r' & E' & _). congruence.
Qed.

Lemma staged_is_dir c : is_dir (staged s i r) c ↔ is_dir s c ∨ c = i ∧ ni_type r = KFIO_INFO_DIR.
Proof.
  unfold is_dir. rewrite staged_nodes. case_decide; [subst|naive_solver]. rewrite N. split.
  - intros (? & [= <-] & T). by right.
  - intros [(? & ? & _)|[_ T]]; [done|]. by exists r.
Qed.

Lemma staged_wf : tree_wf ({[i]} ∪ P) (staged s i r).
Proof.
  destruct staged_new as (Ni & Nr & Ns). split.
  - intros d l. rewrite staged_list, staged_is_dir. case_decide as D.
    + intros [= <-]. split; [by right|]. split; [constructor|]. by intros c ?%not_elem_of_nil.
    + intros L. destruct (wf_list _ W _ _ L) as (Dd & ND & C). split; [by left|]. split; [done|].
      intros c Hc. destruct (C c Hc) as (rc & Ec & Pc). exists rc. rewrite staged_nodes, decide_False by congruence. done.
  - intros c rc d. rewrite staged_nodes, staged_list. case_decide; [by intros [= <-]; rewrite Pr|]. intros Ec Pc.
    destruct (wf_parent _ W _ _ _ Ec Pc) as (l & L & C). rewrite decide_False; [eauto|]. intros [-> _]. congruence.
  - intros d. rewrite staged_is_dir, staged_list. intros [D|[-> T]]; [|by rewrite decide_True].
    case_decide; [by eexists|by apply (wf_dir _ W)].
  - destruct (wf_root _ W) as (j & rj & Rj & Ej & Tj). exists j, rj. split; [done|]. split; [|done].
    by rewrite staged_nodes, decide_False by congruence.
  - intros c rc. rewrite staged_nodes. case_decide; [set_solver|]. intros Ec Pc.
    destruct (wf_orphan _ W c rc Ec Pc); [by left|set_solver].
  - destruct (wf_rank _ W) as [rank K]. exists rank. intros c rc d. rewrite staged_nodes.
    case_decide; [intros [= <-]; by rewrite Pr|apply K].
  - intros d l c1 c2 r1 r2. rewrite staged_list, !staged_nodes. case_decide as D.
    + intros [= <-] _ ?%not_elem_of_nil. done.
    + intros Ld Rd J1 J2. destruct (wf_list _ W _ _ Ld) as (_ & _ & C).
      destruct (C c1 J1) as (? & ? & _), (C c2 J2) as (? & ? & _).
      rewrite !decide_False by congruence. by apply (wf_names _ W d l).
  - intros c rc. rewrite staged_nodes. case_decide; [by intros [= <-]|apply (wf_len _ W)].
  - intros c rc. rewrite staged_nodes. case_decide; [set_solver|]. intros Ec Rc Nc. apply (wf_proc _ W c rc); set_solver.
  - intros c [->%elem_of_singleton|Hc]%elem_of_union; (split; [|split]).
    + done.
    + exists r. by rewrite staged_nodes, decide_True.
    + intros l. rewrite staged_list. case_decide; [by intros [= <-]|congruence].
    + by destruct (wf_made _ W c Hc).
    + destruct (wf_made _ W c Hc) as (_ & (rc & Ec & Pc) & _). exists rc. by rewrite staged_nodes, decide_False by congruence.
    + intros l. rewrite staged_list. case_decide; [by intros [= <-]|by apply (wf_made _ W c Hc)].
  - apply (wf_unlocked _ W).
  - unfold staged. cbn. rewrite fmap_insert, live_blocks_app, (wf_memory _ W). done.
Qed.
End staged.

Section placed.
Context (P : gset node_id) s d l i r (e : Z) (base : option Z) (nm : cstring) (W : tree_wf P s).
Hypothesis I : i ∈ P.
Hypothesis Ei : nodes s !! i = Some r.
Hypothesis L : subnodes s !! d = Some l.
Hypothesis Dm : d ∉ P.
Hypothesis Fresh : kinfo_root_node s ≠ Some d → named s (ni_name r) l = None.

Let s' := placed s d l i r e (ProcCreate nm (ni_mode r) (ni_type r) base e).
Let r' := set_parent (Some d) (set_os_priv (Some e) r).

Lemma placed_node c : nodes s' !! c = if decide (c = i) then Some r' else nodes s !! c.
Proof. unfold s', placed. cbn. case_decide; [subst; apply lookup_insert_eq|by apply lookup_insert_ne]. Qed.

Lemma placed_list c : subnodes s' !! c = if decide (c = d) then Some (l ++ [i]) else subnodes s !! c.
Proof. unfold s', placed. cbn. case_decide; [subst; apply lookup_insert_eq|by apply lookup_insert_ne]. Qed.

Lemma placed_is_dir c : is_dir s' c ↔ is_dir s c.
Proof. unfold is_dir. rewrite placed_node. case_decide; [subst; rewrite Ei|done]. split; intros (? & [= <-] & T); by eexists. Qed.

Lemma placed_lists c l' :
  subnodes s' !! c = Some l' →
  is_dir s' c ∧ NoDup l' ∧ ∀ x, x ∈ l' → ∃ rx, nodes s' !! x = Some rx ∧ ni_parent rx = Some c.
Proof.
  pose proof (made_not_child _ _ _ _ _ W I L) as Il. rewrite placed_list, placed_is_dir. case_decide.
  - subst. destruct (wf_list _ W _ _ L) as (D & ND & C). intros [= <-]. split; [done|]. split.
    + apply list.NoDup_app. split; [done|]. split; [|apply NoDup_singleton]. by intros x Hx ->%list_elem_of_singleton.
    + intros x Hx. rewrite placed_node. case_decide; [by eexists|]. apply C.
      by apply elem_of_app in Hx as [?| ->%list_elem_of_singleton].
  - intros Lc. destruct (wf_list _ W _ _ Lc) as (D & ND & C). split; [done|]. split; [done|]. intros x Hx.
    pose proof (made_not_child _ _ _ _ _ W I Lc). rewrite placed_node, decide_False by congruence. by apply C.
Qed.

(** A name is not taken twice. *)
Lemma placed_names c l' c1 c2 r1 r2 :
  subnodes s' !! c = Some l' → kinfo_root_node s' ≠ Some c → c1 ∈ l' → c2 ∈ l' →
  nodes s' !! c1 = Some r1 → nodes s' !! c2 = Some r2 → ni_name r1 = ni_name r2 → c1 = c2.
Proof.
  rewrite placed_list, !placed_node. change (kinfo_root_node s') with (kinfo_root_node s). case_decide.
  - subst. intros [= <-] Rt. assert (∀ x rx, x ∈ l → nodes s !! x = Some rx → ni_name rx ≠ ni_name r) as Clash
        by (intros; by eapply named_none; [apply Fresh| |]).
    assert (∀ x, x ∈ l ++ [i] → x ≠ i → x ∈ l) as Old by (intros x [|?%list_elem_of_singleton]%elem_of_app; done).
    intros J1 J2. repeat case_decide; subst; intros E1 E2 Nm; simplify_eq; try done.
    + by destruct (Clash _ _ (Old _ J2 ltac:(done)) E2).
    + by destruct (Clash _ _ (Old _ J1 ltac:(done)) E1).
    + by eapply (wf_names _ W d l); [| | apply Old | apply Old | | |].
  - intros Lc Rt J1 J2. pose proof (made_not_child _ _ _ _ _ W I Lc). rewrite !decide_False by congruence.
    by apply (wf_names _ W c l').
Qed.

Lemma placed_wf : tree_wf (P ∖ {[i]}) s'.
Proof.
  destruct (wf_made _ W i I) as (Nr & _ & Le). split.
  - apply placed_lists.
  - intros c rc q. rewrite placed_node, placed_list. case_decide.
    + intros [= <-] [= <-]. rewrite decide_True by done. eexists. split; [done|]. set_solver.
    + intros Ec Pc. destruct (wf_parent _ W _ _ _ Ec Pc) as (l' & L' & Hc). case_decide; [|eauto].
      subst. eexists. split; [done|]. rewrite L in L'. injection L' as <-. set_solver.
  - intros c. rewrite placed_is_dir, placed_list. intros D. case_decide; [by eexists|by apply (wf_dir _ W)].
  - destruct (wf_root _ W) as (j & rj & Rj & Ej & Tj). exists j, rj. split; [done|]. split; [|done].
    by rewrite placed_node, decide_False by congruence.
  - intros c rc. rewrite placed_node. case_decide; [by intros [= <-]|]. intros Ec Pc.
    destruct (wf_orphan _ W c rc Ec Pc); [by left|right; set_solver].
  - destruct (wf_rank _ W) as [rank K]. exists (λ c, if decide (c = i) then S (rank d) else rank c). intros c rc q.
    rewrite placed_node. case_decide as Ec; [intros [= <-] [= <-]; rewrite decide_False by congruence; lia|].
    intros En Pc. case_decide; [|by eapply K]. subst q. by destruct (made_not_parent _ _ _ _ _ W En Pc).
  - apply placed_names.
  - intros c rc. rewrite placed_node. case_decide; [|apply (wf_len _ W)]. subst. intros [= <-]. exact (wf_len _ W i r Ei).
  - intros c rc. rewrite placed_node. case_decide; [intros [= <-] _ _; by eexists|]. intros Ec Rc Nc.
    apply (wf_proc _ W c rc); [done..|set_solver].
  - intros c [Hc Ni]%elem_of_difference. destruct (wf_made _ W c Hc) as (Rc & (rc & Ec & Pc) & Lc).
    split; [done|]. split; [exists rc; rewrite placed_node, decide_False by set_solver; done|].
    intros l'. rewrite placed_list, decide_False by congruence. apply Lc.
  - apply (wf_unlocked _ W).
  - unfold s', placed. cbn. rewrite live_blocks_app, (wf_memory _ W). cbn. rewrite fmap_insert. f_equal.
    symmetry. apply insert_id. by rewrite lookup_fmap, Ei.
Qed.
End placed.

Section freed.
Context (P : gset node_id) s i r (W : tree_wf P s).
Hypothesis I : i ∈ P.
Hypothesis Ei : nodes s !! i = Some r.

Lemma freed_node c : nodes (freed s i r) !! c = if decide (c = i) then None else nodes s !! c.
Proof. unfold freed. cbn. case_decide; [subst; apply lookup_delete_eq|by apply lookup_delete_ne]. Qed.
Lemma freed_list c : subnodes (freed s i r) !! c = if decide (c = i) then None else subnodes s !! c.
Proof. unfold freed. cbn. case_decide; [subst; apply lookup_delete_eq|by apply lookup_delete_ne]. Qed.

Lemma freed_wf : tree_wf (P ∖ {[i]}) (freed s i r).
Proof.
  destruct (wf_made _ W i I) as (Nr & _ & Le). split.
  - intros d l. rewrite freed_list. case_decide; [done|]. intros L. destruct (wf_list _ W _ _ L) as ((rd & Ed & T) & ND & C).
    pose proof (made_not_child _ _ _ _ _ W I L). split; [exists rd; by rewrite freed_node, decide_False|]. split; [done|].
    intros c Hc. rewrite freed_node, decide_False by congruence. by apply C.
  - intros c rc d. rewrite freed_node, freed_list. case_decide; [done|]. intros Ec Pc.
    pose proof (made_not_parent _ _ _ _ _ W Ec Pc). rewrite decide_False by congruence. by apply (wf_parent _ W c rc).
  - intros d (rd & Ed & T). rewrite freed_node in Ed. rewrite freed_list. case_decide; [done|].
    apply (wf_dir _ W). by exists rd.
  - destruct (wf_root _ W) as (j & rj & Rj & Ej & Tj). exists j, rj. split; [done|]. split; [|done].
    by rewrite freed_node, decide_False by congruence.
  - intros c rc. rewrite freed_node. case_decide; [done|]. intros Ec Pc.
    destruct (wf_orphan _ W c rc Ec Pc); [by left|right; set_solver].
  - destruct (wf_rank _ W) as [rank K]. exists rank. intros c rc d. rewrite freed_node. case_decide; [done|apply K].
  - intros d l c1 c2 r1 r2. rewrite freed_list, !freed_node. repeat case_decide; try done. by apply (wf_names _ W d l).
  - intros c rc. rewrite freed_node. case_decide; [done|apply (wf_len _ W)].
  - intros c rc. rewrite freed_node. case_decide; [done|]. intros Ec Rc Nc. apply (wf_proc _ W c rc); [done..|set_solver].
  - intros c [Hc Ni]%elem_of_difference. rewrite freed_node, freed_list, !decide_False by set_solver. by apply (wf_made _ W).
  - apply (wf_unlocked _ W).
  - unfold freed. cbn. rewrite live_blocks_app, (wf_memory _ W). cbn. rewrite lookup_fmap, Ei. cbn.
    rewrite decide_True by done. by rewrite fmap_delete.
Qed.
End freed.

(** The same tree after [es] happened. *)
Record same_tree s s' (es : list kinfo_event) : Prop := {
  st_nodes : nodes s' = nodes s;
  st_subnodes : subnodes s' = subnodes s;
  st_root : kinfo_root_node s' = kinfo_root_node s;
  st_lock : kinfo_locked s' = kinfo_locked s;
  st_events : kinfo_events s' = kinfo_events s ++ es
}.

Lemma same_tree_wf P s s' es :
  tree_wf P s → same_tree s s' es → (∀ m, live_blocks (kinfo_events s) = Some m → foldl mem_step (Some m) es = Some m) →
  tree_wf P s'.
Proof.
  intros W [N S R L E] M.
  split; unfold is_dir; rewrite ?N, ?S, ?R, ?L, ?E; try apply W.
  rewrite live_blocks_app, (wf_memory _ W). by apply M, W.
Qed.

Lemma called_wf P s : tree_wf P s → tree_wf P (called [] s).
Proof. intros W. apply (same_tree_wf P s _ []); [done| |done]. split; try done. Qed.

(** What is left of a node that could not be inserted. *)
Definition gone_again i r : list kinfo_event := [KMalloc i (node_bytes r); KFree i (node_bytes r)].

Lemma gone_again_mem i r m : m !! i = None → foldl mem_step (Some m) (gone_again i r) = Some m.
Proof. intros N. cbn. rewrite lookup_insert_eq, decide_True by done. by rewrite delete_insert_id. Qed.

Lemma live_blocks_none P s i m :
  tree_wf P s → nodes s !! i = None → live_blocks (kinfo_events s) = Some m → m !! i = None.
Proof. intros W N E. rewrite (wf_memory _ W) in E. injection E as <-. by rewrite lookup_fmap, N. Qed.

Lemma freed_same P s i r s1 :
  tree_wf P s → nodes s !! i = None → s1 = staged s i r ∨ s1 = called [] (staged s i r) →
  same_tree s (freed s1 i r) (gone_again i r).
Proof.
  intros W N Hs. pose proof (wf_subnodes_none _ _ _ W N) as NS.
  destruct Hs as [-> | ->]; split; cbn; rewrite ?delete_insert_id by done; try done; rewrite <- ?(assoc_L (++)); try done.
  all: by case_match; [apply delete_insert_id|apply delete_id].
Qed.

(** ** The creators *)

(** One request to create a node; directories ignore the mode. *)
Inductive new_node :=
| NewDir
| NewValue (type size : Z) (handler : option Z) (data : Z)
| NewSeqf (ops : option Z) (data : Z)
| NewText (handler : option Z) (data : Z).

Definition create (p : node_ptr) (name : cstring) (mode : Z) (q : new_node) : K (Z * node_ptr) :=
  match q with
  | NewDir => kfio_info_create_dir p name
  | NewValue type size handler data =>
      rc ← kfio_info_create_proc p name type mode handler data size; mret (rc, None)
  | NewSeqf ops data => rc ← kfio_info_create_seqf p name mode ops data; mret (rc, None)
  | NewText handler data => rc ← kfio_info_create_text p name mode handler data; mret (rc, None)
  end.

(** The node a request asks for, before it is linked; [None] for a bad type. *)
Definition requested (name : cstring) (mode : Z) (q : new_node) : option kfio_info_node :=
  match q with
  | NewDir => Some (mk_node None 0 KFIO_INFO_DIR 0 S_IRUGO None None name)
  | NewValue type size handler data =>
      sz ← fixed_size type size; Some (mk_node None data type sz mode None handler name)
  | NewSeqf ops data => Some (mk_node None data KFIO_INFO_SEQFILE 0 mode None ops name)
  | NewText handler data => Some (mk_node None data KFIO_INFO_TEXT 0 mode None handler name)
  end.

(** [s'] is [s] with the new node [i] at the end of directory [d]. *)
Record grown s s' d l i r : Prop := {
  gr_new : nodes s !! i = None;
  gr_list : subnodes s !! d = Some l;
  gr_nodes : ∃ e, nodes s' = <[i := set_parent (Some d) (set_os_priv (Some e) r)]> (nodes s);
  gr_subnodes c : c ≠ i → subnodes s' !! c = if decide (c = d) then Some (l ++ [i]) else subnodes s !! c
}.

Lemma alloc_node_run s type name :
  (∃ s', kfio_info_alloc_node type name s = Ok (None, s') ∧ same_tree s s' [])
  ∨ ∃ i, kfio_info_alloc_node type name s
         = Ok (Some i, with_nodes (<[i := mk_node None 0 type 0 0 None None name]> (nodes s))
                         (called [KMalloc i (sizeof_node + kfio_strlen name)] s))
       ∧ nodes s !! i = None ∧ kfio_strlen name <= KFIO_INFO_MAX_NAMELEN.
Proof.
  unfold kfio_info_alloc_node. destruct (_ >? _) eqn:Ln; rewrite Z.gtb_ltb in Ln.
  { left. exists s. split; [done|]. split; try done. by rewrite app_nil_r. }
  apply Z.ltb_ge in Ln. unfold kfio_malloc_node. destruct (kmalloc (dom (nodes s)) (kinfo_calls s)) as [i|] eqn:E.
  - right. exists i. erewrite stateful_bind_ok; [|by rewrite E]. split; [done|]. split; [|done].
    apply kmalloc_fresh in E. by apply not_elem_of_dom.
  - left. exists (called [] s). erewrite stateful_bind_ok; [|by rewrite E]. split; [done|].
    split; try done.
Qed.

(** A new node that is put into the tree, or freed. *)
Lemma insert_outcome s p i r :
  kinfo_wf s → nodes s !! i = None → ni_parent r = None → parent_ok s p → kfio_strlen (ni_name r) <= KFIO_INFO_MAX_NAMELEN →
  ∃ rc s', insert_or_free p i (staged s i r) = Ok (rc, s') ∧ kinfo_wf s'
    ∧ (rc = 0 ∧ (∃ d l, home s p = Some d ∧ grown s s' d l i r)
       ∨ insert_error s p r rc ∧ same_tree s s' (gone_again i r)).
Proof.
  intros W N Pr Pk Ln. pose proof (staged_wf ∅ s i r W N Pr Ln) as Ws. rewrite (right_id_L ∅ (∪)) in Ws.
  destruct (home_dir _ s p W Pk) as (d & l & Hd & (rd & Ed & Td) & L). assert (d ≠ i) as Ndi by congruence.
  assert (nodes (staged s i r) !! i = Some r) as Ei by by rewrite staged_nodes, decide_True.
  assert (subnodes (staged s i r) !! d = Some l) as Ls by (rewrite staged_list, decide_False by naive_solver; done).
  assert (∀ q, p = Some q → is_dir s q ∧ q ≠ i) as Pq.
  { intros q ->. split; [done|]. destruct Pk as (? & ? & _). congruence. }
  assert (parent_ok (staged s i r) p) as Pks by (destruct p; [apply staged_is_dir; [done|by left]|done]).
  assert (∀ q, p = Some q → q ∉ ({[i]} : gset node_id)) as Pm by (intros q Ep; destruct (Pq q Ep); set_solver).
  assert (∀ nm, named (staged s i r) nm l = named s nm l) as Nmd.
  { intros nm. apply named_frame. intros c Hc. destruct (wf_list _ W _ _ L) as (_ & _ & C).
    destruct (C c Hc) as (? & ? & _). by rewrite staged_nodes, decide_False by congruence. }
  destruct (link_node_run {[i]} _ p d l i r Ws ltac:(set_solver) Ei Pks Pm Hd Ls) as (rc & s1 & E & Hc).
  rewrite insert_or_free_in_steps. erewrite stateful_bind_ok; [|exact E]. cbv beta.
  destruct Hc as [(-> & Nm & e & base & ->)|(Er & Hs)].
  - do 2 eexists. split; [done|]. split.
    + unfold kinfo_wf. replace (∅ : gset node_id) with ({[i]} ∖ {[i]} : gset node_id) by set_solver.
      apply placed_wf; [done|set_solver|done|done|set_solver|]. intros Rt. apply Nm. destruct p; [done|]. cbn in Hd.
      change (kinfo_root_node s ≠ Some d) in Rt. congruence.
    + left. split; [done|]. exists d, l. split; [done|]. split; [done|done| |].
      * exists e. unfold placed, staged. cbn. by rewrite insert_insert_eq.
      * intros c Nc. rewrite placed_list. case_decide; [done|]. rewrite staged_list, decide_False by naive_solver. done.
  - unfold drop_node. rewrite (proj2 (Z.eqb_neq _ _) (insert_error_nonzero _ _ _ _ Er)). cbn [negb].
    erewrite stateful_bind_ok; [|apply (free_node_run _ i r); by destruct Hs as [-> | ->]].
    pose proof (freed_same _ s i r s1 W N Hs) as Sm. do 2 eexists. split; [done|]. split.
    + unfold kinfo_wf. replace (∅ : gset node_id) with ({[i]} ∖ {[i]} : gset node_id) by set_solver.
      apply freed_wf; [destruct Hs as [-> | ->]; [done|by apply called_wf]|set_solver|by destruct Hs as [-> | ->]].
    + right. split; [|done]. destruct Er as [[-> (d' & l' & c & rx & -> & L' & C' & Ec & Nm)]|[-> Fr]].
      * left. split; [done|]. destruct (Pq d' eq_refl) as [_ Nd']. rewrite staged_list, decide_False in L' by naive_solver.
        destruct (wf_list _ W _ _ L') as (_ & _ & C). destruct (C c C') as (rx0 & Ec0 & _).
        rewrite staged_nodes, decide_False in Ec by congruence. by exists d', l', c, rx.
      * right. split; [done|]. intros d' l' c r' Ep L' C' R'. destruct (Pq d' Ep) as [_ Nd'].
        apply (Fr d' l' c r' Ep); [rewrite staged_list, decide_False by naive_solver; done|done|].
        by rewrite staged_nodes, decide_False by congruence.
Qed.

(** What a creation comes to. *)
Definition create_outcome s s' p q name mode (rc : Z) (new : node_ptr) : Prop :=
  rc = 0 ∧ (∃ i r d l, requested name mode q = Some r ∧ home s p = Some d ∧ grown s s' d l i r
              ∧ (q = NewDir → new = Some i))
  ∨ rc ≠ 0 ∧ new = None ∧ (∃ es, same_tree s s' es)
    ∧ (rc = - ENOMEM ∨ rc = - EINVAL ∧ (p = None ∧ q ≠ NewDir ∨ requested name mode q = None)
       ∨ ∃ r, requested name mode q = Some r ∧ insert_error s p r rc).

(** *** The steps of a creation *)

Definition new_type (q : new_node) : Z :=
  match q with
  | NewDir => KFIO_INFO_DIR
  | NewValue type _ _ _ => type
  | NewSeqf _ _ => KFIO_INFO_SEQFILE
  | NewText _ _ => KFIO_INFO_TEXT
  end.

(** Only a directory may have no parent. *)
Definition parent_given (p : node_ptr) (q : new_node) : bool :=
  match p, q with Some _, _ | None, NewDir => true | None, _ => false end.

(** What the creators do before they take the lock: the node, or an error. *)
Definition make_node (p : node_ptr) (name : cstring) (mode : Z) (q : new_node) : K (Z + node_id) :=
  if negb (parent_given p q) then mret (inl (- EINVAL))
  else
    nodep ← kfio_info_alloc_node (new_type q) name;
    match nodep with
    | None => mret (inl (- ENOMEM))
    | Some i =>
        match requested name mode q with
        | None => kfio_info_free_node (Some i);; mret (inl (- EINVAL))
        | Some r =>
            set_node i r;;
            (if q is NewDir then fusion_init_subnodes i else mret tt);;
            mret (inr i)
        end
    end.

Definition new_dir (q : new_node) (i : node_id) (rc : Z) : node_ptr :=
  if negb (rc =? 0) then None else if q is NewDir then Some i else None.

(** The creators are these steps. *)
Lemma create_in_steps p name mode q s :
  create p name mode q s
  = (x ← make_node p name mode q;
     match x with
     | inl rc => mret (rc, None)
     | inr i => rc ← insert_or_free p i; mret (rc, new_dir q i rc)
     end) s.
Proof.
  destruct q as [|type size handler data|ops data|handler data]; destruct p as [d|]; try done.
  all: unfold create, make_node, requested, new_type, new_dir, parent_given,
         kfio_info_create_dir, kfio_info_create_proc, kfio_info_create_seqf, kfio_info_create_text.
  all: unfold set_node, fusion_init_subnodes, modify, mbind, stateful_bind, option_bind, mret, stateful_ret; cbn [negb].
  all: repeat (case_match; simplify_eq; try done).
Qed.

(** Neither a node nor memory is left. *)
Definition leaves_nothing s s' : Prop :=
  ∃ es, same_tree s s' es ∧ (es = [] ∨ ∃ i r, nodes s !! i = None ∧ es = gone_again i r).

Lemma leaves_nothing_wf P s s' : tree_wf P s → leaves_nothing s s' → tree_wf P s'.
Proof.
  intros W (es & T & [->|(i & r & N & ->)]); apply (same_tree_wf _ _ _ _ W T); [done|].
  intros m Hm. by eapply gone_again_mem, live_blocks_none.
Qed.

Definition make_error (p : node_ptr) q name mode (rc : Z) : Prop :=
  rc = - ENOMEM ∨ rc = - EINVAL ∧ (p = None ∧ q ≠ NewDir ∨ requested name mode q = None).

Lemma requested_made name mode q r :
  requested name mode q = Some r →
  ni_parent r = None ∧ ni_name r = name ∧ ni_type r = new_type q ∧ (ni_type r = KFIO_INFO_DIR ↔ q = NewDir).
Proof.
  destruct q as [|type size h dt| |]; cbn; [by intros [= <-]| |by intros [= <-]..].
  destruct (fixed_size type size) as [sz|] eqn:F; cbn; [|done]. intros [= <-]. cbn. do 3 (split; [done|]).
  split; [intros ->; by vm_compute in F|done].
Qed.

Lemma make_run P s p name mode q :
  tree_wf P s →
  ∃ x s', make_node p name mode q s = Ok (x, s')
    ∧ match x with
      | inl rc => make_error p q name mode rc ∧ leaves_nothing s s'
      | inr i => ∃ r, requested name mode q = Some r ∧ nodes s !! i = None
                   ∧ kfio_strlen (ni_name r) <= KFIO_INFO_MAX_NAMELEN ∧ s' = staged s i r
      end.
Proof.
  intros W. unfold make_node. destruct (negb (parent_given p q)) eqn:G.
  { do 2 eexists. split; [done|]. split; [right; split; [done|left]; by destruct p, q|].
    exists []. split; [|by left]. split; try done. by rewrite app_nil_r. }
  destruct (alloc_node_run s (new_type q) name) as [(s' & E & T)|(i & E & N & Ln)]; (erewrite stateful_bind_ok; [|exact E]); cbv beta iota.
  { do 2 eexists. split; [done|]. split; [by left|]. exists []. auto. }
  set (r0 := mk_node _ _ _ _ _ _ _ _). destruct (requested name mode q) as [r|] eqn:Q.
  - destruct (requested_made _ _ _ _ Q) as (Pr & Nm & Ty & Dr). erewrite stateful_bind_ok; [|done]. cbv beta.
    eexists (inr i), (staged s i r). split; [|exists r; split_and!; try done; by rewrite Nm].
    unfold staged, node_bytes. rewrite Nm. destruct q; [|rewrite (proj2 (Z.eqb_neq (ni_type r) KFIO_INFO_DIR)) by naive_solver..];
      [rewrite (proj2 (Z.eqb_eq (ni_type r) KFIO_INFO_DIR)) by naive_solver; erewrite stateful_bind_ok; [|done]
      |erewrite stateful_bind_ok; [|done]..];
      unfold with_nodes, with_subnodes, called; cbn; by rewrite insert_insert_eq.
  - erewrite stateful_bind_ok; [|apply free_node_run, lookup_insert_eq]. do 2 eexists. split; [done|].
    split; [right; auto|]. exists (gone_again i r0). split; [|right; eauto].
    split; cbn; rewrite ?delete_insert_id by done; try done; [apply delete_id; by eapply wf_subnodes_none|by rewrite <-(assoc_L (++))].
Qed.

Lemma create_node_outcome s p q name mode :
  kinfo_wf s → parent_ok s p →
  ∃ rc new s', create p name mode q s = Ok ((rc, new), s') ∧ kinfo_wf s' ∧ create_outcome s s' p q name mode rc new.
Proof.
  intros W Pk. rewrite create_in_steps. destruct (make_run ∅ s p name mode q W) as (x & s1 & E & Hx).
  erewrite stateful_bind_ok; [|exact E]. cbv beta. destruct x as [rc|i].
  - destruct Hx as [Er Ln]. do 3 eexists. split; [done|]. split; [by eapply leaves_nothing_wf|]. right.
    split; [by destruct Er as [-> | [-> _]]|]. split; [done|]. destruct Ln as (es & T & _). split; [eauto|]. destruct Er; auto.
  - destruct Hx as (r & Q & N & Ln & ->). destruct (requested_made _ _ _ _ Q) as (Pr & _).
    destruct (insert_outcome s p i r W N Pr Pk Ln) as (rc & s' & E' & W' & Hc).
    erewrite stateful_bind_ok; [|exact E']. do 3 eexists. split; [done|]. split; [done|].
    destruct Hc as [(-> & d & l & Hd & G)|(Er & T)]; [left|right].
    + split; [done|]. exists i, r, d, l. split_and!; try done. by intros ->.
    + pose proof (insert_error_nonzero _ _ _ _ Er) as Nz. split; [done|].
      split; [unfold new_dir; by rewrite (proj2 (Z.eqb_neq _ _) Nz)|]. split; [eauto|]. right. right. eauto.
Qed.

(** C37: Creating a node keeps the tree well formed and always returns.  On
    success the node is the new last entry of its parent (of the root, when the
    parent is NULL), with the contents asked for.  Otherwise nothing is left of
    it, and the result says why: no memory or a name of more than 64 characters,
    no parent or an unknown type, a name that is taken in the parent, or a proc
    file system that did not take the node. *)
Theorem create_effect s p q name mode :
  kinfo_wf s → parent_ok s p →
  ∃ rc new s', create p name mode q s = Ok ((rc, new), s') ∧ kinfo_wf s' ∧ create_outcome s s' p q name mode rc new.
Proof. apply create_node_outcome. Qed.
End spec.
