(* ===== verification/KinfoRemove.v ===== *)
(** * The information tree: removal

    [kfio_info_remove_node] walks down and up the tree instead of recurring.  The
    walk terminates and removes exactly the node and what is below it, each node
    once, and leaves a well-formed tree. *)
From S2P Require Import Prelude Kinfo KinfoSpec.

Section remove.
Context `{EL : KinfoEnvLaws}.
Implicit Types (s t : kinfo) (c d i : node_id) (r : kfio_info_node) (l : list node_id) (M : gset node_id).

(** [d] is the parent of [c]. *)
Definition child_of s c d : Prop := ∃ r, nodes s !! c = Some r ∧ ni_parent r = Some d.

(** [c] is [i] or below it. *)
Definition below s i c : Prop := rtc (child_of s) c i.

Lemma child_of_det s c d d' : child_of s c d → child_of s c d' → d = d'.
Proof. intros (r & E & P) (r' & E' & P'). congruence. Qed.

(** ** Removing one node *)

(** [s] without the node [i], which has contents [r]. *)
Definition dropped s i r (es : list kinfo_event) : kinfo :=
  logged (es ++ [KFree i (node_bytes r)])
    (with_subnodes (delete i (unlisted i <$> subnodes s)) (with_nodes (delete i (nodes s)) s)).

Lemma os_remove_run s p i r e :
  nodes s !! i = Some r → ni_os_priv r = Some e → (∀ d, p = Some d → is_Some (nodes s !! d)) →
  ∃ nm base, kfio_info_os_remove_node p (Some i) s
    = Ok (tt, logged [ProcRemove nm base] (with_nodes (<[i := set_os_priv None r]> (nodes s)) s)).
Proof.
  intros E Os P. unfold kfio_info_os_remove_node, kfio_info_node_get_name, kfio_info_node_get_os_private.
  do 2 (erewrite stateful_bind_ok; [|erewrite stateful_bind_ok; [|by apply node_run]; done]; cbv beta iota).
  rewrite Os. unfold kfio_info_node_set_os_private.
  erewrite stateful_bind_ok; [|erewrite stateful_bind_ok; [|by apply node_run]; done]. cbv beta iota.
  destruct p as [d|]; [|by do 2 eexists].
  assert (∃ rd, nodes (with_nodes (<[i := set_os_priv None r]> (nodes s)) s) !! d = Some rd) as [rd Ed].
  { cbn. destruct (decide (d = i)) as [->|]; [rewrite lookup_insert_eq; eauto|].
    rewrite lookup_insert_ne by done. by apply P. }
  erewrite stateful_bind_ok; [|erewrite stateful_bind_ok; [|by apply node_run]; done]. by do 2 eexists.
Qed.

Lemma drop_run M s i r :
  tree_wf M (with_lock false s) → nodes s !! i = Some r → kinfo_root_node s ≠ Some i → i ∉ M →
  ∃ nm base, (kfio_info_unlink_node (Some i);; kfio_info_free_node (Some i)) s
             = Ok (tt, dropped s i r [ProcRemove nm base]).
Proof.
  intros W E Nr Nm. destruct (wf_proc _ W i r E Nr Nm) as [e Os].
  assert (∃ d, ni_parent r = Some d ∧ is_Some (nodes s !! d)) as (d & P & Pd).
  { destruct (ni_parent r) as [d|] eqn:P; [|by destruct (wf_orphan _ W i r E P)].
    exists d. split; [done|]. destruct (wf_parent _ W i r d E P) as (l & L & _).
    destruct (wf_list _ W d l L) as ((rd & Ed & _) & _). by exists rd. }
  unfold kfio_info_unlink_node. rewrite stateful_bind_assoc.
  erewrite stateful_bind_ok; [|by apply node_run]. cbv beta iota. rewrite stateful_bind_assoc.
  erewrite stateful_bind_ok; [|done]. cbv beta. rewrite stateful_bind_assoc.
  set (p := if decide _ then _ else _).
  destruct (os_remove_run s p i r e E Os) as (nm & base & Eo).
  { intros q. unfold p. case_decide; [done|]. rewrite P. by intros [= <-]. }
  exists nm, base. erewrite stateful_bind_ok; [|exact Eo]. cbv beta. rewrite P. rewrite stateful_bind_assoc.
  erewrite stateful_bind_ok; [|done]. cbv beta. rewrite stateful_bind_assoc.
  erewrite stateful_bind_ok; [|apply node_run, lookup_insert_eq]. cbv beta iota.
  erewrite stateful_bind_ok; [|done]. cbv beta.
  rewrite (free_node_run _ i (set_parent None (set_os_priv None r))) by apply lookup_insert_eq.
  unfold dropped, freed, logged, with_nodes, with_subnodes. cbn. rewrite !delete_insert_eq, <-(assoc_L (++)). done.
Qed.

(** ** The invariant after the removal of a node without nodes of its own *)

Section dropped.
Context M s i r (nm : cstring) (base : option Z) (W : tree_wf M s).
Hypothesis E : nodes s !! i = Some r.
Hypothesis Nr : kinfo_root_node s ≠ Some i.
Hypothesis Nm : i ∉ M.
Hypothesis Leaf : ∀ l, subnodes s !! i = Some l → l = [].

Let s' := dropped s i r [ProcRemove nm base].

Lemma dropped_node c : nodes s' !! c = if decide (c = i) then None else nodes s !! c.
Proof. unfold s'. cbn. case_decide as D; [subst; by rewrite lookup_delete_eq|by rewrite lookup_delete_ne]. Qed.

Lemma dropped_list c : subnodes s' !! c = if decide (c = i) then None else unlisted i <$> subnodes s !! c.
Proof.
  unfold s'. cbn. case_decide as D; [subst; by rewrite lookup_delete_eq|].
  by rewrite lookup_delete_ne, lookup_fmap.
Qed.

Lemma no_child c rc : nodes s !! c = Some rc → ni_parent rc ≠ Some i.
Proof.
  intros Ec P. destruct (wf_parent _ W _ _ _ Ec P) as (l & L & C). rewrite (Leaf _ L) in C. by apply not_elem_of_nil in C.
Qed.

Lemma unlisted_in c l : c ∈ unlisted i l ↔ c ≠ i ∧ c ∈ l.
Proof. unfold unlisted. by rewrite list_elem_of_filter. Qed.

Lemma dropped_wf : tree_wf M s'.
Proof.
  pose proof (wf_root _ W) as (i0 & r0 & R0 & E0 & T0 & P0). assert (i0 ≠ i) by congruence.
  split.
  - intros d l'. rewrite dropped_list. case_decide; [done|]. intros (l & L & ->)%fmap_Some.
    destruct (wf_list _ W _ _ L) as ((rd & Ed & T) & ND & C). split; [|split].
    + exists rd. by rewrite dropped_node, decide_False.
    + unfold unlisted. by apply list.NoDup_filter.
    + intros c [Nc Hc]%unlisted_in. destruct (C c Hc) as (rc & Ec & Pc). exists rc. by rewrite dropped_node, decide_False.
  - intros c rc d. rewrite dropped_node, dropped_list. case_decide; [done|]. intros Ec P.
    destruct (wf_parent _ W _ _ _ Ec P) as (l & L & C). rewrite decide_False; [|intros ->; by eapply no_child].
    rewrite L. eexists. split; [done|]. by apply unlisted_in.
  - intros d (rd & Ed & T). rewrite dropped_node in Ed. rewrite dropped_list. case_decide; [done|].
    destruct (wf_dir _ W d) as [l ->]; [by exists rd|]. by eexists.
  - exists i0, r0. split; [done|]. by rewrite dropped_node, decide_False.
  - intros c rc. rewrite dropped_node. case_decide; [done|]. apply (wf_orphan _ W).
  - destruct (wf_rank _ W) as [rank K]. exists rank. intros c rc d. rewrite dropped_node. case_decide; [done|]. apply K.
  - intros d l' c1 c2 r1 r2. rewrite dropped_list, !dropped_node. case_decide; [done|].
    intros (l & L & ->)%fmap_Some Rt [N1 C1]%unlisted_in [N2 C2]%unlisted_in. rewrite !decide_False by done.
    by apply (wf_names _ W d l).
  - intros c rc. rewrite dropped_node. case_decide; [done|]. apply (wf_len _ W).
  - intros c rc. rewrite dropped_node. case_decide; [done|]. apply (wf_proc _ W).
  - intros c Hc. destruct (wf_made _ W c Hc) as (Rc & (rc & Ec & Pc) & Lc). assert (c ≠ i) by congruence.
    split; [done|]. split; [exists rc; by rewrite dropped_node, decide_False|].
    intros l'. rewrite dropped_list, decide_False by done. intros (l & L & ->)%fmap_Some. by rewrite (Lc l L).
  - apply (wf_unlocked _ W).
  - unfold s', dropped. cbn. rewrite live_blocks_app, (wf_memory _ W). cbn.
    rewrite lookup_fmap, E. cbn. rewrite decide_True by done. by rewrite fmap_delete.
Qed.
End dropped.

(** ** The walk *)

(** The walk that removes [i] from [s] has come to [t] and stands at the first
    node of [path], which leads up to [i]. *)
Record walking M s i t (path : list node_id) : Prop := {
  wk_wf : tree_wf M (with_lock false t);
  wk_lock : kinfo_locked t = kinfo_locked s;
  wk_root : kinfo_root_node t = kinfo_root_node s;
  wk_sub c r : nodes t !! c = Some r → nodes s !! c = Some r;
  wk_gone c r : nodes s !! c = Some r → nodes t !! c = None → below s i c;
  wk_lists d r : nodes t !! d = Some r →
    subnodes t !! d = filter (λ c, is_Some (nodes t !! c)) <$> subnodes s !! d;
  wk_dirs c : c ∈ path → is_dir t c;
  wk_links j c d : path !! j = Some c → path !! S j = Some d → child_of t c d;
  wk_end : path ≠ [] → list.last path = Some i;
  wk_done : path = [] → nodes t !! i = None
}.

Section walk.
Context M s i r (p : node_id) (W : tree_wf M (with_lock false s)).
Hypothesis E : nodes s !! i = Some r.
Hypothesis P : ni_parent r = Some p.

Lemma child_of_sub t path c d : walking M s i t path → child_of t c d → child_of s c d.
Proof. intros K (rc & Ec & Pc). exists rc. split; [by eapply wk_sub|done]. Qed.

Lemma path_below t path j c : walking M s i t path → path !! j = Some c → below s i c.
Proof.
  intros K. remember (length path - j)%nat as n eqn:Hn. revert j c Hn. induction n as [|n IH]; intros j c Hn Hj.
  - apply lookup_lt_Some in Hj. lia.
  - assert (path ≠ []) as Np by (by intros ->). pose proof (wk_end _ _ _ _ _ K Np) as La.
    destruct (path !! S j) as [d|] eqn:Hd.
    + eapply rtc_l; [eapply child_of_sub, wk_links; try done; exact K|]. apply (IH (S j)); [lia|done].
    + rewrite last_lookup in La. apply lookup_ge_None in Hd. apply lookup_lt_Some in Hj as Lj.
      replace (pred (length path)) with j in La by lia. rewrite La in Hj. injection Hj as ->. apply rtc_refl.
Qed.

(** A node below [i] has a rank of at least that of [i], above that of its parent. *)
Lemma below_not_parent c : below s i c → c ≠ p ∧ kinfo_root_node s ≠ Some c ∧ (c ∉ M).
Proof.
  intros B. destruct (wf_rank _ W) as [rank K].
  assert (rank i <= rank c)%nat.
  { induction B as [|c d e (rc & Ec & Pc) _ IH]; [done|]. pose proof (K c rc d Ec Pc). specialize (IH E). lia. }
  pose proof (K i r p E P). split; [by intros ->; lia|].
  assert (∃ rc d, nodes s !! c = Some rc ∧ ni_parent rc = Some d) as (rc & d & Ec & Pc).
  { inversion B as [|? d ? (rc & Ec & Pc)]; subst; eauto. }
  split; [|intros Hc; destruct (wf_made _ W c Hc) as (_ & (rc' & Ec' & Pc') & _); cbn in Ec'; congruence]. intros Rt.
  destruct (wf_root _ W) as (i0 & r0 & R0 & E0 & _ & P0). cbn in R0. rewrite Rt in R0. injection R0 as <-.
  cbn in E0. congruence.
Qed.

(** Everything below [i] goes with it. *)
Lemma walk_complete t c rc : walking M s i t [] → below s i c → nodes s !! c = Some rc → nodes t !! c = None.
Proof.
  intros K B. revert rc. induction B as [|c d e (rc' & Ec & Pc) B IH]; intros rc Er.
  - by apply (wk_done _ _ _ _ _ K).
  - destruct (nodes t !! c) as [r'|] eqn:Et; [|done]. pose proof (wk_sub _ _ _ _ _ K _ _ Et) as Es.
    assert (ni_parent r' = Some d) as Pr by congruence.
    destruct (wf_parent _ (wk_wf _ _ _ _ _ K) c r' d Et Pr) as (l & L & _).
    destruct (wf_list _ (wk_wf _ _ _ _ _ K) d l L) as ((rd & Ed & _) & _). cbn in Ed.
    pose proof (wk_sub _ _ _ _ _ K _ _ Ed) as Eds.
    by rewrite (IH E K rd Eds) in Ed.
Qed.

(** Going down to a directory on the list of the current one. *)
Lemma walk_down t c0 path c l :
  walking M s i t (c0 :: path) → subnodes t !! c0 = Some l → c ∈ l → is_dir t c → walking M s i t (c :: c0 :: path).
Proof.
  intros K L C D. destruct (wf_list _ (wk_wf _ _ _ _ _ K) c0 l L) as (_ & _ & Ch). destruct (Ch c C) as (rc & Ec & Pc).
  destruct K as [? ? ? ? ? ? Dirs Links End _]. split; try done.
  - intros x [->|Hx]%elem_of_cons; [done|by apply Dirs].
  - intros [|j] x y; [|apply Links]. intros [= <-] [= <-]. by exists rc.
  - intros _. rewrite last_cons_cons. by apply End.
Qed.

(** Removing a node that is on no path: a leaf of the current directory. *)
Lemma dropped_lists t j rj es d rd path :
  walking M s i t path → nodes (dropped t j rj es) !! d = Some rd →
  subnodes (dropped t j rj es) !! d
  = filter (λ c, is_Some (nodes (dropped t j rj es) !! c)) <$> subnodes s !! d.
Proof.
  intros K. cbn. intros [Nd Ed]%lookup_delete_Some. rewrite lookup_delete_ne, lookup_fmap by done.
  rewrite (wk_lists _ _ _ _ _ K _ _ Ed). destruct (subnodes s !! d) as [l|]; [|done]. cbn. f_equal.
  unfold unlisted. rewrite list_filter_filter. apply list_filter_iff. intros c.
  destruct (decide (c = j)) as [->|Nc].
  - rewrite lookup_delete_eq. split; [by intros [? ?]|by intros []].
  - rewrite lookup_delete_ne by done. split; [by intros [? ?]|done].
Qed.

Lemma walk_drop t j rj path path' nm base :
  walking M s i t path → nodes t !! j = Some rj → below s i j →
  (∀ l, subnodes t !! j = Some l → l = []) →
  j ∉ path' → path' = path ∨ path = j :: path' →
  walking M s i (dropped t j rj [ProcRemove nm base]) path'.
Proof.
  intros K Ej B Leaf Nj Hp. destruct (below_not_parent j B) as (_ & Nr & Nm). pose proof (wk_root _ _ _ _ _ K) as Rt.
  assert (∀ c, c ∈ path' → c ∈ path) as Sub by (destruct Hp as [-> | ->]; [done|]; intros; by right).
  split.
  - apply (dropped_wf M (with_lock false t) j rj nm base); try done; [by apply (wk_wf _ _ _ _ _ K)|]. cbn. congruence.
  - apply (wk_lock _ _ _ _ _ K).
  - done.
  - intros c rc. cbn. intros [_ Ec]%lookup_delete_Some. by eapply wk_sub.
  - intros c rc Ec. cbn. destruct (decide (c = j)) as [->|]; [done|]. rewrite lookup_delete_ne by done. by eapply wk_gone.
  - intros d rd Ed. by eapply dropped_lists.
  - intros c Hc. destruct (wk_dirs _ _ _ _ _ K c (Sub c Hc)) as (rc & Ec & T). exists rc. split; [|done]. cbn.
    rewrite lookup_delete_ne; [done|]. by intros <-.
  - intros k c d Hc Hd. assert (child_of t c d) as (rc & Ec & Pc).
    { destruct Hp as [-> | ->]; [by eapply wk_links|]. by eapply (wk_links _ _ _ _ _ K (S k)). }
    exists rc. split; [|done]. cbn. rewrite lookup_delete_ne; [done|]. intros <-. by eapply Nj, list_elem_of_lookup_2.
  - intros Np. destruct Hp as [-> | ->]; [by apply (wk_end _ _ _ _ _ K)|].
    pose proof (wk_end _ _ _ _ _ K ltac:(done)) as La. destruct path' as [|c path']; [done|]. by rewrite last_cons_cons in La.
  - intros ->. destruct Hp as [<- | ->]; cbn.
    + destruct (decide (i = j)) as [->|]; [by apply lookup_delete_eq|]. rewrite lookup_delete_ne by done. by apply (wk_done _ _ _ _ _ K).
    + pose proof (wk_end _ _ _ _ _ K ltac:(done)) as [= ->]. apply lookup_delete_eq.
Qed.

Definition standing (path : list node_id) : node_ptr := match path with [] => Some p | c :: _ => Some c end.

Lemma path_nodup t path : walking M s i t path → NoDup path.
Proof.
  intros K. destruct (wf_rank _ W) as [rank Kr].
  assert (∀ n j c d, path !! j = Some c → path !! (S n + j)%nat = Some d → (rank d < rank c)%nat) as Mono.
  { induction n as [|n IH]; intros j c d Hj Hd.
    - destruct (child_of_sub t path c d K (wk_links _ _ _ _ _ K j c d Hj Hd)) as (rc & Ec & Pc). by eapply Kr.
    - destruct (path !! (S n + j)%nat) as [e|] eqn:He.
      + pose proof (IH j c e Hj He).
        destruct (child_of_sub t path e d K (wk_links _ _ _ _ _ K (S n + j)%nat e d He Hd)) as (re & Ee & Pe).
        pose proof (Kr e re d Ee Pe). lia.
      + apply lookup_ge_None in He. apply lookup_lt_Some in Hd. lia. }
  apply list.NoDup_alt. intros j1 j2 c H1' H2'. destruct (decide (j1 = j2)) as [|N]; [done|exfalso].
  destruct (decide (j1 < j2)%nat).
  - pose proof (Mono (j2 - S j1)%nat j1 c c H1') as Lt. replace (S (j2 - S j1) + j1)%nat with j2 in Lt by lia.
    specialize (Lt H2'). lia.
  - pose proof (Mono (j1 - S j2)%nat j2 c c H2') as Lt. replace (S (j1 - S j2) + j2)%nat with j1 in Lt by lia.
    specialize (Lt H1'). lia.
Qed.

Lemma path_size t path : walking M s i t path → (length path <= size (nodes t))%nat.
Proof.
  intros K. rewrite <-(size_list_to_set (C := gset node_id)) by (by eapply path_nodup).
  rewrite <-(size_dom (D := gset node_id)). apply subseteq_size. intros c C%elem_of_list_to_set.
  destruct (wk_dirs _ _ _ _ _ K c C) as (rc & Ec & _). apply elem_of_dom. by eexists.
Qed.

(** Leaving a directory, the walk is where it came from. *)
Lemma parent_standing t c path rc : walking M s i t (c :: path) → nodes t !! c = Some rc → ni_parent rc = standing path.
Proof.
  intros K Ec. destruct path as [|d path].
  - pose proof (wk_end _ _ _ _ _ K ltac:(done)) as La. injection La as La. pose proof (wk_sub _ _ _ _ _ K _ _ Ec) as Es.
    rewrite La, E in Es. injection Es as <-. exact P.
  - destruct (wk_links _ _ _ _ _ K 0%nat c d eq_refl eq_refl) as (rc' & Ec' & Pc). cbn. congruence.
Qed.

(** A node that is no directory is not on the path, and has no list. *)
Lemma leaf_apart t path ch rh :
  walking M s i t path → nodes t !! ch = Some rh → (ni_type rh =? KFIO_INFO_DIR) = false →
  (∀ l, subnodes t !! ch = Some l → l = []) ∧ ch ∉ path.
Proof.
  intros K Eh Th. pose proof (wk_wf _ _ _ _ _ K) as Wt. split.
  - intros l' L'. destruct (wf_list _ Wt ch l' L') as ((rh' & Eh' & Th') & _). cbn in Eh'. exfalso.
    assert (rh = rh') as -> by congruence. by rewrite Th' in Th.
  - intros Hp. destruct (wk_dirs _ _ _ _ _ K ch Hp) as (rh' & Eh' & Th').
    assert (rh = rh') as -> by congruence. by rewrite Th' in Th.
Qed.

(** The walk ends, and ends with [i] removed. *)
Lemma remove_loop_run fuel inner t path :
  walking M s i t path → (inner = true → path ≠ []) → (2 * size (nodes t) < fuel + length path)%nat →
  ∃ t', remove_loop fuel inner (standing path) (Some p) t = Ok (tt, t') ∧ walking M s i t' [].
Proof.
  revert inner t path. induction fuel as [|fuel IH]; intros inner t path K Hin F;
    [pose proof (path_size t path K); lia|]. cbn [remove_loop].
  destruct path as [|c path].
  { destruct inner; [by destruct (Hin eq_refl)|]. cbn [standing negb andb]. rewrite bool_decide_eq_true_2 by done. eauto. }
  destruct (below_not_parent c ltac:(by eapply (path_below t _ 0%nat))) as (Ncp & Ncr & Ncm).
  cbn [standing]. rewrite bool_decide_eq_false_2 by (by intros [=]). rewrite andb_false_r.
  pose proof (wk_wf _ _ _ _ _ K) as Wt. destruct (wk_dirs _ _ _ _ _ K c ltac:(by left)) as (rc & Ec & Tc).
  destruct (wf_dir _ Wt c) as [l L]; [by exists rc|]. cbn in L.
  destruct (wf_list _ Wt c l L) as (Dc & _ & Ch).
  erewrite stateful_bind_ok; [|by apply subnode_list_run]. cbv beta.
  destruct l as [|ch l].
  - (* nothing left below: remove it and go up *)
    erewrite stateful_bind_ok; [|by apply node_run]. cbv beta iota.
    destruct (drop_run M t c rc Wt Ec) as (nm & base & Ed); [rewrite (wk_root _ _ _ _ _ K); done|done|].
    rewrite <-stateful_bind_assoc. erewrite stateful_bind_ok; [|exact Ed]. cbv beta.
    pose proof (path_nodup t _ K) as [Nc _]%list.NoDup_cons.
    rewrite (parent_standing t c path rc K Ec).
    apply IH; [|done|].
    + eapply (walk_drop t c rc (c :: path)); try done; [by eapply (path_below t _ 0%nat)| |by right].
      intros l' L'. congruence.
    + cbn. rewrite map_size_delete_Some by (by eexists). pose proof (map_size_ne_0_lookup_2 _ _ (mk_is_Some _ _ Ec)) as Sz. cbn in F. lia.
  - destruct (Ch ch ltac:(by left)) as (rh & Eh & Ph). cbn in Eh.
    erewrite stateful_bind_ok; [|by apply node_run]. cbv beta iota. destruct (ni_type rh =? KFIO_INFO_DIR) eqn:Th.
    + (* down *)
      apply (IH true t (ch :: c :: path)); [|done|cbn in *; lia].
      eapply walk_down; try done; [by left|]. exists rh. split; [done|]. lia.
    + (* a leaf goes *)
      assert (below s i ch) as Bch.
      { eapply rtc_l; [|by eapply (path_below t _ 0%nat)]. eapply child_of_sub; [done|]. by exists rh. }
      destruct (drop_run M t ch rh Wt Eh) as (nm & base & Ed);
        [rewrite (wk_root _ _ _ _ _ K); by apply below_not_parent|by apply below_not_parent|].
      rewrite <-stateful_bind_assoc. erewrite stateful_bind_ok; [|exact Ed]. cbv beta.
      apply (IH true _ (c :: path)); [|done|].
      * destruct (leaf_apart t (c :: path) ch rh K Eh Th) as [Hl Hp].
        eapply (walk_drop t ch rh (c :: path)); try done; by left.
      * cbn. rewrite map_size_delete_Some by (by eexists). pose proof (map_size_ne_0_lookup_2 _ _ (mk_is_Some _ _ Eh)) as Sz. cbn in F. lia.
Qed.
End walk.

(** ** What a removal does *)

Record removed s i s' : Prop := {
  rm_gone c : below s i c → nodes s' !! c = None;
  rm_kept c r : nodes s !! c = Some r → ¬ below s i c → nodes s' !! c = Some r;
  rm_old c r : nodes s' !! c = Some r → nodes s !! c = Some r;
  rm_list d r : nodes s' !! d = Some r → subnodes s' !! d = unlisted i <$> subnodes s !! d
}.

Lemma walk_removed M s i r p t :
  tree_wf M (with_lock false s) → nodes s !! i = Some r → ni_parent r = Some p → walking M s i t [] → removed s i t.
Proof.
  intros W E P K. assert (∀ c, below s i c → nodes t !! c = None) as Gone.
  { intros c B. destruct (nodes t !! c) as [rc|] eqn:Ec; [|done]. rewrite <-Ec.
    eapply walk_complete; [exact E|exact K|exact B|]. by eapply (wk_sub _ _ _ _ _ K). }
  split; [done| |by apply (wk_sub _ _ _ _ _ K)|].
  - intros c rc Ec Nb. destruct (nodes t !! c) as [rc'|] eqn:Et.
    + by rewrite (wk_sub _ _ _ _ _ K _ _ Et) in Ec.
    + by destruct (Nb (wk_gone _ _ _ _ _ K _ _ Ec Et)).
  - intros d rd Ed. rewrite (wk_lists _ _ _ _ _ K _ _ Ed). destruct (subnodes s !! d) as [l|] eqn:L; [|done].
    cbn. f_equal. destruct (wf_list _ W d l L) as (_ & _ & Ch). unfold unlisted.
    apply filter_ext_in. intros c Hc. destruct (Ch c Hc) as (rc & Ec & Pc). cbn in Ec. split.
    + intros [rc' Et] ->. by rewrite (wk_done _ _ _ _ _ K) in Et.
    + intros Nc. destruct (nodes t !! c) as [rc'|] eqn:Et; [by eexists|].
      pose proof (wk_gone _ _ _ _ _ K _ _ Ec Et) as B. inversion B as [|? d' ? Cd Bd]; subst; [done|].
      assert (d' = d) as -> by (eapply child_of_det; [exact Cd|by exists rc]). by rewrite (Gone d Bd) in Ed.
Qed.

(** The walk at its start. *)
Lemma walk_start M s i :
  tree_wf M (with_lock false s) → is_dir s i → walking M s i s [i].
Proof.
  intros W D. split; try done.
  - intros c r Ec En. congruence.
  - intros d r Ed. destruct (subnodes s !! d) as [l|] eqn:L; [|done]. cbn. f_equal.
    destruct (wf_list _ W d l L) as (_ & _ & Ch).
    symmetry. apply filter_all. intros c Hc. destruct (Ch c Hc) as (rc & Ec & _). by exists rc.
  - by intros c ->%list_elem_of_singleton.
Qed.

(** A node that is no directory is removed at once. *)
Lemma walk_leaf M t i r nm base :
  tree_wf M (with_lock false t) → nodes t !! i = Some r → kinfo_root_node t ≠ Some i → i ∉ M → ni_type r ≠ KFIO_INFO_DIR →
  walking M t i (dropped t i r [ProcRemove nm base]) [].
Proof.
  intros W E Nr Nm D. assert (∀ l, subnodes t !! i = Some l → l = []) as Leaf.
  { intros l L. destruct (wf_list _ W i l L) as ((r' & E' & T') & _). cbn in E'. congruence. }
  split; try done.
  - apply (dropped_wf M (with_lock false t) i r nm base); try done.
  - intros c rc. cbn. by intros [_ Ec]%lookup_delete_Some.
  - intros c rc Ec En. cbn in En. apply lookup_delete_None in En as [->|En]; [apply rtc_refl|]. congruence.
  - intros d rd Ed'. cbn in Ed' |- *. apply lookup_delete_Some in Ed' as [Nd Ed']. rewrite lookup_delete_ne by done.
    rewrite lookup_fmap. destruct (subnodes t !! d) as [l|] eqn:L; [|done]. cbn. f_equal.
    destruct (wf_list _ W d l L) as (_ & _ & Ch). unfold unlisted. symmetry.
    apply filter_ext_in. intros c Hc. destruct (Ch c Hc) as (rc & Ec & _). destruct (decide (c = i)) as [->|Nc].
    + rewrite lookup_delete_eq. split; [by intros []|done].
    + rewrite lookup_delete_ne by done. split; [done|by exists rc].
  - intros c Hc. by apply not_elem_of_nil in Hc.
  - intros _. apply lookup_delete_eq.
Qed.

Lemma remove_node_effect M s i r :
  tree_wf M s → nodes s !! i = Some r → kinfo_root_node s ≠ Some i → i ∉ M →
  ∃ s', kfio_info_remove_node (Some (Some i)) s = Ok (Some None, s') ∧ tree_wf M s' ∧ removed s i s'
    ∧ kinfo_root_node s' = kinfo_root_node s.
Proof.
  intros W E Nr Nm. pose proof (wf_unlocked _ W) as U. set (t := with_lock true s).
  assert (with_lock false t = s) as Tw by (destruct s; cbn in *; by subst).
  assert (tree_wf M (with_lock false t)) as Wt by by rewrite Tw.
  assert (∃ p, ni_parent r = Some p) as [p P].
  { destruct (ni_parent r) as [p|] eqn:P; [eauto|]. by destruct (wf_orphan _ W i r E P). }
  unfold kfio_info_remove_node.
  erewrite stateful_bind_ok; [|unfold fusion_mutex_lock; by rewrite U]. cbv beta iota.
  erewrite stateful_bind_ok; [|by apply node_run]. cbv beta iota. fold t.
  assert (∃ t', (if ni_type r =? KFIO_INFO_DIR
                 then λ s, remove_loop (2 * size (nodes s) + 1) false (Some i) (ni_parent r) s
                 else kfio_info_unlink_node (Some i);; kfio_info_free_node (Some i)) t = Ok (tt, t')
                ∧ walking M t i t' []) as (t' & Et & K).
  { destruct (Z.eqb_spec (ni_type r) KFIO_INFO_DIR) as [D|D]; rewrite ?P.
    - apply (remove_loop_run M t i r p Wt E P _ false t [i]); [apply walk_start; [done|by exists r]|done|cbn; lia].
    - destruct (drop_run M t i r Wt E Nr Nm) as (nm & base & Ed). eexists. split; [exact Ed|].
      by apply walk_leaf. }
  erewrite stateful_bind_ok; [|exact Et]. cbv beta.
  pose proof (wk_lock _ _ _ _ _ K) as Lk. cbn in Lk.
  erewrite stateful_bind_ok; [|unfold fusion_mutex_unlock; by rewrite Lk]. cbv beta.
  exists (with_lock false t'). split; [done|]. split; [apply (wk_wf _ _ _ _ _ K)|]. split; [|apply (wk_root _ _ _ _ _ K)].
  pose proof (walk_removed M t i r p t' Wt E P K) as [G Kp O L]. by split.
Qed.
End remove.
