(* ===== verification/KinfoSystem.v ===== *)
(** * The information tree over time, and its lists in memory

    The tree from the start of the driver through any sequence of creations and
    removals, and the proof that the sequences of Kinfo are what list.h keeps in
    the [node_entry] and [subnode_list] cells of the nodes. *)
From S2P Require Import Prelude DList DListSpec Kinfo KinfoSpec KinfoRemove.

Section system.
Context `{EL : KinfoEnvLaws}.
Implicit Types (s : kinfo) (c d i : node_id) (r : kfio_info_node) (l : list node_id).

(** ** Reachable trees *)

Definition before_init : kinfo := mk_kinfo ∅ ∅ None false false None 0 [].

(** Creations with a parent that is NULL or a directory, and removals of nodes
    other than the root. *)
Inductive kinfo_step s : kinfo → Prop :=
| k_create p q name mode x s' : parent_ok s p → create p name mode q s = Ok (x, s') → kinfo_step s s'
| k_remove i x s' :
    is_Some (nodes s !! i) → kinfo_root_node s ≠ Some i →
    kfio_info_remove_node (Some (Some i)) s = Ok (x, s') → kinfo_step s s'.

Lemma kinfo_step_wf s s' : kinfo_wf s → kinfo_step s s' → kinfo_wf s'.
Proof.
  intros W [p q name mode x s1 P E | i x s1 [r L] N E].
  - destruct (create_node_outcome s p q name mode W P) as (rc & new & s2 & E' & W' & _).
    rewrite E' in E. by injection E as _ <-.
  - destruct (remove_node_effect ∅ s i r W L N (not_elem_of_empty i)) as (s2 & E' & W' & _). rewrite E' in E. by injection E as _ <-.
Qed.

(** What [kfio_info_driver_init] can come to. *)
Lemma driver_init_run :
  (∃ s, kfio_info_driver_init before_init = Ok (0, s) ∧ kinfo_wf s)
  ∨ ∃ s, kfio_info_driver_init before_init = Ok (- ENOMEM, s) ∧ nodes s = ∅ ∧ kinfo_root_node s = None
      ∧ live_blocks (kinfo_events s) = Some ∅.
Proof.
  unfold kfio_info_driver_init. destruct (alloc_node_run before_init KFIO_INFO_DIR UFIO_KINFO_ROOT) as
    [(s & E & T)|(i & E & N & Ln)].
  { right. exists s. erewrite stateful_bind_ok; [|exact E]. destruct T as [T1 T2 T3 T4 T5]. split; [done|].
    split; [done|]. split; [done|]. by rewrite T5. }
  erewrite stateful_bind_ok; [|exact E]. cbv beta iota.
  do 4 (erewrite stateful_bind_ok; [|done]; cbv beta).
  unfold kfio_info_os_driver_init. rewrite stateful_bind_assoc.
  set (r := mk_node None 0 KFIO_INFO_DIR 0 S_IRUGO None None UFIO_KINFO_ROOT). cbn [before_init nodes].
  destruct (proc_entry 1) as [e|] eqn:Ep.
  - left. erewrite stateful_bind_ok; [|unfold proc_create; cbn; by rewrite Ep]. cbv beta.
    erewrite stateful_bind_ok; [|done]. cbv beta. eexists. split; [done|].
    cbn. rewrite insert_insert_eq. assert (∀ c rc, (<[i := r]> ∅ : gmap node_id _) !! c = Some rc → c = i ∧ rc = r) as Only.
    { intros c rc. rewrite lookup_insert_Some, lookup_empty. naive_solver. }
    split; cbn.
    + intros d l. rewrite lookup_insert_Some, lookup_empty. intros [[<- <-]|[_ [=]]].
      split; [exists r; split; [apply lookup_insert_eq|done]|]. split; [constructor|]. by intros c ?%not_elem_of_nil.
    + by intros c rc d [-> ->]%Only.
    + intros d (rd & [-> ->]%Only & _). rewrite lookup_insert_eq. by eexists.
    + exists i, r. split; [done|]. by rewrite lookup_insert_eq.
    + intros c rc [-> ->]%Only _. by left.
    + exists (λ _, 0%nat). by intros c rc d [-> ->]%Only.
    + intros d l c1 c2 r1 r2. rewrite lookup_insert_Some, lookup_empty. intros [[<- <-]|[_ [=]]] Rt. by destruct Rt.
    + by intros c rc [-> ->]%Only.
    + intros c rc [-> ->]%Only Rt. by destruct Rt.
    + by intros c ?%not_elem_of_empty.
    + done.
    + by rewrite fmap_insert, fmap_empty.
  - right. erewrite stateful_bind_ok; [|unfold proc_create; cbn; by rewrite Ep]. cbv beta.
    erewrite stateful_bind_ok; [|done]. cbv beta. change (negb (- ENOMEM =? 0)) with true. cbv iota.
    unfold kfio_info_driver_fini, get, kfio_info_free_node, node, modify, mbind, stateful_bind, mret, stateful_ret.
    cbn. rewrite lookup_insert_eq. cbn. eexists. split; [done|]. cbn. rewrite !delete_insert_eq, ?delete_empty.
    split; [done|]. split; [done|]. by rewrite decide_True by apply lookup_insert_eq.
Qed.

(** From the start of the driver on, through any sequence of creations and
    removals, the tree is well formed: every node but the root is on the list of
    one parent, there are no cycles, names are unique in each directory below the
    root, the blocks allocated and not freed are the nodes with their sizes, and
    the lock is free.  And every further creation or removal returns. *)
Theorem tree_invariant s0 s :
  kfio_info_driver_init before_init = Ok (0, s0) → rtc kinfo_step s0 s →
  kinfo_wf s
  ∧ (∀ p q name mode, parent_ok s p → ∃ x s', create p name mode q s = Ok (x, s'))
  ∧ (∀ i, is_Some (nodes s !! i) → kinfo_root_node s ≠ Some i →
       ∃ s', kfio_info_remove_node (Some (Some i)) s = Ok (Some None, s')).
Proof.
  intros E R. assert (kinfo_wf s) as W.
  { assert (kinfo_wf s0) as W0.
    { destruct driver_init_run as [(s1 & E1 & W1)|(s1 & E1 & _)]; rewrite E1 in E; [by injection E as <-|discriminate]. }
    clear E. induction R; [done|]. eauto using kinfo_step_wf. }
  split; [done|]. split.
  - intros p q name mode P. destruct (create_node_outcome s p q name mode W P) as (rc & new & s' & E' & _). eauto.
  - intros i [r L] N. destruct (remove_node_effect ∅ s i r W L N (not_elem_of_empty i)) as (s' & E' & _). eauto.
Qed.

(** C10: Removing a node removes exactly the node and what is below it, whatever
    the shape of the tree, keeps the rest as it was, takes the node off the list
    of its parent, clears the caller's pointer and keeps the tree well formed, so
    every removed node was freed once with the size it was allocated with. *)
Theorem remove_node_removes_subtree s i r :
  kinfo_wf s → nodes s !! i = Some r → kinfo_root_node s ≠ Some i →
  ∃ s', kfio_info_remove_node (Some (Some i)) s = Ok (Some None, s') ∧ kinfo_wf s'
    ∧ (∀ c, below s i c → nodes s' !! c = None)
    ∧ (∀ c rc, nodes s !! c = Some rc → ¬ below s i c → nodes s' !! c = Some rc
                 ∧ subnodes s' !! c = unlisted i <$> subnodes s !! c)
    ∧ live_blocks (kinfo_events s') = Some (node_bytes <$> nodes s').
Proof.
  intros W E N. destruct (remove_node_effect ∅ s i r W E N (not_elem_of_empty i)) as (s' & Es & W' & Rm & _).
  exists s'. split; [done|]. split; [done|]. split; [apply Rm|]. split; [|apply (wf_memory _ W')].
  intros c rc Ec Nb. pose proof (rm_kept _ _ _ Rm c rc Ec Nb) as Ec'. split; [done|]. by eapply rm_list.
Qed.

(** ** The lists in memory *)

(** The addresses of a node's [node_entry] and of its [uu.subnode_list]. *)
Definition entry_of i : loc := xO i.
Definition head_of i : loc := xI i.

(** The cells of the nodes hold the lists of the tree; a node without a parent
    has an entry that is on no list. *)
Record lists_rep s (A : gmap loc cstate) : Prop := {
  lr_heads d l : subnodes s !! d = Some l → A !! head_of d = Some (Head (entry_of <$> l));
  lr_free i r : nodes s !! i = Some r → ni_parent r = None → A !! entry_of i = Some (Head [])
}.

Lemma unit_run (m : HM unit) h h' : (m;; mret None : HM ptr) h = Ok (None, h') → m h = Ok (tt, h').
Proof.
  unfold mbind, stateful_bind. destruct (m h) as [[[] h1]|]; [|done]. cbv. by intros [= ->].
Qed.

(** [s] with the node [i] linked to the end of the list of [d]. *)
Definition linked_to s d l i r : kinfo :=
  with_subnodes (<[d := l ++ [i]]> (subnodes s)) (with_nodes (<[i := set_parent (Some d) r]> (nodes s)) s).

(** Linking a node on the model's sequences is what
    [fusion_list_add_tail] does to the cells in memory. *)
Theorem add_tail_implemented s h A d l i r :
  rep h A → lists_rep s A → nodes s !! i = Some r → ni_parent r = None → subnodes s !! d = Some l →
  ∃ h' A', fusion_list_add_tail (Some (entry_of i)) (Some (head_of d)) h = Ok (tt, h') ∧ rep h' A'
    ∧ lists_rep (linked_to s d l i r) A'.
Proof.
  intros Rh [Hd Fr] E P L.
  destruct (list_ops_implemented h A (OAddTail (entry_of i) (head_of d)) None
              (<[head_of d := Head ((entry_of <$> l) ++ [entry_of i])]> (delete (entry_of i) A)) Rh) as (h' & Ex & Rh').
  { apply (a_add_tail _ _ _ (Head [])); [by eapply Fr|by right|done|by apply Hd]. }
  exists h'. eexists. split; [|split; [exact Rh'|]].
  - by apply unit_run in Ex.
  - split; cbn.
    + intros c l'. rewrite lookup_insert_Some. intros [[<- <-]|[Nc Lc]].
      * by rewrite lookup_insert_eq, fmap_app.
      * rewrite lookup_insert_ne by (by intros [=]). rewrite lookup_delete_ne by done. by apply Hd.
    + intros j rj. rewrite lookup_insert_Some. intros [[<- <-]|[Nj Ej]] Pj; [done|].
      rewrite lookup_insert_ne by done. rewrite lookup_delete_ne by (by intros [=]). by eapply Fr.
Qed.

(** Unlinking a node on the model's sequences is what [fusion_list_del] does
    to the cells in memory. *)
Theorem list_del_implemented s h A d l i r :
  kinfo_wf s → rep h A → lists_rep s A → nodes s !! i = Some r → ni_parent r = Some d → subnodes s !! d = Some l →
  ∃ h' A', fusion_list_del (Some (entry_of i)) h = Ok (tt, h') ∧ rep h' A'
    ∧ lists_rep (with_subnodes (unlisted i <$> subnodes s) (with_nodes (<[i := set_parent None r]> (nodes s)) s)) A'.
Proof.
  intros W Rh [Hd Fr] E P L. destruct (wf_list _ W d l L) as (_ & ND & Ch).
  destruct (wf_parent _ W i r d E P) as (l' & L' & (xs & ys & ->)%list_elem_of_split). rewrite L in L'. injection L' as ->.
  assert (unlisted i (xs ++ i :: ys) = xs ++ ys) as Un.
  { apply list.NoDup_app in ND as (_ & Dj & ND). apply list.NoDup_cons in ND as [Niy _].
    unfold unlisted. rewrite list.filter_app, filter_cons_False by (intros K; by apply K).
    rewrite !filter_all; [done| |]; intros c Hc ->; [done|]. apply (Dj i Hc). by left. }
  destruct (list_ops_implemented h A (ODel (entry_of i)) None
    (<[entry_of i := Head []]> (<[head_of d := Head ((entry_of <$> xs) ++ (entry_of <$> ys))]> A)) Rh) as (h' & Ex & Rh').
  { constructor. constructor. rewrite (Hd d _ L). by rewrite fmap_app. }
  exists h'. eexists. split; [|split; [exact Rh'|]].
  - by apply unit_run in Ex.
  - split; cbn.
    + intros c lc. rewrite lookup_fmap. intros (l0 & L0 & ->)%fmap_Some. rewrite lookup_insert_ne by done.
      destruct (decide (c = d)) as [->|Nc].
      * rewrite L in L0. injection L0 as <-. by rewrite lookup_insert_eq, Un, fmap_app.
      * rewrite lookup_insert_ne by (by intros [=]). rewrite (Hd c l0 L0). do 3 f_equal. symmetry. apply filter_all.
        intros x Hx ->. destruct (wf_list _ W c l0 L0) as (_ & _ & Ch0). destruct (Ch0 i Hx) as (r0 & E0 & P0). congruence.
    + intros j rj. rewrite lookup_insert_Some. intros [[<- <-]|[Nj Ej]] Pj; [by rewrite lookup_insert_eq|].
      rewrite !lookup_insert_ne by (done || by intros [=]). by eapply Fr.
Qed.
End system.

(** ** An instance *)

(** Addresses and proc entries are the numbers of the calls. *)
Definition small_env : KinfoEnv := {|
  kmalloc live k := let i := Pos.of_succ_nat k in if decide (i ∈ live) then None else Some i;
  proc_entry k := Some (Z.of_nat k);
  sizeof_node := 96 |}.

Lemma small_env_laws : @KinfoEnvLaws small_env.
Proof. split. intros live k i. cbn. by case_decide; intros [= <-]. Qed.

Definition state_after {A} (o : outcome (A * kinfo)) : kinfo := match o with Ok (_, s) => s | Fault _ => before_init end.

(** The root; "ab" under it; "c", a directory, and "d", a value, under "ab"; "d",
    a text, under "c". *)
Definition tree0 : kinfo := state_after (@kfio_info_driver_init small_env before_init).
Definition tree1 : kinfo := state_after (@create small_env None [97; 98] 0 NewDir tree0).
Definition ab : node_id := 3.
Definition tree2 : kinfo := state_after (@create small_env (Some ab) [99] 0 NewDir tree1).
Definition nc : node_id := 5.
Definition tree3 : kinfo := state_after (@create small_env (Some ab) [100] 292 (NewValue KFIO_INFO_UINT32 0 None 4096) tree2).
Definition tree4 : kinfo := state_after (@create small_env (Some nc) [100] 292 (NewText (Some 7) 0) tree3).

Lemma tree4_reached : rtc (@kinfo_step small_env) tree0 tree4.
Proof.
  eapply rtc_l; [by apply (@k_create small_env tree0 None NewDir [97; 98] 0 (0, Some ab) tree1); vm_compute|].
  eapply rtc_l.
  { apply (@k_create small_env tree1 (Some ab) NewDir [99] 0 (0, Some nc) tree2); [|by vm_compute].
    eexists. by split; vm_compute. }
  eapply rtc_l.
  { apply (@k_create small_env tree2 (Some ab) (NewValue KFIO_INFO_UINT32 0 None 4096) [100] 292 (0, None) tree3);
      [|by vm_compute]. eexists. by split; vm_compute. }
  eapply rtc_l; [|apply rtc_refl].
  apply (@k_create small_env tree3 (Some nc) (NewText (Some 7) 0) [100] 292 (0, None) tree4); [|by vm_compute].
  eexists. by split; vm_compute.
Qed.

Lemma tree0_wf : @kinfo_wf small_env tree0.
Proof.
  destruct (@driver_init_run small_env small_env_laws) as [(s & E & W)|(s & E & _)]; vm_compute in E; [|discriminate].
  assert (tree0 = s) as -> by (injection E as <-; by vm_compute). done.
Qed.

Lemma reached_wf s : rtc (@kinfo_step small_env) tree0 s → @kinfo_wf small_env s.
Proof. intros R. pose proof tree0_wf as W. induction R as [|x y z St _ IH]; [done|].
  apply IH. by apply (@kinfo_step_wf small_env small_env_laws x).
Qed.

Lemma tree_invariant_witness :
  @kfio_info_driver_init small_env before_init = Ok (0, tree0) ∧ rtc (@kinfo_step small_env) tree0 tree4
  ∧ @kinfo_wf small_env tree4
  ∧ ∃ x s', @create small_env (Some ab) [99] 0 (NewSeqf (Some 9) 0) tree4 = Ok (x, s') ∧ x = (- EEXIST, None).
Proof.
  assert (@kfio_info_driver_init small_env before_init = Ok (0, tree0)) as E by (vm_compute; reflexivity).
  destruct (@tree_invariant small_env small_env_laws tree0 tree4 E tree4_reached) as (W & C & _).
  split; [exact E|]. split; [exact tree4_reached|]. split; [exact W|].
  destruct (C (Some ab) (NewSeqf (Some 9) 0) [99] 0) as (x & s' & Ex).
  - eexists. split; [vm_compute; reflexivity|done].
  - exists x, s'. split; [exact Ex|]. vm_compute in Ex. by injection Ex as <- _.
Defined.

Lemma create_effect_witness :
  ∃ rc new s', @create small_env (Some nc) [101] 0 NewDir tree4 = Ok ((rc, new), s') ∧ @kinfo_wf small_env s' ∧ rc = 0.
Proof.
  destruct (@create_effect small_env small_env_laws tree4 (Some nc) NewDir [101] 0 (reached_wf _ tree4_reached))
    as (rc & new & s' & E & W & _).
  - eexists. split; [vm_compute; reflexivity|done].
  - exists rc, new, s'. split; [exact E|]. split; [exact W|]. vm_compute in E. by injection E as <-.
Defined.

Lemma remove_node_removes_subtree_witness :
  ∃ s', @kfio_info_remove_node small_env (Some (Some ab)) tree4 = Ok (Some None, s')
        ∧ @kinfo_wf small_env s' ∧ nodes s' !! nc = None ∧ size (nodes s') = 1%nat.
Proof.
  destruct (@remove_node_removes_subtree small_env tree4 ab
              (mk_node (Some 1%positive) 0 KFIO_INFO_DIR 0 S_IRUGO (Some 3) None [97; 98]) (reached_wf _ tree4_reached))
    as (s' & E & W & B & _); [vm_compute; reflexivity|by vm_compute|].
  exists s'. split; [exact E|]. split; [exact W|]. split.
  - apply B. eapply rtc_l; [|apply rtc_refl]. eexists. split; [vm_compute; reflexivity|done].
  - vm_compute in E. injection E as <-. by vm_compute.
Defined.

(** A root directory at 1 and a new node at 2, as cells. *)
Definition list_tree : kinfo :=
  mk_kinfo {[ 1%positive := mk_node None 0 KFIO_INFO_DIR 0 0 None None []; 2%positive := mk_node None 0 6 0 0 (Some 1) None [97] ]}
    {[ 1%positive := [] ]} (Some 1%positive) false true None 0 [].
Definition list_cells : DList.heap :=
  {[ 2%positive := mk_entry (Some 2%positive) (Some 2%positive); 3%positive := mk_entry (Some 3%positive) (Some 3%positive);
     4%positive := mk_entry (Some 4%positive) (Some 4%positive) ]}.
Definition list_heads : gmap loc cstate := {[ 2%positive := Head []; 3%positive := Head []; 4%positive := Head [] ]}.

Lemma list_heads_rep : rep list_cells list_heads.
Proof.
  split.
  - intros k c. unfold list_heads. rewrite !lookup_insert_Some, lookup_singleton_Some.
    intros [[<- <-]|[_ [[<- <-]|[_ [<- <-]]]]]; apply is_list_nil; by vm_compute.
  - intros l1 l2 c1 c2 Ne. unfold list_heads. rewrite !lookup_insert_Some, !lookup_singleton_Some.
    intros [[<- <-]|[_ [[<- <-]|[_ [<- <-]]]]] [[<- <-]|[_ [[<- <-]|[_ [<- <-]]]]]; try done;
      cbn; by intros a ->%list_elem_of_singleton [=]%list_elem_of_singleton.
Qed.

Lemma list_tree_rep : lists_rep list_tree list_heads.
Proof.
  split.
  - intros d l. cbn. rewrite lookup_singleton_Some. intros [<- <-]. by vm_compute.
  - intros i r. cbn. rewrite lookup_insert_Some, lookup_singleton_Some.
    intros [[<- <-]|[_ [<- <-]]] _; by vm_compute.
Qed.

Lemma add_tail_implemented_witness :
  ∃ h' A', fusion_list_add_tail (Some 4%positive) (Some 3%positive) list_cells = Ok (tt, h') ∧ rep h' A'
           ∧ A' !! 3%positive = Some (Head [4%positive]).
Proof.
  destruct (add_tail_implemented list_tree list_cells list_heads 1 [] 2 (mk_node None 0 6 0 0 (Some 1) None [97])
              list_heads_rep list_tree_rep) as (h' & A' & E & R & [Hd _]); try (by vm_compute).
  exists h', A'. split; [exact E|]. split; [exact R|]. apply (Hd 1%positive [2%positive]). by vm_compute.
Defined.

#[global] Instance cstate_eq_dec : EqDecision cstate.
Proof. solve_decision. Defined.

(** The tree [tree1]: the root at 1 with the directory "ab" at 3. *)
Definition tree1_cells : DList.heap :=
  {[ 2%positive := mk_entry (Some 2%positive) (Some 2%positive); 3%positive := mk_entry (Some 6%positive) (Some 6%positive);
     6%positive := mk_entry (Some 3%positive) (Some 3%positive); 7%positive := mk_entry (Some 7%positive) (Some 7%positive) ]}.
Definition tree1_heads : gmap loc cstate :=
  {[ 2%positive := Head []; 3%positive := Head [6%positive]; 7%positive := Head [] ]}.

Lemma tree1_heads_rep : rep tree1_cells tree1_heads.
Proof.
  split.
  - intros k c. unfold tree1_heads. rewrite !lookup_insert_Some, lookup_singleton_Some.
    intros [[<- <-]|[_ [[<- <-]|[_ [<- <-]]]]]; cbn; try (apply is_list_nil; by vm_compute).
    split; [by repeat constructor; set_solver|]. by repeat split.
  - intros l1 l2 c1 c2 Ne. unfold tree1_heads. rewrite !lookup_insert_Some, !lookup_singleton_Some.
    intros [[<- <-]|[_ [[<- <-]|[_ [<- <-]]]]] [[<- <-]|[_ [[<- <-]|[_ [<- <-]]]]]; try done; cbn; set_solver.
Qed.

Lemma tree1_rep : lists_rep tree1 tree1_heads.
Proof.
  split.
  - change (map_Forall (λ d l, tree1_heads !! head_of d = Some (Head (entry_of <$> l))) (subnodes tree1)).
    apply (bool_decide_eq_true_1 _). by vm_compute.
  - change (map_Forall (λ i r, ni_parent r = None → tree1_heads !! entry_of i = Some (Head [])) (nodes tree1)).
    apply (bool_decide_eq_true_1 _). by vm_compute.
Qed.

Lemma tree1_reached : rtc (@kinfo_step small_env) tree0 tree1.
Proof. eapply rtc_l; [|apply rtc_refl]. by apply (@k_create small_env tree0 None NewDir [97; 98] 0 (0, Some ab) tree1); vm_compute. Qed.

Lemma list_del_implemented_witness :
  ∃ h' A', fusion_list_del (Some 6%positive) tree1_cells = Ok (tt, h') ∧ rep h' A'
           ∧ A' !! 3%positive = Some (Head []).
Proof.
  destruct (@list_del_implemented small_env tree1 tree1_cells tree1_heads 1 [ab] ab
              (mk_node (Some 1%positive) 0 KFIO_INFO_DIR 0 S_IRUGO (Some 3) None [97; 98])
              (reached_wf _ tree1_reached) tree1_heads_rep tree1_rep) as (h' & A' & E & R & [Hd _]);
    try (vm_compute; reflexivity).
  exists h', A'. split; [exact E|]. split; [exact R|]. apply (Hd 1%positive []). by vm_compute.
Defined.
