(* ===== verification/KinfoThreads.v ===== *)
(** * Threads at the information tree: the lock of common_kinfo.c

    The creators make a node in memory that nobody else knows, take [kinfo_lock],
    put the node into the tree, give the lock back, and free the node when it was
    refused; a removal runs under the lock from end to end.  Here any number of
    threads take these steps in any order, and the tree that they share is shown
    to change only by whole insertions and removals. *)
From S2P Require Import Prelude Kinfo KinfoSpec KinfoRemove KinfoSystem.

(** Steps with labels, from a state to a state. *)
Inductive runs {A B} (step : A → B → A → Prop) : A → list B → A → Prop :=
| runs_nil x : runs step x [] x
| runs_cons x a y l z : step x a y → runs step y l z → runs step x (a :: l) z.

Section threads.
Context `{EL : KinfoEnvLaws}.
Implicit Types (k : kinfo) (c d i : node_id) (r : kfio_info_node) (l : list node_id) (M : gset node_id) (t : nat).

(** ** Threads *)

(** Where a thread is in a creation. *)
Inductive making :=
| Made (p : node_ptr) (i : node_id) (r : kfio_info_node)   (* filled in as [r]; the lock is not taken yet *)
| Refused (i : node_id) (rc : Z).                           (* the lock was given back, the node is not in the tree *)

Definition made_node (m : making) : node_id := match m with Made _ i _ | Refused i _ => i end.

Record threads := mk_threads {
  th_kinfo : kinfo;
  th_making : gmap nat making             (* threads that are in no creation are not in it *)
}.
Implicit Types (s : threads).

(** The nodes in the hands of a thread. *)
Definition made_by (ms : gmap nat making) : gset node_id := map_to_set (λ _, made_node) ms.
Definition made s : gset node_id := made_by (th_making s).

(** What a step does to the tree that the threads share. *)
Inductive act :=
| Quiet
| Linked (p : node_ptr) (i : node_id) (r : kfio_info_node) (rc : Z)
| Removed (i : node_id).

(** The pointers that callers pass: to directories and to nodes of the tree.  They
    have to be good when the lock is taken. *)
Definition in_tree s i : Prop := is_Some (nodes (th_kinfo s) !! i) ∧ i ∉ made s.
Definition parent_in_tree s (p : node_ptr) : Prop :=
  parent_ok (th_kinfo s) p ∧ ∀ d, p = Some d → d ∉ made s.

Inductive thread_step s : act → threads → Prop :=
| t_make t p name mode q i r k :
    th_making s !! t = None → make_node p name mode q (th_kinfo s) = Ok (inr i, k) → requested name mode q = Some r →
    thread_step s Quiet (mk_threads k (<[t := Made p i r]> (th_making s)))
| t_fail t p name mode q rc k :
    th_making s !! t = None → make_node p name mode q (th_kinfo s) = Ok (inl rc, k) →
    thread_step s Quiet (mk_threads k (th_making s))
| t_link t p i r rc k :
    th_making s !! t = Some (Made p i r) → parent_in_tree s p →
    link_node p i (th_kinfo s) = Ok (rc, k) →
    thread_step s (Linked p i r rc)
      (mk_threads k (if rc =? 0 then delete t (th_making s) else <[t := Refused i rc]> (th_making s)))
| t_drop t i rc k :
    th_making s !! t = Some (Refused i rc) → drop_node i rc (th_kinfo s) = Ok (tt, k) →
    thread_step s Quiet (mk_threads k (delete t (th_making s)))
| t_remove t i x k :
    th_making s !! t = None → in_tree s i → kinfo_root_node (th_kinfo s) ≠ Some i →
    kfio_info_remove_node (Some (Some i)) (th_kinfo s) = Ok (x, k) →
    thread_step s (Removed i) (mk_threads k (th_making s)).

(** ** The shared tree as others see it *)

Record forest := mk_forest {
  f_nodes : gmap node_id kfio_info_node;
  f_lists : gmap node_id (list node_id)
}.
Implicit Types (F : forest).

Definition hide {A} M (m : gmap node_id A) : gmap node_id A := filter (λ kv, kv.1 ∉ M) m.
Definition shared s : forest :=
  mk_forest (hide (made s) (nodes (th_kinfo s))) (hide (made s) (subnodes (th_kinfo s))).

(** [c] is [i] or below it. *)
Definition f_below F i c : Prop := rtc (λ c d, ∃ r, f_nodes F !! c = Some r ∧ ni_parent r = Some d) c i.

Definition name_taken F d (name : cstring) : Prop :=
  ∃ l c r, f_lists F !! d = Some l ∧ c ∈ l ∧ f_nodes F !! c = Some r ∧ ni_name r = name.

(** [F'] is [F] without [i] and what is below it. *)
Record pruned F i F' : Prop := {
  pr_gone c : f_below F i c → f_nodes F' !! c = None;
  pr_kept c : ¬ f_below F i c → f_nodes F' !! c = f_nodes F !! c;
  pr_lists c r : f_nodes F' !! c = Some r → f_lists F' !! c = unlisted i <$> f_lists F !! c;
  pr_others c : f_nodes F' !! c = None → f_lists F' !! c = None
}.

(** The tree of the contract: an insertion and a removal are one step each. *)
Inductive tree_step (root : node_ptr) F : act → forest → Prop :=
| s_quiet : tree_step root F Quiet F
| s_linked p d l i r e :
    (if p is Some _ then p else root) = Some d → f_nodes F !! i = None → f_lists F !! d = Some l →
    (p ≠ None → ¬ name_taken F d (ni_name r)) →
    tree_step root F (Linked p i r 0)
      (mk_forest (<[i := set_parent (Some d) (set_os_priv (Some e) r)]> (f_nodes F))
         (<[d := l ++ [i]]> (if decide (ni_type r = KFIO_INFO_DIR) then <[i := []]> (f_lists F) else f_lists F)))
| s_taken p d i r : p = Some d → name_taken F d (ni_name r) → tree_step root F (Linked p i r (- EEXIST)) F
| s_refused p i r :
    (∀ d, p = Some d → ¬ name_taken F d (ni_name r)) → tree_step root F (Linked p i r (- EIO)) F
| s_removed i F' : is_Some (f_nodes F !! i) → pruned F i F' → tree_step root F (Removed i) F'.

(** ** The invariant *)

(** No two threads have the same node. *)
Definition apart (ms : gmap nat making) : Prop :=
  ∀ t1 t2 m1 m2, ms !! t1 = Some m1 → ms !! t2 = Some m2 → made_node m1 = made_node m2 → t1 = t2.

Record threads_wf s : Prop := {
  tw_tree : tree_wf (made s) (th_kinfo s);
  tw_apart : apart (th_making s);
  tw_filled t p i r : th_making s !! t = Some (Made p i r) → nodes (th_kinfo s) !! i = Some r;
  tw_refused t i rc : th_making s !! t = Some (Refused i rc) → rc ≠ 0
}.

Lemma elem_of_made ms i : i ∈ made_by ms ↔ ∃ t m, ms !! t = Some m ∧ made_node m = i.
Proof. unfold made_by. rewrite elem_of_map_to_set. naive_solver. Qed.

Lemma made_new ms t m : ms !! t = None → made_by (<[t := m]> ms) = {[made_node m]} ∪ made_by ms.
Proof.
  intros N. apply set_eq. intros i. rewrite elem_of_union, elem_of_singleton, !elem_of_made.
  setoid_rewrite lookup_insert_Some. split; [naive_solver|]. intros [->|(t' & m' & E & <-)]; [naive_solver|].
  exists t', m'. split; [|done]. right. split; [congruence|done].
Qed.
Lemma made_same ms t m m' : ms !! t = Some m → made_node m' = made_node m → made_by (<[t := m']> ms) = made_by ms.
Proof.
  intros E Eq. apply set_eq. intros i. rewrite !elem_of_made. setoid_rewrite lookup_insert_Some. split; [naive_solver|].
  intros (t' & m0 & E' & <-). destruct (decide (t = t')) as [<-|]; [|naive_solver]. exists t, m'. naive_solver.
Qed.
Lemma made_done ms t m : apart ms → ms !! t = Some m → made_by (delete t ms) = made_by ms ∖ {[made_node m]}.
Proof.
  intros A E. apply set_eq. intros i. rewrite elem_of_difference, elem_of_singleton, !elem_of_made.
  setoid_rewrite lookup_delete_Some. split.
  - intros (t' & m' & [Nt E'] & <-). split; [eauto|]. intros Eq. by destruct Nt; eapply A.
  - intros [(t' & m' & E' & <-) Ni]. exists t', m'. split; [|done]. split; [|done]. intros ->. congruence.
Qed.

Lemma apart_delete ms t : apart ms → apart (delete t ms).
Proof. intros A t1 t2 m1 m2 [_ E1]%lookup_delete_Some [_ E2]%lookup_delete_Some. by eapply A. Qed.
Lemma apart_insert ms t m :
  apart ms → (∀ t' m', ms !! t' = Some m' → made_node m' = made_node m → t' = t) → apart (<[t := m]> ms).
Proof.
  intros A N t1 t2 m1 m2. rewrite !lookup_insert_Some. intros [[<- <-]|[N1 E1]] [[<- <-]|[N2 E2]] Eq; try done.
  - by destruct (N _ _ E2).
  - by destruct (N _ _ E1).
  - by eapply A.
Qed.

Lemma hide_lookup {A} M (m : gmap node_id A) i : hide M m !! i = if decide (i ∈ M) then None else m !! i.
Proof.
  unfold hide. case_decide.
  - by apply map_lookup_filter_None_2; right; intros ? ? [].
  - destruct (m !! i) as [x|] eqn:E; [by apply map_lookup_filter_Some_2|by apply map_lookup_filter_None_2; left].
Qed.

(** ** Making a node and giving it up are invisible *)

Lemma shared_staged M k i r :
  tree_wf M k → nodes k !! i = None →
  hide ({[i]} ∪ M) (nodes (staged k i r)) = hide M (nodes k) ∧ hide ({[i]} ∪ M) (subnodes (staged k i r)) = hide M (subnodes k).
Proof.
  intros W N. pose proof (wf_subnodes_none _ _ _ W N) as Ns.
  split; apply map_eq; intros c; rewrite !hide_lookup, ?staged_nodes, ?staged_list; destruct (decide (c = i)) as [->|Nc].
  1, 3: rewrite decide_True by set_solver; by case_decide.
  all: rewrite ?(decide_False (P := c = i ∧ _)) by naive_solver; repeat case_decide; done || set_solver.
Qed.

Lemma shared_freed M k i r :
  i ∈ M →
  hide (M ∖ {[i]}) (nodes (freed k i r)) = hide M (nodes k) ∧ hide (M ∖ {[i]}) (subnodes (freed k i r)) = hide M (subnodes k).
Proof.
  intros I. split; apply map_eq; intros c; rewrite !hide_lookup, ?freed_node, ?freed_list; repeat case_decide; subst; try done; set_solver.
Qed.

Lemma make_step s t p name mode q i r k :
  threads_wf s → th_making s !! t = None → make_node p name mode q (th_kinfo s) = Ok (inr i, k) → requested name mode q = Some r →
  let s' := mk_threads k (<[t := Made p i r]> (th_making s)) in
  threads_wf s' ∧ shared s' = shared s ∧ kinfo_root_node k = kinfo_root_node (th_kinfo s).
Proof.
  intros [W A Fl Rf] It E Q. destruct (make_run _ _ p name mode q W) as (x' & k' & E' & Hx). rewrite E in E'.
  injection E' as <- <-. destruct Hx as (r' & Q' & N & Ln & ->). rewrite Q in Q'. injection Q' as <-.
  destruct (requested_made _ _ _ _ Q) as (Pr & _). pose proof (staged_wf _ _ i r W N Pr Ln) as W'.
  unfold shared, made. cbn -[staged]. rewrite (made_new _ _ (Made p i r) It). cbn -[staged].
  destruct (shared_staged (made_by (th_making s)) (th_kinfo s) i r W N) as [-> ->]. split; [|done]. split; cbn -[staged].
  - unfold made. cbn -[staged]. by rewrite (made_new _ _ (Made p i r) It).
  - apply apart_insert; [done|]. intros t' m' E' Eq. cbn in Eq. exfalso.
    destruct (wf_made _ W i) as (_ & (? & ? & _) & _); [|congruence]. apply elem_of_made. eauto.
  - intros t' p' i' r'. rewrite lookup_insert_Some, staged_nodes. intros [[_ [= _ <- <-]]|[_ Et]]; [by rewrite decide_True|].
    pose proof (Fl _ _ _ _ Et). by rewrite decide_False by congruence.
  - intros t' i' rc. rewrite lookup_insert_Some. naive_solver.
Qed.

Lemma fail_step s p name mode q rc k :
  threads_wf s → make_node p name mode q (th_kinfo s) = Ok (inl rc, k) →
  let s' := mk_threads k (th_making s) in
  threads_wf s' ∧ shared s' = shared s ∧ kinfo_root_node k = kinfo_root_node (th_kinfo s).
Proof.
  intros [W A Fl Rf] E. destruct (make_run _ _ p name mode q W) as (x' & k' & E' & Hx). rewrite E in E'.
  injection E' as <- <-. destruct Hx as [_ Ln]. pose proof (leaves_nothing_wf _ _ _ W Ln) as W'.
  destruct Ln as (es & [N L R _ _] & _). split; [split; cbn; [done|done|by rewrite N|done]|]. split; [|done].
  unfold shared, made. cbn. by rewrite N, L.
Qed.

Lemma drop_step s t i rc k :
  threads_wf s → th_making s !! t = Some (Refused i rc) → drop_node i rc (th_kinfo s) = Ok (tt, k) →
  let s' := mk_threads k (delete t (th_making s)) in
  threads_wf s' ∧ shared s' = shared s ∧ kinfo_root_node k = kinfo_root_node (th_kinfo s).
Proof.
  intros [W A Fl Rf] It E. assert (i ∈ made s) as I by (apply elem_of_made; exists t, (Refused i rc); done).
  destruct (wf_made _ W i I) as (_ & (r & Er & _) & _). unfold drop_node in E.
  rewrite (proj2 (Z.eqb_neq _ _) (Rf _ _ _ It)) in E. cbn [negb] in E. rewrite (free_node_run _ i r Er) in E. injection E as <-. cbn -[freed].
  unfold shared, made. cbn -[freed]. rewrite (made_done _ _ _ A It). cbn [made_node].
  destruct (shared_freed (made_by (th_making s)) (th_kinfo s) i r I) as [-> ->].
  split; [|done]. split; cbn -[freed].
  2: by apply apart_delete.
  2: { intros t' p' i' r' [Nt Et]%lookup_delete_Some. rewrite freed_node, decide_False; [by eapply Fl|].
       intros ->. by destruct Nt; eapply A. }
  2: intros t' i' rc' [_ Et]%lookup_delete_Some; by eapply Rf.
  unfold made. cbn -[freed]. rewrite (made_done _ _ _ A It). by apply freed_wf.
Qed.

(** ** An insertion *)

Lemma shared_name_taken s d name :
  tree_wf (made s) (th_kinfo s) → d ∉ made s →
  name_taken (shared s) d name
  ↔ ∃ l c r, subnodes (th_kinfo s) !! d = Some l ∧ c ∈ l ∧ nodes (th_kinfo s) !! c = Some r ∧ ni_name r = name.
Proof.
  intros W Nd. unfold name_taken, shared. cbn. setoid_rewrite hide_lookup. rewrite (decide_False (P := d ∈ made s)) by done.
  split; intros (l & c & r & L & C & E & Nm); exists l, c, r; [by case_decide|].
  rewrite decide_False; [done|]. intros I. by apply (made_not_child _ _ _ _ _ W I L).
Qed.

(** A fresh name of [insert_node_run] is not taken. *)
Lemma named_not_taken s d l name :
  tree_wf (made s) (th_kinfo s) → d ∉ made s → subnodes (th_kinfo s) !! d = Some l →
  named (th_kinfo s) name l = None → ¬ name_taken (shared s) d name.
Proof.
  intros W Nd L Nm (l' & c & r & L' & C & E & Eq)%shared_name_taken; [|done..]. rewrite L in L'. injection L' as <-.
  by eapply named_none.
Qed.

Lemma shared_placed M k d l i r e ev :
  tree_wf M k → i ∈ M → nodes k !! i = Some r → d ∉ M → subnodes k !! d = Some l →
  hide (M ∖ {[i]}) (nodes (placed k d l i r e ev)) = <[i := set_parent (Some d) (set_os_priv (Some e) r)]> (hide M (nodes k))
  ∧ hide (M ∖ {[i]}) (subnodes (placed k d l i r e ev))
    = <[d := l ++ [i]]> (if decide (ni_type r = KFIO_INFO_DIR) then <[i := []]> (hide M (subnodes k)) else hide M (subnodes k)).
Proof.
  intros W I Ei Nd L. assert (d ≠ i) as Ndi by congruence. unfold placed. cbn. split; apply map_eq; intros c; rewrite !hide_lookup.
  - destruct (decide (c = i)) as [->|Nc]; [rewrite decide_False by set_solver; by rewrite !lookup_insert_eq|].
    rewrite !lookup_insert_ne by done. rewrite hide_lookup. repeat case_decide; try done; set_solver.
  - destruct (decide (c = d)) as [->|Ncd]; [rewrite decide_False by set_solver; by rewrite !lookup_insert_eq|].
    rewrite !(lookup_insert_ne _ d) by done. destruct (decide (c = i)) as [->|Nc].
    + rewrite decide_False by set_solver. destruct (wf_made _ W i I) as (_ & _ & Em). case_decide as D.
      * rewrite lookup_insert_eq. destruct (wf_dir _ W i) as [l' L']; [by exists r|]. by rewrite L', (Em l' L').
      * rewrite hide_lookup, decide_True by done. destruct (subnodes k !! i) as [l'|] eqn:L'; [|done].
        destruct (wf_list _ W _ _ L') as ((r' & E' & T') & _). congruence.
    + assert ((if decide (ni_type r = KFIO_INFO_DIR) then <[i := []]> (hide M (subnodes k)) else hide M (subnodes k)) !! c
              = hide M (subnodes k) !! c) as -> by (case_decide; [by rewrite lookup_insert_ne|done]).
      rewrite hide_lookup. repeat case_decide; try done; set_solver.
Qed.

Lemma link_step s t p i r rc k :
  threads_wf s → th_making s !! t = Some (Made p i r) → parent_in_tree s p →
  link_node p i (th_kinfo s) = Ok (rc, k) →
  let s' := mk_threads k (if rc =? 0 then delete t (th_making s) else <[t := Refused i rc]> (th_making s)) in
  threads_wf s' ∧ tree_step (kinfo_root_node (th_kinfo s)) (shared s) (Linked p i r rc) (shared s')
  ∧ kinfo_root_node k = kinfo_root_node (th_kinfo s).
Proof.
  intros [W A Fl Rf] It [Pk Pm] E. pose proof (Fl _ _ _ _ It) as Er.
  assert (i ∈ made s) as I by (apply elem_of_made; exists t, (Made p i r); done).
  destruct (home_dir _ _ p W Pk) as (d & l & Hd & _ & L). pose proof (home_not_made _ _ _ _ W Pm Hd) as Nd.
  destruct (link_node_run _ _ p d l i r W I Er Pk Pm Hd L) as (rc' & k' & E' & Hc). rewrite E in E'. injection E' as <- <-.
  destruct Hc as [(-> & Nm & e & base & ->)|(Ee & Hk)].
  - assert (kinfo_root_node (th_kinfo s) ≠ Some d → named (th_kinfo s) (ni_name r) l = None) as Fr.
    { intros Rt. apply Nm. destruct p; [done|]. cbn in Hd. congruence. }
    pose proof (placed_wf _ _ d l i r e base (proc_name p r) W I Er L Nd Fr) as W'.
    change (0 =? 0) with true. cbv beta iota zeta. split; [|split; [|done]].
    + split; cbn -[placed].
      2: by apply apart_delete.
      2: { intros t' p' i' r' [Nt Et]%lookup_delete_Some. rewrite placed_node, decide_False; [by eapply Fl|].
           intros ->. by destruct Nt; eapply A. }
      2: intros t' i' rc' [_ Et]%lookup_delete_Some; by eapply Rf.
      unfold made. cbn -[placed]. by rewrite (made_done _ _ _ A It).
    + unfold shared at 2, made. cbn -[placed]. rewrite (made_done _ _ _ A It).
      destruct (shared_placed (made_by (th_making s)) (th_kinfo s) d l i r e (ProcCreate (proc_name p r) (ni_mode r) (ni_type r) base e) W I Er Nd L)
        as [En El]. cbn [made_node]. rewrite En, El. apply (s_linked _ (shared s)); cbn; rewrite ?hide_lookup.
      * done.
      * by rewrite decide_True.
      * by rewrite decide_False.
      * intros Np. by apply (named_not_taken s d l); [| | |apply Nm].
  - pose proof (insert_error_nonzero _ _ _ _ Ee) as Nz. rewrite (proj2 (Z.eqb_neq _ _) Nz). cbv beta iota zeta.
    assert (made (mk_threads k (<[t := Refused i rc]> (th_making s))) = made s) as Em by (by eapply made_same).
    assert (nodes k = nodes (th_kinfo s) ∧ subnodes k = subnodes (th_kinfo s) ∧ kinfo_root_node k = kinfo_root_node (th_kinfo s)
            ∧ tree_wf (made s) k) as (En & El & Rt & W') by (destruct Hk as [-> | ->]; auto using called_wf).
    split; [|split; [|done]].
    + split; [by rewrite Em| | |]; cbn.
      * apply apart_insert; [done|]. intros t' m' E' Eq. by eapply A.
      * intros t' p' i' r'. rewrite lookup_insert_Some, En. intros [[_ [=]]|[_ Et]]. by eapply Fl.
      * intros t' i' rc'. rewrite lookup_insert_Some. intros [[_ [= _ <-]]|[_ Et]]; [done|by eapply Rf].
    + assert (shared (mk_threads k (<[t := Refused i rc]> (th_making s))) = shared s) as -> by (unfold shared; rewrite Em; cbn; by rewrite En, El).
      destruct Ee as [[-> (d' & l' & c & rx & -> & L' & C & Ec & Eq)]|[-> Fr]].
      * apply (s_taken _ _ _ d'); [done|]. apply shared_name_taken; [done|by apply Pm|]. by exists l', c, rx.
      * apply s_refused. intros d' -> (l' & c & rx & L' & C & Ec & Eq)%shared_name_taken; [|done|by apply Pm].
        exact (Fr d' l' c rx eq_refl L' C Ec Eq).
Qed.

(** ** A removal *)

Lemma shared_below s i c :
  tree_wf (made s) (th_kinfo s) → f_below (shared s) i c ↔ below (th_kinfo s) i c.
Proof.
  intros W. assert (∀ c d, (∃ r, f_nodes (shared s) !! c = Some r ∧ ni_parent r = Some d) ↔ child_of (th_kinfo s) c d) as Eq.
  { intros c' d. unfold child_of, shared. cbn. setoid_rewrite hide_lookup. split; intros (r & E & Pr); [by case_decide; eauto|].
    exists r. rewrite decide_False; [done|]. intros I. destruct (wf_made _ W c' I) as (_ & (r' & E' & Pr') & _). congruence. }
  unfold f_below, below. split; apply rtc_subrel; intros x y; apply Eq.
Qed.

Lemma remove_step s i x k :
  threads_wf s → in_tree s i → kinfo_root_node (th_kinfo s) ≠ Some i →
  kfio_info_remove_node (Some (Some i)) (th_kinfo s) = Ok (x, k) →
  let s' := mk_threads k (th_making s) in
  threads_wf s' ∧ tree_step (kinfo_root_node (th_kinfo s)) (shared s) (Removed i) (shared s')
  ∧ kinfo_root_node k = kinfo_root_node (th_kinfo s).
Proof.
  intros [W A Fl Rf] [[r Er] Ni] Nr E. destruct (remove_node_effect _ _ i r W Er Nr Ni) as (k' & E' & W' & Rm & Rt).
  rewrite E in E'. injection E' as _ <-. cbv zeta. split.
  { split; cbn; [done|done| |done]. intros t' p' i' r' Et. pose proof (Fl _ _ _ _ Et) as Er'.
    assert (i' ∈ made s) as I' by (apply elem_of_made; exists t', (Made p' i' r'); done).
    apply (rm_kept _ _ _ Rm); [done|]. intros B. inversion B as [|? d ? (r0 & E0 & P0)]; subst; [done|].
    destruct (wf_made _ W i' I') as (_ & (r1 & E1 & P1) & _). congruence. }
  split; [|done].
  apply s_removed; [unfold shared; cbn; rewrite hide_lookup, decide_False by done; by eexists|].
  assert (∀ c, f_nodes (shared (mk_threads k (th_making s))) !! c = if decide (c ∈ made s) then None else nodes k !! c) as Sn
    by (intros c; apply hide_lookup).
  assert (∀ c, f_lists (shared (mk_threads k (th_making s))) !! c = if decide (c ∈ made s) then None else subnodes k !! c) as Sl
    by (intros c; apply hide_lookup).
  split; intros c; rewrite ?(shared_below s i c W), ?Sn, ?Sl.
  - intros B. case_decide; [done|]. by apply Rm.
  - intros B. unfold shared. cbn. rewrite hide_lookup. case_decide; [done|].
    destruct (nodes (th_kinfo s) !! c) as [rc|] eqn:Ec; [by apply Rm|].
    destruct (nodes k !! c) as [rc|] eqn:Ek; [|done]. by rewrite (rm_old _ _ _ Rm _ _ Ek) in Ec.
  - intros rc. case_decide; [done|]. intros Ek. unfold shared. cbn. rewrite hide_lookup, decide_False by done. by eapply rm_list.
  - case_decide; [done|]. intros Ek. by eapply wf_subnodes_none.
Qed.

(** ** Runs *)

(** Every call that a thread can be in, or make, returns. *)
Record all_return s : Prop := {
  ar_make p name mode q : ∃ x k, make_node p name mode q (th_kinfo s) = Ok (x, k);
  ar_link t p i r : th_making s !! t = Some (Made p i r) → parent_in_tree s p → ∃ rc k, link_node p i (th_kinfo s) = Ok (rc, k);
  ar_drop t i rc : th_making s !! t = Some (Refused i rc) → ∃ k, drop_node i rc (th_kinfo s) = Ok (tt, k);
  ar_remove i : in_tree s i → kinfo_root_node (th_kinfo s) ≠ Some i →
    ∃ k, kfio_info_remove_node (Some (Some i)) (th_kinfo s) = Ok (Some None, k)
}.

Lemma wf_returns s : threads_wf s → all_return s.
Proof.
  intros [W A Fl Rf]. split.
  - intros p name mode q. destruct (make_run _ _ p name mode q W) as (x & k & E & _). eauto.
  - intros t p i r It [Pk Pm]. assert (i ∈ made s) as I by (apply elem_of_made; exists t, (Made p i r); done).
    pose proof (Fl _ _ _ _ It) as Er. destruct (home_dir _ _ p W Pk) as (d & l & Hd & _ & L).
    destruct (link_node_run _ _ p d l i r W I Er Pk Pm Hd L) as (rc & k & E & _). eauto.
  - intros t i rc It. assert (i ∈ made s) as I by (apply elem_of_made; exists t, (Refused i rc); done).
    destruct (wf_made _ W i I) as (_ & (r & Er & _) & _). eexists. unfold drop_node.
    rewrite (proj2 (Z.eqb_neq _ _) (Rf _ _ _ It)). by apply free_node_run.
  - intros i [[r Er] Ni] Nr. destruct (remove_node_effect _ _ i r W Er Nr Ni) as (k & E & _). eauto.
Qed.

(** One step of a thread is one step of the contract. *)
Lemma thread_step_refines s a s' :
  threads_wf s → thread_step s a s' →
  threads_wf s' ∧ tree_step (kinfo_root_node (th_kinfo s)) (shared s) a (shared s')
  ∧ kinfo_root_node (th_kinfo s') = kinfo_root_node (th_kinfo s).
Proof.
  intros W [t p name mode q i r k It E Q|t p name mode q rc k It E|t p i r rc k It Pk E|t i rc k It E|t i x k It In Nr E].
  - destruct (make_step s t p name mode q i r k W It E Q) as (W' & -> & R). split; [done|]. split; [constructor|done].
  - destruct (fail_step s p name mode q rc k W E) as (W' & -> & R). split; [done|]. split; [constructor|done].
  - by eapply link_step.
  - destruct (drop_step s t i rc k W It E) as (W' & -> & R). split; [done|]. split; [constructor|done].
  - by eapply remove_step.
Qed.

Lemma threads_start k : kinfo_wf k → threads_wf (mk_threads k ∅).
Proof. intros W. split; [exact W|by intros t1 t2 m1 m2|done|done]. Qed.

(** C9: Any number of threads create and remove nodes in any interleaving of their
    steps: memory of a new node is filled in before the lock is taken, it is
    linked under the lock, and freed after it when it was refused.  The tree that
    all of them see then changes only by whole operations of a sequential tree,
    in the order in which the lock was held: an insertion at the end of the
    directory, a refusal because the name is taken there or the proc file system
    failed, or the removal of exactly one subtree.  In every state reached the
    tree is well formed and the memory in use is exactly its nodes and those in
    the hands of a thread; every call that is under way, or could be made, returns;
    and when no creation is under way nothing but the tree is left. *)
Theorem threads_linearizable k0 acts s :
  kfio_info_driver_init before_init = Ok (0, k0) → runs thread_step (mk_threads k0 ∅) acts s →
  runs (tree_step (kinfo_root_node k0)) (shared (mk_threads k0 ∅)) acts (shared s)
  ∧ threads_wf s ∧ all_return s ∧ (th_making s = ∅ → kinfo_wf (th_kinfo s)).
Proof.
  intros E R. assert (kinfo_wf k0) as W0.
  { destruct driver_init_run as [(k1 & E1 & W1)|(k1 & E1 & _)]; rewrite E1 in E; [by injection E as <-|discriminate]. }
  pose proof (threads_start k0 W0) as W. clear W0 E.
  change k0 with (th_kinfo (mk_threads k0 ∅)) at 1. revert R W. generalize (mk_threads k0 ∅). intros s0 R W.
  assert (threads_wf s ∧ runs (tree_step (kinfo_root_node (th_kinfo s0))) (shared s0) acts (shared s)) as [Ws Rs].
  { induction R as [|x a y l z St _ IH]; [by split; [|constructor]|].
    destruct (thread_step_refines x a y W St) as (Wy & Ty & Ry). destruct (IH Wy) as [Wz Rz]. split; [done|].
    rewrite Ry in Rz. by econstructor. }
  split; [done|]. split; [done|]. split; [by apply wf_returns|]. intros N. pose proof (tw_tree _ Ws) as T.
  unfold made, made_by in T. by rewrite N, map_to_set_empty in T.
Qed.
End threads.

(** ** An instance *)

Definition text_x : kfio_info_node := mk_node None 0 KFIO_INFO_TEXT 0 0 None (Some 7) [120].
Definition dir_ab : kfio_info_node := mk_node None 0 KFIO_INFO_DIR 0 S_IRUGO None None [97; 98].

(** Thread 1 makes the directory "ab"; then threads 1 and 2 make a text "x" each.
    Thread 2 gets the lock first, so that thread 1 is refused and frees its node;
    thread 2 removes the directory. *)
Definition race : list act :=
  [Quiet; Linked None 3 dir_ab 0; Quiet; Quiet; Linked (Some 3%positive) 6 text_x 0;
   Linked (Some 3%positive) 5 text_x (- EEXIST); Quiet; Removed 3].

Lemma race_runs :
  ∃ s, runs (@thread_step small_env) (mk_threads tree0 ∅) race s ∧ size (nodes (th_kinfo s)) = 1%nat ∧ th_making s = ∅.
Proof.
  eexists. split.
  - eapply runs_cons; [eapply (@t_make small_env _ 1%nat None [97; 98] 0 NewDir); vm_compute; reflexivity|].
    eapply runs_cons; [eapply (@t_link small_env _ 1%nat); [vm_compute; reflexivity|by split|vm_compute; reflexivity]|].
    eapply runs_cons; [eapply (@t_make small_env _ 1%nat (Some 3%positive) [120] 0 (NewText (Some 7) 0)); vm_compute; reflexivity|].
    eapply runs_cons; [eapply (@t_make small_env _ 2%nat (Some 3%positive) [120] 0 (NewText (Some 7) 0)); vm_compute; reflexivity|].
    eapply runs_cons; [eapply (@t_link small_env _ 2%nat); [vm_compute; reflexivity| |vm_compute; reflexivity]|].
    { split; [eexists; split; vm_compute; reflexivity|]. intros d [= <-]. by apply (bool_decide_eq_true_1 _); vm_compute. }
    eapply runs_cons; [eapply (@t_link small_env _ 1%nat); [vm_compute; reflexivity| |vm_compute; reflexivity]|].
    { split; [eexists; split; vm_compute; reflexivity|]. intros d [= <-]. by apply (bool_decide_eq_true_1 _); vm_compute. }
    eapply runs_cons; [eapply (@t_drop small_env _ 1%nat); vm_compute; reflexivity|].
    eapply runs_cons; [eapply (@t_remove small_env _ 2%nat); [vm_compute; reflexivity| |by vm_compute|vm_compute; reflexivity]|].
    { split; [eexists; vm_compute; reflexivity|]. by apply (bool_decide_eq_true_1 _); vm_compute. }
    apply runs_nil.
  - split; vm_compute; reflexivity.
Qed.

Lemma tree0_init : @kfio_info_driver_init small_env before_init = Ok (0, tree0).
Proof. by vm_compute. Qed.

Lemma threads_linearizable_witness :
  ∃ s, runs (@thread_step small_env) (mk_threads tree0 ∅) race s
    ∧ runs (tree_step (kinfo_root_node tree0)) (shared (mk_threads tree0 ∅)) race (shared s)
    ∧ @kinfo_wf small_env (th_kinfo s) ∧ size (nodes (th_kinfo s)) = 1%nat.
Proof.
  destruct race_runs as (s & R & Sz & Id).
  destruct (@threads_linearizable small_env small_env_laws tree0 race s tree0_init R) as (T & _ & _ & W).
  exists s. split; [exact R|]. split; [exact T|]. split; [exact (W Id)|exact Sz].
Defined.
