(* ===== verification/KinfoData.v ===== *)
(** * Data handles and value handlers of the information tree: common_kinfo.c

    A handle collects what a node prints into a buffer of the caller, and counts
    what did not fit.  Values are exchanged with the cell the node points at. *)
From S2P Require Import Prelude Kinfo.

(** ** Buffers *)

(** [kfio_memcpy(buf + pos, data, |data|)] into a buffer of [|buf|] bytes. *)
Definition put_bytes (buf : list Z) (pos : Z) (data : list Z) : outcome (list Z) :=
  if (0 <=? pos) && (pos + Z.of_nat (length data) <=? Z.of_nat (length buf))
  then Ok (take (Z.to_nat pos) buf ++ data ++ drop (Z.to_nat pos + length data) buf)
  else match data with [] => Ok buf | _ => Fault OutOfBounds end.

Lemma put_bytes_ok (buf : list Z) pos (data : list Z) :
  0 <= pos → pos + Z.of_nat (length data) <= Z.of_nat (length buf) →
  put_bytes buf pos data = Ok (take (Z.to_nat pos) buf ++ data ++ drop (Z.to_nat pos + length data) buf).
Proof. intros P L. unfold put_bytes. by rewrite (proj2 (Z.leb_le _ _) P), (proj2 (Z.leb_le _ _) L). Qed.

(** The bytes from the start to the end of what was put. *)
Lemma take_put (buf : list Z) pos (data : list Z) :
  0 <= pos → pos + Z.of_nat (length data) <= Z.of_nat (length buf) →
  take (Z.to_nat pos + length data) (take (Z.to_nat pos) buf ++ data ++ drop (Z.to_nat pos + length data) buf)
  = take (Z.to_nat pos) buf ++ data.
Proof.
  intros P L. rewrite (assoc_L (++)), take_app_le; [|rewrite length_app, length_take; lia].
  rewrite take_ge; [done|]. rewrite length_app, length_take. lia.
Qed.

Lemma length_put (buf : list Z) pos (data : list Z) :
  0 <= pos → pos + Z.of_nat (length data) <= Z.of_nat (length buf) →
  length (take (Z.to_nat pos) buf ++ data ++ drop (Z.to_nat pos + length data) buf) = length buf.
Proof. intros P L. rewrite !length_app, length_take, length_drop. lia. Qed.

(** ** Handles *)

(** [struct kfio_info_data]; the buffer is the caller's memory. *)
Record kfio_info_data := mk_data {
  db_node : node_ptr;
  db_buffer : list Z;
  db_max_size : Z;
  db_cur_size : Z;
  db_tot_size : Z;
  db_eof : Z
}.

Definition kfio_info_reset_data_handle (node : node_ptr) (data : list Z) (size : Z) : kfio_info_data :=
  mk_data node data size 0 0 1.

(** [allocated]: whether [kfio_malloc] succeeds.  Returns the result and [*dbhp]. *)
Definition kfio_info_alloc_data_handle (allocated : bool) (node : node_ptr) (data : list Z) (size : Z) :
    Z * option kfio_info_data :=
  if allocated then (0, Some (kfio_info_reset_data_handle node data size)) else (- ENOMEM, None).

Definition kfio_info_get_data_buffer (dbh : kfio_info_data) : list Z := db_buffer dbh.
Definition kfio_info_data_node (dbh : kfio_info_data) : node_ptr := db_node dbh.
Definition kfio_info_data_overflow (dbh : kfio_info_data) : bool := db_tot_size dbh >? db_max_size dbh.
Definition kfio_info_data_size_limit (dbh : kfio_info_data) : Z := db_max_size dbh.
Definition kfio_info_data_size_valid (dbh : kfio_info_data) : Z := db_cur_size dbh.
Definition kfio_info_data_size_written (dbh : kfio_info_data) : Z := db_tot_size dbh.
Definition kfio_info_data_size_free (dbh : kfio_info_data) : Z := u64 (db_max_size dbh - db_cur_size dbh).
Definition kfio_info_data_get_eof (dbh : kfio_info_data) : bool := negb (db_eof dbh =? 0).
Definition kfio_info_data_set_eof (dbh : kfio_info_data) (flag : Z) : kfio_info_data :=
  mk_data (db_node dbh) (db_buffer dbh) (db_max_size dbh) (db_cur_size dbh) (db_tot_size dbh)
    (if negb (flag =? 0) then 1 else 0).
Definition kfio_info_need_buffer_size (dbh : kfio_info_data) (size : Z) : kfio_info_data :=
  mk_data (db_node dbh) (db_buffer dbh) (db_max_size dbh) (db_cur_size dbh) size (db_eof dbh).

Definition with_output (buf : list Z) (cur tot : Z) (dbh : kfio_info_data) : kfio_info_data :=
  mk_data (db_node dbh) buf (db_max_size dbh) cur tot (db_eof dbh).

(** [size < avail] compares as [unsigned long]; the copied length is an
    [fio_ssize_t]. *)
Definition kfio_info_write (dbh : kfio_info_data) (data : list Z) : outcome (Z * kfio_info_data) :=
  let size := Z.of_nat (length data) in
  let avail := s64 (db_max_size dbh - db_cur_size dbh) in
  let avail := if size <? u64 avail then size else avail in
  buf ← put_bytes (db_buffer dbh) (db_cur_size dbh) (take (Z.to_nat (u64 avail)) data);
  mret (avail, with_output buf (u64 (db_cur_size dbh + avail)) (u64 (db_tot_size dbh + size)) dbh).

(** [vsnprintf(dst, n, ...)] of the text [out]: at most [n - 1] characters and a
    terminator. *)
Definition vsnprintf_bytes (n : Z) (out : cstring) : list Z :=
  if n =? 0 then [] else take (Z.to_nat (n - 1)) out ++ [0].

(** [text]: what the format expands to; [None] when [kfio_vsnprintf] fails. *)
Definition kfio_info_printf (dbh : kfio_info_data) (text : option cstring) : outcome (Z * kfio_info_data) :=
  let avail := s64 (db_max_size dbh - db_cur_size dbh) in
  match text with
  | None => mret (0, dbh)
  | Some out =>
      let len := Z.of_nat (length out) in
      buf ← put_bytes (db_buffer dbh) (db_cur_size dbh) (vsnprintf_bytes (u64 avail) out);
      let cur := if len >? avail then db_max_size dbh else u64 (db_cur_size dbh + len) in
      mret (len, with_output buf cur (u64 (db_tot_size dbh + len)) dbh)
  end.

(** A list of pieces written one after the other. *)
Fixpoint write_all (dbh : kfio_info_data) (pieces : list (list Z)) : outcome kfio_info_data :=
  match pieces with
  | [] => mret dbh
  | d :: pieces => '(_, dbh) ← kfio_info_write dbh d; write_all dbh pieces
  end.

(** ** Values *)

(** [kfio_info_handle_cmd]: [cell] is the memory [data] points at, [oldval] and
    [newval] the sizes of the values asked for and the bytes to store, if any.
    Returns the bytes copied out and the memory afterwards. *)
Definition kfio_info_handle_cmd (oldval : option Z) (newval : option (list Z)) (cell : list Z) :
    outcome (Z * option (list Z) * list Z) :=
  old ← (match oldval with
         | None => Ok None
         | Some size => if size <=? Z.of_nat (length cell) then Ok (Some (take (Z.to_nat size) cell)) else Fault OutOfBounds
         end);
  cell ← (match newval with None => Ok cell | Some v => put_bytes cell 0 v end);
  Ok (0, old, cell).

(** A value handler of a node: it gets the old value's size or the new value, and
    may change the cell. *)
Definition type_handler : Type := Z → option Z → option (list Z) → list Z → outcome (Z * option (list Z) * list Z).

Definition is_value (type : Z) : bool :=
  (type =? KFIO_INFO_UINT32) || (type =? KFIO_INFO_UINT64) || (type =? KFIO_INFO_INT32) || (type =? KFIO_INFO_STRING).

Definition kfio_info_generic_type_handler (handlers : Z → type_handler) (n : kfio_info_node) (cmd : Z)
    (oldval : option Z) (newval : option (list Z)) (cell : list Z) : outcome (Z * option (list Z) * list Z) :=
  if is_value (ni_type n) then
    match ni_handler n with
    | Some f => handlers f cmd oldval newval cell
    | None => kfio_info_handle_cmd oldval newval cell
    end
  else Ok (- EIO, None, cell).

(** A text handler prints to the handle. *)
Definition text_handler : Type := kfio_info_data → outcome (Z * kfio_info_data).

Definition kfio_info_generic_text_handler (handlers : Z → text_handler) (n : kfio_info_node) (dbh : kfio_info_data) :
    outcome (Z * kfio_info_data) :=
  if ni_type n =? KFIO_INFO_TEXT then
    match ni_handler n with Some f => handlers f dbh | None => Ok (- EIO, dbh) end
  else Ok (- EIO, dbh).

(** * What the handles keep *)

(** A handle with a buffer of its size, of less than 2{^62} bytes. *)
Record data_ok (dbh : kfio_info_data) : Prop := {
  do_buffer : Z.of_nat (length (db_buffer dbh)) = db_max_size dbh;
  do_max : db_max_size dbh < 2 ^ 62;
  do_cur : 0 <= db_cur_size dbh <= db_max_size dbh;
  do_tot : 0 <= db_tot_size dbh < 2 ^ 64
}.

(** The bytes of the handle that are valid. *)
Definition valid_bytes (dbh : kfio_info_data) : list Z := take (Z.to_nat (db_cur_size dbh)) (db_buffer dbh).

Lemma avail_run dbh : data_ok dbh →
  s64 (db_max_size dbh - db_cur_size dbh) = db_max_size dbh - db_cur_size dbh
  ∧ u64 (db_max_size dbh - db_cur_size dbh) = db_max_size dbh - db_cur_size dbh.
Proof.
  intros [_ M C _]. change (2 ^ 62) with 4611686018427387904 in M. split; [apply wraps_small|apply wrapu_small]; try done;
    unfold in_s, in_u; change (2 ^ (64 - 1)) with 9223372036854775808; change (2 ^ 64) with 18446744073709551616; lia.
Qed.

(** One write, up to the size of the buffer. *)
Lemma write_run dbh d :
  data_ok dbh → Z.of_nat (length d) < 2 ^ 62 →
  let n := Z.min (Z.of_nat (length d)) (db_max_size dbh - db_cur_size dbh) in
  ∃ dbh', kfio_info_write dbh d = Ok (n, dbh') ∧ data_ok dbh'
    ∧ db_max_size dbh' = db_max_size dbh ∧ db_cur_size dbh' = db_cur_size dbh + n
    ∧ db_tot_size dbh' = u64 (db_tot_size dbh + Z.of_nat (length d))
    ∧ valid_bytes dbh' = valid_bytes dbh ++ take (Z.to_nat n) d.
Proof.
  intros K D n. destruct (avail_run dbh K) as [As Au]. pose proof K as [B M C T].
  change (2 ^ 62) with 4611686018427387904 in *. unfold kfio_info_write. rewrite As, Au.
  assert ((if Z.of_nat (length d) <? db_max_size dbh - db_cur_size dbh then Z.of_nat (length d)
           else db_max_size dbh - db_cur_size dbh) = n) as -> by (unfold n; destruct (Z.ltb_spec (Z.of_nat (length d)) (db_max_size dbh - db_cur_size dbh)); lia).
  assert (0 <= n) as Pn by lia. assert (u64 n = n) as ->.
  { apply wrapu_small. unfold in_u. change (2 ^ 64) with 18446744073709551616. lia. }
  assert (Z.of_nat (length (take (Z.to_nat n) d)) = n) as Ln by (rewrite length_take; lia).
  rewrite put_bytes_ok by lia. cbn [mbind outcome_bind].
  assert (u64 (db_cur_size dbh + n) = db_cur_size dbh + n) as ->.
  { apply wrapu_small. unfold in_u. change (2 ^ 64) with 18446744073709551616. lia. }
  eexists. split; [done|]. split; [|split_and!; try done].
  - split; cbn; [rewrite length_put by lia; lia|done|lia|]. apply wrapu_range. lia.
  - unfold valid_bytes. cbn. replace (Z.to_nat (db_cur_size dbh + n)) with (Z.to_nat (db_cur_size dbh) + length (take (Z.to_nat n) d))%nat by lia.
    by apply take_put; lia.
Qed.

Lemma length_valid dbh : data_ok dbh → Z.of_nat (length (valid_bytes dbh)) = db_cur_size dbh.
Proof. intros [B M C T]. unfold valid_bytes. rewrite length_take. lia. Qed.

Lemma write_all_run pieces dbh :
  data_ok dbh → db_tot_size dbh + Z.of_nat (length (concat pieces)) < 2 ^ 62 →
  ∃ dbh', write_all dbh pieces = Ok dbh' ∧ data_ok dbh' ∧ db_max_size dbh' = db_max_size dbh
    ∧ db_cur_size dbh' = Z.min (db_max_size dbh) (db_cur_size dbh + Z.of_nat (length (concat pieces)))
    ∧ db_tot_size dbh' = db_tot_size dbh + Z.of_nat (length (concat pieces))
    ∧ valid_bytes dbh' = take (Z.to_nat (db_max_size dbh)) (valid_bytes dbh ++ concat pieces).
Proof.
  revert dbh. induction pieces as [|d pieces IH]; intros dbh K T; cbn [write_all concat] in *.
  - pose proof (length_valid dbh K). pose proof K as [_ _ C _]. exists dbh. split_and!; try done; cbn; [lia|lia|].
    rewrite app_nil_r, take_ge by lia. done.
  - rewrite length_app in T. pose proof (do_tot _ K) as T0.
    destruct (write_run dbh d K ltac:(lia)) as (d1 & E & K1 & M1 & C1 & T1 & V1).
    rewrite E. cbn [mbind outcome_bind]. change (2 ^ 62) with 4611686018427387904 in *.
    assert (db_tot_size d1 = db_tot_size dbh + Z.of_nat (length d)) as T1'.
    { rewrite T1. apply wrapu_small. unfold in_u. change (2 ^ 64) with 18446744073709551616. lia. }
    destruct (IH d1 K1 ltac:(lia)) as (d2 & E2 & K2 & M2 & C2 & T2 & V2).
    exists d2. rewrite length_app. split; [done|]. split; [done|]. split; [lia|]. split; [rewrite C2, M1, C1; lia|].
    split; [lia|]. rewrite V2, M1, V1. pose proof (length_valid dbh K) as Lv. pose proof (do_cur _ K) as Cb.
    rewrite <-(assoc_L (++)).
    destruct (decide (Z.of_nat (length d) <= db_max_size dbh - db_cur_size dbh)).
    + rewrite (take_ge d) by lia. done.
    + rewrite (assoc_L (++)). rewrite (take_app_le _ (concat pieces)) by (rewrite length_app, length_take; lia).
      rewrite (assoc_L (++) _ d), (take_app_le _ (concat pieces)) by (rewrite length_app; lia).
      rewrite !take_app. f_equal. rewrite take_take. f_equal. lia.
Qed.

(** Output written to a handle in pieces is the pieces end to end, cut at
    the size of the buffer: the valid bytes are a prefix of the whole output, the
    total counts all of it, and an overflow is reported exactly when something
    was cut off. *)
Theorem write_collects_prefix node buf size pieces :
  Z.of_nat (length buf) = size → size < 2 ^ 62 → Z.of_nat (length (concat pieces)) < 2 ^ 62 →
  ∃ dbh, write_all (kfio_info_reset_data_handle node buf size) pieces = Ok dbh
    ∧ valid_bytes dbh = take (Z.to_nat size) (concat pieces)
    ∧ kfio_info_data_size_written dbh = Z.of_nat (length (concat pieces))
    ∧ kfio_info_data_size_valid dbh = Z.min size (Z.of_nat (length (concat pieces)))
    ∧ kfio_info_data_overflow dbh = (size <? Z.of_nat (length (concat pieces))).
Proof.
  intros L S T. assert (data_ok (kfio_info_reset_data_handle node buf size)) as K.
  { split; cbn; try done; lia. }
  destruct (write_all_run pieces _ K T) as (dbh & E & _ & M & C & Tt & V). cbn in M, C, Tt, V.
  exists dbh. unfold kfio_info_data_overflow, kfio_info_data_size_written, kfio_info_data_size_valid.
  rewrite Tt, M, C, Z.gtb_ltb. split_and!; try done; lia.
Qed.

(** One [kfio_info_printf], when there is room for at least a byte. *)
Lemma printf_run dbh out :
  data_ok dbh → db_cur_size dbh < db_max_size dbh → Z.of_nat (length out) < 2 ^ 62 →
  let avail := db_max_size dbh - db_cur_size dbh in
  let len := Z.of_nat (length out) in
  ∃ dbh', kfio_info_printf dbh (Some out) = Ok (len, dbh') ∧ db_max_size dbh' = db_max_size dbh
    ∧ db_tot_size dbh' = u64 (db_tot_size dbh + len)
    ∧ (len < avail ∧ valid_bytes dbh' = valid_bytes dbh ++ out
       ∨ avail <= len ∧ valid_bytes dbh' = valid_bytes dbh ++ take (Z.to_nat (avail - 1)) out ++ [0]).
Proof.
  intros K R L avail len. destruct (avail_run dbh K) as [As Au]. pose proof K as [B M C T].
  change (2 ^ 62) with 4611686018427387904 in *. unfold kfio_info_printf. rewrite As, Au. fold avail len.
  unfold vsnprintf_bytes. destruct (Z.eqb_spec avail 0) as [|Na]; [lia|].
  set (w := take (Z.to_nat (avail - 1)) out ++ [0]).
  assert (Z.of_nat (length w) = Z.min len (avail - 1) + 1) as Lw.
  { unfold w. rewrite length_app, length_take. cbn. lia. }
  rewrite put_bytes_ok by lia. cbn [mbind outcome_bind]. eexists. split; [done|]. split; [done|]. split; [done|].
  unfold valid_bytes. cbn [db_cur_size db_buffer with_output].
  destruct (Z.gtb_spec len avail) as [G|G]; [right|destruct (decide (len = avail)) as [Q|Q]; [right|left]];
    (split; [lia|]).
  1, 2: assert (Z.of_nat (length w) = avail) as Lw' by lia; rewrite <-(take_put (db_buffer dbh) (db_cur_size dbh) w) by lia;
    f_equal; rewrite ?wrapu_small by (unfold in_u; change (2 ^ 64) with 18446744073709551616; lia); lia.
  rewrite wrapu_small by (unfold in_u; change (2 ^ 64) with 18446744073709551616; lia).
  pose proof (take_put (db_buffer dbh) (db_cur_size dbh) w ltac:(lia) ltac:(lia)) as P.
  apply (f_equal (take (Z.to_nat (db_cur_size dbh + len)))) in P. rewrite take_take in P.
  replace (Init.Nat.min (Z.to_nat (db_cur_size dbh + len)) (Z.to_nat (db_cur_size dbh) + length w))
    with (Z.to_nat (db_cur_size dbh + len)) in P by lia.
  etransitivity; [exact P|]. rewrite take_app_ge by (rewrite length_take; lia). rewrite length_take. f_equal.
  unfold w. rewrite (take_ge out) by lia. rewrite take_app_le by lia. apply take_ge. lia.
Qed.

(** Text that exactly fills the rest of the buffer loses its last character,
    which is replaced by the terminator, and no overflow is reported. *)
Theorem printf_exact_fit_loses_character dbh out :
  data_ok dbh → db_tot_size dbh = db_cur_size dbh →
  0 < Z.of_nat (length out) → Z.of_nat (length out) = db_max_size dbh - db_cur_size dbh →
  ∃ dbh', kfio_info_printf dbh (Some out) = Ok (Z.of_nat (length out), dbh')
    ∧ kfio_info_data_overflow dbh' = false
    ∧ valid_bytes dbh' = valid_bytes dbh ++ take (length out - 1) out ++ [0].
Proof.
  intros K T P L. pose proof (do_max _ K). pose proof (do_cur _ K).
  destruct (printf_run dbh out K ltac:(lia) ltac:(lia)) as (d & E & M & Tt & [[? _]|[_ V]]); [lia|].
  exists d. split; [done|]. split.
  - unfold kfio_info_data_overflow. rewrite Tt, M, T, Z.gtb_ltb, Z.ltb_ge.
    change (2 ^ 62) with 4611686018427387904 in *.
    rewrite wrapu_small; [lia|]. unfold in_u. change (2 ^ 64) with 18446744073709551616. lia.
  - rewrite V. do 3 f_equal. lia.
Qed.

Lemma write_collects_prefix_witness :
  ∃ dbh, write_all (kfio_info_reset_data_handle None [0; 0; 0; 0] 4) [[97; 98]; [99; 100; 101]] = Ok dbh
         ∧ valid_bytes dbh = [97; 98; 99; 100] ∧ kfio_info_data_overflow dbh = true.
Proof.
  destruct (write_collects_prefix None [0; 0; 0; 0] 4 [[97; 98]; [99; 100; 101]] eq_refl ltac:(lia) ltac:(done))
    as (dbh & E & V & _ & _ & O).
  exists dbh. split; [exact E|]. split; [exact V|exact O].
Defined.

Lemma printf_exact_fit_loses_character_witness :
  ∃ dbh, kfio_info_printf (kfio_info_reset_data_handle None [1; 1; 1] 3) (Some [97; 98; 99]) = Ok (3, dbh)
         ∧ valid_bytes dbh = [97; 98; 0] ∧ kfio_info_data_overflow dbh = false.
Proof.
  destruct (printf_exact_fit_loses_character (kfio_info_reset_data_handle None [1; 1; 1] 3) [97; 98; 99])
    as (dbh & E & O & V); [split; cbn; lia|done|done|done|].
  exists dbh. split; [exact E|]. split; [exact V|exact O].
Defined.
