(* ===== verification/KinfoPath.v ===== *)
(** * Paths in the information tree: common_kinfo.c

    Full names of nodes are their names from the top, with dots between them.
    This file has the walk down a name, the construction of a name from a node and
    the listing of all names below a directory, and the proofs that they agree. *)
From S2P Require Import Prelude Kinfo KinfoSpec KinfoRemove KinfoSystem KinfoData.

(** ** Operations *)

(** '.' *)
Definition dot : Z := 46.

(** The two inner loops: [p] moves past dots, [q] to the next dot or the end.  A
    pointer into the string is what is left of it. *)
Fixpoint skip_dots (p : cstring) : cstring :=
  match p with [] => [] | ch :: p' => if ch =? dot then skip_dots p' else p end.
Fixpoint component (p : cstring) : cstring :=
  match p with [] => [] | ch :: p' => if ch =? dot then [] else ch :: component p' end.

Section path.
Context `{KinfoEnv}.

(** Every round passes over a component, so the string cannot be longer than the
    rounds. *)
Fixpoint find_loop (fuel : nat) (nodep : node_ptr) (p : cstring) : K node_ptr :=
  match fuel with
  | O => fail NoFuel
  | S fuel =>
      if nodep is Some _ then
        let p := skip_dots p in
        let name := component p in
        let q := drop (length name) p in
        if name is [] then mret nodep
        else
          '(_, n) ← node nodep;
          nodep ← (if ni_type n =? KFIO_INFO_DIR then kfio_info_lookup_node nodep name else mret None);
          find_loop fuel nodep q
      else mret None
  end.

(** The names in [fullname] are put back as they were after each look-up. *)
Definition kfio_info_find_node (topnode : node_ptr) (fullname : cstring) : K node_ptr :=
  find_loop (length fullname + 2) topnode fullname.

(** The loop of [kfio_info_node_pathname]: [cur] is an index into [buf], the
    memory at [pathname]; [None] as the index stands for [-EINVAL]. *)
Fixpoint pathname_loop (fuel : nat) (topnode nodep : node_ptr) (cur : Z) (buf : list Z) : K (option Z * list Z) :=
  match fuel with
  | O => fail NoFuel
  | S fuel =>
      if bool_decide (nodep = topnode) then mret (Some cur, buf)
      else
        '(_, n) ← node nodep;
        let sln := kfio_strlen (ni_name n) in
        let cur := cur - (sln + 1) in
        if cur <? 0 then mret (None, buf)
        else
          buf ← lift (put_bytes buf cur (ni_name n));
          buf ← lift (put_bytes buf (cur + sln) [dot]);
          pathname_loop fuel topnode (ni_parent n) cur buf
  end.

(** Returns the length and the buffer.  There are no cycles, so one round for
    every node and one to leave are enough. *)
Definition kfio_info_node_pathname (topnode nodep : node_ptr) (pathname : list Z) (len : Z) : K (Z * list Z) :=
  '(cur, buf) ← (λ s, pathname_loop (size (nodes s) + 1) topnode nodep len pathname s);
  match cur with
  | None => mret (- EINVAL, buf)
  | Some cur =>
      let sln := len - cur in
      let sln := if sln >? 0 then sln - 1 else sln in
      buf ← (if cur >? 0 then lift (put_bytes buf 0 (take (Z.to_nat sln) (drop (Z.to_nat cur) buf))) else mret buf);
      buf ← lift (put_bytes buf sln [0]);
      mret (sln, buf)
  end.

(** A list entry in the walk: the head of a directory's list or the entry of a
    node. *)
Inductive entry := HeadOf (d : node_id) | EntryOf (c : node_id).

#[global] Instance entry_eq_dec : EqDecision entry.
Proof. solve_decision. Defined.

(** The entry after [c] in the list of [d]: the head again after the last one. *)
Fixpoint after (d c : node_id) (l : list node_id) : entry :=
  match l with
  | a :: l' => if decide (a = c) then match l' with b :: _ => EntryOf b | [] => HeadOf d end else after d c l'
  | [] => HeadOf d
  end.

(** [entry->next].  A node is on the list of its parent. *)
Definition next_entry (e : entry) : K entry :=
  match e with
  | HeadOf d => l ← subnode_list (Some d); mret (match l with b :: _ => EntryOf b | [] => HeadOf d end)
  | EntryOf c =>
      '(_, n) ← node (Some c);
      match ni_parent n with
      | None => fail NullDeref
      | Some d => l ← subnode_list (Some d); mret (after d c l)
      end
  end.

(** One full name, in two writes. *)
Definition emit (dbh : kfio_info_data) (path name : cstring) : outcome kfio_info_data :=
  '(_, dbh) ← kfio_info_write dbh path;
  '(_, dbh) ← kfio_info_write dbh (name ++ [0]);
  mret dbh.

(** The loop of [kfio_info_node_walk_tree].  [path] is the array [parent_path],
    [plen] is [parent_pathlen]. *)
Fixpoint walk_loop (fuel : nat) (startnode : node_id) (parent : node_ptr) (e : entry) (path : list Z) (plen : Z)
    (dbh : kfio_info_data) : K (Z * kfio_info_data) :=
  match fuel with
  | O => fail NoFuel
  | S fuel =>
      e ← next_entry e;
      match e with
      | HeadOf d =>
          (* another list's head would be taken for a node's entry *)
          if negb (bool_decide (parent = Some d)) then fail BadPointer
          else if bool_decide (d = startnode) then mret (0, dbh)
          else
            '(p, pn) ← node parent;
            let plen := plen - (kfio_strlen (ni_name pn) + 1) in
            let plen := if plen <? 0 then 0 else plen in
            path ← lift (put_bytes path plen [0]);
            walk_loop fuel startnode (ni_parent pn) (EntryOf p) path plen dbh
      | EntryOf c =>
          '(_, n) ← node (Some c);
          if ni_type n =? KFIO_INFO_DIR then
            let new_pathlen := kfio_strlen (ni_name n) + 1 in
            if plen + new_pathlen >=? KFIO_INFO_MAX_FULLPATHLEN
            then walk_loop fuel startnode parent (EntryOf c) path plen dbh
            else
              path ← lift (put_bytes path plen (ni_name n ++ [0]));
              let plen := plen + new_pathlen in
              path ← lift (put_bytes path (plen - 1) [dot]);
              path ← lift (put_bytes path plen [0]);
              walk_loop fuel startnode (Some c) (HeadOf c) path plen dbh
          else
            dbh ← lift (emit dbh (take (Z.to_nat plen) path) (ni_name n));
            walk_loop fuel startnode parent (EntryOf c) path plen dbh
      end
  end.

(** Every node below [startnode] is reached once and every directory is left
    once. *)
Definition walk_from (startnode : node_id) (path : list Z) (plen : Z) (dbh : kfio_info_data) : K (Z * kfio_info_data) :=
  λ s, walk_loop (2 * size (nodes s) + 1) startnode (Some startnode) (HeadOf startnode) path plen dbh s.

(** The separator after the path of the start node, if it has one. *)
Definition append_separator (path : list Z) (plen : Z) : outcome (list Z * Z) :=
  if plen >? 0 then
    path ← put_bytes path plen [dot];
    path ← put_bytes path (plen + 1) [0];
    Ok (path, plen + 1)
  else Ok (path, plen).

(** [stack] is what the array [parent_path] holds on entry. *)
Definition kfio_info_node_walk_tree (topnode startnode : node_ptr) (stack : list Z) (dbh : kfio_info_data) :
    K (Z * kfio_info_data) :=
  match startnode with
  | None => mret (- EINVAL, dbh)
  | Some st =>
      '(_, n) ← node startnode;
      if negb (ni_type n =? KFIO_INFO_DIR) then mret (- EINVAL, dbh)
      else
        '(retval, path) ← kfio_info_node_pathname topnode startnode stack (KFIO_INFO_MAX_FULLPATHLEN - 1);
        if retval <? 0 then mret (retval, dbh)
        else
          '(path, plen) ← lift (append_separator path retval);
          walk_from st path plen dbh
  end.

End path.

(** * Full names *)

Section spec.
Context `{EL : KinfoEnvLaws}.
Implicit Types (s : kinfo) (c d i : node_id) (r : kfio_info_node) (l : list node_id) (ps : list cstring).

(** The names on the way from [t] down to [c]; [t] may be NULL, above the root. *)
Inductive path_to s (t : node_ptr) : node_ptr → list cstring → Prop :=
| path_here : path_to s t t []
| path_down c r ps : nodes s !! c = Some r → Some c ≠ t → path_to s t (ni_parent r) ps →
    path_to s t (Some c) (ps ++ [ni_name r]).

(** "a.b.c." *)
Definition dotted ps : cstring := concat ((λ nm, nm ++ [dot]) <$> ps).
(** "a.b.c" *)
Definition path_string ps : cstring := take (length (dotted ps) - 1) (dotted ps).

Lemma dotted_app ps qs : dotted (ps ++ qs) = dotted ps ++ dotted qs.
Proof. unfold dotted. by rewrite fmap_app, concat_app. Qed.

Lemma dotted_one nm : dotted [nm] = nm ++ [dot].
Proof. unfold dotted. cbn. by rewrite app_nil_r. Qed.

Lemma dotted_string ps : ps ≠ [] → dotted ps = path_string ps ++ [dot].
Proof.
  unfold path_string. destruct ps as [|nm ps _] using rev_ind; [done|intros _].
  rewrite dotted_app, dotted_one, (assoc_L (++)), length_app. cbn [length].
  rewrite take_app_le by lia. by rewrite take_ge by lia.
Qed.

(** ** Bytes put one after the other *)

Lemma drop_put (buf : list Z) pos (data : list Z) :
  0 <= pos → pos + Z.of_nat (length data) <= Z.of_nat (length buf) →
  drop (Z.to_nat pos) (take (Z.to_nat pos) buf ++ data ++ drop (Z.to_nat pos + length data) buf)
  = data ++ drop (Z.to_nat pos + length data) buf.
Proof. intros P L. rewrite drop_app_ge by (rewrite length_take; lia). rewrite length_take. by replace (_ - _)%nat with 0%nat by lia. Qed.

Lemma put_seq (buf : list Z) pos (a b : list Z) :
  0 <= pos → pos + Z.of_nat (length a) + Z.of_nat (length b) <= Z.of_nat (length buf) →
  (buf ← put_bytes buf pos a; put_bytes buf (pos + Z.of_nat (length a)) b) = put_bytes buf pos (a ++ b).
Proof.
  intros P L. rewrite (put_bytes_ok buf pos a) by lia. cbn [mbind outcome_bind].
  rewrite put_bytes_ok by (rewrite ?length_put; lia). rewrite put_bytes_ok by (rewrite ?length_app; lia). f_equal.
  replace (Z.to_nat (pos + Z.of_nat (length a))) with (Z.to_nat pos + length a)%nat by lia.
  rewrite take_put by lia. rewrite <-(assoc_L (++)). f_equal. rewrite <-(assoc_L (++)). do 2 f_equal.
  rewrite (assoc_L (++)), drop_app_ge by (rewrite length_app, length_take; lia).
  rewrite drop_drop, length_app, length_take, length_app. f_equal. lia.
Qed.

(** ** The name of a node *)

Lemma path_none s t ps : path_to s t None ps → ps = [].
Proof. inversion 1. done. Qed.

(** A node is as deep as there are nodes on the way, so no deeper than the tree is
    big. *)
Lemma path_depth s t x ps : kinfo_wf s → path_to s t x ps → (length ps <= size (nodes s))%nat.
Proof.
  intros W P. destruct (wf_rank _ W) as [rank Rk].
  assert (∃ ns, length ns = length ps ∧ NoDup ns ∧ ∀ y, y ∈ ns → y ∈ dom (nodes s) ∧ ∀ c, x = Some c → (rank y <= rank c)%nat)
    as (ns & Ln & ND & In).
  { induction P as [|c r ps E Nt P (ns & Ln & ND & In)].
    - exists []. split; [done|]. split; [constructor|]. by intros y ?%not_elem_of_nil.
    - exists (c :: ns). rewrite length_app. cbn. split; [lia|]. split.
      + apply list.NoDup_cons. split; [|done]. intros Ic. destruct (In c Ic) as [_ Hc].
        destruct (ni_parent r) as [d|] eqn:Pd; [|apply path_none in P as ->; destruct ns; [by apply not_elem_of_nil in Ic|discriminate Ln]].
        pose proof (Rk c r d E Pd). specialize (Hc d eq_refl). lia.
      + intros y [->|Iy]%elem_of_cons.
        * split; [by apply elem_of_dom_2 in E|]. intros c' [= <-]. lia.
        * destruct (In y Iy) as [Dy Hy]. split; [done|]. intros c' [= <-].
          destruct (ni_parent r) as [d|] eqn:Pd; [|apply path_none in P as ->; destruct ns; [by apply not_elem_of_nil in Iy|discriminate Ln]].
          pose proof (Rk c r d E Pd). specialize (Hy d eq_refl). lia. }
  rewrite <-Ln, <-size_dom. rewrite <-(size_list_to_set (C := gset node_id) ns ND).
  apply subseteq_size. intros y Iy%elem_of_list_to_set. by apply In.
Qed.

Lemma pathname_loop_run s t x ps :
  path_to s t x ps → ∀ fuel cur buf,
  (length ps < fuel)%nat → 0 <= cur <= Z.of_nat (length buf) →
  ∃ buf', length buf' = length buf ∧
    let k := Z.of_nat (length (dotted ps)) in
    pathname_loop fuel t x cur buf s = Ok ((if k <=? cur then Some (cur - k) else None, buf'), s)
    ∧ (k <= cur → drop (Z.to_nat (cur - k)) buf' = dotted ps ++ drop (Z.to_nat cur) buf).
Proof.
  induction 1 as [|c r ps E Nt P IH]; intros fuel cur buf F C; (destruct fuel as [|fuel]; [cbn in F; lia|]); cbn [pathname_loop].
  - rewrite bool_decide_eq_true_2 by done. exists buf. split; [done|]. change (Z.of_nat (length (dotted []))) with 0.
    cbv zeta. rewrite (proj2 (Z.leb_le 0 cur)), Z.sub_0_r by lia. done.
  - rewrite bool_decide_eq_false_2 by done. erewrite stateful_bind_ok; [|by apply node_run]. cbv beta iota.
    set (nm := ni_name r). unfold kfio_strlen. rewrite length_app in F. cbn in F.
    rewrite dotted_app, dotted_one, !length_app. cbn [length].
    destruct (Z.ltb_spec (cur - (Z.of_nat (length nm) + 1)) 0) as [Sh|Sh].
    + exists buf. split; [done|]. set (k := Z.of_nat (length (dotted ps) + _)). rewrite (proj2 (Z.leb_gt k cur)) by lia. split; [done|intros; lia].
    + set (cur' := cur - (Z.of_nat (length nm) + 1)) in *.
      pose proof (put_seq buf cur' nm [dot] ltac:(lia) ltac:(cbn; lia)) as Q.
      rewrite put_bytes_ok in Q by lia. cbn [mbind outcome_bind] in Q. rewrite (put_bytes_ok buf cur' (nm ++ [dot])) in Q by (rewrite ?length_app; cbn; lia).
      rewrite put_bytes_ok by lia. erewrite stateful_bind_ok; [|done]. cbv beta. rewrite Q.
      erewrite stateful_bind_ok; [|done]. cbv beta.
      assert (cur' + Z.of_nat (length (nm ++ [dot])) <= Z.of_nat (length buf)) as Fit by (rewrite length_app; cbn; lia).
      set (b1 := take _ buf ++ _).
      assert (length b1 = length buf) as L1 by (apply length_put; lia).
      assert (drop (Z.to_nat cur') b1 = (nm ++ [dot]) ++ drop (Z.to_nat cur) buf) as D1.
      { unfold b1. rewrite drop_put by lia. do 2 f_equal. rewrite length_app. cbn. lia. }
      destruct (IH fuel cur' b1 ltac:(lia) ltac:(lia)) as (b2 & L2 & E2 & D2).
      exists b2. split; [lia|]. set (k := Z.of_nat (length (dotted ps) + _)). split.
      * rewrite E2. repeat f_equal. destruct (Z.leb_spec (Z.of_nat (length (dotted ps))) cur'), (Z.leb_spec k cur);
          try (f_equal; lia); exfalso; lia.
      * intros Kc. replace (cur - k) with (cur' - Z.of_nat (length (dotted ps))) by lia.
        rewrite D2 by lia. by rewrite D1, (assoc_L (++)).
Qed.

(** The name of [x], with its terminator, at the start of the buffer. *)
Lemma node_pathname_run s t x ps buf len :
  kinfo_wf s → path_to s t x ps → 0 < len <= Z.of_nat (length buf) →
  ∃ buf', length buf' = length buf ∧
    let p := path_string ps in
    (Z.of_nat (length (dotted ps)) <= len ∧ kfio_info_node_pathname t x buf len s = Ok ((Z.of_nat (length p), buf'), s)
       ∧ take (length p + 1) buf' = p ++ [0]
     ∨ len < Z.of_nat (length (dotted ps)) ∧ kfio_info_node_pathname t x buf len s = Ok ((- EINVAL, buf'), s)).
Proof.
  intros W P L. unfold kfio_info_node_pathname.
  destruct (pathname_loop_run s t x ps P (size (nodes s) + 1) len buf) as (b1 & L1 & E1 & D1);
    [pose proof (path_depth s t x ps W P); lia|lia|].
  erewrite stateful_bind_ok; [|exact E1]. cbv beta iota.
  destruct (Z.leb_spec (Z.of_nat (length (dotted ps))) len) as [Fit|No]; [|by exists b1; auto].
  specialize (D1 Fit). set (k := Z.of_nat (length (dotted ps))) in *. set (p := path_string ps).
  assert (length p = length (dotted ps) - 1)%nat as Lp by (unfold p, path_string; rewrite length_take; lia).
  replace (len - (len - k)) with k by lia.
  assert ((if k >? 0 then k - 1 else k) = Z.of_nat (length p)) as -> by (rewrite Z.gtb_ltb; destruct (Z.ltb_spec 0 k); lia).
  assert (∃ b2, (if len - k >? 0 then lift (put_bytes b1 0 (take (Z.to_nat (Z.of_nat (length p))) (drop (Z.to_nat (len - k)) b1)))
                 else mret b1) s = Ok (b2, s) ∧ length b2 = length buf ∧ take (length p) b2 = p) as (b2 & E2 & L2 & T2).
  { assert (take (length p) (drop (Z.to_nat (len - k)) b1) = p) as Tp.
    { rewrite D1, take_app_le by lia. unfold p, path_string. rewrite length_take. by rewrite Nat.min_l by lia. }
    rewrite Z.gtb_ltb. destruct (Z.ltb_spec 0 (len - k)) as [Mv|Eq].
    - rewrite Nat2Z.id, Tp. rewrite put_bytes_ok by lia. eexists. split; [done|]. split; [rewrite length_put; lia|].
      change (take (Z.to_nat 0) b1) with (@nil Z). rewrite app_nil_l. by apply take_app_length.
    - exists b1. split; [done|]. split; [done|]. by replace (len - k) with 0 in Tp by lia. }
  erewrite stateful_bind_ok; [|exact E2]. cbv beta. rewrite put_bytes_ok by (cbn; lia).
  erewrite stateful_bind_ok; [|done]. cbv beta. eexists. split; [|left; split; [done|]; split; [done|]].
  - rewrite length_put by (cbn; lia). done.
  - pose proof (take_put b2 (Z.of_nat (length p)) [0] ltac:(lia) ltac:(cbn; lia)) as Q. rewrite Nat2Z.id in Q.
    cbn [length] in Q. rewrite Nat2Z.id. cbn [length]. etransitivity; [exact Q|]. by rewrite T2.
Qed.
(** ** Looking up a name *)

(** A name split at its dots, without the empty pieces. *)
Fixpoint pieces (p : cstring) : list cstring :=
  match p with
  | [] => [[]]
  | ch :: p =>
      if ch =? dot then [] :: pieces p
      else match pieces p with [] => [[ch]] | w :: ws => (ch :: w) :: ws end
  end.
Definition components (p : cstring) : list cstring := filter (λ w, w ≠ []) (pieces p).

(** The node of directory [c] with a name, and the node at the end of a list of
    names. *)
Definition child s c (nm : cstring) : node_ptr :=
  r ← nodes s !! c;
  if ni_type r =? KFIO_INFO_DIR then l ← subnodes s !! c; named s nm l else None.
Fixpoint descend s (x : node_ptr) (names : list cstring) : node_ptr :=
  match names, x with
  | [], _ => x
  | _, None => None
  | nm :: names, Some c => descend s (child s c nm) names
  end.

Lemma pieces_component p :
  pieces p = component p :: match drop (length (component p)) p with [] => [] | _ :: q => pieces q end.
Proof.
  induction p as [|ch p IH]; [done|]. cbn [pieces component]. destruct (ch =? dot); [done|].
  rewrite IH at 1. done.
Qed.

Lemma components_dot p : components (dot :: p) = components p.
Proof. done. Qed.

Lemma components_skip p : components (skip_dots p) = components p.
Proof. induction p as [|ch p IH]; [done|]. cbn [skip_dots]. destruct (Z.eqb_spec ch dot) as [->|]; [by rewrite components_dot|done]. Qed.

Lemma after_component p ch q : drop (length (component p)) p = ch :: q → ch = dot.
Proof. induction p as [|a p IH]; [done|]. cbn [component]. destruct (Z.eqb_spec a dot) as [->|]; [by intros [= ->]|exact IH]. Qed.

Lemma components_first p :
  component p ≠ [] → components p = component p :: components (drop (length (component p)) p).
Proof.
  intros N. unfold components at 1. rewrite pieces_component, filter_cons_True by done. f_equal.
  destruct (drop _ p) as [|ch q] eqn:D; [done|]. by rewrite (after_component p ch q D).
Qed.

Lemma component_nil p : component (skip_dots p) = [] → components p = [].
Proof.
  intros N. rewrite <-components_skip. unfold components. rewrite pieces_component, N. cbn [length drop].
  destruct (skip_dots p) as [|ch q] eqn:E; [done|]. exfalso. cbn [component] in N.
  destruct (Z.eqb_spec ch dot) as [->|]; [|done]. clear N. induction p as [|a p IH]; [done|].
  cbn [skip_dots] in E. destruct (Z.eqb_spec a dot); [auto|congruence].
Qed.

Lemma skip_le p : (length (skip_dots p) <= length p)%nat.
Proof. induction p as [|a p IH]; cbn; [lia|]. case_match; cbn; lia. Qed.

Lemma component_le p : (length (component p) <= length p)%nat.
Proof. induction p as [|a p IH]; cbn; [lia|]. case_match; cbn; lia. Qed.

Lemma child_node s c nm c' : kinfo_wf s → child s c nm = Some c' → ∃ r, nodes s !! c' = Some r ∧ ni_parent r = Some c ∧ ni_name r = nm.
Proof.
  intros W. unfold child. destruct (nodes s !! c) as [r|]; [|done]. cbn. destruct (_ =? _); [|done].
  destruct (subnodes s !! c) as [l|] eqn:L; [|done]. cbn. intros (I & r' & E' & N)%named_some.
  destruct (wf_list _ W c l L) as (_ & _ & C). destruct (C c' I) as (r2 & E2 & P). simplify_eq. eauto.
Qed.

Lemma find_loop_run fuel s x p :
  kinfo_wf s → (∀ c, x = Some c → is_Some (nodes s !! c)) → (length p + 1 < fuel)%nat →
  find_loop fuel x p s = Ok (descend s x (components p), s).
Proof.
  intros W. revert x p. induction fuel as [|fuel IH]; intros x p X F; [lia|]. cbn [find_loop].
  destruct x as [c|]; [|by destruct (components p)].
  destruct (component (skip_dots p)) as [|ch nm] eqn:Cp; [by rewrite (component_nil p Cp)|].
  rewrite <-(components_skip p), components_first, Cp by (by rewrite Cp).
  destruct (X c eq_refl) as [r E]. erewrite stateful_bind_ok; [|by apply node_run]. cbv beta iota. cbn [descend].
  assert ((if ni_type r =? KFIO_INFO_DIR then kfio_info_lookup_node (Some c) (ch :: nm) else mret None) s
          = Ok (child s c (ch :: nm), s)) as Ek.
  { unfold child. rewrite E. cbn [mbind option_bind]. destruct (Z.eqb_spec (ni_type r) KFIO_INFO_DIR) as [T|]; [|done].
    destruct (wf_dir _ W c) as [l L]; [by exists r|]. rewrite L. cbn. by eapply lookup_node_run. }
  erewrite stateful_bind_ok; [|exact Ek]. cbv beta. apply IH.
  - intros c' (r' & E' & _)%(child_node _ _ _ _ W). by exists r'.
  - rewrite length_drop. pose proof (skip_le p). pose proof (component_le (skip_dots p)) as Cl. rewrite Cp in Cl.
    cbn [length] in *. lia.
Qed.

Lemma descend_app s x ps qs : descend s x (ps ++ qs) = descend s (descend s x ps) qs.
Proof. revert x. induction ps as [|nm ps IH]; intros x; [done|]. destruct x as [c|]; cbn; [apply IH|by destruct qs]. Qed.

(** The names of a list of nodes, apart from each other. *)
Definition distinct_names s d : Prop := ∀ l c1 c2 r1 r2, subnodes s !! d = Some l → c1 ∈ l → c2 ∈ l →
  nodes s !! c1 = Some r1 → nodes s !! c2 = Some r2 → ni_name r1 = ni_name r2 → c1 = c2.

Lemma wf_distinct s d : kinfo_wf s → (kinfo_root_node s = Some d → distinct_names s d) → distinct_names s d.
Proof.
  intros W Rt. destruct (decide (kinfo_root_node s = Some d)) as [R|N]; [auto|].
  intros l c1 c2 r1 r2 L. by apply (wf_names _ W d l).
Qed.

Lemma child_complete s c r d :
  kinfo_wf s → distinct_names s d → nodes s !! c = Some r → ni_parent r = Some d → child s d (ni_name r) = Some c.
Proof.
  intros W D E P. destruct (wf_parent _ W c r d E P) as (l & L & I). destruct (wf_list _ W d l L) as ((rd & Ed & T) & _ & C).
  unfold child. rewrite Ed. cbn [mbind option_bind]. rewrite T. cbn. rewrite L. cbn.
  destruct (named s (ni_name r) l) as [c'|] eqn:Nm.
  - apply named_some in Nm as (I' & r' & E' & N'). f_equal. by apply (D l c' c r' r).
  - by destruct (named_none s _ l c r Nm I E).
Qed.

Lemma path_descend s t c ps :
  kinfo_wf s → (∀ d, kinfo_root_node s = Some d → distinct_names s d) →
  path_to s (Some t) (Some c) ps → descend s (Some t) ps = Some c.
Proof.
  intros W Rt P. remember (Some c) as x eqn:Ex. revert c Ex. induction P as [|c' r ps E Nt P IH]; intros c Ex; [done|].
  injection Ex as <-. rewrite descend_app. destruct (ni_parent r) as [d|] eqn:Pd; [|inversion P].
  rewrite (IH d eq_refl). cbn. apply child_complete; try done. apply wf_distinct; auto.
Qed.

Lemma path_to_below s t c ps : path_to s (Some t) (Some c) ps → below s t c.
Proof.
  intros P. remember (Some c) as x eqn:Ex. revert c Ex. induction P as [|c' r ps E Nt P IH]; intros c Ex.
  - injection Ex as ->. constructor.
  - injection Ex as <-. destruct (ni_parent r) as [d|] eqn:Pd; [|inversion P]. eapply rtc_l; [|by apply IH]. by exists r.
Qed.

Lemma below_rank s (rank : node_id → nat) d c :
  (∀ c r d, nodes s !! c = Some r → ni_parent r = Some d → (rank d < rank c)%nat) → below s d c → (rank d <= rank c)%nat.
Proof. intros Rk. induction 1 as [|x y z (r & E & P) _ IH]; [done|]. pose proof (Rk x r y E P). lia. Qed.

Lemma descend_path s t c ps : kinfo_wf s → descend s (Some t) ps = Some c → path_to s (Some t) (Some c) ps.
Proof.
  intros W. revert c. induction ps as [|nm ps IH] using rev_ind; intros c D; [injection D as ->; constructor|].
  rewrite descend_app in D. destruct (descend s (Some t) ps) as [d|] eqn:Ed; [|done].
  destruct (child_node s d nm c W D) as (r & E & P & <-). apply path_down; [done| |by rewrite P; apply IH].
  intros [= ->]. destruct (wf_rank _ W) as [rank Rk]. pose proof (Rk t r d E P).
  pose proof (below_rank s rank t d Rk (path_to_below _ _ _ _ (IH d eq_refl))). lia.
Qed.

(** A name that can be written in a path. *)
Definition plain (nm : cstring) : Prop := nm ≠ [] ∧ dot ∉ nm.

(** The first component of "a", or of "a." with something after it. *)
Lemma component_plain nm rest : dot ∉ nm → rest = [] ∨ head rest = Some dot → component (nm ++ rest) = nm.
Proof.
  intros N R. induction nm as [|ch nm IH]; cbn [app component].
  - destruct rest as [|a rest]; [done|]. destruct R as [|[= ->]]; done.
  - apply not_elem_of_cons in N as [N1 N2]. destruct (Z.eqb_spec ch dot); [by subst|]. by rewrite IH.
Qed.

Lemma path_string_cons nm ps : path_string (nm :: ps) = nm ++ match ps with [] => [] | _ => dot :: path_string ps end.
Proof.
  unfold path_string. change (dotted (nm :: ps)) with ((nm ++ [dot]) ++ dotted ps).
  destruct ps as [|nm' ps].
  - change (dotted []) with (@nil Z). rewrite app_nil_r, length_app. cbn [length].
    replace (length nm + 1 - 1)%nat with (length nm) by lia. by rewrite take_app_length, app_nil_r.
  - assert (1 <= length (dotted (nm' :: ps)))%nat by (change (dotted (nm' :: ps)) with ((nm' ++ [dot]) ++ dotted ps); rewrite !length_app; cbn [length]; lia).
    rewrite !length_app. cbn [length]. rewrite take_app_ge by (rewrite length_app; cbn [length]; lia).
    rewrite <-(assoc_L (++)), length_app. cbn [app length]. do 3 f_equal. lia.
Qed.

Lemma components_path ps : Forall plain ps → components (path_string ps) = ps.
Proof.
  induction 1 as [|nm ps [N D] _ IH]; [done|]. rewrite path_string_cons. set (rest := match ps with [] => _ | _ => _ end).
  assert (component (nm ++ rest) = nm) as Cn by (apply component_plain; [done|]; unfold rest; destruct ps; auto).
  rewrite components_first, Cn by (by rewrite Cn). f_equal. rewrite drop_app_length. unfold rest.
  destruct ps; [done|]. by rewrite components_dot.
Qed.

(** Written out, the components are no longer than the name and a dot. *)
Lemma components_short p : (length (dotted (components p)) <= length p + 1)%nat.
Proof.
  assert (∀ q, length (dotted (components q)) <= length (dotted (pieces q)))%nat as Sh.
  { intros q. unfold components. induction (pieces q) as [|w ws IH]; [done|]. rewrite filter_cons.
    change (dotted (w :: ws)) with ((w ++ [dot]) ++ dotted ws). rewrite !length_app. case_decide; [|lia].
    change (dotted (w :: ?l)) with ((w ++ [dot]) ++ dotted l). rewrite !length_app. lia. }
  etransitivity; [apply Sh|]. clear Sh. induction p as [|ch p IH]; [done|]. cbn [pieces].
  destruct (ch =? dot).
  - change (dotted ([] :: pieces p)) with (dot :: dotted (pieces p)). cbn [length]. lia.
  - destruct (pieces p) as [|w ws]; [by cbn in *; lia|].
    change (dotted ((ch :: w) :: ws)) with (ch :: dotted (w :: ws)). cbn [length]. lia.
Qed.

(** * The properties *)

(** Looking up a full name always returns, and gives the node reached from
    the top by looking up the non-empty components of the name one after the other
    (NULL when a component is missing or is looked for in a node that is no
    directory).  Dots at the ends and doubled dots are ignored. *)
Theorem find_node_descends s x fullname :
  kinfo_wf s → (∀ c, x = Some c → is_Some (nodes s !! c)) →
  kfio_info_find_node x fullname s = Ok (descend s x (components fullname), s).
Proof. intros W X. by apply find_loop_run; [| |lia]. Qed.

(** C11: When no name on the way from the top to a node has a dot in it or is empty,
    and the names below one parent, the root included, are distinct, the name built
    for the node finds the node again: when it and its terminator fit, the buffer
    holds the names from the top with dots between them, and looking this up from the
    same top gives the node.  When it does not fit the result is [-EINVAL], and
    nothing outside the buffer is touched. *)
Theorem pathname_then_find s t c ps buf len :
  kinfo_wf s → (∀ d, kinfo_root_node s = Some d → distinct_names s d) →
  path_to s (Some t) (Some c) ps → Forall plain ps → is_Some (nodes s !! t) →
  0 < len <= Z.of_nat (length buf) →
  ∃ buf', length buf' = length buf ∧
    let p := path_string ps in
    if decide (Z.of_nat (length (dotted ps)) <= len)
    then kfio_info_node_pathname (Some t) (Some c) buf len s = Ok ((Z.of_nat (length p), buf'), s)
         ∧ take (length p + 1) buf' = p ++ [0]
         ∧ kfio_info_find_node (Some t) p s = Ok (Some c, s)
    else kfio_info_node_pathname (Some t) (Some c) buf len s = Ok ((- EINVAL, buf'), s).
Proof.
  intros W Rt P Pl [rt Et] L. destruct (node_pathname_run s (Some t) (Some c) ps buf len W P L) as (buf' & Lb & [(F & E & T)|(F & E)]);
    exists buf'; (split; [done|]).
  - cbv zeta. rewrite decide_True by done. split; [done|]. split; [done|].
    unfold kfio_info_find_node. rewrite find_loop_run; [|done|intros ? [= <-]; eauto|lia].
    by rewrite components_path, (path_descend s t c ps).
  - cbv zeta. rewrite decide_False by lia. done.
Qed.

(** The name built for a node that was looked up is the name it was looked
    up by, without its superfluous dots. *)
Theorem find_then_pathname s t c fullname buf len :
  kinfo_wf s → is_Some (nodes s !! t) → kfio_info_find_node (Some t) fullname s = Ok (Some c, s) →
  0 < len <= Z.of_nat (length buf) → Z.of_nat (length fullname) < len →
  ∃ buf', let p := path_string (components fullname) in
    kfio_info_node_pathname (Some t) (Some c) buf len s = Ok ((Z.of_nat (length p), buf'), s)
    ∧ take (length p + 1) buf' = p ++ [0].
Proof.
  intros W [rt Et] F L Fit. unfold kfio_info_find_node in F.
  rewrite find_loop_run in F by (done || lia || (intros ? [= <-]; eauto)). injection F as F.
  apply descend_path in F; [|done].
  destruct (node_pathname_run s (Some t) (Some c) _ buf len W F L) as (buf' & Lb & [(_ & E & T)|(No & _)]); [eauto|].
  exfalso. pose proof (components_short fullname). lia.
Qed.
End spec.

(** ** In a tree *)

(** "d" under "c" under "ab". *)
Definition tree4_path : list cstring := [[97; 98]; [99]; [100]].

Lemma tree4_root_names : ∀ d, kinfo_root_node tree4 = Some d → distinct_names tree4 d.
Proof.
  intros d Ed l c1 c2 r1 r2 L. vm_compute in Ed. injection Ed as <-. vm_compute in L. injection L as <-.
  by intros ->%list_elem_of_singleton ->%list_elem_of_singleton.
Qed.

Lemma tree4_path_to : @path_to tree4 (Some 1%positive) (Some 9%positive) tree4_path.
Proof.
  change tree4_path with (([[97; 98]] ++ [[99]]) ++ [[100]]).
  eapply (path_down tree4 (Some 1%positive) 9 (mk_node (Some nc) _ _ _ _ _ _ [100])); [by vm_compute|done|].
  eapply (path_down tree4 (Some 1%positive) nc (mk_node (Some ab) _ _ _ _ _ _ [99])); [by vm_compute|done|].
  eapply (path_down tree4 (Some 1%positive) ab (mk_node (Some 1%positive) _ _ _ _ _ _ [97; 98]) []); [by vm_compute|done|].
  constructor.
Qed.

Lemma find_node_descends_witness :
  @kfio_info_find_node (Some 1%positive) [46; 97; 98; 46; 46; 99] tree4 = Ok (Some nc, tree4).
Proof.
  rewrite (@find_node_descends small_env tree4 (Some 1%positive) [46; 97; 98; 46; 46; 99] (reached_wf _ tree4_reached)).
  - by vm_compute.
  - intros c [= <-]. vm_compute; eexists; reflexivity.
Defined.

Lemma pathname_then_find_witness :
  ∃ buf', @kfio_info_node_pathname (Some 1%positive) (Some 9%positive) (replicate 7 0) 7 tree4 = Ok ((6, buf'), tree4)
    ∧ take 7 buf' = [97; 98; 46; 99; 46; 100; 0]
    ∧ @kfio_info_find_node (Some 1%positive) [97; 98; 46; 99; 46; 100] tree4 = Ok (Some 9%positive, tree4).
Proof.
  destruct (@pathname_then_find small_env tree4 1 9 tree4_path (replicate 7 0) 7 (reached_wf _ tree4_reached)
              tree4_root_names tree4_path_to) as (buf' & _ & P).
  - repeat constructor; unfold dot; set_solver.
  - vm_compute; eexists; reflexivity.
  - cbn. lia.
  - exists buf'. exact P.
Defined.

Lemma find_then_pathname_witness :
  ∃ buf', @kfio_info_node_pathname (Some 1%positive) (Some nc) (replicate 256 0) 255 tree4 = Ok ((4, buf'), tree4)
    ∧ take 5 buf' = [97; 98; 46; 99; 0].
Proof.
  destruct (@find_then_pathname small_env tree4 1 nc [46; 97; 98; 46; 46; 99] (replicate 256 0) 255 (reached_wf _ tree4_reached))
    as (buf' & P).
  - vm_compute; eexists; reflexivity.
  - by vm_compute.
  - rewrite length_replicate. lia.
  - cbn. lia.
  - exists buf'. exact P.
Defined.
