(* ===== verification/KinfoWalk.v ===== *)
(** * The listing of the information tree: [kfio_info_node_walk_tree]

    The walk keeps no stack: it follows the list entries down and up, and extends
    and trims one array with the path.  It terminates and writes what a recursion
    over the tree would. *)
From S2P Require Import Prelude Kinfo KinfoSpec KinfoRemove KinfoSystem KinfoData KinfoPath.

Section walk.
Context `{EL : KinfoEnvLaws}.
Implicit Types (s : kinfo) (c d i : node_id) (r : kfio_info_node) (l vs : list node_id) (pre : cstring).

(** ** The reference *)

(** [listing s pre l vs out]: [out] is written for the nodes [l] of a directory
    with path [pre]: the full name of every leaf, in order, with a terminator;
    directories are entered unless their path is too long.  [vs] are the nodes that
    are visited. *)
Inductive listing s : cstring → list node_id → list node_id → list cstring → Prop :=
| l_nil pre : listing s pre [] [] []
| l_leaf pre c r l vs out :
    nodes s !! c = Some r → ni_type r ≠ KFIO_INFO_DIR → listing s pre l vs out →
    listing s pre (c :: l) (c :: vs) (pre :: (ni_name r ++ [0]) :: out)
| l_skip pre c r l vs out :
    nodes s !! c = Some r → ni_type r = KFIO_INFO_DIR →
    KFIO_INFO_MAX_FULLPATHLEN <= kfio_strlen pre + (kfio_strlen (ni_name r) + 1) →
    listing s pre l vs out → listing s pre (c :: l) (c :: vs) out
| l_enter pre c r l' vs' out' l vs out :
    nodes s !! c = Some r → ni_type r = KFIO_INFO_DIR →
    kfio_strlen pre + (kfio_strlen (ni_name r) + 1) < KFIO_INFO_MAX_FULLPATHLEN →
    subnodes s !! c = Some l' → listing s (pre ++ ni_name r ++ [dot]) l' vs' out' →
    listing s pre l vs out → listing s pre (c :: l) (c :: vs' ++ vs) (out' ++ out).

(** Every rank is at most this one. *)
Lemma rank_bound s (rank : node_id → nat) : ∃ M, ∀ c, is_Some (nodes s !! c) → (rank c <= M)%nat.
Proof.
  exists (max_list (rank <$> elements (dom (nodes s)))). intros c C. apply elem_of_dom in C.
  apply max_list_elem_of_le, list_elem_of_fmap. exists c. split; [done|]. by apply elem_of_elements.
Qed.

Lemma listing_exists s d l pre :
  kinfo_wf s → subnodes s !! d = Some l → ∃ vs out, listing s pre l vs out.
Proof.
  intros W. destruct (wf_rank _ W) as [rank Rk]. destruct (rank_bound s rank) as [M HM].
  remember (M - rank d)%nat as k eqn:Ek. assert (M - rank d <= k)%nat as K by lia. clear Ek.
  revert d l pre K. induction k as [k IH] using lt_wf_ind. intros d l pre K L.
  destruct (wf_list _ W d l L) as (_ & _ & Ch). clear L.
  induction l as [|c l IHl]; [by do 2 eexists; constructor|].
  destruct IHl as (vs & out & Hl); [by intros; apply Ch; right|].
  destruct (Ch c ltac:(by left)) as (r & E & P).
  destruct (decide (ni_type r = KFIO_INFO_DIR)) as [T|T]; [|by do 2 eexists; eapply l_leaf].
  destruct (decide (KFIO_INFO_MAX_FULLPATHLEN <= kfio_strlen pre + (kfio_strlen (ni_name r) + 1))) as [Lg|Lg];
    [by do 2 eexists; eapply l_skip|].
  destruct (wf_dir _ W c) as [l' L']; [by exists r|].
  pose proof (Rk c r d E P). pose proof (HM c ltac:(eauto)).
  destruct (IH (M - rank c)%nat ltac:(lia) c l' (pre ++ ni_name r ++ [dot]) ltac:(lia) L') as (vs' & out' & Hl').
  do 2 eexists. eapply l_enter; try done. lia.
Qed.

(** ** Each node is visited once *)

Lemma below_or s c1 c2 v : below s c1 v → below s c2 v → below s c1 c2 ∨ below s c2 c1.
Proof.
  intros B1 B2. induction B1 as [x|x y z St B1 IH]; [by right|].
  inversion B2 as [|? y' ? St' B2']; subst; [left; by eapply rtc_l|].
  pose proof (child_of_det _ _ _ _ St St'). subst. auto.
Qed.

(** Different nodes of one directory have nothing below them in common. *)
Lemma siblings_disjoint s c1 c2 d v :
  kinfo_wf s → child_of s c1 d → child_of s c2 d → below s c1 v → below s c2 v → c1 = c2.
Proof.
  intros W C1 C2 B1 B2. destruct (wf_rank _ W) as [rank Rk].
  assert (∀ a b, child_of s a d → child_of s b d → below s a b → a = b) as Q.
  { intros a b Ca Cb B. inversion B as [|? y ? St B']; subst; [done|exfalso].
    pose proof (child_of_det _ _ _ _ St Cb). subst. pose proof (below_rank s rank a d Rk B').
    destruct Ca as (r & E & P). pose proof (Rk a r d E P). lia. }
  destruct (below_or s c1 c2 v B1 B2); [by apply Q|symmetry; by apply Q].
Qed.

Lemma below_dom s c v : is_Some (nodes s !! c) → below s c v → is_Some (nodes s !! v).
Proof. intros C B. inversion B as [|? ? ? (r & E & _) _]; subst; [done|by exists r]. Qed.

(** The nodes in [vs] are in use, each once, and below those in [l]. *)
Definition visited_below s l vs : Prop := NoDup vs ∧ ∀ v, v ∈ vs → is_Some (nodes s !! v) ∧ ∃ c, c ∈ l ∧ below s c v.

Lemma visit_more s d c l l' vs' vs :
  kinfo_wf s → NoDup (c :: l) → (∀ a, a ∈ c :: l → child_of s a d) → (∀ a, a ∈ l' → child_of s a c) →
  visited_below s l' vs' → visited_below s l vs → visited_below s (c :: l) (c :: vs' ++ vs).
Proof.
  intros W [Nc ND]%list.NoDup_cons Ch Ch' [ND' In'] [NDv In]. destruct (wf_rank _ W) as [rank Rk].
  assert (child_of s c d) as Cc by (apply Ch; by left).
  assert (∀ v, v ∈ vs' → v ≠ c ∧ below s c v) as B'.
  { intros v Iv. destruct (In' v Iv) as (_ & a & Ia & B). specialize (Ch' a Ia). split; [|by eapply rtc_r].
    intros ->. pose proof (below_rank s rank a c Rk B). destruct Ch' as (r & E & P). pose proof (Rk a r c E P). lia. }
  assert (∀ v, v ∈ vs → ¬ below s c v) as B.
  { intros v Iv Bc. destruct (In v Iv) as (_ & a & Ia & B). apply Nc.
    by rewrite (siblings_disjoint s c a d v W Cc (Ch a ltac:(by right)) Bc B). }
  split.
  - apply list.NoDup_cons. split.
    + intros [I|I]%elem_of_app; [by destruct (B' c I)|by apply (B c I); constructor].
    + apply list.NoDup_app. split; [done|]. split; [|done]. intros v I I'. apply (B v I'). by apply B'.
  - assert (is_Some (nodes s !! c)) as Dc by (destruct Cc as (r & E & _); eauto).
    intros v [->|[I|I]%elem_of_app]%elem_of_cons.
    + split; [done|]. exists c. split; [by left|constructor].
    + split; [by apply In'|]. exists c. split; [by left|by apply B'].
    + destruct (In v I) as (Dv & a & Ia & Ba). split; [done|]. exists a. split; [by right|done].
Qed.

Lemma listing_visits s pre l vs out d :
  kinfo_wf s → listing s pre l vs out → NoDup l → (∀ c, c ∈ l → child_of s c d) → visited_below s l vs.
Proof.
  intros W Ls. revert d. induction Ls as [pre|pre c r l vs out E T Ls IH|pre c r l vs out E T Lg Ls IH
                           |pre c r l' vs' out' l vs out E T Sh L' Ls' IH' Ls IH]; intros d ND Ch.
  - split; [constructor|]. by intros v ?%not_elem_of_nil.
  - apply (visit_more s d c l [] []); try done; [by intros a ?%not_elem_of_nil|split; [constructor|by intros a ?%not_elem_of_nil]|].
    apply (IH d); [by apply list.NoDup_cons in ND as []|intros; apply Ch; by right].
  - apply (visit_more s d c l [] []); try done; [by intros a ?%not_elem_of_nil|split; [constructor|by intros a ?%not_elem_of_nil]|].
    apply (IH d); [by apply list.NoDup_cons in ND as []|intros; apply Ch; by right].
  - destruct (wf_list _ W c l' L') as (_ & ND' & Ch').
    apply (visit_more s d c l l' vs'); try done; [by apply (IH' c)|].
    apply (IH d); [by apply list.NoDup_cons in ND as []|intros; apply Ch; by right].
Qed.

Lemma visited_size s l vs : visited_below s l vs → (length vs <= size (nodes s))%nat.
Proof.
  intros [ND In]. rewrite <-size_dom. rewrite <-(size_list_to_set (C := gset node_id) vs ND).
  apply subseteq_size. intros v I%elem_of_list_to_set. apply elem_of_dom. by apply In.
Qed.

(** ** The walk *)

(** The list entry of the last of [l] (the head, when there is none). *)
Definition entry_at d l : entry := match list.last l with Some c => EntryOf c | None => HeadOf d end.

Lemma after_run d c dl l : c ∉ dl → after d c (dl ++ c :: l) = match l with b :: _ => EntryOf b | [] => HeadOf d end.
Proof.
  induction dl as [|a dl IH]; intros N; cbn [app after].
  - by rewrite decide_True.
  - apply not_elem_of_cons in N as [N1 N2]. rewrite decide_False by done. by apply IH.
Qed.

Lemma next_entry_run s d dl l :
  kinfo_wf s → subnodes s !! d = Some (dl ++ l) →
  next_entry (entry_at d dl) s = Ok (match l with b :: _ => EntryOf b | [] => HeadOf d end, s).
Proof.
  intros W L. destruct (wf_list _ W d _ L) as (D & ND & Ch). unfold entry_at.
  destruct dl as [|c dl _] using rev_ind; [|rewrite list.last_snoc]; cbn [list.last next_entry].
  - erewrite stateful_bind_ok; [|by apply subnode_list_run]. done.
  - destruct (Ch c) as (r & E & P); [set_solver|]. erewrite stateful_bind_ok; [|by apply node_run]. cbv beta iota.
    rewrite P. erewrite stateful_bind_ok; [|by apply subnode_list_run]. cbv beta.
    rewrite <-(assoc_L (++)) in ND |- *. cbn [app]. rewrite after_run; [done|].
    intros I. apply list.NoDup_app in ND as (_ & Dj & _). apply (Dj c I). by left.
Qed.

(** The array holds the path, with room for its terminator. *)
Definition path_in (path : list Z) (plen : Z) pre : Prop :=
  Z.of_nat (length path) = KFIO_INFO_MAX_FULLPATHLEN ∧ plen = kfio_strlen pre ∧ plen < KFIO_INFO_MAX_FULLPATHLEN
  ∧ take (length pre) path = pre.

(** Writing behind the path leaves it. *)
Lemma path_in_put path plen pre data :
  path_in path plen pre → plen + Z.of_nat (length data) <= KFIO_INFO_MAX_FULLPATHLEN →
  ∃ path', put_bytes path plen data = Ok path' ∧ Z.of_nat (length path') = KFIO_INFO_MAX_FULLPATHLEN
    ∧ take (length pre + length data) path' = pre ++ data.
Proof.
  intros (Lp & Pl & Sh & T) F. unfold kfio_strlen in Pl. eexists. split; [apply put_bytes_ok; lia|]. split; [by rewrite length_put by lia|].
  pose proof (take_put path plen data ltac:(lia) ltac:(lia)) as Q. rewrite Pl, Nat2Z.id, T in Q. by rewrite Pl, Nat2Z.id, T.
Qed.

Lemma path_in_same path plen pre path' data :
  path_in path plen pre → Z.of_nat (length path') = KFIO_INFO_MAX_FULLPATHLEN →
  take (length pre + length data) path' = pre ++ data → path_in path' plen pre.
Proof.
  intros (Lp & Pl & Sh & T) L' T'. split_and!; try done. apply (f_equal (take (length pre))) in T'.
  rewrite take_take, Nat.min_l in T' by lia. by rewrite T', take_app_length.
Qed.

(** The three writes when a directory is entered. *)
Lemma enter_run path plen pre nm :
  path_in path plen pre → kfio_strlen pre + (kfio_strlen nm + 1) < KFIO_INFO_MAX_FULLPATHLEN →
  let plen' := plen + (kfio_strlen nm + 1) in
  ∃ p1 p2 p3, put_bytes path plen (nm ++ [0]) = Ok p1 ∧ put_bytes p1 (plen' - 1) [dot] = Ok p2
    ∧ put_bytes p2 plen' [0] = Ok p3 ∧ path_in p3 plen' (pre ++ nm ++ [dot]).
Proof.
  intros P Sh plen'. pose proof P as (Lp & Pl & _ & _). unfold kfio_strlen in *.
  destruct (path_in_put path plen pre (nm ++ [0]) P) as (p1 & E1 & L1 & T1); [rewrite length_app; cbn; lia|].
  assert (path_in p1 (plen' - 1) (pre ++ nm)) as P1.
  { split_and!; [done|unfold kfio_strlen; rewrite length_app; lia|lia|]. apply (f_equal (take (length (pre ++ nm)))) in T1.
    rewrite take_take, Nat.min_l in T1 by (rewrite !length_app; cbn; lia). rewrite T1, (assoc_L (++)). by rewrite take_app_length. }
  destruct (path_in_put p1 _ _ [dot] P1) as (p2 & E2 & L2 & T2); [cbn; lia|].
  assert (path_in p2 plen' (pre ++ nm ++ [dot])) as P2.
  { split_and!; [done|unfold kfio_strlen; rewrite !length_app; cbn; lia|lia|].
    rewrite <-(assoc_L (++)) in T2. rewrite <-T2 at 2. f_equal. rewrite !length_app. cbn. lia. }
  destruct (path_in_put p2 _ _ [0] P2) as (p3 & E3 & L3 & T3); [cbn; lia|].
  exists p1, p2, p3. split_and!; try done; by eapply path_in_same.
Qed.

Lemma write_all_app dbh xs ys : write_all dbh (xs ++ ys) = (dbh ← write_all dbh xs; write_all dbh ys).
Proof. revert dbh. induction xs as [|x xs IH]; intros dbh; [done|]. cbn. destruct (kfio_info_write dbh x) as [[? ?]|]; [apply IH|done]. Qed.

(** [n] rounds of the walk take it from one place to another. *)
Definition rounds s (start : node_id) (n : nat) (d : node_id) (e : entry) path (dbh : kfio_info_data)
    (e' : entry) path' (dbh' : kfio_info_data) (plen : Z) : Prop :=
  ∀ fuel, walk_loop (n + fuel) start (Some d) e path plen dbh s = walk_loop fuel start (Some d) e' path' plen dbh' s.

Lemma rounds_trans s start n1 n2 d e path dbh e1 path1 dbh1 e2 path2 dbh2 plen :
  rounds s start n1 d e path dbh e1 path1 dbh1 plen → rounds s start n2 d e1 path1 dbh1 e2 path2 dbh2 plen →
  rounds s start (n1 + n2) d e path dbh e2 path2 dbh2 plen.
Proof. intros R1 R2 fuel. rewrite <-Nat.add_assoc, R1. apply R2. Qed.

Lemma entry_at_snoc d dl c : entry_at d (dl ++ [c]) = EntryOf c.
Proof. unfold entry_at. by rewrite list.last_snoc. Qed.

(** One round at a leaf. *)
Lemma leaf_round s start d dl c l r path plen pre dbh dbh' :
  kinfo_wf s → subnodes s !! d = Some (dl ++ c :: l) → nodes s !! c = Some r → ni_type r ≠ KFIO_INFO_DIR →
  path_in path plen pre → write_all dbh [pre; ni_name r ++ [0]] = Ok dbh' →
  rounds s start 1 d (entry_at d dl) path dbh (EntryOf c) path dbh' plen.
Proof.
  intros W L E T (Lp & Pl & Sh & Tp) Wr fuel. cbn [Nat.add walk_loop].
  erewrite stateful_bind_ok; [|by apply (next_entry_run s d dl (c :: l))]. cbv beta iota.
  erewrite stateful_bind_ok; [|by apply node_run]. cbv beta iota. rewrite (proj2 (Z.eqb_neq _ _) T).
  assert (take (Z.to_nat plen) path = pre) as -> by (rewrite Pl; unfold kfio_strlen; by rewrite Nat2Z.id).
  erewrite stateful_bind_ok; [done|]. cbn [write_all] in Wr. unfold emit, lift.
  destruct (kfio_info_write dbh pre) as [[? d1]|]; [|done]. cbn in Wr |- *.
  destruct (kfio_info_write d1 (ni_name r ++ [0])) as [[? d2]|]; [|done]. cbn in Wr |- *. by injection Wr as ->.
Qed.

(** One round at a directory that is not entered. *)
Lemma skip_round s start d dl c l r path plen pre dbh :
  kinfo_wf s → subnodes s !! d = Some (dl ++ c :: l) → nodes s !! c = Some r → ni_type r = KFIO_INFO_DIR →
  path_in path plen pre → KFIO_INFO_MAX_FULLPATHLEN <= kfio_strlen pre + (kfio_strlen (ni_name r) + 1) →
  rounds s start 1 d (entry_at d dl) path dbh (EntryOf c) path dbh plen.
Proof.
  intros W L E T (_ & -> & _) Lg fuel. cbn [Nat.add walk_loop].
  erewrite stateful_bind_ok; [|by apply (next_entry_run s d dl (c :: l))]. cbv beta iota.
  erewrite stateful_bind_ok; [|by apply node_run]. cbv beta iota. rewrite T, Z.eqb_refl, Z.geb_leb.
  by rewrite (proj2 (Z.leb_le _ _) Lg).
Qed.

(** Entering a directory. *)
Lemma enter_round s start d dl c l r path plen pre dbh :
  kinfo_wf s → subnodes s !! d = Some (dl ++ c :: l) → nodes s !! c = Some r → ni_type r = KFIO_INFO_DIR →
  path_in path plen pre → kfio_strlen pre + (kfio_strlen (ni_name r) + 1) < KFIO_INFO_MAX_FULLPATHLEN →
  let plen' := plen + (kfio_strlen (ni_name r) + 1) in
  ∃ path', path_in path' plen' (pre ++ ni_name r ++ [dot]) ∧ ∀ fuel,
    walk_loop (S fuel) start (Some d) (entry_at d dl) path plen dbh s
    = walk_loop fuel start (Some c) (HeadOf c) path' plen' dbh s.
Proof.
  intros W L E T P Sh plen'. destruct (enter_run path plen pre (ni_name r) P Sh) as (p1 & p2 & p3 & E1 & E2 & E3 & P3).
  exists p3. split; [done|]. intros fuel. cbn [walk_loop]. pose proof P as (_ & Pl & _ & _).
  erewrite stateful_bind_ok; [|by apply (next_entry_run s d dl (c :: l))]. cbv beta iota.
  erewrite stateful_bind_ok; [|by apply node_run]. cbv beta iota. rewrite T, Z.eqb_refl, Z.geb_leb.
  rewrite (proj2 (Z.leb_gt _ _)) by lia. rewrite E1. erewrite stateful_bind_ok; [|done]. cbv beta.
  rewrite E2. erewrite stateful_bind_ok; [|done]. cbv beta. rewrite E3. erewrite stateful_bind_ok; done.
Qed.

(** Leaving a directory at the end of its list. *)
Lemma leave_round s start d c l r path plen pre dbh :
  kinfo_wf s → subnodes s !! c = Some l → c ≠ start → nodes s !! c = Some r → ni_parent r = Some d →
  plen = kfio_strlen pre →
  let plen' := plen + (kfio_strlen (ni_name r) + 1) in
  path_in path plen' (pre ++ ni_name r ++ [dot]) →
  ∃ path', path_in path' plen pre ∧ ∀ fuel,
    walk_loop (S fuel) start (Some c) (entry_at c l) path plen' dbh s
    = walk_loop fuel start (Some d) (EntryOf c) path' plen dbh s.
Proof.
  intros W L Ns E Pc Pl plen' P. pose proof P as (Lp & Pl' & Sh & T). unfold kfio_strlen in *.
  assert (path_in path plen pre) as P0.
  { split_and!; [done|done|lia|]. apply (f_equal (take (length pre))) in T.
    rewrite take_take, Nat.min_l in T by (rewrite !length_app; lia). by rewrite T, take_app_length. }
  destruct (path_in_put path plen pre [0] P0) as (p1 & E1 & L1 & T1); [cbn; lia|].
  exists p1. split; [by eapply path_in_same|]. intros fuel. cbn [walk_loop].
  erewrite stateful_bind_ok; [|apply (next_entry_run s c l []); [done|by rewrite app_nil_r]]. cbv beta iota.
  rewrite bool_decide_eq_true_2 by done. cbn [negb]. rewrite bool_decide_eq_false_2 by done.
  erewrite stateful_bind_ok; [|by apply node_run]. cbv beta iota. unfold kfio_strlen.
  replace (plen' - (Z.of_nat (length (ni_name r)) + 1)) with plen by lia.
  rewrite (proj2 (Z.ltb_ge plen 0)) by lia. rewrite E1. erewrite stateful_bind_ok; [|done]. by rewrite Pc.
Qed.

(** The walk of the rest of a directory's list. *)
Lemma walk_rest s start pre l vs out :
  kinfo_wf s → listing s pre l vs out → ∀ d dl path plen dbh dbh',
  subnodes s !! d = Some (dl ++ l) → below s start d → path_in path plen pre → write_all dbh out = Ok dbh' →
  ∃ n path', (n <= 2 * length vs)%nat ∧ path_in path' plen pre
    ∧ rounds s start n d (entry_at d dl) path dbh (entry_at d (dl ++ l)) path' dbh' plen.
Proof.
  intros W. induction 1 as [pre|pre c r l vs out E T Ls IH|pre c r l vs out E T Lg Ls IH
                           |pre c r l' vs' out' l vs out E T Sh L' Ls' IH' Ls IH]; intros d dl path plen dbh dbh' L B P Wr.
  - injection Wr as <-. exists 0%nat, path. rewrite app_nil_r. split; [cbn; lia|]. split; [done|]. by intros fuel.
  - change (pre :: (ni_name r ++ [0]) :: out) with ([pre; ni_name r ++ [0]] ++ out) in Wr.
    rewrite write_all_app in Wr. apply outcome_bind_ok in Wr as (d1 & W1 & W2).
    destruct (IH d (dl ++ [c]) path plen d1 dbh') as (n & path' & Bn & P' & R); try done; [by rewrite <-(assoc_L (++))|].
    exists (1 + n)%nat, path'. rewrite <-(assoc_L (++)), entry_at_snoc in R. split; [cbn; lia|]. split; [done|].
    eapply rounds_trans; [by eapply leaf_round|exact R].
  - destruct (IH d (dl ++ [c]) path plen dbh dbh') as (n & path' & Bn & P' & R); try done; [by rewrite <-(assoc_L (++))|].
    exists (1 + n)%nat, path'. rewrite <-(assoc_L (++)), entry_at_snoc in R. split; [cbn; lia|]. split; [done|].
    eapply rounds_trans; [by eapply skip_round|exact R].
  - rewrite write_all_app in Wr. apply outcome_bind_ok in Wr as (d1 & W1 & W2).
    destruct (wf_list _ W d _ L) as (_ & _ & Ch). destruct (Ch c) as (r' & E' & Pc); [set_solver|]. simplify_eq.
    assert (c ≠ start) as Ns.
    { intros ->. destruct (wf_rank _ W) as [rank Rk]. pose proof (below_rank s rank start d Rk B). pose proof (Rk start r d E Pc). lia. }
    pose proof P as (_ & Pl & _ & _).
    destruct (enter_round s start d dl c l r path plen pre dbh) as (p1 & P1 & R1); try done.
    destruct (IH' c [] p1 (plen + (kfio_strlen (ni_name r) + 1)) dbh d1 L') as (n1 & p2 & B1 & P2 & R2); [|exact P1|exact W1|].
    { eapply rtc_l; [by exists r|exact B]. }
    destruct (leave_round s start d c l' r p2 plen pre d1) as (p3 & P3 & R3); try done.
    destruct (IH d (dl ++ [c]) p3 plen d1 dbh') as (n2 & p4 & B2 & P4 & R4); try done; [by rewrite <-(assoc_L (++))|].
    rewrite <-(assoc_L (++)), entry_at_snoc in R4.
    exists (S (n1 + S n2)), p4. split; [cbn [length]; rewrite length_app; lia|]. split; [done|]. intros fuel.
    cbn [Nat.add]. rewrite R1, <-Nat.add_assoc. change (HeadOf c) with (entry_at c []). etransitivity; [apply R2|]. cbn [app Nat.add].
    rewrite R3. apply R4.
Qed.

Lemma path_in_empty path : Z.of_nat (length path) = KFIO_INFO_MAX_FULLPATHLEN → path_in path 0 [].
Proof. intros L. by split_and!. Qed.

(** The path of the start node, with its separator. *)
Lemma separator_run path ps :
  Z.of_nat (length path) = KFIO_INFO_MAX_FULLPATHLEN → Z.of_nat (length (dotted ps)) <= KFIO_INFO_MAX_FULLPATHLEN - 1 →
  Forall (λ nm, nm ≠ []) ps → take (length (path_string ps) + 1) path = path_string ps ++ [0] →
  ∃ path', append_separator path (Z.of_nat (length (path_string ps))) = Ok (path', kfio_strlen (dotted ps))
    ∧ path_in path' (kfio_strlen (dotted ps)) (dotted ps).
Proof.
  intros Lp F Ne T. unfold append_separator. destruct ps as [|nm ps]; [exists path; split; [done|by apply path_in_empty]|].
  assert (dotted (nm :: ps) = path_string (nm :: ps) ++ [dot]) as D by by apply dotted_string.
  set (p := path_string (nm :: ps)) in *. apply list.Forall_cons in Ne as [Nn _].
  assert (0 < Z.of_nat (length p)) as Pp.
  { assert (2 <= length (dotted (nm :: ps)))%nat as Q.
    { change (dotted (nm :: ps)) with ((nm ++ [dot]) ++ dotted ps). rewrite !length_app. destruct nm; [done|cbn; lia]. }
    rewrite D, length_app in Q. cbn [length] in Q. lia. }
  rewrite D in F |- *. rewrite length_app in F. cbn [length] in F. rewrite Z.gtb_ltb, (proj2 (Z.ltb_lt _ _) Pp).
  assert (path_in path (Z.of_nat (length p)) p) as P.
  { split_and!; try done; [lia|]. apply (f_equal (take (length p))) in T. rewrite take_take, Nat.min_l in T by lia.
    by rewrite T, take_app_length. }
  destruct (path_in_put path _ _ [dot] P) as (p1 & E1 & L1 & T1); [cbn [length]; lia|].
  assert (kfio_strlen (p ++ [dot]) = Z.of_nat (length p) + 1) as Lk by (unfold kfio_strlen; rewrite length_app; cbn [length]; lia).
  assert (path_in p1 (Z.of_nat (length p) + 1) (p ++ [dot])) as P1.
  { split_and!; [done|by rewrite Lk|lia|]. rewrite length_app. exact T1. }
  destruct (path_in_put p1 _ _ [0] P1) as (p2 & E2 & L2 & T2); [cbn [length]; lia|].
  exists p2. rewrite E1. cbn [mbind outcome_bind]. rewrite E2, Lk. split; [done|]. by eapply path_in_same.
Qed.

(** C12: The walk from a directory terminates and writes to the handle exactly
    what the recursion over the tree would: the full name of every leaf below the
    directory, in order, each with a terminator and each node visited once, without
    the contents of the directories whose path would not fit in 256 bytes.  When the
    directory's own path does not fit, the result is [-EINVAL]. *)
Theorem walk_tree_lists_leaves s top start r ps stack :
  kinfo_wf s → nodes s !! start = Some r → ni_type r = KFIO_INFO_DIR →
  path_to s top (Some start) ps → Forall (λ nm, nm ≠ []) ps →
  Z.of_nat (length stack) = KFIO_INFO_MAX_FULLPATHLEN →
  if decide (Z.of_nat (length (dotted ps)) <= KFIO_INFO_MAX_FULLPATHLEN - 1)
  then ∃ l, subnodes s !! start = Some l ∧ (∃ vs out, listing s (dotted ps) l vs out)
    ∧ ∀ vs out dbh, listing s (dotted ps) l vs out → data_ok dbh → db_tot_size dbh + Z.of_nat (length (concat out)) < 2 ^ 62 →
      NoDup vs ∧ ∃ dbh', kfio_info_node_walk_tree top (Some start) stack dbh s = Ok ((0, dbh'), s)
        ∧ valid_bytes dbh' = take (Z.to_nat (db_max_size dbh)) (valid_bytes dbh ++ concat out)
        ∧ db_tot_size dbh' = db_tot_size dbh + Z.of_nat (length (concat out))
  else ∀ dbh, kfio_info_node_walk_tree top (Some start) stack dbh s = Ok ((- EINVAL, dbh), s).
Proof.
  intros W E T P Ne Ls.
  destruct (node_pathname_run s top (Some start) ps stack (KFIO_INFO_MAX_FULLPATHLEN - 1) W P) as (path & Lb & R);
    [rewrite Ls; unfold KFIO_INFO_MAX_FULLPATHLEN; lia|].
  assert (∀ dbh, kfio_info_node_walk_tree top (Some start) stack dbh s
    = ('(retval, path) ← kfio_info_node_pathname top (Some start) stack (KFIO_INFO_MAX_FULLPATHLEN - 1);
       if retval <? 0 then mret (retval, dbh)
       else '(path, plen) ← lift (append_separator path retval); walk_from start path plen dbh) s) as U.
  { intros dbh. unfold kfio_info_node_walk_tree. erewrite stateful_bind_ok; [|by apply node_run]. cbv beta iota. by rewrite T. }
  destruct R as [(F & Ep & Tp)|(F & Ep)].
  - rewrite decide_True by done. destruct (wf_dir _ W start) as [l L]; [by exists r|].
    exists l. split; [done|]. split; [by apply (listing_exists s start)|]. intros vs out dbh Li K Sz.
    destruct (wf_list _ W start l L) as (_ & ND & Ch).
    pose proof (listing_visits s _ l vs out start W Li ND Ch) as V. split; [apply V|]. destruct (separator_run path ps) as (p1 & Es & P1); [by rewrite Lb|done|done|done|].
    destruct (write_all_run out dbh K Sz) as (dbh' & Ew & _ & _ & _ & Tt & Vb).
    destruct (walk_rest s start (dotted ps) l vs out W Li start [] p1 (kfio_strlen (dotted ps)) dbh dbh' L) as (n & p2 & Bn & P2 & Rd);
      [constructor|exact P1|exact Ew|].
    exists dbh'. split; [|done]. rewrite U. erewrite stateful_bind_ok; [|exact Ep]. cbv beta iota.
    rewrite (proj2 (Z.ltb_ge _ 0)) by lia. rewrite Es. erewrite stateful_bind_ok; [|done]. cbv beta iota. unfold walk_from.
    pose proof (visited_size s l vs V). replace (2 * size (nodes s) + 1)%nat with (n + S (2 * size (nodes s) - n))%nat by lia.
    etransitivity; [apply Rd|]. cbn [walk_loop app].
    erewrite stateful_bind_ok; [|apply (next_entry_run s start l []); [done|by rewrite app_nil_r]]. cbv beta iota.
    by rewrite !bool_decide_eq_true_2.
  - rewrite decide_False by lia. intros dbh. rewrite U. erewrite stateful_bind_ok; [|exact Ep]. done.
Qed.
End walk.

(** The leaves of [tree4] below its root: "ab.c.d" and "ab.d". *)
Lemma tree4_listing :
  listing tree4 [] [ab] [ab; nc; 9%positive; 7%positive]
    [[97; 98; 46; 99; 46]; [100; 0]; [97; 98; 46]; [100; 0]].
Proof.
  eapply (l_enter tree4 [] ab _ [nc; 7%positive] [nc; 9%positive; 7%positive]
            [[97; 98; 46; 99; 46]; [100; 0]; [97; 98; 46]; [100; 0]] [] [] []); try (vm_compute; reflexivity); [|constructor].
  eapply (l_enter tree4 _ nc _ [9%positive] [9%positive] [[97; 98; 46; 99; 46]; [100; 0]] [7%positive] [7%positive]
            [[97; 98; 46]; [100; 0]]); try (vm_compute; reflexivity).
  - eapply (l_leaf tree4 _ 9 (mk_node _ _ _ _ _ _ _ [100]) [] [] []); [vm_compute; reflexivity|done|constructor].
  - eapply (l_leaf tree4 _ 7 (mk_node _ _ _ _ _ _ _ [100]) [] [] []); [vm_compute; reflexivity|done|constructor].
Qed.

Lemma walk_tree_lists_leaves_witness :
  ∃ dbh', @kfio_info_node_walk_tree (Some 1%positive) (Some 1%positive) (replicate 256 0)
      (kfio_info_reset_data_handle None (replicate 16 0) 16) tree4 = Ok ((0, dbh'), tree4)
    ∧ valid_bytes dbh' = [97; 98; 46; 99; 46; 100; 0; 97; 98; 46; 100; 0].
Proof.
  destruct (@walk_tree_lists_leaves small_env small_env_laws tree4 (Some 1%positive) 1
                (mk_node None 0 KFIO_INFO_DIR 0 S_IRUGO None None UFIO_KINFO_ROOT) [] (replicate 256 0)
                (reached_wf _ tree4_reached)) as (l & L & _ & R); [by vm_compute|done|constructor|constructor|done|].
  vm_compute in L. injection L as <-.
  destruct (R _ _ (kfio_info_reset_data_handle None (replicate 16 0) 16) tree4_listing) as (_ & dbh' & E & V & _).
  - split; cbn; lia.
  - cbn. lia.
  - exists dbh'. split; [exact E|exact V].
Defined.
