(* ===== verification/KinfoProc.v ===== *)
(** * Values in the proc file system: the type files of kinfo.c

    Reading a value node prints the value; writing parses it and stores it.  The
    kernel's number parser and the outcome of copies to and from the user are
    parameters. *)
From S2P Require Import Prelude Kinfo KinfoData.

(** What the handlers get from the kernel.  [simple_strto*] return the value and
    the number of characters taken; [None]: the array ended before the number
    did, so that they read beyond it. *)
Class ProcEnv := {
  simple_strtoul : list Z → option (Z * Z);
  simple_strtoull : list Z → option (Z * Z);
  simple_strtol : list Z → option (Z * Z);
  uncopied : Z → Z                     (* bytes of so many that are not copied *)
}.

(** ** Decimal numbers *)

Definition is_digit (ch : Z) : bool := (48 <=? ch) && (ch <=? 57).
Definition digits_value (ds : list Z) : Z := foldl (λ a ch, a * 10 + (ch - 48)) 0 ds.

(** The digits of [v], which has at most [fuel] of them. *)
Fixpoint decimal (fuel : nat) (v : Z) : list Z :=
  match fuel with
  | O => []
  | S fuel => if v <? 10 then [48 + v] else decimal fuel (v / 10) ++ [48 + v `mod` 10]
  end.

(** "%lu\n" or "%llu\n", and "%d\n", of a 64-bit number: 20 digits are enough. *)
Definition format_unsigned (v : Z) : cstring := decimal 20 v ++ [10].
Definition format_signed (v : Z) : cstring :=
  (if v <? 0 then 45 :: decimal 20 (- v) else decimal 20 v) ++ [10].

(** Numbers in memory, the least significant byte first. *)
Definition le_value (bs : list Z) : Z := foldr (λ b a, b + 256 * a) 0 bs.
Fixpoint le_bytes (n : nat) (v : Z) : list Z :=
  match n with O => [] | S n => v `mod` 256 :: le_bytes n (v / 256) end.

(** ** State *)

Record proc_state := mk_proc {
  p_cell : list Z;          (* the memory at the node's data pointer *)
  p_user : list Z;          (* what was copied to the user's buffer *)
  p_pos : Z;                (* the file position *)
  p_live : Z                (* vmalloc'ed buffers that were not freed *)
}.

Abbreviation P := (stateful proc_state).

Definition set_cell (c : list Z) (s : proc_state) : proc_state := mk_proc c (p_user s) (p_pos s) (p_live s).
Definition set_copied (u : list Z) (s : proc_state) : proc_state := mk_proc (p_cell s) (p_user s ++ u) (p_pos s) (p_live s).
Definition set_pos (p : Z) (s : proc_state) : proc_state := mk_proc (p_cell s) (p_user s) p (p_live s).
Definition add_live (n : Z) (s : proc_state) : proc_state := mk_proc (p_cell s) (p_user s) (p_pos s) (p_live s + n).

(** [n] bytes at [pos] of an array. *)
Definition slice (buf : list Z) (pos n : Z) : outcome (list Z) :=
  if (0 <=? pos) && (0 <=? n) && (pos + n <=? Z.of_nat (length buf))
  then Ok (take (Z.to_nat n) (drop (Z.to_nat pos) buf)) else Fault OutOfBounds.

Section proc.
Context `{ProcEnv} (handlers : Z → type_handler).

Definition kfio_strtoul (p : list Z) : option (Z * Z) := simple_strtoul p.
Definition kfio_strtoull (p : list Z) : option (Z * Z) := simple_strtoull p.
Definition kfio_strtol (p : list Z) : option (Z * Z) := simple_strtol p.

(** Returns the number of bytes that were not copied; the length is an
    [unsigned]. *)
Definition kfio_copy_to_user (from : list Z) (pos len : Z) : P Z :=
  bs ← lift (slice from pos (u32 len));
  let result := uncopied (u32 len) in
  modify (set_copied (take (Z.to_nat (u32 len - result)) bs));;
  mret (s32 result).

(** Bytes that are not copied are zeroed. *)
Definition kfio_copy_from_user (to from : list Z) (len : Z) : P (Z * list Z) :=
  bs ← lift (slice from 0 (u32 len));
  let result := uncopied (u32 len) in
  to ← lift (put_bytes to 0 (take (Z.to_nat (u32 len - result)) bs ++ replicate (Z.to_nat result) 0));
  mret (s32 result, to).

(** [len > count] compares as [unsigned long]. *)
Definition fio_proc_read_buffer (local_buf : list Z) (len count : Z) : P Z :=
  s ← get;
  let len := s64 (len - p_pos s) in
  let len := if u64 len >? count then s64 count else len in
  if len >? 0 then
    result ← kfio_copy_to_user local_buf (p_pos s) len;
    if result =? 0 then modify (set_pos (s64 (p_pos s + len)));; mret len
    else mret result
  else mret len.

(** The handler is called on the node's memory. *)
Definition generic_type_handler (n : kfio_info_node) (cmd : Z) (old : option Z) (new : option (list Z)) :
    P (Z * option (list Z)) := λ s,
  match kfio_info_generic_type_handler handlers n cmd old new (p_cell s) with
  | Ok (rc, v, c) => Ok ((rc, v), set_cell c s)
  | Fault e => Fault e
  end.

Definition KFIO_INFO_READ : Z := 256.
Definition KFIO_INFO_WRITE : Z := 128.

Definition LOCAL_BUF : Z := 32.

(** Reading a value into [val], a variable of [ni_size] bytes that holds [junk]
    before, and printing it.  The text is at most 21 characters and is written to
    the start of [local_buf]. *)
Definition read_number (n : kfio_info_node) (size : Z) (junk stack : list Z) (format : list Z → cstring) (count : Z) : P Z :=
  '(rc, v) ← generic_type_handler n KFIO_INFO_READ (Some size) None;
  if rc =? 0 then
    let text := format (default junk v) in
    local_buf ← lift (put_bytes stack 0 (vsnprintf_bytes LOCAL_BUF text));
    rc ← fio_proc_read_buffer local_buf (Z.of_nat (length text)) count;
    mret (s32 rc)
  else mret rc.

(** [stack] is what [local_buf] holds on entry, [vm] the memory [kfio_vmalloc]
    returns. *)
Definition read_string (n : kfio_info_node) (size : Z) (stack : list Z) (vm : Z → option (list Z)) (count : Z) : P Z :=
  data ← (if u64 size >? LOCAL_BUF then
            match vm (u64 size) with None => mret None | Some m => modify (add_live 1);; mret (Some m) end
          else mret (Some stack));
  match data with
  | None => mret (- ENOMEM)
  | Some data =>
      '(rc, v) ← generic_type_handler n KFIO_INFO_READ (Some size) None;
      rc ← (if rc =? 0 then
              data ← lift (put_bytes data 0 (default [] v));
              rc ← fio_proc_read_buffer data size count;
              mret (s32 rc)
            else mret rc);
      (if u64 size >? LOCAL_BUF then modify (add_live (-1)) else mret tt);;
      mret rc
  end.

Definition kfio_info_os_type_read (n : kfio_info_node) (stack junk : list Z) (vm : Z → option (list Z)) (count : Z) : P Z :=
  if ni_type n =? KFIO_INFO_STRING then read_string n (ni_size n) stack vm count
  else if ni_type n =? KFIO_INFO_UINT32 then
    read_number n (ni_size n) junk stack (λ v, format_unsigned (u32 (le_value v))) count
  else if ni_type n =? KFIO_INFO_UINT64 then
    read_number n (ni_size n) junk stack (λ v, format_unsigned (u64 (le_value v))) count
  else if ni_type n =? KFIO_INFO_INT32 then
    read_number n (ni_size n) junk stack (λ v, format_signed (s32 (le_value v))) count
  else mret (- EINVAL).

(** Parsing [local_buf] and storing the value: the parser stops at the first
    character that is no digit, which has to be at most one before the end. *)
Definition write_number (n : kfio_info_node) (local_buf : list Z) (strto : list Z → option (Z * Z)) (width : nat)
    (count : Z) : P Z :=
  match strto local_buf with
  | None => fail OutOfBounds
  | Some (val, endp) =>
      if u64 endp <? u64 (count - 1) then mret (- EINVAL)
      else
        '(rc, _) ← generic_type_handler n KFIO_INFO_WRITE None (Some (le_bytes width val));
        if negb (rc =? 0) then mret (- EIO) else mret count
  end.

Definition write_value (n : kfio_info_node) (data : list Z) (count : Z) : P Z :=
  if ni_type n =? KFIO_INFO_UINT32 then write_number n data kfio_strtoul 4 count
  else if ni_type n =? KFIO_INFO_UINT64 then write_number n data kfio_strtoull 8 count
  else if ni_type n =? KFIO_INFO_INT32 then write_number n data kfio_strtol 4 count
  else mret count.

(** [value.data] with room for a string is the whole buffer of [value.size]
    bytes, whatever part of it was copied in. *)
Definition write_string (n : kfio_info_node) (data : list Z) (size count : Z) : P Z :=
  bs ← lift (slice data 0 size);
  '(rc, _) ← generic_type_handler n KFIO_INFO_WRITE None (Some bs);
  (if u64 size >? LOCAL_BUF then modify (add_live (-1)) else mret tt);;
  if negb (rc =? 0) then mret (- EIO) else mret count.

Definition kfio_info_os_type_write (n : kfio_info_node) (stack : list Z) (vm : Z → option (list Z))
    (buf : list Z) (count : Z) : P Z :=
  let size := ni_size n in
  let str := ni_type n =? KFIO_INFO_STRING in
  data ← (if str && (u64 size >? LOCAL_BUF) then
            match vm (u64 size) with None => mret None | Some m => modify (add_live 1);; mret (Some m) end
          else mret (Some stack));
  match data with
  | None => mret (- ENOMEM)
  | Some data =>
      if count >? (if str then u64 size else LOCAL_BUF) then mret (- EINVAL)
      else
        '(rc, data) ← kfio_copy_from_user data buf count;
        if negb (rc =? 0) then
          (if str && (u64 size >? LOCAL_BUF) then modify (add_live (-1)) else mret tt);;
          mret rc
        else
          s ← get;
          modify (set_pos (s64 (p_pos s + count)));;
          if str then write_string n data size count else write_value n data count
  end.

End proc.

(** The documented behaviour of the parsers and of the copies: a number ends at
    the first character that is no digit (the end of the array counts only when
    there is none), values that fit are exact, and no more bytes fail to be copied
    than were asked for. *)
Definition number (ds : list Z) : Prop := ds ≠ [] ∧ Forall (λ ch, is_digit ch = true) ds.
Definition no_digit_next (rest : list Z) : Prop := ∃ ch rest', rest = ch :: rest' ∧ is_digit ch = false.

Class ProcEnvLaws `{ProcEnv} : Prop := {
  strtoul_number ds rest : number ds → no_digit_next rest → digits_value ds < 2 ^ 64 →
    simple_strtoul (ds ++ rest) = Some (digits_value ds, Z.of_nat (length ds));
  strtoull_number ds rest : number ds → no_digit_next rest → digits_value ds < 2 ^ 64 →
    simple_strtoull (ds ++ rest) = Some (digits_value ds, Z.of_nat (length ds));
  strtol_number ds rest : number ds → no_digit_next rest → digits_value ds < 2 ^ 63 →
    simple_strtol (ds ++ rest) = Some (digits_value ds, Z.of_nat (length ds));
  strtol_negative ds rest : number ds → no_digit_next rest → digits_value ds < 2 ^ 63 →
    simple_strtol (45 :: ds ++ rest) = Some (- digits_value ds, 1 + Z.of_nat (length ds));
  strtoul_unterminated ds : number ds → simple_strtoul ds = None;
  uncopied_range len : 0 <= len → 0 <= uncopied len <= len
}.
