(* ===== verification/KinfoProcSpec.v ===== *)
(** * Values in the proc file system: what reads and writes do

    Text is read in pieces of any size; a number that was written is read back;
    and the three ways in which the handlers touch memory they should not. *)
From S2P Require Import Prelude Kinfo KinfoData KinfoProc.

(** ** Decimal numbers *)

Lemma digits_value_snoc ds ch : digits_value (ds ++ [ch]) = digits_value ds * 10 + (ch - 48).
Proof. unfold digits_value. by rewrite foldl_app. Qed.

Lemma decimal_spec fuel v :
  0 <= v < 10 ^ Z.of_nat fuel → (0 < fuel)%nat →
  number (decimal fuel v) ∧ digits_value (decimal fuel v) = v ∧ (length (decimal fuel v) <= fuel)%nat.
Proof.
  revert v. induction fuel as [|fuel IH]; intros v V F; [lia|]. cbn [decimal].
  destruct (Z.ltb_spec v 10) as [S|S].
  - split; [split; [done|]|split; [cbn; lia|cbn; lia]]. constructor; [|constructor]. unfold is_digit. lia.
  - assert (0 < fuel)%nat as F'.
    { destruct fuel; [|lia]. change (10 ^ Z.of_nat 1) with 10 in V. lia. }
    rewrite Nat2Z.inj_succ, Z.pow_succ_r in V by lia.
    destruct (IH (v / 10)) as ((N & D) & Q & L); [Z.to_euclidean_division_equations; lia|done|].
    assert (0 <= v `mod` 10 < 10) by (apply Z.mod_pos_bound; lia).
    split; [split; [by destruct (decimal fuel (v / 10))|]|split].
    + apply list.Forall_app. split; [done|]. constructor; [|constructor]. unfold is_digit. lia.
    + rewrite digits_value_snoc, Q. pose proof (Z.div_mod v 10). lia.
    + rewrite length_app. cbn [length]. lia.
Qed.

Lemma le_value_bytes n v : le_value (le_bytes n v) = v `mod` 256 ^ Z.of_nat n.
Proof.
  revert v. induction n as [|n IH]; intros v; cbn [le_bytes le_value foldr].
  - by rewrite Z.mod_1_r.
  - change (foldr _ 0 _) with (le_value (le_bytes n (v / 256))). rewrite IH, Nat2Z.inj_succ, Z.pow_succ_r by lia.
    rewrite Z.rem_mul_r by (try apply Z.pow_pos_nonneg; lia). lia.
Qed.

Lemma length_le_bytes n v : length (le_bytes n v) = n.
Proof. revert v. induction n as [|n IH]; intros v; cbn; [done|]. by rewrite IH. Qed.

(** ** Reading *)

Section spec.
Context `{PL : ProcEnvLaws} (handlers : Z → type_handler).

Lemma slice_ok buf pos n :
  0 <= pos → 0 <= n → pos + n <= Z.of_nat (length buf) →
  slice buf pos n = Ok (take (Z.to_nat n) (drop (Z.to_nat pos) buf)).
Proof. intros P N L. unfold slice. by rewrite (proj2 (Z.leb_le _ _) P), (proj2 (Z.leb_le _ _) N), (proj2 (Z.leb_le _ _) L). Qed.

(** The copies to and from the user succeed. *)
Definition copies_succeed : Prop := ∀ len, uncopied len = 0.

Lemma copy_to_run local pos len s :
  copies_succeed → in_u 32 len → 0 <= pos → pos + len <= Z.of_nat (length local) →
  kfio_copy_to_user local pos len s = Ok (0, set_copied (take (Z.to_nat len) (drop (Z.to_nat pos) local)) s).
Proof.
  intros C L P B. unfold kfio_copy_to_user. rewrite (wrapu_small 32 len) by done. rewrite slice_ok by (unfold in_u in L; lia).
  erewrite stateful_bind_ok; [|done]. cbv beta. rewrite C, Z.sub_0_r. erewrite stateful_bind_ok; [|done].
  rewrite take_take, Nat.min_id. done.
Qed.

(** One read of a text of [len] bytes. *)
Definition piece (len pos count : Z) : Z := Z.min count (len - pos).

Definition after_read (local : list Z) (n : Z) s : proc_state :=
  set_pos (p_pos s + n) (set_copied (take (Z.to_nat n) (drop (Z.to_nat (p_pos s)) local)) s).

Lemma read_buffer_run local len count s :
  copies_succeed → 0 <= p_pos s <= len → len <= Z.of_nat (length local) → len < 2 ^ 32 → in_u 32 count →
  let n := piece len (p_pos s) count in
  fio_proc_read_buffer local len count s = Ok (n, after_read local n s).
Proof.
  intros C P L S K n. unfold fio_proc_read_buffer. erewrite stateful_bind_ok; [|done]. cbv beta.
  change (2 ^ 32) with 4294967296 in *. unfold in_u in K. change (2 ^ 32) with 4294967296 in K.
  rewrite (wraps_small 64 (len - p_pos s)) by (try done; unfold in_s; change (2 ^ (64 - 1)) with 9223372036854775808; lia).
  rewrite (wrapu_small 64) by (unfold in_u; change (2 ^ 64) with 18446744073709551616; lia).
  rewrite (wraps_small 64 count) by (try done; unfold in_s; change (2 ^ (64 - 1)) with 9223372036854775808; lia).
  assert ((if len - p_pos s >? count then count else len - p_pos s) = n) as ->.
  { unfold n, piece. rewrite Z.gtb_ltb. destruct (Z.ltb_spec count (len - p_pos s)); lia. }
  rewrite Z.gtb_ltb. destruct (Z.ltb_spec 0 n) as [Pn|Nn].
  - erewrite stateful_bind_ok; [|apply copy_to_run; [done| | |]; unfold n, piece, in_u; change (2 ^ 32) with 4294967296; lia].
    cbv beta. rewrite Z.eqb_refl. erewrite stateful_bind_ok; [|done]. cbv beta.
    rewrite wraps_small by (try done; unfold in_s, n, piece; cbn [p_pos set_copied]; change (2 ^ (64 - 1)) with 9223372036854775808; lia).
    done.
  - assert (n = 0) as E by (unfold n, piece in *; lia). rewrite E. unfold after_read, set_pos, set_copied. cbn.
    rewrite Z.add_0_r, app_nil_r. by destruct s.
Qed.

(** Reads one after the other, with buffers of these sizes. *)
Fixpoint reads (local : list Z) (len : Z) (counts : list Z) : P unit :=
  match counts with
  | [] => mret tt
  | count :: counts => fio_proc_read_buffer local len count;; reads local len counts
  end.

Lemma take_drop_take (l : list Z) i n : take i l ++ take n (drop i l) = take (i + n) l.
Proof. by rewrite take_take_drop. Qed.

Lemma reads_run local len counts s :
  copies_succeed → len <= Z.of_nat (length local) → len < 2 ^ 32 → Forall (in_u 32) counts →
  0 <= p_pos s <= len → p_user s = take (Z.to_nat (p_pos s)) local →
  ∃ s', reads local len counts s = Ok (tt, s') ∧ p_pos s' = Z.min len (p_pos s + zsum id counts)
    ∧ p_user s' = take (Z.to_nat (p_pos s')) local ∧ p_cell s' = p_cell s.
Proof.
  intros C L S K. revert s. induction K as [|count counts K Ks IH]; intros s P U; cbn [reads].
  - exists s. split_and!; try done. change (zsum id []) with 0. lia.
  - rewrite (stateful_bind_ok _ _ _ _ _ (read_buffer_run local len count s C P L S K)). cbv beta.
    set (n := piece len (p_pos s) count). unfold in_u in K. assert (0 <= n) by (unfold n, piece; lia).
    destruct (IH (after_read local n s)) as (s' & E & Q & U' & Cl).
    + cbn. unfold n, piece. lia.
    + cbn. rewrite U, take_drop_take. f_equal. lia.
    + exists s'. split; [done|]. split; [|done]. rewrite Q. cbn [after_read set_pos p_pos].
      assert (0 <= zsum id counts).
      { clear -Ks. induction Ks as [|c cs Kc _ IHc]; [done|]. unfold in_u in Kc. change (zsum id (c :: cs)) with (c + zsum id cs). lia. }
      change (zsum id (count :: counts)) with (count + zsum id counts). unfold n, piece. lia.
Qed.

(** A text read from its start in pieces of any sizes arrives complete and in
    order: what the user has after the reads is the prefix of the text that the
    sizes add up to, and the position is its length. *)
Theorem reads_collect_text local len counts s :
  copies_succeed → 0 <= len <= Z.of_nat (length local) → len < 2 ^ 32 → Forall (in_u 32) counts →
  p_pos s = 0 → p_user s = [] →
  ∃ s', reads local len counts s = Ok (tt, s')
    ∧ p_user s' = take (Z.to_nat (Z.min len (zsum id counts))) local
    ∧ p_pos s' = Z.min len (zsum id counts).
Proof.
  intros C L S K P U. destruct (reads_run local len counts s C ltac:(lia) S K) as (s' & E & Q & U' & _);
    [lia|by rewrite P|]. exists s'. rewrite P in Q. by rewrite U', Q.
Qed.

(** A read at a position behind the end of the text is not an end of file:
    it copies as many bytes as were asked for from behind the text, or, when the
    buffer is not that long, reads outside it. *)
Theorem read_past_end_leaks local len count s :
  copies_succeed → 0 <= len < p_pos s → p_pos s < 2 ^ 62 → in_u 32 count → 0 < count →
  fio_proc_read_buffer local len count s
  = match slice local (p_pos s) count with
    | Ok bs => Ok (count, set_pos (p_pos s + count) (set_copied bs s))
    | Fault e => Fault e
    end.
Proof.
  intros C P B K Pc. unfold fio_proc_read_buffer. erewrite stateful_bind_ok; [|done]. cbv beta.
  change (2 ^ 62) with 4611686018427387904 in *. unfold in_u in K. change (2 ^ 32) with 4294967296 in K.
  rewrite (wraps_small 64 (len - p_pos s)) by (try done; unfold in_s; change (2 ^ (64 - 1)) with 9223372036854775808; lia).
  assert (u64 (len - p_pos s) = len - p_pos s + 18446744073709551616) as ->.
  { unfold wrapu. change (2 ^ 64) with 18446744073709551616.
    symmetry. apply (Z.mod_unique _ _ (-1)); lia. }
  assert ((len - p_pos s + 18446744073709551616 >? count) = true) as -> by lia.
  rewrite (wraps_small 64 count) by (try done; unfold in_s; change (2 ^ (64 - 1)) with 9223372036854775808; lia).
  rewrite Z.gtb_ltb, (proj2 (Z.ltb_lt _ _)) by lia. unfold kfio_copy_to_user.
  rewrite (wrapu_small 32 count) by (unfold in_u; change (2 ^ 32) with 4294967296; lia).
  rewrite C, Z.sub_0_r. destruct (slice local (p_pos s) count) as [bs|e] eqn:E; [|done].
  assert (length bs <= Z.to_nat count)%nat as Lb.
  { unfold slice in E. destruct (_ && _); [|done]. injection E as <-. rewrite length_take. lia. }
  unfold lift, modify, mbind, stateful_bind, mret, stateful_ret. cbn. rewrite take_ge by lia.
  change (s32 0 =? 0) with true; cbv iota; rewrite (wraps_small 64) by (try done; unfold in_s; change (2 ^ (64 - 1)) with 9223372036854775808; lia). done.
Qed.

(** ** Numbers: written and read back *)

(** The value nodes without a handler, with the width of their values. *)
Definition value_node (n : kfio_info_node) (width : nat) : Prop :=
  ni_handler n = None ∧ ni_size n = Z.of_nat width
  ∧ (ni_type n = KFIO_INFO_UINT32 ∧ width = 4%nat ∨ ni_type n = KFIO_INFO_UINT64 ∧ width = 8%nat
     ∨ ni_type n = KFIO_INFO_INT32 ∧ width = 4%nat).
Definition value_range (n : kfio_info_node) (v : Z) : Prop :=
  if ni_type n =? KFIO_INFO_UINT32 then in_u 32 v
  else if ni_type n =? KFIO_INFO_UINT64 then in_u 64 v else in_s 32 v.
Definition value_text (n : kfio_info_node) (v : Z) : cstring :=
  if ni_type n =? KFIO_INFO_INT32 then format_signed v else format_unsigned v.
Definition parser (n : kfio_info_node) : list Z → option (Z * Z) :=
  if ni_type n =? KFIO_INFO_UINT32 then kfio_strtoul
  else if ni_type n =? KFIO_INFO_UINT64 then kfio_strtoull else kfio_strtol.

Lemma handler_write_run n width v s :
  value_node n width → length (p_cell s) = width →
  generic_type_handler handlers n KFIO_INFO_WRITE None (Some (le_bytes width v)) s
  = Ok ((0, None), set_cell (le_bytes width v) s).
Proof.
  intros (Hh & Sz & T) L. unfold generic_type_handler, kfio_info_generic_type_handler, is_value. rewrite Hh.
  assert ((ni_type n =? KFIO_INFO_UINT32) || (ni_type n =? KFIO_INFO_UINT64) || (ni_type n =? KFIO_INFO_INT32)
          || (ni_type n =? KFIO_INFO_STRING) = true) as ->.
  { by destruct T as [[-> _]|[[-> _]|[-> _]]]. }
  unfold kfio_info_handle_cmd. cbn [mbind outcome_bind]. rewrite put_bytes_ok by (rewrite ?length_le_bytes; lia).
  cbn. rewrite length_le_bytes, drop_ge, app_nil_r by lia. done.
Qed.

Lemma handler_read_run n width s :
  value_node n width → length (p_cell s) = width →
  generic_type_handler handlers n KFIO_INFO_READ (Some (ni_size n)) None s = Ok ((0, Some (p_cell s)), s).
Proof.
  intros (Hh & Sz & T) L. unfold generic_type_handler, kfio_info_generic_type_handler, is_value. rewrite Hh.
  assert ((ni_type n =? KFIO_INFO_UINT32) || (ni_type n =? KFIO_INFO_UINT64) || (ni_type n =? KFIO_INFO_INT32)
          || (ni_type n =? KFIO_INFO_STRING) = true) as ->.
  { by destruct T as [[-> _]|[[-> _]|[-> _]]]. }
  unfold kfio_info_handle_cmd. rewrite Sz, (proj2 (Z.leb_le _ _)) by lia. cbn.
  rewrite take_ge by lia. by destruct s.
Qed.

Lemma no_digit_newline rest : no_digit_next (10 :: rest).
Proof. by exists 10, rest. Qed.

Lemma decimal_20 v : 0 <= v < 2 ^ 64 → number (decimal 20 v) ∧ digits_value (decimal 20 v) = v ∧ (length (decimal 20 v) <= 20)%nat.
Proof.
  intros V. apply decimal_spec; [|lia]. change (10 ^ Z.of_nat 20) with 100000000000000000000.
  change (2 ^ 64) with 18446744073709551616 in V. lia.
Qed.

(** The parser finds the value in its own text, up to the newline. *)
Lemma parse_text n width v rest :
  value_node n width → value_range n v →
  parser n (value_text n v ++ rest) = Some (v, Z.of_nat (length (value_text n v)) - 1)
  ∧ (1 < length (value_text n v) <= 22)%nat.
Proof.
  intros (_ & _ & T) R. unfold parser, value_text, value_range in *.
  assert (∀ w, number w → (length w <= 20)%nat → (1 < length (w ++ [10%Z]) <= 22)%nat) as Len.
  { intros w [N _] Lw. rewrite length_app. destruct w; [done|cbn in *; lia]. }
  assert (∀ w, Z.of_nat (length (w ++ [10])) - 1 = Z.of_nat (length w)) as Lm by (intros; rewrite length_app; cbn [length]; lia).
  destruct T as [[E _]|[[E _]|[E _]]]; rewrite E in R |- *; cbn [Z.eqb Pos.eqb KFIO_INFO_UINT32 KFIO_INFO_INT32 KFIO_INFO_UINT64] in *; unfold in_u, in_s in R.
  - destruct (decimal_20 v) as (N & V & L); [change (2 ^ 32) with 4294967296 in R; change (2 ^ 64) with 18446744073709551616; lia|].
    unfold format_unsigned. split; [|by apply Len]. rewrite Lm, <-(assoc_L (++)). unfold kfio_strtoul.
    rewrite strtoul_number; [by rewrite V|done|apply no_digit_newline|rewrite V; change (2 ^ 32) with 4294967296 in R; change (2 ^ 64) with 18446744073709551616; lia].
  - destruct (decimal_20 v R) as (N & V & L).
    unfold format_unsigned. split; [|by apply Len]. rewrite Lm, <-(assoc_L (++)). unfold kfio_strtoull.
    rewrite strtoull_number; [by rewrite V|done|apply no_digit_newline|rewrite V; apply R].
  - change (2 ^ (32 - 1)) with 2147483648 in R. unfold format_signed, kfio_strtol. destruct (Z.ltb_spec v 0) as [Sg|Sg].
    + destruct (decimal_20 (- v)) as (N & V & L); [change (2 ^ 64) with 18446744073709551616; lia|].
      split; [|cbn [app length]; specialize (Len _ N L); rewrite length_app in *; cbn in *; lia].
      rewrite Lm. cbn [app length]. rewrite <-(assoc_L (++)).
      rewrite strtol_negative; [rewrite V; do 2 f_equal; lia|done|apply no_digit_newline|rewrite V; change (2 ^ 63) with 9223372036854775808; lia].
    + destruct (decimal_20 v) as (N & V & L); [change (2 ^ 64) with 18446744073709551616; lia|].
      split; [|by apply Len]. rewrite Lm, <-(assoc_L (++)).
      rewrite strtol_number; [by rewrite V|done|apply no_digit_newline|rewrite V; change (2 ^ 63) with 9223372036854775808; lia].
Qed.

Lemma value_not_string n width : value_node n width → (ni_type n =? KFIO_INFO_STRING) = false.
Proof. intros (_ & _ & [[-> _]|[[-> _]|[-> _]]]); done. Qed.

Lemma write_value_run n width data count s :
  value_node n width →
  write_value handlers n data count s = write_number handlers n data (parser n) width count s.
Proof. intros (_ & _ & [[E ->]|[[E ->]|[E ->]]]); unfold write_value, parser; by rewrite E. Qed.

Lemma copy_from_run (to from : list Z) len s :
  copies_succeed → in_u 32 len → len <= Z.of_nat (length from) → len <= Z.of_nat (length to) →
  kfio_copy_from_user to from len s = Ok ((0, take (Z.to_nat len) from ++ drop (Z.to_nat len) to), s).
Proof.
  intros C K F T. unfold in_u in K. unfold kfio_copy_from_user. rewrite (wrapu_small 32 len) by done. rewrite slice_ok by lia.
  erewrite stateful_bind_ok; [|done]. cbv beta. rewrite C, Z.sub_0_r. change (replicate (Z.to_nat 0) 0) with (@nil Z).
  change (drop (Z.to_nat 0) from) with from. rewrite app_nil_r, take_take, Nat.min_id.
  rewrite put_bytes_ok by (rewrite ?length_take; lia). erewrite stateful_bind_ok; [|done]. cbv beta.
  assert (Z.to_nat 0 + length (take (Z.to_nat len) from) = Z.to_nat len)%nat as -> by (rewrite length_take; lia). done.
Qed.

(** A write of a number, as far as the parser. *)
Lemma number_write_run n width stack vm buf s :
  value_node n width → copies_succeed → length stack = 32%nat → Z.of_nat (length buf) <= 32 → 0 <= p_pos s < 2 ^ 62 →
  let count := Z.of_nat (length buf) in
  kfio_info_os_type_write handlers n stack vm buf count s
  = write_number handlers n (buf ++ drop (length buf) stack) (parser n) width count (set_pos (p_pos s + count) s).
Proof.
  intros V C Ls Lb Pp count. change (2 ^ 62) with 4611686018427387904 in Pp.
  unfold kfio_info_os_type_write. rewrite (value_not_string n width V). cbn [andb].
  erewrite stateful_bind_ok; [|done]. cbv beta iota. unfold LOCAL_BUF. rewrite Z.gtb_ltb, (proj2 (Z.ltb_ge 32 count)) by lia.
  erewrite stateful_bind_ok; [|apply copy_from_run; [done|unfold in_u; change (2 ^ 32) with 4294967296|..]; lia].
  cbv beta iota. change (negb (0 =? 0)) with false. cbv iota.
  erewrite stateful_bind_ok; [|done]. cbv beta. erewrite stateful_bind_ok; [|done]. cbv beta.
  rewrite (wraps_small 64) by (try done; unfold in_s; change (2 ^ (64 - 1)) with 9223372036854775808; lia).
  rewrite (write_value_run n width) by done. unfold count. by rewrite Nat2Z.id, take_ge by lia.
Qed.

Lemma write_number_run n width data v endp count s :
  value_node n width → length (p_cell s) = width → parser n data = Some (v, endp) →
  0 <= endp < 2 ^ 62 → 0 < count < 2 ^ 62 → count - 1 <= endp →
  write_number handlers n data (parser n) width count s = Ok (count, set_cell (le_bytes width v) s).
Proof.
  intros V L E Eb Cb Fit. change (2 ^ 62) with 4611686018427387904 in *. unfold write_number. rewrite E.
  rewrite !wrapu_small by (unfold in_u; change (2 ^ 64) with 18446744073709551616; lia).
  rewrite (proj2 (Z.ltb_ge endp (count - 1))) by lia.
  by rewrite (stateful_bind_ok _ _ _ _ _ (handler_write_run n width v s V L)).
Qed.

(** The value in the cell, as the reader prints it. *)
Lemma read_run n width stack junk vm count v s :
  value_node n width → value_range n v → copies_succeed → length stack = 32%nat → in_u 32 count →
  p_cell s = le_bytes width v → p_pos s = 0 →
  Z.of_nat (length (value_text n v)) <= count →
  kfio_info_os_type_read handlers n stack junk vm count s
  = Ok (Z.of_nat (length (value_text n v)), set_pos (Z.of_nat (length (value_text n v))) (set_copied (value_text n v) s)).
Proof.
  intros V R C Ls K Cl P Fit. destruct (parse_text n width v [] V R) as [_ Lt]. set (t := value_text n v) in *.
  assert (∀ fmt, fmt (le_bytes width v) = t →
    read_number handlers n (ni_size n) junk stack fmt count s = Ok (Z.of_nat (length t), set_pos (Z.of_nat (length t)) (set_copied t s))) as Rd.
  { intros fmt F. unfold read_number.
    erewrite stateful_bind_ok; [|apply (handler_read_run n width); [done|by rewrite Cl, length_le_bytes]]. cbv beta iota.
    rewrite Z.eqb_refl, Cl. cbn [default]. unfold default, id. rewrite F. unfold vsnprintf_bytes, LOCAL_BUF. cbn [Z.eqb].
    rewrite take_ge by lia. rewrite put_bytes_ok by (rewrite ?length_app; cbn [length]; lia).
    erewrite stateful_bind_ok; [|done]. cbv beta.
    set (local := take _ stack ++ _).
    assert (length local = 32%nat) as Ll by (unfold local; rewrite length_put; [done|lia|rewrite length_app; cbn [length]; lia]).
    erewrite stateful_bind_ok; [|apply read_buffer_run; [done|lia|lia|change (2 ^ 32) with 4294967296; lia|done]]. cbv beta.
    rewrite P. assert (piece (Z.of_nat (length t)) 0 count = Z.of_nat (length t)) as -> by (unfold piece; lia).
    rewrite wraps_small by (try done; unfold in_s; change (2 ^ (32 - 1)) with 2147483648; lia).
    unfold after_read. rewrite P. cbn [p_pos Z.add]. rewrite Nat2Z.id. change (drop (Z.to_nat 0) local) with local.
    assert (take (length t) local = t) as ->; [|done].
    unfold local. change (take (Z.to_nat 0) stack) with (@nil Z). rewrite app_nil_l, <-(assoc_L (++)). by apply take_app_length. }
  unfold kfio_info_os_type_read. rewrite (value_not_string n width V). destruct V as (_ & _ & T). unfold value_range in R.
  destruct T as [[E ->]|[[E ->]|[E ->]]]; rewrite E in *;
    cbn [Z.eqb Pos.eqb KFIO_INFO_UINT32 KFIO_INFO_INT32 KFIO_INFO_UINT64] in *; apply Rd; rewrite le_value_bytes;
    unfold t, value_text; rewrite E; cbn [Z.eqb Pos.eqb KFIO_INFO_UINT32 KFIO_INFO_INT32 KFIO_INFO_UINT64]; f_equal.
  - change (256 ^ Z.of_nat 4) with (2 ^ 32). unfold in_u in R. rewrite Z.mod_small by done. by apply wrapu_small.
  - change (256 ^ Z.of_nat 8) with (2 ^ 64). unfold in_u in R. rewrite Z.mod_small by done. by apply wrapu_small.
  - change (256 ^ Z.of_nat 4) with (2 ^ 32). unfold wraps. rewrite Zplus_mod_idemp_l.
    change ((v + 2 ^ (32 - 1)) `mod` 2 ^ 32 - 2 ^ (32 - 1)) with (s32 v). by apply wraps_small.
Qed.

(** C13: A number written in one call to a value node without a handler, in decimal
    and ending in a newline, is stored in the node's memory at its width, and reading
    the file then gives the same text, as long as the copies from and to the user
    succeed: for 32-bit and 64-bit unsigned and 32-bit signed values, over their whole
    ranges, whatever the stack held.  ([write_unterminated_reads_stack] has what
    happens without the newline.) *)
Theorem value_roundtrip n width v stack stack' junk vm count s :
  value_node n width → value_range n v → copies_succeed → length (p_cell s) = width →
  length stack = 32%nat → length stack' = 32%nat → 0 <= p_pos s < 2 ^ 62 →
  let text := value_text n v in
  in_u 32 count → Z.of_nat (length text) <= count →
  ∃ s', kfio_info_os_type_write handlers n stack vm text (Z.of_nat (length text)) s = Ok (Z.of_nat (length text), s')
    ∧ p_cell s' = le_bytes width v ∧ p_pos s' = p_pos s + Z.of_nat (length text) ∧ p_live s' = p_live s
    ∧ ∃ s'', kfio_info_os_type_read handlers n stack' junk vm count (set_pos 0 s') = Ok (Z.of_nat (length text), s'')
    ∧ p_user s'' = p_user s ++ text.
Proof.
  intros V R C L Ls Ls' Pp text K Fit. destruct (parse_text n width v (drop (length text) stack) V R) as [E Lt].
  fold text in E, Lt. exists (set_cell (le_bytes width v) (set_pos (p_pos s + Z.of_nat (length text)) s)).
  split; [|split; [done|split; [done|split; [done|]]]].
  - rewrite (number_write_run n width) by (done || lia).
    apply (write_number_run n width _ v (Z.of_nat (length text) - 1)); try done; change (2 ^ 62) with 4611686018427387904; lia.
  - rewrite (read_run n width stack' junk vm count v) by (try done; lia). fold text. eexists. split; [done|]. done.
Qed.

(** A number written without a newline runs on into what the stack holds
    behind it: its digits followed by those the stack happens to hold are stored,
    and the write reports success.  A number of 32 digits makes the parser read
    outside the buffer. *)
Theorem write_unterminated_reads_stack n ds es stack stack1 rest vm s :
  value_node n 4 → ni_type n = KFIO_INFO_UINT32 → copies_succeed → length (p_cell s) = 4%nat →
  number ds → Forall (λ ch, is_digit ch = true) es → no_digit_next rest →
  length stack1 = length ds → stack = stack1 ++ es ++ rest → length stack = 32%nat →
  digits_value (ds ++ es) < 2 ^ 64 → 0 <= p_pos s < 2 ^ 62 →
  let count := Z.of_nat (length ds) in
  (∃ s', kfio_info_os_type_write handlers n stack vm ds count s = Ok (count, s')
     ∧ p_cell s' = le_bytes 4 (digits_value (ds ++ es)))
  ∧ ∀ ds', number ds' → length ds' = 32%nat →
      kfio_info_os_type_write handlers n stack vm ds' 32 s = Fault OutOfBounds.
Proof.
  intros V T C L [Nd Dd] De Re L1 Es Ls Dv Pp count. split.
  - exists (set_cell (le_bytes 4 (digits_value (ds ++ es))) (set_pos (p_pos s + count) s)). split; [|done].
    assert (length stack = length ds + length es + length rest)%nat as Lt by (rewrite Es, !length_app; lia).
    unfold count. rewrite (number_write_run n 4) by (done || lia).
    assert (drop (length ds) stack = es ++ rest) as -> by (rewrite Es, <-L1; apply drop_app_length).
    change (2 ^ 62) with 4611686018427387904 in *.
    assert (0 < Z.of_nat (length ds)) by (destruct ds; [done|cbn; lia]).
    apply (write_number_run n 4 _ _ (Z.of_nat (length (ds ++ es)))); try done.
    + unfold parser. rewrite T. cbn. unfold kfio_strtoul. rewrite (assoc_L (++)). apply strtoul_number; [|done|done].
      split; [by destruct ds|]. apply list.Forall_app. done.
    + rewrite length_app. change (2 ^ 62) with 4611686018427387904. lia.
    + change (2 ^ 62) with 4611686018427387904. lia.
    + rewrite length_app. lia.
  - intros ds' N' L'. replace 32 with (Z.of_nat (length ds')) by lia. rewrite (number_write_run n 4) by (done || lia).
    rewrite drop_ge, app_nil_r by lia. unfold write_number, parser. rewrite T. cbn. unfold kfio_strtoul.
    by rewrite strtoul_unterminated.
Qed.

(** ** Strings *)

Definition string_node (n : kfio_info_node) (size : Z) : Prop :=
  ni_type n = KFIO_INFO_STRING ∧ ni_handler n = None ∧ ni_size n = size.

Lemma string_handler_run n size bs s :
  string_node n size → length bs = length (p_cell s) →
  generic_type_handler handlers n KFIO_INFO_WRITE None (Some bs) s = Ok ((0, None), set_cell bs s).
Proof.
  intros (T & Hh & Sz) L. unfold generic_type_handler, kfio_info_generic_type_handler, is_value. rewrite Hh, T. cbn [Z.eqb Pos.eqb orb].
  unfold kfio_info_handle_cmd. cbn [mbind outcome_bind KFIO_INFO_STRING Z.eqb Pos.eqb orb KFIO_INFO_UINT32 KFIO_INFO_INT32 KFIO_INFO_UINT64].
  rewrite put_bytes_ok by lia. cbn. rewrite L, drop_ge, app_nil_r by lia. done.
Qed.

(** A string shorter than its node is stored with what the temporary buffer
    held behind it, the stack or fresh memory.  A string that is too long is
    refused, but for a node of more than 32 bytes the temporary buffer is not
    freed. *)
Theorem write_string_stores_stack n size buf stack vm m s :
  string_node n size → copies_succeed → 0 <= size < 2 ^ 32 → Z.of_nat (length (p_cell s)) = size →
  length stack = 32%nat → vm size = Some m → Z.of_nat (length m) = size → 0 <= p_pos s < 2 ^ 62 →
  let count := Z.of_nat (length buf) in
  let temp := if size >? 32 then m else stack in
  if decide (count <= size) then
    ∃ s', kfio_info_os_type_write handlers n stack vm buf count s = Ok (count, s')
      ∧ p_cell s' = take (Z.to_nat size) (buf ++ drop (length buf) temp) ∧ p_live s' = p_live s
  else count < 2 ^ 32 → ∃ s', kfio_info_os_type_write handlers n stack vm buf count s = Ok (- EINVAL, s')
      ∧ p_cell s' = p_cell s ∧ p_live s' = p_live s + (if size >? 32 then 1 else 0).
Proof.
  intros N C Sb Lc Ls Vm Lm Pp count temp. pose proof N as (T & Hh & Sz).
  change (2 ^ 32) with 4294967296 in *. change (2 ^ 62) with 4611686018427387904 in Pp.
  assert (u64 size = size) as Us by (apply wrapu_small; unfold in_u; change (2 ^ 64) with 18446744073709551616; lia).
  unfold kfio_info_os_type_write. rewrite T, Z.eqb_refl, Sz, Us. cbn [andb]. unfold LOCAL_BUF.
  set (s1 := if size >? 32 then add_live 1 s else s).
  assert (∀ X (k : option (list Z) → P X), ((if size >? 32 then match vm size with None => mret None | Some m => modify (add_live 1);; mret (Some m) end
                else mret (Some stack)) ≫= k) s = k (Some temp) s1) as ->.
  { intros X k. unfold temp, s1. destruct (size >? 32); [rewrite Vm|]; done. }
  cbv beta iota.
  assert (p_cell s1 = p_cell s ∧ p_pos s1 = p_pos s ∧ p_live s1 = p_live s + (if size >? 32 then 1 else 0)) as (C1 & P1 & V1).
  { unfold s1. destruct (size >? 32); split_and!; try done. cbn. lia. }
  destruct (decide (count <= size)) as [F|F].
  - rewrite Z.gtb_ltb, (proj2 (Z.ltb_ge size count)) by lia.
    assert (size <= Z.of_nat (length temp)) as Lt by (unfold temp; rewrite Z.gtb_ltb; destruct (Z.ltb_spec 32 size); lia).
    erewrite stateful_bind_ok; [|apply copy_from_run; [done|unfold in_u; change (2 ^ 32) with 4294967296|..]; lia].
    cbv beta iota. change (negb (0 =? 0)) with false. cbv iota.
    erewrite stateful_bind_ok; [|done]. cbv beta. erewrite stateful_bind_ok; [|done]. cbv beta.
    unfold count. rewrite Nat2Z.id, take_ge by lia. fold count. unfold write_string.
    rewrite slice_ok by (rewrite ?length_app, ?length_drop; lia). change (drop (Z.to_nat 0) ?l) with l.
    erewrite stateful_bind_ok; [|done]. cbv beta.
    erewrite stateful_bind_ok; [|apply (string_handler_run n size); [done|]; cbn; rewrite C1, length_take, length_app, length_drop; lia].
    cbv beta iota. rewrite Us. unfold LOCAL_BUF. destruct (size >? 32).
    + eexists. split; [done|]. split; [done|]. cbn. lia.
    + eexists. split; [done|]. split; [done|]. cbn. lia.
  - intros Cb. rewrite Z.gtb_ltb, (proj2 (Z.ltb_lt size count)) by lia. exists s1. by rewrite C1, V1.
Qed.
End spec.

(** ** A parser *)

Fixpoint parse (p : list Z) (acc len : Z) : option (Z * Z) :=
  match p with
  | [] => None
  | ch :: p => if is_digit ch then parse p (acc * 10 + (ch - 48)) (len + 1) else Some (acc, len)
  end.

Definition small_proc_env : ProcEnv := {|
  simple_strtoul p := '(v, e) ← parse p 0 0; Some (u64 v, e);
  simple_strtoull p := '(v, e) ← parse p 0 0; Some (u64 v, e);
  simple_strtol p := match p with
    | 45 :: p => '(v, e) ← parse p 0 0; Some (- v, 1 + e)
    | _ => parse p 0 0 end;
  uncopied _ := 0 |}.

Lemma parse_number ds rest acc len :
  Forall (λ ch, is_digit ch = true) ds → no_digit_next rest →
  parse (ds ++ rest) acc len = Some (foldl (λ a ch, a * 10 + (ch - 48)) acc ds, len + Z.of_nat (length ds)).
Proof.
  intros D (ch & rest' & -> & N). revert acc len. induction D as [|d ds Dd _ IH]; intros acc len; cbn [app parse].
  - rewrite N. cbn. by rewrite Z.add_0_r.
  - rewrite Dd, IH. cbn [foldl length]. do 2 f_equal. lia.
Qed.

Lemma parse_unterminated ds acc len : Forall (λ ch, is_digit ch = true) ds → parse ds acc len = None.
Proof. intros D. revert acc len. induction D as [|d ds Dd _ IH]; intros acc len; cbn [parse]; [done|]. by rewrite Dd. Qed.

Lemma digits_nonneg ds : Forall (λ ch, is_digit ch = true) ds → 0 <= digits_value ds.
Proof.
  induction ds as [|ch ds IH] using rev_ind; intros D; [done|]. rewrite digits_value_snoc.
  apply list.Forall_app in D as [D [Dc _]%list.Forall_cons]. specialize (IH D). unfold is_digit in Dc. lia.
Qed.

Lemma small_proc_env_laws : @ProcEnvLaws small_proc_env.
Proof.
  split; cbn.
  - intros ds rest [N D] R B. rewrite parse_number by done. cbn. rewrite wrapu_small; [done|].
    pose proof (digits_nonneg ds D). done.
  - intros ds rest [N D] R B. rewrite parse_number by done. cbn. rewrite wrapu_small; [done|].
    pose proof (digits_nonneg ds D). done.
  - intros ds rest [N D] R B. destruct ds as [|d ds]; [done|].
    assert (d ≠ 45) by (apply list.Forall_cons in D as [Dd _]; unfold is_digit in Dd; lia).
    transitivity (parse ((d :: ds) ++ rest) 0 0); [|by rewrite parse_number]. cbn [app]. destruct d as [|d|]; try done. repeat (destruct d as [d|d|]; try done).
  - intros ds rest [N D] R B. rewrite parse_number by done. done.
  - intros ds [N D]. by rewrite parse_unterminated.
  - lia.
Qed.

(** ** Witnesses *)

Lemma small_copies : @copies_succeed small_proc_env.
Proof. done. Qed.

Definition no_handler : Z → type_handler := λ _ _ _ _ c, Ok (0, None, c).
Definition cell4 : proc_state := mk_proc [1; 1; 1; 1] [] 0 0.
Definition value_u32 : kfio_info_node := mk_node None 0 KFIO_INFO_UINT32 4 292 None None [118].

Lemma reads_collect_text_witness :
  ∃ s', @reads small_proc_env [97; 98; 99; 10; 0; 0] 4 [3; 0; 3; 3] cell4 = Ok (tt, s')
        ∧ p_user s' = [97; 98; 99; 10] ∧ p_pos s' = 4.
Proof.
  destruct (@reads_collect_text small_proc_env [97; 98; 99; 10; 0; 0] 4 [3; 0; 3; 3] cell4 small_copies)
    as (s' & E & U & Q); [cbn; lia|done|repeat constructor; done|done|done|].
  exists s'. split; [exact E|]. split; [exact U|exact Q].
Defined.

Lemma read_past_end_leaks_witness :
  @fio_proc_read_buffer small_proc_env [49; 10; 0; 55; 56; 57] 2 2 (set_pos 3 cell4)
  = Ok (2, mk_proc [1; 1; 1; 1] [55; 56] 5 0)
  ∧ @fio_proc_read_buffer small_proc_env [49; 10; 0; 55; 56; 57] 2 2 (set_pos 5 cell4) = Fault OutOfBounds.
Proof.
  split; rewrite (@read_past_end_leaks small_proc_env [49; 10; 0; 55; 56; 57] 2 2 _ small_copies); cbn; done || lia.
Defined.

(** -7 in a signed node. *)
Lemma value_roundtrip_witness :
  ∃ s' s'', @kfio_info_os_type_write small_proc_env no_handler (mk_node None 0 KFIO_INFO_INT32 4 292 None None [118])
      (replicate 32 57) (λ _, None) [45; 55; 10] 3 cell4 = Ok (3, s')
    ∧ p_cell s' = [249; 255; 255; 255]
    ∧ @kfio_info_os_type_read small_proc_env no_handler (mk_node None 0 KFIO_INFO_INT32 4 292 None None [118])
      (replicate 32 57) [] (λ _, None) 4096 (set_pos 0 s') = Ok (3, s'')
    ∧ p_user s'' = [45; 55; 10].
Proof.
  destruct (@value_roundtrip small_proc_env small_proc_env_laws no_handler
              (mk_node None 0 KFIO_INFO_INT32 4 292 None None [118]) 4 (-7) (replicate 32 57) (replicate 32 57) []
              (λ _, None) 4096 cell4) as (s' & Ew & C & _ & _ & s'' & Er & U);
    [split; [done|split; [done|by right; right]]|done|exact small_copies|done|done|done|done|done|done|].
  exists s', s''. split; [exact Ew|]. split; [exact C|]. split; [exact Er|exact U].
Defined.

(** "12" is stored as 123 when the stack has a '3' there. *)
Lemma write_unterminated_reads_stack_witness :
  ∃ s', @kfio_info_os_type_write small_proc_env no_handler value_u32 ([0; 0; 51] ++ replicate 29 0) (λ _, None) [49; 50] 2 cell4
        = Ok (2, s') ∧ p_cell s' = [123; 0; 0; 0].
Proof.
  destruct (@write_unterminated_reads_stack small_proc_env small_proc_env_laws no_handler value_u32 [49; 50] [51]
              ([0; 0; 51] ++ replicate 29 0) [0; 0] (replicate 29 0) (λ _, None) cell4) as [(s' & E & C) _];
    try done; [split; [done|split; [done|by left]]|split; [done|by repeat constructor]|by repeat constructor|by exists 0, (replicate 28 0)|].
  exists s'. split; [exact E|exact C].
Defined.

Lemma write_string_stores_stack_witness :
  ∃ s', @kfio_info_os_type_write small_proc_env no_handler (mk_node None 0 KFIO_INFO_STRING 4 292 None None [118])
          (replicate 32 88) (λ _, Some [7; 7; 7; 7]) [97; 98] 2 cell4 = Ok (2, s') ∧ p_cell s' = [97; 98; 88; 88].
Proof.
  destruct (@write_string_stores_stack small_proc_env no_handler (mk_node None 0 KFIO_INFO_STRING 4 292 None None [118]) 4
              [97; 98] (replicate 32 88) (λ _, Some [7; 7; 7; 7]) [7; 7; 7; 7] cell4) as (s' & E & C & _); try done.
  exists s'. split; [exact E|exact C].
Defined.
