(* ===== verification/KinfoSeq.v ===== *)
(** * Text and sequential files of the information tree: kinfo.c, kfile.c

    The show handlers print through a data handle whose buffer is the free part of
    the seq file's page.  A page that is filled completely tells the kernel to
    start again with a bigger one, so that nothing cut off is ever delivered. *)
From S2P Require Import Prelude Kinfo KinfoData.

(** ** Seq files *)

(** The private pointer of a file: the node, or the handle while a sequence is
    shown, with the place of its buffer in the page. *)
Inductive private := PNode (n : kfio_info_node) | PData (off : option Z) (dbh : kfio_info_data).

(** The page and the number of its bytes in use; [sf_handles] counts the handles
    that are allocated. *)
Record seq_file := mk_seq {
  sf_buf : list Z;
  sf_count : Z;
  sf_private : private;
  sf_handles : Z
}.

Definition sf_size (m : seq_file) : Z := Z.of_nat (length (sf_buf m)).

Abbreviation Q := (stateful seq_file).

Definition set_count (c : Z) (m : seq_file) : seq_file := mk_seq (sf_buf m) c (sf_private m) (sf_handles m).
Definition set_private (p : private) (m : seq_file) : seq_file := mk_seq (sf_buf m) (sf_count m) p (sf_handles m).
Definition set_page (b : list Z) (m : seq_file) : seq_file := mk_seq b (sf_count m) (sf_private m) (sf_handles m).
Definition add_handles (k : Z) (m : seq_file) : seq_file := mk_seq (sf_buf m) (sf_count m) (sf_private m) (sf_handles m + k).

Definition kfio_fseq_private : Q private := m ← get; mret (sf_private m).
Definition kfio_fseq_set_private (pv : private) : Q unit := modify (set_private pv).

(** [out]: what the format expands to. *)
Definition kfio_seq_printf (out : cstring) : Q Z := λ m,
  let len := Z.of_nat (length out) in
  if sf_count m <? sf_size m then
    match put_bytes (sf_buf m) (sf_count m) (vsnprintf_bytes (sf_size m - sf_count m) out) with
    | Fault e => Fault e
    | Ok buf =>
        let m := set_page buf m in
        if sf_count m + len <? sf_size m then Ok (0, set_count (sf_count m + len) m)
        else Ok (-1, set_count (sf_size m) m)
    end
  else Ok (-1, set_count (sf_size m) m).

(** The place and the size of the free part of the page. *)
Definition kfio_seq_get_buf : Q (option Z * Z) :=
  m ← get;
  if sf_size m >? sf_count m then mret (Some (sf_count m), sf_size m - sf_count m) else mret (None, 0).

Definition kfio_seq_commit (num : Z) : Q unit :=
  modify (λ m, set_count (if num <? 0 then sf_size m else sf_count m + num) m).

(** The memory of a buffer in the page, and what becomes of it. *)
Definition page_at (off : option Z) (size : Z) (m : seq_file) : list Z :=
  match off with None => [] | Some o => take (Z.to_nat size) (drop (Z.to_nat o) (sf_buf m)) end.
Definition store_page (off : option Z) (dbh : kfio_info_data) : Q unit := λ m,
  match off with
  | None => Ok (tt, m)
  | Some o => match put_bytes (sf_buf m) o (db_buffer dbh) with Ok b => Ok (tt, set_page b m) | Fault e => Fault e end
  end.

(** ** Handlers *)

(** The operations of a sequential file; a cookie of [None] is NULL. *)
Record kfio_info_seq_ops := mk_seq_ops {
  seq_init : Z → Z → kfio_info_data → outcome (option Z * kfio_info_data);
  seq_next : Z → Z → Z → outcome (option Z * Z);
  seq_show : Z → Z → kfio_info_data → outcome (Z * kfio_info_data)
}.

Section seq.
Context (texts : Z → text_handler) (seqs : Z → kfio_info_seq_ops).

(** [allocated]: whether the handle could be allocated. *)
Definition alloc_handle (allocated : bool) (n : node_ptr) (data : list Z) (size : Z) : Q (Z * option kfio_info_data) :=
  let '(rc, d) := kfio_info_alloc_data_handle allocated n data size in
  (if d is Some _ then modify (add_handles 1) else mret tt);;
  mret (rc, d).
Definition kfio_info_free_data_handle : Q unit := modify (add_handles (-1)).

Definition kfio_info_linux_text_show (allocated : bool) : Q Z :=
  p ← kfio_fseq_private;
  match p with
  | PData _ _ => fail BadPointer
  | PNode n =>
      '(off, size) ← kfio_seq_get_buf;
      m ← get;
      '(rc, d) ← alloc_handle allocated None (page_at off size m) size;
      match d with
      | None => mret (- EIO)
      | Some dbh =>
          '(rc, dbh) ← lift (kfio_info_generic_text_handler texts n dbh);
          store_page off dbh;;
          (if rc <? 0 then kfio_seq_commit rc else kfio_seq_commit (s32 (kfio_info_data_size_valid dbh)));;
          kfio_info_free_data_handle;;
          mret rc
      end
  end.

(** The operations of the node in the handle: the node itself is kept beside it. *)
Definition node_ops (n : kfio_info_node) : outcome kfio_info_seq_ops :=
  match ni_handler n with Some f => Ok (seqs f) | None => Fault NullDeref end.

(** The handle gets the node, which is [self] here. *)
Definition kfio_info_linux_seq_start (allocated : bool) (self : node_ptr) (pos : Z) : Q (option Z) :=
  p ← kfio_fseq_private;
  match p with
  | PData _ _ => fail BadPointer
  | PNode n =>
      '(off, size) ← kfio_seq_get_buf;
      m ← get;
      '(rc, d) ← alloc_handle allocated self (page_at off size m) size;
      match d with
      | None => mret None
      | Some dbh =>
          ops ← lift (node_ops n);
          '(cookie, dbh) ← lift (seq_init ops (ni_data n) pos dbh);
          store_page off dbh;;
          kfio_fseq_set_private (PData off dbh);;
          mret cookie
      end
  end.

(** The private pointer is taken for a handle. *)
Definition the_handle : Q (option Z * kfio_info_data) :=
  p ← kfio_fseq_private;
  match p with PNode _ => fail BadPointer | PData off dbh => mret (off, dbh) end.

Definition kfio_info_linux_seq_next (n : kfio_info_node) (cookie pos : Z) : Q (option Z * Z) :=
  _ ← the_handle;
  ops ← lift (node_ops n);
  lift (seq_next ops (ni_data n) cookie pos).

Definition kfio_info_linux_seq_stop (n : kfio_info_node) : Q unit :=
  _ ← the_handle;
  _ ← lift (node_ops n);
  kfio_fseq_set_private (PNode n);;
  kfio_info_free_data_handle.

Definition kfio_info_linux_seq_show (n : kfio_info_node) (cookie : Z) : Q Z :=
  '(off, dbh) ← the_handle;
  let size := kfio_info_data_size_valid dbh in
  ops ← lift (node_ops n);
  '(rc, dbh) ← lift (seq_show ops (ni_data n) cookie dbh);
  store_page off dbh;;
  kfio_fseq_set_private (PData off dbh);;
  (if rc <? 0 then kfio_seq_commit rc else kfio_seq_commit (s32 (u64 (kfio_info_data_size_valid dbh - size))));;
  mret rc.

(** One pass of the kernel over a sequence of cookies. *)
Fixpoint shows (n : kfio_info_node) (cookies : list Z) : Q unit :=
  match cookies with
  | [] => mret tt
  | c :: cookies => kfio_info_linux_seq_show n c;; shows n cookies
  end.
Definition seq_pass (n : kfio_info_node) (self : node_ptr) (pos : Z) (cookies : list Z) : Q unit :=
  kfio_info_linux_seq_start true self pos;; shows n cookies;; kfio_info_linux_seq_stop n.

End seq.

(** * What is shown *)

Definition shown (m : seq_file) : list Z := take (Z.to_nat (sf_count m)) (sf_buf m).

Record seq_ok (m : seq_file) : Prop := {
  so_count : 0 <= sf_count m <= sf_size m;
  so_size : sf_size m < 2 ^ 31
}.

(** A handler that writes these pieces and then returns [rc]. *)
Definition prints (f : text_handler) (rc : Z) (pieces : list (list Z)) : Prop :=
  ∀ dbh, f dbh = match write_all dbh pieces with Ok d => Ok (rc, d) | Fault e => Fault e end.

(** The handle prints into the page from [off] to its end. *)
Record handle_on (m : seq_file) (off : Z) (dbh : kfio_info_data) : Prop := {
  ho_ok : data_ok dbh;
  ho_off : 0 <= off;
  ho_size : off + db_max_size dbh = sf_size m;
  ho_page : drop (Z.to_nat off) (sf_buf m) = db_buffer dbh
}.

Lemma small_s32 z : 0 <= z < 2 ^ 31 → s32 z = z.
Proof. intros Z. apply wraps_small; [done|]. unfold in_s. change (2 ^ (32 - 1)) with (2 ^ 31). lia. Qed.

(** The page when the handle has printed [pieces]. *)
Lemma handle_prints m off dbh pieces :
  seq_ok m → handle_on m off dbh → db_tot_size dbh + Z.of_nat (length (concat pieces)) < 2 ^ 62 →
  ∃ dbh' m', write_all dbh pieces = Ok dbh' ∧ store_page (Some off) dbh' m = Ok (tt, m')
    ∧ handle_on m' off dbh' ∧ sf_count m' = sf_count m ∧ sf_private m' = sf_private m ∧ sf_handles m' = sf_handles m
    ∧ sf_size m' = sf_size m
    ∧ db_cur_size dbh' = Z.min (db_max_size dbh) (db_cur_size dbh + Z.of_nat (length (concat pieces)))
    ∧ db_tot_size dbh' = db_tot_size dbh + Z.of_nat (length (concat pieces))
    ∧ ∀ pre, take (Z.to_nat (off + db_cur_size dbh)) (sf_buf m) = pre →
        take (Z.to_nat (off + db_cur_size dbh')) (sf_buf m') = take (Z.to_nat (sf_size m)) (pre ++ concat pieces).
Proof.
  intros Ok0 [K Ho Hs Hp] T. destruct (write_all_run pieces dbh K T) as (dbh' & E & K' & M & C & Tt & V).
  pose proof K as [B Mx Cb _]. pose proof K' as [B' _ Cb' _]. exists dbh'. unfold sf_size in *.
  assert (length (drop (Z.to_nat off) (sf_buf m)) = length (db_buffer dbh)) as Ld by by rewrite Hp.
  rewrite length_drop in Ld.
  unfold store_page. rewrite put_bytes_ok by lia. eexists. split; [done|]. split; [done|].
  set (buf' := take (Z.to_nat off) (sf_buf m) ++ db_buffer dbh' ++ drop (Z.to_nat off + length (db_buffer dbh')) (sf_buf m)).
  assert (buf' = take (Z.to_nat off) (sf_buf m) ++ db_buffer dbh') as Eb.
  { unfold buf'. rewrite drop_ge, app_nil_r by lia. done. }
  assert (length buf' = length (sf_buf m)) as Lb by (unfold buf'; apply length_put; lia).
  cbn. fold buf'. split; [split; cbn; [done|done|unfold sf_size; cbn; fold buf'; lia|]|split_and!; try done].
  - rewrite Eb. rewrite drop_app_ge by (rewrite length_take; lia). rewrite length_take.
    by replace (_ - _)%nat with 0%nat by lia.
  - by rewrite Lb.
  - intros pre <-. rewrite Eb. rewrite take_app_ge by (rewrite length_take; lia). rewrite length_take.
    replace (Z.to_nat (off + db_cur_size dbh') - Z.to_nat off `min` length (sf_buf m))%nat with (Z.to_nat (db_cur_size dbh')) by lia.
    change (take (Z.to_nat (db_cur_size dbh')) (db_buffer dbh')) with (valid_bytes dbh'). rewrite V.
    unfold valid_bytes. rewrite <-Hp.
    replace (Z.to_nat (off + db_cur_size dbh)) with (Z.to_nat off + Z.to_nat (db_cur_size dbh))%nat by lia.
    rewrite <-take_take_drop, <-(assoc_L (++)). rewrite (take_app_ge (take (Z.to_nat off) _)) by (rewrite length_take; lia).
    f_equal. rewrite length_take. f_equal. lia.
Qed.

Lemma get_buf_run m :
  seq_ok m → ∃ off, kfio_seq_get_buf m = Ok ((off, sf_size m - sf_count m), m)
    ∧ (∀ o, off = Some o → o = sf_count m) ∧ (off = None → sf_count m = sf_size m)
    ∧ page_at off (sf_size m - sf_count m) m = drop (Z.to_nat (sf_count m)) (sf_buf m).
Proof.
  intros [C S]. unfold kfio_seq_get_buf. erewrite stateful_bind_ok; [|done]. cbv beta. unfold sf_size in *.
  rewrite Z.gtb_ltb. destruct (Z.ltb_spec (sf_count m) (Z.of_nat (length (sf_buf m)))).
  - exists (Some (sf_count m)). split; [done|]. split; [by intros o [= <-]|]. split; [done|]. cbn.
    apply take_ge. rewrite length_drop. lia.
  - exists None. split; [by replace (Z.of_nat (length (sf_buf m)) - sf_count m) with 0 by lia|]. split; [done|]. split; [lia|].
    cbn. symmetry. apply nil_length_inv. rewrite length_drop. lia.
Qed.

(** A new handle, on the free part of the page. *)
Lemma new_handle m node :
  seq_ok m →
  handle_on (add_handles 1 m) (sf_count m)
    (kfio_info_reset_data_handle node (drop (Z.to_nat (sf_count m)) (sf_buf m)) (sf_size m - sf_count m)).
Proof.
  intros [C S]. change (2 ^ 31) with 2147483648 in S. unfold sf_size in *. split; cbn; [|lia|unfold sf_size; cbn; lia|done].
  split; cbn; change (2 ^ 62) with 4611686018427387904; try lia. rewrite length_drop. lia.
Qed.

(** A full page has no free part to print to. *)
Lemma store_none m dbh off o :
  0 <= o <= sf_size m → Z.of_nat (length (db_buffer dbh)) = sf_size m - o →
  (∀ x, off = Some x → x = o) → (off = None → o = sf_size m) →
  store_page off dbh m = store_page (Some o) dbh m.
Proof.
  intros O L S1 S2. destruct off as [x|]; [by rewrite (S1 x eq_refl)|]. specialize (S2 eq_refl). unfold sf_size in *.
  assert (db_buffer dbh = []) as Eb by (apply nil_length_inv; lia).
  cbn. rewrite Eb, put_bytes_ok by (cbn; lia). cbn [app length]. rewrite Nat.add_0_r, take_drop. by destruct m.
Qed.

(** Cutting twice at one place. *)
Lemma take_take_app (l1 l2 : list Z) k : take k (take k l1 ++ l2) = take k (l1 ++ l2).
Proof.
  destruct (decide (length l1 <= k)%nat); [by rewrite (take_ge l1) by lia|].
  rewrite take_app_le by (rewrite length_take; lia). rewrite take_app_le by lia. by rewrite take_take, Nat.min_id.
Qed.

Section spec.
Context (texts : Z → text_handler) (seqs : Z → kfio_info_seq_ops).

(** What a text node prints is delivered completely or not at all: the page
    holds what was in it followed by the text, cut at the end of the page, and
    whenever the text does not fit with a byte to spare the page counts as full,
    which makes the kernel start again with a bigger one.  The handle is freed and
    an error of the node's handler fills the page and is returned. *)
Theorem text_show_complete_or_overflow m n f rc pieces :
  seq_ok m → sf_private m = PNode n → ni_type n = KFIO_INFO_TEXT → ni_handler n = Some f → prints (texts f) rc pieces →
  let total := Z.of_nat (length (concat pieces)) in
  total < 2 ^ 31 →
  ∃ m', kfio_info_linux_text_show texts true m = Ok (rc, m') ∧ seq_ok m' ∧ sf_private m' = PNode n
    ∧ sf_handles m' = sf_handles m ∧ sf_size m' = sf_size m
    ∧ (0 <= rc → sf_count m' = Z.min (sf_size m) (sf_count m + total) ∧ shown m' = take (Z.to_nat (sf_size m)) (shown m ++ concat pieces))
    ∧ (rc < 0 → sf_count m' = sf_size m')
    ∧ (0 <= rc → sf_count m' < sf_size m' → shown m' = shown m ++ concat pieces).
Proof.
  intros K Pv T Hh Pr total Tb. change (2 ^ 31) with 2147483648 in Tb. pose proof K as [Cb Sb]. change (2 ^ 31) with 2147483648 in Sb.
  unfold kfio_info_linux_text_show, kfio_fseq_private. rewrite stateful_bind_assoc.
  erewrite stateful_bind_ok; [|done]. cbv beta. erewrite stateful_bind_ok; [|done]. cbv beta. rewrite Pv.
  destruct (get_buf_run m K) as (off & Eg & S1 & S2 & Pg). erewrite stateful_bind_ok; [|exact Eg]. cbv beta iota.
  erewrite stateful_bind_ok; [|done]. cbv beta. rewrite Pg. erewrite stateful_bind_ok; [|done]. cbv beta iota.
  unfold kfio_info_generic_text_handler. rewrite T, Z.eqb_refl, Hh, Pr.
  set (dbh := kfio_info_reset_data_handle _ _ _). set (m1 := add_handles 1 m).
  assert (seq_ok m1) as K1 by (split; [exact Cb|exact Sb]).
  pose proof (new_handle m None K) as Ho.
  destruct (handle_prints m1 (sf_count m) dbh pieces K1 Ho) as (dbh' & m' & Ew & Est & Ho' & C' & Pv' & Hn' & Sz' & Cu & Tt & Sh);
    [cbn; change (2 ^ 62) with 4611686018427387904; lia|].
  rewrite Ew. erewrite stateful_bind_ok; [|done]. cbv beta iota.
  assert (store_page off dbh' m1 = Ok (tt, m')) as Es.
  { rewrite <-Est. apply (store_none m1); [done| |done|done]. pose proof Ho' as [K' _ Hs' _].
    rewrite (do_buffer _ K'). lia. }
  erewrite stateful_bind_ok; [|exact Es]. cbv beta.
  change (sf_size m1) with (sf_size m) in *. change (sf_count m1) with (sf_count m) in *.
  change (db_cur_size dbh) with 0 in *. change (db_max_size dbh) with (sf_size m - sf_count m) in *. change (db_tot_size dbh) with 0 in *.
  rewrite Z.add_0_r in Sh. specialize (Sh (shown m) eq_refl). fold total in Cu, Tt.
  destruct (Z.ltb_spec rc 0) as [N|N].
  - erewrite stateful_bind_ok; [|done]. cbv beta. erewrite stateful_bind_ok; [|done]. cbv beta.
    rewrite (proj2 (Z.ltb_lt _ _) N). eexists. split; [done|]. unfold sf_size in *. split; [split; cbn; unfold sf_size; cbn; [lia|lia]|].
    split; [cbn; by rewrite Pv'|]. split; [cbn; rewrite Hn'; cbn; lia|]. split; [exact Sz'|]. split; [lia|]. split; [done|lia].
  - unfold kfio_info_data_size_valid. erewrite stateful_bind_ok; [|done]. cbv beta. erewrite stateful_bind_ok; [|done]. cbv beta.
    rewrite small_s32 by (change (2 ^ 31) with 2147483648; lia). rewrite (proj2 (Z.ltb_ge (db_cur_size dbh') 0)) by lia.
    eexists. split; [done|]. rewrite C'.
    assert (sf_count m + db_cur_size dbh' = Z.min (sf_size m) (sf_count m + total)) as Ec by lia.
    split; [split; [change (0 <= sf_count m + db_cur_size dbh' <= sf_size m'); lia|change (sf_size m' < 2 ^ 31); change (2 ^ 31) with 2147483648; lia]|].
    split; [cbn; by rewrite Pv'|]. split; [cbn; rewrite Hn'; cbn; lia|]. split; [exact Sz'|].
    split; [intros _; split; [exact Ec|exact Sh]|]. split; [lia|]. intros _ Lt. etransitivity; [exact Sh|].
    change (sf_count m + db_cur_size dbh' < sf_size m') in Lt. apply take_ge. rewrite length_app. unfold shown. rewrite length_take.
    unfold total, sf_size in *. lia.
Qed.

(** ** Sequences *)

Lemma ops_run n f m : ni_handler n = Some f → (lift (node_ops seqs n) : Q _) m = Ok (seqs f, m).
Proof. intros E. unfold node_ops. by rewrite E. Qed.

(** The file while a sequence is shown. *)
Definition showing (m : seq_file) (o : Z) (dbh : kfio_info_data) : Prop :=
  (∃ off, sf_private m = PData off dbh ∧ (∀ x, off = Some x → x = o) ∧ (off = None → o = sf_size m))
  ∧ handle_on m o dbh ∧ sf_count m = o + db_cur_size dbh ∧ seq_ok m.

Lemma show_run m off dbh n f c pieces :
  showing m off dbh → ni_handler n = Some f → prints (seq_show (seqs f) (ni_data n) c) 0 pieces →
  db_tot_size dbh + Z.of_nat (length (concat pieces)) < 2 ^ 62 →
  ∃ dbh' m', kfio_info_linux_seq_show seqs n c m = Ok (0, m') ∧ showing m' off dbh' ∧ sf_handles m' = sf_handles m
    ∧ sf_size m' = sf_size m ∧ sf_count m' = Z.min (sf_size m) (sf_count m + Z.of_nat (length (concat pieces)))
    ∧ db_tot_size dbh' = db_tot_size dbh + Z.of_nat (length (concat pieces))
    ∧ shown m' = take (Z.to_nat (sf_size m)) (shown m ++ concat pieces).
Proof.
  intros ((offp & Pv & S1 & S2) & Ho & Ct & K) Hh Pr Tb. pose proof K as [Cb Sb]. change (2 ^ 31) with 2147483648 in Sb.
  destruct (handle_prints m off dbh pieces K Ho Tb) as (dbh' & m' & Ew & Est & Ho' & C' & Pv' & Hn' & Sz' & Cu & Tt & Sh).
  unfold kfio_info_linux_seq_show, the_handle, kfio_fseq_private. rewrite !stateful_bind_assoc.
  erewrite stateful_bind_ok; [|done]. cbv beta.
  erewrite stateful_bind_ok; [|done]. cbv beta. rewrite Pv. erewrite stateful_bind_ok; [|done]. cbv beta iota.
  erewrite stateful_bind_ok; [|by apply ops_run]. cbv beta. rewrite Pr, Ew. erewrite stateful_bind_ok; [|done]. cbv beta iota.
  assert (store_page offp dbh' m = Ok (tt, m')) as Es.
  { rewrite <-Est. pose proof Ho as [_ O1 O2 _]. pose proof Ho' as [K' _ O3 _]. pose proof (do_cur _ K'). pose proof (do_buffer _ K').
    apply store_none; try done; lia. }
  erewrite stateful_bind_ok; [|exact Es]. cbv beta. erewrite stateful_bind_ok; [|done]. cbv beta.
  unfold kfio_info_data_size_valid. pose proof (do_cur _ (ho_ok _ _ _ Ho)) as Cd. pose proof (ho_size _ _ _ Ho) as Hs. pose proof (ho_off _ _ _ Ho) as Hof.
  assert (u64 (db_cur_size dbh' - db_cur_size dbh) = db_cur_size dbh' - db_cur_size dbh) as ->.
  { apply wrapu_small. unfold in_u. change (2 ^ 64) with 18446744073709551616. lia. }
  rewrite small_s32 by (change (2 ^ 31) with 2147483648; lia).
  erewrite stateful_bind_ok; [|change (0 <? 0) with false; done]. cbv beta.
  rewrite (proj2 (Z.ltb_ge _ 0)) by lia. cbn [sf_count set_private]. rewrite C'.
  exists dbh'. eexists. split; [done|]. specialize (Sh (shown m)). rewrite <-Ct in Sh. specialize (Sh eq_refl).
  assert (sf_count m + (db_cur_size dbh' - db_cur_size dbh) = off + db_cur_size dbh') as Ec by lia.
  rewrite Ec.
  split; [|split; [done|split; [exact Sz'|split; [cbn; lia|split; [done|exact Sh]]]]].
  split; [exists offp; split; [done|split; [done|]]; intros N; rewrite (S2 N); by rewrite <-Sz'|].
  split; [destruct Ho'; split; done|]. split; [done|]. split; [|change (sf_size m' < 2 ^ 31); change (2 ^ 31) with 2147483648; lia].
  change (0 <= off + db_cur_size dbh' <= sf_size m'). lia.
Qed.

Lemma shows_run m off dbh n f recs cookies :
  showing m off dbh → ni_handler n = Some f → (∀ c, prints (seq_show (seqs f) (ni_data n) c) 0 (recs c)) →
  let out := concat (concat (recs <$> cookies)) in
  db_tot_size dbh + Z.of_nat (length out) < 2 ^ 62 →
  ∃ dbh' m', shows seqs n cookies m = Ok (tt, m') ∧ showing m' off dbh' ∧ sf_handles m' = sf_handles m
    ∧ sf_size m' = sf_size m ∧ sf_count m' = Z.min (sf_size m) (sf_count m + Z.of_nat (length out))
    ∧ shown m' = take (Z.to_nat (sf_size m)) (shown m ++ out).
Proof.
  intros Sw Hh Pr. revert m dbh Sw. induction cookies as [|c cs IH]; intros m dbh Sw out Tb; cbn [shows].
  - pose proof Sw as (_ & _ & _ & [C S]). exists dbh, m. split; [done|]. split; [done|]. split; [done|]. split; [done|].
    subst out. cbn. split; [lia|]. rewrite app_nil_r. symmetry. apply take_ge. unfold shown. rewrite length_take. lia.
  - assert (out = concat (recs c) ++ concat (concat (recs <$> cs))) as Eo by (unfold out; cbn; by rewrite concat_app).
    rewrite Eo, length_app in Tb.
    destruct (show_run m off dbh n f c (recs c) Sw Hh (Pr c)) as (d1 & m1 & E1 & Sw1 & Hn1 & Sz1 & C1 & T1 & Sh1); [lia|].
    erewrite stateful_bind_ok; [|exact E1]. cbv beta.
    destruct (IH m1 d1 Sw1 ltac:(lia)) as (d2 & m2 & E2 & Sw2 & Hn2 & Sz2 & C2 & Sh2).
    exists d2, m2. split; [done|]. split; [done|]. split; [by rewrite Hn2|]. split; [by rewrite Sz2|].
    split; [rewrite C2, C1, Sz1, Eo, length_app; lia|]. rewrite Sh2, Sh1, Sz1, Eo, (assoc_L (++)).
    apply take_take_app.
Qed.
Lemma start_run m n f self pos cookie :
  seq_ok m → sf_private m = PNode n → ni_handler n = Some f → (∀ dbh, seq_init (seqs f) (ni_data n) pos dbh = Ok (cookie, dbh)) →
  ∃ dbh m', kfio_info_linux_seq_start seqs true self pos m = Ok (cookie, m') ∧ showing m' (sf_count m) dbh
    ∧ sf_handles m' = sf_handles m + 1 ∧ sf_size m' = sf_size m ∧ sf_count m' = sf_count m ∧ shown m' = shown m
    ∧ db_tot_size dbh = 0.
Proof.
  intros K Pv Hh In. pose proof K as [Cb Sb]. unfold kfio_info_linux_seq_start, kfio_fseq_private. rewrite stateful_bind_assoc.
  erewrite stateful_bind_ok; [|done]. cbv beta. erewrite stateful_bind_ok; [|done]. cbv beta. rewrite Pv.
  destruct (get_buf_run m K) as (off & Eg & S1 & S2 & Pg). erewrite stateful_bind_ok; [|exact Eg]. cbv beta iota.
  erewrite stateful_bind_ok; [|done]. cbv beta. rewrite Pg. erewrite stateful_bind_ok; [|done]. cbv beta iota.
  set (dbh := kfio_info_reset_data_handle _ _ _). set (m1 := add_handles 1 m).
  assert (seq_ok m1) as K1 by (split; [exact Cb|exact Sb]). pose proof (new_handle m self K) as Ho.
  destruct (handle_prints m1 (sf_count m) dbh [] K1 Ho) as (dbh' & m' & [= <-] & Est & Ho' & C' & Pv' & Hn' & Sz' & _ & _ & Sh); [done|].
  erewrite stateful_bind_ok; [|by apply ops_run]. cbv beta. rewrite In. erewrite stateful_bind_ok; [|done]. cbv beta iota.
  assert (store_page off dbh m1 = Ok (tt, m')) as Es.
  { rewrite <-Est. apply (store_none m1); [done| |done|done]. pose proof Ho' as [K' _ Hs' _].
    rewrite (do_buffer _ K'). change (sf_count m1) with (sf_count m). change (sf_size m1) with (sf_size m) in *. lia. }
  erewrite stateful_bind_ok; [|exact Es]. cbv beta. erewrite stateful_bind_ok; [|done]. cbv beta.
  exists dbh. eexists. split; [done|]. change (db_cur_size dbh) with 0 in Sh. rewrite Z.add_0_r in Sh. specialize (Sh (shown m) eq_refl).
  change (sf_size m1) with (sf_size m) in *. change (sf_count m1) with (sf_count m) in *.
  assert (shown m' = shown m) as Em.
  { unfold shown at 1. rewrite C'. etransitivity; [exact Sh|]. cbn. rewrite app_nil_r. apply take_ge. unfold shown, sf_size in *. rewrite length_take. lia. }
  split; [|split; [exact Hn'|split; [exact Sz'|split; [exact C'|split; [exact Em|done]]]]].
  split; [exists off; split; [done|split; [done|]]; intros N; rewrite (S2 N); by rewrite <-Sz'|].
  split; [destruct Ho'; split; done|]. split; [change (sf_count m' = sf_count m + 0); lia|].
  split; [change (0 <= sf_count m' <= sf_size m'); lia|change (sf_size m' < 2 ^ 31); lia].
Qed.

(** A pass over a sequence delivers the records that were shown, end to end
    behind what the page held, cut at the end of the page; if anything was cut the
    page counts as full, which makes the kernel start again with a bigger one.
    After the pass the file's private pointer is the node again and the handle is
    freed. *)
Theorem seq_pass_appends m n f self pos cookie recs cookies :
  seq_ok m → sf_private m = PNode n → ni_handler n = Some f →
  (∀ dbh, seq_init (seqs f) (ni_data n) pos dbh = Ok (cookie, dbh)) →
  (∀ c, prints (seq_show (seqs f) (ni_data n) c) 0 (recs c)) →
  let out := concat (concat (recs <$> cookies)) in
  Z.of_nat (length out) < 2 ^ 62 →
  ∃ m', seq_pass seqs n self pos cookies m = Ok (tt, m') ∧ seq_ok m' ∧ sf_private m' = PNode n ∧ sf_handles m' = sf_handles m
    ∧ sf_size m' = sf_size m
    ∧ shown m' = take (Z.to_nat (sf_size m)) (shown m ++ out)
    ∧ (sf_count m' < sf_size m' → shown m' = shown m ++ out).
Proof.
  intros K Pv Hh In Pr out Tb. unfold seq_pass.
  destruct (start_run m n f self pos cookie K Pv Hh In) as (d1 & m1 & E1 & Sw1 & H1 & Z1 & C1 & Sh1 & T1).
  erewrite stateful_bind_ok; [|exact E1]. cbv beta.
  destruct (shows_run m1 (sf_count m) d1 n f recs cookies Sw1 Hh Pr) as (d2 & m2 & E2 & Sw2 & H2 & Z2 & C2 & Sh2);
    [fold out; lia|]. fold out in C2, Sh2.
  erewrite stateful_bind_ok; [|exact E2]. cbv beta. destruct Sw2 as ((offp & Pv2 & _) & _ & Ct2 & K2).
  unfold kfio_info_linux_seq_stop, the_handle, kfio_fseq_private. rewrite !stateful_bind_assoc.
  erewrite stateful_bind_ok; [|done]. cbv beta. erewrite stateful_bind_ok; [|done]. cbv beta. rewrite Pv2.
  erewrite stateful_bind_ok; [|done]. cbv beta. erewrite stateful_bind_ok; [|by apply ops_run]. cbv beta.
  eexists. split; [done|]. split; [destruct K2; split; done|]. split; [done|]. split; [cbn; lia|].
  split; [change (sf_size m2 = sf_size m); congruence|]. rewrite Z1, Sh1 in Sh2. split; [exact Sh2|]. intros Lt. change (sf_count m2 < sf_size m2) in Lt.
  etransitivity; [exact Sh2|]. apply take_ge. pose proof (so_count _ K) as Cb. rewrite length_app. unfold shown. rewrite length_take.
  unfold sf_size in *. lia.
Qed.

(** When the handle of a sequence cannot be allocated, the start gives NULL
    and leaves the node as the private pointer, and the stop that the kernel calls
    next takes the node for a handle. *)
Theorem seq_start_failure_confuses_stop m n self pos :
  seq_ok m → sf_private m = PNode n →
  kfio_info_linux_seq_start seqs false self pos m = Ok (None, m)
  ∧ (kfio_info_linux_seq_start seqs false self pos;; kfio_info_linux_seq_stop seqs n) m = Fault BadPointer.
Proof.
  intros K Pv. assert (kfio_info_linux_seq_start seqs false self pos m = Ok (None, m)) as E.
  { unfold kfio_info_linux_seq_start, kfio_fseq_private. rewrite stateful_bind_assoc.
    erewrite stateful_bind_ok; [|done]. cbv beta. erewrite stateful_bind_ok; [|done]. cbv beta. rewrite Pv.
    destruct (get_buf_run m K) as (off & Eg & _). erewrite stateful_bind_ok; [|exact Eg]. cbv beta iota. done. }
  split; [done|]. erewrite stateful_bind_ok; [|exact E]. cbv beta.
  unfold kfio_info_linux_seq_stop, the_handle, kfio_fseq_private, get, mbind, stateful_bind, mret, stateful_ret. by rewrite Pv.
Qed.
End spec.

(** ** Witnesses *)

Definition writes (rc : Z) (pieces : list (list Z)) : text_handler := λ dbh,
  match write_all dbh pieces with Ok d => Ok (rc, d) | Fault e => Fault e end.

(** A page of six bytes, two of them in use. *)
Definition small_page (n : kfio_info_node) : seq_file := mk_seq [48; 48; 0; 0; 0; 0] 2 (PNode n) 0.
Definition text_node : kfio_info_node := mk_node None 0 KFIO_INFO_TEXT 0 292 None (Some 1) [116].
Definition seq_node : kfio_info_node := mk_node None 0 KFIO_INFO_SEQFILE 0 292 None (Some 1) [115].

(** "abcde" does not fit: the page is full. *)
Lemma text_show_complete_or_overflow_witness :
  ∃ m', kfio_info_linux_text_show (λ _, writes 0 [[97; 98]; [99; 100; 101]]) true (small_page text_node) = Ok (0, m')
        ∧ shown m' = [48; 48; 97; 98; 99; 100] ∧ sf_count m' = 6.
Proof.
  destruct (text_show_complete_or_overflow (λ _, writes 0 [[97; 98]; [99; 100; 101]]) (small_page text_node) text_node 1 0
              [[97; 98]; [99; 100; 101]]) as (m' & E & _ & _ & _ & _ & R & _); try done.
  destruct R as [C S]; [lia|]. exists m'. split; [exact E|]. split; [exact S|exact C].
Defined.

Definition letters : kfio_info_seq_ops := {|
  seq_init _ pos dbh := Ok (Some pos, dbh);
  seq_next _ c pos := Ok (Some (c + 1), pos + 1);
  seq_show _ c dbh := writes 0 [[c]] dbh |}.

Lemma seq_pass_appends_witness :
  ∃ m', seq_pass (λ _, letters) seq_node None 0 [97; 98; 99] (small_page seq_node) = Ok (tt, m')
        ∧ shown m' = [48; 48; 97; 98; 99] ∧ sf_private m' = PNode seq_node ∧ sf_handles m' = 0.
Proof.
  destruct (seq_pass_appends (λ _, letters) (small_page seq_node) seq_node 1 None 0 (Some 0) (λ c, [[c]]) [97; 98; 99])
    as (m' & E & _ & P & Hn & _ & S & _); try done.
  exists m'. split; [exact E|]. split; [exact S|]. split; [exact P|exact Hn].
Defined.

Lemma seq_start_failure_confuses_stop_witness :
  (kfio_info_linux_seq_start (λ _, letters) false None 0;; kfio_info_linux_seq_stop (λ _, letters) seq_node) (small_page seq_node)
  = Fault BadPointer.
Proof. apply (seq_start_failure_confuses_stop (λ _, letters) (small_page seq_node) seq_node None 0); done. Defined.
