(* ===== verification/KFile.v ===== *)
(** * Files of the information tree from open to release: kfile.c, kinfo.c

    The tables of operations that the proc file system gets for each type of node,
    and what a reader who opens a file, reads it to its end and closes it obtains.
    The kernel's seq files are a parameter: they call the show handler on a page,
    and again on a page of twice the size when the page was filled. *)
From S2P Require Import Prelude Kinfo KinfoData KinfoSeq.

(** ** Tables of operations *)

(** The functions whose addresses are stored in tables. *)
Inductive handler :=
| Type_write | Type_read                                          (* kfio_info_os_type_* *)
| Seqf_open | Text_open | Text_release                            (* kfio_info_text_open, _seqf_open, _release *)
| Seq_read | Seq_lseek | Seq_release                              (* kfio_seq_... *)
| Seq_start | Seq_next | Seq_stop | Seq_show.                     (* kfio_info_linux_seq_* *)

#[global] Instance handler_eq_dec : EqDecision handler.
Proof. solve_decision. Defined.

(** [struct file_operations], or [struct proc_ops] in the same memory. *)
Record fusion_file_operations := mk_fops {
  fo_owner : bool;                       (* THIS_MODULE *)
  fo_llseek : option handler;
  fo_read : option handler;
  fo_write : option handler;
  fo_open : option handler;
  fo_release : option handler
}.
Record fusion_seq_operations := mk_seqops {
  so_start : option handler;
  so_stop : option handler;
  so_next : option handler;
  so_show : option handler
}.

(** Static storage. *)
Definition no_fops : fusion_file_operations := mk_fops false None None None None None.
Definition no_seqops : fusion_seq_operations := mk_seqops None None None None.

Definition kfio_set_file_ops_owner (f : fusion_file_operations) : fusion_file_operations :=
  mk_fops true (fo_llseek f) (fo_read f) (fo_write f) (fo_open f) (fo_release f).
Definition kfio_set_file_ops_llseek_handler (h : handler) (f : fusion_file_operations) : fusion_file_operations :=
  mk_fops (fo_owner f) (Some h) (fo_read f) (fo_write f) (fo_open f) (fo_release f).
Definition kfio_set_file_ops_read_handler (h : handler) (f : fusion_file_operations) : fusion_file_operations :=
  mk_fops (fo_owner f) (fo_llseek f) (Some h) (fo_write f) (fo_open f) (fo_release f).
Definition kfio_set_file_ops_write_handler (h : handler) (f : fusion_file_operations) : fusion_file_operations :=
  mk_fops (fo_owner f) (fo_llseek f) (fo_read f) (Some h) (fo_open f) (fo_release f).
Definition kfio_set_file_ops_open_handler (h : handler) (f : fusion_file_operations) : fusion_file_operations :=
  mk_fops (fo_owner f) (fo_llseek f) (fo_read f) (fo_write f) (Some h) (fo_release f).
Definition kfio_set_file_ops_release_handler (h : handler) (f : fusion_file_operations) : fusion_file_operations :=
  mk_fops (fo_owner f) (fo_llseek f) (fo_read f) (fo_write f) (fo_open f) (Some h).

Definition kfio_set_seq_ops_start_handler (h : handler) (s : fusion_seq_operations) : fusion_seq_operations :=
  mk_seqops (Some h) (so_stop s) (so_next s) (so_show s).
Definition kfio_set_seq_ops_stop_handler (h : handler) (s : fusion_seq_operations) : fusion_seq_operations :=
  mk_seqops (so_start s) (Some h) (so_next s) (so_show s).
Definition kfio_set_seq_ops_next_handler (h : handler) (s : fusion_seq_operations) : fusion_seq_operations :=
  mk_seqops (so_start s) (so_stop s) (Some h) (so_show s).
Definition kfio_set_seq_ops_show_handler (h : handler) (s : fusion_seq_operations) : fusion_seq_operations :=
  mk_seqops (so_start s) (so_stop s) (so_next s) (Some h).

(** The tables of kinfo.c. *)
Record kinfo_tables := mk_tables {
  kfio_info_type_fops : fusion_file_operations;
  kfio_info_text_fops : fusion_file_operations;
  kfio_info_seqf_fops : fusion_file_operations;
  kfio_info_linux_seq_ops : fusion_seq_operations
}.
Definition static_tables : kinfo_tables := mk_tables no_fops no_fops no_fops no_seqops.

(** [kfio_info_os_driver_init] without the directory; with [proc_ops]
    (KFIOC_X_PROC_CREATE_DATA_WANTS_PROC_OPS) the tables have no owner. *)
Definition init_tables (proc_ops : bool) (t : kinfo_tables) : kinfo_tables :=
  let owned f := if proc_ops then f else kfio_set_file_ops_owner f in
  let type_fops := kfio_set_file_ops_read_handler Type_read
    (kfio_set_file_ops_write_handler Type_write (owned (kfio_info_type_fops t))) in
  let seqf_fops := kfio_set_file_ops_release_handler Seq_release (kfio_set_file_ops_llseek_handler Seq_lseek
    (kfio_set_file_ops_read_handler Seq_read (kfio_set_file_ops_open_handler Seqf_open (owned (kfio_info_seqf_fops t))))) in
  let text_fops := kfio_set_file_ops_release_handler Text_release (kfio_set_file_ops_llseek_handler Seq_lseek
    (kfio_set_file_ops_read_handler Seq_read (kfio_set_file_ops_open_handler Text_open (owned (kfio_info_text_fops t))))) in
  let seq_ops := kfio_set_seq_ops_show_handler Seq_show (kfio_set_seq_ops_stop_handler Seq_stop
    (kfio_set_seq_ops_next_handler Seq_next (kfio_set_seq_ops_start_handler Seq_start (kfio_info_linux_seq_ops t)))) in
  mk_tables type_fops text_fops seqf_fops seq_ops.

(** The table of the entry that [kfio_info_os_create_node] creates; a directory
    is the kernel's. *)
Definition entry_fops (t : kinfo_tables) (node_type : Z) : option fusion_file_operations :=
  if (node_type =? KFIO_INFO_UINT32) || (node_type =? KFIO_INFO_UINT64) || (node_type =? KFIO_INFO_STRING)
     || (node_type =? KFIO_INFO_INT32) then Some (kfio_info_type_fops t)
  else if node_type =? KFIO_INFO_TEXT then Some (kfio_info_text_fops t)
  else if node_type =? KFIO_INFO_SEQFILE then Some (kfio_info_seqf_fops t)
  else None.

(** ** Open files *)

(** What a seq file prints with: one show function, or an iterator. *)
Inductive printer := Single | Iterator (ops : fusion_seq_operations).

(** A file of the entry of [pf_node]; [pf_seq] is its seq file with the private
    pointer, which [private_data] points to. *)
Record proc_file := mk_file {
  pf_node : kfio_info_node;
  pf_seq : option (printer * option private)
}.

Abbreviation FM := (stateful proc_file).

Definition kfio_inode_data : FM kfio_info_node := f ← get; mret (pf_node f).
Definition kfio_fs_private_data : FM (option (printer * option private)) := f ← get; mret (pf_seq f).
Definition set_seq (s : option (printer * option private)) : FM unit := modify (λ f, mk_file (pf_node f) s).
Definition set_file_private (pv : private) : FM unit :=
  s ← kfio_fs_private_data;
  match s with None => fail NullDeref | Some (p, _) => set_seq (Some (p, Some pv)) end.

(** [rc]: what the kernel's [single_open] and [seq_open] return; they make the seq
    file when it is 0. *)
Definition kfio_single_open (rc : Z) (data : private) : FM Z :=
  (if rc =? 0 then set_seq (Some (Single, Some data)) else mret tt);;
  mret rc.
Definition kfio_seq_open (rc : Z) (ops : fusion_seq_operations) : FM Z :=
  (if rc =? 0 then set_seq (Some (Iterator ops, None)) else mret tt);;
  mret rc.

(** [single_release] and [seq_release] free the seq file. *)
Definition kfio_single_release : FM Z := set_seq None;; mret 0.
Definition kfio_seq_release : FM Z := set_seq None;; mret 0.

Definition kfio_info_text_open (rc : Z) : FM Z := n ← kfio_inode_data; kfio_single_open rc (PNode n).
Definition kfio_info_text_release : FM Z := kfio_single_release.

Definition kfio_info_seqf_open (t : kinfo_tables) (rc : Z) : FM Z :=
  retval ← kfio_seq_open rc (kfio_info_linux_seq_ops t);
  (if retval =? 0 then n ← kfio_inode_data; set_file_private (PNode n) else mret tt);;
  mret retval.

(** ** Calls through a table *)

(** A function of another type in the slot would be called with wrong arguments;
    without a function the kernel opens and closes. *)
Definition call_open (t : kinfo_tables) (fops : fusion_file_operations) (rc : Z) : FM Z :=
  match fo_open fops with
  | None => mret 0
  | Some Text_open => kfio_info_text_open rc
  | Some Seqf_open => kfio_info_seqf_open t rc
  | Some _ => fail BadPointer
  end.
Definition call_release (fops : fusion_file_operations) : FM Z :=
  match fo_release fops with
  | None => mret 0
  | Some Text_release => kfio_info_text_release
  | Some Seq_release => kfio_seq_release
  | Some _ => fail BadPointer
  end.

(** A page the kernel has allocated: what is in it is not known. *)
Definition page_of (junk : list Z) (pv : private) : seq_file := mk_seq junk 0 pv 0.

(** [reads print pv size]: what reading to the end gives when the first page has
    [size] bytes; [print] prints to a page.  An error, or the text. *)
Class SeqKernel := {
  reads : (seq_file → outcome (Z * seq_file)) → private → Z → outcome (Z + list Z);
  max_page : Z
}.

(** The documented behaviour: what was printed is delivered when the page was not
    filled; a page that was filled is given up for one of twice the size. *)
Class SeqKernelLaws `(SeqKernel) : Prop := {
  reads_delivers print pv size text :
    0 < size <= max_page →
    (∀ junk, Z.of_nat (length junk) = size →
       ∃ m, print (page_of junk pv) = Ok (0, m) ∧ sf_count m < sf_size m ∧ shown m = text) →
    reads print pv size = Ok (inr text);
  reads_again print pv size :
    0 < size → 2 * size <= max_page →
    (∀ junk, Z.of_nat (length junk) = size →
       ∃ m, print (page_of junk pv) = Ok (0, m) ∧ sf_count m = sf_size m) →
    reads print pv size = reads print pv (2 * size)
}.

#[global] Instance fusion_seq_operations_eq_dec : EqDecision fusion_seq_operations.
Proof. solve_decision. Defined.

Section session.
Context `{SL : SeqKernelLaws} (texts : Z → text_handler) (seqs : Z → kfio_info_seq_ops).

(** The kernel's way through an iterator: NULL ends it. *)
Fixpoint iterate (fuel : nat) (n : kfio_info_node) (cookie : option Z) (pos : Z) : Q unit :=
  match cookie, fuel with
  | None, _ => mret tt
  | _, O => fail NoFuel
  | Some c, S fuel =>
      kfio_info_linux_seq_show seqs n c;;
      '(cookie, pos) ← kfio_info_linux_seq_next seqs n c pos;
      iterate fuel n cookie pos
  end.
Definition whole_pass (fuel : nat) (n : kfio_info_node) : Q Z :=
  cookie ← kfio_info_linux_seq_start seqs true None 0;
  iterate fuel n cookie 0;;
  kfio_info_linux_seq_stop seqs n;;
  mret 0.

(** Reading an open file to its end.  An iterator works with its own functions in
    its table, and has at most [fuel] records. *)
Definition call_read (fops : fusion_file_operations) (fuel : nat) (size : Z) : FM (Z + list Z) :=
  s ← kfio_fs_private_data;
  n ← kfio_inode_data;
  match fo_read fops, s with
  | Some Seq_read, Some (Single, Some pv) => lift (reads (kfio_info_linux_text_show texts true) pv size)
  | Some Seq_read, Some (Iterator ops, Some pv) =>
      if decide (ops = mk_seqops (Some Seq_start) (Some Seq_stop) (Some Seq_next) (Some Seq_show))
      then lift (reads (whole_pass fuel n) pv size)
      else fail BadPointer
  | _, _ => fail BadPointer
  end.

(** Open, read to the end, release. *)
Definition session (t : kinfo_tables) (open_rc : Z) (fuel : nat) (size : Z) : FM (Z + list Z) :=
  n ← kfio_inode_data;
  match entry_fops t (ni_type n) with
  | None => mret (inl (- EINVAL))
  | Some fops =>
      rc ← call_open t fops open_rc;
      if negb (rc =? 0) then mret (inl rc)
      else
        r ← call_read fops fuel size;
        _ ← call_release fops;
        mret r
  end.

(** ** What a reader gets *)

Lemma page_ok junk pv : Z.of_nat (length junk) < 2 ^ 31 → seq_ok (page_of junk pv).
Proof. intros L. unfold page_of. split; unfold sf_size; cbn; [lia|done]. Qed.

(** What was printed on a new page is counted. *)
Lemma shown_length m : seq_ok m → Z.of_nat (length (shown m)) = sf_count m.
Proof. intros [C S]. unfold shown, sf_size in *. rewrite length_take. lia. Qed.

(** The text of a node on a new page. *)
Lemma text_on_page n f pieces junk :
  ni_type n = KFIO_INFO_TEXT → ni_handler n = Some f → prints (texts f) 0 pieces →
  let text := concat pieces in
  Z.of_nat (length text) < 2 ^ 31 → Z.of_nat (length junk) < 2 ^ 31 →
  ∃ m, kfio_info_linux_text_show texts true (page_of junk (PNode n)) = Ok (0, m) ∧ sf_size m = Z.of_nat (length junk)
    ∧ sf_count m = Z.min (sf_size m) (Z.of_nat (length text)) ∧ (sf_count m < sf_size m → shown m = text).
Proof.
  intros T Hh Pr text Tb Jb.
  destruct (text_show_complete_or_overflow texts _ n f 0 pieces (page_ok junk (PNode n) Jb) eq_refl T Hh Pr Tb)
    as (m & E & _ & _ & _ & Sz & Sh & _ & C). destruct Sh as [Ct _]; [done|].
  exists m. split; [exact E|]. split; [exact Sz|]. split; [rewrite Sz; exact Ct|]. by apply C.
Qed.

(** The iterator goes through the cookies. *)
Inductive steps_through (ops : kfio_info_seq_ops) (data : Z) : option Z → Z → list Z → Prop :=
| st_end pos : steps_through ops data None pos []
| st_next c pos cookie pos' cookies :
    seq_next ops data c pos = Ok (cookie, pos') → steps_through ops data cookie pos' cookies →
    steps_through ops data (Some c) pos (c :: cookies).

Lemma iterate_run fuel n f recs cookie pos cookies m off dbh :
  showing m off dbh → ni_handler n = Some f → (∀ c, prints (seq_show (seqs f) (ni_data n) c) 0 (recs c)) →
  steps_through (seqs f) (ni_data n) cookie pos cookies → (length cookies <= fuel)%nat →
  db_tot_size dbh + Z.of_nat (length (concat (concat (recs <$> cookies)))) < 2 ^ 62 →
  iterate fuel n cookie pos m = shows seqs n cookies m.
Proof.
  intros Sw Hh Pr St. revert fuel m dbh Sw. induction St as [pos|c pos cookie pos' cookies E St IH]; intros fuel m dbh Sw Fu Tb.
  { by destruct fuel. }
  destruct fuel as [|fuel]; [cbn in Fu; lia|]. cbn [iterate shows].
  cbn [fmap list_fmap concat] in Tb. rewrite concat_app, length_app in Tb.
  destruct (show_run seqs m off dbh n f c (recs c) Sw Hh (Pr c)) as (d1 & m1 & E1 & Sw1 & _ & _ & _ & T1 & _); [lia|].
  assert (kfio_info_linux_seq_next seqs n c pos m1 = Ok ((cookie, pos'), m1)) as E2.
  { pose proof Sw1 as ((offp & Pv & _) & _).
    unfold kfio_info_linux_seq_next, the_handle, kfio_fseq_private. rewrite !stateful_bind_assoc.
    erewrite stateful_bind_ok; [|done]. cbv beta. erewrite stateful_bind_ok; [|done]. cbv beta. rewrite Pv.
    erewrite stateful_bind_ok; [|done]. cbv beta. erewrite stateful_bind_ok; [|by apply ops_run]. cbv beta. by rewrite E. }
  rewrite (stateful_bind_ok _ _ _ _ _ E1), (stateful_bind_ok _ _ _ _ _ E1), (stateful_bind_ok _ _ _ _ _ E2).
  apply (IH fuel m1 d1 Sw1); [cbn in Fu; lia|lia].
Qed.

(** A node with an iterator: its records, in order. *)
Record lists_records n (f : Z) (recs : Z → list (list Z)) (cookies : list Z) : Prop := {
  lr_handler : ni_handler n = Some f;
  lr_init : ∃ cookie, (∀ dbh, seq_init (seqs f) (ni_data n) 0 dbh = Ok (cookie, dbh))
              ∧ steps_through (seqs f) (ni_data n) cookie 0 cookies;
  lr_show c : prints (seq_show (seqs f) (ni_data n) c) 0 (recs c)
}.

Lemma records_on_page fuel n f recs cookies junk :
  lists_records n f recs cookies → (length cookies <= fuel)%nat →
  let text := concat (concat (recs <$> cookies)) in
  Z.of_nat (length text) < Z.of_nat (length junk) → Z.of_nat (length junk) < 2 ^ 31 →
  ∃ m, whole_pass fuel n (page_of junk (PNode n)) = Ok (0, m) ∧ sf_count m < sf_size m ∧ shown m = text.
Proof.
  intros [Hh (cookie & In & St) Pr] Fu text Tb Jb. change (2 ^ 31) with 2147483648 in Jb.
  pose proof (page_ok junk (PNode n) Jb) as K.
  destruct (seq_pass_appends seqs _ n f None 0 cookie recs cookies K eq_refl Hh In Pr) as (m & E & K' & _ & _ & Sz & Sh & _);
    [change (2 ^ 62) with 4611686018427387904; fold text; lia|].
  exists m. assert (shown m = text) as Es.
  { rewrite Sh. change (shown (page_of junk (PNode n))) with (@nil Z). apply take_ge. unfold page_of, sf_size. cbn. fold text. lia. }
  split; [|split; [|done]].
  - unfold whole_pass. unfold seq_pass in E.
    destruct (start_run seqs _ n f None 0 cookie K eq_refl Hh In) as (d1 & m1 & E1 & Sw1 & _ & _ & _ & _ & T1).
    erewrite stateful_bind_ok in E; [|exact E1]. erewrite stateful_bind_ok; [|exact E1]. cbv beta in E |- *.
    unfold mbind, stateful_bind in E |- *. rewrite (iterate_run fuel n f recs cookie 0 cookies m1 _ d1 Sw1 Hh Pr St Fu)
      by (change (2 ^ 62) with 4611686018427387904; fold text; lia).
    destruct (shows seqs n cookies m1) as [[[] m2]|]; [|done]. by rewrite E.
  - rewrite <-(shown_length m K'), Es, Sz. unfold page_of, sf_size. cbn. lia.
Qed.

(** ** Sessions *)

Definition closed n : proc_file := mk_file n None.
Definition tables (proc_ops : bool) : kinfo_tables := init_tables proc_ops static_tables.

(** C38: Whoever opens the file of a text node, reads it to its end and closes it
    gets the text of the node, whole and nothing else, however large it is, as
    long as some page the kernel tries has room for it: pages that are too small
    are noticed and given up.  The file is left as it was before. *)
Theorem text_file_delivers proc_ops n f pieces fuel size k :
  ni_type n = KFIO_INFO_TEXT → ni_handler n = Some f → prints (texts f) 0 pieces →
  let text := concat pieces in
  0 < size → Z.of_nat (length text) < size * 2 ^ Z.of_nat k <= max_page → max_page < 2 ^ 31 →
  session (tables proc_ops) 0 fuel size (closed n) = Ok (inr text, closed n).
Proof.
  intros T Hh Pr text S0 Lk Mp.
  assert (∀ size, 0 < size → Z.of_nat (length text) < size * 2 ^ Z.of_nat k <= max_page →
            reads (kfio_info_linux_text_show texts true) (PNode n) size = Ok (inr text)) as Rd.
  { clear size S0 Lk. induction k as [|k IH]; intros size S0 Lk.
    - change (2 ^ Z.of_nat 0) with 1 in Lk. apply reads_delivers; [lia|]. intros junk J.
      destruct (text_on_page n f pieces junk T Hh Pr) as (m & E & Sz & C & Sh); [fold text; lia|lia|].
      exists m. fold text in C. split; [exact E|]. assert (sf_count m < sf_size m) by lia. auto.
    - rewrite Nat2Z.inj_succ, Z.pow_succ_r in Lk by lia. assert (1 <= 2 ^ Z.of_nat k) by (pose proof (Z.pow_pos_nonneg 2 (Z.of_nat k)); lia).
      assert (2 * size <= max_page) by nia.
      destruct (decide (Z.of_nat (length text) < size)) as [Fits|Full].
      + apply reads_delivers; [lia|]. intros junk J.
        destruct (text_on_page n f pieces junk T Hh Pr) as (m & E & Sz & C & Sh); [fold text; lia|lia|].
        exists m. fold text in C. split; [exact E|]. assert (sf_count m < sf_size m) by lia. auto.
      + rewrite reads_again; [apply IH; nia|done|done|]. intros junk J.
        destruct (text_on_page n f pieces junk T Hh Pr) as (m & E & Sz & C & Sh); [fold text; lia|lia|].
        exists m. fold text in C. split; [exact E|lia]. }
  unfold session, closed. erewrite stateful_bind_ok; [|done]. cbv beta. cbn [pf_node]. rewrite T.
  change (entry_fops (tables proc_ops) KFIO_INFO_TEXT) with (Some (kfio_info_text_fops (tables proc_ops))). cbv iota.
  erewrite stateful_bind_ok; [|by destruct proc_ops]. cbv beta. cbn [negb Z.eqb].
  erewrite stateful_bind_ok.
  2:{ unfold call_read. erewrite stateful_bind_ok; [|done]. cbv beta. erewrite stateful_bind_ok; [|done]. cbv beta.
      destruct proc_ops; cbn; by rewrite (Rd size S0 Lk). }
  by destruct proc_ops.
Qed.

(** The same for a node with an iterator whose records fit the first page: they
    are read in the order of the iterator. *)
Theorem seq_file_delivers proc_ops n f recs cookies fuel size :
  ni_type n = KFIO_INFO_SEQFILE → lists_records n f recs cookies → (length cookies <= fuel)%nat →
  let text := concat (concat (recs <$> cookies)) in
  Z.of_nat (length text) < size <= max_page → max_page < 2 ^ 31 →
  session (tables proc_ops) 0 fuel size (closed n) = Ok (inr text, closed n).
Proof.
  intros T Lr Fu text Lt Mp.
  assert (reads (whole_pass fuel n) (PNode n) size = Ok (inr text)) as Rd.
  { apply reads_delivers; [lia|]. intros junk J. apply (records_on_page fuel n f recs cookies junk Lr Fu); [fold text; lia|lia]. }
  unfold session, closed. erewrite stateful_bind_ok; [|done]. cbv beta. cbn [pf_node]. rewrite T.
  change (entry_fops (tables proc_ops) KFIO_INFO_SEQFILE) with (Some (kfio_info_seqf_fops (tables proc_ops))). cbv iota.
  erewrite stateful_bind_ok; [|by destruct proc_ops]. cbv beta. cbn [negb Z.eqb].
  erewrite stateful_bind_ok.
  2:{ unfold call_read. erewrite stateful_bind_ok; [|done]. cbv beta. erewrite stateful_bind_ok; [|done]. cbv beta.
      destruct proc_ops; cbn; by rewrite Rd. }
  by destruct proc_ops.
Qed.

(** When the kernel has no memory for the seq file the error is returned and
    nothing is left open. *)
Theorem open_failure proc_ops n rc fuel size :
  ni_type n = KFIO_INFO_TEXT ∨ ni_type n = KFIO_INFO_SEQFILE → rc ≠ 0 →
  session (tables proc_ops) rc fuel size (closed n) = Ok (inl rc, closed n).
Proof.
  intros T Nz. assert ((rc =? 0) = false) as Z0 by lia.
  assert (∀ t fops, fo_open fops = Some Text_open ∨ fo_open fops = Some Seqf_open → call_open t fops rc (closed n) = Ok (rc, closed n)) as Op.
  { intros t fops [E|E]; unfold call_open, kfio_info_text_open, kfio_info_seqf_open, kfio_single_open, kfio_seq_open, mbind, stateful_bind;
      rewrite E, !Z0; cbn; by rewrite ?Z0. }
  unfold session. erewrite stateful_bind_ok; [|done]. cbv beta. cbn [closed pf_node].
  assert (∃ fops, entry_fops (tables proc_ops) (ni_type n) = Some fops ∧ (fo_open fops = Some Text_open ∨ fo_open fops = Some Seqf_open))
    as (fops & -> & Fo) by (destruct T as [-> | ->], proc_ops; eexists; split; auto).
  erewrite stateful_bind_ok; [|by apply Op]. cbv beta. by rewrite Z0.
Qed.

(** Values are read and written without a seq file; nothing but a table of the
    right type is ever called. *)
Theorem value_entries proc_ops type :
  fixed_size type 0 ≠ None ↔ entry_fops (tables proc_ops) type = Some (mk_fops (negb proc_ops) None (Some Type_read) (Some Type_write) None None).
Proof.
  unfold fixed_size, entry_fops, KFIO_INFO_INT32, KFIO_INFO_UINT32, KFIO_INFO_UINT64, KFIO_INFO_STRING, KFIO_INFO_TEXT, KFIO_INFO_SEQFILE.
  destruct proc_ops; repeat (case_match; simplify_eq); try (by split); try lia.
Qed.
End session.

(** ** An instance *)

(** A kernel whose pages have up to 64 bytes. *)
Fixpoint try_pages (fuel : nat) (print : seq_file → outcome (Z * seq_file)) (pv : private) (size : Z) : outcome (Z + list Z) :=
  match fuel with
  | O => Fault NoFuel
  | S fuel =>
      match print (page_of (replicate (Z.to_nat size) 0) pv) with
      | Fault e => Fault e
      | Ok (rc, m) =>
          if rc <? 0 then Ok (inl rc)
          else if sf_count m <? sf_size m then Ok (inr (shown m))
          else if 2 * size <=? 64 then try_pages fuel print pv (2 * size) else Ok (inl (- ENOMEM))
      end
  end.

Definition small_kernel : SeqKernel := {| reads := try_pages 65; max_page := 64 |}.

Lemma try_pages_fuel f1 f2 print pv size :
  0 < size → 64 < size + Z.of_nat f1 → 64 < size + Z.of_nat f2 → 0 < Z.of_nat f1 → 0 < Z.of_nat f2 →
  try_pages f1 print pv size = try_pages f2 print pv size.
Proof.
  revert f2 size. induction f1 as [|f1 IH]; intros [|f2] size S0 F1 F2 P1 P2; try lia. cbn [try_pages].
  repeat (case_match; try done). apply IH; lia.
Qed.

Lemma small_kernel_laws : SeqKernelLaws small_kernel.
Proof.
  assert (∀ size, 0 < size → Z.of_nat (length (replicate (Z.to_nat size) (0 : Z))) = size) as Len
    by (intros size S0; rewrite length_replicate; lia).
  split.
  - intros print pv size text [S0 _] Pr. destruct (Pr _ (Len size S0)) as (m & E & C & <-).
    change (reads print pv size) with (try_pages 65 print pv size). cbn [try_pages]. rewrite E. cbn.
    by rewrite (proj2 (Z.ltb_lt _ _) C).
  - intros print pv size S0 S1 Pr. destruct (Pr _ (Len size S0)) as (m & E & C).
    change (reads print pv size) with (try_pages 65 print pv size). change (reads print pv (2 * size)) with (try_pages 65 print pv (2 * size)).
    rewrite (try_pages_fuel 65 64 print pv (2 * size)) by lia.
    assert ((sf_count m <? sf_size m) = false) as E1 by lia.
    assert ((2 * size <=? 64) = true) as E2 by (cbn in S1; lia).
    remember 64%nat as k. cbn [try_pages]. by rewrite E, E1, E2.
Qed.

(** A text of five bytes; the first page has two. *)
Lemma text_file_delivers_witness :
  @session small_kernel (λ _, writes 0 [[97; 98]; [99; 100; 101]]) (λ _, letters) (tables true) 0 0 2 (closed text_node)
  = Ok (inr [97; 98; 99; 100; 101], closed text_node).
Proof.
  apply (@text_file_delivers small_kernel small_kernel_laws (λ _, writes 0 [[97; 98]; [99; 100; 101]]) (λ _, letters) true text_node 1
           [[97; 98]; [99; 100; 101]] 0 2 2); done.
Defined.

(** Three letters. *)
Definition three_letters : kfio_info_seq_ops := {|
  seq_init _ pos dbh := Ok (if pos <? 3 then Some (97 + pos) else None, dbh);
  seq_next _ c pos := Ok (if pos + 1 <? 3 then Some (c + 1) else None, pos + 1);
  seq_show _ c dbh := writes 0 [[c]] dbh |}.

Lemma seq_file_delivers_witness :
  @session small_kernel (λ _, writes 0 []) (λ _, three_letters) (tables false) 0 3 8 (closed seq_node)
  = Ok (inr [97; 98; 99], closed seq_node).
Proof.
  apply (@seq_file_delivers small_kernel small_kernel_laws (λ _, writes 0 []) (λ _, three_letters) false seq_node 1 (λ c, [[c]]) [97; 98; 99] 3 8);
    try done. split; [done| |done]. exists (Some 97). split; [done|]. by repeat econstructor.
Defined.

Example text_file_computes :
  @session small_kernel (λ _, writes 0 [[97; 98]; [99; 100; 101]]) (λ _, letters) (tables false) 0 0 2 (closed text_node)
  = Ok (inr [97; 98; 99; 100; 101], closed text_node).
Proof. vm_compute. reflexivity. Qed.
