(* ===== verification/KCpu.v ===== *)
(** * CPUs and NUMA nodes: kcpu.c

    The map of CPUs to read queues, and the topology record. *)
From S2P Require Import Prelude.

(** What the kernel says of the machine.  [heap_behind k] is the word [k] places
    from the start of an array whose end is before it. *)
Class CpuEnv := {
  cpu_to_node : Z → Z;
  cpu_online : Z → bool;
  possible_cpus : list Z;
  num_possible_nodes : Z;
  num_online_nodes : Z;
  num_online_cpus : Z;
  heap_behind : Z → Z
}.

(** ** Arrays *)

Definition aget (a : list Z) (i : Z) : outcome Z :=
  if 0 <=? i then of_option OutOfBounds (a !! Z.to_nat i) else Fault OutOfBounds.
Definition aset (a : list Z) (i v : Z) : outcome (list Z) :=
  if (0 <=? i) && (i <? Z.of_nat (length a)) then Ok (<[Z.to_nat i := v]> a) else Fault OutOfBounds.

Lemma aget_ok (a : list Z) i v : 0 <= i → a !! Z.to_nat i = Some v → aget a i = Ok v.
Proof. intros I E. unfold aget. by rewrite (proj2 (Z.leb_le _ _) I), E. Qed.

Lemma aset_ok (a : list Z) i v : 0 <= i < Z.of_nat (length a) → aset a i v = Ok (<[Z.to_nat i := v]> a).
Proof. intros I. unfold aset. by rewrite (proj2 (Z.leb_le 0 i)), (proj2 (Z.ltb_lt i _)) by lia. Qed.

(** ** Topology *)

Record kfio_cpu_topology := mk_topology {
  numnodes : Z;
  numcpus : Z;
  topology_map : option (list Z)       (* [cpu_to_node]; [None] is NULL *)
}.

Definition IODRIVE_MAX_COMP_QUEUES : Z := 16.

Section cpu.
Context `{CpuEnv}.

Definition kfio_max_cpus : Z := Z.of_nat (length possible_cpus).
Definition kfio_cpu_online (cpu : Z) : bool := cpu_online cpu.
Definition kfio_cpu_to_node (cpu : Z) : Z := cpu_to_node cpu.

(** [for_each_possible_cpu]: the numbers of the CPUs need not be consecutive. *)
Fixpoint fill_loop (cpus : list Z) (a : list Z) : outcome (list Z) :=
  match cpus with
  | [] => Ok a
  | cpu :: cpus => a ← aset a cpu (cpu_to_node cpu); fill_loop cpus a
  end.

(** [mem]: what [kfio_malloc] returns for so many words. *)
Definition kfio_fill_cpu_topology (mem : nat → option (list Z)) : outcome (Z * kfio_cpu_topology) :=
  match mem (Z.to_nat kfio_max_cpus) with
  | None => Ok (- ENOMEM, mk_topology num_possible_nodes kfio_max_cpus None)
  | Some a => a ← fill_loop possible_cpus a; Ok (0, mk_topology num_possible_nodes kfio_max_cpus (Some a))
  end.

(** ** Read queues *)

(** [SET_MAP]: the address of a queue. *)
Definition queue_at (read_queues size ix : Z) : Z := u64 (read_queues + size * ix).

(** [node_hist[cpu_to_node(cpu)]++] *)
Fixpoint count_nodes (cpus : list Z) (hist : list Z) : outcome (list Z) :=
  match cpus with
  | [] => Ok hist
  | cpu :: cpus =>
      n ← aget hist (cpu_to_node cpu);
      hist ← aset hist (cpu_to_node cpu) (u32 (n + 1));
      count_nodes cpus hist
  end.

(** Reading [node_hist], possibly behind its end. *)
Definition peek (hist : list Z) (i : Z) : Z := default (heap_behind i) (hist !! Z.to_nat i).

(** [while (node_hist[++node_counter] == 0 && node_counter < num_nodes)] *)
Fixpoint next_used (fuel : nat) (hist : list Z) (counter : Z) : outcome Z :=
  match fuel with
  | O => Fault NoFuel
  | S fuel =>
      let counter := u32 (counter + 1) in
      if (peek hist counter =? 0) && (counter <? num_online_nodes) then next_used fuel hist counter else Ok counter
  end.

Fixpoint map_nodes (ndxs : list Z) (hist map : list Z) (counter : Z) : outcome (list Z) :=
  match ndxs with
  | [] => Ok map
  | ndx :: ndxs =>
      n ← aget hist ndx;
      if negb (n =? 0) then
        map ← aset map ndx counter;
        counter ← next_used (Z.to_nat num_online_nodes + 1) hist counter;
        map_nodes ndxs hist map counter
      else map_nodes ndxs hist map counter
  end.

(** One queue for each CPU. *)
Fixpoint spread (queue : Z → Z) (count : Z) (cpus : list Z) (ix used : Z) (a : list Z) : outcome (Z * list Z) :=
  match cpus with
  | [] => Ok (used, a)
  | cpu :: cpus =>
      a ← aset a cpu (queue ix);
      if cpu_online cpu then spread queue count cpus (u32 (ix + 1) mod count) (u32 (used + 1)) a
      else spread queue count cpus ix used a
  end.

(** Grouping nodes until there are no more clusters than queues; as many nodes in
    a cluster as there are is enough. *)
Fixpoint group_nodes (fuel : nat) (count nodes_per_cluster cluster_count : Z) : outcome (Z * Z) :=
  match fuel with
  | O => Fault NoFuel
  | S fuel =>
      if cluster_count >? count then
        let nodes_per_cluster := u32 (nodes_per_cluster + 1) in
        group_nodes fuel count nodes_per_cluster
          (u32 (u32 (num_online_nodes + nodes_per_cluster) - 1) / nodes_per_cluster)
      else Ok (nodes_per_cluster, cluster_count)
  end.

Fixpoint cluster_cpus (queue : Z → Z) (map : list Z) (nodes_per_cluster queues_per_cluster : Z)
    (cpus : list Z) (in_cluster a : list Z) : outcome (list Z) :=
  match cpus with
  | [] => Ok a
  | cpu :: cpus =>
      m ← aget map (cpu_to_node cpu);
      let cluster := m / nodes_per_cluster in
      n ← aget in_cluster cluster;
      a ← aset a cpu (queue (u32 (u32 (cluster * queues_per_cluster) + n mod queues_per_cluster)));
      in_cluster ← (if cpu_online cpu then aset in_cluster cluster (u32 (n + 1)) else Ok in_cluster);
      cluster_cpus queue map nodes_per_cluster queues_per_cluster cpus in_cluster a
  end.

Definition map_clusters (queue : Z → Z) (count numcpus : Z) (map a : list Z) : outcome (Z * list Z) :=
  '(nodes_per_cluster, cluster_count) ←
    (if count <? num_online_nodes then group_nodes (Z.to_nat num_online_nodes + 1) count 1 num_online_nodes
     else Ok (1, num_online_nodes));
  let queues_per_cluster := if count <? num_online_nodes then 1 else count / num_online_nodes in
  a ← cluster_cpus queue map nodes_per_cluster queues_per_cluster (seqZ 0 numcpus)
        (replicate (Z.to_nat IODRIVE_MAX_COMP_QUEUES) 0) a;
  Ok (s32 (u32 (cluster_count * queues_per_cluster)), a).

(** [allocated]: whether [kfio_malloc] succeeds for the two arrays; they are
    cleared, and not freed. *)
Definition kfio_map_cpus_to_read_queues (allocated : bool * bool) (read_queues count size : Z)
    (top : kfio_cpu_topology) (a : list Z) : outcome (Z * list Z) :=
  let zeros := replicate (Z.to_nat num_possible_nodes) 0 in
  _ ← oassert NullDeref (fst allocated);
  hist ← count_nodes (seqZ 0 (numcpus top)) zeros;
  _ ← oassert NullDeref (snd allocated);
  map ← map_nodes (seqZ 0 num_possible_nodes) hist zeros 0;
  if count >=? num_online_cpus then
    '(used, a) ← spread (queue_at read_queues size) count (seqZ 0 (numcpus top)) 0 0 a;
    Ok (s32 (if used <? count then used else count), a)
  else map_clusters (queue_at read_queues size) count (numcpus top) map a.

End cpu.
