(* ===== verification/KCpuSpec.v ===== *)
(** * The map of CPUs to read queues: what it guarantees

    [machine_ok] states what the map needs of the kernel's numbers.  With it, each
    online CPU has a queue of its own when there are enough ([enough_queues]), and
    one that it shares within its cluster of nodes when there are not
    ([fewer_queues]).  The machines at the end of the file show what becomes of the
    map without it. *)
From S2P Require Import Prelude KCpu.

Section spec.
Context `{CpuEnv}.
Implicit Types (a hist map : list Z) (top : kfio_cpu_topology).

(** How many of the CPUs below [cpu] have a property. *)
Definition before (p : Z → bool) (cpu : Z) : Z := zsum (λ c, Z.b2z (p c)) (seqZ 0 cpu).

Lemma before_S p cpu : 0 <= cpu → before p (cpu + 1) = before p cpu + Z.b2z (p cpu).
Proof.
  intros C. unfold before. rewrite seqZ_app by lia. rewrite zsum_app. f_equal.
  rewrite (seqZ_cons (0 + cpu) 1), seqZ_nil, Z.add_0_l by lia. cbn. by destruct (p cpu).
Qed.

Lemma before_range p cpu : 0 <= cpu → 0 <= before p cpu <= cpu.
Proof.
  intros C. rewrite <-(Z2Nat.id cpu) by done. induction (Z.to_nat cpu) as [|n IH]; [done|].
  rewrite Nat2Z.inj_succ. unfold Z.succ. rewrite before_S by lia. destruct (p (Z.of_nat n)); cbn; lia.
Qed.

Lemma before_mono p c1 c2 : 0 <= c1 <= c2 → before p c1 <= before p c2.
Proof.
  intros C. replace c2 with (c1 + (c2 - c1)) by lia. unfold before at 2. rewrite seqZ_app by lia. rewrite zsum_app.
  pose proof (zsum_nonneg (λ c, Z.b2z (p c)) (seqZ (0 + c1) (c2 - c1))) as N. unfold before.
  assert (∀ c, 0 <= Z.b2z (p c)) as P by (intros c; destruct (p c); cbn; lia). specialize (N P). lia.
Qed.

(** The kernel's numbers are consistent.  Nodes may have no CPUs, and node numbers may
    be missing, as long as the node of every CPU is below the number of online nodes,
    or, when no CPU is on node 0, every node with CPUs before it is. *)
Record machine_ok top : Prop := {
  mo_nodes : 0 < num_online_nodes <= num_possible_nodes;
  mo_small : num_possible_nodes < 2 ^ 31 ∧ 0 <= numcpus top < 2 ^ 31;
  mo_node cpu : 0 <= cpu < numcpus top → 0 <= cpu_to_node cpu < num_possible_nodes;
  mo_online cpu : 0 <= cpu < numcpus top →
    cpu_to_node cpu < num_online_nodes
    ∨ (∀ c, 0 <= c < numcpus top → cpu_to_node c ≠ 0)
      ∧ ∀ c, 0 <= c < numcpus top → cpu_to_node c < cpu_to_node cpu → cpu_to_node c < num_online_nodes
}.

(** A node that has CPUs. *)
Definition used_node top k : Prop := ∃ cpu, 0 <= cpu < numcpus top ∧ cpu_to_node cpu = k.

Lemma used_node_elem top k : k ∈ (cpu_to_node <$> seqZ 0 (numcpus top)) ↔ used_node top k.
Proof.
  rewrite list_elem_of_fmap. unfold used_node. setoid_rewrite elem_of_seqZ.
  split; intros (cpu & H1 & H2); exists cpu; (split; [lia || done|lia || done]).
Qed.

#[export] Instance used_node_dec top k : Decision (used_node top k) :=
  match decide (k ∈ (cpu_to_node <$> seqZ 0 (numcpus top))) with
  | left H => left (proj1 (used_node_elem top k) H)
  | right H => right (λ H', H (proj2 (used_node_elem top k) H'))
  end.

(** The greatest node with CPUs before node [k], 0 if there is none. *)
Definition node_before top k : Z := foldr Z.max 0 (filter (λ i, i < k) (cpu_to_node <$> seqZ 0 (numcpus top))).

(** Where the node map puts a node with CPUs: where it is if node 0 has CPUs, else where
    the one before it is. *)
Definition node_place top k : Z := if decide (used_node top 0) then k else node_before top k.

Lemma foldr_max_spec l : 
  0 <= foldr Z.max 0 l ∧ (foldr Z.max 0 l = 0 ∨ foldr Z.max 0 l ∈ l) ∧ ∀ i, i ∈ l → i <= foldr Z.max 0 l.
Proof.
  induction l as [|x l (IH1 & IH2 & IH3)]; simpl; [split_and!; [done|by left|by intros i ?%not_elem_of_nil]|].
  split_and!; [lia| |].
  - destruct (Z.max_spec x (foldr Z.max 0 l)) as [[_ ->]|[_ ->]]; [|right; by left].
    destruct IH2 as [->|?]; [by left|right; by right].
  - intros i [->|Hi]%elem_of_cons; [lia|]. specialize (IH3 i Hi). lia.
Qed.

Lemma node_before_spec top k :
  0 <= node_before top k ∧ (node_before top k = 0 ∨ used_node top (node_before top k) ∧ node_before top k < k)
  ∧ ∀ i, used_node top i → i < k → i <= node_before top k.
Proof.
  assert (∀ i, i ∈ filter (λ i, i < k) (cpu_to_node <$> seqZ 0 (numcpus top)) ↔ used_node top i ∧ i < k) as Hin.
  { intros i. rewrite list_elem_of_filter, used_node_elem. tauto. }
  destruct (foldr_max_spec (filter (λ i, i < k) (cpu_to_node <$> seqZ 0 (numcpus top)))) as (H1 & H2 & H3).
  unfold node_before. split_and!; [done| |].
  - destruct H2 as [->|H2]; [by left|]. right. by apply Hin.
  - intros i Hu Hi. apply H3. by apply Hin.
Qed.

Lemma node_place_range top k :
  machine_ok top → used_node top k → 0 <= node_place top k <= k ∧ node_place top k < num_online_nodes.
Proof.
  intros M (cpu & C & <-). pose proof (mo_node _ M cpu C). pose proof (mo_nodes _ M). pose proof (mo_online _ M cpu C) as O.
  unfold node_place. case_decide as Hz.
  - destruct Hz as (c0 & C0 & E0). destruct O as [?|[Nz _]]; [lia|]. by destruct (Nz c0 C0).
  - destruct (node_before_spec top (cpu_to_node cpu)) as (Hp & [E|[(c & Cc & E) Hl]] & _); [lia|].
    split; [lia|]. rewrite <- E in *. destruct O as [?|[_ Nb]]; [lia|]. by apply Nb.
Qed.

(** The order of the nodes is kept. *)
Lemma node_place_mono top k1 k2 :
  machine_ok top → used_node top k1 → used_node top k2 → k1 < k2 → node_place top k1 < node_place top k2.
Proof.
  intros M U1 U2 L. unfold node_place. case_decide as Hz; [done|].
  destruct (node_before_spec top k2) as (_ & _ & H3). specialize (H3 k1 U1 L).
  destruct (node_before_spec top k1) as (H1 & [E|[_ H2]] & _); [|lia].
  destruct U1 as (c & C & <-). pose proof (mo_node _ M c C).
  assert (cpu_to_node c ≠ 0) by (intros E0; apply Hz; exists c; done). lia.
Qed.

Definition on_node (node : Z) (cpu : Z) : bool := cpu_to_node cpu =? node.

(** ** The histogram and the node map *)

Lemma count_nodes_run top n j hist :
  machine_ok top → 0 <= j → j + Z.of_nat n <= numcpus top → Z.of_nat (length hist) = num_possible_nodes →
  (∀ k, 0 <= k < num_possible_nodes → hist !! Z.to_nat k = Some (before (on_node k) j)) →
  ∃ hist', count_nodes (seqZ j (Z.of_nat n)) hist = Ok hist' ∧ length hist' = length hist
    ∧ ∀ k, 0 <= k < num_possible_nodes → hist' !! Z.to_nat k = Some (before (on_node k) (j + Z.of_nat n)).
Proof.
  intros M. pose proof (mo_small _ M) as [_ [_ B]]. change (2 ^ 31) with 2147483648 in B.
  revert j hist. induction n as [|n IH]; intros j hist J Jn L Hh.
  - exists hist. cbn. rewrite Z.add_0_r. auto.
  - rewrite seqZ_cons by lia. cbn [count_nodes]. pose proof (mo_node _ M j ltac:(lia)) as Nj. pose proof (mo_nodes _ M).
    rewrite (aget_ok hist (cpu_to_node j) _ (proj1 Nj) (Hh (cpu_to_node j) Nj)). cbn [mbind outcome_bind].
    rewrite aset_ok by lia. cbn [mbind outcome_bind]. pose proof (before_range (on_node (cpu_to_node j)) j J).
    rewrite wrapu_small by (unfold in_u; change (2 ^ 32) with 4294967296; lia).
    replace (Z.pred (Z.of_nat (S n))) with (Z.of_nat n) by lia. replace (j + Z.of_nat (S n)) with (Z.succ j + Z.of_nat n) by lia.
    destruct (IH (Z.succ j) (<[Z.to_nat (cpu_to_node j) := before (on_node (cpu_to_node j)) j + 1]> hist)) as (h' & E & L' & Hh');
      [lia|lia|by rewrite length_insert| |by exists h'; rewrite E, L', length_insert].
    intros k K. unfold Z.succ. rewrite before_S by done. destruct (decide (k = cpu_to_node j)) as [->|Nk].
    + rewrite list_lookup_insert_eq by lia. unfold on_node at 3. by rewrite Z.eqb_refl.
    + rewrite list_lookup_insert_ne by lia. rewrite Hh by done. unfold on_node at 3. rewrite (proj2 (Z.eqb_neq _ _)) by done.
      cbn. by rewrite Z.add_0_r.
Qed.

(** Which nodes have CPUs. *)
Lemma before_used top k :
  machine_ok top → before (on_node k) (numcpus top) ≠ 0 ↔ used_node top k.
Proof.
  intros M. pose proof (mo_small _ M) as [_ S]. split.
  - intros N. destruct (decide (used_node top k)) as [|G]; [done|]. exfalso. apply N. unfold before.
    rewrite (zsum_ext _ (λ _, 0)); [by induction (seqZ 0 (numcpus top))|].
    intros c C%elem_of_seqZ. unfold on_node. rewrite (proj2 (Z.eqb_neq _ _)); [done|].
    intros E. apply G. exists c. split; [lia|done].
  - intros (cpu & C & E).
    pose proof (before_mono (on_node k) (cpu + 1) (numcpus top) ltac:(lia)) as Mn. rewrite before_S in Mn by lia.
    pose proof (before_range (on_node k) cpu ltac:(lia)). unfold on_node at 2 in Mn. rewrite E, Z.eqb_refl in Mn. cbn in Mn. lia.
Qed.

(** The histogram that [map_nodes] is given. *)
Definition counted top hist : Prop :=
  Z.of_nat (length hist) = num_possible_nodes
  ∧ ∀ k, 0 <= k < num_possible_nodes → ∃ h, hist !! Z.to_nat k = Some h ∧ (h ≠ 0 ↔ used_node top k).

(** The counter stops at the next node with CPUs, at the latest at the number of
    online nodes. *)
Lemma next_used_run top hist c fuel :
  machine_ok top → counted top hist → 0 <= c < num_online_nodes → num_online_nodes - c <= Z.of_nat fuel →
  ∃ c', next_used fuel hist c = Ok c' ∧ c < c' <= num_online_nodes
    ∧ (∀ i, c < i < c' → ¬ used_node top i) ∧ (c' < num_online_nodes → used_node top c').
Proof.
  intros M [L Hh] C. pose proof (mo_nodes _ M). pose proof (mo_small _ M) as [S _]. change (2 ^ 31) with 2147483648 in S.
  revert c C. induction fuel as [|fuel IH]; intros c C F; [lia|]. cbn [next_used].
  rewrite wrapu_small by (unfold in_u; change (2 ^ 32) with 4294967296; lia).
  destruct (decide (c + 1 < num_online_nodes)) as [Lt|Ge].
  2:{ rewrite (proj2 (Z.ltb_ge _ _)), andb_false_r by lia. exists (c + 1). split_and!; [done|lia..]. }
  destruct (Hh (c + 1)) as (h & E & U); [lia|]. unfold peek. rewrite E. cbn [default]. unfold default, id.
  destruct (Z.eqb_spec h 0) as [->|Nz].
  - rewrite (proj2 (Z.ltb_lt _ _)) by lia. cbn [andb]. destruct (IH (c + 1)) as (c' & E' & R & Nu & Us); [lia|lia|].
    exists c'. split_and!; [done|lia|lia| |done]. intros i Hi. destruct (decide (i = c + 1)) as [->|]; [|apply Nu; lia].
    intros Ui. by apply U in Ui.
  - cbn [andb]. exists (c + 1). split_and!; [done|lia|lia|lia|]. intros _. by apply U.
Qed.

(** [c] is the place of the next node with CPUs, from node [j] on. *)
Definition next_place top j c : Prop :=
  ∀ k, j <= k → used_node top k → (∀ i, j <= i < k → ¬ used_node top i) → c = node_place top k.

Lemma next_place_first top : machine_ok top → next_place top 0 0.
Proof.
  intros M k K U N. unfold node_place. case_decide as Hz.
  - destruct (decide (k = 0)) as [->|Hk]; [done|]. exfalso. apply (N 0); [lia|done].
  - destruct (node_before_spec top k) as (H1 & [->|[Hu Hl]] & _); [done|]. exfalso. apply (N (node_before top k)); [lia|done].
Qed.

Lemma next_place_step top j c' :
  machine_ok top → 0 <= j → used_node top j →
  node_place top j < c' <= num_online_nodes → (∀ i, node_place top j < i < c' → ¬ used_node top i) →
  (c' < num_online_nodes → used_node top c') → next_place top (j + 1) c'.
Proof.
  intros M J U Rc Nu Us k K Uk N. pose proof (node_place_range top k M Uk) as [_ Pk].
  pose proof (node_place_range top j M U) as [Rj _]. unfold node_place in *. case_decide as Hz.
  - (* node 0 has CPUs *)
    destruct (Z.lt_trichotomy c' k) as [Lt|[E|Gt]]; [|done|].
    + exfalso. apply (N c'); [lia|]. apply Us. lia.
    + exfalso. apply (Nu k); [lia|done].
  - assert (node_before top k = j) as Ek.
    { destruct (node_before_spec top k) as (_ & Hs & H3). pose proof (H3 j U ltac:(lia)) as Hj.
      destruct Hs as [E|[Hu Hl]]; [lia|]. destruct (decide (node_before top k = j)) as [|Hne]; [done|].
      exfalso. apply (N (node_before top k)); [lia|done]. }
    rewrite Ek in *. destruct (node_before_spec top j) as (H1 & Hs & H3).
    assert (node_before top j < j) as Lj.
    { destruct Hs as [E|[_ ?]]; [|done]. destruct (decide (j = 0)) as [->|]; [by destruct Hz|lia]. }
    destruct (Z.lt_trichotomy c' j) as [Lt|[E|Gt]]; [|done|].
    + assert (used_node top c') as Uc by (apply Us; lia). pose proof (H3 c' Uc Lt). lia.
    + exfalso. apply (Nu j); [lia|done].
Qed.

Lemma map_nodes_run top n j hist map c :
  machine_ok top → counted top hist → 0 <= j → j + Z.of_nat n = num_possible_nodes →
  Z.of_nat (length map) = num_possible_nodes → next_place top j c →
  (∀ k, used_node top k → k < j → map !! Z.to_nat k = Some (node_place top k)) →
  ∃ map', map_nodes (seqZ j (Z.of_nat n)) hist map c = Ok map'
    ∧ ∀ k, used_node top k → map' !! Z.to_nat k = Some (node_place top k).
Proof.
  intros M Hh. pose proof (mo_nodes _ M). revert j map c. induction n as [|n IH]; intros j map c J Jn L Hc Hm.
  - exists map. split; [done|]. intros k Uk. apply Hm; [done|]. destruct Uk as (cpu & C & <-). pose proof (mo_node _ M cpu C). lia.
  - rewrite seqZ_cons by lia. cbn [map_nodes]. destruct (proj2 Hh j ltac:(lia)) as (h & E & U).
    rewrite (aget_ok hist j h J E). cbn [mbind outcome_bind].
    replace (Z.pred (Z.of_nat (S n))) with (Z.of_nat n) by lia. destruct (Z.eqb_spec h 0) as [->|Nz]; cbn [negb].
    + assert (¬ used_node top j) as Nj by (intros Uj; by apply U in Uj). apply IH; try done; try lia.
      * intros k K Uk N. apply Hc; [lia|done|]. intros i Hi. destruct (decide (i = j)) as [->|]; [done|]. apply N. lia.
      * intros k Uk K. destruct (decide (k = j)) as [->|]; [done|]. apply Hm; [done|lia].
    + apply U in Nz. rewrite (Hc j) by (try done; lia). rewrite aset_ok by lia. cbn [mbind outcome_bind].
      pose proof (node_place_range top j M Nz) as [Rj Pj].
      destruct (next_used_run top hist (node_place top j) (Z.to_nat num_online_nodes + 1) M Hh) as (c' & Ec & R & Nu & Us); [lia|lia|].
      rewrite Ec. cbn [mbind outcome_bind]. apply IH; try lia; [by rewrite length_insert| |].
      * apply (next_place_step top j c' M); try done; lia.
      * intros k Uk K. destruct (decide (k = j)) as [->|Nk]; [by rewrite list_lookup_insert_eq by lia|].
        rewrite list_lookup_insert_ne; [apply Hm; [done|lia]|].
        destruct Uk as (cpu & C & <-). pose proof (mo_node _ M cpu C). lia.
Qed.

(** Both together, in the function. *)
Lemma node_map_run top :
  machine_ok top →
  let zeros := replicate (Z.to_nat num_possible_nodes) 0 in
  ∃ hist map, count_nodes (seqZ 0 (numcpus top)) zeros = Ok hist
    ∧ map_nodes (seqZ 0 num_possible_nodes) hist zeros 0 = Ok map
    ∧ ∀ k, used_node top k → map !! Z.to_nat k = Some (node_place top k).
Proof.
  intros M zeros. pose proof (mo_nodes _ M) as N. pose proof (mo_small _ M) as [S1 S2].
  destruct (count_nodes_run top (Z.to_nat (numcpus top)) 0 zeros M) as (hist & E & L & Hh); [done|lia| | |].
  - unfold zeros. rewrite length_replicate. lia.
  - intros k K. unfold zeros. rewrite lookup_replicate_2 by lia. done.
  - rewrite Z2Nat.id in E, Hh by lia. rewrite Z.add_0_l in Hh.
    destruct (map_nodes_run top (Z.to_nat num_possible_nodes) 0 hist zeros 0 M) as (map & Em & Hm); try done; try lia.
    + split; [rewrite L; unfold zeros; rewrite length_replicate; lia|].
      intros k K. eexists. split; [by apply Hh|]. by apply before_used.
    + unfold zeros. rewrite length_replicate. lia.
    + by apply next_place_first.
    + intros k (cpu & C & <-) Lt. pose proof (mo_node _ M cpu C). lia.
    + rewrite Z2Nat.id in Em by lia. eauto.
Qed.

(** ** One queue for each CPU *)

(** The entries of the CPUs below [j] have been written. *)
Definition written (f : Z → Z) (j : Z) a : Prop := ∀ cpu, 0 <= cpu < j → a !! Z.to_nat cpu = Some (f cpu).

Lemma written_step f j a :
  0 <= j < Z.of_nat (length a) → written f j a → written f (Z.succ j) (<[Z.to_nat j := f j]> a).
Proof.
  intros J W cpu C. destruct (decide (cpu = j)) as [->|N].
  - by rewrite list_lookup_insert_eq by lia.
  - rewrite list_lookup_insert_ne by lia. apply W. lia.
Qed.

Lemma spread_run (queue : Z → Z) count n j a :
  let used := before cpu_online in
  0 < count < 2 ^ 31 → 0 <= j → j + Z.of_nat n = Z.of_nat (length a) → j + Z.of_nat n < 2 ^ 31 →
  written (λ cpu, queue (used cpu mod count)) j a →
  ∃ a', spread queue count (seqZ j (Z.of_nat n)) (used j mod count) (used j) a = Ok (used (j + Z.of_nat n), a')
    ∧ written (λ cpu, queue (used cpu mod count)) (j + Z.of_nat n) a'.
Proof.
  intros used C. change (2 ^ 31) with 2147483648 in *. revert j a. induction n as [|n IH]; intros j a J L B W.
  - exists a. cbn. by rewrite Z.add_0_r.
  - rewrite seqZ_cons by lia. cbn [spread]. rewrite aset_ok by lia. cbn [mbind outcome_bind].
    replace (Z.pred (Z.of_nat (S n))) with (Z.of_nat n) by lia. replace (j + Z.of_nat (S n)) with (Z.succ j + Z.of_nat n) in * by lia.
    pose proof (before_range cpu_online j J) as R. pose proof (Z.mod_pos_bound (used j) count ltac:(lia)) as P.
    pose proof (before_S cpu_online j J) as Sj. fold used in R, Sj.
    assert (written (λ cpu, queue (used cpu mod count)) (Z.succ j) (<[Z.to_nat j := queue (used j mod count)]> a)) as W'
      by (apply (written_step (λ cpu, queue (used cpu mod count))); [lia|done]).
    specialize (IH (Z.succ j) (<[Z.to_nat j := queue (used j mod count)]> a) ltac:(lia) ltac:(rewrite length_insert; lia) B W'). unfold Z.succ in IH at 1 2 3.
    destruct (cpu_online j); cbn [Z.b2z] in Sj.
    + rewrite !wrapu_small by (unfold in_u; change (2 ^ 32) with 4294967296; lia).
      rewrite Z.add_mod_idemp_l, <-Sj by lia. exact IH.
    + rewrite Z.add_0_r in Sj. rewrite Sj in IH. exact IH.
Qed.

(** What one CPU of two online ones has seen. *)
Lemma before_lt p c1 c2 : 0 <= c1 < c2 → p c1 = true → before p c1 < before p c2.
Proof. intros C P. pose proof (before_mono p (c1 + 1) c2 ltac:(lia)) as M. rewrite before_S, P in M by lia. cbn in M. lia. Qed.

(** with a queue for each online CPU, CPU number [cpu] gets the queue whose
    number is that of the online CPUs before it (wrapping when a CPU has come
    online since they were counted), and the number of queues in use is the
    result. *)
Theorem enough_queues top rq count size a :
  machine_ok top → 0 < count < 2 ^ 31 → num_online_cpus <= count → Z.of_nat (length a) = numcpus top →
  let used := before cpu_online in
  ∃ a', kfio_map_cpus_to_read_queues (true, true) rq count size top a = Ok (Z.min (used (numcpus top)) count, a')
    ∧ (∀ cpu, 0 <= cpu < numcpus top → a' !! Z.to_nat cpu = Some (queue_at rq size (used cpu mod count)))
    ∧ (used (numcpus top) <= count → ∀ c1 c2, 0 <= c1 < c2 → c2 < numcpus top → cpu_online c1 → cpu_online c2 →
         0 <= used c1 mod count < used c2 mod count ∧ used c2 mod count < used (numcpus top)).
Proof.
  intros M C E L used. destruct (node_map_run top M) as (hist & map & Eh & Em & _). pose proof (mo_small _ M) as [_ Sm].
  unfold kfio_map_cpus_to_read_queues. cbn [fst snd oassert mbind outcome_bind]. rewrite Eh. cbn [mbind outcome_bind].
  rewrite Em. cbn [mbind outcome_bind]. rewrite Z.geb_leb, (proj2 (Z.leb_le _ _) E).
  destruct (spread_run (queue_at rq size) count (Z.to_nat (numcpus top)) 0 a C) as (a' & Es & W); [done|lia|lia|by intros ??; lia|].
  rewrite Z2Nat.id, Z.add_0_l in Es, W by lia. change (before cpu_online 0) with 0 in Es. rewrite Z.mod_0_l in Es by lia.
  rewrite Es. cbn [mbind outcome_bind]. fold used. pose proof (before_range cpu_online (numcpus top) ltac:(lia)) as R. fold used in R.
  change (2 ^ 31) with 2147483648 in *. exists a'. split_and!.
  - f_equal. f_equal. rewrite wraps_small; [destruct (Z.ltb_spec (used (numcpus top)) count); lia|lia|].
    unfold in_s. change (2 ^ (32 - 1)) with 2147483648. destruct (_ <? _); lia.
  - exact W.
  - intros U c1 c2 C12 C2 O1 O2. pose proof (before_range cpu_online c1 ltac:(lia)) as R1. fold used in R1.
    pose proof (before_lt cpu_online c1 c2 C12 (Is_true_true_1 _ O1)) as L1.
    pose proof (before_lt cpu_online c2 (numcpus top) ltac:(lia) (Is_true_true_1 _ O2)) as L2. fold used in L1, L2.
    rewrite !Z.mod_small by lia. lia.
Qed.

(** ** Clusters of nodes *)

(** The number of clusters of so many nodes each. *)
Definition clusters (npc : Z) : Z := (num_online_nodes + npc - 1) / npc.

Lemma clusters_cover npc : 0 < npc → 0 < num_online_nodes → (clusters npc - 1) * npc < num_online_nodes <= clusters npc * npc.
Proof.
  intros P N. unfold clusters. pose proof (Z.div_mod (num_online_nodes + npc - 1) npc ltac:(lia)) as D.
  pose proof (Z.mod_pos_bound (num_online_nodes + npc - 1) npc P). nia.
Qed.

Lemma cluster_lt npc node : 0 < npc → 0 <= node < num_online_nodes → 0 <= node / npc < clusters npc.
Proof.
  intros P N. pose proof (clusters_cover npc P ltac:(lia)). split; [by apply Z.div_pos; lia|].
  apply Z.div_lt_upper_bound; lia.
Qed.

(** Grouping ends, at the latest with all nodes in one cluster. *)
Lemma group_nodes_run fuel count npc :
  0 < count → 0 < npc <= num_online_nodes → num_online_nodes < 2 ^ 30 → num_online_nodes - npc < Z.of_nat fuel →
  ∃ npc', group_nodes fuel count npc (clusters npc) = Ok (npc', clusters npc')
    ∧ npc <= npc' <= num_online_nodes ∧ clusters npc' <= count.
Proof.
  intros C. revert npc. change (2 ^ 30) with 1073741824. induction fuel as [|fuel IH]; intros npc P S F; [lia|].
  cbn [group_nodes]. rewrite Z.gtb_ltb. destruct (Z.ltb_spec count (clusters npc)) as [G|G].
  - assert (npc < num_online_nodes) as Lt.
    { destruct (decide (npc = num_online_nodes)) as [->|]; [|lia]. pose proof (clusters_cover num_online_nodes). nia. }
    rewrite (wrapu_small 32 (npc + 1)) by (unfold in_u; change (2 ^ 32) with 4294967296; lia).
    rewrite !wrapu_small by (unfold in_u; rewrite ?wrapu_small by (unfold in_u; change (2 ^ 32) with 4294967296; lia); change (2 ^ 32) with 4294967296; lia).
    destruct (IH (npc + 1)) as (npc' & E & R); [lia..|]. unfold clusters in E at 1. exists npc'. split; [exact E|lia].
  - eauto with lia.
Qed.

(** The cluster of a CPU, and the online CPUs of a cluster. *)
Definition cluster_of top (npc cpu : Z) : Z := node_place top (cpu_to_node cpu) / npc.
Definition in_cluster top (npc cl cpu : Z) : bool := cpu_online cpu && (cluster_of top npc cpu =? cl).

(** The queue a CPU gets: round robin over the queues of its cluster. *)
Definition cluster_queue top (npc qpc cpu : Z) : Z :=
  let cl := cluster_of top npc cpu in cl * qpc + before (in_cluster top npc cl) cpu mod qpc.

Lemma cluster_queue_range top npc qpc cpu :
  machine_ok top → 0 < npc → 0 < qpc → 0 <= cpu < numcpus top →
  let cl := cluster_of top npc cpu in
  0 <= cl < clusters npc ∧ cluster_queue top npc qpc cpu / qpc = cl ∧ 0 <= cluster_queue top npc qpc cpu < clusters npc * qpc.
Proof.
  intros M P Q C cl. assert (used_node top (cpu_to_node cpu)) as U by by exists cpu.
  pose proof (node_place_range top _ M U) as [R1 R2].
  pose proof (cluster_lt npc (node_place top (cpu_to_node cpu)) P (conj (proj1 R1) R2)) as R. change (_ / npc) with cl in R.
  unfold cluster_queue. fold cl. pose proof (Z.mod_pos_bound (before (in_cluster top npc cl) cpu) qpc Q). split_and!; try lia; [|nia..].
  rewrite Z.div_add_l, Z.div_small; lia.
Qed.

Lemma cluster_cpus_run top (queue : Z → Z) map npc qpc n j counts a :
  machine_ok top → (∀ k, used_node top k → map !! Z.to_nat k = Some (node_place top k)) →
  0 < npc → 0 < qpc → clusters npc <= Z.of_nat (length counts) → clusters npc * qpc < 2 ^ 32 →
  0 <= j → j + Z.of_nat n = numcpus top → Z.of_nat (length a) = numcpus top →
  (∀ cl, 0 <= cl < clusters npc → counts !! Z.to_nat cl = Some (before (in_cluster top npc cl) j)) →
  written (λ cpu, queue (cluster_queue top npc qpc cpu)) j a →
  ∃ a', cluster_cpus queue map npc qpc (seqZ j (Z.of_nat n)) counts a = Ok a'
    ∧ written (λ cpu, queue (cluster_queue top npc qpc cpu)) (numcpus top) a'.
Proof.
  intros M Hm P Q K B. pose proof (mo_small _ M) as [_ Sm]. change (2 ^ 31) with 2147483648 in Sm.
  revert j counts a K. induction n as [|n IH]; intros j counts a K J Jn L Hc W.
  - exists a. cbn. replace (numcpus top) with j by lia. done.
  - rewrite seqZ_cons by lia. cbn [cluster_cpus]. pose proof (mo_node _ M j ltac:(lia)) as Nj.
    rewrite (aget_ok map _ _ (proj1 Nj) (Hm _ (ex_intro _ j (conj (conj J (ltac:(lia) : j < numcpus top)) eq_refl)))). cbn [mbind outcome_bind].
    destruct (cluster_queue_range top npc qpc j M P Q ltac:(lia)) as (Rc & Dq & Rq).
    fold (cluster_of top npc j). set (cl := cluster_of top npc j) in *. rewrite (aget_ok counts _ _ (proj1 Rc) (Hc _ Rc)). cbn [mbind outcome_bind].
    rewrite (aset_ok a) by lia. cbn [mbind outcome_bind]. pose proof (before_range (in_cluster top npc cl) j J).
    rewrite (wrapu_small 32 (cl * qpc)) by (unfold in_u; nia).
    change (cl * qpc + before (in_cluster top npc cl) j mod qpc) with (cluster_queue top npc qpc j).
    rewrite (wrapu_small 32 (cluster_queue top npc qpc j)) by (unfold in_u; lia).
    replace (Z.pred (Z.of_nat (S n))) with (Z.of_nat n) by lia.
    assert (written (λ cpu, queue (cluster_queue top npc qpc cpu)) (Z.succ j) (<[Z.to_nat j := queue (cluster_queue top npc qpc j)]> a)) as W'
      by (apply (written_step (λ cpu, queue (cluster_queue top npc qpc cpu))); [lia|done]).
    set (counts' := if cpu_online j then <[Z.to_nat cl := before (in_cluster top npc cl) j + 1]> counts else counts).
    assert ((if cpu_online j then aset counts cl (u32 (before (in_cluster top npc cl) j + 1)) else Ok counts) = Ok counts') as ->.
    { unfold counts'. destruct (cpu_online j); [|done]. rewrite aset_ok by lia.
      by rewrite wrapu_small by (unfold in_u; change (2 ^ 32) with 4294967296; lia). }
    cbn [mbind outcome_bind]. apply IH; try lia; try done.
    + unfold counts'. destruct (cpu_online j); rewrite ?length_insert; lia.
    + rewrite length_insert. lia.
    + intros k Kr. unfold Z.succ. rewrite before_S by done. unfold counts', in_cluster at 3. fold cl.
      destruct (cpu_online j); cbn [andb Z.b2z]; [|by rewrite Z.add_0_r; apply Hc].
      destruct (decide (k = cl)) as [->|N].
      * rewrite list_lookup_insert_eq by lia. by rewrite Z.eqb_refl.
      * rewrite list_lookup_insert_ne by lia. rewrite (proj2 (Z.eqb_neq cl k)) by done. cbn. rewrite Z.add_0_r. by apply Hc.
Qed.

(** Both ways of choosing the sizes leave no more queues in use than there are. *)
Lemma cluster_sizes count :
  0 < count < 2 ^ 30 → 0 < num_online_nodes < 2 ^ 30 →
  ∃ npc, (if count <? num_online_nodes then group_nodes (Z.to_nat num_online_nodes + 1) count 1 num_online_nodes
          else Ok (1, num_online_nodes)) = Ok (npc, clusters npc)
    ∧ let qpc := if count <? num_online_nodes then 1 else count / num_online_nodes in
      0 < npc ∧ 0 < qpc ∧ clusters npc * qpc <= count ∧ (num_online_nodes <= count → npc = 1).
Proof.
  intros C N. assert (clusters 1 = num_online_nodes) as C1 by (unfold clusters; rewrite Z.div_1_r; lia).
  destruct (Z.ltb_spec count num_online_nodes) as [L|L].
  - destruct (group_nodes_run (Z.to_nat num_online_nodes + 1) count 1) as (npc & E & R); try lia.
    rewrite C1 in E. exists npc. split; [exact E|]. cbn zeta. lia.
  - exists 1. rewrite C1. split; [done|]. cbn zeta. pose proof (Z.mul_div_le count num_online_nodes (proj1 N)).
    assert (0 < count / num_online_nodes) by (apply Z.div_str_pos; lia). lia.
Qed.

(** C36: On a machine on which the node of every CPU is below the number of online
    nodes, or whose nodes with CPUs begin behind node 0 and all but the last are below
    it - nodes may be without CPUs -, with fewer queues than online CPUs: the loops
    over the nodes end, the nodes are grouped into clusters, in their order and no more
    of them than there are queues; each CPU gets a queue of the cluster of its node,
    below the result, and the online CPUs of a cluster take its queues in turn.  When
    there are as many queues as online nodes, CPUs with the same queue are on the
    same node. *)
Theorem fewer_queues top rq count size a :
  machine_ok top → 0 < count <= IODRIVE_MAX_COMP_QUEUES → count < num_online_cpus → num_online_nodes < 2 ^ 30 →
  Z.of_nat (length a) = numcpus top →
  ∃ npc qpc used a', kfio_map_cpus_to_read_queues (true, true) rq count size top a = Ok (used, a')
    ∧ 0 < npc ∧ 0 < qpc ∧ used = clusters npc * qpc ∧ used <= count
    ∧ (∀ cpu, 0 <= cpu < numcpus top →
        a' !! Z.to_nat cpu = Some (queue_at rq size (cluster_queue top npc qpc cpu))
        ∧ 0 <= cluster_queue top npc qpc cpu < used
        ∧ cluster_queue top npc qpc cpu / qpc = cluster_of top npc cpu)
    ∧ (∀ c1 c2, 0 <= c1 < numcpus top → 0 <= c2 < numcpus top → cpu_to_node c1 <= cpu_to_node c2 →
         cluster_of top npc c1 <= cluster_of top npc c2)
    ∧ (num_online_nodes <= count → ∀ c1 c2, 0 <= c1 < numcpus top → 0 <= c2 < numcpus top →
         cluster_queue top npc qpc c1 = cluster_queue top npc qpc c2 → cpu_to_node c1 = cpu_to_node c2).
Proof.
  intros M C E B L. unfold IODRIVE_MAX_COMP_QUEUES in C. destruct (node_map_run top M) as (hist & map & Eh & Em & Hm).
  pose proof (mo_small _ M) as [_ Sm]. pose proof (mo_nodes _ M) as Nn.
  unfold kfio_map_cpus_to_read_queues. cbn [fst snd oassert mbind outcome_bind]. rewrite Eh. cbn [mbind outcome_bind].
  rewrite Em. cbn [mbind outcome_bind]. rewrite Z.geb_leb, (proj2 (Z.leb_gt _ _) E). unfold map_clusters.
  destruct (cluster_sizes count) as (npc & Es & P & Q & U & Eq); [change (2 ^ 30) with 1073741824; lia..|].
  rewrite Es. cbn [mbind outcome_bind]. set (qpc := if count <? num_online_nodes then 1 else count / num_online_nodes) in *.
  pose proof (clusters_cover npc P ltac:(lia)) as Cv. assert (0 < clusters npc) by nia.
  change (Z.to_nat IODRIVE_MAX_COMP_QUEUES) with 16%nat.
  destruct (cluster_cpus_run top (queue_at rq size) map npc qpc (Z.to_nat (numcpus top)) 0 (replicate 16 0) a M Hm P Q)
    as (a' & Ec & W).
  - rewrite length_replicate. nia.
  - change (2 ^ 32) with 4294967296. lia.
  - done.
  - lia.
  - done.
  - intros cl R. rewrite lookup_replicate_2 by nia. done.
  - intros c R. lia.
  - rewrite Z2Nat.id in Ec by lia. rewrite Ec. cbn [mbind outcome_bind]. exists npc, qpc, (clusters npc * qpc), a'.
    rewrite wrapu_small by (unfold in_u; change (2 ^ 32) with 4294967296; nia).
    rewrite wraps_small; [|lia|unfold in_s; change (2 ^ (32 - 1)) with 2147483648; nia].
    split; [done|]. do 4 (split; [done || lia|]). split_and!.
    + intros cpu Rc. destruct (cluster_queue_range top npc qpc cpu M P Q Rc) as (_ & D & R).
      split; [by apply W|]. done.
    + intros c1 c2 R1 R2 Le. apply Z.div_le_mono; [done|].
      destruct (decide (cpu_to_node c1 = cpu_to_node c2)) as [->|]; [done|].
      apply Z.lt_le_incl, node_place_mono; [done|by exists c1|by exists c2|lia].
    + intros Hq c1 c2 R1 R2 Eqq. destruct (cluster_queue_range top npc qpc c1 M P Q R1) as (_ & D1 & _).
      destruct (cluster_queue_range top npc qpc c2 M P Q R2) as (_ & D2 & _). rewrite Eqq, D2 in D1.
      unfold cluster_of in D1. rewrite (Eq Hq), !Z.div_1_r in D1.
      destruct (Z.lt_trichotomy (cpu_to_node c1) (cpu_to_node c2)) as [Lt|[?|Lt]]; [|done|].
      * pose proof (node_place_mono top _ _ M (ex_intro _ c1 (conj R1 eq_refl)) (ex_intro _ c2 (conj R2 eq_refl)) Lt). lia.
      * pose proof (node_place_mono top _ _ M (ex_intro _ c2 (conj R2 eq_refl)) (ex_intro _ c1 (conj R1 eq_refl)) Lt). lia.
Qed.
End spec.

(** ** Machines *)

(** Four CPUs on two nodes. *)
Definition two_nodes : CpuEnv :=
  {| cpu_to_node cpu := cpu / 2; cpu_online _ := true; possible_cpus := [0; 1; 2; 3]; num_possible_nodes := 2;
     num_online_nodes := 2; num_online_cpus := 4; heap_behind _ := 0 |}.
Definition four_cpus : kfio_cpu_topology := mk_topology 2 4 (Some [0; 0; 1; 1]).

Lemma two_nodes_ok : machine_ok (H := two_nodes) four_cpus.
Proof.
  split; cbn; try lia.
  - intros cpu C. split; [by apply Z.div_pos; lia|apply Z.div_lt_upper_bound; lia].
  - intros cpu C. left. apply Z.div_lt_upper_bound; lia.
Qed.

(** Four CPUs on nodes 1 and 2; node 0 is missing. *)
Definition first_node_missing : CpuEnv :=
  {| cpu_to_node cpu := 1 + cpu / 2; cpu_online _ := true; possible_cpus := [0; 1; 2; 3]; num_possible_nodes := 3;
     num_online_nodes := 2; num_online_cpus := 4; heap_behind _ := 0 |}.
Definition behind_node_0 : kfio_cpu_topology := mk_topology 3 4 (Some [1; 1; 2; 2]).

Lemma first_node_missing_ok : machine_ok (H := first_node_missing) behind_node_0.
Proof.
  assert (∀ cpu, 0 <= cpu < 4 → 0 <= cpu / 2 < 2) as Hc
    by (intros cpu C; split; [by apply Z.div_pos; lia|apply Z.div_lt_upper_bound; lia]).
  split; cbn; try lia.
  - intros cpu C. specialize (Hc cpu C). lia.
  - intros cpu C. right. split; [intros c C'; specialize (Hc c C'); lia|].
    intros c C' Lt. pose proof (Hc cpu C). lia.
Qed.

Theorem enough_queues_witness :
  ∃ a', kfio_map_cpus_to_read_queues (H := two_nodes) (true, true) 1000 8 64 four_cpus [0; 0; 0; 0] = Ok (4, a')
    ∧ a' !! 2%nat = Some 1128.
Proof.
  destruct (enough_queues (H := two_nodes) four_cpus 1000 8 64 [0; 0; 0; 0] two_nodes_ok) as (a' & E & W & _).
  - change (2 ^ 31) with 2147483648. lia.
  - cbn. lia.
  - done.
  - exists a'. split; [exact E|]. exact (W 2 ltac:(cbn; lia)).
Defined.

Theorem fewer_queues_witness :
  ∃ npc qpc used a',
    kfio_map_cpus_to_read_queues (H := first_node_missing) (true, true) 1000 2 64 behind_node_0 [0; 0; 0; 0] = Ok (used, a')
    ∧ a' !! 2%nat = Some (queue_at 1000 64 (cluster_queue (H := first_node_missing) behind_node_0 npc qpc 2))
    ∧ 0 <= cluster_queue (H := first_node_missing) behind_node_0 npc qpc 2 < used
    ∧ cluster_queue (H := first_node_missing) behind_node_0 npc qpc 1 ≠ cluster_queue (H := first_node_missing) behind_node_0 npc qpc 2.
Proof.
  destruct (fewer_queues (H := first_node_missing) behind_node_0 1000 2 64 [0; 0; 0; 0] first_node_missing_ok)
    as (npc & qpc & used & a' & E & _ & _ & _ & _ & W & _ & N).
  - unfold IODRIVE_MAX_COMP_QUEUES. lia.
  - cbn. lia.
  - change (2 ^ 30) with 1073741824. cbn. lia.
  - done.
  - exists npc, qpc, used, a'. split; [exact E|]. destruct (W 2 ltac:(cbn; lia)) as (W2 & R2 & _).
    split; [exact W2|]. split; [exact R2|]. intros Eq.
    specialize (N ltac:(cbn; lia) 1 2 ltac:(cbn; lia) ltac:(cbn; lia) Eq). by vm_compute in N.
Defined.

(** A machine whose node 1 is missing: CPUs 0 and 1 are on node 0, CPUs 2 and 3 on
    node 2.  Whatever lies behind the arrays, CPUs 2 and 3 get queue 2 of two. *)
Definition missing_node (behind : Z → Z) : CpuEnv :=
  {| cpu_to_node cpu := 2 * (cpu / 2); cpu_online _ := true; possible_cpus := [0; 1; 2; 3]; num_possible_nodes := 3;
     num_online_nodes := 2; num_online_cpus := 4; heap_behind := behind |}.

Lemma missing_node_map (behind : Z → Z) :
  map_nodes (H := missing_node behind) (seqZ 0 3) [2; 0; 2] [0; 0; 0] 0 = Ok [0; 0; 2].
Proof.
  assert (next_used (H := missing_node behind) 3 [2; 0; 2] 2 = Ok 3) as E.
  { cbn [next_used]. change (u32 (2 + 1)) with 3. rewrite (proj2 (Z.ltb_ge 3 _)) by (cbn; lia). by rewrite andb_false_r. }
  change (map_nodes (H := missing_node behind) (seqZ 0 3) [2; 0; 2] [0; 0; 0] 0)
    with (_ ← next_used (H := missing_node behind) 3 [2; 0; 2] 2; Ok [0; 0; 2]).
  by rewrite E.
Qed.

(** with a missing node, the map of nodes takes the number of the next used
    node for a count of the used ones, and a CPU is given a queue behind the last
    one: its number is the result, and the number of queues there are. *)
Theorem missing_node_overruns_queues (behind : Z → Z) (rq size : Z) :
  kfio_map_cpus_to_read_queues (H := missing_node behind) (true, true) rq 2 size (mk_topology 3 4 None) [0; 0; 0; 0]
    = Ok (2, [queue_at rq size 0; queue_at rq size 0; queue_at rq size 2; queue_at rq size 2]).
Proof.
  unfold kfio_map_cpus_to_read_queues. generalize (queue_at rq size) as queue. intros queue.
  change (count_nodes (H := missing_node behind) _ _) with (Ok [2; 0; 2]). cbn [fst snd oassert mbind outcome_bind].
  change (map_nodes (H := missing_node behind) _ _ _ _)
    with (map_nodes (H := missing_node behind) (seqZ 0 3) [2; 0; 2] [0; 0; 0] 0).
  by rewrite missing_node_map.
Qed.

(** A machine whose second CPU is offline. *)
Definition last_offline : CpuEnv :=
  {| cpu_to_node _ := 0; cpu_online cpu := cpu =? 0; possible_cpus := [0; 1]; num_possible_nodes := 1;
     num_online_nodes := 1; num_online_cpus := 1; heap_behind _ := 0 |}.

(** An offline CPU behind the last online one does not share its queue: it gets the
    next one, which is not among the queues in use. *)
Lemma offline_cpu_gets_unused_queue (rq size : Z) :
  kfio_map_cpus_to_read_queues (H := last_offline) (true, true) rq 2 size (mk_topology 1 2 None) [0; 0]
    = Ok (1, [queue_at rq size 0; queue_at rq size 1]).
Proof. unfold kfio_map_cpus_to_read_queues. generalize (queue_at rq size) as queue. intros queue. vm_compute. reflexivity. Qed.

(** ** The topology *)

Lemma fill_loop_run `{CpuEnv} n j a :
  0 <= j → j + Z.of_nat n <= Z.of_nat (length a) → written cpu_to_node j a →
  ∃ a', fill_loop (seqZ j (Z.of_nat n)) a = Ok a' ∧ length a' = length a ∧ written cpu_to_node (j + Z.of_nat n) a'.
Proof.
  revert j a. induction n as [|n IH]; intros j a J L W.
  - exists a. cbn. by rewrite Z.add_0_r.
  - rewrite seqZ_cons by lia. cbn [fill_loop]. rewrite aset_ok by lia. cbn [mbind outcome_bind].
    replace (Z.pred (Z.of_nat (S n))) with (Z.of_nat n) by lia. replace (j + Z.of_nat (S n)) with (Z.succ j + Z.of_nat n) by lia.
    destruct (IH (Z.succ j) (<[Z.to_nat j := cpu_to_node j]> a)) as (a' & E & L' & W');
      [lia|rewrite length_insert; lia|by apply written_step; [lia|]|].
    exists a'. by rewrite E, L', length_insert.
Qed.

(** the topology lists the node of every possible CPU when their numbers are
    consecutive, whatever the memory held. *)
Theorem topology_filled `{CpuEnv} mem a :
  possible_cpus = seqZ 0 kfio_max_cpus → mem (length possible_cpus) = Some a → length a = length possible_cpus →
  kfio_fill_cpu_topology mem = Ok (0, mk_topology num_possible_nodes kfio_max_cpus (Some (map cpu_to_node possible_cpus))).
Proof.
  intros C M L. unfold kfio_fill_cpu_topology, kfio_max_cpus in *. rewrite Nat2Z.id, M.
  destruct (fill_loop_run (length possible_cpus) 0 a) as (a' & E & L' & W); [done|lia|by intros ??; lia|].
  rewrite C at 1. rewrite E. cbn [mbind outcome_bind]. do 4 f_equal. apply list_eq. intros i.
  destruct (decide (i < length possible_cpus)%nat) as [Li|Gi].
  - rewrite <-(Nat2Z.id i) at 1. rewrite (W (Z.of_nat i)) by lia. rewrite C, list_lookup_fmap, lookup_seqZ_lt by lia.
    by rewrite Z.add_0_l.
  - rewrite !lookup_ge_None_2; [done|rewrite length_map; lia|lia].
Qed.

Theorem topology_filled_witness :
  kfio_fill_cpu_topology (H := two_nodes) (λ n, Some (replicate n 7))
    = Ok (0, mk_topology 2 4 (Some (map (λ cpu, cpu / 2) [0; 1; 2; 3]))).
Proof. by apply (topology_filled (H := two_nodes) (λ n, Some (replicate n 7)) [7; 7; 7; 7]). Defined.

(** With a gap in the numbers the last one is stored behind the array. *)
Definition sparse : CpuEnv :=
  {| cpu_to_node _ := 0; cpu_online _ := true; possible_cpus := [0; 2]; num_possible_nodes := 1;
     num_online_nodes := 1; num_online_cpus := 2; heap_behind _ := 0 |}.

Lemma sparse_cpus_overrun :
  kfio_fill_cpu_topology (H := sparse) (λ n, Some (replicate n 0)) = Fault OutOfBounds.
Proof. reflexivity. Qed.
