(* ===== verification/KTime.v ===== *)
(** * Time: ktime.c, include/fio/port/ktime.h

    Conversions between microseconds and the ticks of the kernel's clock, the
    times derived from the number of ticks, and comparisons of times that wrap. *)
From S2P Require Import Prelude.

(** ** What the kernel provides *)

(** [jiffies_to_usecs] is the kernel's function, which returns an [unsigned int];
    [msleep_interruptible ms] is the number of milliseconds that were left when it
    returned. *)
Class Clock := {
  HZ : Z;
  MAX_JIFFY_OFFSET : Z;
  jiffies_to_usecs : Z → Z;
  msleep_interruptible : Z → Z
}.

(** The clock of the usual configurations: a whole number of microseconds for each
    tick. *)
Class ClockLaws `{Clock} : Prop := {
  hz_range : 0 < HZ <= 1000000;
  hz_divides : 1000000 `mod` HZ = 0;
  max_offset : MAX_JIFFY_OFFSET = 2 ^ 62 - 2;
  jiffies_to_usecs_spec j : jiffies_to_usecs j = u32 (1000000 / HZ * j);
  interruptible_range ms : 0 <= ms → 0 <= msleep_interruptible ms <= ms
}.

Definition USEC_PER_SEC : Z := 1000000.

Definition kfio_div64_64 (dividend divisor : Z) : Z := dividend / divisor.

(** ** Operations *)

Section time.
Context `{Clock}.

(** The kernel's counter of ticks is an argument of what reads it. *)
Definition fusion_get_lbolt (jiffies_64 : Z) : Z := jiffies_64.
Definition fusion_HZ : Z := HZ.
Definition kfio_get_seconds (real_seconds : Z) : Z := u32 real_seconds.
Definition fusion_getnanotime (jiffies_64 : Z) : Z := u64 (fusion_get_lbolt jiffies_64 * 1000000000) / fusion_HZ.
Definition fusion_getmicrotime (jiffies_64 : Z) : Z := u64 (jiffies_64 * 1000000) / HZ.
Definition fusion_getwallclocktime (tv_sec : Z) : Z := u64 tv_sec.

(** The sleeps that are made, in milliseconds: one that a signal ends, and the rest. *)
Definition kfio_msleep_noload (millisecs : Z) : list Z :=
  let remainder := msleep_interruptible millisecs in
  (millisecs - remainder) :: if remainder =? 0 then [] else [u32 remainder].

Definition fusion_usectohz (u : Z) : Z :=
  if u >? jiffies_to_usecs MAX_JIFFY_OFFSET then MAX_JIFFY_OFFSET
  else if (HZ <=? USEC_PER_SEC) && (USEC_PER_SEC mod HZ =? 0) then
    kfio_div64_64 (u64 (u64 (u + USEC_PER_SEC / HZ) - 1)) (USEC_PER_SEC / HZ)
  else if (USEC_PER_SEC <? HZ) && (HZ mod USEC_PER_SEC =? 0) then u64 (u * (HZ / USEC_PER_SEC))
  else kfio_div64_64 (u64 (u64 (u64 (u * HZ) + USEC_PER_SEC) - 1)) USEC_PER_SEC.

Definition fusion_hztousec (hertz : Z) : Z := u64 (hertz * (1000000 / HZ)).

(** ** Timers

    The bodies are comments: a timer is its bytes, and nothing is done to them. *)
Record fusion_timer_list := mk_timer { dummy : list Z }.
Definition fusion_init_timer (timer : fusion_timer_list) : fusion_timer_list := timer.
Definition fusion_set_timer_function (timer : fusion_timer_list) (f : positive) : fusion_timer_list := timer.
Definition fusion_set_timer_data (timer : fusion_timer_list) (d : Z) : fusion_timer_list := timer.
Definition fusion_set_relative_timer (timer : fusion_timer_list) (t : Z) : fusion_timer_list := timer.
Definition fusion_del_timer (timer : fusion_timer_list) : fusion_timer_list := timer.

(** ** The macros of ktime.h *)

Definition FIO_MSEC_TO_USEC (x : Z) : Z := u64 (u64 x * 1000).
Definition fusion_msectohz (x : Z) : Z := fusion_usectohz (FIO_MSEC_TO_USEC x).
Definition fusion_get_lbolt_usec (jiffies_64 : Z) : Z := fusion_hztousec (fusion_get_lbolt jiffies_64).

Definition kfio_time_after64 (a b : Z) : bool := s64 (s64 b - s64 a) <? 0.
Definition kfio_time_before64 (a b : Z) : bool := kfio_time_after64 b a.
Definition kfio_time_after_eq64 (a b : Z) : bool := s64 (s64 a - s64 b) >=? 0.
Definition kfio_time_before_eq64 (a b : Z) : bool := kfio_time_after_eq64 b a.
Definition PERIOD_OVER (now then_ period_msec : Z) : bool :=
  kfio_time_after64 now (u64 (then_ + FIO_MSEC_TO_USEC period_msec)).

End time.

(** ** Conversions *)

Section conversions.
Context `{ClockLaws}.

(** Microseconds in a tick, and the longest time that is converted: it has 32
    bits, because [jiffies_to_usecs] has. *)
Definition tick : Z := 1000000 / HZ.
Definition limit : Z := jiffies_to_usecs MAX_JIFFY_OFFSET.

Lemma tick_pos : 0 < tick <= 1000000.
Proof. unfold tick. pose proof hz_range as R. split; [apply Z.div_str_pos; lia|apply Z.div_le_upper_bound; lia]. Qed.

Lemma limit_range : 0 <= limit < 2 ^ 32.
Proof. unfold limit. rewrite jiffies_to_usecs_spec. apply Z.mod_pos_bound. lia. Qed.

(** The first case of the three is the one that is compiled. *)
Lemma usectohz_div u : 0 <= u <= limit → fusion_usectohz u = (u + tick - 1) / tick.
Proof.
  intros U. pose proof hz_range. pose proof tick_pos as T. pose proof limit_range as L. change (2 ^ 32) with 4294967296 in L.
  unfold fusion_usectohz, USEC_PER_SEC. fold limit. rewrite Z.gtb_ltb, (proj2 (Z.ltb_ge limit u)) by lia.
  rewrite (proj2 (Z.leb_le HZ _)), hz_divides by lia. cbn [andb]. change (0 =? 0) with true. cbv iota. fold tick. unfold kfio_div64_64.
  by rewrite (wrapu_small 64 (u + tick)), wrapu_small by (unfold in_u; rewrite ?wrapu_small by (unfold in_u; change (2 ^ 64) with 18446744073709551616; lia); change (2 ^ 64) with 18446744073709551616; lia).
Qed.

Lemma hztousec_mul h : 0 <= h → h * tick < 2 ^ 64 → fusion_hztousec h = h * tick.
Proof. intros N L. unfold fusion_hztousec. fold tick. apply wrapu_small. pose proof tick_pos. split; [nia|done]. Qed.

Lemma hztousec_covers u : 0 <= u <= limit → u <= fusion_hztousec (fusion_usectohz u) < u + tick ∧ 0 <= fusion_usectohz u.
Proof.
  intros U. pose proof tick_pos as T. pose proof limit_range as L. change (2 ^ 32) with 4294967296 in L.
  rewrite usectohz_div by lia. pose proof (Z.div_mod (u + tick - 1) tick ltac:(lia)) as D.
  pose proof (Z.mod_pos_bound (u + tick - 1) tick ltac:(lia)) as B. set (q := (u + tick - 1) / tick) in *.
  assert (0 <= q) by (apply Z.div_pos; lia).
  rewrite hztousec_mul; [|done|change (2 ^ 64) with 18446744073709551616; nia]. split; [nia|done].
Qed.

(** C30: A time is converted to the least number of ticks that is not shorter, so
    that a wait never ends early, and is less than one tick longer; a time above
    the limit, in particular every time of 2{^32} microseconds (72 minutes) or more
    and every negative time, becomes the longest number of ticks there is. *)
Theorem usectohz_exact u :
  in_u 64 u →
  if u <=? limit then u <= fusion_hztousec (fusion_usectohz u) < u + tick ∧ 0 <= fusion_usectohz u <= u
  else fusion_usectohz u = 2 ^ 62 - 2.
Proof.
  intros [U0 _]. pose proof tick_pos as T. pose proof limit_range as L. change (2 ^ 32) with 4294967296 in L.
  destruct (Z.leb_spec u limit) as [Le|Gt].
  - destruct (hztousec_covers u) as [C N]; [lia|]. split; [done|]. split; [done|].
    rewrite usectohz_div by lia. apply Z.lt_succ_r, Z.div_lt_upper_bound; nia.
  - unfold fusion_usectohz. fold limit. rewrite Z.gtb_ltb, (proj2 (Z.ltb_lt limit u)) by done. apply max_offset.
Qed.

(** Ticks that are converted to microseconds and back are the same ticks, as
    long as the time is not above the limit. *)
Theorem ticks_roundtrip h : 0 <= h → h * tick <= limit → fusion_usectohz (fusion_hztousec h) = h.
Proof.
  intros N Le. pose proof tick_pos as T. pose proof limit_range as L. change (2 ^ 32) with 4294967296 in L.
  rewrite hztousec_mul; [|done|change (2 ^ 64) with 18446744073709551616; lia]. rewrite usectohz_div by nia.
  replace (h * tick + tick - 1) with (tick - 1 + h * tick) by lia. rewrite Z.div_add, Z.div_small; lia.
Qed.

(** A sleep that a signal ends is completed by another one. *)
Lemma msleep_noload_total ms : in_u 32 ms → foldr Z.add 0 (kfio_msleep_noload ms) = ms.
Proof.
  intros [M0 M]. pose proof (interruptible_range ms M0) as R. unfold kfio_msleep_noload.
  destruct (Z.eqb_spec (msleep_interruptible ms) 0) as [E|]; cbn [foldr]; [lia|]. rewrite wrapu_small; [lia|]. split; lia.
Qed.

(** ** Times derived from the ticks *)

(** The time in nanoseconds is exact for the first 18446744073 ticks (seven
    months at 1000 ticks a second), and then jumps back to less than a second. *)
Theorem nanotime_jumps_back :
  (∀ j, 0 <= j <= 18446744073 → fusion_getnanotime j = j * 1000000000 / HZ)
  ∧ fusion_getnanotime 18446744074 < 1000000000
  ∧ fusion_getnanotime 18446744074 < fusion_getnanotime 18446744073.
Proof.
  pose proof hz_range as R. unfold fusion_getnanotime, fusion_get_lbolt, fusion_HZ. split_and!.
  - intros j J. rewrite wrapu_small; [done|]. unfold in_u. change (2 ^ 64) with 18446744073709551616. lia.
  - change (u64 (18446744074 * 1000000000)) with 290448384. apply Z.div_lt_upper_bound; lia.
  - change (u64 (18446744074 * 1000000000)) with 290448384. change (u64 (18446744073 * 1000000000)) with 18446744073000000000.
    apply Z.lt_le_trans with (18446744073000000000 / 1000000); [|by apply Z.div_le_compat_l; lia].
    change (18446744073000000000 / 1000000) with 18446744073000. apply Z.div_lt_upper_bound; lia.
Qed.
End conversions.

(** ** Comparisons *)

Lemma signed_difference a b : s64 (s64 a - s64 b) = s64 (a - b).
Proof.
  unfold wraps. change (2 ^ (64 - 1)) with 9223372036854775808. f_equal.
  rewrite (Z.mod_eq (a + 9223372036854775808) (2 ^ 64)), (Z.mod_eq (b + 9223372036854775808) (2 ^ 64)) by done.
  set (qa := (a + _) / _). set (qb := (b + _) / _).
  replace (a + 9223372036854775808 - 2 ^ 64 * qa - 9223372036854775808 - (b + 9223372036854775808 - 2 ^ 64 * qb - 9223372036854775808)
    + 9223372036854775808) with (a - b + 9223372036854775808 + (qb - qa) * 2 ^ 64) by lia.
  by rewrite Z.mod_add.
Qed.

Lemma signed_wrapped a : s64 (u64 a) = s64 a.
Proof. unfold wraps, wrapu. f_equal. by rewrite Zplus_mod_idemp_l. Qed.

Lemma signed_wrapped_difference a b : s64 (u64 a - u64 b) = s64 (a - b).
Proof.
  by rewrite <-(signed_difference (u64 a)), !signed_wrapped, signed_difference.
Qed.

(** Times are compared by the sign of their difference, across the wrap of the
    64-bit counter, when they are less than 2{^63} apart; so are periods. *)
Theorem time_comparisons_wrap t d p :
  in_u 64 t → - 2 ^ 63 < d < 2 ^ 63 →
  kfio_time_after64 (u64 (t + d)) t = (0 <? d)
  ∧ kfio_time_before64 (u64 (t + d)) t = (d <? 0)
  ∧ kfio_time_after_eq64 (u64 (t + d)) t = (0 <=? d)
  ∧ kfio_time_before_eq64 (u64 (t + d)) t = (d <=? 0)
  ∧ (0 <= p → p * 1000 < 2 ^ 63 → PERIOD_OVER (u64 (t + p * 1000 + d)) t p = (0 <? d)).
Proof.
  intros T D. change (2 ^ 63) with 9223372036854775808 in *.
  assert (∀ x y, kfio_time_after64 (u64 x) (u64 y) = (s64 (y - x) <? 0)) as A.
  { intros x y. unfold kfio_time_after64. by rewrite signed_difference, signed_wrapped_difference. }
  assert (∀ x y, kfio_time_after_eq64 (u64 x) (u64 y) = (s64 (x - y) >=? 0)) as B.
  { intros x y. unfold kfio_time_after_eq64. by rewrite signed_difference, signed_wrapped_difference. }
  assert (∀ x, - 9223372036854775808 < x < 9223372036854775808 → s64 x = x) as S.
  { intros x X. apply wraps_small; [done|]. unfold in_s. change (2 ^ (64 - 1)) with 9223372036854775808. lia. }
  assert (u64 t = t) as Ut by (by apply wrapu_small).
  unfold kfio_time_before64, kfio_time_before_eq64, PERIOD_OVER, FIO_MSEC_TO_USEC. split_and!.
  - rewrite <-Ut at 2. rewrite A. replace (t - (t + d)) with (- d) by lia. rewrite S by lia.
    destruct (Z.ltb_spec (- d) 0), (Z.ltb_spec 0 d); lia.
  - rewrite <-Ut at 1. rewrite A. replace (t + d - t) with d by lia. by rewrite S.
  - rewrite <-Ut at 2. rewrite B. replace (t + d - t) with d by lia. rewrite S by lia. by rewrite Z.geb_leb.
  - rewrite <-Ut at 1. rewrite B. replace (t - (t + d)) with (- d) by lia. rewrite S, Z.geb_leb by lia.
    destruct (Z.leb_spec 0 (- d)), (Z.leb_spec d 0); lia.
  - intros P P2. rewrite (wrapu_small 64 p), (wrapu_small 64 (p * 1000)) by (unfold in_u; change (2 ^ 64) with 18446744073709551616; lia).
    rewrite A. replace (t + p * 1000 - (t + p * 1000 + d)) with (- d) by lia. rewrite S by lia.
    destruct (Z.ltb_spec (- d) 0), (Z.ltb_spec 0 d); lia.
Qed.

(** ** A clock of 250 ticks a second *)

Definition clock_250 : Clock :=
  {| HZ := 250; MAX_JIFFY_OFFSET := 2 ^ 62 - 2; jiffies_to_usecs j := u32 (4000 * j); msleep_interruptible ms := ms / 2 |}.

Lemma clock_250_laws : ClockLaws (H := clock_250).
Proof.
  split; cbn; try done. intros ms M. split; [by apply Z.div_pos|apply Z.div_le_upper_bound; lia].
Qed.

(** A minute and a microsecond; two hours, which become 584 million years. *)
Theorem usectohz_exact_witness :
  60000001 <= fusion_hztousec (H := clock_250) (fusion_usectohz (H := clock_250) 60000001) < 60004001
  ∧ fusion_usectohz (H := clock_250) 7200000000 = 2 ^ 62 - 2.
Proof.
  split.
  - exact (proj1 (usectohz_exact (H := clock_250) (H0 := clock_250_laws) 60000001 ltac:(done))).
  - exact (usectohz_exact (H := clock_250) (H0 := clock_250_laws) 7200000000 ltac:(done)).
Defined.

Theorem ticks_roundtrip_witness : fusion_usectohz (H := clock_250) (fusion_hztousec (H := clock_250) 15000) = 15000.
Proof. apply (ticks_roundtrip (H := clock_250) (H0 := clock_250_laws)); by vm_compute. Defined.

Theorem nanotime_jumps_back_witness :
  fusion_getnanotime (H := clock_250) 18446744074 < fusion_getnanotime (H := clock_250) 18446744073.
Proof. exact (proj2 (proj2 (nanotime_jumps_back (H := clock_250) (H0 := clock_250_laws)))). Defined.

(** The clock has just wrapped. *)
Theorem time_comparisons_wrap_witness : kfio_time_after64 5 (2 ^ 64 - 5) = true ∧ PERIOD_OVER 2005 (2 ^ 64 - 5) 2 = true.
Proof.
  destruct (time_comparisons_wrap (2 ^ 64 - 5) 10 2) as (A & _ & _ & _ & P); [done|done|]. split; [exact A|].
  exact (P ltac:(done) ltac:(done)).
Defined.
