(* ===== verification/KSpin.v ===== *)
(** * Spinlocks and timed waits: kfio.c, kcondvar.c

    A [fusion_spinlock_t] keeps, besides the lock, the interrupt state that its
    holder is to restore.  The waits on a condition variable release and take the
    lock in the way in which it was taken, which they read off that field.  Any
    number of threads use one lock and one condition variable; each critical
    operation is a step. *)
From stdpp Require Import functions.
From S2P Require Import Prelude Condvar KTime.

(** ** Spinlocks *)

Definition FUSION_SPINLOCK_NOT_IRQSAVED : Z := 2 ^ 64 - 1.

(** The word in which the processor saves whether interrupts are enabled. *)
Class IrqFlags := {
  irq_word : bool → Z;
  irq_enabled : Z → bool
}.
Class IrqFlagsLaws `{IrqFlags} : Prop := {
  irq_restore b : irq_enabled (irq_word b) = b;
  irq_word_saved b : irq_word b ≠ FUSION_SPINLOCK_NOT_IRQSAVED
}.

Record linux_spinlock := mk_spinlock {
  held_by : option nat;      (* [lock]: the thread that holds it *)
  saved_flags : Z            (* [flags] *)
}.

(** The lock, a condition variable that is used with it, and whether interrupts are
    enabled for each thread. *)
Record machine (Q : Type) := mk_machine {
  the_lock : linux_spinlock;
  irqs : nat → bool;
  the_cv : Q
}.
Arguments mk_machine {Q} _ _ _.
Arguments the_lock {Q} _.
Arguments irqs {Q} _.
Arguments the_cv {Q} _.

Section spin.
Context `{IrqFlags} {Q : Type} `{WaitQueue Q}.
Implicit Types (m : machine Q) (t : nat).

Definition with_lock (l : linux_spinlock) m : machine Q := mk_machine l (irqs m) (the_cv m).
Definition with_irqs t (on : bool) m : machine Q := mk_machine (the_lock m) (<[t := on]> (irqs m)) (the_cv m).
Definition with_cv (q : Q) m : machine Q := mk_machine (the_lock m) (irqs m) q.

(** The lock as [fusion_init_spin] leaves it: [flags] keeps what was there. *)
Definition fusion_init_spin (l : linux_spinlock) : linux_spinlock := mk_spinlock None (saved_flags l).
Definition fusion_spin_is_locked m : Z := if held_by (the_lock m) is Some _ then 1 else 0.
Definition fusion_spin_is_irqsaved m : Z :=
  if saved_flags (the_lock m) =? FUSION_SPINLOCK_NOT_IRQSAVED then 0 else 1.

(** Operations that take the lock return [None] while they spin. *)
Definition acquire t (m : machine Q) (flags : Z) : option (machine Q) :=
  match held_by (the_lock m) with
  | Some _ => None
  | None => Some (with_lock (mk_spinlock (Some t) flags) m)
  end.

Definition fusion_spin_lock t m : option (machine Q) := acquire t m FUSION_SPINLOCK_NOT_IRQSAVED.
Definition fusion_spin_lock_irqdisabled t m : option (machine Q) := acquire t m (saved_flags (the_lock m)).
Definition fusion_spin_lock_irq t m : option (machine Q) :=
  acquire t (with_irqs t false m) (saved_flags (the_lock m)).
Definition fusion_spin_lock_irqsave t m : option (machine Q) :=
  acquire t (with_irqs t false m) (irq_word (irqs m t)).

Definition fusion_spin_trylock t m : machine Q * Z :=
  match acquire t m FUSION_SPINLOCK_NOT_IRQSAVED with Some m' => (m', 1) | None => (m, 0) end.
(** A failed [spin_trylock_irqsave] restores the interrupts. *)
Definition fusion_spin_trylock_irqsave t m : machine Q * Z :=
  match acquire t (with_irqs t false m) (irq_word (irqs m t)) with Some m' => (m', 1) | None => (m, 0) end.

Definition fusion_spin_unlock m : machine Q := with_lock (mk_spinlock None (saved_flags (the_lock m))) m.
Definition fusion_spin_unlock_irq t m : machine Q := with_irqs t true (fusion_spin_unlock m).
Definition fusion_spin_unlock_irqrestore t m : machine Q :=
  with_irqs t (irq_enabled (saved_flags (the_lock m))) (fusion_spin_unlock m).

(** ** Waits *)

(** A wait up to [schedule_timeout]; it remembers how the lock was taken.  The end,
    once the thread runs again. *)
Definition wait_begin t m : machine Q * Z :=
  let is_irqsaved := fusion_spin_is_irqsaved m in
  let m := with_cv (wq_prepare_to_wait_exclusive t (the_cv m)) m in
  (if negb (is_irqsaved =? 0) then fusion_spin_unlock_irqrestore t m else fusion_spin_unlock m, is_irqsaved).
Definition wait_end t (is_irqsaved : Z) m : option (machine Q) :=
  m ← (if negb (is_irqsaved =? 0) then fusion_spin_lock_irqsave t m else fusion_spin_lock t m);
  Some (with_cv (wq_finish_wait t (the_cv m)) m).
End spin.

(** What a wait with a timeout tells its caller; [schedule_timeout] is what the
    kernel's function returns, the number of ticks that were left. *)
Section timed.
Context `{Clock} (schedule_timeout : Z → Z).

Definition __fusion_condvar_timedwait (timeout_us : Z) : Z :=
  let tmo := s64 (fusion_usectohz (u64 timeout_us)) in
  let ret := s32 (schedule_timeout tmo) in
  if ret =? 0 then FUSION_WAIT_TIMEDOUT else FUSION_WAIT_TRIGGERED.

Definition fusion_condvar_timedwait_noload_elapsed (timeout_us : Z) : Z :=
  let tmo := s64 (fusion_usectohz (u64 timeout_us)) in
  let ret := u32 (schedule_timeout tmo) in
  u64 (timeout_us - fusion_hztousec ret).
End timed.

(** ** Threads *)

(** Where a thread is: elsewhere, holding the lock (taken with the interrupts saved
    or not), or asleep in a wait. *)
Inductive place := Elsewhere | Holding (irqsave : bool) | Asleep (is_irqsaved : Z).

Section threads.
Context `{IrqFlags} {Q : Type} `{WaitQueue Q}.
Implicit Types (m : machine Q) (t : nat) (pl : nat → place).

(** Locks are taken and released in pairs; [kcondvar.h] has the lock held by who
    waits or signals.  A sleeper runs again after a signal, a timeout, or for no
    reason. *)
Inductive step : (nat → place) * machine Q → (nat → place) * machine Q → Prop :=
  | step_lock t pl m m' : pl t = Elsewhere → fusion_spin_lock t m = Some m' →
      step (pl, m) (<[t := Holding false]> pl, m')
  | step_lock_irqsave t pl m m' : pl t = Elsewhere → fusion_spin_lock_irqsave t m = Some m' →
      step (pl, m) (<[t := Holding true]> pl, m')
  | step_trylock t pl m m' r : pl t = Elsewhere → fusion_spin_trylock t m = (m', r) →
      step (pl, m) (if r =? 1 then <[t := Holding false]> pl else pl, m')
  | step_trylock_irqsave t pl m m' r : pl t = Elsewhere → fusion_spin_trylock_irqsave t m = (m', r) →
      step (pl, m) (if r =? 1 then <[t := Holding true]> pl else pl, m')
  | step_unlock t pl m : pl t = Holding false → step (pl, m) (<[t := Elsewhere]> pl, fusion_spin_unlock m)
  | step_unlock_irqrestore t pl m : pl t = Holding true →
      step (pl, m) (<[t := Elsewhere]> pl, fusion_spin_unlock_irqrestore t m)
  | step_wait t pl m m' b i : pl t = Holding b → wait_begin t m = (m', i) →
      step (pl, m) (<[t := Asleep i]> pl, m')
  | step_awake t pl m m' i : pl t = Asleep i → wait_end t i m = Some m' →
      step (pl, m) (<[t := Holding (negb (i =? 0))]> pl, m')
  | step_signal t pl m b : pl t = Holding b →
      step (pl, m) (pl, with_cv (fusion_condvar_signal (the_cv m)).2 m)
  | step_broadcast t pl m b : pl t = Holding b →
      step (pl, m) (pl, with_cv (fusion_condvar_broadcast (the_cv m)).2 m).

(** The start: nobody has the lock, its [flags] are whatever they are. *)
Definition start (flags : Z) (on : nat → bool) : (nat → place) * machine Q :=
  (λ _, Elsewhere, mk_machine (fusion_init_spin (mk_spinlock None flags)) on fusion_condvar_init).

(** What the place of a thread says of the lock and of its interrupts, which were
    [on] before. *)
Definition at_place m (on : bool) t (p : place) : Prop :=
  match p with
  | Elsewhere => held_by (the_lock m) ≠ Some t ∧ irqs m t = on
  | Holding b => held_by (the_lock m) = Some t
      ∧ saved_flags (the_lock m) = (if b then irq_word on else FUSION_SPINLOCK_NOT_IRQSAVED)
      ∧ irqs m t = (if b then false else on)
  | Asleep i => held_by (the_lock m) ≠ Some t ∧ irqs m t = on
  end.

(** A thread is queued only while it sleeps; the lock is held by a thread that
    knows it. *)
Record spin_inv (on : nat → bool) (c : (nat → place) * machine Q) : Prop := {
  si_place t : at_place c.2 (on t) t (c.1 t);
  si_held t : held_by (the_lock c.2) = Some t → ∃ b, c.1 t = Holding b;
  si_queued t : t ∈ wq_waiters (the_cv c.2) → ∃ i, c.1 t = Asleep i
}.
End threads.

Section invariant.
Context `{IL : IrqFlagsLaws} {Q : Type} `{WL : WaitQueueLaws Q}.
Implicit Types (m : machine Q) (t : nat) (pl : nat → place) (on : nat → bool).

Lemma is_irqsaved_holding on pl m t b :
  spin_inv on (pl, m) → pl t = Holding b → fusion_spin_is_irqsaved m = Z.b2z b.
Proof.
  intros I E. pose proof (si_place _ _ I t) as P. cbn in P. rewrite E in P. destruct P as (_ & F & _).
  unfold fusion_spin_is_irqsaved. rewrite F. destruct b; [|done].
  by rewrite (proj2 (Z.eqb_neq _ _)) by apply irq_word_saved.
Qed.

(** Taking a free lock. *)
Lemma acquire_inv on pl m m' t (b : bool) :
  spin_inv on (pl, m) → (∃ p, pl t = p ∧ (p = Elsewhere ∨ ∃ i, p = Asleep i)) →
  acquire t (if b then with_irqs t false m else m) (if b then irq_word (irqs m t) else FUSION_SPINLOCK_NOT_IRQSAVED) = Some m' →
  held_by (the_lock m) = None ∧ the_cv m' = the_cv m ∧ (∀ u, at_place m' (on u) u (<[t := Holding b]> pl u))
  ∧ ∀ u, held_by (the_lock m') = Some u → u = t.
Proof.
  intros I (p & Ep & Hp) A. pose proof (si_place _ _ I) as P. cbn in P.
  assert (irqs m t = on t) as Ot by (specialize (P t); rewrite Ep in P; by destruct Hp as [->|[i ->]], P).
  unfold acquire in A. destruct (held_by _) eqn:Hb in A; [done|]. injection A as <-.
  assert (held_by (the_lock m) = None) as Hm by by destruct b.
  split; [done|]. split; [by destruct b|]. split; [|cbn; congruence]. intros u. destruct (decide (u = t)) as [->|N].
  - rewrite fn_lookup_insert. cbn. split; [done|]. destruct b; cbn; [rewrite Ot, fn_lookup_insert|]; done.
  - rewrite fn_lookup_insert_ne by done. specialize (P u).
    assert (irqs (if b then with_irqs t false m else m) u = irqs m u) as Iu by (destruct b; [cbn; by rewrite fn_lookup_insert_ne|done]).
    destruct (pl u); cbn in *; rewrite Iu; [|by rewrite Hm in P; destruct P|]; (split; [congruence|apply P]).
Qed.

(** Releasing it in the way in which it was taken. *)
Lemma release_inv on pl m t b p :
  spin_inv on (pl, m) → pl t = Holding b → (p = Elsewhere ∨ ∃ i, p = Asleep i) →
  let m' := if b then fusion_spin_unlock_irqrestore t m else fusion_spin_unlock m in
  the_cv m' = the_cv m ∧ held_by (the_lock m') = None ∧ ∀ u, at_place m' (on u) u (<[t := p]> pl u).
Proof.
  intros I E Hp m'. pose proof (si_place _ _ I) as P. cbn in P. pose proof (P t) as Pt. rewrite E in Pt.
  destruct Pt as (Hb & F & It). assert (held_by (the_lock m') = None) as Hn by by unfold m'; destruct b.
  split; [by unfold m'; destruct b|]. split; [done|]. intros u. destruct (decide (u = t)) as [->|N].
  - rewrite fn_lookup_insert. assert (irqs m' t = on t) as Im.
    { unfold m'. destruct b; cbn; [|done]. by rewrite fn_lookup_insert, F, irq_restore. }
    destruct Hp as [->|[i ->]]; cbn; by rewrite Hn.
  - rewrite fn_lookup_insert_ne by done. specialize (P u).
    assert (irqs m' u = irqs m u) as Iu by (unfold m'; destruct b; [cbn; by rewrite fn_lookup_insert_ne|done]).
    destruct (pl u); cbn in *; rewrite ?Iu, ?Hn; [|by rewrite Hb in P; destruct P as [[= ->] _]|]; (split; [done|apply P]).
Qed.

Lemma acquire_step on pl m m' t (b : bool) :
  spin_inv on (pl, m) → pl t = Elsewhere →
  acquire t (if b then with_irqs t false m else m) (if b then irq_word (irqs m t) else FUSION_SPINLOCK_NOT_IRQSAVED) = Some m' →
  spin_inv on (<[t := Holding b]> pl, m').
Proof.
  intros I E A. destruct (acquire_inv on pl m m' t b I) as (_ & C & P & O); [eauto|done|]. split; cbn.
  - exact P.
  - intros u ->%O. rewrite fn_lookup_insert. eauto.
  - intros u. rewrite C. intros U. destruct (si_queued _ _ I u U) as [i Ei]. cbn in Ei. exists i.
    rewrite fn_lookup_insert_ne; [done|]. intros ->. by rewrite E in Ei.
Qed.

Lemma release_step on pl m t b :
  spin_inv on (pl, m) → pl t = Holding b →
  spin_inv on (<[t := Elsewhere]> pl, if b then fusion_spin_unlock_irqrestore t m else fusion_spin_unlock m).
Proof.
  intros I E. destruct (release_inv on pl m t b Elsewhere I E) as (C & Hn & P); [by left|]. split; cbn.
  - exact P.
  - by rewrite Hn.
  - intros u. rewrite C. intros U. destruct (si_queued _ _ I u U) as [i Ei]. cbn in Ei. exists i.
    rewrite fn_lookup_insert_ne; [done|]. intros ->. by rewrite E in Ei.
Qed.

(** The queue may lose threads at any time. *)
Lemma fewer_waiters on pl m q :
  spin_inv on (pl, m) → (∀ u, u ∈ wq_waiters q → u ∈ wq_waiters (the_cv m)) → spin_inv on (pl, with_cv q m).
Proof.
  intros I S. split; cbn; [intros u; exact (si_place _ _ I u)|exact (si_held _ _ I)|].
  intros u U. by apply (si_queued _ _ I), S.
Qed.

(** A wait that begins, and one that ends. *)
Lemma wait_begin_step on pl m m' t b i :
  spin_inv on (pl, m) → pl t = Holding b → wait_begin t m = (m', i) →
  i = Z.b2z b ∧ spin_inv on (<[t := Asleep i]> pl, m').
Proof.
  intros I E W. unfold wait_begin in W. rewrite (is_irqsaved_holding on pl m t b I E) in W. injection W as <- <-.
  split; [done|]. set (q := wq_prepare_to_wait_exclusive t (the_cv m)).
  assert (t ∉ wq_waiters (the_cv m)) as Nt by (intros [j Ej]%(si_queued _ _ I); cbn in Ej; by rewrite E in Ej).
  destruct (release_inv on pl m t b (Asleep (Z.b2z b)) I E) as (C & Hn & P); [eauto|].
  destruct b; cbn [Z.b2z negb Z.eqb] in *; (split; cbn in *;
    [exact P|by intros u|intros u; unfold q; rewrite (wq_waiters_prepare t _ Nt); intros [->|U]%elem_of_cons;
      [rewrite fn_lookup_insert; eauto|destruct (si_queued _ _ I u U) as [j Ej]; cbn in Ej;
        rewrite fn_lookup_insert_ne; [eauto|intros ->; by rewrite E in Ej]]]).
Qed.

Lemma wait_end_step on pl m m' t i :
  spin_inv on (pl, m) → pl t = Asleep i → wait_end t i m = Some m' →
  spin_inv on (<[t := Holding (negb (i =? 0))]> pl, m').
Proof.
  intros I E W. unfold wait_end in W. set (b := negb (i =? 0)) in *.
  assert (∃ m1, acquire t (if b then with_irqs t false m else m)
      (if b then irq_word (irqs m t) else FUSION_SPINLOCK_NOT_IRQSAVED) = Some m1
    ∧ m' = with_cv (wq_finish_wait t (the_cv m1)) m1) as (m1 & A & ->).
  { unfold fusion_spin_lock_irqsave, fusion_spin_lock in W.
    destruct b; (destruct (acquire _ _ _) as [m1|]; cbn in W; [|done]); injection W as <-; by exists m1. }
  destruct (acquire_inv on pl m m1 t b I) as (_ & C & P & O); [eauto|done|]. split; cbn.
  - exact P.
  - intros u ->%O. rewrite fn_lookup_insert. eauto.
  - intros u. rewrite (wq_finish_spec t (the_cv m1)). intros [N U]%list_elem_of_filter. rewrite C in U.
    rewrite fn_lookup_insert_ne by done. by apply (si_queued _ _ I).
Qed.

Lemma spin_step_inv on c c' : spin_inv on c → step c c' → spin_inv on c'.
Proof.
  intros I S. destruct S as [t pl m m' E A|t pl m m' E A|t pl m m' r E A|t pl m m' r E A|t pl m E|t pl m E
    |t pl m m' b i E W|t pl m m' i E W|t pl m b E|t pl m b E].
  - by apply (acquire_step on pl m m' t false I E).
  - by apply (acquire_step on pl m m' t true I E).
  - unfold fusion_spin_trylock in A. destruct (acquire _ _ _) as [m1|] eqn:Ea; injection A as <- <-; [|done].
    by apply (acquire_step on pl m m1 t false I E).
  - unfold fusion_spin_trylock_irqsave in A. destruct (acquire _ _ _) as [m1|] eqn:Ea; injection A as <- <-; [|done].
    by apply (acquire_step on pl m m1 t true I E).
  - by apply (release_step on pl m t false).
  - by apply (release_step on pl m t true).
  - by eapply wait_begin_step.
  - by eapply wait_end_step.
  - apply fewer_waiters; [done|]. intros u U. destruct (fusion_condvar_signal (the_cv m)) as [[w|] q] eqn:Es; cbn in U.
    + apply signal_elem in Es. rewrite Es. by right.
    + apply signal_none in Es as [_ Es]. rewrite Es in U. by apply elem_of_nil in U.
  - apply fewer_waiters; [done|]. intros u U. destruct (wq_wake_up_all_spec (the_cv m)) as [_ Es].
    unfold fusion_condvar_broadcast in U. rewrite Es in U. by apply elem_of_nil in U.
Qed.

Lemma start_inv flags on : spin_inv on (start flags on).
Proof.
  split; cbn; [done|done|]. intros t. unfold fusion_condvar_init. rewrite wq_waiters_init. by intros ?%elem_of_nil.
Qed.

(** C29: In every interleaving of threads that lock, unlock, signal and wait, the
    interrupts of a thread are as it had them whenever it does not hold the lock
    with interrupts saved, at most one thread holds the lock, and a thread that
    wakes holds it in the way in which it did before it slept; the lock's record
    tells every holder how that was. *)
Theorem interrupts_restored flags on c :
  rtc step (start flags on) c →
  (∀ t, match c.1 t with
        | Holding true => irqs c.2 t = false
        | _ => irqs c.2 t = on t
        end)
  ∧ (∀ t u b b', c.1 t = Holding b → c.1 u = Holding b' → t = u)
  ∧ (∀ t b, c.1 t = Holding b → fusion_spin_is_irqsaved c.2 = Z.b2z b
       ∧ ∀ m' i, wait_begin t c.2 = (m', i) → i = Z.b2z b ∧ fusion_spin_is_locked m' = 0 ∧ irqs m' t = on t)
  ∧ (∀ t i m', c.1 t = Asleep i → wait_end t i c.2 = Some m' →
       fusion_spin_is_irqsaved m' = Z.b2z (negb (i =? 0)) ∧ held_by (the_lock m') = Some t
       ∧ irqs m' t = (if i =? 0 then on t else false)).
Proof.
  intros R. assert (spin_inv on c) as I.
  { remember (start flags on) as c0 eqn:E0. assert (spin_inv on c0) as I0 by (subst; apply start_inv). clear E0.
    induction R as [|x y z S R IH]; [done|]. apply IH. by eapply spin_step_inv. }
  pose proof (si_place _ _ I) as P. destruct c as [pl m]. cbn in *. split_and!.
  - intros t. specialize (P t). destruct (pl t) as [|[]|]; apply P.
  - intros t u b b' Et Eu. pose proof (P t) as Pt. pose proof (P u) as Pu. rewrite Et in Pt. rewrite Eu in Pu.
    destruct Pt as [Ht _], Pu as [Hu _]. congruence.
  - intros t b E. split; [by apply (is_irqsaved_holding on pl m t b I E)|]. intros m' i W.
    destruct (wait_begin_step on pl m m' t b i I E W) as [-> I']. split; [done|].
    pose proof (si_place _ _ I' t) as Pt. cbn in Pt. rewrite fn_lookup_insert in Pt. split; [|apply Pt].
    unfold fusion_spin_is_locked. destruct (held_by (the_lock m')) as [u|] eqn:Hu; [|done].
    exfalso. destruct (si_held _ _ I' u Hu) as [b' Eb]. cbn in Eb. destruct (decide (u = t)) as [->|N].
    + by rewrite fn_lookup_insert in Eb.
    + rewrite fn_lookup_insert_ne in Eb by done. specialize (P t) as Pt'. pose proof (P u) as Pu. rewrite E in Pt'. rewrite Eb in Pu.
      destruct Pt' as [Ht _], Pu as [Hu' _]. congruence.
  - intros t i m' E W. pose proof (wait_end_step on pl m m' t i I E W) as I'.
    assert ((<[t := Holding (negb (i =? 0))]> pl) t = Holding (negb (i =? 0))) as E' by apply fn_lookup_insert.
    split; [exact (is_irqsaved_holding on _ m' t _ I' E')|]. pose proof (si_place _ _ I' t) as Pt. cbn in Pt. rewrite E' in Pt.
    destruct Pt as (Hb & _ & Hi). split; [done|]. rewrite Hi. by destruct (i =? 0).
Qed.
End invariant.

(** ** What a timed wait returns *)

Section results.
Context `{CL : ClockLaws} (schedule_timeout : Z → Z).

(** The kernel's function returns the number of ticks that were left. *)
Hypothesis left_over : ∀ tmo, 0 <= tmo → 0 <= schedule_timeout tmo <= tmo.

Lemma ticks_of timeout_us :
  0 <= timeout_us <= limit → s64 (fusion_usectohz (u64 timeout_us)) = fusion_usectohz timeout_us ∧ 0 <= fusion_usectohz timeout_us <= timeout_us
  ∧ fusion_usectohz timeout_us * tick < timeout_us + tick.
Proof.
  intros U. pose proof limit_range as L. pose proof tick_pos as T. change (2 ^ 32) with 4294967296 in L.
  rewrite wrapu_small by (unfold in_u; change (2 ^ 64) with 18446744073709551616; lia). rewrite usectohz_div by done.
  assert (tick ≠ 0) as Tn by lia. pose proof (Z.div_mod (timeout_us + tick - 1) tick Tn) as D.
  pose proof (Z.mod_pos_bound (timeout_us + tick - 1) tick (proj1 T)) as B. set (q := (timeout_us + tick - 1) / tick) in *.
  assert (0 <= q) by (apply Z.div_pos; lia). assert (q * tick < timeout_us + tick) by lia.
  assert (q <= timeout_us) by (apply Z.lt_succ_r, (Z.mul_lt_mono_pos_r tick); nia).
  split; [|lia]. apply wraps_small; [done|]. unfold in_s.
  change (2 ^ (64 - 1)) with 9223372036854775808. lia.
Qed.

(** A timed wait that is not above the limit times out exactly when no tick was
    left, is never reported as interrupted, and the time it is said to have taken is
    the timeout less what was left; but this is computed in whole ticks without
    regard to the rounding, so that a wait that ends within the tick in which it
    began may be said to have taken almost 2{^64} microseconds. *)
Theorem timed_wait_results timeout_us :
  0 <= timeout_us <= limit →
  let left := schedule_timeout (fusion_usectohz timeout_us) in
  __fusion_condvar_timedwait schedule_timeout timeout_us = (if left =? 0 then FUSION_WAIT_TIMEDOUT else FUSION_WAIT_TRIGGERED)
  ∧ fusion_condvar_timedwait_noload_elapsed schedule_timeout timeout_us
    = (if left * tick <=? timeout_us then timeout_us - left * tick else 2 ^ 64 - (left * tick - timeout_us)).
Proof.
  intros U left. pose proof limit_range as L. pose proof tick_pos as T. change (2 ^ 32) with 4294967296 in L.
  destruct (ticks_of timeout_us U) as (E & [N Le] & Lt). pose proof (left_over _ N) as R. fold left in R.
  unfold __fusion_condvar_timedwait, fusion_condvar_timedwait_noload_elapsed. rewrite E. fold left. split.
  - destruct (Z.eqb_spec left 0) as [->|Nz]; [done|]. rewrite (proj2 (Z.eqb_neq (s32 left) 0)); [done|].
    unfold wraps. change (2 ^ (32 - 1)) with 2147483648. change (2 ^ 32) with 4294967296.
    destruct (decide (left < 2147483648)); [rewrite Z.mod_small by lia; lia|].
    replace (left + 2147483648) with (left - 2147483648 + 1 * 4294967296) by lia. rewrite Z.mod_add, Z.mod_small by lia. lia.
  - rewrite (wrapu_small 32 left) by (unfold in_u; change (2 ^ 32) with 4294967296; lia).
    rewrite hztousec_mul by (try done; change (2 ^ 64) with 18446744073709551616; nia).
    change (2 ^ 64) with 18446744073709551616. destruct (Z.leb_spec (left * tick) timeout_us) as [Le'|Gt].
    + apply wrapu_small. unfold in_u. change (2 ^ 64) with 18446744073709551616. nia.
    + unfold wrapu. change (2 ^ 64) with 18446744073709551616.
      replace (timeout_us - left * tick) with (18446744073709551616 - (left * tick - timeout_us) + (-1) * 18446744073709551616) by lia.
      rewrite Z.mod_add by done. apply Z.mod_small. nia.
Qed.
End results.

(** ** Examples *)

Definition x86_flags : IrqFlags := {| irq_word b := if b then 0x246 else 0x046; irq_enabled w := Z.testbit w 9 |}.

Lemma x86_flags_laws : IrqFlagsLaws (H := x86_flags).
Proof. split; by intros []. Qed.

(** Thread 1 takes the lock with the interrupts saved and falls asleep, thread 2
    takes it without. *)
Theorem interrupts_restored_witness :
  ∃ c, rtc (step (H := x86_flags)) (@start (list nat) _ 7 (λ _, true)) c ∧ c.1 1%nat = Asleep 1 ∧ c.1 2%nat = Holding false
    ∧ irqs c.2 1%nat = true.
Proof.
  eassert (rtc (step (H := x86_flags)) (@start (list nat) _ 7 (λ _, true)) _) as R.
  { eapply rtc_l; [by eapply (step_lock_irqsave (H := x86_flags) 1%nat)|].
    eapply rtc_l; [by eapply (step_wait (H := x86_flags) 1%nat)|].
    eapply rtc_l; [by eapply (step_lock (H := x86_flags) 2%nat)|]. apply rtc_refl. }
  pose proof (interrupts_restored (H := x86_flags) (IL := x86_flags_laws) _ _ _ R) as (I & _).
  eexists. split; [exact R|]. split; [done|]. split; [done|]. exact (I 1%nat).
Defined.

(** A timeout of a microsecond, and a signal at once. *)
Theorem timed_wait_results_witness :
  __fusion_condvar_timedwait (H := clock_250) (λ tmo, tmo) 1 = FUSION_WAIT_TRIGGERED
  ∧ fusion_condvar_timedwait_noload_elapsed (H := clock_250) (λ tmo, tmo) 1 = 2 ^ 64 - 3999.
Proof.
  apply (timed_wait_results (H := clock_250) (CL := clock_250_laws) (λ tmo, tmo)).
  - intros tmo T. lia.
  - by vm_compute.
Defined.
