(* ===== verification/KPci.v ===== *)
(** * PCI devices: pci.c

    Probing, removing and shutting down a device, its command register, the NUMA node
    a module parameter gives it, and the search for its slot number in the BIOS. *)
From S2P Require Import Prelude Bits Kinfo KinfoData KinfoProc KinfoProcSpec.

(** ** A device and the kernel *)

Inductive pci_event :=
  | Enabled | RequestedRegions | SetDmaMask (mask : Z) | SetMaster | Attached
  | Detached | ShutDown | ReleasedRegions | Disabled.

Record pci_device := mk_pci {
  pd_enabled : bool;
  pd_regions : bool;        (* its regions are taken *)
  pd_attached : bool;       (* the core has it *)
  pd_command : Z;           (* PCI_COMMAND, 16 bits *)
  pd_log : list pci_event
}.

(** The bits of the register, and what the kernel's [pci_disable_device] makes of it. *)
Class PciBus := {
  PCI_COMMAND_IO : Z;
  PCI_COMMAND_MEMORY : Z;
  PCI_COMMAND_INTX_DISABLE : Z;
  pci_disable_command : Z → Z
}.

(** What the calls of one probe return; the kernel's [pci_request_regions] is given
    whether they are taken. *)
Record probe_calls := mk_calls {
  ignore_pci_device : Z;
  enable_device : Z;
  request_regions : bool → Z;
  dma_set_mask : Z;
  iodrive_pci_attach : Z
}.

(** Regions that are taken are not given out again. *)
Definition calls_ok (c : probe_calls) : Prop := request_regions c true = - EBUSY.

Section pci.
Context `{PciBus}.
Implicit Types (d : pci_device) (c : probe_calls).

Definition set_enabled (b : bool) d := mk_pci b (pd_regions d) (pd_attached d) (pd_command d) (pd_log d).
Definition set_regions (b : bool) d := mk_pci (pd_enabled d) b (pd_attached d) (pd_command d) (pd_log d).
Definition set_attached (b : bool) d := mk_pci (pd_enabled d) (pd_regions d) b (pd_command d) (pd_log d).
Definition set_command (v : Z) d := mk_pci (pd_enabled d) (pd_regions d) (pd_attached d) v (pd_log d).
Definition log (e : pci_event) d := mk_pci (pd_enabled d) (pd_regions d) (pd_attached d) (pd_command d) (pd_log d ++ [e]).

(** ** The command register *)

Definition kfio_iodrive_intx (enable : bool) d : pci_device :=
  let c := pd_command d in
  let n := if enable then u16 (Z.land c (Z.lnot PCI_COMMAND_INTX_DISABLE)) else u16 (Z.lor c PCI_COMMAND_INTX_DISABLE) in
  if negb (n =? c) then set_command n d else d.

Definition kfio_pci_disable_device d : pci_device :=
  let old := Z.land (pd_command d) (Z.lor PCI_COMMAND_IO PCI_COMMAND_MEMORY) in
  let d := log Disabled (set_enabled false (set_command (pci_disable_command (pd_command d)) d)) in
  let cmd := pd_command d in
  if negb (Z.land cmd old =? old) then set_command (Z.lor cmd old) d else d.

(** ** Probing *)

Definition kfio_pci_release_regions d : pci_device := log ReleasedRegions (set_regions false d).

Definition iodrive_pci_probe c d : pci_device * Z :=
  if negb (ignore_pci_device c =? 0) then (d, - ENODEV)
  else
    let result := enable_device c in
    if result <? 0 then (d, result)
    else
      let d := log Enabled (set_enabled true d) in
      let result := request_regions c (pd_regions d) in
      if result <? 0 then (kfio_pci_disable_device d, result)
      else
        let d := log RequestedRegions (set_regions true d) in
        let result := dma_set_mask c in
        if negb (result =? 0) then (kfio_pci_disable_device d, result)
        else
          let d := log SetMaster (log (SetDmaMask (2 ^ 64 - 1)) d) in
          let result := iodrive_pci_attach c in
          if result <? 0 then (kfio_pci_disable_device (kfio_pci_release_regions d), result)
          else (log Attached (set_attached true d), 0).

Definition iodrive_pci_on_remove d : pci_device :=
  kfio_pci_disable_device (kfio_pci_release_regions (log Detached (set_attached false d))).
Definition iodrive_pci_on_shutdown d : pci_device :=
  kfio_pci_disable_device (kfio_pci_release_regions (log ShutDown (set_attached false d))).
End pci.

(** ** Message signalled interrupts *)

(** Entries are pairs of vector and number.  [pci_enable_msix_exact] is the kernel's
    function: its result and the entries with the vectors that it assigned. *)
Definition kfio_pci_enable_msix (capability : bool) (pci_enable_msix_exact : list (Z * Z) → Z * list (Z * Z))
    (nr_vecs : Z) (msi : list (Z * Z)) : outcome (Z * list (Z * Z)) :=
  if negb capability then Ok (0, msi)
  else if nr_vecs <=? Z.of_nat (length msi) then
    let '(err, asked) := pci_enable_msix_exact ((λ i, (0, i)) <$> seqZ 0 nr_vecs) in
    let msi := asked ++ drop (Z.to_nat nr_vecs) msi in
    Ok (if negb (err =? 0) then 0 else nr_vecs, msi)
  else Fault OutOfBounds.

(** ** The NUMA node of a device *)

Section numa.
Context `{ProcEnv}.

(** [strncmp] of the length of the name, and the character behind it.  The strings
    are without their final 0. *)
Definition names_device (name param : list Z) : bool :=
  bool_decide (take (length name) param = name) && bool_decide (param !! length name = Some 61).

(** The result, and what is stored through [nodep]. *)
Fixpoint kfio_get_numa_node_override (numa_node_override : list (list Z)) (name : list Z) : outcome (Z * option Z) :=
  match numa_node_override with
  | [] => Ok (- ENOENT, None)
  | param :: rest =>
      if names_device name param then
        let text := drop (length name + 1) param ++ [0] in
        '(v, endptr) ← of_option OutOfBounds (kfio_strtoul text);
        if (endptr =? 0) || negb (bool_decide (text !! Z.to_nat endptr = Some 0)) then Ok (- ENOENT, None)
        else Ok (0, Some (s32 v))
      else kfio_get_numa_node_override rest name
  end.
End numa.

(** ** The slot number *)

Definition SYSTEM_REQUIRED_VERSION : Z := 0x100.
Definition SYSTEM_REQUIRED_MIN_SIZE : Z := 32.
Definition SYSTEM_REQUIRED_SIZE_ALIGNMENT : Z := 16.
Definition SIGNATURE_OFFSET : Z := 16.
(** "$PIR" with its final 0, which is compared too. *)
Definition PCI_IRQ_ROUTING_TABLE_SIGNATURE : list Z := [36; 80; 73; 82; 0].
Definition BIOS_MEMORY_LEN : Z := 0x20000.
Definition sizeof_pci_slot_entry : Z := 16.
Definition sizeof_pci_irq_routing : Z := 32.

(** A record of the table: its bus, device and slot numbers. *)
Record pci_slot_entry := mk_slot { slot_bus : Z; slot_device : Z; slot_number : Z }.
Definition slot_at (bytes : list Z) : pci_slot_entry :=
  mk_slot (default 0 (bytes !! 0%nat)) (default 0 (bytes !! 1%nat)) (default 0 (bytes !! 14%nat)).

Definition slot_matches (devfn bus : Z) (e : pci_slot_entry) : bool :=
  (slot_device e =? devfn) && (slot_bus e =? bus) && (slot_number e >? 0).

Section bios.
Context (bios : list Z) (devfn bus : Z).

(** The records from [next] on, in the table that ends at [stop]. *)
Fixpoint scan_slots (fuel : nat) (next stop : Z) : outcome Z :=
  match fuel with
  | O => Fault NoFuel
  | S fuel =>
      if next <? stop then
        bytes ← slice bios next sizeof_pci_slot_entry;
        let e := slot_at bytes in
        if slot_matches devfn bus e then Ok (slot_number e) else scan_slots fuel (next + sizeof_pci_slot_entry) stop
      else Ok 0
  end.

(** At most [2 ^ 16] bytes of records. *)
Definition slots_fuel : nat := 4097.

Fixpoint scan_bios (fuel : nat) (next : Z) : outcome Z :=
  match fuel with
  | O => Fault NoFuel
  | S fuel =>
      if next <? BIOS_MEMORY_LEN then
        signature ← slice bios next 5;
        if bool_decide (signature = PCI_IRQ_ROUTING_TABLE_SIGNATURE) then
          header ← slice bios next sizeof_pci_irq_routing;
          let version := le_value (take 2 (drop 4 header)) in
          let table_size := le_value (take 2 (drop 6 header)) in
          if (version =? SYSTEM_REQUIRED_VERSION) && (table_size >? SYSTEM_REQUIRED_MIN_SIZE)
             && (table_size mod SYSTEM_REQUIRED_SIZE_ALIGNMENT =? 0)
          then scan_slots slots_fuel next (next + table_size)
          else Ok 0
        else scan_bios fuel (next + SIGNATURE_OFFSET)
      else Ok 0
  end.
End bios.

(** One step for each place in the BIOS. *)
Definition bios_fuel : nat := Z.to_nat (BIOS_MEMORY_LEN / SIGNATURE_OFFSET) + 1.

(** [bios]: what [ioremap] maps, [None] when it fails; every path unmaps it. *)
Definition find_slot_number_bios (bios : option (list Z)) (devfn bus : Z) : outcome Z :=
  match bios with None => Ok 0 | Some bios => scan_bios bios devfn bus bios_fuel 0 end.

Definition find_slot_number_acpi : Z := 0.

(** A device, the bridge of its bus and the one of the parent bus: device and bus
    number of each. *)
Record pci_place := mk_place { pl_dev : Z * Z; pl_self : option (Z * Z); pl_parent_self : option (Z * Z) }.

Definition slot_behind (bios : option (list Z)) (bridge : option (Z * Z)) : outcome Z :=
  match bridge with Some (devfn, bus) => find_slot_number_bios bios devfn bus | None => Ok 0 end.

Definition kfio_pci_get_slot (bios : option (list Z)) (p : pci_place) : outcome Z :=
  slot ← slot_behind bios (Some (pl_dev p));
  slot ← (if slot =? 0 then
            match pl_self p with
            | Some self =>
                slot ← slot_behind bios (Some self);
                if slot =? 0 then slot_behind bios (pl_parent_self p) else Ok slot
            | None => Ok slot
            end
          else Ok slot);
  Ok (u8 (if slot =? 0 then find_slot_number_acpi else slot)).

(** ** The life of a device *)

Section life.
Context `{PciBus}.
Implicit Types (d : pci_device) (c : probe_calls).

(** What the kernel calls: a probe for a device that is not bound to the driver, the
    others for one that is.  A device stays bound when it is shut down, and may be
    removed afterwards. *)
Inductive pci_op := Probe (c : probe_calls) | Remove | Shutdown.

(** Whether the device is bound, and whether it was shut down since. *)
Record binding := mk_binding { bound : bool; was_shut : bool }.

Definition in_service (b : binding) : bool := bound b && negb (was_shut b).

Definition pci_step (bd : binding * pci_device) (op : pci_op) : binding * pci_device :=
  let '(b, d) := bd in
  match op, bound b with
  | Probe c, false => let '(d, result) := iodrive_pci_probe c d in (mk_binding (result =? 0) false, d)
  | Remove, true => (mk_binding false false, iodrive_pci_on_remove d)
  | Shutdown, true => (mk_binding true true, iodrive_pci_on_shutdown d)
  | _, _ => bd
  end.

Definition pci_run : binding * pci_device → list pci_op → binding * pci_device := foldl pci_step.

(** The probe found no DMA. *)
Definition no_dma (op : pci_op) : Prop := ∃ c, op = Probe c ∧ dma_set_mask c ≠ 0.

Definition life_inv (leaky : Prop) (bd : binding * pci_device) : Prop :=
  let '(b, d) := bd in
  pd_enabled d = in_service b ∧ pd_attached d = in_service b ∧ (in_service b = true → pd_regions d = true)
  ∧ (in_service b = false → pd_regions d = true → leaky).

Lemma disable_fields d :
  let d' := kfio_pci_disable_device d in
  pd_enabled d' = false ∧ pd_regions d' = pd_regions d ∧ pd_attached d' = pd_attached d.
Proof. unfold kfio_pci_disable_device. destruct (negb _); done. Qed.

Lemma life_step leaky bd op : life_inv leaky bd → life_inv (leaky ∨ no_dma op) (pci_step bd op).
Proof.
  destruct bd as [[b sh] d]. intros (E & A & R & L).
  destruct op as [c| |], b; cbn [pci_step bound];
    try (split_and!; [done|done|done|intros; left; auto]).
  - change (in_service (mk_binding false sh)) with false in *.
    unfold iodrive_pci_probe. destruct (negb (ignore_pci_device c =? 0)).
    { change (- ENODEV =? 0) with false. split_and!; [done|done|done|intros; left; auto]. }
    destruct (Z.ltb_spec (enable_device c) 0) as [En|En].
    { rewrite (proj2 (Z.eqb_neq _ _)) by lia. split_and!; [done|done|done|intros; left; auto]. }
    cbn [pd_regions log set_enabled]. destruct (Z.ltb_spec (request_regions c (pd_regions d)) 0) as [Rn|Rn].
    { rewrite (proj2 (Z.eqb_neq _ _)) by lia. cbn [life_inv].
      destruct (disable_fields (log Enabled (set_enabled true d))) as (-> & -> & ->). split_and!; [done|done|done|intros; left; auto]. }
    destruct (Z.eqb_spec (dma_set_mask c) 0) as [Dn|Dn]; cbn [negb].
    2: { rewrite (proj2 (Z.eqb_neq _ _)) by done. cbn [life_inv].
      destruct (disable_fields (log RequestedRegions (set_regions true (log Enabled (set_enabled true d))))) as (-> & -> & ->).
      split_and!; [done|done|done|]. intros _ _. right. by exists c. }
    destruct (Z.ltb_spec (iodrive_pci_attach c) 0) as [An|An]; [|split_and!; done].
    rewrite (proj2 (Z.eqb_neq _ _)) by lia. cbn [life_inv].
    match goal with |- context [kfio_pci_disable_device ?x] => destruct (disable_fields x) as (-> & -> & ->) end.
    split_and!; done.
  - cbn [life_inv]. unfold iodrive_pci_on_remove.
    match goal with |- context [kfio_pci_disable_device ?x] => destruct (disable_fields x) as (-> & -> & ->) end. split_and!; done.
  - cbn [life_inv]. unfold iodrive_pci_on_shutdown.
    match goal with |- context [kfio_pci_disable_device ?x] => destruct (disable_fields x) as (-> & -> & ->) end. split_and!; done.
Qed.

Lemma life_run ops leaky bd : life_inv leaky bd → life_inv (leaky ∨ ∃ op, op ∈ ops ∧ no_dma op) (pci_run bd ops).
Proof.
  revert leaky bd. induction ops as [|op ops IH]; intros leaky bd I.
  - destruct bd as [[b sh] d]. destruct I as (E & A & R & L). split_and!; [done|done|done|]. intros; left; auto.
  - pose proof (IH _ _ (life_step leaky bd op I)) as I'. unfold pci_run in *. cbn [foldl].
    destruct (foldl pci_step (pci_step bd op) ops) as [b d]. destruct I' as (E & A & R & L). split_and!; [done|done|done|].
    intros B Rg. destruct (L B Rg) as [[?|N]|(o & O & N)]; [by left| |]; right; eexists; (split; [|done]); [by left|by right].
Qed.

Definition fresh_device (command : Z) : pci_device := mk_pci false false false command [].

(** C32: Through any sequence of probes, removals and shutdowns, a device is in
    service - enabled and known to the core - exactly while it is bound to the driver
    and was not shut down since; then it has its regions.  A shutdown leaves it bound
    but disabled, and a removal may follow.  Out of service its regions are given back
    too, but for those of a probe that found no DMA: they stay taken, and every later
    probe of the device that gets as far is refused with -EBUSY. *)
Theorem device_lifecycle ops command :
  let '(b, d) := pci_run (mk_binding false false, fresh_device command) ops in
  pd_enabled d = in_service b ∧ pd_attached d = in_service b ∧ (in_service b = true → pd_regions d = true)
  ∧ (in_service b = false → pd_regions d = true → ∃ op, op ∈ ops ∧ no_dma op)
  ∧ (in_service b = false → pd_regions d = true →
       ∀ c, calls_ok c → ignore_pci_device c = 0 → 0 <= enable_device c → (iodrive_pci_probe c d).2 = - EBUSY).
Proof.
  pose proof (life_run ops False (mk_binding false false, fresh_device command)) as I. destruct (pci_run _ ops) as [b d].
  destruct I as (E & A & R & L); [by repeat split|]. split_and!; [done|done|done| |].
  - intros B Rg. by destruct (L B Rg) as [[]|].
  - intros B Rg c Ck Ig En. unfold iodrive_pci_probe. rewrite Ig. cbn [negb]. change (negb (0 =? 0)) with false. cbv iota.
    rewrite (proj2 (Z.ltb_ge _ _)) by done. cbn [pd_regions log set_enabled]. rewrite Rg, Ck. done.
Qed.

(** ** The command register *)

(** Interrupts through the pin are switched by one bit of the command register,
    and disabling a device leaves the decoding of its memory and ports as it was;
    no other bit changes on account of the driver. *)
Theorem command_register d enable :
  in_u 16 (pd_command d) → in_u 16 PCI_COMMAND_INTX_DISABLE →
  pd_command (kfio_iodrive_intx enable d)
    = (if enable then Z.ldiff (pd_command d) PCI_COMMAND_INTX_DISABLE else Z.lor (pd_command d) PCI_COMMAND_INTX_DISABLE)
  ∧ pd_command (kfio_pci_disable_device d)
    = Z.lor (pci_disable_command (pd_command d)) (Z.land (pd_command d) (Z.lor PCI_COMMAND_IO PCI_COMMAND_MEMORY)).
Proof.
  intros C M. assert (∀ x, (∀ i, 16 <= i → Z.testbit x i = false) → u16 x = x) as Small.
  { intros x X. apply Z.bits_inj'. intros i I. rewrite testbit_wrapu by done. destruct (Z.ltb_spec i 16); [done|]. by rewrite X. }
  split.
  - unfold kfio_iodrive_intx. rewrite <-Z.ldiff_land. rewrite !Small.
    + destruct enable; (destruct (negb _) eqn:N; [done|]); by apply negb_false_iff, Z.eqb_eq in N.
    + intros i I. by rewrite Z.lor_spec, !(small_testbit 16).
    + intros i I. by rewrite Z.ldiff_spec, (small_testbit 16).
  - unfold kfio_pci_disable_device. cbn [pd_command log set_enabled set_command].
    destruct (Z.eqb_spec (Z.land (pci_disable_command (pd_command d)) (Z.land (pd_command d) (Z.lor PCI_COMMAND_IO PCI_COMMAND_MEMORY)))
      (Z.land (pd_command d) (Z.lor PCI_COMMAND_IO PCI_COMMAND_MEMORY))) as [E|]; cbn [negb]; [|done].
    cbn [pd_command log set_enabled set_command]. rewrite <-E. apply Z.bits_inj'. intros i I.
    rewrite Z.lor_spec, Z.land_spec. by destruct (Z.testbit (pci_disable_command _) i).
Qed.
End life.

(** ** Parameters for NUMA nodes *)

Section override.
Context `{ProcEnvLaws}.

Lemma names_device_text name text : names_device name (name ++ 61 :: text) = true.
Proof. unfold names_device. rewrite take_app_length, list_lookup_middle by done. by rewrite !bool_decide_eq_true_2. Qed.

Lemma drop_name (name text : list Z) : drop (length name + 1) (name ++ 61 :: text) = text.
Proof. by rewrite drop_app_add. Qed.

Lemma override_skip before params name :
  Forall (λ p, names_device name p = false) before →
  kfio_get_numa_node_override (before ++ params) name = kfio_get_numa_node_override params name.
Proof. induction 1 as [|p l E _ IH]; [done|]. cbn. by rewrite E. Qed.

(** A decimal number and what follows it. *)
Lemma override_number name v rest after :
  0 <= v < 2 ^ 31 → no_digit_next (rest ++ [0]) →
  kfio_get_numa_node_override ((name ++ 61 :: decimal 20 v ++ rest) :: after) name
    = if bool_decide (rest = []) || bool_decide (head rest = Some 0) then Ok (0, Some v) else Ok (- ENOENT, None).
Proof.
  intros V N. change (2 ^ 31) with 2147483648 in V. destruct (decimal_20 v) as ([Ne Dg] & Dv & _); [change (2 ^ 64) with 18446744073709551616; lia|].
  cbn [kfio_get_numa_node_override]. rewrite names_device_text, drop_name, <-app_assoc. unfold kfio_strtoul.
  rewrite strtoul_number by (done || (rewrite Dv; change (2 ^ 64) with 18446744073709551616; lia)). cbn [of_option mbind outcome_bind].
  rewrite Dv, (proj2 (Z.eqb_neq _ 0)) by (destruct (decimal 20 v); [done|cbn; lia]). cbn [orb].
  rewrite Nat2Z.id, lookup_app_r, Nat.sub_diag by done. rewrite wraps_small; [|done|unfold in_s; change (2 ^ (32 - 1)) with 2147483648; lia].
  destruct rest as [|ch rest]; [done|]. cbn. destruct (decide (ch = 0)) as [->|Nz]; [done|].
  by rewrite !bool_decide_eq_false_2 by congruence.
Qed.

(** The first parameter that names the device decides: a decimal number behind
    it is the node; a number with something behind it is refused without a look at
    the parameters that follow; without such a parameter there is no node. *)
Theorem override_first_match before after name v ch text :
  Forall (λ p, names_device name p = false) before → 0 <= v < 2 ^ 31 → is_digit ch = false → ch ≠ 0 →
  kfio_get_numa_node_override before name = Ok (- ENOENT, None)
  ∧ kfio_get_numa_node_override (before ++ (name ++ 61 :: decimal 20 v) :: after) name = Ok (0, Some v)
  ∧ kfio_get_numa_node_override (before ++ (name ++ 61 :: decimal 20 v ++ ch :: text) :: after) name = Ok (- ENOENT, None).
Proof.
  intros F V D Z. split_and!.
  - rewrite <-(app_nil_r before). by rewrite override_skip.
  - rewrite override_skip by done. rewrite <-(app_nil_r (decimal 20 v)). rewrite override_number by (done || by exists 0, []). done.
  - rewrite override_skip by done. rewrite override_number by (done || by exists ch, (text ++ [0])).
    cbn. by rewrite !bool_decide_eq_false_2 by congruence.
Qed.
End override.

(** ** The table in the BIOS *)

(** The records that the search sees in a table of [n] records at [pos]: the first
    two are the header. *)
Fixpoint records (bios : list Z) (pos : Z) (n : nat) : list pci_slot_entry :=
  match n with
  | O => []
  | S n => slot_at (take 16 (drop (Z.to_nat pos) bios)) :: records bios (pos + 16) n
  end.

Definition first_slot (devfn bus : Z) (es : list pci_slot_entry) : Z :=
  default 0 (slot_number <$> head (filter (λ e, slot_matches devfn bus e) es)).

Definition signature_at (bios : list Z) (pos : Z) : bool :=
  bool_decide (slice bios pos 5 = Ok PCI_IRQ_ROUTING_TABLE_SIGNATURE).

Lemma scan_slots_run bios devfn bus n next fuel :
  0 <= next → next + 16 * Z.of_nat n <= Z.of_nat (length bios) → (n < fuel)%nat →
  scan_slots bios devfn bus fuel next (next + 16 * Z.of_nat n) = Ok (first_slot devfn bus (records bios next n)).
Proof.
  revert next fuel. induction n as [|n IH]; intros next fuel N L F; (destruct fuel as [|fuel]; [lia|]); cbn [scan_slots records].
  - rewrite (proj2 (Z.ltb_ge _ _)) by lia. done.
  - rewrite (proj2 (Z.ltb_lt next _)) by lia. unfold sizeof_pci_slot_entry. rewrite slice_ok by lia. cbn [mbind outcome_bind].
    change (Z.to_nat 16) with 16%nat. unfold first_slot. rewrite filter_cons. destruct (slot_matches devfn bus _) eqn:M.
    + by rewrite decide_True by done.
    + rewrite decide_False by (by intros []). replace (next + 16 * Z.of_nat (S n)) with (next + 16 + 16 * Z.of_nat n) by lia.
      apply IH; lia.
Qed.

(** Places without a signature are passed over. *)
Lemma scan_bios_skip bios devfn bus k pos fuel :
  Z.of_nat (length bios) = BIOS_MEMORY_LEN → 0 <= pos → pos + 16 * Z.of_nat k <= BIOS_MEMORY_LEN →
  (∀ j, 0 <= j < Z.of_nat k → signature_at bios (pos + 16 * j) = false) →
  scan_bios bios devfn bus (k + fuel) pos = scan_bios bios devfn bus fuel (pos + 16 * Z.of_nat k).
Proof.
  intros Lb. unfold BIOS_MEMORY_LEN in *. revert pos. induction k as [|k IH]; intros pos P L S.
  - by rewrite Z.add_0_r.
  - cbn [Nat.add scan_bios]. unfold BIOS_MEMORY_LEN. rewrite (proj2 (Z.ltb_lt _ _)) by lia.
    pose proof (S 0 ltac:(lia)) as S0. replace (pos + 16 * 0) with pos in S0 by lia. unfold signature_at in S0. apply bool_decide_eq_false in S0.
    rewrite slice_ok in S0 by lia. rewrite (slice_ok bios pos 5) by lia. cbn [mbind outcome_bind]. rewrite bool_decide_eq_false_2 by congruence.
    unfold SIGNATURE_OFFSET. rewrite IH; [f_equal; lia|lia|lia|].
    intros j J. rewrite <-(S (j + 1)) by lia. f_equal. lia.
Qed.

Lemma bios_fuel_places : Z.of_nat bios_fuel = 8193.
Proof. unfold bios_fuel. rewrite Nat2Z.inj_add, Z2Nat.id by done. done. Qed.

(** The search takes the first signature at a multiple of 16, and if a table of
    the right version that lies in the BIOS is there, gives the slot number of the
    first record that matches the device, counting the header as two records; and 0
    if none does or there is no table. *)
Theorem slot_search bios devfn bus k header n :
  Z.of_nat (length bios) = BIOS_MEMORY_LEN →
  (∀ j, 0 <= j < Z.of_nat k → signature_at bios (16 * j) = false) →
  (16 * Z.of_nat k = BIOS_MEMORY_LEN → find_slot_number_bios (Some bios) devfn bus = Ok 0)
  ∧ (signature_at bios (16 * Z.of_nat k) = true → slice bios (16 * Z.of_nat k) 32 = Ok header →
     le_value (take 2 (drop 4 header)) = SYSTEM_REQUIRED_VERSION → le_value (take 2 (drop 6 header)) = 16 * Z.of_nat n →
     (2 < n <= 4096)%nat → 16 * Z.of_nat k + 16 * Z.of_nat n <= BIOS_MEMORY_LEN →
     find_slot_number_bios (Some bios) devfn bus = Ok (first_slot devfn bus (records bios (16 * Z.of_nat k) n))).
Proof.
  intros L S. assert (∀ fuel, 16 * Z.of_nat k <= BIOS_MEMORY_LEN →
    scan_bios bios devfn bus (k + fuel) 0 = scan_bios bios devfn bus fuel (16 * Z.of_nat k)) as Skip.
  { intros fuel Le. by apply scan_bios_skip. }
  unfold find_slot_number_bios. unfold BIOS_MEMORY_LEN in *. split.
  - intros E. assert (bios_fuel = (k + 1)%nat) as -> by (pose proof bios_fuel_places; lia).
    rewrite Skip by lia. cbn [scan_bios]. by rewrite (proj2 (Z.ltb_ge _ BIOS_MEMORY_LEN)) by (unfold BIOS_MEMORY_LEN; lia).
  - intros Sig H V T N B. assert (∃ fuel, bios_fuel = (k + Datatypes.S fuel)%nat) as [fuel ->]
      by (exists (bios_fuel - k - 1)%nat; pose proof bios_fuel_places; lia).
    rewrite Skip by lia. cbn [scan_bios]. rewrite (proj2 (Z.ltb_lt _ BIOS_MEMORY_LEN)) by (unfold BIOS_MEMORY_LEN; lia).
    unfold signature_at in Sig. apply bool_decide_eq_true in Sig. rewrite Sig. cbn [mbind outcome_bind].
    rewrite bool_decide_eq_true_2 by done. unfold sizeof_pci_irq_routing. rewrite H. cbn [mbind outcome_bind]. rewrite V, T, Z.eqb_refl.
    rewrite Z.gtb_ltb, (proj2 (Z.ltb_lt SYSTEM_REQUIRED_MIN_SIZE _)) by (unfold SYSTEM_REQUIRED_MIN_SIZE; lia).
    unfold SYSTEM_REQUIRED_SIZE_ALIGNMENT. rewrite (Z.mul_comm 16 (Z.of_nat n)), Z.mod_mul, (Z.mul_comm (Z.of_nat n) 16) by done. cbn [andb]. change (0 =? 0) with true. cbv iota.
    apply scan_slots_run; [lia|lia|unfold slots_fuel; lia].
Qed.

(** The header, which is the first record, matches a device 0x50 of the bus 0x24. *)
Lemma header_taken_for_slot bios pos n :
  0 <= pos → slice bios pos 5 = Ok PCI_IRQ_ROUTING_TABLE_SIGNATURE → (0 < n)%nat →
  0 < default 0 (bios !! (Z.to_nat pos + 14)%nat) →
  first_slot 0x50 0x24 (records bios pos n) = default 0 (bios !! (Z.to_nat pos + 14)%nat).
Proof.
  intros P Sig N Slot. unfold slice in Sig. destruct (_ && _); [|done]. injection Sig as Sig. change (Z.to_nat 5) with 5%nat in Sig.
  destruct n as [|n]; [lia|]. cbn [records]. unfold first_slot, slot_at.
  assert (∀ i, (i < 16)%nat → take 16 (drop (Z.to_nat pos) bios) !! i = bios !! (Z.to_nat pos + i)%nat) as Lk
    by (intros i Li; rewrite lookup_take, decide_True by done; apply lookup_drop).
  assert (∀ i, (i < 5)%nat → bios !! (Z.to_nat pos + i)%nat = PCI_IRQ_ROUTING_TABLE_SIGNATURE !! i) as Ls
    by (intros i Li; by rewrite <-Sig, lookup_take, decide_True, lookup_drop by done).
  rewrite !Lk, (Ls 0%nat), (Ls 1%nat) by lia. rewrite filter_cons, decide_True; [done|].
  unfold slot_matches. cbn. rewrite Z.gtb_ltb. by rewrite (proj2 (Z.ltb_lt _ _)).
Qed.

(** ** Examples *)

Definition pci_standard : PciBus :=
  {| PCI_COMMAND_IO := 1; PCI_COMMAND_MEMORY := 2; PCI_COMMAND_INTX_DISABLE := 0x400; pci_disable_command c := Z.land c (Z.lnot 4) |}.

(** A probe that fails for want of DMA, and one that could succeed. *)
Definition dma_missing : probe_calls := mk_calls 0 0 (λ taken : bool, if taken then - EBUSY else 0) (- EIO) 0.
Definition all_well : probe_calls := mk_calls 0 0 (λ taken : bool, if taken then - EBUSY else 0) 0 0.

Definition unbound : binding := mk_binding false false.

Theorem device_lifecycle_witness :
  (pci_run (H := pci_standard) (unbound, fresh_device 7) [Probe all_well]).1 = mk_binding true false
  ∧ (pci_run (H := pci_standard) (unbound, fresh_device 7) [Probe all_well; Shutdown]).1 = mk_binding true true
  ∧ (pci_run (H := pci_standard) (unbound, fresh_device 7) [Probe all_well; Shutdown; Remove]).1 = unbound
  ∧ (iodrive_pci_probe (H := pci_standard) all_well (pci_run (H := pci_standard) (unbound, fresh_device 7) [Probe dma_missing]).2).2 = - EBUSY.
Proof.
  split_and!; [done..|]. pose proof (device_lifecycle (H := pci_standard) [Probe dma_missing] 7) as (_ & _ & _ & _ & L).
  by apply L.
Defined.

Theorem command_register_witness :
  pd_command (kfio_iodrive_intx (H := pci_standard) false (fresh_device 7)) = 0x407
  ∧ pd_command (kfio_pci_disable_device (H := pci_standard) (fresh_device 7)) = 3.
Proof. exact (command_register (H := pci_standard) (fresh_device 7) false ltac:(done) ltac:(done)). Defined.

(** "fct0" and "fct0=1", or "fct0=1 ". *)
Theorem override_first_match_witness :
  @kfio_get_numa_node_override small_proc_env ([[102; 99; 116; 49; 61; 48]] ++ [[102; 99; 116; 48; 61; 49]]) [102; 99; 116; 48] = Ok (0, Some 1).
Proof.
  destruct (@override_first_match small_proc_env small_proc_env_laws [[102; 99; 116; 49; 61; 48]] [] [102; 99; 116; 48] 1 32 []) as (_ & E & _).
  - by apply list.Forall_cons_2; [|apply list.Forall_nil_2].
  - done.
  - done.
  - done.
  - exact E.
Defined.

(** A table of one slot at the start of the BIOS. *)
Definition a_table : list Z :=
  [36; 80; 73; 82; 0; 1; 48; 0] ++ replicate 24 0 ++ [3; 8] ++ replicate 12 0 ++ [5; 0].

Theorem slot_search_witness :
  find_slot_number_bios (Some (a_table ++ replicate (Z.to_nat (BIOS_MEMORY_LEN - 48)) 0)) 8 3 = Ok 5.
Proof.
  assert (Z.of_nat (length (replicate (Z.to_nat (BIOS_MEMORY_LEN - 48)) 0)) = BIOS_MEMORY_LEN - 48) as Lt
    by (by rewrite length_replicate, Z2Nat.id).
  revert Lt. generalize (replicate (Z.to_nat (BIOS_MEMORY_LEN - 48)) 0) as tail. intros tail Lt. set (bios := a_table ++ tail).
  assert (Z.of_nat (length bios) = BIOS_MEMORY_LEN) as L.
  { unfold bios. rewrite length_app, Nat2Z.inj_add, Lt. done. }
  assert (∀ n, (n <= 48)%nat → take n bios = take n a_table) as T by (intros n N; by apply take_app_le).
  assert (∀ n, 0 <= n <= 48 → slice bios 0 n = Ok (take (Z.to_nat n) a_table)) as Sl.
  { intros n N. rewrite slice_ok by (rewrite ?L; unfold BIOS_MEMORY_LEN; lia). rewrite drop_0, T by lia. done. }
  destruct (slot_search bios 8 3 0 (take 32 a_table) 3 L) as [_ F]; [intros j J; lia|].
  rewrite F.
  - cbn [records]. rewrite drop_0.
    assert (∀ n, (n <= 32)%nat → take 16 (drop n bios) = take 16 (drop n a_table)) as Td.
    { intros n N. rewrite !take_drop_commute, T by lia. done. }
    rewrite (T 16%nat), !Td by lia. done.
  - unfold signature_at. apply bool_decide_eq_true. by apply (Sl 5).
  - by apply (Sl 32).
  - done.
  - done.
  - lia.
  - done.
Defined.
