(* ===== verification/KMain.v ===== *)
(** * Start and stop of the driver: main.c, kinit.c, kblock.c

    The parts that are started are recorded in the bits of [fio_init_state], and what
    has been started is stopped in the opposite order, at the end or when a part
    fails. *)
From S2P Require Import Prelude Condvar Ranges KScatter KScatterBio KBio KPlug.

(** ** State *)

Definition FIO_INIT_STATE_IODRIVE : Z := 0x0002.
Definition FIO_INIT_STATE_PCIDEV : Z := 0x0004.
Definition FIO_INIT_STATE_SYSRQ : Z := 0x0008.

(** The calls into the core and the kernel. *)
Inductive main_event :=
  | IodriveInit | IodriveCleanup | PciRegister | PciUnregister | SysrqKeys | UnregSysrqKeys | AutoAttachWait
  | RegisterInterface | RegisterBlkdev | UnregisterBlkdev (major : Z).

Record driver := mk_driver {
  fio_init_state : Z;
  auto_attach : Z;
  fio_major : Z;
  calls : list main_event
}.

Implicit Types (s : driver).

Definition call (e : main_event) s := mk_driver (fio_init_state s) (auto_attach s) (fio_major s) (calls s ++ [e]).
Definition set_init_state (v : Z) s := mk_driver v (auto_attach s) (fio_major s) (calls s).
Definition set_auto_attach (v : Z) s := mk_driver (fio_init_state s) v (fio_major s) (calls s).
Definition set_major (v : Z) s := mk_driver (fio_init_state s) (auto_attach s) v (calls s).
Definition started (part : Z) s : bool := negb (Z.land (fio_init_state s) part =? 0).
Definition add_part (part : Z) s : driver := set_init_state (Z.lor (fio_init_state s) part) s.

(** ** main.c, pci.c *)

(** [retval]: what the kernel's [pci_register_driver] returns. *)
Definition kfio_pci_register_driver (retval : Z) s : driver * Z := (call PciRegister s, if 0 <=? retval then 1 else retval).
Definition kfio_pci_unregister_driver s : driver := call PciUnregister s.

Definition fio_do_exit s : driver :=
  let s := if started FIO_INIT_STATE_SYSRQ s then call UnregSysrqKeys s else s in
  let s := if started FIO_INIT_STATE_PCIDEV s then kfio_pci_unregister_driver s else s in
  let s := if started FIO_INIT_STATE_IODRIVE s then call IodriveCleanup s else s in
  set_init_state 0 s.

Definition init_error (rc : Z) s : driver * Z := (fio_do_exit s, if rc >? 0 then - rc else rc).

(** [iodrive_init]: what the core's function returns. *)
Definition fio_do_init (iodrive_init pci_register_driver : Z) s : driver * Z :=
  let s := call IodriveInit s in
  if negb (iodrive_init =? 0) then init_error iodrive_init s
  else
    let s := add_part FIO_INIT_STATE_IODRIVE s in
    let '(s, rc) := kfio_pci_register_driver pci_register_driver s in
    if rc <? 0 then init_error (- ENODEV) (kfio_pci_unregister_driver s)
    else
      let s := add_part FIO_INIT_STATE_PCIDEV s in
      let s := call SysrqKeys s in
      (add_part FIO_INIT_STATE_SYSRQ s, 0).

(** [FUSION_DEBUG] is defined, as 0, so that the test for it lets blk-mq pass. *)
Definition init_fio_driver (use_workqueue iodrive_load_eb_map iodrive_init pci_register_driver : Z) s : driver * Z :=
  if (use_workqueue =? USE_QUEUE_MQ) || (use_workqueue =? USE_QUEUE_RQ) || (use_workqueue =? USE_QUEUE_NONE) then
    let s := if iodrive_load_eb_map =? 0 then set_auto_attach 0 s else s in
    let '(s, rc) := fio_do_init iodrive_init pci_register_driver s in
    if negb (rc =? 0) then (s, rc) else (call AutoAttachWait s, rc)
  else (s, -1).

Definition exit_fio_driver s : driver := fio_do_exit s.

(** ** kblock.c, kinit.c *)

(** [major]: what the kernel's [register_blkdev] returns, an [int]. *)
Definition kfio_platform_init_block_interface (major : Z) s : driver * Z :=
  let s := set_major major (call RegisterBlkdev (call RegisterInterface s)) in
  (s, if fio_major s <=? 0 then - EBUSY else 0).
Definition kfio_platform_teardown_block_interface s : driver * Z := (call (UnregisterBlkdev (fio_major s)) s, 0).

Definition kfio_platform_init_storage_interface (major : Z) s : driver * Z :=
  let '(s, rc) := kfio_platform_init_block_interface major s in
  if rc <? 0 then (s, rc) else (s, rc).
Definition kfio_platform_teardown_storage_interface s : driver * Z :=
  let '(s, rc) := kfio_platform_teardown_block_interface s in
  if rc <? 0 then (s, rc) else (s, rc).

(** ** What is started is stopped *)

(** The parts that [fio_init_state] records, and the calls that stop them. *)
Definition parts_of (state : Z) : list Z :=
  filter (λ p, Z.land state p ≠ 0) [FIO_INIT_STATE_IODRIVE; FIO_INIT_STATE_PCIDEV; FIO_INIT_STATE_SYSRQ].
Definition stop_call (part : Z) : main_event :=
  if part =? FIO_INIT_STATE_IODRIVE then IodriveCleanup else if part =? FIO_INIT_STATE_PCIDEV then PciUnregister else UnregSysrqKeys.

Lemma exit_stops s :
  fio_do_exit s = mk_driver 0 (auto_attach s) (fio_major s) (calls s ++ (stop_call <$> reverse (parts_of (fio_init_state s)))).
Proof.
  unfold fio_do_exit, parts_of, started, kfio_pci_unregister_driver.
  destruct s as [st a m c]. cbn [fio_init_state].
  rewrite !filter_cons, filter_nil.
  destruct (Z.eqb_spec (Z.land st FIO_INIT_STATE_SYSRQ) 0) as [E3|E3]; cbn [negb fio_init_state call];
    destruct (Z.eqb_spec (Z.land st FIO_INIT_STATE_PCIDEV) 0) as [E2|E2]; cbn [negb fio_init_state call];
    destruct (Z.eqb_spec (Z.land st FIO_INIT_STATE_IODRIVE) 0) as [E1|E1]; cbn [negb fio_init_state call];
    repeat (case_decide; try contradiction); unfold set_init_state, call; cbn; rewrite ?app_nil_r, <-?app_assoc; reflexivity.
Qed.

(** C33: Loading the driver succeeds exactly when the queueing mode is known, the
    core starts and the kernel accepts the PCI driver.  A load that fails returns a
    negative code and has stopped every part that it had started; a load that
    succeeds has started all parts, the unload stops them in the opposite order,
    and a second unload does nothing. *)
Theorem load_unload use_workqueue eb_map core pci s s' rc :
  fio_init_state s = 0 → init_fio_driver use_workqueue eb_map core pci s = (s', rc) →
  (rc = 0 ↔ (use_workqueue = USE_QUEUE_NONE ∨ use_workqueue = USE_QUEUE_RQ ∨ use_workqueue = USE_QUEUE_MQ) ∧ core = 0 ∧ 0 <= pci)
  ∧ (rc ≠ 0 → rc < 0 ∧ fio_init_state s' = 0
       ∧ (calls s' = calls s ∨ calls s' = calls s ++ [IodriveInit]
          ∨ calls s' = calls s ++ [IodriveInit; PciRegister; PciUnregister; IodriveCleanup]))
  ∧ (rc = 0 →
       calls s' = calls s ++ [IodriveInit; PciRegister; SysrqKeys; AutoAttachWait]
       ∧ calls (exit_fio_driver s') = calls s' ++ [UnregSysrqKeys; PciUnregister; IodriveCleanup]
       ∧ fio_init_state (exit_fio_driver s') = 0
       ∧ exit_fio_driver (exit_fio_driver s') = exit_fio_driver s').
Proof.
  destruct s as [st a m c]. cbn [fio_init_state]. intros -> E. unfold init_fio_driver in E.
  assert ((use_workqueue =? USE_QUEUE_MQ) || (use_workqueue =? USE_QUEUE_RQ) || (use_workqueue =? USE_QUEUE_NONE) = true
    ↔ use_workqueue = USE_QUEUE_NONE ∨ use_workqueue = USE_QUEUE_RQ ∨ use_workqueue = USE_QUEUE_MQ) as K
    by (rewrite !orb_true_iff, !Z.eqb_eq; tauto).
  destruct (_ || _); [|injection E as <- <-; split_and!; [split; [done|by intros [K'%K _]]|intros _; split_and!; [done|done|by left]|done]].
  set (s := if eb_map =? 0 then _ else _) in E. assert (∃ a', s = mk_driver 0 a' m c) as [a' Es] by (unfold s; destruct (eb_map =? 0); eauto).
  clearbody s. subst s. unfold fio_do_init in E. destruct (Z.eqb_spec core 0) as [->|Nc]; cbn [negb] in E.
  2: { unfold init_error in E. assert ((if core >? 0 then - core else core) < 0) as Neg by (rewrite Z.gtb_ltb; destruct (Z.ltb_spec 0 core); lia).
    rewrite (proj2 (Z.eqb_neq _ 0)) in E by lia. cbn [negb] in E. injection E as <- <-. split_and!; [split; [lia|by intros (_ & ? & _)]| |lia].
    intros _. rewrite exit_stops. split_and!; [done|done|]. right. left. cbn. by rewrite app_nil_r. }
  unfold kfio_pci_register_driver in E. destruct (Z.leb_spec 0 pci) as [P|P].
  - cbn in E. injection E as <- <-. split_and!; [split; [|done]|done|].
    + intros _. split; [by apply K|done].
    + intros _. unfold exit_fio_driver. rewrite !exit_stops. cbn. rewrite <-!app_assoc. done.
  - rewrite (proj2 (Z.ltb_lt pci 0)) in E by done. unfold init_error in E. change (- ENODEV >? 0) with false in E.
    cbn [negb] in E. change (negb (- ENODEV =? 0)) with true in E. cbv iota in E. injection E as <- <-.
    split_and!; [split; [done|lia]| |done]. intros _. rewrite exit_stops. split_and!; [done|done|]. right. right. cbn. by rewrite <-!app_assoc.
Qed.

(** The failure of the block interface leaves it registered with the core. *)
Lemma block_interface_registered major s :
  let '(s', rc) := kfio_platform_init_storage_interface major s in
  (rc = 0 ↔ 0 < major) ∧ (rc ≠ 0 → rc = - EBUSY) ∧ calls s' = calls s ++ [RegisterInterface; RegisterBlkdev]
  ∧ calls (kfio_platform_teardown_storage_interface s').1 = calls s' ++ [UnregisterBlkdev major].
Proof.
  unfold kfio_platform_init_storage_interface, kfio_platform_init_block_interface. cbn [fio_major set_major].
  destruct (Z.leb_spec major 0); unfold call, set_major; cbn; rewrite <-?app_assoc; (split_and!; [unfold EBUSY; lia|done|done|done]).
Qed.

Definition unloaded : driver := mk_driver 0 1 0 [].

Theorem load_unload_witness :
  calls (exit_fio_driver (init_fio_driver USE_QUEUE_NONE 1 0 0 unloaded).1)
    = [IodriveInit; PciRegister; SysrqKeys; AutoAttachWait; UnregSysrqKeys; PciUnregister; IodriveCleanup].
Proof.
  destruct (load_unload USE_QUEUE_NONE 1 0 0 unloaded _ _ eq_refl eq_refl) as (_ & _ & S).
  destruct (S eq_refl) as (_ & E & _). exact E.
Defined.
