(* ===== verification/KScsi.v ===== *)
(** * SCSI commands: kscsi_host.c, kscsi.c

    The hosts, the devices and the commands that the SCSI mid-layer of the kernel
    shows the driver, how a device is hooked up to the logical unit (LU) of the core
    that it stands for, how a command is passed to the core, aborted and completed.
    The life of the hosts is in KScsiHost. *)
From stdpp Require Import gmap.
From S2P Require Import Prelude KScatter.

(** ** The core

    The logical units and commands are the core's, and reached through these
    functions (kscsi.h).  A pointer is a [positive]; [None] is NULL.  Each call that
    can change the core returns its new state. *)
Class ScsiCore := {
  scsi_core : Type;
  kfio_scsi_lu_get_target_id : scsi_core → positive → Z;
  kfio_scsi_lu_get_lun : scsi_core → positive → Z;
  kfio_scsi_lu_get_port_lu : scsi_core → positive → option positive;
  kfio_scsi_lu_set_port_lu : scsi_core → positive → option positive → scsi_core;
  kfio_scsi_lu_lookup_from_tid_lun : scsi_core → Z → Z → option positive;
  (** The result, and the command that is stored through the first argument if one is. *)
  kfio_scsi_cmd_alloc : scsi_core → list Z → positive → positive → Z * option positive * scsi_core;
  kfio_scsi_cmd_get_lu : scsi_core → positive → option positive;
  kfio_scsi_lu_abort_cmd : scsi_core → positive → positive → Z * scsi_core;
  kfio_scsi_lu_reset_all_in_target : scsi_core → Z → Z * scsi_core
}.

(** The pointer that the driver leaves with an LU is a field of the LU. *)
Class ScsiCoreLaws `(ScsiCore) : Prop := {
  get_port_lu_eq c lu p : kfio_scsi_lu_get_port_lu (kfio_scsi_lu_set_port_lu c lu p) lu = p;
  get_port_lu_ne c lu lu' p : lu ≠ lu' →
    kfio_scsi_lu_get_port_lu (kfio_scsi_lu_set_port_lu c lu p) lu' = kfio_scsi_lu_get_port_lu c lu';
  get_target_id_set c lu lu' p :
    kfio_scsi_lu_get_target_id (kfio_scsi_lu_set_port_lu c lu p) lu' = kfio_scsi_lu_get_target_id c lu'
}.

(** ** Numbers of the kernel's SCSI headers, and of kscsi.h *)

Definition DID_OK : Z := 0x00.
Definition DID_NO_CONNECT : Z := 0x01.
Definition DID_TIME_OUT : Z := 0x03.
Definition DID_BAD_TARGET : Z := 0x04.
Definition DRIVER_SENSE : Z := 0x08.
Definition HARDWARE_ERROR : Z := 0x04.
Definition SUCCESS : Z := 0x2002.
Definition FAILED : Z := 0x2003.
Definition SCSI_MLQUEUE_HOST_BUSY : Z := 0x1055.
Definition SCSI_SENSE_BUFFERSIZE : Z := 96.

Inductive fio_scsi_cmd_status :=
  | FIO_SCSI_CMD_STAT_GOOD | FIO_SCSI_CMD_STAT_CHECK | FIO_SCSI_CMD_STAT_COND_MET | FIO_SCSI_CMD_STAT_BUSY | FIO_SCSI_CMD_STAT_INTERMEDIATE | FIO_SCSI_CMD_STAT_INTERMEDIATE_COND_MET
  | FIO_SCSI_CMD_STAT_RES_CONFLICT | FIO_SCSI_CMD_STAT_QFULL | FIO_SCSI_CMD_STAT_ACA | FIO_SCSI_CMD_STAT_TASK_ABRT.

#[global] Instance fio_scsi_cmd_status_eq_dec : EqDecision fio_scsi_cmd_status.
Proof. solve_decision. Defined.

Definition status_code (st : fio_scsi_cmd_status) : Z :=
  match st with
  | FIO_SCSI_CMD_STAT_GOOD => 0x00 | FIO_SCSI_CMD_STAT_CHECK => 0x02 | FIO_SCSI_CMD_STAT_COND_MET => 0x04 | FIO_SCSI_CMD_STAT_BUSY => 0x08
  | FIO_SCSI_CMD_STAT_INTERMEDIATE => 0x10 | FIO_SCSI_CMD_STAT_INTERMEDIATE_COND_MET => 0x14 | FIO_SCSI_CMD_STAT_RES_CONFLICT => 0x18
  | FIO_SCSI_CMD_STAT_QFULL => 0x28 | FIO_SCSI_CMD_STAT_ACA => 0x30 | FIO_SCSI_CMD_STAT_TASK_ABRT => 0x40
  end.

(** ** State *)

Record fio_port_scsi_host_stats := mk_stats {
  tot_cmds_completed : Z;
  tot_cmds_completed_err : Z;
  tot_aborts : Z;
  tot_device_resets : Z;
  tot_bus_resets : Z;
  tot_host_resets : Z
}.

(** A [Scsi_Host] contains its [fio_port_scsi_host], and both have one address here.
    [ph_shost]: the pointer back to the [Scsi_Host] is set. *)
Record fio_port_scsi_host := mk_host {
  ph_shost : bool;
  ph_ref_count : Z;
  ph_target_id : Z;
  ph_stats : fio_port_scsi_host_stats
}.

(** [sd_hostdata = None] is [fio_scsi_unhooked_lu], the null pointer. *)
Record scsi_device := mk_sdev {
  sd_host : positive;
  sd_id : Z;
  sd_lun : Z;
  sd_hostdata : option positive;
  sd_queue_depth : Z
}.

(** [sc_done]: how often [scsi_done] was called. *)
Record scsi_cmnd := mk_scmd {
  sc_device : positive;
  sc_cmnd : list Z;
  sc_result : Z;
  sc_host_scribble : option positive;
  sc_sense_buffer : list Z;
  sc_resid : Z;
  sc_bufflen : Z;
  sc_done : nat
}.

(** [scsi_hosts]: the [Scsi_Host]s that have been allocated and not freed. *)
Record scsi_state `{ScsiCore} := mk_scsi {
  core : scsi_core;
  scsi_hosts : gmap positive fio_port_scsi_host;
  scsi_devices : gmap positive scsi_device;
  scsi_cmnds : gmap positive scsi_cmnd
}.

Definition set_hostdata (lu : option positive) (d : scsi_device) : scsi_device :=
  mk_sdev (sd_host d) (sd_id d) (sd_lun d) lu (sd_queue_depth d).
Definition set_queue_depth (n : Z) (d : scsi_device) : scsi_device :=
  mk_sdev (sd_host d) (sd_id d) (sd_lun d) (sd_hostdata d) n.
Definition set_shost (b : bool) (h : fio_port_scsi_host) : fio_port_scsi_host :=
  mk_host b (ph_ref_count h) (ph_target_id h) (ph_stats h).
Definition set_ref_count (n : Z) (h : fio_port_scsi_host) : fio_port_scsi_host :=
  mk_host (ph_shost h) n (ph_target_id h) (ph_stats h).
Definition set_stats (f : fio_port_scsi_host_stats → fio_port_scsi_host_stats) (h : fio_port_scsi_host) : fio_port_scsi_host :=
  mk_host (ph_shost h) (ph_ref_count h) (ph_target_id h) (f (ph_stats h)).

Definition set_result (r : Z) (c : scsi_cmnd) : scsi_cmnd :=
  mk_scmd (sc_device c) (sc_cmnd c) r (sc_host_scribble c) (sc_sense_buffer c) (sc_resid c) (sc_bufflen c) (sc_done c).
Definition set_scribble (p : option positive) (c : scsi_cmnd) : scsi_cmnd :=
  mk_scmd (sc_device c) (sc_cmnd c) (sc_result c) p (sc_sense_buffer c) (sc_resid c) (sc_bufflen c) (sc_done c).
Definition scsi_set_resid (n : Z) (c : scsi_cmnd) : scsi_cmnd :=
  mk_scmd (sc_device c) (sc_cmnd c) (sc_result c) (sc_host_scribble c) (sc_sense_buffer c) n (sc_bufflen c) (sc_done c).
Definition scsi_done (c : scsi_cmnd) : scsi_cmnd :=
  mk_scmd (sc_device c) (sc_cmnd c) (sc_result c) (sc_host_scribble c) (sc_sense_buffer c) (sc_resid c) (sc_bufflen c) (S (sc_done c)).

(** [set_host_byte], [set_driver_byte]: the macros of kscsi_config.h. *)
Definition set_host_byte (dsts : Z) (c : scsi_cmnd) : scsi_cmnd := set_result (Z.lor (sc_result c) (Z.shiftl dsts 16)) c.
Definition set_driver_byte (hsts : Z) (c : scsi_cmnd) : scsi_cmnd := set_result (Z.lor (sc_result c) (Z.shiftl hsts 24)) c.

(** ** Access through pointers *)

Section scsi.
Context `{ScsiCore}.
Implicit Types (s : scsi_state) (h d c lu : positive).

Definition set_core (x : scsi_core) s := mk_scsi _ x (scsi_hosts s) (scsi_devices s) (scsi_cmnds s).
Definition set_hosts (x : gmap positive fio_port_scsi_host) s := mk_scsi _ (core s) x (scsi_devices s) (scsi_cmnds s).
Definition set_devices (x : gmap positive scsi_device) s := mk_scsi _ (core s) (scsi_hosts s) x (scsi_cmnds s).
Definition set_cmnds (x : gmap positive scsi_cmnd) s := mk_scsi _ (core s) (scsi_hosts s) (scsi_devices s) x.

Definition read_host h : stateful scsi_state fio_port_scsi_host := λ s,
  match scsi_hosts s !! h with Some x => Ok (x, s) | None => Fault BadPointer end.
Definition read_device d : stateful scsi_state scsi_device := λ s,
  match scsi_devices s !! d with Some x => Ok (x, s) | None => Fault BadPointer end.
Definition read_cmnd c : stateful scsi_state scsi_cmnd := λ s,
  match scsi_cmnds s !! c with Some x => Ok (x, s) | None => Fault BadPointer end.
Definition on_host h (f : fio_port_scsi_host → fio_port_scsi_host) : stateful scsi_state unit :=
  x ← read_host h; modify (λ s, set_hosts (<[h := f x]> (scsi_hosts s)) s).
Definition on_device d (f : scsi_device → scsi_device) : stateful scsi_state unit :=
  x ← read_device d; modify (λ s, set_devices (<[d := f x]> (scsi_devices s)) s).
Definition on_cmnd c (f : scsi_cmnd → scsi_cmnd) : stateful scsi_state unit :=
  x ← read_cmnd c; modify (λ s, set_cmnds (<[c := f x]> (scsi_cmnds s)) s).
Definition ask_core {A} (f : scsi_core → A) : stateful scsi_state A := λ s, Ok (f (core s), s).
Definition call_core {A} (f : scsi_core → A * scsi_core) : stateful scsi_state A := λ s,
  let '(a, x) := f (core s) in Ok (a, set_core x s).

(** ** Host, device and LU of a command *)

Definition fio_port_scsi_host_from_shost h : stateful scsi_state (option positive) :=
  x ← read_host h; mret (if ph_shost x then Some h else None).

Definition fio_port_scsi_host_from_scmd c : stateful scsi_state (option positive) :=
  x ← read_cmnd c;
  y ← read_device (sc_device x);
  fio_port_scsi_host_from_shost (sd_host y).

(** A device that is hooked up to an LU that does not point back to it is unhooked. *)
Definition fio_scsi_lu_from_sdev_locked d : stateful scsi_state (option positive) :=
  x ← read_device d;
  match sd_hostdata x with
  | Some lu =>
      port_lu ← ask_core (λ k, kfio_scsi_lu_get_port_lu k lu);
      if bool_decide (port_lu = Some d) then mret (Some lu)
      else _ ← on_device d (set_hostdata None); mret None
  | None => mret None
  end.

(** The lock that is taken is a field of the host. *)
Definition fio_scsi_lu_from_scmd c : stateful scsi_state (option positive) :=
  port_host ← fio_port_scsi_host_from_scmd c;
  _ ← lift (of_option NullDeref port_host);
  x ← read_cmnd c;
  fio_scsi_lu_from_sdev_locked (sc_device x).

(** The name is that of the LU or "unknown". *)
Definition fio_scsi_bus_name_from_scmd c : stateful scsi_state (option positive) := fio_scsi_lu_from_scmd c.

(** The body of [shost_for_each_device]. *)
Definition unhook_device d : stateful scsi_state unit :=
  lu ← fio_scsi_lu_from_sdev_locked d;
  _ ← match lu with
      | Some lu => modify (λ s, set_core (kfio_scsi_lu_set_port_lu (core s) lu None) s)
      | None => mret tt
      end;
  on_device d (set_hostdata None).

Fixpoint unhook_devices (ds : list positive) : stateful scsi_state unit :=
  match ds with
  | [] => mret tt
  | d :: ds => _ ← unhook_device d; unhook_devices ds
  end.

Definition shost_devices h s : list positive :=
  (filter (λ p, sd_host p.2 = h) (map_to_list (scsi_devices s))).*1.

Definition fio_scsi_shost_unhook_devices_from_lus h : stateful scsi_state unit :=
  port_host ← fio_port_scsi_host_from_shost h;
  _ ← lift (of_option NullDeref port_host);
  s ← get;
  unhook_devices (shost_devices h s).

Definition fio_scsi_cmd_from_scmd c : stateful scsi_state (option positive) :=
  x ← read_cmnd c; mret (sc_host_scribble x).

(** ** Queueing a command *)

Definition fio_scmd_immediate_error c (host_byte : Z) : stateful scsi_state unit :=
  on_cmnd c (λ x, scsi_done (set_host_byte host_byte (set_result 0 x))).

(** The first time that a command reaches a device it is hooked up; [None]: there is
    no LU.  The number of LUs divides the queue. *)
Definition hook_up (scsi_queue_depth : Z) h d : stateful scsi_state (option positive) :=
  lu ← fio_scsi_lu_from_sdev_locked d;
  match lu with
  | Some lu => mret (Some lu)
  | None =>
      sdev ← read_device d;
      found ← ask_core (λ k, kfio_scsi_lu_lookup_from_tid_lun k (sd_id sdev) (u32 (sd_lun sdev)));
      match found with
      | None => mret None
      | Some lu =>
          x ← read_host h;
          let num_luns := u32 (ph_ref_count x) in
          _ ← lift (oassert DivByZero (negb (num_luns =? 0)));
          _ ← on_device d (set_queue_depth (s32 (u32 scsi_queue_depth / num_luns)));
          _ ← on_device d (set_hostdata (Some lu));
          _ ← modify (λ s, set_core (kfio_scsi_lu_set_port_lu (core s) lu (Some d)) s);
          mret (Some lu)
      end
  end.

(** [fio_shost_queuecommand] up to its call of [kfio_scsi_cmd_rcvd], which hands the
    command to the core: it has returned, or the command is passed on. *)
Inductive queued := Returned (ret : Z) | Received (cmd : positive).

Definition queuecommand_issue (scsi_queue_depth : Z) c : stateful scsi_state queued :=
  scmd ← read_cmnd c;
  let d := sc_device scmd in
  sdev ← read_device d;
  port_host ← fio_port_scsi_host_from_shost (sd_host sdev);
  match port_host with
  | None => _ ← fio_scmd_immediate_error c DID_NO_CONNECT; mret (Returned 0)
  | Some h =>
      x ← read_host h;
      if negb (sd_id sdev =? ph_target_id x) then _ ← fio_scmd_immediate_error c DID_NO_CONNECT; mret (Returned 0)
      else
        lu ← hook_up scsi_queue_depth h d;
        match lu with
        | None => _ ← fio_scmd_immediate_error c DID_TIME_OUT; mret (Returned 0)
        | Some lu =>
            '(ret, cmd) ← call_core (λ k, kfio_scsi_cmd_alloc k (sc_cmnd scmd) lu c);
            if ret =? - ENOMEM then _ ← fio_scsi_bus_name_from_scmd c; mret (Returned SCSI_MLQUEUE_HOST_BUSY)
            else if ret =? - ENOENT then _ ← fio_scmd_immediate_error c DID_TIME_OUT; mret (Returned 0)
            else
              cmd ← lift (of_option BadPointer cmd);
              _ ← on_cmnd c (set_scribble (Some cmd));
              mret (Received cmd)
        end
  end.

(** The rest: [cmd_status] is what [kfio_scsi_cmd_rcvd] returned. *)
Definition queuecommand_rest c (cmd_status : Z) : stateful scsi_state Z :=
  if cmd_status =? - ENOMEM then _ ← fio_scsi_bus_name_from_scmd c; mret SCSI_MLQUEUE_HOST_BUSY
  else if cmd_status =? 1 then _ ← on_cmnd c (set_result 0); mret 0
  else mret 0.

(** The whole, with what the core does from the call on. *)
Definition fio_shost_queuecommand (scsi_queue_depth : Z) c (kfio_scsi_cmd_rcvd : positive → stateful scsi_state Z)
    : stateful scsi_state Z :=
  q ← queuecommand_issue scsi_queue_depth c;
  match q with
  | Returned ret => mret ret
  | Received cmd => cmd_status ← kfio_scsi_cmd_rcvd cmd; queuecommand_rest c cmd_status
  end.

(** ** Aborts and resets *)

Definition count_abort (x : fio_port_scsi_host_stats) : fio_port_scsi_host_stats :=
  mk_stats (tot_cmds_completed x) (tot_cmds_completed_err x) (u64 (tot_aborts x + 1)) (tot_device_resets x) (tot_bus_resets x) (tot_host_resets x).
Definition count_device_reset (x : fio_port_scsi_host_stats) : fio_port_scsi_host_stats :=
  mk_stats (tot_cmds_completed x) (tot_cmds_completed_err x) (tot_aborts x) (u64 (tot_device_resets x + 1)) (tot_bus_resets x) (tot_host_resets x).
Definition count_bus_reset (x : fio_port_scsi_host_stats) : fio_port_scsi_host_stats :=
  mk_stats (tot_cmds_completed x) (tot_cmds_completed_err x) (tot_aborts x) (tot_device_resets x) (u64 (tot_bus_resets x + 1)) (tot_host_resets x).
Definition count_host_reset (x : fio_port_scsi_host_stats) : fio_port_scsi_host_stats :=
  mk_stats (tot_cmds_completed x) (tot_cmds_completed_err x) (tot_aborts x) (tot_device_resets x) (tot_bus_resets x) (u64 (tot_host_resets x + 1)).
Definition count_completed (x : fio_port_scsi_host_stats) : fio_port_scsi_host_stats :=
  mk_stats (u64 (tot_cmds_completed x + 1)) (tot_cmds_completed_err x) (tot_aborts x) (tot_device_resets x) (tot_bus_resets x) (tot_host_resets x).
Definition count_completed_err (x : fio_port_scsi_host_stats) : fio_port_scsi_host_stats :=
  mk_stats (tot_cmds_completed x) (u64 (tot_cmds_completed_err x + 1)) (tot_aborts x) (tot_device_resets x) (tot_bus_resets x) (tot_host_resets x).

Definition fio_shost_abort c : stateful scsi_state Z :=
  port_host ← fio_port_scsi_host_from_scmd c;
  cmd ← fio_scsi_cmd_from_scmd c;
  lu ← fio_scsi_lu_from_scmd c;
  again ← fio_port_scsi_host_from_scmd c;
  match port_host, cmd, lu, again with
  | Some h, Some cmd, Some lu, Some _ =>
      owner ← ask_core (λ k, kfio_scsi_cmd_get_lu k cmd);
      if bool_decide (owner = Some lu) then
        _ ← on_host h (set_stats count_abort);
        ret ← call_core (λ k, kfio_scsi_lu_abort_cmd k lu cmd);
        mret (if ret =? 0 then SUCCESS else FAILED)
      else mret FAILED
  | _, _, _, _ => mret FAILED
  end.

Definition fio_shost_reset_all_lus c : stateful scsi_state Z :=
  x ← read_cmnd c;
  y ← read_device (sc_device x);
  call_core (λ k, kfio_scsi_lu_reset_all_in_target k (sd_id y)).

(** The three reset handlers differ in what they count. *)
Definition shost_reset (count : fio_port_scsi_host_stats → fio_port_scsi_host_stats) c : stateful scsi_state Z :=
  port_host ← fio_port_scsi_host_from_scmd c;
  h ← lift (of_option NullDeref port_host);
  _ ← on_host h (set_stats count);
  ret ← fio_shost_reset_all_lus c;
  mret (if ret =? 0 then SUCCESS else FAILED).
Definition fio_shost_device_reset c : stateful scsi_state Z := shost_reset count_device_reset c.
Definition fio_shost_bus_reset c : stateful scsi_state Z := shost_reset count_bus_reset c.
Definition fio_shost_host_reset c : stateful scsi_state Z := shost_reset count_host_reset c.

(** ** Completion *)

(** The residual is an [int], the arithmetic is on 64 bits. *)
Definition fio_scmd_update_resid (bytes_xfer : Z) (x : scsi_cmnd) : scsi_cmnd :=
  let resid := u64 (sc_resid x) in
  let resid := if resid =? 0 then sc_bufflen x else resid in
  scsi_set_resid (s32 (u64 (resid - bytes_xfer))) x.

(** The host status that is chosen; it reads the sense data of a check condition. *)
Definition host_status (sense : list Z) (st : fio_scsi_cmd_status) (driver_error : Z) : outcome Z :=
  if negb (driver_error =? 0) then Ok (if driver_error =? - EAGAIN then DID_TIME_OUT else DID_NO_CONNECT)
  else if bool_decide (st = FIO_SCSI_CMD_STAT_CHECK) then
    b0 ← of_option OutOfBounds (sense !! 0%nat);
    if Z.land b0 0x7f =? 0x70 then
      b2 ← of_option OutOfBounds (sense !! 2%nat);
      Ok (if Z.land b2 0xf =? HARDWARE_ERROR then DID_BAD_TARGET else DID_OK)
    else Ok DID_NO_CONNECT
  else Ok DID_OK.

Definition kfio_port_scsi_cmd_completor c (bytes_xferred : Z) (st : fio_scsi_cmd_status) (driver_error : Z)
    : stateful scsi_state unit :=
  port_host ← fio_port_scsi_host_from_scmd c;
  match port_host with
  | None => mret tt
  | Some h =>
      cmd ← fio_scsi_cmd_from_scmd c;
      match cmd with
      | None => mret tt
      | Some _ =>
          _ ← on_cmnd c (set_scribble None);
          _ ← on_host h (set_stats count_completed);
          _ ← on_cmnd c (set_result (status_code st));
          scmd ← read_cmnd c;
          hs ← lift (host_status (sc_sense_buffer scmd) st driver_error);
          _ ← (if negb (hs =? DID_OK) || negb (bool_decide (st = FIO_SCSI_CMD_STAT_GOOD))
               then on_host h (set_stats count_completed_err) else mret tt);
          _ ← (if negb (hs =? DID_OK) then on_cmnd c (set_host_byte hs)
               else if bool_decide (st = FIO_SCSI_CMD_STAT_CHECK) then on_cmnd c (set_driver_byte DRIVER_SENSE) else mret tt);
          _ ← (if bytes_xferred >? 0 then on_cmnd c (fio_scmd_update_resid bytes_xferred) else mret tt);
          if negb (driver_error =? - ENOMEM) then on_cmnd c scsi_done else mret tt
      end
  end.
End scsi.

(** ** The data of a command: kscsi.c *)

(** [n]: how many bytes the kernel's [scsi_sg_copy_from_buffer] and
    [scsi_sg_copy_to_buffer] say they copied. *)
Definition kfio_port_scsi_cmd_copy_to_sg (n len : Z) : Z := if u32 n =? len then 0 else - EIO.
Definition kfio_port_scsi_cmd_copy_from_sg (n len : Z) : Z := if u32 n =? len then 0 else - EIO.

(** Where the kernel does not have these functions, kscsi_config.h has its own: the new contents of
    the destination, and the result. *)
Definition scsi_sg_copy (dst src : list Z) (buflen : nat) : list Z * Z := (take buflen src ++ drop buflen dst, 0).

(** The entries of the command's list: page, offset and length. *)
Fixpoint kfio_port_scsi_cmd_map_kfio_bio (sgs : list (Z * Z * Z)) (lsg : linux_sgl) : outcome (linux_sgl * Z) :=
  match sgs with
  | [] => Ok (lsg, 0)
  | (page, offset, len) :: sgs =>
      '(lsg, ret) ← kfio_sgl_map_page lsg page offset len;
      if negb (ret =? 0) then Ok (lsg, ret) else kfio_port_scsi_cmd_map_kfio_bio sgs lsg
  end.

(** Both pointers may be NULL; what is stored through each. *)
Definition kfio_port_scsi_cmd_get_sense_buffer (x : scsi_cmnd) (buffer buffer_length : bool) : option (list Z) * option Z :=
  (if buffer then Some (sc_sense_buffer x) else None, if buffer_length then Some SCSI_SENSE_BUFFERSIZE else None).
