(* ===== verification/KScsiSpec.v ===== *)
(** * SCSI commands: theorems

    A command that the mid-layer queues is answered exactly once, with a status that
    the mid-layer reads back; devices and LUs are hooked up in pairs. *)
From stdpp Require Import gmap.
From S2P Require Import Prelude KScatter KScatterBio KScsi.

(** ** Running the operations *)

Ltac scsi_lookup :=
  match goal with
  | E : ?m !! ?k = Some _ |- context [?m !! ?k] => rewrite E
  | |- context [<[?k := ?x]> ?m !! ?k] => rewrite (lookup_insert_eq m k x)
  end.

Ltac scsi_run :=
  repeat (progress (unfold mbind, stateful_bind, mret, stateful_ret, on_host, on_device, on_cmnd, read_host,
                      read_device, read_cmnd, modify, get, lift, ask_core;
                    simpl; repeat scsi_lookup)).

Section commands.
Context `{ScsiCore}.
Implicit Types (s : scsi_state) (h d c lu : positive).

(** [scmd] is command [c], to device [d], of the host [h] that is registered. *)
Record live s c scmd d h x : Prop := {
  live_cmnd : scsi_cmnds s !! c = Some scmd;
  live_device : ∃ y, scsi_devices s !! d = Some y ∧ sd_host y = h;
  live_to : sc_device scmd = d;
  live_host : scsi_hosts s !! h = Some x;
  live_registered : ph_shost x = true
}.

Lemma live_from_scmd s c scmd d h x : live s c scmd d h x → fio_port_scsi_host_from_scmd c s = Ok (Some h, s).
Proof.
  intros [E (y & Ey & <-) <- Ex Er].
  unfold fio_port_scsi_host_from_scmd, fio_port_scsi_host_from_shost. scsi_run. by rewrite Er.
Qed.

(** ** Completion *)

(** What the mid-layer reads from the result of a command. *)
Definition status_byte (result : Z) : Z := Z.land result 0xff.
Definition host_byte (result : Z) : Z := Z.land (Z.shiftr result 16) 0xff.
Definition driver_byte (result : Z) : Z := Z.land (Z.shiftr result 24) 0xff.

(** The answer to a command, from the interface's description: an error of the
    driver is transient when the command was aborted before it was submitted; a
    check condition is permanent when it is a hardware error, and reported as sense
    data otherwise. *)
Definition answer (sense : list Z) (st : fio_scsi_cmd_status) (driver_error : Z) : Z :=
  if decide (driver_error = - EAGAIN) then DID_TIME_OUT
  else if decide (driver_error ≠ 0) then DID_NO_CONNECT
  else if decide (st ≠ FIO_SCSI_CMD_STAT_CHECK) then DID_OK
  else if decide (Z.land (nth 0 sense 0) 0x7f ≠ 0x70) then DID_NO_CONNECT
  else if decide (Z.land (nth 2 sense 0) 0xf = HARDWARE_ERROR) then DID_BAD_TARGET
  else DID_OK.

Lemma host_status_answer sense st err :
  (2 < length sense)%nat → host_status sense st err = Ok (answer sense st err).
Proof.
  intros Hl. destruct sense as [|b0 [|b1 [|b2 rest]]]; simpl in Hl; try lia.
  unfold host_status, answer, EAGAIN, DID_TIME_OUT, DID_NO_CONNECT, DID_OK, DID_BAD_TARGET. simpl.
  repeat case_decide; repeat case_bool_decide; repeat case_match; try done; lia.
Qed.

(** The result word of a completed command. *)
Definition completed_result (st : fio_scsi_cmd_status) (hs : Z) : Z :=
  if negb (hs =? DID_OK) then Z.lor (status_code st) (Z.shiftl hs 16)
  else if bool_decide (st = FIO_SCSI_CMD_STAT_CHECK) then Z.lor (status_code st) (Z.shiftl DRIVER_SENSE 24)
  else status_code st.

Lemma answer_cases sense st err :
  answer sense st err ∈ [DID_OK; DID_NO_CONNECT; DID_TIME_OUT; DID_BAD_TARGET].
Proof. unfold answer. repeat case_decide; set_solver. Qed.

Lemma completed_result_bytes sense st err :
  let hs := answer sense st err in
  let r := completed_result st hs in
  status_byte r = status_code st ∧ host_byte r = hs
  ∧ driver_byte r = (if decide (hs = DID_OK ∧ st = FIO_SCSI_CMD_STAT_CHECK) then DRIVER_SENSE else 0).
Proof.
  intros hs r. pose proof (answer_cases sense st err) as Hc. fold hs in Hc. unfold r. clearbody hs. clear r.
  apply list_elem_of_In in Hc. simpl in Hc. destruct_or!; try done; subst hs; destruct st; by vm_compute.
Qed.

Lemma completed_result_zero sense st err :
  completed_result st (answer sense st err) = 0 ↔ st = FIO_SCSI_CMD_STAT_GOOD ∧ err = 0.
Proof.
  unfold completed_result, answer.
  repeat case_decide; destruct st; vm_compute; naive_solver lia.
Qed.

Definition resid_after (bytes_xferred : Z) (x : scsi_cmnd) : Z :=
  if bytes_xferred >? 0 then sc_resid (fio_scmd_update_resid bytes_xferred x) else sc_resid x.

Definition completed_stats (st : fio_scsi_cmd_status) (hs : Z) (t : fio_port_scsi_host_stats) : fio_port_scsi_host_stats :=
  let t := count_completed t in
  if negb (hs =? DID_OK) || negb (bool_decide (st = FIO_SCSI_CMD_STAT_GOOD)) then count_completed_err t else t.

(** The command as the completor leaves it. *)
Definition completed (bytes : Z) st (err : Z) (x : scsi_cmnd) : scsi_cmnd :=
  mk_scmd (sc_device x) (sc_cmnd x) (completed_result st (answer (sc_sense_buffer x) st err)) None (sc_sense_buffer x)
    (resid_after bytes x) (sc_bufflen x) (if decide (err = - ENOMEM) then sc_done x else S (sc_done x)).

Lemma on_cmnd_ok s c x (f : scsi_cmnd → scsi_cmnd) :
  scsi_cmnds s !! c = Some x → on_cmnd c f s = Ok (tt, set_cmnds (<[c := f x]> (scsi_cmnds s)) s).
Proof. intros E. unfold on_cmnd, on_host, read_cmnd, read_host, mbind, stateful_bind, modify. by rewrite E. Qed.

Lemma on_host_ok s h x (f : fio_port_scsi_host → fio_port_scsi_host) :
  scsi_hosts s !! h = Some x → on_host h f s = Ok (tt, set_hosts (<[h := f x]> (scsi_hosts s)) s).
Proof. intros E. unfold on_cmnd, on_host, read_cmnd, read_host, mbind, stateful_bind, modify. by rewrite E. Qed.

Lemma on_cmnd_if (b : bool) s c x (f : scsi_cmnd → scsi_cmnd) :
  scsi_cmnds s !! c = Some x →
  (if b then on_cmnd c f else mret tt) s = Ok (tt, set_cmnds (<[c := if b then f x else x]> (scsi_cmnds s)) s).
Proof. intros E. destruct b; [by apply on_cmnd_ok|]. rewrite insert_id by done. by destruct s. Qed.

Lemma on_host_if (b : bool) s h x (f : fio_port_scsi_host → fio_port_scsi_host) :
  scsi_hosts s !! h = Some x →
  (if b then on_host h f else mret tt) s = Ok (tt, set_hosts (<[h := if b then f x else x]> (scsi_hosts s)) s).
Proof. intros E. destruct b; [by apply on_host_ok|]. rewrite insert_id by done. by destruct s. Qed.

Lemma on_cmnd_if2 (b b' : bool) s c x (f g : scsi_cmnd → scsi_cmnd) :
  scsi_cmnds s !! c = Some x →
  (if b then on_cmnd c f else if b' then on_cmnd c g else mret tt) s
  = Ok (tt, set_cmnds (<[c := if b then f x else if b' then g x else x]> (scsi_cmnds s)) s).
Proof. intros E. destruct b; [by apply on_cmnd_ok|by apply on_cmnd_if]. Qed.

Lemma read_cmnd_ok s c x : scsi_cmnds s !! c = Some x → read_cmnd c s = Ok (x, s).
Proof. intros E. unfold read_cmnd. by rewrite E. Qed.
Lemma read_device_ok s d x : scsi_devices s !! d = Some x → read_device d s = Ok (x, s).
Proof. intros E. unfold read_device. by rewrite E. Qed.
Lemma read_host_ok s h x : scsi_hosts s !! h = Some x → read_host h s = Ok (x, s).
Proof. intros E. unfold read_host. by rewrite E. Qed.

(** One call, at a pointer that the context or the last assignment shows to be good. *)
Ltac scsi_at := simpl; rewrite ?lookup_insert_eq; first [eassumption | reflexivity].
Ltac scsi_call :=
  first [apply read_cmnd_ok | apply read_device_ok | apply read_host_ok | apply on_cmnd_ok | apply on_host_ok
        | apply on_cmnd_if | apply on_host_if | apply on_cmnd_if2 ]; scsi_at.
Ltac scsi_next := erewrite stateful_bind_ok by scsi_call; cbv beta iota.

Lemma completor_runs s c scmd d h x bytes st err cmd :
  live s c scmd d h x → sc_host_scribble scmd = Some cmd → (2 < length (sc_sense_buffer scmd))%nat →
  kfio_port_scsi_cmd_completor c bytes st err s =
  Ok (tt, set_cmnds (<[c := completed bytes st err scmd]> (scsi_cmnds s))
            (set_hosts (<[h := set_stats (completed_stats st (answer (sc_sense_buffer scmd) st err)) x]> (scsi_hosts s)) s)).
Proof.
  intros L Hcmd Hs. unfold kfio_port_scsi_cmd_completor.
  erewrite stateful_bind_ok by by eapply live_from_scmd. cbv beta iota.
  destruct L as [E _ _ Ex _].
  assert (fio_scsi_cmd_from_scmd c s = Ok (Some cmd, s)) as Ec
    by (unfold fio_scsi_cmd_from_scmd; scsi_next; by rewrite Hcmd).
  rewrite (stateful_bind_ok _ _ _ _ _ Ec). cbv beta iota.
  do 4 scsi_next.
  erewrite stateful_bind_ok by (unfold lift; simpl; rewrite host_status_answer by done; reflexivity). cbv beta iota.
  set (hs := answer _ _ _). do 3 scsi_next.
  rewrite (on_cmnd_if (negb (err =? - ENOMEM)) _ _ _ scsi_done) by scsi_at. simpl. rewrite !insert_insert_eq.
  unfold set_cmnds, set_hosts. simpl. do 3 f_equal; f_equal.
  - unfold completed_stats. by destruct (_ || _).
  - unfold completed, completed_result, resid_after. fold hs.
    destruct (Z.eqb_spec err (- ENOMEM)) as [->|Hne]; [rewrite (decide_True (P := - ENOMEM = - ENOMEM)) by done|rewrite decide_False by done];
      destruct (bytes >? 0); destruct (negb (hs =? DID_OK)); destruct (bool_decide (st = FIO_SCSI_CMD_STAT_CHECK)); reflexivity.
Qed.

(** Completing a command whose pointer is cleared, or whose host is gone, does nothing. *)
Lemma completor_again s c scmd d h x bytes st err :
  live s c scmd d h x → sc_host_scribble scmd = None → kfio_port_scsi_cmd_completor c bytes st err s = Ok (tt, s).
Proof.
  intros L Hcmd. unfold kfio_port_scsi_cmd_completor.
  erewrite stateful_bind_ok by by eapply live_from_scmd. cbv beta iota.
  destruct L as [E _ _ Ex _]. unfold fio_scsi_cmd_from_scmd. scsi_run. by rewrite Hcmd.
Qed.

(** ** Hooked-up devices *)

(** The LU that device [d] is hooked up to: the two point to each other. *)
Definition linked s d : option positive :=
  y ← scsi_devices s !! d;
  lu ← sd_hostdata y;
  if bool_decide (kfio_scsi_lu_get_port_lu (core s) lu = Some d) then Some lu else None.

Lemma linked_points_back s d lu : linked s d = Some lu → kfio_scsi_lu_get_port_lu (core s) lu = Some d.
Proof.
  unfold linked. destruct (scsi_devices s !! d) as [y|]; [|done]. simpl.
  destruct (sd_hostdata y) as [l|]; [|done]. simpl. case_bool_decide; naive_solver.
Qed.

Lemma linked_injective s d d' lu : linked s d = Some lu → linked s d' = Some lu → d = d'.
Proof. intros E%linked_points_back E'%linked_points_back. congruence. Qed.

(** Device [d] when nothing is left of a stale link. *)
Definition repaired s d : scsi_state :=
  match linked s d with
  | Some _ => s
  | None => set_devices (alter (set_hostdata None) d (scsi_devices s)) s
  end.

Lemma alter_is_insert {A} (m : gmap positive A) k x (f : A → A) : m !! k = Some x → alter f k m = <[k := f x]> m.
Proof.
  intros E. apply map_eq. intros j. destruct (decide (j = k)) as [->|Hne].
  - by rewrite lookup_alter_eq, lookup_insert_eq, E.
  - by rewrite lookup_alter_ne, lookup_insert_ne by done.
Qed.

Lemma on_device_ok s d (f : scsi_device → scsi_device) :
  is_Some (scsi_devices s !! d) → on_device d f s = Ok (tt, set_devices (alter f d (scsi_devices s)) s).
Proof.
  intros [y E]. rewrite (alter_is_insert _ _ y) by done.
  unfold on_device, read_device, mbind, stateful_bind, modify. by rewrite E.
Qed.

Lemma set_hostdata_id y : sd_hostdata y = None → set_hostdata None y = y.
Proof. intros E. destruct y. simpl in *. by subst. Qed.

Lemma from_sdev_runs s d :
  is_Some (scsi_devices s !! d) → fio_scsi_lu_from_sdev_locked d s = Ok (linked s d, repaired s d).
Proof.
  intros [y E]. unfold fio_scsi_lu_from_sdev_locked, repaired, linked.
  erewrite stateful_bind_ok by (apply read_device_ok; exact E). cbv beta iota. rewrite E. simpl.
  destruct (sd_hostdata y) as [lu|] eqn:El; simpl.
  - unfold mbind at 1, stateful_bind at 1. simpl. case_bool_decide; [done|].
    by erewrite stateful_bind_ok by by apply on_device_ok; eauto.
  - rewrite (alter_is_insert _ _ y) by done. rewrite set_hostdata_id, insert_id by done. by destruct s.
Qed.

(** A device that is not linked to an LU is as good as unhooked, and stays so. *)
Lemma linked_repaired s d e : linked (repaired s d) e = linked s e.
Proof.
  unfold repaired. destruct (linked s d) as [lu|] eqn:E; [done|].
  unfold linked in *. simpl. destruct (decide (e = d)) as [->|Hne].
  - rewrite lookup_alter_eq. destruct (scsi_devices s !! d) as [y|]; simpl in *; done.
  - by rewrite lookup_alter_ne by done.
Qed.

(** ** A command's way to the core *)

Definition refused (hb : Z) (x : scsi_cmnd) : scsi_cmnd := scsi_done (set_host_byte hb (set_result 0 x)).

Lemma immediate_error_runs s c scmd hb :
  scsi_cmnds s !! c = Some scmd →
  fio_scmd_immediate_error c hb s = Ok (tt, set_cmnds (<[c := refused hb scmd]> (scsi_cmnds s)) s).
Proof. apply on_cmnd_ok. Qed.

(** The state once device [d] is hooked up to [lu], whose host has [n] LUs. *)
Definition hooked_up (depth n : Z) d lu s : scsi_state :=
  set_core (kfio_scsi_lu_set_port_lu (core s) lu (Some d))
    (set_devices (alter (set_hostdata (Some lu) ∘ set_queue_depth (s32 (u32 depth / n))) d (scsi_devices s)) s).

(** What [hook_up] finds: the LU that is linked, or the one that has the device's numbers. *)
Definition hook_up_result (depth : Z) h d s : option positive * scsi_state :=
  match linked s d, scsi_devices s !! d, scsi_hosts s !! h with
  | Some lu, _, _ => (Some lu, s)
  | None, Some y, Some x =>
      match kfio_scsi_lu_lookup_from_tid_lun (core s) (sd_id y) (u32 (sd_lun y)) with
      | Some lu => (Some lu, hooked_up depth (ph_ref_count x) d lu s)
      | None => (None, repaired s d)
      end
  | _, _, _ => (None, s)
  end.

Lemma hook_up_runs depth s h d x :
  is_Some (scsi_devices s !! d) → scsi_hosts s !! h = Some x → 0 < ph_ref_count x < 2 ^ 32 →
  hook_up depth h d s = Ok (hook_up_result depth h d s).
Proof.
  intros [y E] Ex Hr. unfold hook_up, hook_up_result.
  erewrite stateful_bind_ok by (apply from_sdev_runs; eauto). cbv beta iota. rewrite E, Ex.
  unfold repaired. destruct (linked s d) as [lu|] eqn:El; [done|].
  set (s1 := set_devices _ s).
  assert (scsi_devices s1 !! d = Some (set_hostdata None y)) as E1 by (simpl; by rewrite lookup_alter_eq, E).
  rewrite (stateful_bind_ok _ _ _ _ _ (read_device_ok _ _ _ E1)). cbv beta iota.
  unfold ask_core at 1. unfold mbind at 1, stateful_bind at 1. simpl.
  destruct (kfio_scsi_lu_lookup_from_tid_lun (core s) (sd_id y) (u32 (sd_lun y))) as [lu|]; [|done].
  erewrite stateful_bind_ok by (apply read_host_ok; exact Ex). cbv beta iota.
  rewrite (wrapu_small 32 (ph_ref_count x)) by (unfold in_u; lia).
  rewrite (proj2 (Z.eqb_neq (ph_ref_count x) 0)) by lia. simpl.
  unfold lift at 1, mbind at 1, stateful_bind at 1. simpl.
  erewrite stateful_bind_ok by (apply on_device_ok; eauto). cbv beta iota.
  erewrite stateful_bind_ok by (apply on_device_ok; apply lookup_alter_is_Some; eauto). cbv beta iota.
  unfold modify, mbind, stateful_bind, mret, stateful_ret, hooked_up, set_core, set_devices. simpl.
  do 3 f_equal. rewrite !alter_alter_eq. apply alter_ext. intros z _. by destruct z.
Qed.

Lemma from_shost_runs s h x :
  scsi_hosts s !! h = Some x →
  fio_port_scsi_host_from_shost h s = Ok (if ph_shost x then Some h else None, s).
Proof. intros E. unfold fio_port_scsi_host_from_shost. by scsi_next. Qed.

(** What the driver relies on when it asks the core for a command: the links are left
    alone, and there are two errors. *)
Definition alloc_contract : Prop := ∀ k cdb lu c, match kfio_scsi_cmd_alloc k cdb lu c with (ret, cmd, k') =>
  (∀ l, kfio_scsi_lu_get_port_lu k' l = kfio_scsi_lu_get_port_lu k l)
  ∧ (ret = - ENOMEM ∨ ret = - ENOENT ∨ ret = 0 ∧ is_Some cmd) end.

Lemma linked_ext s k d :
  (∀ l, kfio_scsi_lu_get_port_lu k l = kfio_scsi_lu_get_port_lu (core s) l) → linked (set_core k s) d = linked s d.
Proof.
  intros Hk. unfold linked. simpl. destruct (scsi_devices s !! d) as [y|]; [|done]. simpl.
  destruct (sd_hostdata y); [|done]. simpl. by rewrite Hk.
Qed.

(** [c] is a command to a device of a host that is there, and has LUs. *)
Record queueable s c scmd y x : Prop := {
  q_cmnd : scsi_cmnds s !! c = Some scmd;
  q_device : scsi_devices s !! sc_device scmd = Some y;
  q_host : scsi_hosts s !! sd_host y = Some x;
  q_luns : 0 < ph_ref_count x < 2 ^ 32
}.

(** The result and the state after [queuecommand_issue], without its monad: the form in
    which the theorems use it. *)
Definition issue_result (depth : Z) c scmd y x s : queued * scsi_state :=
  let d := sc_device scmd in
  let refuse hb s := (Returned 0, set_cmnds (<[c := refused hb scmd]> (scsi_cmnds s)) s) in
  if negb (ph_shost x) || negb (sd_id y =? ph_target_id x) then refuse DID_NO_CONNECT s
  else match hook_up_result depth (sd_host y) d s with
  | (None, s) => refuse DID_TIME_OUT s
  | (Some lu, s) =>
      match kfio_scsi_cmd_alloc (core s) (sc_cmnd scmd) lu c with
      | (0, Some cmd, k) => (Received cmd, set_cmnds (<[c := set_scribble (Some cmd) scmd]> (scsi_cmnds s)) (set_core k s))
      | (ret, _, k) => if decide (ret = - ENOMEM) then (Returned SCSI_MLQUEUE_HOST_BUSY, set_core k s) else refuse DID_TIME_OUT (set_core k s)
      end
  end.

Context `{!ScsiCoreLaws _}.

Lemma hook_up_keeps depth h d s r s' :
  is_Some (scsi_devices s !! d) → is_Some (scsi_hosts s !! h) → hook_up_result depth h d s = (r, s') →
  linked s' d = r ∧ scsi_cmnds s' = scsi_cmnds s ∧ scsi_hosts s' = scsi_hosts s
  ∧ (∀ e, sd_host <$> scsi_devices s' !! e = sd_host <$> scsi_devices s !! e).
Proof.
  intros [y Ey] [x Ex]. unfold hook_up_result. rewrite Ey, Ex.
  assert (∀ (f : scsi_device → scsi_device) e, (∀ z, sd_host (f z) = sd_host z) →
    sd_host <$> alter f d (scsi_devices s) !! e = sd_host <$> scsi_devices s !! e) as Halter.
  { intros f e Hf. destruct (decide (e = d)) as [->|Hne]; [|by rewrite lookup_alter_ne].
    rewrite lookup_alter_eq, Ey. simpl. by rewrite Hf. }
  destruct (linked s d) as [lu|] eqn:El; [intros [= <- <-]; eauto|].
  destruct (kfio_scsi_lu_lookup_from_tid_lun _ _ _) as [lu|]; intros [= <- <-].
  - split; [|split_and!; [done..|intros e; by apply Halter]].
    unfold linked, hooked_up. simpl. rewrite lookup_alter_eq, Ey. simpl.
    by rewrite get_port_lu_eq, bool_decide_eq_true_2.
  - rewrite linked_repaired. unfold repaired. rewrite El. split_and!; [done..|intros e; by apply Halter].
Qed.

Lemma bus_name_runs s c scmd y x :
  scsi_cmnds s !! c = Some scmd → scsi_devices s !! sc_device scmd = Some y → scsi_hosts s !! sd_host y = Some x →
  ph_shost x = true → is_Some (linked s (sc_device scmd)) →
  fio_scsi_bus_name_from_scmd c s = Ok (linked s (sc_device scmd), s).
Proof.
  intros Ec Ed Eh Hr [lu El]. unfold fio_scsi_bus_name_from_scmd, fio_scsi_lu_from_scmd, fio_port_scsi_host_from_scmd.
  rewrite stateful_bind_assoc. scsi_next. rewrite stateful_bind_assoc. scsi_next.
  erewrite stateful_bind_ok by (eapply from_shost_runs; eassumption). cbv beta iota. rewrite Hr.
  unfold lift at 1, mbind at 1, stateful_bind at 1. simpl. scsi_next.
  rewrite from_sdev_runs by eauto. unfold repaired. by rewrite El.
Qed.

Lemma issue_runs depth s c scmd y x :
  alloc_contract → queueable s c scmd y x →
  queuecommand_issue depth c s = Ok (issue_result depth c scmd y x s).
Proof.
  intros Ha [Ec Ed Eh Hn]. unfold queuecommand_issue, issue_result.
  scsi_next. scsi_next.
  erewrite stateful_bind_ok by (eapply from_shost_runs; eassumption). cbv beta iota.
  destruct (ph_shost x) eqn:Hreg; simpl;
    [|by erewrite stateful_bind_ok by (eapply immediate_error_runs; eassumption)].
  scsi_next. destruct (sd_id y =? ph_target_id x); simpl;
    [|by erewrite stateful_bind_ok by (eapply immediate_error_runs; eassumption)].
  pose proof (hook_up_runs depth s (sd_host y) (sc_device scmd) x (ltac:(eauto)) Eh Hn) as Hup.
  destruct (hook_up_result depth (sd_host y) (sc_device scmd) s) as [[lu|] s1] eqn:Er;
    destruct (hook_up_keeps _ _ _ _ _ _ (ltac:(eauto)) (ltac:(eauto)) Er) as (El & Ec1 & Eh1 & Ed1);
    rewrite (stateful_bind_ok _ _ _ _ _ Hup); cbv beta iota.
  2: { erewrite stateful_bind_ok by (eapply immediate_error_runs; rewrite Ec1; eassumption). by rewrite Ec1. }
  unfold call_core at 1, mbind at 1, stateful_bind at 1.
  specialize (Ha (core s1) (sc_cmnd scmd) lu c).
  destruct (kfio_scsi_cmd_alloc (core s1) (sc_cmnd scmd) lu c) as [[ret cmd] k]. destruct Ha as [Hk Hret].
  destruct Hret as [-> | [-> | [-> [p ->]]]]; simpl.
  - specialize (Ed1 (sc_device scmd)). rewrite Ed in Ed1. destruct (scsi_devices s1 !! sc_device scmd) as [y1|] eqn:E1; [|done].
    simpl in Ed1. injection Ed1 as Ed1.
    erewrite stateful_bind_ok by (eapply (bus_name_runs (set_core k s1)); simpl;
      [rewrite Ec1; exact Ec | exact E1 | rewrite Eh1, Ed1; exact Eh | exact Hreg | rewrite linked_ext by exact Hk; eauto]).
    done.
  - erewrite stateful_bind_ok by (eapply immediate_error_runs; simpl; rewrite Ec1; eassumption). simpl. done.
  - unfold lift at 1, mbind at 1, stateful_bind at 1. simpl.
    erewrite stateful_bind_ok by (apply on_cmnd_ok; simpl; rewrite Ec1; eassumption). done.
Qed.

(** ** One answer for every command *)

(** What the core does with a command that it is given: it completes it before
    [kfio_scsi_cmd_rcvd] returns, or leaves it for later. *)
Inductive core_behaviour := Pending | Completes (bytes : Z) (st : fio_scsi_cmd_status) (err : Z).

Definition core_rcvd (b : core_behaviour) c (cmd : positive) : stateful scsi_state Z :=
  match b with
  | Pending => mret 1
  | Completes bytes st err => _ ← kfio_port_scsi_cmd_completor c bytes st err; mret (if err =? - ENOMEM then - ENOMEM else 0)
  end.

(** Completions that arrive later. *)
Fixpoint run_completions c (l : list (Z * fio_scsi_cmd_status * Z)) : stateful scsi_state unit :=
  match l with
  | [] => mret tt
  | (bytes, st, err) :: l => _ ← kfio_port_scsi_cmd_completor c bytes st err; run_completions c l
  end.

(** [scmd] is command [c] of a device and a host that are there. *)
Record placed s c scmd : Prop := {
  p_cmnd : scsi_cmnds s !! c = Some scmd;
  p_device : ∃ y x, scsi_devices s !! sc_device scmd = Some y ∧ scsi_hosts s !! sd_host y = Some x
}.

Lemma placed_from_scmd s c scmd :
  placed s c scmd → ∃ p, fio_port_scsi_host_from_scmd c s = Ok (p, s)
    ∧ ∀ h, p = Some h → ∃ x, live s c scmd (sc_device scmd) h x.
Proof.
  intros [Ec (y & x & Ed & Eh)]. exists (if ph_shost x then Some (sd_host y) else None).
  unfold fio_port_scsi_host_from_scmd. do 2 scsi_next. rewrite (from_shost_runs _ _ _ Eh). split; [done|].
  intros h. destruct (ph_shost x) eqn:Hr; [|done]. intros [= <-]. exists x. split; eauto.
Qed.

Lemma completor_idle s c scmd bytes st err :
  placed s c scmd → sc_host_scribble scmd = None → kfio_port_scsi_cmd_completor c bytes st err s = Ok (tt, s).
Proof.
  intros P Hn. destruct (placed_from_scmd _ _ _ P) as ([h|] & E & Hl).
  - destruct (Hl h eq_refl) as [x L]. by eapply completor_again.
  - unfold kfio_port_scsi_cmd_completor. by rewrite (stateful_bind_ok _ _ _ _ _ E).
Qed.

Lemma completions_idle s c scmd l :
  placed s c scmd → sc_host_scribble scmd = None → run_completions c l s = Ok (tt, s).
Proof.
  intros P Hn. induction l as [|[[bytes st] err] l IH]; [done|]. simpl.
  by erewrite stateful_bind_ok by (eapply completor_idle; eassumption).
Qed.

(** A command that the core has: the first completion is the one that counts. *)
Lemma completions_first s c scmd d h x cmd bytes st err l :
  live s c scmd d h x → sc_host_scribble scmd = Some cmd → (2 < length (sc_sense_buffer scmd))%nat →
  ∃ s', run_completions c ((bytes, st, err) :: l) s = Ok (tt, s')
    ∧ kfio_port_scsi_cmd_completor c bytes st err s = Ok (tt, s')
    ∧ scsi_cmnds s' !! c = Some (completed bytes st err scmd) ∧ placed s' c (completed bytes st err scmd).
Proof.
  intros L Hcmd Hs. pose proof (completor_runs s c scmd d h x bytes st err cmd L Hcmd Hs) as E.
  set (s' := set_cmnds _ _) in E. exists s'.
  assert (scsi_cmnds s' !! c = Some (completed bytes st err scmd)) as Ec by (simpl; apply lookup_insert_eq).
  assert (placed s' c (completed bytes st err scmd)) as P.
  { split; [done|]. destruct L as [_ (y & Ed & <-) <- Ex _].
    eexists y, _. split; [exact Ed|]. simpl. apply lookup_insert_eq. }
  split_and!; try done. simpl. rewrite (stateful_bind_ok _ _ _ _ _ E).
  by eapply completions_idle.
Qed.

Lemma issue_result_outcome depth s c scmd y x r s' :
  alloc_contract → queueable s c scmd y x → issue_result depth c scmd y x s = (r, s') →
  (∃ hb, r = Returned 0 ∧ placed s' c (refused hb scmd))
  ∨ (r = Returned SCSI_MLQUEUE_HOST_BUSY ∧ placed s' c scmd)
  ∨ (∃ cmd, r = Received cmd ∧ live s' c (set_scribble (Some cmd) scmd) (sc_device scmd) (sd_host y) x
            ∧ is_Some (linked s' (sc_device scmd))).
Proof.
  intros Ha [Ec Ed Eh Hn]. unfold issue_result.
  destruct (negb (ph_shost x) || negb (sd_id y =? ph_target_id x)) eqn:Hreg.
  { intros [= <- <-]. left. eexists. split; [done|]. split; [apply lookup_insert_eq|]. eexists _, _. eauto. }
  apply orb_false_iff in Hreg as [Hreg%negb_false_iff _].
  destruct (hook_up_result depth (sd_host y) (sc_device scmd) s) as [lu s1] eqn:Er.
  destruct (hook_up_keeps _ _ _ _ _ _ (ltac:(eauto)) (ltac:(eauto)) Er) as (El & Ec1 & Eh1 & Ed1).
  specialize (Ed1 (sc_device scmd)). rewrite Ed in Ed1.
  destruct (scsi_devices s1 !! sc_device scmd) as [y1|] eqn:E1; [|done]. injection Ed1 as Ed1.
  assert (∀ k (m : gmap positive scsi_cmnd) z, sc_device z = sc_device scmd → m !! c = Some z →
      placed (set_cmnds m (set_core k s1)) c z) as HP.
  { intros k m z Hz Hm. split; [done|]. exists y1, x. simpl. rewrite Hz, E1, Eh1, Ed1. eauto. }
  destruct lu as [lu|].
  2: { intros [= <- <-]. left. eexists. split; [done|]. apply (HP (core s1)); [done|apply lookup_insert_eq]. }
  specialize (Ha (core s1) (sc_cmnd scmd) lu c).
  destruct (kfio_scsi_cmd_alloc (core s1) (sc_cmnd scmd) lu c) as [[ret cmd] k].
  destruct Ha as [Hk [-> | [-> | [-> [p ->]]]]]; intros [= <- <-].
  - right. left. split; [done|]. apply (HP k (scsi_cmnds s1)); [done|by rewrite Ec1].
  - left. eexists. split; [done|]. apply (HP k); [done|apply lookup_insert_eq].
  - right. right. exists p. split; [done|]. split; [split|].
    + apply lookup_insert_eq.
    + exists y1. eauto.
    + done.
    + simpl. by rewrite Eh1.
    + done.
    + change (linked _ _) with (linked (set_core k s1) (sc_device scmd)). rewrite linked_ext by exact Hk. eauto.
Qed.

(** A command that is passed on: to the LU that its device is linked to now. *)
Lemma received_goes_to_lu depth s c scmd y x cmd s' :
  alloc_contract → queueable s c scmd y x → queuecommand_issue depth c s = Ok (Received cmd, s') →
  ∃ lu k, linked s' (sc_device scmd) = Some lu
    ∧ kfio_scsi_cmd_alloc k (sc_cmnd scmd) lu c = (0, Some cmd, core s')
    ∧ sd_id y = ph_target_id x ∧ ph_shost x = true
    ∧ scsi_cmnds s' = <[c := set_scribble (Some cmd) scmd]> (scsi_cmnds s)
    ∧ ∃ y', scsi_devices s' !! sc_device scmd = Some y' ∧ sd_id y' = sd_id y ∧ sd_lun y' = sd_lun y.
Proof.
  intros Ha Q. rewrite (issue_runs depth s c scmd y x Ha Q). destruct Q as [Ec Ed Eh Hn]. unfold issue_result.
  destruct (negb (ph_shost x) || negb (sd_id y =? ph_target_id x)) eqn:Hreg; [done|].
  apply orb_false_iff in Hreg as [Hreg%negb_false_iff Hid%negb_false_iff%Z.eqb_eq].
  destruct (hook_up_result depth (sd_host y) (sc_device scmd) s) as [[lu|] s1] eqn:Er; [|done].
  destruct (hook_up_keeps _ _ _ _ _ _ (ltac:(eauto)) (ltac:(eauto)) Er) as (El & Ec1 & _ & _).
  assert (∃ y', scsi_devices s1 !! sc_device scmd = Some y' ∧ sd_id y' = sd_id y ∧ sd_lun y' = sd_lun y) as Hy.
  { unfold hook_up_result in Er. rewrite Ed, Eh in Er. repeat case_match; simplify_eq/=; eauto.
    rewrite lookup_alter_eq, Ed. eexists. by split. }
  specialize (Ha (core s1) (sc_cmnd scmd) lu c).
  destruct (kfio_scsi_cmd_alloc (core s1) (sc_cmnd scmd) lu c) as [[ret cmd'] k] eqn:Ek.
  destruct Ha as [Hk [-> | [-> | [-> [p ->]]]]]; [done|done|]. intros [= <- <-].
  exists lu, (core s1). simpl. split_and!; try done; [|by rewrite Ec1].
  change (linked _ _) with (linked (set_core k s1) (sc_device scmd)). by rewrite linked_ext.
Qed.

Lemma rest_busy s c scmd d h x bytes st cmd :
  live s c scmd d h x → sc_host_scribble scmd = Some cmd → (2 < length (sc_sense_buffer scmd))%nat → is_Some (linked s d) →
  ∀ s', kfio_port_scsi_cmd_completor c bytes st (- ENOMEM) s = Ok (tt, s') →
  queuecommand_rest c (- ENOMEM) s' = Ok (SCSI_MLQUEUE_HOST_BUSY, s').
Proof.
  intros L Hcmd Hs Hl s' E. rewrite (completor_runs s c scmd d h x bytes st (- ENOMEM) cmd L Hcmd Hs) in E.
  injection E as <-. destruct L as [_ (y & Ed & <-) <- Ex Hr].
  unfold queuecommand_rest. rewrite (Z.eqb_refl (- ENOMEM)). cbv beta iota.
  erewrite stateful_bind_ok; [done|].
  eapply (bus_name_runs _ c _ y); simpl; [apply lookup_insert_eq|exact Ed|apply lookup_insert_eq|exact Hr|exact Hl].
Qed.

(** C6: Every command that the mid-layer queues is answered exactly once: either
    the driver says that it is busy, and does not complete it, or it takes it, and
    completes it once - at once when there is no host or LU for it, in the call, or
    later, whatever further completions the core sends. *)
Theorem answered_once depth s c scmd y x b later :
  alloc_contract → queueable s c scmd y x → sc_host_scribble scmd = None → (2 < length (sc_sense_buffer scmd))%nat →
  (b = Pending → ∃ bytes st err l, later = (bytes, st, err) :: l ∧ err ≠ - ENOMEM) →
  ∃ ret s' s'' scmd',
    fio_shost_queuecommand depth c (core_rcvd b c) s = Ok (ret, s')
    ∧ run_completions c later s' = Ok (tt, s'') ∧ scsi_cmnds s'' !! c = Some scmd'
    ∧ (ret = SCSI_MLQUEUE_HOST_BUSY ∧ sc_done scmd' = sc_done scmd ∨ ret = 0 ∧ sc_done scmd' = S (sc_done scmd)).
Proof.
  intros Ha Q Hscr Hs Hb. unfold fio_shost_queuecommand.
  pose proof (issue_runs depth s c scmd y x Ha Q) as E.
  destruct (issue_result depth c scmd y x s) as [r s1] eqn:Er. rewrite (stateful_bind_ok _ _ _ _ _ E). cbv beta iota.
  destruct (issue_result_outcome depth s c scmd y x r s1 Ha Q Er) as [(hb & -> & P)|[[-> P]|(cmd & -> & L & Hl)]].
  - do 4 eexists. split; [done|]. split; [by apply (completions_idle _ _ _ _ P)|]. split; [apply P|]. eauto.
  - do 4 eexists. split; [done|]. split; [by apply (completions_idle _ _ _ _ P)|]. split; [apply P|]. eauto.
  - destruct b as [|bytes st err].
    + destruct (Hb eq_refl) as (bytes & st & err & l & -> & He).
      set (s2 := set_cmnds (<[c := set_result 0 (set_scribble (Some cmd) scmd)]> (scsi_cmnds s1)) s1).
      assert (live s2 c (set_result 0 (set_scribble (Some cmd) scmd)) (sc_device scmd) (sd_host y) x) as L2.
      { destruct L. split; try done. apply lookup_insert_eq. }
      destruct (completions_first s2 c _ _ _ _ cmd bytes st err l L2 eq_refl Hs) as (s3 & E3 & _ & Ec3 & _).
      exists 0, s2, s3. eexists. split; [|split; [exact E3|split; [exact Ec3|]]].
      * unfold core_rcvd, queuecommand_rest. unfold mbind, stateful_bind, mret, stateful_ret.
        change (1 =? - ENOMEM) with false. change (1 =? 1) with true. cbv beta iota.
        by rewrite (on_cmnd_ok _ _ _ _ (live_cmnd _ _ _ _ _ _ L)).
      * right. simpl. by rewrite decide_False.
    + destruct (completions_first s1 c _ _ _ _ cmd bytes st err [] L eq_refl Hs) as (s3 & _ & E3 & Ec3 & P3).
      exists (if decide (err = - ENOMEM) then SCSI_MLQUEUE_HOST_BUSY else 0), s3, s3. eexists.
      split; [|split; [by apply (completions_idle _ _ _ _ P3)|split; [exact Ec3|]]].
      * unfold core_rcvd. rewrite stateful_bind_assoc, (stateful_bind_ok _ _ _ _ _ E3).
        unfold mbind, stateful_bind, mret, stateful_ret. cbv beta iota.
        destruct (Z.eqb_spec err (- ENOMEM)) as [->|Hne].
        -- rewrite decide_True by done. by apply (rest_busy s1 c _ _ _ x bytes st cmd L eq_refl Hs Hl).
        -- by rewrite decide_False.
      * simpl. case_decide; eauto.
Qed.

(** C8: A completed command tells the mid-layer what happened.  Its result has the
    status of the core in the first byte and in the third the host's answer: that the
    command is to be tried again, that its target is bad, that there is no
    connection, or that all is well.  The fourth says that there is sense data
    exactly when the status is CHECK and the host's answer is that all is well; the
    sense buffer itself stays as the core left it.  The result is 0 exactly when the
    status is good and the driver has no error.  The residual is what was not
    transferred, but 0 when nothing was.  The command is no longer the core's, and
    [scsi_done] is called once, unless memory was short. *)
Theorem completion_reports s c scmd d h x bytes st err cmd :
  live s c scmd d h x → sc_host_scribble scmd = Some cmd → (2 < length (sc_sense_buffer scmd))%nat →
  sc_resid scmd = 0 → 0 <= bytes <= sc_bufflen scmd → sc_bufflen scmd < 2 ^ 31 →
  ∃ s' scmd', kfio_port_scsi_cmd_completor c bytes st err s = Ok (tt, s') ∧ scsi_cmnds s' !! c = Some scmd'
    ∧ status_byte (sc_result scmd') = status_code st
    ∧ host_byte (sc_result scmd') = answer (sc_sense_buffer scmd) st err
    ∧ driver_byte (sc_result scmd')
      = (if decide (answer (sc_sense_buffer scmd) st err = DID_OK ∧ st = FIO_SCSI_CMD_STAT_CHECK) then DRIVER_SENSE else 0)
    ∧ sc_sense_buffer scmd' = sc_sense_buffer scmd
    ∧ (sc_result scmd' = 0 ↔ st = FIO_SCSI_CMD_STAT_GOOD ∧ err = 0)
    ∧ sc_resid scmd' = (if decide (bytes = 0) then 0 else sc_bufflen scmd - bytes)
    ∧ sc_host_scribble scmd' = None
    ∧ sc_done scmd' = (if decide (err = - ENOMEM) then sc_done scmd else S (sc_done scmd))
    ∧ scsi_devices s' = scsi_devices s ∧ core s' = core s.
Proof.
  intros L Hcmd Hs Hr0 Hb Hl. rewrite (completor_runs s c scmd d h x bytes st err cmd L Hcmd Hs).
  do 2 eexists. split; [done|]. split; [apply lookup_insert_eq|]. simpl.
  destruct (completed_result_bytes (sc_sense_buffer scmd) st err) as (-> & -> & ->).
  split_and!; try done; [apply completed_result_zero|].
  unfold resid_after, fio_scmd_update_resid. rewrite Hr0. destruct (Z.gtb_spec bytes 0) as [Hgt|Hle].
  - rewrite decide_False by lia. simpl. change (u64 0 =? 0) with true. cbv beta iota.
    rewrite (wrapu_small 64) by (unfold in_u; lia). by rewrite (wraps_small 32) by (unfold in_s; lia).
  - by rewrite decide_True by lia.
Qed.

(** A command that was left pending may have been completed by the time that
    [kfio_scsi_cmd_rcvd] returns: its result is then overwritten with success. *)
Lemma pending_overwrites_status s c scmd d h x bytes st err cmd :
  live s c scmd d h x → sc_host_scribble scmd = Some cmd → (2 < length (sc_sense_buffer scmd))%nat →
  ∃ s', (_ ← kfio_port_scsi_cmd_completor c bytes st err; queuecommand_rest c 1) s = Ok (0, s')
        ∧ sc_result <$> scsi_cmnds s' !! c = Some 0.
Proof.
  intros L Hcmd Hs. rewrite (stateful_bind_ok _ _ _ _ _ (completor_runs s c scmd d h x bytes st err cmd L Hcmd Hs)).
  unfold queuecommand_rest. change (1 =? - ENOMEM) with false. change (1 =? 1) with true. cbv beta iota.
  erewrite stateful_bind_ok by (apply on_cmnd_ok; simpl; apply lookup_insert_eq). cbv beta iota.
  eexists. split; [done|]. simpl. by rewrite lookup_insert_eq.
Qed.

(** An abort, and each reset, goes through the host's lock before it asks whether
    there is a host. *)
Lemma abort_without_host s c scmd y x count :
  scsi_cmnds s !! c = Some scmd → scsi_devices s !! sc_device scmd = Some y → scsi_hosts s !! sd_host y = Some x →
  ph_shost x = false →
  fio_shost_abort c s = Fault NullDeref ∧ shost_reset count c s = Fault NullDeref.
Proof.
  intros Ec Ed Eh Hr.
  assert (fio_port_scsi_host_from_scmd c s = Ok (None, s)) as E.
  { unfold fio_port_scsi_host_from_scmd. do 2 scsi_next. rewrite (from_shost_runs _ _ _ Eh). by rewrite Hr. }
  split; [unfold fio_shost_abort|unfold shost_reset]; rewrite (stateful_bind_ok _ _ _ _ _ E); [|done].
  unfold fio_scsi_cmd_from_scmd. rewrite stateful_bind_assoc. scsi_next.
  assert (fio_scsi_lu_from_scmd c s = Fault NullDeref) as El
    by (unfold fio_scsi_lu_from_scmd; by rewrite (stateful_bind_ok _ _ _ _ _ E)).
  unfold mbind, stateful_bind, mret, stateful_ret. by rewrite El.
Qed.

(** ** Unhooking *)

Definition drop_link d s : scsi_core :=
  match linked s d with Some lu => kfio_scsi_lu_set_port_lu (core s) lu None | None => core s end.
Definition unhooked d s : scsi_state := set_core (drop_link d s) (set_devices (alter (set_hostdata None) d (scsi_devices s)) s).

Lemma unhook_device_runs s d : is_Some (scsi_devices s !! d) → unhook_device d s = Ok (tt, unhooked d s).
Proof.
  intros Hd. unfold unhook_device, unhooked, drop_link.
  erewrite stateful_bind_ok by by apply from_sdev_runs. cbv beta iota. unfold repaired.
  destruct (linked s d) as [lu|] eqn:El.
  - unfold modify, mbind, stateful_bind. by rewrite on_device_ok.
  - unfold mret, mbind, stateful_bind, stateful_ret.
    rewrite on_device_ok by (simpl; by apply lookup_alter_is_Some). unfold set_devices, set_core. simpl.
    do 3 f_equal. rewrite alter_alter_eq. by apply alter_ext.
Qed.

Lemma unhooked_devices s d e :
  scsi_devices (unhooked d s) !! e = if decide (e = d) then set_hostdata None <$> scsi_devices s !! d else scsi_devices s !! e.
Proof. simpl. case_decide as He; [subst; apply lookup_alter_eq|by rewrite lookup_alter_ne]. Qed.

Lemma unhooked_port_lu s d lu :
  kfio_scsi_lu_get_port_lu (core (unhooked d s)) lu
  = if decide (linked s d = Some lu) then None else kfio_scsi_lu_get_port_lu (core s) lu.
Proof.
  simpl. unfold drop_link. destruct (linked s d) as [l|] eqn:El; [|by rewrite decide_False].
  destruct (decide (l = lu)) as [->|Hne].
  - by rewrite get_port_lu_eq, decide_True.
  - by rewrite get_port_lu_ne, decide_False by naive_solver.
Qed.

(** No other device loses its link. *)
Lemma unhooked_linked s d e : linked (unhooked d s) e = if decide (e = d) then None else linked s e.
Proof.
  unfold linked at 1. rewrite unhooked_devices. case_decide as He.
  - subst. by destruct (scsi_devices s !! d).
  - destruct (scsi_devices s !! e) as [y|] eqn:Ee; simpl; [|by unfold linked; rewrite Ee].
    destruct (sd_hostdata y) as [lu|] eqn:Ey; simpl; [|by unfold linked; rewrite Ee; simpl; rewrite Ey].
    change (drop_link d s) with (core (unhooked d s)). rewrite unhooked_port_lu.
    assert (linked s e = if bool_decide (kfio_scsi_lu_get_port_lu (core s) lu = Some e) then Some lu else None) as ->
      by (unfold linked; rewrite Ee; simpl; by rewrite Ey).
    case_decide as Hd; [|done]. apply linked_points_back in Hd. rewrite Hd.
    rewrite !bool_decide_eq_false_2; congruence.
Qed.

(** After the loop over the devices [ds]. *)
Lemma unhook_loop ds s :
  Forall (λ d, is_Some (scsi_devices s !! d)) ds →
  ∃ s', unhook_devices ds s = Ok (tt, s') ∧ scsi_hosts s' = scsi_hosts s ∧ scsi_cmnds s' = scsi_cmnds s
    ∧ (∀ e, scsi_devices s' !! e = if decide (e ∈ ds) then set_hostdata None <$> scsi_devices s !! e else scsi_devices s !! e)
    ∧ (∀ e, linked s' e = if decide (e ∈ ds) then None else linked s e)
    ∧ (∀ e lu, e ∈ ds → linked s e = Some lu → kfio_scsi_lu_get_port_lu (core s') lu = None)
    ∧ (∀ lu, kfio_scsi_lu_get_port_lu (core s) lu = None → kfio_scsi_lu_get_port_lu (core s') lu = None)
    ∧ (∀ lu, kfio_scsi_lu_get_target_id (core s') lu = kfio_scsi_lu_get_target_id (core s) lu).
Proof.
  revert s. induction ds as [|d ds IH]; intros s Hds; simpl.
  { exists s. split_and!; try done. intros e lu Hin. by apply not_elem_of_nil in Hin. }
  apply list.Forall_cons in Hds as [Hd Hds].
  rewrite (stateful_bind_ok _ _ _ _ _ (unhook_device_runs s d Hd)).
  destruct (IH (unhooked d s)) as (s' & E & Eh & Ec & Ed & El & Ep & Hn & Ht).
  { eapply list.Forall_impl; [exact Hds|]. intros e He. rewrite unhooked_devices. case_decide; subst; [|done].
    by apply fmap_is_Some. }
  exists s'. split_and!; try done.
  - intros e. rewrite Ed, unhooked_devices.
    destruct (decide (e = d)) as [Heq|Hne], (decide (e ∈ ds)) as [Hin|Hin]; subst.
    + rewrite decide_True by set_solver. destruct (scsi_devices s !! d) as [[]|]; done.
    + by rewrite decide_True by set_solver.
    + by rewrite decide_True by set_solver.
    + by rewrite decide_False by set_solver.
  - intros e. rewrite El, unhooked_linked. repeat case_decide; set_solver.
  - intros e lu Hin Hl. destruct (decide (e = d)) as [->|Hne].
    + apply Hn. rewrite unhooked_port_lu. by rewrite decide_True.
    + apply (Ep e lu); [set_solver|]. rewrite unhooked_linked. by rewrite decide_False.
  - intros lu Hlu. apply Hn. rewrite unhooked_port_lu. by case_decide.
  - intros lu. rewrite Ht. simpl. unfold drop_link. case_match; [apply get_target_id_set|done].
Qed.

Lemma elem_of_shost_devices s h d :
  d ∈ shost_devices h s ↔ sd_host <$> scsi_devices s !! d = Some h.
Proof.
  unfold shost_devices. rewrite list_elem_of_fmap. split.
  - intros ([e y] & -> & Hin). apply list_elem_of_filter in Hin as [Hh Hin%elem_of_map_to_list]. simpl in *.
    rewrite Hin. simpl. by f_equal.
  - destruct (scsi_devices s !! d) as [y|] eqn:E; [|done]. intros [= Hh]. exists (d, y). split; [done|].
    apply list_elem_of_filter. split; [done|by apply elem_of_map_to_list].
Qed.

(** When the devices of a host are unhooked, every one of them is without an LU,
    the LUs that they had point to no device, the devices of other hosts keep their
    links, and the next command to a device of the host looks for its LU again. *)
Theorem unhook_host s h x :
  scsi_hosts s !! h = Some x → ph_shost x = true →
  ∃ s', fio_scsi_shost_unhook_devices_from_lus h s = Ok (tt, s')
    ∧ (∀ d, sd_host <$> scsi_devices s !! d = Some h →
         sd_hostdata <$> scsi_devices s' !! d = Some None
         ∧ ∀ lu, linked s d = Some lu → kfio_scsi_lu_get_port_lu (core s') lu = None)
    ∧ (∀ d, sd_host <$> scsi_devices s !! d ≠ Some h →
         scsi_devices s' !! d = scsi_devices s !! d ∧ linked s' d = linked s d)
    ∧ scsi_hosts s' = scsi_hosts s ∧ scsi_cmnds s' = scsi_cmnds s.
Proof.
  intros Ex Hr. unfold fio_scsi_shost_unhook_devices_from_lus.
  rewrite (stateful_bind_ok _ _ _ _ _ (from_shost_runs s h x Ex)). rewrite Hr.
  destruct (unhook_loop (shost_devices h s) s) as (s' & E & Eh & Ec & Ed & El & Ep & _ & _).
  { apply list.Forall_forall. intros d Hd%elem_of_shost_devices. by destruct (scsi_devices s !! d). }
  exists s'. split; [exact E|]. split_and!; try done; intros d Hd.
  - apply elem_of_shost_devices in Hd as Hin. split; [|intros lu; by apply Ep].
    rewrite Ed, decide_True by done. by destruct (scsi_devices s !! d).
  - assert (d ∉ shost_devices h s) by by rewrite elem_of_shost_devices.
    by rewrite Ed, El, !decide_False by done.
Qed.
End commands.

(** ** The data of a command *)

(** An entry of the command: page, offset and length. *)
Definition entry_ok (e : Z * Z * Z) : Prop := 0 <= e.1.2 ∧ 0 <= e.2 ∧ e.1.2 + e.2 < 2 ^ 32.
Definition entry_bytes (e : Z * Z * Z) : list (Z * Z) := sl_bytes (mk_sl e.1.1 e.1.2 e.2 0).

(** The list is mapped entry by entry, behind what is mapped already; an entry that
    is refused ends the mapping, and what was mapped before it stays. *)
Lemma map_kfio_bio_prefix sgs lsg :
  sgl_wf lsg → Forall entry_ok sgs →
  ∃ lsg' ret front rest, kfio_port_scsi_cmd_map_kfio_bio sgs lsg = Ok (lsg', ret) ∧ sgl_wf lsg'
    ∧ sgs = front ++ rest ∧ sgl_bytes lsg' = sgl_bytes lsg ++ concat (entry_bytes <$> front)
    ∧ num_entries lsg' = num_entries lsg + Z.of_nat (length front)
    ∧ (ret = 0 ∧ rest = [] ∨ ret = - EINVAL ∧ rest ≠ []).
Proof.
  revert lsg. induction sgs as [|[[page offset] len] sgs IH]; intros lsg Hwf Hok; simpl.
  { exists lsg, 0, [], []. simpl. rewrite app_nil_r. split_and!; [done..|lia|by left]. }
  apply list.Forall_cons in Hok as [(Ho & Hl & Hs) Hok]. simpl in *.
  pose proof (map_page_spec lsg page offset len Hwf Ho Hl Hs) as Hp. case_decide.
  - destruct Hp as (lsg1 & E & Hwf1 & Hb & Hn & _). rewrite E. simpl.
    destruct (IH lsg1 Hwf1 Hok) as (lsg' & ret & front & rest & E' & Hwf' & -> & Hb' & Hn' & Hret).
    exists lsg', ret, ((page, offset, len) :: front), rest. split_and!; try done.
    + rewrite Hb', Hb, <- app_assoc. done.
    + rewrite Hn', Hn. simpl. lia.
  - rewrite Hp. simpl. exists lsg, (- EINVAL), [], ((page, offset, len) :: sgs). simpl. rewrite app_nil_r.
    split_and!; [done..|lia|by right].
Qed.

(** The copy that is used when the kernel has none returns 0: it is taken to have
    copied nothing. *)
Lemma fallback_copy_fails dst src len :
  (0 < len)%nat → Z.of_nat len < 2 ^ 32 →
  kfio_port_scsi_cmd_copy_to_sg (scsi_sg_copy dst src len).2 (Z.of_nat len) = - EIO.
Proof.
  intros Hl Hm. unfold kfio_port_scsi_cmd_copy_to_sg. unfold scsi_sg_copy, snd.
  destruct (Z.eqb_spec (u32 0) (Z.of_nat len)) as [E|]; [|done]. change (u32 0) with 0 in E. lia.
Qed.

(** ** A core with one LU, [9], of target 3 *)

(** [answer]: what it returns when it is asked for a command. *)
Definition sample_core (answer : Z) : ScsiCore := {|
  scsi_core := gmap positive positive;
  kfio_scsi_lu_get_target_id _ _ := 3;
  kfio_scsi_lu_get_lun _ _ := 0;
  kfio_scsi_lu_get_port_lu k lu := k !! lu;
  kfio_scsi_lu_set_port_lu k lu p := partial_alter (λ _, p) lu k;
  kfio_scsi_lu_lookup_from_tid_lun _ tid lun := if (tid =? 3) && (lun =? 0) then Some 9%positive else None;
  kfio_scsi_cmd_alloc k _ _ _ := (answer, if answer =? 0 then Some 5%positive else None, k);
  kfio_scsi_cmd_get_lu _ _ := Some 9%positive;
  kfio_scsi_lu_abort_cmd k _ _ := (0, k);
  kfio_scsi_lu_reset_all_in_target k _ := (0, k)
|}.

Lemma sample_core_laws answer : @ScsiCoreLaws (sample_core answer).
Proof.
  split; simpl.
  - intros c lu p. by rewrite lookup_partial_alter_eq.
  - intros c lu lu' p Hne. by rewrite lookup_partial_alter_ne.
  - done.
Qed.

Lemma sample_alloc_contract answer :
  answer ∈ [0; - ENOMEM; - ENOENT] → @alloc_contract (sample_core answer).
Proof.
  intros Ha k cdb lu c. simpl. split; [done|]. apply list_elem_of_In in Ha. simpl in Ha.
  destruct Ha as [<- | [<- | [<- | []]]]; eauto.
Qed.

Definition no_stats : fio_port_scsi_host_stats := mk_stats 0 0 0 0 0 0.
Definition sample_command : scsi_cmnd := mk_scmd 2 [42] 0 None (replicate 96 0) 0 4096 0.

(** Host 1 with two LUs and device 2, which is hooked up to [lu]. *)
Definition sample_scsi (answer : Z) (lu : option positive) (x : scsi_cmnd) : @scsi_state (sample_core answer) :=
  @mk_scsi (sample_core answer) (partial_alter (λ _, (λ _, 2%positive) <$> lu) 9%positive ∅)
    {[1%positive := mk_host true 2 3 no_stats]} {[2%positive := mk_sdev 1 3 0 lu 1]} {[7%positive := x]}.

Lemma sample_queueable answer lu x :
  sc_device x = 2%positive →
  @queueable (sample_core answer) (sample_scsi answer lu x) 7 x (mk_sdev 1 3 0 lu 1) (mk_host true 2 3 no_stats).
Proof. intros E. split; simpl; rewrite ?E; try done. Qed.

Lemma sample_live answer lu x :
  sc_device x = 2%positive →
  @live (sample_core answer) (sample_scsi answer lu x) 7 x 2 1 (mk_host true 2 3 no_stats).
Proof. intros E. split; simpl; try done. by eexists. Qed.

(** The claims at concrete states. *)
Lemma answered_once_witness :
  ∃ ret s' s'' scmd',
    @fio_shost_queuecommand (sample_core 0) 64 7 (@core_rcvd (sample_core 0) Pending 7) (sample_scsi 0 None sample_command) = Ok (ret, s')
    ∧ @run_completions (sample_core 0) 7 [(4096, FIO_SCSI_CMD_STAT_GOOD, 0); (0, FIO_SCSI_CMD_STAT_CHECK, 0)] s' = Ok (tt, s'')
    ∧ scsi_cmnds s'' !! 7%positive = Some scmd'
    ∧ (ret = SCSI_MLQUEUE_HOST_BUSY ∧ sc_done scmd' = 0%nat ∨ ret = 0 ∧ sc_done scmd' = 1%nat).
Proof.
  pose proof (sample_core_laws 0) as HL.
  apply (@answered_once (sample_core 0) HL 64 (sample_scsi 0 None sample_command) 7 sample_command
           (mk_sdev 1 3 0 None 1) (mk_host true 2 3 no_stats) Pending [(4096, FIO_SCSI_CMD_STAT_GOOD, 0); (0, FIO_SCSI_CMD_STAT_CHECK, 0)]).
  - apply sample_alloc_contract. by left.
  - by apply sample_queueable.
  - done.
  - vm_compute. lia.
  - intros _. do 4 eexists. by split.
Defined.

Lemma completion_reports_witness :
  ∃ s' scmd', @kfio_port_scsi_cmd_completor (sample_core 0) 7 512 FIO_SCSI_CMD_STAT_GOOD 0
      (sample_scsi 0 (Some 9%positive) (set_scribble (Some 5%positive) sample_command)) = Ok (tt, s')
    ∧ scsi_cmnds s' !! 7%positive = Some scmd' ∧ sc_resid scmd' = 3584.
Proof.
  destruct (@completion_reports (sample_core 0) (sample_scsi 0 (Some 9%positive) (set_scribble (Some 5%positive) sample_command)) 7
              (set_scribble (Some 5%positive) sample_command) 2 1 (mk_host true 2 3 no_stats) 512 FIO_SCSI_CMD_STAT_GOOD 0 5)
    as (s' & scmd' & E & Ec & _ & _ & _ & _ & _ & Hr & _); try done.
  - by apply sample_live.
  - vm_compute. lia.
  - exists s', scmd'. split; [exact E|]. split; [exact Ec|]. by rewrite Hr.
Defined.

Lemma unhook_host_witness :
  ∃ s', @fio_scsi_shost_unhook_devices_from_lus (sample_core 0) 1 (sample_scsi 0 (Some 9%positive) sample_command) = Ok (tt, s')
    ∧ @kfio_scsi_lu_get_port_lu (sample_core 0) (core s') 9 = None.
Proof.
  destruct (@unhook_host (sample_core 0) (sample_core_laws 0) (sample_scsi 0 (Some 9%positive) sample_command) 1
              (mk_host true 2 3 no_stats)) as (s' & E & Hd & _); [done..|].
  exists s'. split; [exact E|]. by apply (Hd 2%positive eq_refl).
Defined.

(** The race that [pending_overwrites_status] describes can happen: the core has
    completed the command with a check condition, the mid-layer reads success. *)
Example status_lost :
  ∃ s', (_ ← @kfio_port_scsi_cmd_completor (sample_core 0) 7 0 FIO_SCSI_CMD_STAT_CHECK 0; @queuecommand_rest (sample_core 0) 7 1)
          (sample_scsi 0 (Some 9%positive) (set_scribble (Some 5%positive) sample_command)) = Ok (0, s')
        ∧ sc_result <$> scsi_cmnds s' !! 7%positive = Some 0.
Proof. by eapply pending_overwrites_status; [apply sample_live| |vm_compute; lia]. Qed.
