(* ===== verification/KScsiRoute.v ===== *)
(** * SCSI commands: the way to the right LU

    Devices and LUs are hooked up by the first command, unhooked with their host and
    when a link turns out to be stale.  Whatever was done before, a command that is
    passed to the core goes to the LU that has the numbers of its device. *)
From stdpp Require Import gmap.
From S2P Require Import Prelude KScsi KScsiSpec.

Section route.
Context `{ScsiCore}.
Implicit Types (s : scsi_state) (h d c lu : positive).

(** The target number and the LU number. *)
Definition numbers (k : scsi_core) lu : Z * Z := (kfio_scsi_lu_get_target_id k lu, kfio_scsi_lu_get_lun k lu).

(** The core may move on, attaching and detaching LUs: an LU that a device is hooked
    up to keeps its numbers. *)
Definition settled (k k' : scsi_core) : Prop :=
  ∀ lu, kfio_scsi_lu_get_port_lu k' lu = None
        ∨ kfio_scsi_lu_get_port_lu k' lu = kfio_scsi_lu_get_port_lu k lu ∧ numbers k' lu = numbers k lu.

(** A search finds an LU with the numbers; the other functions leave those that are in
    use as they are. *)
Class RouteLaws : Prop := {
  lookup_numbers k tid lun lu : kfio_scsi_lu_lookup_from_tid_lun k tid lun = Some lu → numbers k lu = (tid, lun);
  set_port_numbers k lu p l : numbers (kfio_scsi_lu_set_port_lu k lu p) l = numbers k l;
  alloc_settled k cdb lu c : settled k (kfio_scsi_cmd_alloc k cdb lu c).2;
  abort_settled k lu cmd : settled k (kfio_scsi_lu_abort_cmd k lu cmd).2;
  reset_settled k tid : settled k (kfio_scsi_lu_reset_all_in_target k tid).2
}.

Context `{!ScsiCoreLaws _} `{!RouteLaws}.

(** The numbers of a device; the LU number is cut to 32 bits. *)
Definition device_numbers (y : scsi_device) : Z * Z := (sd_id y, u32 (sd_lun y)).

(** ** What every call keeps *)

Definition routed s : Prop :=
  ∀ d y lu, scsi_devices s !! d = Some y → linked s d = Some lu → numbers (core s) lu = device_numbers y.

Definition keeps {A} (m : stateful scsi_state A) : Prop := ∀ s a s', routed s → m s = Ok (a, s') → routed s'.

Lemma linked_some s d lu :
  linked s d = Some lu ↔
  (∃ y, scsi_devices s !! d = Some y ∧ sd_hostdata y = Some lu) ∧ kfio_scsi_lu_get_port_lu (core s) lu = Some d.
Proof.
  unfold linked. destruct (scsi_devices s !! d) as [y|]; simpl; [|naive_solver].
  destruct (sd_hostdata y) as [l|] eqn:E; simpl; [|naive_solver]. case_bool_decide; naive_solver.
Qed.

(** A state with no more links than before, and with the devices' numbers. *)
Lemma routed_fewer s s' :
  settled (core s) (core s') →
  (∀ d y', scsi_devices s' !! d = Some y' → is_Some (sd_hostdata y') →
     ∃ y, scsi_devices s !! d = Some y ∧ sd_hostdata y = sd_hostdata y' ∧ device_numbers y = device_numbers y') →
  routed s → routed s'.
Proof.
  intros Hk Hd Hr d y lu Ey ((y0 & E0 & Eh) & Ep)%linked_some. simplify_eq.
  destruct (Hd d y Ey) as (y1 & E1 & Eh1 & <-); [by rewrite Eh|].
  destruct (Hk lu) as [E|[E ->]]; [congruence|]. apply (Hr d); [done|]. apply linked_some. split; [|congruence].
  exists y1. split; congruence.
Qed.

Lemma settled_refl k : settled k k.
Proof. intros lu. by right. Qed.

Lemma keeps_ret {A} (a : A) : keeps (mret a).
Proof. intros s b s' R [= _ <-]. done. Qed.

Lemma keeps_bind {A B} (m : stateful scsi_state A) (f : A → stateful scsi_state B) :
  keeps m → (∀ a, keeps (f a)) → keeps (m ≫= f).
Proof.
  intros Hm Hf s b s' R E. unfold mbind, stateful_bind in E.
  destruct (m s) as [[a s1]|] eqn:E1; [|done]. by eapply Hf; [eapply Hm|].
Qed.

(** Reading, and what is done to hosts and commands. *)
Lemma keeps_same {A} (m : stateful scsi_state A) :
  (∀ s a s', m s = Ok (a, s') → scsi_devices s' = scsi_devices s ∧ core s' = core s) → keeps m.
Proof.
  intros Hm s a s' R E. destruct (Hm s a s' E) as [E1 E2]. unfold routed, linked in *. by rewrite E1, E2.
Qed.

Lemma keeps_read_host h : keeps (read_host h).
Proof. apply keeps_same. unfold read_host. intros s a s'. by case_match; intros [= _ <-]. Qed.
Lemma keeps_read_device d : keeps (read_device d).
Proof. apply keeps_same. unfold read_device. intros s a s'. by case_match; intros [= _ <-]. Qed.
Lemma keeps_read_cmnd c : keeps (read_cmnd c).
Proof. apply keeps_same. unfold read_cmnd. intros s a s'. by case_match; intros [= _ <-]. Qed.
Lemma keeps_lift {A} (o : outcome A) : keeps (lift o).
Proof. apply keeps_same. unfold lift. intros s a s'. by case_match; intros [= _ <-]. Qed.
Lemma keeps_ask {A} (f : scsi_core → A) : keeps (ask_core f).
Proof. apply keeps_same. by intros s a s' [= _ <-]. Qed.
Lemma keeps_on_cmnd c f : keeps (on_cmnd c f).
Proof.
  apply keeps_bind; [apply keeps_read_cmnd|]. intros x. apply keeps_same. by intros s a s' [= _ <-].
Qed.
Lemma keeps_on_host h f : keeps (on_host h f).
Proof.
  apply keeps_bind; [apply keeps_read_host|]. intros x. apply keeps_same. by intros s a s' [= _ <-].
Qed.

Lemma keeps_get : keeps get.
Proof. by intros s a s' R [= _ <-]. Qed.

Lemma keeps_call_core {A} (f : scsi_core → A * scsi_core) : (∀ k, settled k (f k).2) → keeps (call_core f).
Proof.
  intros Hf s a s' R. unfold call_core. specialize (Hf (core s)). destruct (f (core s)) as [a1 k]. intros [= _ <-].
  apply (routed_fewer s); [exact Hf| |done]. intros d y Ey _. by exists y.
Qed.

(** Taking a device off its LU. *)
Lemma keeps_clear_hostdata d : keeps (on_device d (set_hostdata None)).
Proof.
  intros s a s' R. unfold on_device, read_device, mbind, stateful_bind, modify.
  destruct (scsi_devices s !! d) as [y|] eqn:Ey; [|done]. intros [= _ <-].
  apply (routed_fewer s); [apply settled_refl| |done]. simpl. intros e z Ez [lu El].
  destruct (decide (e = d)) as [->|Hne]; [rewrite lookup_insert_eq in Ez; by simplify_eq/=|].
  rewrite lookup_insert_ne in Ez by done. by exists z.
Qed.

Lemma keeps_clear_port lu : keeps (modify (λ s, set_core (kfio_scsi_lu_set_port_lu (core s) lu None) s)).
Proof.
  intros s a s' R [= _ <-]. apply (routed_fewer s); [|by intros d y ? _; exists y|done].
  intros l. simpl. destruct (decide (l = lu)) as [->|Hne]; [left; apply get_port_lu_eq|right].
  by rewrite get_port_lu_ne, set_port_numbers.
Qed.

Create HintDb keeps.
Hint Resolve keeps_ret keeps_bind keeps_read_host keeps_read_device keeps_read_cmnd keeps_lift keeps_ask
  keeps_on_cmnd keeps_on_host keeps_get keeps_clear_hostdata keeps_clear_port : keeps.

Ltac keeps := repeat first
  [ progress eauto 2 with keeps | apply keeps_bind; [|intros ?] | case_match ].

Lemma keeps_from_sdev d : keeps (fio_scsi_lu_from_sdev_locked d).
Proof. unfold fio_scsi_lu_from_sdev_locked. keeps. Qed.
Hint Resolve keeps_from_sdev : keeps.

Lemma keeps_host_from_scmd c : keeps (fio_port_scsi_host_from_scmd c).
Proof. unfold fio_port_scsi_host_from_scmd, fio_port_scsi_host_from_shost. keeps. Qed.
Hint Resolve keeps_host_from_scmd : keeps.

Lemma keeps_from_scmd c : keeps (fio_scsi_lu_from_scmd c).
Proof. unfold fio_scsi_lu_from_scmd. keeps. Qed.
Hint Resolve keeps_from_scmd : keeps.

Lemma keeps_completor c bytes st err : keeps (kfio_port_scsi_cmd_completor c bytes st err).
Proof. unfold kfio_port_scsi_cmd_completor, fio_scsi_cmd_from_scmd. keeps. Qed.
Hint Resolve keeps_completor : keeps.

Lemma keeps_abort c : keeps (fio_shost_abort c).
Proof.
  unfold fio_shost_abort, fio_scsi_cmd_from_scmd. keeps. apply keeps_call_core. intros k. apply abort_settled.
Qed.

Lemma keeps_reset count c : keeps (shost_reset count c).
Proof.
  unfold shost_reset, fio_shost_reset_all_lus. keeps. apply keeps_call_core. intros k. apply reset_settled.
Qed.

Lemma keeps_unhook h : keeps (fio_scsi_shost_unhook_devices_from_lus h).
Proof.
  assert (∀ ds, keeps (unhook_devices ds)) as Hds.
  { induction ds as [|d ds IH]; simpl; [keeps|]. unfold unhook_device. keeps. }
  unfold fio_scsi_shost_unhook_devices_from_lus, fio_port_scsi_host_from_shost. keeps.
Qed.

(** Hooking up: the LU has the numbers of the device, and points to it alone. *)
Lemma keeps_hook_up depth h d : keeps (hook_up depth h d).
Proof.
  intros s a s' R. unfold hook_up, mbind at 1, stateful_bind at 1.
  destruct (fio_scsi_lu_from_sdev_locked d s) as [[r s1]|] eqn:E1; [|done].
  apply keeps_from_sdev in E1; [|done]. destruct r as [lu|]; [by intros [= _ <-]|].
  unfold mbind at 1, stateful_bind at 1, read_device at 1.
  destruct (scsi_devices s1 !! d) as [y|] eqn:Ey; [|done].
  unfold mbind at 1, stateful_bind at 1, ask_core.
  destruct (kfio_scsi_lu_lookup_from_tid_lun (core s1) (sd_id y) (u32 (sd_lun y))) as [lu|] eqn:El;
    [|by intros [= _ <-]].
  apply lookup_numbers in El.
  unfold mbind at 1, stateful_bind at 1, read_host. destruct (scsi_hosts s1 !! h) as [x|]; [|done].
  unfold mbind at 1, stateful_bind at 1, lift, oassert. destruct (negb _); [|done].
  unfold mbind at 1, stateful_bind at 1. rewrite on_device_ok by eauto.
  unfold mbind at 1, stateful_bind at 1. rewrite on_device_ok by (simpl; apply lookup_alter_is_Some; eauto).
  unfold mbind at 1, stateful_bind at 1, modify. intros [= _ <-]. simpl.
  intros e z l Ez ((z0 & E0 & Eh) & Ep)%linked_some. simpl in *. simplify_eq. rewrite set_port_numbers.
  destruct (decide (e = d)) as [->|Hne].
  - rewrite !lookup_alter_eq, Ey in Ez. simplify_eq/=. done.
  - rewrite !lookup_alter_ne in Ez by done. destruct (decide (l = lu)) as [->|Hl].
    + rewrite get_port_lu_eq in Ep. congruence.
    + rewrite get_port_lu_ne in Ep by done. apply (E1 e); [done|]. apply linked_some. eauto.
Qed.
Hint Resolve keeps_hook_up : keeps.

Lemma keeps_issue depth c : keeps (queuecommand_issue depth c).
Proof.
  unfold queuecommand_issue, fio_port_scsi_host_from_shost, fio_scmd_immediate_error, fio_scsi_bus_name_from_scmd.
  keeps. apply keeps_call_core. intros k. apply alloc_settled.
Qed.
Hint Resolve keeps_issue : keeps.

Lemma keeps_queuecommand depth c b : keeps (fio_shost_queuecommand depth c (core_rcvd b c)).
Proof.
  unfold fio_shost_queuecommand, core_rcvd, queuecommand_rest, fio_scsi_bus_name_from_scmd. keeps.
Qed.

(** ** Everything that can happen *)

(** The mid-layer's calls of the driver, each with whatever outcome it has; the devices,
    hosts and commands that the mid-layer adds, changes and takes away; the core moving
    on. *)
Inductive scsi_step s : scsi_state → Prop :=
| do_queue depth c b ret s' : fio_shost_queuecommand depth c (core_rcvd b c) s = Ok (ret, s') → scsi_step s s'
| do_complete c bytes st err s' : kfio_port_scsi_cmd_completor c bytes st err s = Ok (tt, s') → scsi_step s s'
| do_abort c ret s' : fio_shost_abort c s = Ok (ret, s') → scsi_step s s'
| do_reset count c ret s' : shost_reset count c s = Ok (ret, s') → scsi_step s s'
| do_unhook h s' : fio_scsi_shost_unhook_devices_from_lus h s = Ok (tt, s') → scsi_step s s'
| do_add_device d y :
    scsi_devices s !! d = None → sd_hostdata y = None → scsi_step s (set_devices (<[d := y]> (scsi_devices s)) s)
| do_remove_device d : scsi_step s (set_devices (delete d (scsi_devices s)) s)
| do_hosts x : scsi_step s (set_hosts x s)
| do_commands x : scsi_step s (set_cmnds x s)
| do_core k : settled (core s) k → scsi_step s (set_core k s).

Lemma step_routed s s' : routed s → scsi_step s s' → routed s'.
Proof.
  intros R St. destruct St as [depth c b ret s' E|c bytes st err s' E|c ret s' E|count c ret s' E|h s' E
                             |d y Ed Ey|d|x|x|k Hk].
  - by eapply keeps_queuecommand.
  - by eapply keeps_completor.
  - by eapply keeps_abort.
  - by eapply keeps_reset.
  - by eapply keeps_unhook.
  - apply (routed_fewer s); [apply settled_refl| |done]. simpl. intros e z Ez [lu El].
    destruct (decide (e = d)) as [->|Hne]; [rewrite lookup_insert_eq in Ez; by simplify_eq|].
    rewrite lookup_insert_ne in Ez by done. by exists z.
  - apply (routed_fewer s); [apply settled_refl| |done]. simpl. intros e z [_ Ez]%lookup_delete_Some _. by exists z.
  - exact R.
  - exact R.
  - apply (routed_fewer s); [exact Hk| |done]. intros d y Ey _. by exists y.
Qed.

Lemma steps_routed s s' : routed s → rtc scsi_step s s' → routed s'.
Proof. intros R St. induction St as [|s1 s2 s3 St _ IH]; [done|]. eauto using step_routed. Qed.

(** C7: From a state in which no device is hooked up, after anything that the
    mid-layer and the core can do, a command that the driver passes on was given to
    the core for the LU that its device is now linked to: this LU has the device's
    target number, which is the one of the registered host, and its LU number, cut to
    32 bits; it is linked to no other device; the request it got from the core is
    noted in the command, and no other command is touched. *)
Theorem commands_routed s0 s depth c scmd y x cmd s' :
  (∀ d z, scsi_devices s0 !! d = Some z → sd_hostdata z = None) → rtc scsi_step s0 s →
  alloc_contract → queueable s c scmd y x →
  queuecommand_issue depth c s = Ok (Received cmd, s') →
  ∃ lu k, linked s' (sc_device scmd) = Some lu
    ∧ kfio_scsi_cmd_alloc k (sc_cmnd scmd) lu c = (0, Some cmd, core s')
    ∧ numbers (core s') lu = (ph_target_id x, u32 (sd_lun y)) ∧ sd_id y = ph_target_id x ∧ ph_shost x = true
    ∧ (∀ d, linked s' d = Some lu → d = sc_device scmd)
    ∧ scsi_cmnds s' = <[c := set_scribble (Some cmd) scmd]> (scsi_cmnds s).
Proof.
  intros Hfree St Ha Q E. assert (routed s) as R.
  { apply (steps_routed s0); [|done]. intros d z lu Ez ((z0 & E0 & Eh) & _)%linked_some.
    rewrite Ez in E0. injection E0 as <-. by rewrite (Hfree d z Ez) in Eh. }
  pose proof (keeps_issue depth c s _ s' R E) as R'.
  destruct (received_goes_to_lu depth s c scmd y x cmd s' Ha Q E) as (lu & k & El & Ek & Et & Er & Ec & y' & Ey' & Ei & Eu).
  exists lu, k. split_and!; try done.
  - rewrite (R' _ _ _ Ey' El). unfold device_numbers. by rewrite Ei, Eu, Et.
  - intros d Ed. by apply (linked_injective s' d (sc_device scmd) lu).
Qed.
End route.

(** Core [sample_core] hooks device 2 up to LU 9, whose LU number is 0. *)
Lemma sample_route_laws answer : @RouteLaws (sample_core answer).
Proof.
  assert (∀ k, @settled (sample_core answer) k k) as Hk by (intros k; apply settled_refl).
  split; try done. intros k tid lun lu. simpl. destruct ((tid =? 3) && (lun =? 0)) eqn:E; [|done]. intros [= <-].
  unfold numbers. simpl. f_equal; lia.
Qed.

Lemma commands_routed_witness :
  ∃ s' lu, @queuecommand_issue (sample_core 0) 64 7 (sample_scsi 0 None sample_command) = Ok (Received 5%positive, s')
    ∧ @linked (sample_core 0) s' 2 = Some lu ∧ @numbers (sample_core 0) (core s') lu = (3, 0).
Proof.
  assert (∃ s', @queuecommand_issue (sample_core 0) 64 7 (sample_scsi 0 None sample_command) = Ok (Received 5%positive, s'))
    as [s' E] by (eexists; vm_compute; reflexivity).
  destruct (@commands_routed (sample_core 0) (sample_core_laws 0) (sample_route_laws 0) (sample_scsi 0 None sample_command)
              (sample_scsi 0 None sample_command) 64 7 sample_command (mk_sdev 1 3 0 None 1) (mk_host true 2 3 no_stats) 5 s')
    as (lu & k & El & _ & En & _).
  - intros d z Ez. simpl in Ez. apply lookup_singleton_Some in Ez as [_ <-]. done.
  - apply rtc_refl.
  - apply sample_alloc_contract. by left.
  - by apply sample_queueable.
  - exact E.
  - exists s', lu. split; [exact E|]. split; [exact El|exact En].
Defined.
