(* ===== verification/KScsiHost.v ===== *)
(** * The hosts of the SCSI targets: kscsi_host.c

    One [Scsi_Host] for each target that has a logical unit: created with the first,
    destroyed with the last.  The core calls [kfio_port_scsi_new_lu] and
    [kfio_port_scsi_lu_gone] from several threads; here each call is a sequence of
    steps, cut where another thread can come in: a section under [port_hosts_lk] is
    one step, and so is what a thread does between two of them with the kernel. *)
From stdpp Require Import gmap.
From S2P Require Import Prelude KScatter KScsi.

(** ** State *)

(** Where the thread is that works for an LU.  [Present]: no thread does, the LU has
    been exposed.  The second host of a phase of [lu_hidden] and [lu_gone] is the one
    that the LU was counted in; the code does not keep it. *)
Inductive lu_phase :=
  | Absent
  | NewEntry
  | NewCreate
  | NewRelock (h : positive)
  | NewUnhook (h : positive)
  | NewAdd (h : positive)
  | Present (h : positive)
  | HideEntry (h : positive)
  | HideDevice (found : option positive) (h : positive)
  | GoneEntry (h : positive)
  | GoneRemove (found : positive) (h : positive)
  | GoneDecr (found : positive) (h : positive)
  | GoneDel (found : positive)
  | GoneDestroy (found : positive)
  | GoneUnhook (found : positive).

#[global] Instance lu_phase_eq_dec : EqDecision lu_phase.
Proof. solve_decision. Defined.

(** [owned]: the hosts that the driver has a reference to, from [scsi_host_alloc] to
    [scsi_host_put].  The mid-layer may keep others, which the driver is not to touch. *)
Record host_state `{ScsiCore} := mk_host_state {
  midlayer : scsi_state;
  port_hosts : list positive;
  owned : gset positive;
  phases : gmap positive lu_phase
}.

(** What the kernel answers in a step: the address of a new host, whether the host
    was registered, the device that it has for an LU, the device that it makes and
    the result of [scsi_add_device]. *)
Record kernel_answer := mk_answer {
  ka_host_alloc : option positive;
  ka_add_host : Z;
  ka_device : option positive;
  ka_new_device : positive;
  ka_add_device : Z
}.

Section hosts.
Context `{ScsiCore}.
Implicit Types (s : host_state) (h d lu : positive) (a : kernel_answer).

Definition set_midlayer (m : scsi_state) s := mk_host_state _ m (port_hosts s) (owned s) (phases s).
Definition set_port_hosts (l : list positive) s := mk_host_state _ (midlayer s) l (owned s) (phases s).
Definition set_owned (o : gset positive) s := mk_host_state _ (midlayer s) (port_hosts s) o (phases s).
Definition set_phase lu (p : lu_phase) s := mk_host_state _ (midlayer s) (port_hosts s) (owned s) (<[lu := p]> (phases s)).
Definition phase s lu : lu_phase := default Absent (phases s !! lu).
Definition target s lu : Z := u32 (kfio_scsi_lu_get_target_id (core (midlayer s)) lu).

(** ** Access to a host of the driver *)

Definition host_at s h : outcome fio_port_scsi_host :=
  if bool_decide (h ∈ owned s) then of_option BadPointer (scsi_hosts (midlayer s) !! h) else Fault BadPointer.

Definition change_host h (f : fio_port_scsi_host → fio_port_scsi_host) s : outcome host_state :=
  x ← host_at s h;
  Ok (set_midlayer (set_hosts (<[h := f x]> (scsi_hosts (midlayer s))) (midlayer s)) s).

(** [port_host->shost], which is dereferenced. *)
Definition shost_of s h : outcome unit := x ← host_at s h; oassert NullDeref (ph_shost x).

Definition run_mid (m : stateful scsi_state unit) s : outcome host_state :=
  match m (midlayer s) with Ok (_, x) => Ok (set_midlayer x s) | Fault e => Fault e end.

Fixpoint host_lookup_loop s (l : list positive) (tid : Z) : outcome (option positive) :=
  match l with
  | [] => Ok None
  | h :: l => x ← host_at s h; if ph_target_id x =? tid then Ok (Some h) else host_lookup_loop s l tid
  end.
Definition fio_port_scsi_host_lookup_from_tid (tid : Z) s : outcome (option positive) := host_lookup_loop s (port_hosts s) tid.

(** [fusion_atomic32_inc], [fusion_atomic32_decr]: the latter returns the new value. *)
Definition fusion_atomic32_inc h s : outcome host_state := change_host h (λ x, set_ref_count (s32 (ph_ref_count x + 1)) x) s.
Definition fusion_atomic32_decr h s : outcome (Z * host_state) :=
  x ← host_at s h;
  s ← change_host h (λ x, set_ref_count (s32 (ph_ref_count x - 1)) x) s;
  Ok (s32 (ph_ref_count x - 1), s).

(** ** Creating and destroying a host *)

Definition fio_port_scsi_host_destroy h s : outcome host_state :=
  x ← host_at s h;
  if ph_shost x then
    s ← change_host h (set_shost false) s;
    Ok (set_owned (owned s ∖ {[h]}) s)
  else Ok s.

Definition fresh_host (target_id : Z) : fio_port_scsi_host := mk_host false 0 target_id (mk_stats 0 0 0 0 0 0).

(** An address that is in use is not given out. *)
Definition fio_port_scsi_host_create (target_id : Z) a s : outcome (option positive * host_state) :=
  match ka_host_alloc a with
  | Some h =>
      if bool_decide (is_Some (scsi_hosts (midlayer s) !! h)) then Ok (None, s)
      else
        let s := set_owned ({[h]} ∪ owned s)
                   (set_midlayer (set_hosts (<[h := fresh_host target_id]> (scsi_hosts (midlayer s))) (midlayer s)) s) in
        if negb (ka_add_host a =? 0) then s ← fio_port_scsi_host_destroy h s; Ok (None, s)
        else s ← change_host h (set_shost true) s; Ok (Some h, s)
  | None => Ok (None, s)
  end.

(** ** Devices of an LU *)

Definition fio_port_scsi_device_get h a s : outcome (option positive) := _ ← shost_of s h; Ok (ka_device a).

(** A device that the kernel could add is on the host, and not hooked up. *)
Definition fio_port_scsi_host_add_lu h lu a s : outcome host_state :=
  _ ← shost_of s h;
  let m := midlayer s in
  if (ka_add_device a =? 0) && bool_decide (scsi_devices m !! ka_new_device a = None) then
    let y := mk_sdev h (target s lu) (kfio_scsi_lu_get_lun (core m) lu) None 1 in
    Ok (set_midlayer (set_devices (<[ka_new_device a := y]> (scsi_devices m)) m) s)
  else Ok s.

Definition fio_port_scsi_host_remove_lu h a s : outcome host_state :=
  sdev ← fio_port_scsi_device_get h a s;
  match sdev with
  | Some d => Ok (set_midlayer (set_devices (delete d (scsi_devices (midlayer s))) (midlayer s)) s)
  | None => Ok s
  end.

(** ** The calls of the core, one step at a time *)

Definition new_lu_lock lu s : outcome host_state :=
  port_host ← fio_port_scsi_host_lookup_from_tid (target s lu) s;
  match port_host with
  | None => Ok (set_phase lu NewCreate s)
  | Some h => s ← fusion_atomic32_inc h s; Ok (set_phase lu (NewUnhook h) s)
  end.

Definition new_lu_create lu a s : outcome host_state :=
  '(port_host, s) ← fio_port_scsi_host_create (target s lu) a s;
  Ok (set_phase lu (match port_host with None => Absent | Some h => NewRelock h end) s).

Definition new_lu_relock lu h s : outcome host_state :=
  other ← fio_port_scsi_host_lookup_from_tid (target s lu) s;
  match other with
  | Some o =>
      s ← fio_port_scsi_host_destroy h s;
      s ← fusion_atomic32_inc o s;
      Ok (set_phase lu (NewUnhook o) s)
  | None =>
      s ← fusion_atomic32_inc h (set_port_hosts (port_hosts s ++ [h]) s);
      Ok (set_phase lu (NewUnhook h) s)
  end.

Definition unhook_host_devices h s : outcome host_state :=
  _ ← shost_of s h;
  run_mid (fio_scsi_shost_unhook_devices_from_lus h) s.

Definition lu_hidden_device (found : option positive) lu a s : outcome host_state :=
  h ← of_option NullDeref found;
  sdev ← fio_port_scsi_device_get h a s;
  match sdev with
  | Some d =>
      run_mid (_ ← on_device d (set_hostdata None); modify (λ m, set_core (kfio_scsi_lu_set_port_lu (core m) lu None) m)) s
  | None => Ok s
  end.

Definition lu_gone_decr lu f s : outcome host_state :=
  '(n, s) ← fusion_atomic32_decr f s;
  Ok (set_phase lu (if n =? 0 then GoneDel f else GoneUnhook f) s).

(** The next step of the call for [lu]; without one there is none. *)
Definition step_lu lu a s : outcome host_state :=
  match phase s lu with
  | Absent | Present _ => Ok s
  | NewEntry => new_lu_lock lu s
  | NewCreate => new_lu_create lu a s
  | NewRelock h => new_lu_relock lu h s
  | NewUnhook h => s ← unhook_host_devices h s; Ok (set_phase lu (NewAdd h) s)
  | NewAdd h => s ← fio_port_scsi_host_add_lu h lu a s; Ok (set_phase lu (Present h) s)
  | HideEntry h => found ← fio_port_scsi_host_lookup_from_tid (target s lu) s; Ok (set_phase lu (HideDevice found h) s)
  | HideDevice found h => s ← lu_hidden_device found lu a s; Ok (set_phase lu (Present h) s)
  | GoneEntry h =>
      found ← fio_port_scsi_host_lookup_from_tid (target s lu) s;
      Ok (set_phase lu (match found with Some f => GoneRemove f h | None => Absent end) s)
  | GoneRemove f h => s ← fio_port_scsi_host_remove_lu f a s; Ok (set_phase lu (GoneDecr f h) s)
  | GoneDecr f h => lu_gone_decr lu f s
  | GoneDel f => Ok (set_phase lu (GoneDestroy f) (set_port_hosts (filter (λ h, h ≠ f) (port_hosts s)) s))
  | GoneDestroy f => s ← fio_port_scsi_host_destroy f s; Ok (set_phase lu Absent s)
  | GoneUnhook f => s ← unhook_host_devices f s; Ok (set_phase lu Absent s)
  end.

(** The core starts a call for an LU that no thread works for. *)
Inductive host_action :=
  | kfio_port_scsi_new_lu (lu : positive)
  | kfio_port_scsi_lu_hidden (lu : positive)
  | kfio_port_scsi_lu_gone (lu : positive)
  | Thread (lu : positive) (a : kernel_answer).

Definition host_step (t : host_action) s : outcome host_state :=
  match t with
  | kfio_port_scsi_new_lu lu => Ok (match phase s lu with Absent => set_phase lu NewEntry s | _ => s end)
  | kfio_port_scsi_lu_hidden lu => Ok (match phase s lu with Present h => set_phase lu (HideEntry h) s | _ => s end)
  | kfio_port_scsi_lu_gone lu => Ok (match phase s lu with Present h => set_phase lu (GoneEntry h) s | _ => s end)
  | Thread lu a => step_lu lu a s
  end.

Fixpoint run_hosts (l : list host_action) s : outcome host_state :=
  match l with
  | [] => Ok s
  | t :: l => s ← host_step t s; run_hosts l s
  end.

(** ** The interface with the core *)

(** [kfio_scsi_init]: what it returns; the number of times that the lock of the list
    is made and destroyed. *)
Record scsi_interface := mk_interface { si_initialized : bool; si_lock_made : nat; si_lock_destroyed : nat; si_cleanups : nat }.

Definition kfio_platform_teardown_scsi_interface (i : scsi_interface) : scsi_interface :=
  mk_interface (si_initialized i) (si_lock_made i)
    (if si_initialized i then S (si_lock_destroyed i) else si_lock_destroyed i) (S (si_cleanups i)).

Definition kfio_platform_init_scsi_interface (kfio_scsi_init : Z) (i : scsi_interface) : scsi_interface * Z :=
  let i := mk_interface true (S (si_lock_made i)) (si_lock_destroyed i) (si_cleanups i) in
  if negb (kfio_scsi_init =? 0) then (kfio_platform_teardown_scsi_interface i, kfio_scsi_init) else (i, 0).
End hosts.
