(* ===== verification/KScsiHostSpec.v ===== *)
(** * The hosts of the SCSI targets: theorems

    As long as a call that has dropped its reference ends before another call for the
    same target goes on, the hosts are used only while they live, there is one for a
    target, and it counts its logical units.  Without that the reference count does
    not protect the host: two interleavings use a host that is gone. *)
From stdpp Require Import gmap.
From S2P Require Import Prelude KScatter KScsi KScsiSpec KScsiHost.

(** ** Counting references *)

(** The host that an LU is counted in. *)
Definition counted_in (p : lu_phase) : option positive :=
  match p with
  | NewUnhook h | NewAdd h | Present h | HideEntry h | HideDevice _ h | GoneEntry h | GoneRemove _ h | GoneDecr _ h => Some h
  | _ => None
  end.

(** The host that a thread goes on with when it is not counted in it. *)
Definition leaves_through (p : lu_phase) : option positive :=
  match p with GoneDel f | GoneDestroy f | GoneUnhook f => Some f | _ => None end.

Definition refs (h : positive) (m : gmap positive lu_phase) : Z := mcount (λ p, counted_in p = Some h) m.

Definition counts (h : positive) (p : lu_phase) : Z := if decide (counted_in p = Some h) then 1 else 0.

Lemma refs_delete h m lu : refs h m = refs h (delete lu m) + match m !! lu with Some p => counts h p | None => 0 end.
Proof. apply mcount_delete. Qed.

Lemma counts_absent h : counts h Absent = 0.
Proof. done. Qed.

(** The count after one LU's phase has changed. *)
Lemma refs_insert h m lu p :
  refs h (<[lu := p]> m) = refs h m - counts h (default Absent (m !! lu)) + counts h p.
Proof. unfold refs, counts. by rewrite (mcount_insert _ Absent). Qed.

Lemma refs_nonneg h m : 0 <= refs h m.
Proof. apply mcount_nonneg. Qed.

Lemma refs_pos h m lu : counted_in (default Absent (m !! lu)) = Some h → 0 < refs h m.
Proof.
  intros Hc. rewrite (refs_delete h m lu). pose proof (refs_nonneg h (delete lu m)).
  destruct (m !! lu) as [p|]; simpl in *; [|done]. unfold counts. rewrite decide_True by done. lia.
Qed.

Lemma refs_fewer h m lu : refs h m <= refs h (delete lu m) + 1.
Proof. rewrite (refs_delete h m lu). destruct (m !! lu) as [p|]; [unfold counts; case_decide|]; lia. Qed.

Lemma refs_size h m : refs h m <= Z.of_nat (size m).
Proof. apply mcount_size. Qed.

(** ** The invariant

    It is about the hosts that the driver may use ([view]), their list, the phases of
    the LUs and their targets. *)

(** The host that a phase keeps out of the list. *)
Definition private (p : lu_phase) : option positive :=
  match p with NewRelock h | GoneDestroy h => Some h | _ => None end.

(** The host that a phase needs in the list. *)
Definition needs_listed (p : lu_phase) : option positive :=
  match p with GoneDel f | GoneUnhook f => Some f | _ => counted_in p end.

(** The host that was found is the one that the LU is counted in. *)
Definition found_own (p : lu_phase) : Prop :=
  match p with GoneRemove f h | GoneDecr f h => f = h | HideDevice f h => f = Some h | _ => True end.

Definition ph (m : gmap positive lu_phase) (lu : positive) : lu_phase := default Absent (m !! lu).

Lemma ph_insert m lu p k : ph (<[lu := p]> m) k = if decide (k = lu) then p else ph m k.
Proof. unfold ph. case_decide; [subst; by rewrite lookup_insert_eq|by rewrite lookup_insert_ne]. Qed.

Section invariant.
Context (lus : gset positive).
Implicit Types (V : positive → option fio_port_scsi_host) (L : list positive) (P : gmap positive lu_phase)
  (T : positive → Z) (h lu : positive).

Record host_inv V L P T : Prop := {
  i_lus : dom P ⊆ lus;
  i_listed h : h ∈ L → ∃ x, V h = Some x ∧ ph_shost x = true ∧ ph_ref_count x = refs h P;
  i_nodup : NoDup L;
  i_targets h h' x x' : h ∈ L → h' ∈ L → V h = Some x → V h' = Some x' → ph_target_id x = ph_target_id x' → h = h';
  i_uses lu h : needs_listed (ph P lu) = Some h → h ∈ L ∧ ∃ x, V h = Some x ∧ ph_target_id x = T lu;
  i_private lu h : private (ph P lu) = Some h →
    (h ∉ L) ∧ ∃ x, V h = Some x ∧ ph_target_id x = T lu ∧ ph_shost x = true ∧ (ph P lu = NewRelock h → ph_ref_count x = 0);
  i_private_one lu lu' h : private (ph P lu) = Some h → private (ph P lu') = Some h → lu = lu';
  i_zero h : h ∈ L → refs h P = 0 → ∃ lu, ph P lu = GoneDel h;
  i_del lu h : ph P lu = GoneDel h → refs h P = 0;
  i_leaving lu lu' f f' : leaves_through (ph P lu) = Some f → leaves_through (ph P lu') = Some f' → T lu = T lu' → lu = lu';
  i_found lu : found_own (ph P lu);
  i_owned h x : V h = Some x → ph_shost x = true → h ∈ L ∨ ∃ lu, private (ph P lu) = Some h
}.

Lemma refs_none P h : (∀ lu, counted_in (ph P lu) ≠ Some h) → refs h P = 0.
Proof.
  intros Hn. apply mcount_none. intros lu p E Hp. apply (Hn lu). unfold ph. by rewrite E.
Qed.

Lemma refs_some P h : refs h P ≠ 0 → ∃ lu, counted_in (ph P lu) = Some h.
Proof. intros (lu & p & E & Hp)%mcount_some. exists lu. unfold ph. by rewrite E. Qed.

Lemma inv_ext V V' L P T T' :
  (∀ h, V' h = V h) → (∀ lu, T' lu = T lu) → host_inv V L P T → host_inv V' L P T'.
Proof.
  intros HV HT I. split; try apply I; intros *; rewrite ?HV, ?HT; try apply I; eauto using i_leaving, i_targets.
Qed.

Lemma counted_needs p h : counted_in p = Some h → needs_listed p = Some h.
Proof. by destruct p. Qed.

Lemma refs_same P lu p h : counted_in p = counted_in (ph P lu) → refs h (<[lu := p]> P) = refs h P.
Proof. intros Hc. rewrite refs_insert. unfold counts, ph in *. rewrite Hc. lia. Qed.

(** Reads the phases in the hypotheses and the goal at the LU that moved, or another. *)
Ltac at_phase :=
  repeat match goal with
  | E : context [ph (<[_ := _]> _) _] |- _ => rewrite ph_insert in E
  | |- context [ph (<[_ := _]> _) _] => rewrite ph_insert
  end; repeat case_decide; subst.

Lemma lus_insert P lu p : dom P ⊆ lus → lu ∈ lus → dom (<[lu := p]> P) ⊆ lus.
Proof. rewrite dom_insert. set_solver. Qed.

(** A step that keeps the references, and does not touch the list. *)
Lemma inv_neutral V L P T lu p :
  host_inv V L P T → lu ∈ lus →
  counted_in p = counted_in (ph P lu) → private p = None → private (ph P lu) = None → found_own p →
  leaves_through p = None → (∀ h, ph P lu ≠ GoneDel h) → host_inv V L (<[lu := p]> P) T.
Proof.
  intros I Hlu Hc Hp Hq Hf Hl Hd.
  assert (∀ h, needs_listed p = Some h → counted_in (ph P lu) = Some h) as Hn by (rewrite <- Hc; by destruct p).
  split; try apply I.
  - by apply lus_insert; [apply I|].
  - intros h. rewrite refs_same by done. apply I.
  - intros k h. at_phase; [|apply I]. intros E%Hn. by apply (i_uses _ _ _ _ I lu h), counted_needs.
  - intros k h. at_phase; [by rewrite Hp|apply I].
  - intros k k' h. at_phase; rewrite ?Hp; try done. apply I.
  - intros h Hin. rewrite refs_same by done. intros Hz. destruct (i_zero _ _ _ _ I h Hin Hz) as [k Hk].
    exists k. at_phase; [|done]. by apply Hd in Hk.
  - intros k h. rewrite refs_same by done. at_phase; [by intros ->|apply I].
  - intros k k' f f'. at_phase; rewrite ?Hl; try done. apply I.
  - intros k. at_phase; [done|apply I].
  - intros h x Hx Hs. destruct (i_owned _ _ _ _ I h x Hx Hs) as [?|[k Hk]]; [by left|right].
    exists k. at_phase; [congruence|done].
Qed.

(** The hosts are the same, whatever they count. *)
Definition same_host (o o' : option fio_port_scsi_host) : Prop :=
  match o, o' with
  | Some x, Some x' => ph_target_id x' = ph_target_id x ∧ ph_shost x' = ph_shost x
  | None, None => True
  | _, _ => False
  end.

Lemma same_host_l o o' x : same_host o o' → o = Some x →
  ∃ x', o' = Some x' ∧ ph_target_id x' = ph_target_id x ∧ ph_shost x' = ph_shost x.
Proof. destruct o, o'; simpl; naive_solver. Qed.
Lemma same_host_r o o' x' : same_host o o' → o' = Some x' →
  ∃ x, o = Some x ∧ ph_target_id x' = ph_target_id x ∧ ph_shost x' = ph_shost x.
Proof. destruct o, o'; simpl; naive_solver. Qed.

Lemma targets_same V V' L P T :
  host_inv V L P T → (∀ k, same_host (V k) (V' k)) →
  ∀ h h' x x', h ∈ L → h' ∈ L → V' h = Some x → V' h' = Some x' → ph_target_id x = ph_target_id x' → h = h'.
Proof.
  intros I HV h h' x x' Hh Hh' E E' Ht.
  destruct (same_host_r _ _ _ (HV h) E) as (y & Ey & Ty & _), (same_host_r _ _ _ (HV h') E') as (y' & Ey' & Ty' & _).
  apply (i_targets _ _ _ _ I h h' y y'); congruence.
Qed.

Lemma uses_same V V' L P T lu h :
  host_inv V L P T → (∀ k, same_host (V k) (V' k)) →
  needs_listed (ph P lu) = Some h → h ∈ L ∧ ∃ x, V' h = Some x ∧ ph_target_id x = T lu.
Proof.
  intros I HV E. destruct (i_uses _ _ _ _ I lu h E) as (Hin & x & Ex & Ht). split; [done|].
  destruct (same_host_l _ _ _ (HV h) Ex) as (y & Ey & Ty & _). exists y. split; congruence.
Qed.

(** Hosts that are not in the list keep their count. *)
Lemma private_same V V' L P T lu h :
  host_inv V L P T → (∀ k, k ∉ L → V' k = V k) → private (ph P lu) = Some h →
  (h ∉ L) ∧ ∃ x, V' h = Some x ∧ ph_target_id x = T lu ∧ ph_shost x = true ∧ (ph P lu = NewRelock h → ph_ref_count x = 0).
Proof. intros I HV E. destruct (i_private _ _ _ _ I lu h E) as (Hin & Hx). split; [done|]. by rewrite HV. Qed.

Lemma owned_same V V' L P T h x :
  host_inv V L P T → (∀ k, same_host (V k) (V' k)) → V' h = Some x → ph_shost x = true →
  h ∈ L ∨ ∃ lu, private (ph P lu) = Some h.
Proof.
  intros I HV E Hs. destruct (same_host_r _ _ _ (HV h) E) as (y & Ey & _ & Hy).
  apply (i_owned _ _ _ _ I h y); congruence.
Qed.

(** [lu] is counted in the listed host [h], which no thread is about to remove. *)
Lemma inv_join V V' L P T lu h x :
  host_inv V L P T → lu ∈ lus → (counted_in (ph P lu) = None ∧ private (ph P lu) = None ∧ leaves_through (ph P lu) = None) →
  h ∈ L → V h = Some x → ph_target_id x = T lu → (∀ k, ph P k ≠ GoneDel h) → - 2 ^ 31 <= ph_ref_count x + 1 < 2 ^ 31 →
  (∀ k, V' k = if decide (k = h) then Some (set_ref_count (s32 (ph_ref_count x + 1)) x) else V k) →
  host_inv V' L (<[lu := NewUnhook h]> P) T.
Proof.
  intros I Hlu (Hc & Hp & Hl) Hin Hx Ht Hd Hw HV.
  assert (∀ k, refs k (<[lu := NewUnhook h]> P) = refs k P + (if decide (k = h) then 1 else 0)) as Hrefs.
  { intros k. rewrite refs_insert. unfold counts, ph in *. rewrite Hc. simpl. repeat case_decide; simplify_eq; lia. }
  assert (∀ k, same_host (V k) (V' k)) as Hsame.
  { intros k. rewrite HV. case_decide; [subst; by rewrite Hx|]. by destruct (V k). }
  split; try apply I.
  - by apply lus_insert; [apply I|].
  - intros k Hk. destruct (i_listed _ _ _ _ I k Hk) as (y & Hy & Hs & Hr). rewrite HV, Hrefs. case_decide; subst.
    + eexists. split; [done|]. simpl. assert (x = y) as -> by congruence. split; [done|]. rewrite wraps_small; [lia|lia|]. unfold in_s. lia.
    + exists y. split_and!; try done. lia.
  - by apply (targets_same V V' L P T).
  - intros k j. at_phase; [|by apply (uses_same V V' L P T)]. intros [= <-]. split; [done|].
    rewrite HV, decide_True by done. by eexists.
  - intros k j. at_phase; [done|]. apply (private_same V V' L P T); [done|]. intros i Hi. rewrite HV, decide_False; [done|]. by intros ->.
  - intros k k' j. at_phase; try done. apply I.
  - intros j Hj. rewrite Hrefs. pose proof (refs_nonneg j P). case_decide; [lia|]. rewrite Z.add_0_r. intros Hz.
    destruct (i_zero _ _ _ _ I j Hj Hz) as [k Hk]. exists k. at_phase; [|done]. by rewrite Hk in Hl.
  - intros k j. rewrite Hrefs. at_phase; try done; intros E; [by apply Hd in E|].
    rewrite Z.add_0_r. by apply (i_del _ _ _ _ I k).
  - intros k k' f f'. at_phase; try done. apply I.
  - intros k. at_phase; [done|apply I].
  - intros j y Hy Hs. destruct (owned_same V V' L P T j y I Hsame Hy Hs) as [?|[k Hk]]; [by left|right].
    exists k. at_phase; [congruence|done].
Qed.

(** [lu] has a new host of its own. *)
Lemma inv_create V V' L P T lu h x :
  host_inv V L P T → lu ∈ lus → ph P lu = NewCreate → V h = None →
  ph_shost x = true → ph_target_id x = T lu → ph_ref_count x = 0 →
  (∀ k, V' k = if decide (k = h) then Some x else V k) →
  host_inv V' L (<[lu := NewRelock h]> P) T.
Proof.
  intros I Hlu Hph Hh Hs Ht Hr HV.
  assert (∀ k, refs k (<[lu := NewRelock h]> P) = refs k P) as Hrefs by (intros k; apply refs_same; by rewrite Hph).
  assert (h ∉ L) as Hnew by (intros Hin; destruct (i_listed _ _ _ _ I h Hin) as (? & ? & _); congruence).
  assert (∀ k, k ∈ L → V' k = V k) as HL by (intros k Hk; rewrite HV, decide_False; [done|]; by intros ->).
  split; try apply I.
  - by apply lus_insert; [apply I|].
  - intros k Hk. rewrite HL, Hrefs by done. by apply I.
  - intros k k' y y' Hk Hk'. rewrite !HL by done. by apply I.
  - intros k j. at_phase; [done|]. intros E. destruct (i_uses _ _ _ _ I k j E) as [Hj Hy]. by rewrite HL.
  - intros k j. at_phase.
    + intros [= <-]. split; [done|]. exists x. by rewrite HV, decide_True.
    + intros E. destruct (i_private _ _ _ _ I k j E) as (Hj & y & Hy & Hrest). split; [done|]. exists y.
      rewrite HV, decide_False; [done|]. intros ->. congruence.
  - assert (∀ k, private (ph P k) = Some h → False) as Hno.
    { intros k E. destruct (i_private _ _ _ _ I k h E) as (_ & y & Hy & _). congruence. }
    intros k k' j. at_phase; [done| | |apply I]; [intros [= <-] E|intros E [= <-]]; by apply Hno in E.
  - intros j Hj. rewrite Hrefs. intros Hz. destruct (i_zero _ _ _ _ I j Hj Hz) as [k Hk].
    exists k. at_phase; [congruence|done].
  - intros k j. rewrite Hrefs. at_phase; [done|apply I].
  - intros k k' f f'. at_phase; try done. apply I.
  - intros k. at_phase; [done|apply I].
  - intros j y. rewrite HV. case_decide; [subst; right; exists lu; by at_phase|].
    intros Hy Hsy. destruct (i_owned _ _ _ _ I j y Hy Hsy) as [?|[k Hk]]; [by left|right].
    exists k. at_phase; [by rewrite Hph in Hk|done].
Qed.

(** A host that could not be registered stays with the driver, which does not know it. *)
Lemma inv_leak V V' L P T h x :
  host_inv V L P T → V h = None → ph_shost x = false →
  (∀ k, V' k = if decide (k = h) then Some x else V k) → host_inv V' L P T.
Proof.
  intros I Hh Hs HV.
  assert (∀ k y, V k = Some y → V' k = Some y) as Hkeep by (intros k y Hy; rewrite HV, decide_False by congruence; done).
  assert (∀ k, k ∈ L → V' k = V k) as HL.
  { intros k Hk. destruct (i_listed _ _ _ _ I k Hk) as (y & Hy & _). by rewrite (Hkeep k y), Hy. }
  split; try apply I.
  - intros k Hk. rewrite HL by done. by apply I.
  - intros k k' y y' Hk Hk'. rewrite !HL by done. by apply I.
  - intros k j E. destruct (i_uses _ _ _ _ I k j E) as [Hj Hy]. by rewrite HL.
  - intros k j E. destruct (i_private _ _ _ _ I k j E) as (Hj & y & Hy & Hrest). split; [done|].
    exists y. by rewrite (Hkeep j y).
  - intros j y. rewrite HV. case_decide; [congruence|]. apply I.
Qed.

(** [lu] puts its host into the list, and is counted in it. *)
Lemma inv_publish V V' L P T lu h x :
  host_inv V L P T → lu ∈ lus → ph P lu = NewRelock h → V h = Some x →
  (∀ k y, k ∈ L → V k = Some y → ph_target_id y ≠ T lu) →
  (∀ k, V' k = if decide (k = h) then Some (set_ref_count 1 x) else V k) →
  host_inv V' (L ++ [h]) (<[lu := NewUnhook h]> P) T.
Proof.
  intros I Hlu Hph Hx Hfree HV.
  destruct (i_private _ _ _ _ I lu h (ltac:(by rewrite Hph))) as (Hnew & x' & Hx' & Ht & Hs & Hr0).
  assert (x' = x) as -> by congruence. specialize (Hr0 Hph).
  assert (∀ k, refs k (<[lu := NewUnhook h]> P) = refs k P + (if decide (k = h) then 1 else 0)) as Hrefs.
  { intros k. rewrite refs_insert. unfold counts. change (default Absent (P !! lu)) with (ph P lu). rewrite Hph. simpl.
    repeat case_decide; simplify_eq; lia. }
  assert (∀ k, k ∈ L → V' k = V k) as HL by (intros k Hk; rewrite HV, decide_False; [done|]; by intros ->).
  assert (refs h P = 0) as Hz0.
  { apply refs_none. intros k E. by apply Hnew, (i_uses _ _ _ _ I k h), counted_needs. }
  split; try apply I.
  - by apply lus_insert; [apply I|].
  - intros k Hk. rewrite HV, Hrefs. case_decide; [subst|].
    + exists (set_ref_count 1 x). rewrite Hz0. by split_and!.
    + rewrite Z.add_0_r. apply I. set_solver.
  - apply list.NoDup_app. split_and!; [apply I|set_solver|apply NoDup_singleton].
  - assert (∀ k y, k ∈ L ++ [h] → V' k = Some y → k = h ∧ ph_target_id y = T lu ∨ k ∈ L ∧ V k = Some y ∧ ph_target_id y ≠ T lu) as Hcases.
    { intros k y Hk. rewrite HV. case_decide as Heq; [intros [= <-]; by left|]. intros Hy. right.
      assert (k ∈ L) by set_solver. split_and!; try done. by eapply Hfree. }
    intros k k' y y' Hk Hk' Hy Hy' Heq.
    destruct (Hcases k y Hk Hy) as [[-> ?]|(? & ? & ?)], (Hcases k' y' Hk' Hy') as [[-> ?]|(? & ? & ?)]; try congruence.
    by apply (i_targets _ _ _ _ I k k' y y').
  - intros k j. at_phase.
    + intros [= <-]. split; [set_solver|]. rewrite HV, decide_True by done. by eexists.
    + intros E. destruct (i_uses _ _ _ _ I k j E) as [Hj Hy]. split; [set_solver|]. by rewrite HL.
  - intros k j. at_phase; [done|]. intros E. destruct (i_private _ _ _ _ I k j E) as (Hj & y & Hy & Hrest).
    assert (j ≠ h) as Hne.
    { intros ->. assert (k = lu) by (apply (i_private_one _ _ _ _ I k lu h E); by rewrite Hph). done. }
    split; [set_solver|]. exists y. by rewrite HV, decide_False.
  - intros k k' j. at_phase; try done. apply I.
  - intros j Hj. rewrite Hrefs. pose proof (refs_nonneg j P). case_decide; [lia|]. rewrite Z.add_0_r. intros Hz.
    destruct (i_zero _ _ _ _ I j) as [k Hk]; [set_solver|done|]. exists k. at_phase; [congruence|done].
  - intros k j. rewrite Hrefs. at_phase; try done; intros E.
    + destruct (i_uses _ _ _ _ I k h) as [Hin _]; [by rewrite E|]. done.
    + rewrite Z.add_0_r. by apply (i_del _ _ _ _ I k).
  - intros k k' f f'. at_phase; try done. apply I.
  - intros k. at_phase; [done|apply I].
  - intros j y. rewrite HV. case_decide; [subst; left; set_solver|]. intros Hy Hsy.
    destruct (i_owned _ _ _ _ I j y Hy Hsy) as [?|[k Hk]]; [left; set_solver|right].
    exists k. at_phase; [by rewrite Hph in Hk; injection Hk as ->|done].
Qed.

(** [lu] gives up the reference to its host: the last one goes on to remove it. *)
Lemma inv_leave V V' L P T lu h x p :
  host_inv V L P T → lu ∈ lus → counted_in (ph P lu) = Some h → V h = Some x → ph_ref_count x < 2 ^ 31 →
  p = (if s32 (ph_ref_count x - 1) =? 0 then GoneDel h else GoneUnhook h) →
  (∀ k f, leaves_through (ph P k) = Some f → T k ≠ T lu) →
  (∀ k, V' k = if decide (k = h) then Some (set_ref_count (s32 (ph_ref_count x - 1)) x) else V k) →
  host_inv V' L (<[lu := p]> P) T.
Proof.
  intros I Hlu Hc Hx Hw Hp Hq HV.
  destruct (i_uses _ _ _ _ I lu h (counted_needs _ _ Hc)) as (Hin & x' & Hx' & Ht). assert (x' = x) as -> by congruence.
  destruct (i_listed _ _ _ _ I h Hin) as (x' & Hx'' & Hs & Hr). assert (x' = x) as -> by congruence.
  pose proof (refs_pos h P lu Hc) as Hpos.
  rewrite (wraps_small 32) in * by (try unfold in_s; lia).
  assert (counted_in p = None ∧ private p = None ∧ leaves_through p = Some h ∧ needs_listed p = Some h ∧ found_own p) as (Pc & Pp & Pl & Pn & Pf)
    by (rewrite Hp; by case_match).
  assert (∀ k, refs k (<[lu := p]> P) = refs k P - (if decide (k = h) then 1 else 0)) as Hrefs.
  { intros k. rewrite refs_insert. unfold counts. change (default Absent (P !! lu)) with (ph P lu). rewrite Hc, Pc.
    repeat case_decide; simplify_eq; lia. }
  assert (∀ k, same_host (V k) (V' k)) as Hsame.
  { intros k. rewrite HV. case_decide; [subst k; by rewrite Hx|]. by destruct (V k). }
  assert (∀ k, ph P k ≠ GoneDel h) as Hd by (intros k E; pose proof (i_del _ _ _ _ I k h E); lia).
  split; try apply I.
  - by apply lus_insert; [apply I|].
  - intros k Hk. rewrite HV, Hrefs. case_decide as Heq.
    + subst k. eexists. split_and!; [done..|]. simpl. lia.
    + rewrite Z.sub_0_r. by apply I.
  - by apply (targets_same V V' L P T).
  - intros k j. at_phase; [|by apply (uses_same V V' L P T)]. rewrite Pn. intros [= <-]. split; [done|].
    rewrite HV, decide_True by done. by eexists.
  - intros k j. at_phase; [by rewrite Pp|]. apply (private_same V V' L P T); [done|]. intros i Hi. rewrite HV, decide_False; [done|]. by intros ->.
  - intros k k' j. at_phase; rewrite ?Pp; try done. apply I.
  - intros j Hj. rewrite Hrefs. case_decide as Heq.
    + subst j. intros Hz. exists lu. at_phase; [|done]. by rewrite (proj2 (Z.eqb_eq _ _)) by lia.
    + rewrite Z.sub_0_r. intros Hz. destruct (i_zero _ _ _ _ I j Hj Hz) as [k Hk]. exists k.
      rewrite ph_insert, decide_False; [done|]. intros ->. by rewrite Hk in Hc.
  - intros k j. rewrite Hrefs, ph_insert. case_decide as Hk.
    + rewrite Hp. destruct (Z.eqb_spec (ph_ref_count x - 1) 0); [|done]. intros [= <-]. rewrite decide_True by done. lia.
    + intros E. rewrite decide_False; [rewrite Z.sub_0_r; by apply (i_del _ _ _ _ I k)|]. intros ->. by apply Hd in E.
  - intros k k' f f'. rewrite !ph_insert. intros E E' Heq. destruct (decide (k = lu)) as [->|], (decide (k' = lu)) as [->|]; try done.
    + exfalso. by apply (Hq k' f' E').
    + exfalso. by apply (Hq k f E).
    + by apply (i_leaving _ _ _ _ I k k' f f').
  - intros k. at_phase; [done|apply I].
  - intros j y Hy Hsy. destruct (owned_same V V' L P T j y I Hsame Hy Hsy) as [?|[k Hk]]; [by left|right].
    exists k. rewrite ph_insert, decide_False; [done|]. intros ->. by destruct (ph P lu).
Qed.

Lemma needs_cases p h : needs_listed p = Some h → counted_in p = Some h ∨ leaves_through p = Some h.
Proof. destruct p; simpl; auto. Qed.

(** [lu] takes the host without references out of the list. *)
Lemma inv_unlist V L P T lu f :
  host_inv V L P T → lu ∈ lus → ph P lu = GoneDel f →
  host_inv V (filter (λ h, h ≠ f) L) (<[lu := GoneDestroy f]> P) T.
Proof.
  intros I Hlu Hph.
  destruct (i_uses _ _ _ _ I lu f (ltac:(by rewrite Hph))) as (Hin & x & Hx & Ht).
  assert (∀ k, refs k (<[lu := GoneDestroy f]> P) = refs k P) as Hrefs by (intros k; apply refs_same; by rewrite Hph).
  assert (∀ k, k ∈ filter (λ h, h ≠ f) L ↔ k ≠ f ∧ k ∈ L) as HL by (intros k; by rewrite list_elem_of_filter).
  split; try apply I.
  - by apply lus_insert; [apply I|].
  - intros k [_ Hk]%HL. rewrite Hrefs. by apply I.
  - apply list.NoDup_filter, I.
  - intros k k' y y' [_ Hk]%HL [_ Hk']%HL. by apply I.
  - intros k j. rewrite ph_insert. case_decide as Hk; [done|]. intros E.
    destruct (i_uses _ _ _ _ I k j E) as (Hj & y & Hy & Hty). split; [|by eexists].
    apply HL. split; [|done]. intros ->.
    destruct (needs_cases _ _ E) as [Ec|El].
    + pose proof (refs_pos f P k Ec). pose proof (i_del _ _ _ _ I lu f Hph). lia.
    + apply Hk, (i_leaving _ _ _ _ I k lu f f El); [by rewrite Hph|]. congruence.
  - intros k j. rewrite ph_insert. case_decide as Hk.
    + intros [= <-]. subst k. split; [by intros [? _]%HL|]. exists x.
      destruct (i_listed _ _ _ _ I f Hin) as (y & Hy & Hs & _). split_and!; try done. congruence.
    + intros E. destruct (i_private _ _ _ _ I k j E) as [Hj Hrest]. split; [by intros [_ ?]%HL|done].
  - assert (∀ k, private (ph P k) = Some f → False) as Hno by (intros k E; by destruct (i_private _ _ _ _ I k f E)).
    intros k k' j. at_phase; [done| | |apply I]; [intros [= <-] E|intros E [= <-]]; by apply Hno in E.
  - intros j [Hne Hj]%HL. rewrite Hrefs. intros Hz. destruct (i_zero _ _ _ _ I j Hj Hz) as [k Hk].
    exists k. at_phase; [congruence|done].
  - intros k j. rewrite Hrefs. at_phase; [done|apply I].
  - assert (∀ k, leaves_through (ph (<[lu := GoneDestroy f]> P) k) = leaves_through (ph P k)) as Hl.
    { intros k. rewrite ph_insert. case_decide; [|done]. subst k. by rewrite Hph. }
    intros k k' g g'. rewrite !Hl. apply I.
  - intros k. at_phase; [done|apply I].
  - intros j y Hy Hs. destruct (decide (j = f)) as [->|Hne]; [right; exists lu; by at_phase|].
    destruct (i_owned _ _ _ _ I j y Hy Hs) as [?|[k Hk]]; [left; by apply HL|right].
    exists k. at_phase; [by rewrite Hph in Hk|done].
Qed.

(** [lu] destroys the host that it keeps. *)
Lemma inv_destroy V V' L P T lu h :
  host_inv V L P T → lu ∈ lus → private (ph P lu) = Some h →
  (∀ k, V' k = if decide (k = h) then None else V k) →
  host_inv V' L (<[lu := Absent]> P) T.
Proof.
  intros I Hlu Hp HV.
  destruct (i_private _ _ _ _ I lu h Hp) as (Hnew & _).
  assert (counted_in (ph P lu) = None) as Hc by by destruct (ph P lu).
  assert (∀ k, refs k (<[lu := Absent]> P) = refs k P) as Hrefs by (intros k; by apply refs_same).
  assert (∀ k, k ∈ L → V' k = V k) as HL by (intros k Hk; rewrite HV, decide_False; [done|]; by intros ->).
  split; try apply I.
  - by apply lus_insert; [apply I|].
  - intros k Hk. rewrite HL, Hrefs by done. by apply I.
  - intros k k' y y' Hk Hk'. rewrite !HL by done. by apply I.
  - intros k j. at_phase; [done|]. intros E. destruct (i_uses _ _ _ _ I k j E) as [Hj Hy]. by rewrite HL.
  - intros k j. rewrite ph_insert. case_decide as Hk; [done|]. intros E.
    destruct (i_private _ _ _ _ I k j E) as (Hj & Hrest). rewrite HV, decide_False; [done|].
    intros ->. by apply Hk, (i_private_one _ _ _ _ I k lu h).
  - intros k k' j. at_phase; try done. apply I.
  - intros j Hj. rewrite Hrefs. intros Hz. destruct (i_zero _ _ _ _ I j Hj Hz) as [k Hk].
    exists k. rewrite ph_insert, decide_False; [done|]. intros ->. by rewrite Hk in Hp.
  - intros k j. rewrite Hrefs. at_phase; [done|apply I].
  - intros k k' f f'. at_phase; try done. apply I.
  - intros k. at_phase; [done|apply I].
  - intros j y. rewrite HV. case_decide as Hj; [done|]. intros Hy Hs.
    destruct (i_owned _ _ _ _ I j y Hy Hs) as [?|[k Hk]]; [by left|right].
    exists k. rewrite ph_insert, decide_False; [done|]. intros ->. congruence.
Qed.
End invariant.

(** ** The steps *)

Section steps.
Context `{ScsiCore} `{!ScsiCoreLaws _} (lus : gset positive) (Hlus : Z.of_nat (size lus) < 2 ^ 31).
Implicit Types (s : host_state) (h d lu : positive) (a : kernel_answer).

(** The hosts that the driver may use. *)
Definition view s h : option fio_port_scsi_host :=
  if bool_decide (h ∈ owned s) then scsi_hosts (midlayer s) !! h else None.

Definition sinv s : Prop := host_inv lus (view s) (port_hosts s) (phases s) (target s).

Lemma host_at_view s h x : view s h = Some x → host_at s h = Ok x.
Proof. unfold view, host_at. case_bool_decide; [|done]. by intros ->. Qed.

Lemma view_owned s h x : view s h = Some x → h ∈ owned s.
Proof. unfold view. by case_bool_decide. Qed.

(** [s'] is [s] but for the hosts, and what the kernel has. *)
Record moved (V : positive → option fio_port_scsi_host) s s' : Prop := {
  m_view k : view s' k = V k;
  m_list : port_hosts s' = port_hosts s;
  m_phases : phases s' = phases s;
  m_target k : target s' k = target s k
}.

Definition updated (h : positive) (o : option fio_port_scsi_host) (V : positive → option fio_port_scsi_host) : positive → option fio_port_scsi_host :=
  λ k, if decide (k = h) then o else V k.

Lemma change_host_runs s h x f :
  view s h = Some x → ∃ s', change_host h f s = Ok s' ∧ moved (updated h (Some (f x)) (view s)) s s'.
Proof.
  intros Hx. unfold change_host. rewrite (host_at_view _ _ _ Hx). simpl. eexists. split; [done|].
  pose proof (view_owned _ _ _ Hx) as Ho. split; try done. intros k. unfold view, updated. simpl.
  case_decide; [subst; by rewrite bool_decide_eq_true_2, lookup_insert_eq|by rewrite lookup_insert_ne].
Qed.

Lemma moved_inv s s' V lu p : moved V s s' →
  host_inv lus V (port_hosts s) (<[lu := p]> (phases s)) (target s) → sinv (set_phase lu p s').
Proof.
  intros M I. unfold sinv. simpl. rewrite (m_list _ _ _ M), (m_phases _ _ _ M).
  eapply inv_ext; [| |exact I]; intros k; apply M.
Qed.

Lemma destroy_runs s h x :
  view s h = Some x → ph_shost x = true →
  ∃ s', fio_port_scsi_host_destroy h s = Ok s' ∧ moved (updated h None (view s)) s s'.
Proof.
  intros Hx Hs. unfold fio_port_scsi_host_destroy. rewrite (host_at_view _ _ _ Hx). simpl. rewrite Hs.
  destruct (change_host_runs s h x (set_shost false) Hx) as (s1 & E & M). rewrite E. simpl.
  eexists. split; [done|]. split; try apply M. intros k. unfold updated. case_decide as Hk.
  - unfold view. simpl. by rewrite bool_decide_eq_false_2 by set_solver.
  - pose proof (m_view _ _ _ M k) as Hv. unfold updated in Hv. rewrite decide_False in Hv by done. rewrite <- Hv.
    unfold view. simpl. by rewrite (bool_decide_ext (k ∈ owned s1 ∖ {[h]}) (k ∈ owned s1)) by set_solver.
Qed.

(** The look-up of a target finds its host when there is one. *)
Definition lookup_spec s (tid : Z) (l : list positive) (r : option positive) : Prop :=
  match r with
  | Some h => h ∈ l ∧ ∃ x, view s h = Some x ∧ ph_target_id x = tid
  | None => ∀ h x, h ∈ l → view s h = Some x → ph_target_id x ≠ tid
  end.

Lemma lookup_loop_runs s l tid :
  (∀ h, h ∈ l → is_Some (view s h)) → ∃ r, host_lookup_loop s l tid = Ok r ∧ lookup_spec s tid l r.
Proof.
  induction l as [|h l IH]; intros Hl; simpl.
  { exists None. split; [done|]. intros h x Hin. by apply not_elem_of_nil in Hin. }
  destruct (Hl h) as [x Hx]; [set_solver|]. rewrite (host_at_view _ _ _ Hx). simpl.
  destruct (Z.eqb_spec (ph_target_id x) tid) as [Ht|Ht].
  - exists (Some h). split; [done|]. split; [set_solver|]. eauto.
  - destruct IH as ([h'|] & E & Hspec); [set_solver|..]; eexists; (split; [exact E|]).
    + destruct Hspec as [Hin Hy]. split; [set_solver|done].
    + intros k y Hk Hy. destruct (decide (k = h)) as [->|Hne]; [congruence|]. apply (Hspec k y); [set_solver|exact Hy].
Qed.

Lemma lookup_runs s tid : sinv s →
  ∃ r, fio_port_scsi_host_lookup_from_tid tid s = Ok r ∧ lookup_spec s tid (port_hosts s) r.
Proof.
  intros I. apply lookup_loop_runs. intros h Hin. destruct (i_listed _ _ _ _ _ I h Hin) as (x & Hx & _). eauto.
Qed.

Lemma listed_count s h x : sinv s → h ∈ port_hosts s → view s h = Some x → 0 <= ph_ref_count x < 2 ^ 31.
Proof.
  intros I Hin Hx. destruct (i_listed _ _ _ _ _ I h Hin) as (y & Hy & _ & Hr). assert (y = x) as -> by congruence.
  rewrite Hr. pose proof (refs_nonneg h (phases s)). pose proof (refs_size h (phases s)) as Hs.
  assert (size (phases s) <= size lus)%nat by (rewrite <- (size_dom (D := gset positive)); apply subseteq_size, I). lia.
Qed.

(** A reference more is within the type, as the thread that takes it has none yet. *)
Lemma listed_count_free s h x lu : sinv s → lu ∈ lus → counted_in (ph (phases s) lu) = None →
  h ∈ port_hosts s → view s h = Some x → 0 <= ph_ref_count x + 1 < 2 ^ 31.
Proof.
  intros I Hlu Hc Hin Hx. destruct (i_listed _ _ _ _ _ I h Hin) as (y & Hy & _ & Hr). assert (y = x) as -> by congruence.
  rewrite Hr. pose proof (refs_nonneg h (delete lu (phases s))).
  rewrite (refs_delete h (phases s) lu). 
  assert (match phases s !! lu with Some p => counts h p | None => 0 end = 0) as ->.
  { unfold ph in Hc. destruct (phases s !! lu) as [p|]; [|done]. simpl in Hc. unfold counts. by rewrite Hc. }
  pose proof (refs_size h (delete lu (phases s))).
  assert (size (delete lu (phases s)) < size lus)%nat; [|lia].
  rewrite <- (size_dom (D := gset positive)), dom_delete. apply subset_size.
  pose proof (i_lus _ _ _ _ _ I). set_solver.
Qed.

(** A thread counts its LU in a host that it found. *)
Lemma join_runs s lu h x :
  sinv s → lu ∈ lus → (counted_in (ph (phases s) lu) = None ∧ private (ph (phases s) lu) = None ∧ leaves_through (ph (phases s) lu) = None) →
  h ∈ port_hosts s → view s h = Some x → ph_target_id x = target s lu →
  (∀ k f, leaves_through (ph (phases s) k) = Some f → target s k ≠ target s lu) →
  ∃ s', fusion_atomic32_inc h s = Ok s' ∧ sinv (set_phase lu (NewUnhook h) s').
Proof.
  intros I Hlu Hq Hin Hx Ht Hquiet. unfold fusion_atomic32_inc.
  destruct (change_host_runs s h x (λ x, set_ref_count (s32 (ph_ref_count x + 1)) x) Hx) as (s' & E & M).
  exists s'. split; [exact E|]. apply (moved_inv s s' _ lu _ M).
  eapply (inv_join lus (view s) _ _ _ _ lu h x I Hlu Hq Hin Hx Ht).
  - intros k Hk. destruct (i_uses _ _ _ _ _ I k h) as (_ & y & Hy & Hty); [by rewrite Hk|].
    apply (Hquiet k h); [by rewrite Hk|congruence].
  - pose proof (listed_count_free s h x lu I Hlu (proj1 Hq) Hin Hx). lia.
  - done.
Qed.

Lemma new_lu_lock_runs s lu :
  sinv s → lu ∈ lus → ph (phases s) lu = NewEntry →
  (∀ k f, leaves_through (ph (phases s) k) = Some f → target s k ≠ target s lu) →
  ∃ s', new_lu_lock lu s = Ok s' ∧ sinv s'.
Proof.
  intros I Hlu Hph Hq. unfold new_lu_lock.
  destruct (lookup_runs s (target s lu) I) as ([h|] & E & Hspec); rewrite E; simpl.
  - destruct Hspec as (Hin & x & Hx & Ht).
    destruct (join_runs s lu h x I Hlu ltac:(by rewrite Hph) Hin Hx Ht Hq) as (s' & E' & I'). rewrite E'. simpl. eauto.
  - eexists. split; [done|]. unfold sinv. simpl. apply inv_neutral; try done; by rewrite Hph.
Qed.

Lemma new_lu_create_runs s lu a :
  sinv s → lu ∈ lus → ph (phases s) lu = NewCreate → ∃ s', new_lu_create lu a s = Ok s' ∧ sinv s'.
Proof.
  intros I Hlu Hph. unfold new_lu_create, fio_port_scsi_host_create.
  assert (sinv (set_phase lu Absent s)) as Hgive_up by (apply inv_neutral; try done; by rewrite Hph).
  destruct (ka_host_alloc a) as [h|]; simpl; [|eauto].
  destruct (decide (is_Some (scsi_hosts (midlayer s) !! h))) as [Hused|Hfree].
  { rewrite bool_decide_eq_true_2 by done. simpl. eauto. }
  rewrite bool_decide_eq_false_2 by done. apply eq_None_not_Some in Hfree.
  set (s1 := set_owned _ _). set (x := fresh_host (target s lu)).
  assert (∀ k, view s1 k = updated h (Some x) (view s) k) as Hv1.
  { intros k. unfold view, updated. simpl. case_decide as Hk.
    - subst k. by rewrite bool_decide_eq_true_2, lookup_insert_eq by set_solver.
    - rewrite lookup_insert_ne by done. by rewrite (bool_decide_ext (k ∈ {[h]} ∪ owned s) (k ∈ owned s)) by set_solver. }
  assert (view s h = None) as Hnone by (unfold view; rewrite Hfree; by case_bool_decide).
  assert (view s1 h = Some x) as Hx1 by (rewrite Hv1; unfold updated; by rewrite decide_True).
  destruct (ka_add_host a =? 0); simpl.
  - destruct (change_host_runs s1 h x (set_shost true) Hx1) as (s2 & E & M). rewrite E. simpl.
    eexists. split; [done|]. apply (moved_inv s1 s2 _ lu _ M).
    eapply (inv_create lus (view s) _ _ (phases s) (target s) lu h (set_shost true x) I Hlu Hph Hnone); try done.
    intros k. unfold updated. case_decide as Hk; [done|]. rewrite Hv1. unfold updated. by rewrite decide_False.
  - unfold fio_port_scsi_host_destroy. rewrite (host_at_view _ _ _ Hx1). simpl. eexists. split; [done|].
    apply (inv_leak lus (view s) (view s1) _ _ _ h x) in I; [|done..].
    apply (inv_neutral lus (view s1) (port_hosts s) (phases s) (target s) lu Absent I); try done; by rewrite Hph.
Qed.

Lemma new_lu_relock_runs s lu h :
  sinv s → lu ∈ lus → ph (phases s) lu = NewRelock h →
  (∀ k f, leaves_through (ph (phases s) k) = Some f → target s k ≠ target s lu) →
  ∃ s', new_lu_relock lu h s = Ok s' ∧ sinv s'.
Proof.
  intros I Hlu Hph Hq. unfold new_lu_relock.
  destruct (i_private _ _ _ _ _ I lu h) as (Hnew & x & Hx & Ht & Hs & Hr); [by rewrite Hph|]. specialize (Hr Hph).
  destruct (lookup_runs s (target s lu) I) as ([o|] & E & Hspec); rewrite E; simpl.
  - destruct Hspec as (Hin & y & Hy & Hty).
    destruct (destroy_runs s h x Hx Hs) as (s1 & E1 & M1). rewrite E1. simpl.
    assert (sinv (set_phase lu Absent s1)) as I1.
    { apply (moved_inv s s1 _ lu _ M1), (inv_destroy lus (view s) _ _ _ _ lu h I Hlu); [by rewrite Hph|done]. }
    assert (o ≠ h) as Hne by congruence.
    assert (view s1 o = Some y) as Hy1 by (rewrite (m_view _ _ _ M1); unfold updated; by rewrite decide_False).
    assert (∃ s2, fusion_atomic32_inc o (set_phase lu Absent s1) = Ok s2 ∧ sinv (set_phase lu (NewUnhook o) s2)) as (s2 & E2 & I2).
    { eapply (join_runs (set_phase lu Absent s1) lu o y I1 Hlu); simpl.
      - rewrite ph_insert, decide_True by done. done.
      - by rewrite (m_list _ _ _ M1).
      - exact Hy1.
      - change (target (set_phase lu Absent s1) lu) with (target s1 lu). by rewrite (m_target _ _ _ M1).
      - intros k f. rewrite ph_insert. case_decide; [done|]. rewrite (m_phases _ _ _ M1).
        change (target (set_phase lu Absent s1)) with (target s1). rewrite !(m_target _ _ _ M1). apply Hq. }
    assert (∃ s2', fusion_atomic32_inc o s1 = Ok s2' ∧ set_phase lu (NewUnhook o) s2' = set_phase lu (NewUnhook o) s2) as (s2' & E2' & Eq).
    { unfold fusion_atomic32_inc, change_host in *. 
      change (host_at (set_phase lu Absent s1) o) with (host_at s1 o) in E2.
      rewrite (host_at_view _ _ _ Hy1) in *. simpl in *. injection E2 as <-. eexists. split; [done|].
      unfold set_phase, set_midlayer. simpl. by rewrite insert_insert_eq. }
    rewrite E2'. simpl. eexists. split; [done|]. by rewrite Eq.
  - unfold fusion_atomic32_inc.
    destruct (change_host_runs (set_port_hosts (port_hosts s ++ [h]) s) h x (λ x, set_ref_count (s32 (ph_ref_count x + 1)) x) Hx)
      as (s1 & E1 & M1). rewrite E1. simpl. eexists. split; [done|]. apply (moved_inv _ s1 _ lu _ M1). simpl.
    apply (inv_publish lus (view s) _ _ _ _ lu h x I Hlu Hph Hx).
    + intros k y Hk Hy. by apply (Hspec k y).
    + intros k. unfold updated. by rewrite Hr.
Qed.

(** What the kernel has changed, the hosts and the targets not. *)
Lemma mid_moved s m :
  scsi_hosts m = scsi_hosts (midlayer s) →
  (∀ lu, kfio_scsi_lu_get_target_id (core m) lu = kfio_scsi_lu_get_target_id (core (midlayer s)) lu) →
  moved (view s) s (set_midlayer m s).
Proof. intros Eh Et. split; try done; intros k; unfold view, target; simpl; [by rewrite Eh|by rewrite Et]. Qed.

(** The host that an LU's thread goes on with can be used. *)
Lemma user_view s lu h : sinv s → needs_listed (ph (phases s) lu) = Some h →
  h ∈ port_hosts s ∧ ∃ x, view s h = Some x ∧ ph_shost x = true ∧ ph_target_id x = target s lu ∧ shost_of s h = Ok tt.
Proof.
  intros I E. destruct (i_uses _ _ _ _ _ I lu h E) as (Hin & x & Hx & Ht). split; [done|]. exists x.
  destruct (i_listed _ _ _ _ _ I h Hin) as (y & Hy & Hs & _). assert (y = x) as -> by congruence.
  split_and!; try done. unfold shost_of. rewrite (host_at_view _ _ _ Hx). simpl. by rewrite Hs.
Qed.

Lemma unhook_runs s h x :
  view s h = Some x → ph_shost x = true →
  ∃ m, unhook_host_devices h s = Ok (set_midlayer m s) ∧ moved (view s) s (set_midlayer m s).
Proof.
  intros Hx Hs. unfold unhook_host_devices, shost_of. rewrite (host_at_view _ _ _ Hx). simpl. rewrite Hs. simpl.
  assert (scsi_hosts (midlayer s) !! h = Some x) as Ex by (unfold view in Hx; by case_bool_decide).
  unfold run_mid, fio_scsi_shost_unhook_devices_from_lus.
  rewrite (stateful_bind_ok _ _ _ _ _ (from_shost_runs _ h x Ex)). rewrite Hs.
  destruct (unhook_loop (shost_devices h (midlayer s)) (midlayer s)) as (m & E & Eh & _ & _ & _ & _ & _ & Et).
  { apply list.Forall_forall. intros d Hd%elem_of_shost_devices. by destruct (scsi_devices _ !! d). }
  exists m. unfold lift, get, mbind, stateful_bind. simpl. rewrite E. split; [done|]. by apply mid_moved.
Qed.

(** A neutral step after something happened in the kernel. *)
Lemma neutral_runs s s' lu p :
  sinv s → lu ∈ lus → moved (view s) s s' →
  counted_in p = counted_in (ph (phases s) lu) → private p = None → private (ph (phases s) lu) = None → found_own p →
  leaves_through p = None → (∀ h, ph (phases s) lu ≠ GoneDel h) → sinv (set_phase lu p s').
Proof. intros I Hlu M. intros. apply (moved_inv s s' _ lu _ M). by apply inv_neutral. Qed.

Lemma moved_refl s : moved (view s) s s.
Proof. by split. Qed.

(** The kernel gives only devices that it has. *)
Definition answer_ok s a : Prop := ∀ d, ka_device a = Some d → is_Some (scsi_devices (midlayer s) !! d).

Lemma add_lu_runs s h lu a :
  shost_of s h = Ok tt → ∃ s', fio_port_scsi_host_add_lu h lu a s = Ok s' ∧ moved (view s) s s'.
Proof.
  intros E. unfold fio_port_scsi_host_add_lu. rewrite E. simpl.
  case_match; (eexists; split; [done|]); [by apply mid_moved|apply moved_refl].
Qed.

Lemma remove_lu_runs s h a :
  shost_of s h = Ok tt → ∃ s', fio_port_scsi_host_remove_lu h a s = Ok s' ∧ moved (view s) s s'.
Proof.
  intros E. unfold fio_port_scsi_host_remove_lu, fio_port_scsi_device_get. rewrite E. simpl.
  case_match; (eexists; split; [done|]); [by apply mid_moved|apply moved_refl].
Qed.

Lemma hidden_device_runs s h lu a :
  shost_of s h = Ok tt → answer_ok s a → ∃ s', lu_hidden_device (Some h) lu a s = Ok s' ∧ moved (view s) s s'.
Proof.
  intros E Ha. unfold lu_hidden_device, fio_port_scsi_device_get. simpl. rewrite E. simpl.
  destruct (ka_device a) as [d|] eqn:Ed; [|eexists; split; [done|apply moved_refl]].
  unfold run_mid. erewrite stateful_bind_ok by (apply on_device_ok, Ha, Ed).
  eexists. split; [done|]. apply mid_moved; [done|]. intros k. simpl. apply get_target_id_set.
Qed.

(** The counted host is the one that is listed for the target. *)
Lemma lookup_own s lu h r :
  sinv s → counted_in (ph (phases s) lu) = Some h → lookup_spec s (target s lu) (port_hosts s) r → r = Some h.
Proof.
  intros I Hc Hr. destruct (user_view s lu h I (counted_needs _ _ Hc)) as (Hin & x & Hx & _ & Ht & _).
  destruct r as [f|].
  - destruct Hr as (Hf & y & Hy & Hty). f_equal. apply (i_targets _ _ _ _ _ I f h y x); congruence.
  - by apply Hr in Hx.
Qed.

(** Every other thread that has dropped its reference is at another target. *)
Definition quiet_for s lu : Prop :=
  ∀ k f, k ≠ lu → leaves_through (phase s k) = Some f → target s k ≠ target s lu.

(** The threads of one target that have not left, when this one has not either. *)
Lemma quiet_entering s lu : quiet_for s lu → leaves_through (ph (phases s) lu) = None →
  ∀ k f, leaves_through (ph (phases s) k) = Some f → target s k ≠ target s lu.
Proof. intros Hq Hl k f E. apply (Hq k f); [|done]. intros ->. congruence. Qed.

Lemma lu_gone_decr_runs s lu f :
  sinv s → lu ∈ lus → quiet_for s lu → ph (phases s) lu = GoneDecr f f → ∃ s', lu_gone_decr lu f s = Ok s' ∧ sinv s'.
Proof.
  intros I Hlu Hq Hph.
  destruct (user_view s lu f I) as (Hin & x & Hx & _); [by rewrite Hph|].
  unfold lu_gone_decr, fusion_atomic32_decr. rewrite (host_at_view _ _ _ Hx). simpl.
  destruct (change_host_runs s f x (λ x, set_ref_count (s32 (ph_ref_count x - 1)) x) Hx) as (s' & E & M).
  rewrite E. simpl. eexists. split; [done|]. apply (moved_inv s s' _ lu _ M).
  pose proof (listed_count s f x I Hin Hx).
  eapply (inv_leave lus (view s) _ _ _ _ lu f x); try done; [by rewrite Hph|lia|].
  apply (quiet_entering s lu Hq). by rewrite Hph.
Qed.

Lemma gone_destroy_runs s lu f :
  sinv s → lu ∈ lus → ph (phases s) lu = GoneDestroy f →
  ∃ s', fio_port_scsi_host_destroy f s = Ok s' ∧ sinv (set_phase lu Absent s').
Proof.
  intros I Hlu Hph. destruct (i_private _ _ _ _ _ I lu f) as (_ & x & Hx & _ & Hs & _); [by rewrite Hph|].
  destruct (destroy_runs s f x Hx Hs) as (s' & E & M). exists s'. split; [done|].
  apply (moved_inv s s' _ lu _ M), (inv_destroy lus (view s) _ _ _ _ lu f I Hlu); [by rewrite Hph|done].
Qed.

(** Ends a case of the step in which nothing but the kernel and the phase change. *)
Ltac neutral_step E Hph M :=
  rewrite E; simpl; eexists; (split; [done|]); eapply neutral_runs; [eassumption|assumption|exact M|..];
  rewrite ?Hph; try done.

Lemma step_lu_inv s lu a :
  sinv s → lu ∈ lus → quiet_for s lu → answer_ok s a → ∃ s', step_lu lu a s = Ok s' ∧ sinv s'.
Proof.
  intros I Hlu Hq Ha. unfold step_lu. change (phase s lu) with (ph (phases s) lu).
  pose proof (quiet_entering s lu Hq) as Hent. pose proof (i_found _ _ _ _ _ I lu) as Hf.
  pose proof (λ h, user_view s lu h I) as Hu.
  destruct (ph (phases s) lu) as [| | |h|h|h|h|h|found h|h|f h|f h|f|f|f] eqn:Hph; try (by eauto).
  - by apply new_lu_lock_runs, Hent.
  - by apply new_lu_create_runs.
  - by apply new_lu_relock_runs, Hent.
  - destruct (Hu h eq_refl) as (_ & x & Hx & Hs & _). destruct (unhook_runs s h x Hx Hs) as (m & E & M).
    neutral_step E Hph M.
  - destruct (Hu h eq_refl) as (_ & x & _ & _ & _ & Hsh). destruct (add_lu_runs s h lu a Hsh) as (s' & E & M).
    neutral_step E Hph M.
  - destruct (lookup_runs s (target s lu) I) as (r & E & Hr).
    assert (r = Some h) as -> by (apply (lookup_own s lu h r I); [by rewrite Hph|done]).
    neutral_step E Hph (moved_refl s).
  - simpl in Hf. subst found. destruct (Hu h eq_refl) as (_ & x & _ & _ & _ & Hsh).
    destruct (hidden_device_runs s h lu a Hsh Ha) as (s' & E & M). neutral_step E Hph M.
  - destruct (lookup_runs s (target s lu) I) as (r & E & Hr).
    assert (r = Some h) as -> by (apply (lookup_own s lu h r I); [by rewrite Hph|done]).
    neutral_step E Hph (moved_refl s).
  - simpl in Hf. subst f. destruct (Hu h eq_refl) as (_ & x & _ & _ & _ & Hsh).
    destruct (remove_lu_runs s h a Hsh) as (s' & E & M). neutral_step E Hph M.
  - simpl in Hf. subst f. by apply lu_gone_decr_runs.
  - eexists. split; [done|]. by apply inv_unlist.
  - destruct (gone_destroy_runs s lu f I Hlu Hph) as (s' & E & I'). rewrite E. simpl. eauto.
  - destruct (Hu f eq_refl) as (_ & x & Hx & Hs & _). destruct (unhook_runs s f x Hx Hs) as (m & E & M).
    neutral_step E Hph M.
Qed.

(** The actions of a schedule: for LUs of [lus], the kernel's answers good, and a
    call that has dropped its reference ends before another for its target goes on. *)
Definition quiet s (t : host_action) : Prop :=
  match t with
  | kfio_port_scsi_new_lu lu | kfio_port_scsi_lu_hidden lu | kfio_port_scsi_lu_gone lu => lu ∈ lus
  | Thread lu a => lu ∈ lus ∧ quiet_for s lu ∧ answer_ok s a
  end.

Lemma host_step_inv s t : sinv s → quiet s t → ∃ s', host_step t s = Ok s' ∧ sinv s'.
Proof.
  intros I Hq. destruct t as [lu|lu|lu|lu a]; simpl in *.
  4: by destruct Hq as (Hlu & Hq & Ha); apply step_lu_inv.
  all: eexists; split; [done|]; change (phase s lu) with (ph (phases s) lu);
    destruct (ph (phases s) lu) eqn:Hph; try done; eapply (neutral_runs s s); try done; try apply moved_refl; by rewrite Hph.
Qed.

Fixpoint quiet_run (l : list host_action) s : Prop :=
  match l with
  | [] => True
  | t :: l => quiet s t ∧ ∀ s', host_step t s = Ok s' → quiet_run l s'
  end.

Lemma run_inv l s : sinv s → quiet_run l s → ∃ s', run_hosts l s = Ok s' ∧ sinv s'.
Proof.
  revert s. induction l as [|t l IH]; intros s I Hq; simpl; [eauto|].
  destruct Hq as [Ht Hl]. destruct (host_step_inv s t I Ht) as (s' & E & I'). rewrite E. simpl. auto.
Qed.

(** No host, no LU, whatever the kernel and the core have. *)
Definition no_hosts (m : scsi_state) : host_state := mk_host_state _ m [] ∅ ∅.

Lemma no_hosts_inv m : sinv (no_hosts m).
Proof.
  assert (∀ lu, ph ∅ lu = Absent) as Hph by (intros lu; unfold ph; by rewrite lookup_empty).
  split; simpl; intros *; rewrite ?Hph; try done; try (intros Hin; by apply not_elem_of_nil in Hin).
  constructor.
Qed.

(** Each LU is where no call is running for it. *)
Definition at_rest s : Prop := ∀ lu, match phase s lu with Absent | Present _ => True | _ => False end.

(** C5: From a driver without hosts, in every schedule in which a call that has
    dropped its reference ends before another call for its target goes on: no call
    uses a host that the driver has given up, or a null pointer; there is one listed
    host for a target; its reference count is the number of its LUs; an LU that has
    been exposed has its host; and when no call is running, the hosts are exactly
    those that have an LU, so none when there is none, and the driver has no other
    host that was registered. *)
Theorem hosts_live m l :
  quiet_run l (no_hosts m) →
  ∃ s, run_hosts l (no_hosts m) = Ok s
    ∧ (∀ h h' x x', h ∈ port_hosts s → h' ∈ port_hosts s → view s h = Some x → view s h' = Some x' →
         ph_target_id x = ph_target_id x' → h = h')
    ∧ (∀ h, h ∈ port_hosts s → ∃ x, view s h = Some x ∧ ph_ref_count x = refs h (phases s))
    ∧ (∀ lu h, phase s lu = Present h → h ∈ port_hosts s ∧ ∃ x, view s h = Some x ∧ ph_target_id x = target s lu)
    ∧ (at_rest s → ∀ h, (h ∈ port_hosts s ↔ ∃ lu, phase s lu = Present h)
                        ∧ ∀ x, view s h = Some x → ph_shost x = true → h ∈ port_hosts s).
Proof.
  intros Hq. destruct (run_inv l (no_hosts m) (no_hosts_inv m) Hq) as (s & E & I).
  exists s. split; [done|]. split_and!.
  - apply I.
  - intros h Hin. destruct (i_listed _ _ _ _ _ I h Hin) as (x & Hx & _ & Hr). eauto.
  - intros lu h Hp. apply (i_uses _ _ _ _ _ I lu h). unfold phase in Hp. by unfold ph; rewrite Hp.
  - intros Hrest h. split; [split|].
    + intros Hin. destruct (decide (refs h (phases s) = 0)) as [Hz|Hnz].
      * destruct (i_zero _ _ _ _ _ I h Hin Hz) as [lu Hlu]. specialize (Hrest lu).
        change (phase s lu) with (ph (phases s) lu) in Hrest. by rewrite Hlu in Hrest.
      * destruct (refs_some (phases s) h Hnz) as [lu Hlu]. exists lu. specialize (Hrest lu).
        change (phase s lu) with (ph (phases s) lu) in *. destruct (ph (phases s) lu); simplify_eq/=; done.
    + intros [lu Hlu]. apply (i_uses _ _ _ _ _ I lu h). change (phase s lu) with (ph (phases s) lu) in Hlu. by rewrite Hlu.
    + intros x Hx Hs. destruct (i_owned _ _ _ _ _ I h x Hx Hs) as [?|[lu Hlu]]; [done|]. specialize (Hrest lu).
      change (phase s lu) with (ph (phases s) lu) in Hrest. by destruct (ph (phases s) lu).
Qed.
End steps.

(** ** Schedules *)

(** LUs 8 and 9, both of target 3, on a kernel that gives [h] as the next host. *)
Definition sample_kernel (h : positive) : kernel_answer := mk_answer (Some h) 0 None h 0.
Definition sample_thread (lu h : positive) (n : nat) : list host_action := replicate n (Thread lu (sample_kernel h)).
Definition no_scsi : @scsi_state (sample_core 0) := @mk_scsi (sample_core 0) ∅ ∅ ∅ ∅.

(** Both are exposed, the first creates host 1. *)
Definition expose_8 : list host_action := kfio_port_scsi_new_lu 8 :: sample_thread 8 1 5.
Definition expose_8_9 : list host_action := expose_8 ++ kfio_port_scsi_new_lu 9 :: sample_thread 9 2 3.

(** Decides [quiet_run] by running the schedule. *)
Definition quiet_forb `{ScsiCore} (s : host_state) (lu : positive) : bool :=
  forallb (λ '(k, p), bool_decide (k = lu) || bool_decide (leaves_through p = None) || negb (target s k =? target s lu))
    (map_to_list (phases s)).

Definition quietb `{ScsiCore} (lus : gset positive) (s : host_state) (t : host_action) : bool :=
  match t with
  | kfio_port_scsi_new_lu lu | kfio_port_scsi_lu_hidden lu | kfio_port_scsi_lu_gone lu => bool_decide (lu ∈ lus)
  | Thread lu a => bool_decide (lu ∈ lus) && quiet_forb s lu && bool_decide (ka_device a = None)
  end.

Fixpoint quiet_runb `{ScsiCore} (lus : gset positive) (l : list host_action) (s : host_state) : bool :=
  match l with
  | [] => true
  | t :: l => quietb lus s t && match host_step t s with Ok s' => quiet_runb lus l s' | Fault _ => true end
  end.

Lemma quietb_sound `{ScsiCore} lus s t : quietb lus s t = true → quiet lus s t.
Proof.
  destruct t as [lu|lu|lu|lu a]; simpl; try apply bool_decide_eq_true_1.
  intros [[Hlu Hq]%andb_true_iff Ha]%andb_true_iff.
  split_and!; [by apply bool_decide_eq_true_1 in Hlu| |].
  - intros k f Hne E. unfold quiet_forb in Hq. rewrite forallb_forall in Hq.
    unfold phase in E. destruct (phases s !! k) as [p|] eqn:Ek; [|done].
    specialize (Hq (k, p)). simpl in *. rewrite E in Hq.
    rewrite !bool_decide_eq_false_2 in Hq by done.
    assert (negb (target s k =? target s lu) = true) as Hn; [|by apply negb_true_iff, Z.eqb_neq in Hn].
    apply Hq. apply list_elem_of_In, elem_of_map_to_list. done.
  - intros d E. by rewrite bool_decide_eq_true in Ha; rewrite Ha in E.
Qed.

Lemma quiet_runb_sound `{ScsiCore} lus l s : quiet_runb lus l s = true → quiet_run lus l s.
Proof.
  revert s. induction l as [|t l IH]; intros s; simpl; [done|].
  intros [Hq Hl]%andb_true_iff. split; [by apply quietb_sound|]. intros s' E. rewrite E in Hl. by apply IH.
Qed.

Definition lus_8_9 : gset positive := {[8%positive; 9%positive]}.

(** Two LUs come and go, one after the other. *)
Definition both_come_and_go : list host_action :=
  expose_8_9 ++ kfio_port_scsi_lu_gone 8 :: sample_thread 8 1 4 ++ kfio_port_scsi_lu_gone 9 :: sample_thread 9 1 5.

Lemma hosts_live_witness :
  ∃ s, @run_hosts (sample_core 0) both_come_and_go (no_hosts no_scsi) = Ok s ∧ port_hosts s = [].
Proof.
  assert (Z.of_nat (size lus_8_9) < 2 ^ 31) as Hsize by (vm_compute; reflexivity).
  assert (@quiet_run (sample_core 0) lus_8_9 both_come_and_go (no_hosts no_scsi)) as Hq
    by (apply quiet_runb_sound; vm_compute; reflexivity).
  destruct (@hosts_live (sample_core 0) (sample_core_laws 0) lus_8_9 Hsize no_scsi both_come_and_go Hq) as (s & E & _).
  exists s. split; [exact E|]. vm_compute in E. by injection E as <-.
Defined.

(** The last LU of the target drops its reference; before its thread has the lock, a
    new LU of the target finds the host, and goes on to use it when it is gone. *)
Example new_lu_revives_dying_host :
  @run_hosts (sample_core 0)
    (expose_8 ++ kfio_port_scsi_lu_gone 8 :: sample_thread 8 1 3
     ++ kfio_port_scsi_new_lu 9 :: sample_thread 9 2 1
     ++ sample_thread 8 1 2 ++ sample_thread 9 2 1) (no_hosts no_scsi) = Fault BadPointer.
Proof. by vm_compute. Qed.

(** Two LUs go: the first thread does not drop the last reference, and is about to
    unhook the devices of the host, which the second thread destroys. *)
Example lu_gone_races_lu_gone :
  @run_hosts (sample_core 0)
    (expose_8_9 ++ kfio_port_scsi_lu_gone 8 :: sample_thread 8 1 3
     ++ kfio_port_scsi_lu_gone 9 :: sample_thread 9 2 5
     ++ sample_thread 8 1 1) (no_hosts no_scsi) = Fault BadPointer.
Proof. by vm_compute. Qed.

(** An LU whose host could not be made is hidden: there is no host for it. *)
Example hidden_without_host :
  @run_hosts (sample_core 0) [Thread 8 (sample_kernel 1)]
    (@set_phase (sample_core 0) 8 (HideDevice None 1) (no_hosts no_scsi)) = Fault NullDeref.
Proof. by vm_compute. Qed.

(** A host that cannot be registered is not freed. *)
Example register_failure_leaks :
  ∃ s, @run_hosts (sample_core 0) (kfio_port_scsi_new_lu 8 :: replicate 2 (Thread 8 (mk_answer (Some 1%positive) (- EIO) None 1 0)))
         (no_hosts no_scsi) = Ok s
       ∧ port_hosts s = [] ∧ phase s 8 = Absent ∧ owned s = {[1%positive]}.
Proof. eexists. split; [vm_compute; reflexivity|]. by vm_compute. Qed.

(** A teardown that follows a failed start destroys the lock a second time. *)
Example lock_destroyed_twice :
  si_lock_destroyed (kfio_platform_teardown_scsi_interface (kfio_platform_init_scsi_interface (- EIO) (mk_interface false 0 0 0)).1) = 2%nat.
Proof. done. Qed.
