(* ===== verification/ArchOps.v ===== *)
(** * Atomic and bit operations: the interface

    arch/x86_common has one set of functions for each of three compilers, arch/ppc one
    more.  What the functions promise is stated here, on words of [w] bits, with the
    instructions and intrinsics they are made of; the files ArchMsc, ArchGcc, ArchAsm
    and ArchPpc have the functions. *)
From S2P Require Import Prelude.

(** ** Atomic operations

    Each is one access to the memory, from the value that is there to the new value,
    and the result. *)

Record AtomicOps := {
  aop_inc : Z → Z;
  aop_incr : Z → Z * Z;
  aop_dec : Z → Z;
  aop_decr : Z → Z * Z;
  aop_add : Z → Z → Z;
  aop_add_return : Z → Z → Z * Z;
  aop_sub : Z → Z → Z;
  aop_exchange : Z → Z → Z * Z
}.

(** Comparison and swap, which PowerPC's header does not have. *)
Record CasOps := {
  aop_cas : Z → Z → Z → Z * Z;
  aop_cas_bool : Z → Z → Z → Z * Z
}.

(** The comments of the headers; results come first. *)
Definition reference_atomics (w : Z) : AtomicOps := {|
  aop_inc v := wraps w (v + 1);
  aop_incr v := (wraps w (v + 1), wraps w (v + 1));
  aop_dec v := wraps w (v - 1);
  aop_decr v := (wraps w (v - 1), wraps w (v - 1));
  aop_add v n := wraps w (v + n);
  aop_add_return v n := (wraps w (v + n), wraps w (v + n));
  aop_sub v n := wraps w (v - n);
  aop_exchange v n := (v, n)
|}.

Definition reference_sub_return (w v n : Z) : Z * Z := (wraps w (v - n), wraps w (v - n)).

Definition reference_cas : CasOps := {|
  aop_cas v old new := (v, if v =? old then new else v);
  aop_cas_bool v old new := (if v =? old then 1 else 0, if v =? old then new else v)
|}.

(** What an implementation for [w] bits promises, on values of the type. *)
Class AtomicLaws (w : Z) (o : AtomicOps) : Prop := {
  law_inc v : in_s w v → aop_inc o v = aop_inc (reference_atomics w) v;
  law_incr v : in_s w v → aop_incr o v = aop_incr (reference_atomics w) v;
  law_dec v : in_s w v → aop_dec o v = aop_dec (reference_atomics w) v;
  law_decr v : in_s w v → aop_decr o v = aop_decr (reference_atomics w) v;
  law_add v n : in_s w v → in_s w n → aop_add o v n = aop_add (reference_atomics w) v n;
  law_add_return v n : in_s w v → in_s w n → aop_add_return o v n = aop_add_return (reference_atomics w) v n;
  law_sub v n : in_s w v → in_s w n → aop_sub o v n = aop_sub (reference_atomics w) v n;
  law_exchange v n : in_s w v → in_s w n → aop_exchange o v n = aop_exchange (reference_atomics w) v n
}.

Class CasLaws (w : Z) (o : CasOps) : Prop := {
  law_cas v a b : in_s w v → in_s w a → in_s w b → aop_cas o v a b = aop_cas reference_cas v a b;
  law_cas_bool v a b : in_s w v → in_s w a → in_s w b → aop_cas_bool o v a b = aop_cas_bool reference_cas v a b
}.

(** Sums that are wrapped more than once. *)
Lemma wraps_mod w a b : 0 < w → a mod 2 ^ w = b mod 2 ^ w → wraps w a = wraps w b.
Proof.
  intros Hw E. unfold wraps. f_equal. rewrite <- Z.add_mod_idemp_l, E, Z.add_mod_idemp_l by lia. done.
Qed.

Lemma wraps_eq_mod w a b : 0 < w → wraps w a = wraps w b ↔ a mod 2 ^ w = b mod 2 ^ w.
Proof.
  intros Hw. split; [|by apply wraps_mod]. intros E. unfold wraps in E.
  assert (∀ c, c mod 2 ^ w = ((c + 2 ^ (w - 1)) mod 2 ^ w - 2 ^ (w - 1)) mod 2 ^ w) as H.
  { intros c. rewrite Zminus_mod_idemp_l. f_equal. lia. }
  rewrite (H a), (H b). f_equal. lia.
Qed.

Lemma mod_wraps w a : 0 < w → (wraps w a) mod 2 ^ w = a mod 2 ^ w.
Proof.
  intros Hw. unfold wraps. rewrite Zminus_mod_idemp_l. f_equal. lia.
Qed.

Lemma wraps_add_l w a b : 0 < w → wraps w (wraps w a + b) = wraps w (a + b).
Proof.
  intros Hw. apply wraps_mod; [done|]. rewrite <- Z.add_mod_idemp_l, mod_wraps, Z.add_mod_idemp_l by lia. done.
Qed.

Lemma wraps_add_r w a b : 0 < w → wraps w (a + wraps w b) = wraps w (a + b).
Proof. intros Hw. by rewrite (Z.add_comm a), wraps_add_l, Z.add_comm by done. Qed.

Lemma wraps_sub_r w a b : 0 < w → wraps w (a - wraps w b) = wraps w (a - b).
Proof.
  intros Hw. apply wraps_mod; [done|]. rewrite <- Zminus_mod_idemp_r, mod_wraps, Zminus_mod_idemp_r by lia. done.
Qed.

(** Adding is injective up to the wrap. *)
Lemma wraps_add_cancel w v a b : 0 < w → wraps w (v + a) = wraps w (v + b) ↔ wraps w a = wraps w b.
Proof.
  intros Hw. split; intros E.
  - rewrite <- (Z.add_simpl_l v a), <- (Z.add_simpl_l v b). rewrite wraps_eq_mod in * by done.
    by rewrite <- !(Zminus_mod_idemp_l (v + _)), E.
  - by rewrite <- wraps_add_r, E, wraps_add_r.
Qed.

Lemma wraps_range w a : 0 < w → in_s w (wraps w a).
Proof.
  intros Hw. unfold in_s, wraps. pose proof (Z.mod_pos_bound (a + 2 ^ (w - 1)) (2 ^ w) (ltac:(lia))).
  assert (2 ^ w = 2 * 2 ^ (w - 1)) by (rewrite <- Z.pow_succ_r by lia; f_equal; lia). lia.
Qed.

Lemma wraps_wraps w a : 0 < w → wraps w (wraps w a) = wraps w a.
Proof. intros Hw. by apply wraps_small, wraps_range. Qed.

Create Rewrite HintDb wraps.
#[export] Hint Rewrite wraps_add_l wraps_add_r wraps_sub_r wraps_wraps using lia : wraps.

(** Two expressions of sums and wraps that are equal but for the wraps. *)
Ltac wraps_eq := try apply (f_equal2 pair); autorewrite with wraps; first [reflexivity | f_equal; lia].

(** ** Bits in memory

    A [fusion_bits_t] is a word of 32 bits in an array of them. *)

Definition set_bit_at (b : Z) (x : Z) : Z := Z.lor x (Z.shiftl 1 b).
Definition clear_bit_at (b : Z) (x : Z) : Z := Z.ldiff x (Z.shiftl 1 b).

(** [bts], [btr] with the number in a register: it counts from the word at [i] on,
    also backwards.  The result is the old bit, which the carry flag has. *)
Definition bt_reg (f : Z → Z → Z) (i v : Z) (ws : list Z) : outcome (bool * list Z) :=
  let j := i + v / 32 in
  if 0 <=? j then
    x ← of_option OutOfBounds (ws !! Z.to_nat j);
    Ok (Z.testbit x (v mod 32), <[Z.to_nat j := f (v mod 32) x]> ws)
  else Fault OutOfBounds.

(** The number as an immediate operand: its low bits, in the word at [i]. *)
Definition bt_imm (f : Z → Z → Z) (i v : Z) (ws : list Z) : outcome (bool * list Z) :=
  if 0 <=? i then
    x ← of_option OutOfBounds (ws !! Z.to_nat i);
    Ok (Z.testbit x (v mod 32), <[Z.to_nat i := f (v mod 32) x]> ws)
  else Fault OutOfBounds.

(** What the functions promise for bit [v] of the word at [i]. *)
Definition reference_bit (f : Z → Z → Z) (i v : Z) (ws : list Z) : outcome (bool * list Z) :=
  x ← of_option OutOfBounds (ws !! Z.to_nat i);
  Ok (Z.testbit x v, <[Z.to_nat i := f v x]> ws).

Lemma bt_reg_in_word f i v ws : 0 <= i → 0 <= v < 32 → bt_reg f i v ws = reference_bit f i v ws.
Proof.
  intros Hi Hv. unfold bt_reg, reference_bit.
  rewrite Z.div_small, Z.mod_small, Z.add_0_r by lia. by rewrite (proj2 (Z.leb_le 0 i)).
Qed.

Lemma bt_imm_in_word f i v ws : 0 <= i → 0 <= v < 32 → bt_imm f i v ws = reference_bit f i v ws.
Proof. intros Hi Hv. unfold bt_imm, reference_bit. rewrite Z.mod_small by lia. by rewrite (proj2 (Z.leb_le 0 i)). Qed.
