(* ===== verification/ArchMsc.v ===== *)
(** * Atomic and bit operations: x86, Microsoft's compiler (arch/x86_common)

    The functions of atomic.h and bits.h that are made of the compiler's intrinsics. *)
From S2P Require Import Prelude ArchOps.

(** ** Intrinsics

    [InterlockedExchangeAdd] returns what was there before. *)
Definition InterlockedIncrement (v : Z) : Z * Z := (s32 (v + 1), s32 (v + 1)).
Definition InterlockedDecrement (v : Z) : Z * Z := (s32 (v - 1), s32 (v - 1)).
Definition InterlockedExchangeAdd (v x : Z) : Z * Z := (v, s32 (v + x)).
Definition InterlockedExchange (v x : Z) : Z * Z := (v, x).
Definition InterlockedCompareExchange (v x y : Z) : Z * Z := (v, if v =? y then x else v).
Definition InterlockedIncrement64 (v : Z) : Z * Z := (s64 (v + 1), s64 (v + 1)).
Definition InterlockedDecrement64 (v : Z) : Z * Z := (s64 (v - 1), s64 (v - 1)).
Definition InterlockedExchangeAdd64 (v x : Z) : Z * Z := (v, s64 (v + x)).
Definition InterlockedExchange64 (v x : Z) : Z * Z := (v, x).
Definition InterlockedCompareExchange64 (v x y : Z) : Z * Z := (v, if v =? y then x else v).

(** ** 32 bits *)

Definition fusion_atomic32_inc (v : Z) : Z := (InterlockedIncrement v).2.
Definition fusion_atomic32_incr (v : Z) : Z * Z := InterlockedIncrement v.
Definition fusion_atomic32_dec (v : Z) : Z := (InterlockedDecrement v).2.
Definition fusion_atomic32_decr (v : Z) : Z * Z := InterlockedDecrement v.
Definition fusion_atomic32_add (v val : Z) : Z := (InterlockedExchangeAdd v val).2.
Definition fusion_atomic32_add_return (v val : Z) : Z * Z :=
  let '(old, new) := InterlockedExchangeAdd v val in (s32 (old + val), new).
Definition fusion_atomic32_sub (v val : Z) : Z := (InterlockedExchangeAdd v (s32 (- val))).2.
Definition fusion_atomic32_sub_return (v val : Z) : Z * Z :=
  let '(old, new) := InterlockedExchangeAdd v (s32 (- val)) in (s32 (old - val), new).
Definition fusion_atomic32_exchange (v val : Z) : Z * Z := InterlockedExchange v val.
Definition fusion_atomic32_cas (v oldval newval : Z) : Z * Z := InterlockedCompareExchange v newval oldval.
Definition fusion_atomic32_cas_bool (v oldval newval : Z) : Z * Z :=
  let '(was, new) := InterlockedCompareExchange v newval oldval in (if was =? oldval then 1 else 0, new).

Definition msc32 : AtomicOps := {|
  aop_inc := fusion_atomic32_inc; aop_incr := fusion_atomic32_incr; aop_dec := fusion_atomic32_dec; aop_decr := fusion_atomic32_decr;
  aop_add := fusion_atomic32_add; aop_add_return := fusion_atomic32_add_return; aop_sub := fusion_atomic32_sub;
  aop_exchange := fusion_atomic32_exchange
|}.
Definition msc32_cas : CasOps := {| aop_cas := fusion_atomic32_cas; aop_cas_bool := fusion_atomic32_cas_bool |}.

#[export] Instance msc32_laws : AtomicLaws 32 msc32.
Proof.
  split; intros; simpl; try done.
  unfold fusion_atomic32_sub, InterlockedExchangeAdd. simpl. wraps_eq.
Qed.
#[export] Instance msc32_cas_laws : CasLaws 32 msc32_cas.
Proof. by split. Qed.

Lemma msc32_sub_return v val : fusion_atomic32_sub_return v val = reference_sub_return 32 v val.
Proof. unfold fusion_atomic32_sub_return, InterlockedExchangeAdd, reference_sub_return. simpl. wraps_eq. Qed.

(** ** 64 bits *)

Definition fusion_atomic64_inc (v : Z) : Z := (InterlockedIncrement64 v).2.
Definition fusion_atomic64_incr (v : Z) : Z * Z := InterlockedIncrement64 v.
Definition fusion_atomic64_dec (v : Z) : Z := (InterlockedDecrement64 v).2.
Definition fusion_atomic64_decr (v : Z) : Z * Z := InterlockedDecrement64 v.
Definition fusion_atomic64_add (v val : Z) : Z := (InterlockedExchangeAdd64 v val).2.
Definition fusion_atomic64_add_return (v val : Z) : Z * Z :=
  let '(old, new) := InterlockedExchangeAdd64 v val in (s64 (old + val), new).
Definition fusion_atomic64_sub (v val : Z) : Z := (InterlockedExchangeAdd64 v (s64 (- val))).2.
Definition fusion_atomic64_sub_return (v val : Z) : Z * Z :=
  let '(old, new) := InterlockedExchangeAdd64 v (s64 (- val)) in (s64 (old - val), new).
Definition fusion_atomic64_exchange (v val : Z) : Z * Z := InterlockedExchange64 v val.
Definition fusion_atomic64_cas (v oldval newval : Z) : Z * Z := InterlockedCompareExchange64 v newval oldval.
Definition fusion_atomic64_cas_bool (v oldval newval : Z) : Z * Z :=
  let '(was, new) := InterlockedCompareExchange64 v newval oldval in (if was =? oldval then 1 else 0, new).

Definition msc64 : AtomicOps := {|
  aop_inc := fusion_atomic64_inc; aop_incr := fusion_atomic64_incr; aop_dec := fusion_atomic64_dec; aop_decr := fusion_atomic64_decr;
  aop_add := fusion_atomic64_add; aop_add_return := fusion_atomic64_add_return; aop_sub := fusion_atomic64_sub;
  aop_exchange := fusion_atomic64_exchange
|}.
Definition msc64_cas : CasOps := {| aop_cas := fusion_atomic64_cas; aop_cas_bool := fusion_atomic64_cas_bool |}.

#[export] Instance msc64_laws : AtomicLaws 64 msc64.
Proof.
  split; intros; simpl; try done.
  unfold fusion_atomic64_sub, InterlockedExchangeAdd64. simpl. wraps_eq.
Qed.
#[export] Instance msc64_cas_laws : CasLaws 64 msc64_cas.
Proof. by split. Qed.

Lemma msc64_sub_return v val : fusion_atomic64_sub_return v val = reference_sub_return 64 v val.
Proof. unfold fusion_atomic64_sub_return, InterlockedExchangeAdd64, reference_sub_return. simpl. wraps_eq. Qed.

(** ** Bits

    The intrinsics [_bittest], [_bittestandset] and [_bittestandreset], locked or not,
    count from the word that they are given on. *)

Definition fio_test_bit_atomic (i v : Z) (ws : list Z) : outcome bool := fst <$> bt_reg (λ _ x, x) i v ws.
Definition fio_set_bit_atomic (i v : Z) (ws : list Z) : outcome (list Z) := snd <$> bt_reg set_bit_at i v ws.
Definition fio_clear_bit_atomic (i v : Z) (ws : list Z) : outcome (list Z) := snd <$> bt_reg clear_bit_at i v ws.
Definition fio_test_and_set_bit_atomic (i v : Z) (ws : list Z) : outcome (bool * list Z) := bt_reg set_bit_at i v ws.
Definition fio_test_and_clear_bit_atomic (i v : Z) (ws : list Z) : outcome (bool * list Z) := bt_reg clear_bit_at i v ws.
Definition fio_test_bit (i v : Z) (ws : list Z) : outcome bool := fst <$> bt_reg (λ _ x, x) i v ws.
Definition fio_set_bit (i v : Z) (ws : list Z) : outcome (list Z) := snd <$> bt_reg set_bit_at i v ws.
Definition fio_clear_bit (i v : Z) (ws : list Z) : outcome (list Z) := snd <$> bt_reg clear_bit_at i v ws.
Definition fio_test_and_set_bit (i v : Z) (ws : list Z) : outcome (bool * list Z) := bt_reg set_bit_at i v ws.
Definition fio_test_and_clear_bit (i v : Z) (ws : list Z) : outcome (bool * list Z) := bt_reg clear_bit_at i v ws.
