(* ===== verification/ArchGcc.v ===== *)
(** * Atomic operations: x86, the builtins of gcc (arch/x86_common/atomic.h) *)
From S2P Require Import Prelude ArchOps.

(** ** Builtins *)

Definition sync_add_and_fetch (w v n : Z) : Z * Z := (wraps w (v + n), wraps w (v + n)).
Definition sync_sub_and_fetch (w v n : Z) : Z * Z := (wraps w (v - n), wraps w (v - n)).
Definition sync_lock_test_and_set (v n : Z) : Z * Z := (v, n).
Definition sync_val_compare_and_swap (v old new : Z) : Z * Z := (v, if v =? old then new else v).
Definition sync_bool_compare_and_swap (v old new : Z) : Z * Z := (if v =? old then 1 else 0, if v =? old then new else v).

(** ** Reading and setting: the same for all compilers *)

Definition fusion_atomic32_set (v val : Z) : Z := val.
Definition fusion_atomic32_read (v : Z) : Z := v.
Definition fusion_atomic64_set (v val : Z) : Z := val.
Definition fusion_atomic64_read (v : Z) : Z := v.

(** ** 32 bits *)

Definition fusion_atomic32_inc (v : Z) : Z := (sync_add_and_fetch 32 v 1).2.
Definition fusion_atomic32_incr (v : Z) : Z * Z := sync_add_and_fetch 32 v 1.
Definition fusion_atomic32_dec (v : Z) : Z := (sync_sub_and_fetch 32 v 1).2.
Definition fusion_atomic32_decr (v : Z) : Z * Z := sync_sub_and_fetch 32 v 1.
Definition fusion_atomic32_add (v val : Z) : Z := (sync_add_and_fetch 32 v val).2.
Definition fusion_atomic32_add_return (v val : Z) : Z * Z := sync_add_and_fetch 32 v val.
Definition fusion_atomic32_sub (v val : Z) : Z := (sync_sub_and_fetch 32 v val).2.
Definition fusion_atomic32_sub_return (v val : Z) : Z * Z := sync_sub_and_fetch 32 v val.
Definition fusion_atomic32_exchange (v val : Z) : Z * Z := sync_lock_test_and_set v val.
Definition fusion_atomic32_cas (v oldval newval : Z) : Z * Z := sync_val_compare_and_swap v oldval newval.
Definition fusion_atomic32_cas_bool (v oldval newval : Z) : Z * Z := sync_bool_compare_and_swap v oldval newval.

Definition gcc32 : AtomicOps := {|
  aop_inc := fusion_atomic32_inc; aop_incr := fusion_atomic32_incr; aop_dec := fusion_atomic32_dec; aop_decr := fusion_atomic32_decr;
  aop_add := fusion_atomic32_add; aop_add_return := fusion_atomic32_add_return; aop_sub := fusion_atomic32_sub;
  aop_exchange := fusion_atomic32_exchange
|}.
Definition gcc32_cas : CasOps := {| aop_cas := fusion_atomic32_cas; aop_cas_bool := fusion_atomic32_cas_bool |}.

#[export] Instance gcc32_laws : AtomicLaws 32 gcc32.
Proof. by split. Qed.
#[export] Instance gcc32_cas_laws : CasLaws 32 gcc32_cas.
Proof. by split. Qed.

(** ** 64 bits *)

Definition fusion_atomic64_inc (v : Z) : Z := (sync_add_and_fetch 64 v 1).2.
Definition fusion_atomic64_incr (v : Z) : Z * Z := sync_add_and_fetch 64 v 1.
Definition fusion_atomic64_dec (v : Z) : Z := (sync_sub_and_fetch 64 v 1).2.
Definition fusion_atomic64_decr (v : Z) : Z * Z := sync_sub_and_fetch 64 v 1.
Definition fusion_atomic64_add (v val : Z) : Z := (sync_add_and_fetch 64 v val).2.
Definition fusion_atomic64_add_return (v val : Z) : Z * Z := sync_add_and_fetch 64 v val.
Definition fusion_atomic64_sub (v val : Z) : Z := (sync_sub_and_fetch 64 v val).2.
Definition fusion_atomic64_sub_return (v val : Z) : Z * Z := sync_sub_and_fetch 64 v val.
Definition fusion_atomic64_exchange (v val : Z) : Z * Z := sync_lock_test_and_set v val.
Definition fusion_atomic64_cas (v oldval newval : Z) : Z * Z := sync_val_compare_and_swap v oldval newval.
Definition fusion_atomic64_cas_bool (v oldval newval : Z) : Z * Z := sync_bool_compare_and_swap v oldval newval.

Definition gcc64 : AtomicOps := {|
  aop_inc := fusion_atomic64_inc; aop_incr := fusion_atomic64_incr; aop_dec := fusion_atomic64_dec; aop_decr := fusion_atomic64_decr;
  aop_add := fusion_atomic64_add; aop_add_return := fusion_atomic64_add_return; aop_sub := fusion_atomic64_sub;
  aop_exchange := fusion_atomic64_exchange
|}.
Definition gcc64_cas : CasOps := {| aop_cas := fusion_atomic64_cas; aop_cas_bool := fusion_atomic64_cas_bool |}.

#[export] Instance gcc64_laws : AtomicLaws 64 gcc64.
Proof. by split. Qed.
#[export] Instance gcc64_cas_laws : CasLaws 64 gcc64_cas.
Proof. by split. Qed.
