(* ===== verification/ArchAsm.v ===== *)
(** * Atomic and bit operations: x86, assembly (arch/x86_common)

    The functions of atomic.h for a gcc without the builtins, and those of bits.h,
    which all gccs use. *)
From S2P Require Import Prelude ArchOps.

(** ** Instructions

    [w]: 32 for the suffix l, 64 for q.  [xadd] leaves the old value in its register,
    [cmpxchg] compares with the accumulator, which it loads when they differ. *)

Definition x86_inc (w v : Z) : Z := wraps w (v + 1).
Definition x86_dec (w v : Z) : Z := wraps w (v - 1).
Definition x86_add (w v r : Z) : Z := wraps w (v + r).
Definition x86_sub (w v r : Z) : Z := wraps w (v - r).
Definition x86_xadd (w v r : Z) : Z * Z := (v, wraps w (v + r)).
Definition x86_xchg (v r : Z) : Z * Z := (v, r).
Definition x86_cmpxchg (v r a : Z) : Z * Z := if v =? a then (a, r) else (v, v).

(** ** 32 bits *)

Definition fusion_atomic32_inc (v : Z) : Z := x86_inc 32 v.
Definition fusion_atomic32_dec (v : Z) : Z := x86_dec 32 v.
Definition fusion_atomic32_add (v val : Z) : Z := x86_add 32 v val.
Definition fusion_atomic32_add_return (v val : Z) : Z * Z :=
  let i := val in let '(val, new) := x86_xadd 32 v val in (s32 (val + i), new).
Definition fusion_atomic32_incr (v : Z) : Z * Z := fusion_atomic32_add_return v 1.
Definition fusion_atomic32_decr (v : Z) : Z * Z := fusion_atomic32_add_return v (-1).
Definition fusion_atomic32_sub (v val : Z) : Z := x86_sub 32 v val.
Definition fusion_atomic32_exchange (v val : Z) : Z * Z := x86_xchg v val.
Definition fusion_atomic32_cas (v oldval newval : Z) : Z * Z :=
  let rc := oldval in let '(rc, new) := x86_cmpxchg v newval rc in (rc, new).
Definition fusion_atomic32_cas_bool (v oldval newval : Z) : Z * Z :=
  let rc := oldval in let '(rc, new) := x86_cmpxchg v newval rc in (if rc =? oldval then 1 else 0, new).

(** [sub_return] is a macro that puts a minus sign before the text of its argument.
    The sign binds to the first operand of the text only; [arg_rest] is what the
    operators and operands behind it make of the value of that operand. *)
Record macro_argument := mk_argument { arg_first : Z; arg_rest : Z → Z }.
Definition argument_value (e : macro_argument) : Z := arg_rest e (arg_first e).
Definition minus_argument (e : macro_argument) : Z := arg_rest e (- arg_first e).

(** [n], [a + b] and [a - b]. *)
Definition Term (n : Z) : macro_argument := mk_argument n id.
Definition Sum (a b : Z) : macro_argument := mk_argument a (λ x, x + b).
Definition Difference (a b : Z) : macro_argument := mk_argument a (λ x, x - b).

Definition fusion_atomic32_sub_return (v : Z) (val : macro_argument) : Z * Z :=
  fusion_atomic32_add_return v (s32 (minus_argument val)).

Definition asm32 : AtomicOps := {|
  aop_inc := fusion_atomic32_inc; aop_incr := fusion_atomic32_incr; aop_dec := fusion_atomic32_dec; aop_decr := fusion_atomic32_decr;
  aop_add := fusion_atomic32_add; aop_add_return := fusion_atomic32_add_return; aop_sub := fusion_atomic32_sub;
  aop_exchange := fusion_atomic32_exchange
|}.
Definition asm32_cas : CasOps := {| aop_cas := fusion_atomic32_cas; aop_cas_bool := fusion_atomic32_cas_bool |}.

#[export] Instance asm32_laws : AtomicLaws 32 asm32.
Proof. by split. Qed.
#[export] Instance asm32_cas_laws : CasLaws 32 asm32_cas.
Proof.
  split; intros; simpl.
  - unfold fusion_atomic32_cas, x86_cmpxchg. by destruct (Z.eqb_spec v a) as [->|Hne].
  - unfold fusion_atomic32_cas_bool, x86_cmpxchg. destruct (Z.eqb_spec v a) as [->|Hne]; [by rewrite Z.eqb_refl|].
    by rewrite (proj2 (Z.eqb_neq v a)).
Qed.

(** The macro subtracts when the sign before the first operand negates the whole
    argument, as it does for a single term. *)
Lemma asm32_sub_return v e :
  fusion_atomic32_sub_return v e = reference_sub_return 32 v (argument_value e)
  ↔ s32 (minus_argument e) = s32 (- argument_value e).
Proof.
  unfold fusion_atomic32_sub_return, fusion_atomic32_add_return, x86_xadd, reference_sub_return.
  rewrite wraps_add_r by lia. change (v - argument_value e) with (v + - argument_value e).
  rewrite <- (wraps_add_cancel 32 v) by lia. split; [by intros [= E _]|by intros ->].
Qed.

(** ** 64 bits *)

Definition fusion_atomic64_inc (v : Z) : Z := x86_inc 64 v.
Definition fusion_atomic64_dec (v : Z) : Z := x86_dec 64 v.
Definition fusion_atomic64_add (v val : Z) : Z := x86_add 64 v val.
Definition fusion_atomic64_add_return (v val : Z) : Z * Z :=
  let i := val in let '(val, new) := x86_xadd 64 v val in (s64 (val + i), new).
Definition fusion_atomic64_incr (v : Z) : Z * Z := fusion_atomic64_add_return v 1.
Definition fusion_atomic64_decr (v : Z) : Z * Z := fusion_atomic64_add_return v (-1).
Definition fusion_atomic64_sub (v val : Z) : Z := x86_sub 64 v val.
Definition fusion_atomic64_exchange (v val : Z) : Z * Z := x86_xchg v val.
Definition fusion_atomic64_cas (v oldval newval : Z) : Z * Z :=
  let rc := oldval in let '(rc, new) := x86_cmpxchg v newval rc in (rc, new).
Definition fusion_atomic64_cas_bool (v oldval newval : Z) : Z * Z :=
  let rc := oldval in let '(rc, new) := x86_cmpxchg v newval rc in (if rc =? oldval then 1 else 0, new).

Definition fusion_atomic64_sub_return (v : Z) (val : macro_argument) : Z * Z :=
  fusion_atomic64_add_return v (s64 (minus_argument val)).

Definition asm64 : AtomicOps := {|
  aop_inc := fusion_atomic64_inc; aop_incr := fusion_atomic64_incr; aop_dec := fusion_atomic64_dec; aop_decr := fusion_atomic64_decr;
  aop_add := fusion_atomic64_add; aop_add_return := fusion_atomic64_add_return; aop_sub := fusion_atomic64_sub;
  aop_exchange := fusion_atomic64_exchange
|}.
Definition asm64_cas : CasOps := {| aop_cas := fusion_atomic64_cas; aop_cas_bool := fusion_atomic64_cas_bool |}.

#[export] Instance asm64_laws : AtomicLaws 64 asm64.
Proof. by split. Qed.
#[export] Instance asm64_cas_laws : CasLaws 64 asm64_cas.
Proof.
  split; intros; simpl.
  - unfold fusion_atomic64_cas, x86_cmpxchg. by destruct (Z.eqb_spec v a) as [->|Hne].
  - unfold fusion_atomic64_cas_bool, x86_cmpxchg. destruct (Z.eqb_spec v a) as [->|Hne]; [by rewrite Z.eqb_refl|].
    by rewrite (proj2 (Z.eqb_neq v a)).
Qed.

(** The macro subtracts when the sign before the first operand negates the whole
    argument, as it does for a single term. *)
Lemma asm64_sub_return v e :
  fusion_atomic64_sub_return v e = reference_sub_return 64 v (argument_value e)
  ↔ s64 (minus_argument e) = s64 (- argument_value e).
Proof.
  unfold fusion_atomic64_sub_return, fusion_atomic64_add_return, x86_xadd, reference_sub_return.
  rewrite wraps_add_r by lia. change (v - argument_value e) with (v + - argument_value e).
  rewrite <- (wraps_add_cancel 64 v) by lia. split; [by intros [= E _]|by intros ->].
Qed.

(** ** Bits

    A number that the compiler knows to be less than 32 is an immediate operand
    ([constant]), any other is in a register. *)

Definition bt (constant : bool) (f : Z → Z → Z) (i v : Z) (ws : list Z) : outcome (bool * list Z) :=
  if constant && (0 <=? v) && (v <? 32) then bt_imm f i v ws else bt_reg f i v ws.

Definition test_masked (i v : Z) (ws : list Z) : outcome bool :=
  x ← of_option OutOfBounds (ws !! Z.to_nat i);
  Ok (negb (Z.land (u32 (Z.shiftl 1 (Z.land v 31))) x =? 0)).

Definition fio_test_bit_atomic (i v : Z) (ws : list Z) : outcome bool := test_masked i v ws.
Definition fio_set_bit_atomic (constant : bool) (i v : Z) (ws : list Z) : outcome (list Z) := snd <$> bt constant set_bit_at i v ws.
Definition fio_clear_bit_atomic (constant : bool) (i v : Z) (ws : list Z) : outcome (list Z) := snd <$> bt constant clear_bit_at i v ws.
Definition fio_test_and_set_bit_atomic (constant : bool) (i v : Z) (ws : list Z) : outcome (bool * list Z) := bt constant set_bit_at i v ws.
Definition fio_test_and_clear_bit_atomic (constant : bool) (i v : Z) (ws : list Z) : outcome (bool * list Z) := bt constant clear_bit_at i v ws.
Definition fio_test_bit (i v : Z) (ws : list Z) : outcome bool := test_masked i v ws.
Definition fio_set_bit (constant : bool) (i v : Z) (ws : list Z) : outcome (list Z) := snd <$> bt constant set_bit_at i v ws.
Definition fio_clear_bit (constant : bool) (i v : Z) (ws : list Z) : outcome (list Z) := snd <$> bt constant clear_bit_at i v ws.
Definition fio_test_and_set_bit (constant : bool) (i v : Z) (ws : list Z) : outcome (bool * list Z) := bt constant set_bit_at i v ws.
Definition fio_test_and_clear_bit (constant : bool) (i v : Z) (ws : list Z) : outcome (bool * list Z) := bt constant clear_bit_at i v ws.

(** A word of 64 bits, by the instruction for 32: numbers to 63 may be immediate. *)
Definition fio_clear_bit_atomic64 (constant : bool) (v x : Z) : outcome Z :=
  let ws := [x mod 2 ^ 32; x / 2 ^ 32] in
  '(_, ws) ← if constant && (0 <=? v) && (v <? 64) then bt_imm clear_bit_at 0 v ws else bt_reg clear_bit_at 0 v ws;
  lo ← of_option OutOfBounds (ws !! 0%nat);
  hi ← of_option OutOfBounds (ws !! 1%nat);
  Ok (lo + 2 ^ 32 * hi).
