(* ===== verification/ArchPpc.v ===== *)
(** * Atomic and bit operations: PowerPC (arch/ppc)

    The atomic operations are gcc's builtins, and for 32 bits only; the bit operations
    repeat a load with reservation and a conditional store until it succeeds: then
    nobody has written the word in between, and the pair is one access.  The assembly names
    some operands and labels in a way that the assembler would not take; the operand that
    is meant is modelled. *)
From S2P Require Import Prelude ArchOps ArchGcc.

(** ** 32 bits *)

Definition fusion_atomic32_set (v val : Z) : Z := val.
Definition fusion_atomic32_read (v : Z) : Z := v.
Definition fusion_atomic32_add (v val : Z) : Z := (sync_add_and_fetch 32 v val).2.
Definition fusion_atomic32_inc (v : Z) : Z := (sync_add_and_fetch 32 v 1).2.
Definition fusion_atomic32_incr (v : Z) : Z * Z := sync_add_and_fetch 32 v 1.
Definition fusion_atomic32_add_return (v val : Z) : Z * Z := sync_add_and_fetch 32 v val.
Definition fusion_atomic32_dec (v : Z) : Z := (sync_sub_and_fetch 32 v 1).2.
Definition fusion_atomic32_decr (v : Z) : Z * Z := sync_sub_and_fetch 32 v 1.
Definition fusion_atomic32_sub (v val : Z) : Z := (sync_sub_and_fetch 32 v val).2.
Definition fusion_atomic32_sub_return (v val : Z) : Z * Z := sync_sub_and_fetch 32 v val.
Definition fusion_atomic32_exchange (v val : Z) : Z * Z := sync_lock_test_and_set v val.

Definition ppc32 : AtomicOps := {|
  aop_inc := fusion_atomic32_inc; aop_incr := fusion_atomic32_incr; aop_dec := fusion_atomic32_dec; aop_decr := fusion_atomic32_decr;
  aop_add := fusion_atomic32_add; aop_add_return := fusion_atomic32_add_return; aop_sub := fusion_atomic32_sub;
  aop_exchange := fusion_atomic32_exchange
|}.

#[export] Instance ppc32_laws : AtomicLaws 32 ppc32.
Proof. by split. Qed.

(** ** Bits *)

Definition ppc_mask (v : Z) : Z := u32 (Z.shiftl 1 (Z.land v 31)).
Definition ppc_or (x mask : Z) : Z := Z.lor x mask.
Definition ppc_andc (x mask : Z) : Z := Z.ldiff x mask.

Definition fio_test_bit_atomic (v x : Z) : bool := negb (Z.land (ppc_mask v) x =? 0).
Definition fio_set_bit_atomic (v x : Z) : Z := ppc_or x (ppc_mask v).
Definition fio_clear_bit_atomic (v x : Z) : Z := ppc_andc x (ppc_mask v).

(** [old] is the word before the operation; the result, and the new word. *)
Definition fio_test_and_set_bit_atomic (v x : Z) : bool * Z :=
  let old := x in (negb (Z.land old (u32 (Z.lnot (ppc_mask v))) =? 0), ppc_or x (ppc_mask v)).
Definition fio_test_and_clear_bit_atomic (v x : Z) : bool * Z :=
  let old := x in (negb (Z.land old (u32 (Z.lnot (ppc_mask v))) =? 0), ppc_andc x (ppc_mask v)).

(** The mask is of 32 bits, and shifted by up to 63. *)
Definition fio_clear_bit_atomic64 (v x : Z) : outcome Z :=
  if Z.land v 63 <? 32 then Ok (ppc_andc x (u32 (Z.shiftl 1 (Z.land v 63)))) else Fault BadShift.
