(* ===== verification/ArchSpec.v ===== *)
(** * Atomic and bit operations: theorems

    All implementations do what the headers say; what follows for the threads that
    use them; where the bit operations of one compiler or processor differ. *)
From S2P Require Import Prelude Bits ArchOps.
From S2P Require ArchMsc ArchGcc ArchAsm ArchPpc.

(** ** The implementations *)

Inductive implementation := Msc32 | Msc64 | Gcc32 | Gcc64 | Asm32 | Asm64 | Ppc32.

Definition width (I : implementation) : Z :=
  match I with Msc32 | Gcc32 | Asm32 | Ppc32 => 32 | Msc64 | Gcc64 | Asm64 => 64 end.

Definition ops (I : implementation) : AtomicOps :=
  match I with
  | Msc32 => ArchMsc.msc32 | Msc64 => ArchMsc.msc64
  | Gcc32 => ArchGcc.gcc32 | Gcc64 => ArchGcc.gcc64
  | Asm32 => ArchAsm.asm32 | Asm64 => ArchAsm.asm64
  | Ppc32 => ArchPpc.ppc32
  end.

Definition cas_ops (I : implementation) : option CasOps :=
  match I with
  | Msc32 => Some ArchMsc.msc32_cas | Msc64 => Some ArchMsc.msc64_cas
  | Gcc32 => Some ArchGcc.gcc32_cas | Gcc64 => Some ArchGcc.gcc64_cas
  | Asm32 => Some ArchAsm.asm32_cas | Asm64 => Some ArchAsm.asm64_cas
  | Ppc32 => None
  end.

#[export] Instance ops_laws I : AtomicLaws (width I) (ops I).
Proof.
  destruct I; [apply ArchMsc.msc32_laws|apply ArchMsc.msc64_laws|apply ArchGcc.gcc32_laws|apply ArchGcc.gcc64_laws
              |apply ArchAsm.asm32_laws|apply ArchAsm.asm64_laws|apply ArchPpc.ppc32_laws].
Qed.

Lemma cas_ops_laws I o : cas_ops I = Some o → CasLaws (width I) o.
Proof.
  destruct I; intros [= <-];
    [apply ArchMsc.msc32_cas_laws|apply ArchMsc.msc64_cas_laws|apply ArchGcc.gcc32_cas_laws
    |apply ArchGcc.gcc64_cas_laws|apply ArchAsm.asm32_cas_laws|apply ArchAsm.asm64_cas_laws].
Qed.

Lemma width_pos I : 1 < width I.
Proof. by destruct I. Qed.

(** C25: The functions made of Microsoft's intrinsics and those made of x86
    instructions are atomic operations for 32 and for 64 bits as the headers
    describe them: on every value of the type, each stores and returns the sum, the
    difference, the exchanged value or the result of the comparison, wrapped to the
    width.  Subtraction with a result is a function for Microsoft's compiler and
    subtracts on every value; in the assembly it is a macro, which subtracts its
    argument exactly when the sign that it puts before the first operand of the
    argument negates the whole. *)
Theorem atomics_agree :
  (AtomicLaws 32 ArchMsc.msc32 ∧ CasLaws 32 ArchMsc.msc32_cas ∧ AtomicLaws 64 ArchMsc.msc64 ∧ CasLaws 64 ArchMsc.msc64_cas)
  ∧ (AtomicLaws 32 ArchAsm.asm32 ∧ CasLaws 32 ArchAsm.asm32_cas ∧ AtomicLaws 64 ArchAsm.asm64 ∧ CasLaws 64 ArchAsm.asm64_cas)
  ∧ (∀ v n, ArchMsc.fusion_atomic32_sub_return v n = reference_sub_return 32 v n
            ∧ ArchMsc.fusion_atomic64_sub_return v n = reference_sub_return 64 v n)
  ∧ ∀ v e,
      (ArchAsm.fusion_atomic32_sub_return v e = reference_sub_return 32 v (ArchAsm.argument_value e)
       ↔ s32 (ArchAsm.minus_argument e) = s32 (- ArchAsm.argument_value e))
      ∧ (ArchAsm.fusion_atomic64_sub_return v e = reference_sub_return 64 v (ArchAsm.argument_value e)
         ↔ s64 (ArchAsm.minus_argument e) = s64 (- ArchAsm.argument_value e)).
Proof.
  split; [exact (conj (ops_laws Msc32) (conj (cas_ops_laws Msc32 _ eq_refl) (conj (ops_laws Msc64) (cas_ops_laws Msc64 _ eq_refl))))|].
  split; [exact (conj (ops_laws Asm32) (conj (cas_ops_laws Asm32 _ eq_refl) (conj (ops_laws Asm64) (cas_ops_laws Asm64 _ eq_refl))))|].
  split.
  - intros v n. split; [apply ArchMsc.msc32_sub_return|apply ArchMsc.msc64_sub_return].
  - intros v e. split; [apply ArchAsm.asm32_sub_return|apply ArchAsm.asm64_sub_return].
Qed.

(** A single term is subtracted; of a sum or difference only the first term. *)
Lemma sub_return_of_terms v a b :
  ArchAsm.fusion_atomic32_sub_return v (ArchAsm.Term a) = reference_sub_return 32 v a
  ∧ ArchAsm.fusion_atomic32_sub_return v (ArchAsm.Sum a b) = ArchAsm.fusion_atomic32_add_return v (s32 (b - a))
  ∧ ArchAsm.fusion_atomic32_sub_return v (ArchAsm.Difference a b) = ArchAsm.fusion_atomic32_add_return v (s32 (- a - b)).
Proof.
  split; [by apply (ArchAsm.asm32_sub_return v (ArchAsm.Term a))|].
  unfold ArchAsm.fusion_atomic32_sub_return, ArchAsm.minus_argument. simpl. split; do 2 f_equal; lia.
Qed.

Example sub_return_wrong :
  (ArchAsm.fusion_atomic32_sub_return 10 (ArchAsm.Sum 3 1)).1 = 8 ∧ 10 - ArchAsm.argument_value (ArchAsm.Sum 3 1) = 6.
Proof. by vm_compute. Qed.

Lemma zsum_permutation {A} (f : A → Z) l l' : l ≡ₚ l' → zsum f l = zsum f l'.
Proof. unfold zsum. induction 1; simpl; lia. Qed.

(** ** Threads at one word *)

(** A call of one of the operations. *)
Inductive call :=
| Inc | Dec | Add (n : Z) | Sub (n : Z)
| Incr | Decr | AddReturn (n : Z) | Exchange (n : Z)
| Cas (old new : Z) | CasBool (old new : Z).

(** The result, if the operation has one, and the new value; [None] when the
    implementation has no such operation. *)
Definition run_call (I : implementation) (c : call) (v : Z) : option (list Z * Z) :=
  let value '(r, v') := ([r], v') in
  match c with
  | Inc => Some ([], aop_inc (ops I) v)
  | Dec => Some ([], aop_dec (ops I) v)
  | Add n => Some ([], aop_add (ops I) v n)
  | Sub n => Some ([], aop_sub (ops I) v n)
  | Incr => Some (value (aop_incr (ops I) v))
  | Decr => Some (value (aop_decr (ops I) v))
  | AddReturn n => Some (value (aop_add_return (ops I) v n))
  | Exchange n => Some (value (aop_exchange (ops I) v n))
  | Cas old new => o ← cas_ops I; Some (value (aop_cas o v old new))
  | CasBool old new => o ← cas_ops I; Some (value (aop_cas_bool o v old new))
  end.

(** Each thread has the calls that it is still to make and the results that it got,
    oldest first. *)
Abbreviation pool := (list (list call * list Z)).

Definition start (progs : list (list call)) : pool := (λ p, (p, [])) <$> progs.
Definition ended (ps : pool) : Prop := Forall (λ p, p.1 = []) ps.
Definition pending (ps : pool) : list call := concat (fst <$> ps).
Definition results (ps : pool) : list Z := concat (snd <$> ps).

(** Any thread may be next; its operation is one access to the word. *)
Inductive pool_step (I : implementation) : Z * pool → Z * pool → Prop :=
| pool_call v ps t c cs rs r v' :
    ps !! t = Some (c :: cs, rs) → run_call I c v = Some (r, v') →
    pool_step I (v, ps) (v', <[t := (cs, rs ++ r)]> ps).

(** The calls one after the other. *)
Fixpoint run_calls (I : implementation) (cs : list call) (v : Z) : option (list Z * Z) :=
  match cs with
  | [] => Some ([], v)
  | c :: cs => '(r, v) ← run_call I c v; '(rs, v) ← run_calls I cs v; Some (r ++ rs, v)
  end.

Lemma concat_insert {A B} (f : A → list B) l t x x' rest :
  l !! t = Some x → f x ≡ₚ rest ++ f x' → concat (f <$> l) ≡ₚ rest ++ concat (f <$> <[t := x']> l).
Proof.
  revert t. induction l as [|y l IH]; intros [|t] Ht Hx; simplify_eq/=; [by rewrite Hx, (assoc_L (++))|].
  rewrite (IH t Ht Hx), !(assoc_L (++)). f_equiv. apply Permutation_app_comm.
Qed.

(** An execution is a sequence of the threads' calls. *)
Lemma pool_sequence I v ps v' ps' :
  rtc (pool_step I) (v, ps) (v', ps') →
  ∃ cs rs, pending ps ≡ₚ cs ++ pending ps' ∧ run_calls I cs v = Some (rs, v') ∧ results ps' ≡ₚ results ps ++ rs.
Proof.
  remember (v, ps) as x eqn:Ex. remember (v', ps') as y eqn:Ey. intros R. revert v ps Ex v' ps' Ey.
  induction R as [x|x y z Hs R IH]; intros v ps -> v' ps' E.
  { simplify_eq. exists [], []. by rewrite app_nil_r. }
  subst z. inversion Hs as [v0 ps0 t c cs rs r v1 Ht Er]; subst.
  destruct (IH _ _ eq_refl _ _ eq_refl) as (l & rs' & P & E & Q). exists (c :: l), (r ++ rs').
  split_and!.
  - unfold pending. rewrite (concat_insert fst ps t _ (cs, rs ++ r) [c] Ht) by done. by rewrite P.
  - simpl. rewrite Er. simpl. by rewrite E.
  - rewrite Q. unfold results. rewrite (assoc_L (++)). f_equiv.
    rewrite (concat_insert snd (<[t := (cs, rs ++ r)]> ps) t (cs, rs ++ r) (c :: cs, rs) r).
    + rewrite list_insert_insert_eq, list_insert_id by done. apply Permutation_app_comm.
    + apply list_lookup_insert_eq. by eapply lookup_lt_Some.
    + apply Permutation_app_comm.
Qed.

Lemma pending_start progs : pending (start progs) = concat progs.
Proof. unfold pending, start. rewrite <- list_fmap_compose. by rewrite list_fmap_id. Qed.

Lemma results_start progs : results (start progs) = [].
Proof. unfold results, start. by induction progs. Qed.

Lemma pending_ended ps : ended ps → pending ps = [].
Proof. induction 1 as [|p ps Hp _ IH]; [done|]. unfold pending in *. simpl. by rewrite Hp. Qed.

Section word.
Context (I : implementation).
#[local] Abbreviation w := (width I).
Let Hw : 1 < w := width_pos I.
Implicit Types (v n : Z).

(** What a call adds to the word. *)
Definition amount (c : call) : Z :=
  match c with Inc | Incr => 1 | Dec | Decr => -1 | Add n | AddReturn n => n | Sub n => - n | _ => 0 end.
Definition counting (c : call) : Prop :=
  match c with
  | Inc | Incr | Dec | Decr => True | Add n | AddReturn n | Sub n => in_s w n | _ => False
  end.

Lemma run_counting c v :
  counting c → in_s w v → ∃ r, run_call I c v = Some (r, wraps w (v + amount c)).
Proof.
  intros Hc Hv. destruct c; try done; simpl in *;
    rewrite ?law_inc, ?law_dec, ?law_add, ?law_sub, ?law_incr, ?law_decr, ?law_add_return by done; simpl;
    eexists; do 2 f_equal; try done.
Qed.

Lemma run_all_counting cs v rs v' :
  Forall counting cs → in_s w v → run_calls I cs v = Some (rs, v') → v' = wraps w (v + zsum amount cs).
Proof.
  intros Hcs. revert v rs. induction Hcs as [|c cs Hc Hcs IH]; intros v rs Hv; simpl.
  { intros [= _ <-]. unfold zsum. simpl. by rewrite Z.add_0_r, wraps_small by (done || lia). }
  destruct (run_counting c v Hc Hv) as [r ->]. simpl.
  destruct (run_calls I cs _) as [[rs' v1]|] eqn:E; simpl; [|done]. intros [= _ <-].
  rewrite (IH _ _ (wraps_range w _ ltac:(lia)) E), wraps_add_l by lia. f_equal. lia.
Qed.

(** One call after the other of a counter that does not wrap. *)
Lemma run_decrs k v :
  in_s w v → in_s w (v - Z.of_nat k) →
  run_calls I (replicate k Decr) v = Some ((λ i, v - 1 - i) <$> seqZ 0 (Z.of_nat k), v - Z.of_nat k).
Proof.
  revert v. induction k as [|k IH]; intros v Hv Hk; simpl; [by rewrite Z.sub_0_r|].
  assert (in_s w (v - 1)) as Hv1 by (unfold in_s in *; lia).
  rewrite law_decr by done. simpl. rewrite (wraps_small w (v - 1)) by (done || lia).
  rewrite IH by (try done; unfold in_s in *; lia). simpl.
  rewrite (seqZ_cons 0 (Z.of_nat (S k))) by lia. rewrite fmap_cons.
  do 2 f_equal; [|lia]. f_equal; [lia|].
  replace (Z.pred (Z.of_nat (S k))) with (Z.of_nat k) by lia.
  assert (seqZ (Z.succ 0) (Z.of_nat k) = Z.add 1 <$> seqZ 0 (Z.of_nat k)) as -> by by rewrite fmap_add_seqZ.
  rewrite <- list_fmap_compose. apply list_fmap_ext. intros i x _. simpl. lia.
Qed.

Lemma all_equal {A} (a : A) l : Forall (λ x, x = a) l → l = replicate (length l) a.
Proof. induction 1 as [|x l -> _ IH]; simpl; [done|]. by rewrite <- IH. Qed.

Lemma countdown_perm k : (λ i, Z.of_nat k - 1 - i) <$> seqZ 0 (Z.of_nat k) ≡ₚ seqZ 0 (Z.of_nat k).
Proof.
  apply NoDup_Permutation.
  - apply NoDup_fmap_2; [intros x y E; lia|apply NoDup_seqZ].
  - apply NoDup_seqZ.
  - intros x. rewrite list_elem_of_fmap. setoid_rewrite elem_of_seqZ. split; [intros (y & -> & Hy); lia|].
    intros Hx. exists (Z.of_nat k - 1 - x). lia.
Qed.

(** *** Threads that try to replace one value *)

(** Until one call succeeded nothing has changed; from then on the word has the
    winner's value, and everyone else is told 0. *)
Definition contested (old : Z) (news : list Z) (s : Z * pool) : Prop :=
  s = (old, start ((λ n, [CasBool old n]) <$> news))
  ∨ ∃ t n, news !! t = Some n ∧ s.1 = n ∧ length s.2 = length news
      ∧ ∀ u nu, news !! u = Some nu →
          (u ≠ t ∧ s.2 !! u = Some ([CasBool old nu], [])) ∨ s.2 !! u = Some ([], [if decide (u = t) then 1 else 0]).

Lemma contested_step old news s s' :
  in_s w old → Forall (λ n, in_s w n ∧ n ≠ old) news → contested old news s → pool_step I s s' → contested old news s'.
Proof.
  intros Ho Hn Hc Hs. destruct Hs as [v ps t c cs rs r v' Ht Er].
  destruct Hc as [[= -> ->]|(t0 & n0 & Hn0 & Hv & Hl & Hall)].
  - unfold start in *. rewrite <- list_fmap_compose, list_lookup_fmap in Ht.
    destruct (news !! t) as [n|] eqn:Hnt; simplify_eq/=.
    pose proof (proj1 (Forall_lookup _ _) Hn t n Hnt) as [Hin Hne].
    destruct (cas_ops I) as [o|] eqn:Eo; simplify_eq/=. pose proof (cas_ops_laws I o Eo) as Hl.
    rewrite law_cas_bool in Er by done. simpl in Er. rewrite Z.eqb_refl in Er. simplify_eq/=.
    right. exists t, v'. split_and!; try done; [simpl; by rewrite length_insert, !length_fmap|].
    intros u nu Hu. simpl. destruct (decide (u = t)) as [->|Hut].
    + right. rewrite list_lookup_insert_eq; [done|]. rewrite !length_fmap. by eapply lookup_lt_Some.
    + left. split; [done|]. rewrite list_lookup_insert_ne, <- list_fmap_compose, list_lookup_fmap, Hu by done. done.
  - simpl in *. subst v. assert (∃ nt, news !! t = Some nt) as [nt Hnt].
    { apply lookup_lt_is_Some_2. rewrite <- Hl. by eapply lookup_lt_Some. }
    destruct (Hall t nt Hnt) as [[Hne E]|E]; rewrite Ht in E; simplify_eq/=.
    pose proof (proj1 (Forall_lookup _ _) Hn t nt Hnt) as [Hin _].
    pose proof (proj1 (Forall_lookup _ _) Hn t0 n0 Hn0) as [Hin0 Hne0].
    destruct (cas_ops I) as [o|] eqn:Eo; simplify_eq/=. pose proof (cas_ops_laws I o Eo) as Hlw.
    rewrite law_cas_bool in Er by done. simpl in Er. rewrite (proj2 (Z.eqb_neq n0 old)) in Er by done. simplify_eq/=.
    right. exists t0, v'. split_and!; try done; [simpl; by rewrite length_insert|].
    intros u nu Hu. simpl. destruct (decide (u = t)) as [->|Hut].
    + right. rewrite list_lookup_insert_eq by by eapply lookup_lt_Some. by rewrite decide_False.
    + rewrite list_lookup_insert_ne by done. by apply Hall.
Qed.

Lemma contested_run old news s s' :
  in_s w old → Forall (λ n, in_s w n ∧ n ≠ old) news → contested old news s → rtc (pool_step I) s s' → contested old news s'.
Proof. intros Ho Hn Hc R. induction R; [done|]. eauto using contested_step. Qed.

(** C26: Threads that share a word, with any of the seven implementations, each
    operation being one access, in every interleaving, once all calls are made.
    (1) When all calls count up or down, the word has changed by the sum of their
    amounts, modulo the width, whatever the order.  (2) When all are [Decr] and as many
    as the counter says, the counter is 0 and the results are the numbers below it,
    each once: exactly one caller is told 0.  (3) When each thread makes one attempt to
    replace the same old value by a new one, exactly one thread is told 1, the word has
    its value, and all others are told 0. *)
Theorem word_shared progs v v' ps :
  in_s w v → rtc (pool_step I) (v, start progs) (v', ps) → ended ps →
  (Forall counting (concat progs) → v' = wraps w (v + zsum amount (concat progs)))
  ∧ (Forall (λ c, c = Decr) (concat progs) → v = Z.of_nat (length (concat progs)) →
     v' = 0 ∧ results ps ≡ₚ seqZ 0 v)
  ∧ (∀ news, progs = (λ n, [CasBool v n]) <$> news → news ≠ [] → Forall (λ n, in_s w n ∧ n ≠ v) news →
     ∃ t n, news !! t = Some n ∧ v' = n
       ∧ ∀ u nu, news !! u = Some nu → ps !! u = Some ([], [if decide (u = t) then 1 else 0])).
Proof.
  intros Hv R He. destruct (pool_sequence I v _ v' ps R) as (cs & rs & P & E & Q).
  rewrite pending_start, (pending_ended ps He), app_nil_r in P. rewrite results_start in Q. simpl in Q.
  split_and!.
  - intros Hc. rewrite P in Hc. rewrite (run_all_counting cs v rs v' Hc Hv E).
    by rewrite (zsum_permutation amount _ _ P).
  - intros Hc Hk. rewrite P in Hc. rewrite (Permutation_length P) in Hk.
    rewrite (all_equal Decr cs Hc), run_decrs in E.
    + injection E as <- <-. split; [lia|]. rewrite Q, <- Hk. rewrite Hk at 1. rewrite Hk. apply countdown_perm.
    + done.
    + rewrite Hk, Z.sub_diag. unfold in_s. lia.
  - intros news -> Hne Hnews.
    destruct (contested_run v news _ _ Hv Hnews (or_introl eq_refl) R) as [[= -> ->]|(t & n & Ht & Hn & _ & Hall)].
    { exfalso. destruct news as [|n news]; [done|]. unfold ended, start in He. simpl in He.
      by apply list.Forall_cons in He as [He _]. }
    exists t, n. split_and!; [done|done|]. intros u nu Hu. destruct (Hall u nu Hu) as [[_ E1]|E1]; [|done].
    exfalso. simpl in E1. by apply (proj1 (Forall_lookup _ _) He) in E1.
Qed.
End word.

(** Three threads count a word of the assembly down from 3 in the order 1, 0, 2. *)
Lemma word_shared_witness :
  ∃ ps, rtc (pool_step Asm32) (3, start [[Decr]; [Decr]; [Decr]]) (0, ps) ∧ results ps ≡ₚ [0; 1; 2].
Proof.
  assert (∃ ps, rtc (pool_step Asm32) (3, start [[Decr]; [Decr]; [Decr]]) (0, ps) ∧ ended ps) as (ps & R & He).
  { eexists. split.
    - eapply rtc_l; [by eapply (pool_call Asm32 _ _ 1)|]. eapply rtc_l; [by eapply (pool_call Asm32 _ _ 0)|].
      eapply rtc_l; [by eapply (pool_call Asm32 _ _ 2)|]. apply rtc_refl.
    - repeat constructor. }
  exists ps. split; [exact R|].
  destruct (word_shared Asm32 [[Decr]; [Decr]; [Decr]] 3 0 ps ltac:(by vm_compute) R He) as (_ & H2 & _).
  by destruct H2 as [_ H2]; [repeat constructor|done|].
Defined.

(** ** Bits of a word *)

Lemma testbit_set b x j : 0 <= b → 0 <= j → Z.testbit (set_bit_at b x) j = (j =? b) || Z.testbit x j.
Proof.
  intros Hb Hj. unfold set_bit_at. rewrite Z.lor_spec, Z.shiftl_1_l, Z.pow2_bits_eqb, (Z.eqb_sym b) by lia.
  by rewrite orb_comm.
Qed.

Lemma testbit_clear b x j : 0 <= b → 0 <= j → Z.testbit (clear_bit_at b x) j = negb (j =? b) && Z.testbit x j.
Proof.
  intros Hb Hj. unfold clear_bit_at. rewrite Z.ldiff_spec, Z.shiftl_1_l, Z.pow2_bits_eqb, (Z.eqb_sym b) by lia.
  by rewrite andb_comm.
Qed.

Lemma mask_31 v : 0 <= v < 32 → u32 (Z.shiftl 1 (Z.land v 31)) = 2 ^ v.
Proof.
  intros Hv. change 31 with (Z.ones 5). rewrite Z.land_ones by lia. change (2 ^ 5) with 32. rewrite Z.mod_small by lia.
  rewrite Z.shiftl_1_l. apply wrapu_small. unfold in_u. split; [apply Z.pow_nonneg; lia|]. apply Z.pow_lt_mono_r; lia.
Qed.

Lemma land_pow2_testbit v x : 0 <= v → negb (Z.land (2 ^ v) x =? 0) = Z.testbit x v.
Proof.
  intros Hv. destruct (Z.testbit x v) eqn:E.
  - apply negb_true_iff, Z.eqb_neq. intros E0. apply (f_equal (λ z, Z.testbit z v)) in E0.
    rewrite Z.land_spec, Z.pow2_bits_true, E, Z.bits_0 in E0 by done. done.
  - apply negb_false_iff, Z.eqb_eq, Z.bits_inj'. intros n Hn.
    rewrite Z.land_spec, Z.bits_0. destruct (Z.eq_dec n v) as [->|Hne]; [by rewrite E, andb_false_r|].
    by rewrite Z.pow2_bits_false.
Qed.

Lemma test_masked_in_word i v ws x :
  ws !! Z.to_nat i = Some x → 0 <= v < 32 → ArchAsm.test_masked i v ws = Ok (Z.testbit x v).
Proof.
  intros E Hv. unfold ArchAsm.test_masked. rewrite E. simpl. rewrite mask_31 by done. by rewrite land_pow2_testbit by lia.
Qed.

Lemma bt_in_word constant f i v ws : 0 <= i → 0 <= v < 32 → ArchAsm.bt constant f i v ws = reference_bit f i v ws.
Proof. intros Hi Hv. unfold ArchAsm.bt. case_match; [by apply bt_imm_in_word|by apply bt_reg_in_word]. Qed.

(** On a bit of the word itself, number 0 to 31, the bit operations for both
    compilers, with the number in the instruction or in a register, test, set and
    clear that bit and no other, and those that return a value return the bit as it
    was; setting and clearing is seen by the test. *)
Theorem bits_of_word constant i v ws x :
  0 <= i → 0 <= v < 32 → ws !! Z.to_nat i = Some x →
  let set := <[Z.to_nat i := set_bit_at v x]> ws in
  let clear := <[Z.to_nat i := clear_bit_at v x]> ws in
  ArchAsm.fio_test_bit i v ws = Ok (Z.testbit x v) ∧ ArchMsc.fio_test_bit i v ws = Ok (Z.testbit x v)
  ∧ ArchAsm.fio_test_and_set_bit_atomic constant i v ws = Ok (Z.testbit x v, set)
  ∧ ArchMsc.fio_test_and_set_bit_atomic i v ws = Ok (Z.testbit x v, set)
  ∧ ArchAsm.fio_test_and_clear_bit_atomic constant i v ws = Ok (Z.testbit x v, clear)
  ∧ ArchMsc.fio_test_and_clear_bit_atomic i v ws = Ok (Z.testbit x v, clear)
  ∧ ArchAsm.fio_set_bit constant i v ws = Ok set ∧ ArchMsc.fio_set_bit i v ws = Ok set
  ∧ ArchAsm.fio_clear_bit constant i v ws = Ok clear ∧ ArchMsc.fio_clear_bit i v ws = Ok clear
  ∧ ArchAsm.fio_test_bit i v set = Ok true ∧ ArchAsm.fio_test_bit i v clear = Ok false
  ∧ ∀ j, 0 <= j → j ≠ v → Z.testbit (set_bit_at v x) j = Z.testbit x j ∧ Z.testbit (clear_bit_at v x) j = Z.testbit x j.
Proof.
  intros Hi Hv E set clear.
  unfold ArchAsm.fio_test_and_set_bit_atomic, ArchAsm.fio_test_and_clear_bit_atomic, ArchAsm.fio_set_bit, ArchAsm.fio_clear_bit,
    ArchMsc.fio_test_bit, ArchMsc.fio_test_and_set_bit_atomic, ArchMsc.fio_test_and_clear_bit_atomic, ArchMsc.fio_set_bit, ArchMsc.fio_clear_bit.
  rewrite !bt_in_word, !bt_reg_in_word by done. unfold reference_bit. rewrite E. simpl.
  assert (∀ y, <[Z.to_nat i := y]> ws !! Z.to_nat i = Some y) as Hy
    by (intros y; apply list_lookup_insert_eq; by eapply lookup_lt_Some).
  split_and!; try done.
  - by apply test_masked_in_word.
  - unfold ArchAsm.fio_test_bit. rewrite (test_masked_in_word i v set (set_bit_at v x)), testbit_set by (apply Hy || lia). by rewrite Z.eqb_refl.
  - unfold ArchAsm.fio_test_bit. rewrite (test_masked_in_word i v clear (clear_bit_at v x)), testbit_clear by (apply Hy || lia). by rewrite Z.eqb_refl.
  - intros j Hj Hne. rewrite testbit_set, testbit_clear by lia. by rewrite (proj2 (Z.eqb_neq j v)).
Qed.

Lemma bits_of_word_witness : ArchAsm.fio_test_and_set_bit_atomic false 1 7 [0; 0x80] = Ok (true, [0; 0x80]).
Proof.
  destruct (bits_of_word false 1 7 [0; 0x80] 0x80) as (_ & _ & E & _); [done..|]. rewrite E. by vm_compute.
Defined.

(** A number from 32 on: gcc's setting counts on into the next word, its test stays in
    this one. *)
Example set_then_test_disagree :
  (ws ← ArchAsm.fio_set_bit_atomic false 0 37 [0; 0]; ArchAsm.fio_test_bit_atomic 0 37 ws) = Ok false
  ∧ (ws ← ArchAsm.fio_set_bit_atomic false 0 37 [0; 0]; ArchAsm.fio_test_bit_atomic 0 5 ws) = Ok false
  ∧ (ws ← ArchMsc.fio_set_bit_atomic 0 37 [0; 0]; ArchMsc.fio_test_bit_atomic 0 37 ws) = Ok true.
Proof. by vm_compute. Qed.

(** ** Words of 64 bits *)

Lemma small_clear w b x : 0 <= w → 0 <= b → small w x → small w (clear_bit_at b x).
Proof.
  intros Hw Hb Hx. apply small_bits; [done|unfold clear_bit_at; apply Z.ldiff_nonneg; unfold small in Hx; lia|].
  intros i Hi. rewrite testbit_clear by lia. by rewrite (small_testbit w x i), andb_false_r.
Qed.

Lemma clear_low w b lo hi : 0 <= b < w → small w lo →
  clear_bit_at b lo + 2 ^ w * hi = clear_bit_at b (lo + 2 ^ w * hi).
Proof.
  intros Hb Hlo. apply Z.bits_inj'. intros n Hn. rewrite testbit_clear by lia.
  rewrite !testbit_fields by (try apply small_clear; lia || done). rewrite testbit_clear by lia.
  destruct (Z.ltb_spec n w); [done|]. by rewrite (proj2 (Z.eqb_neq n b)) by lia.
Qed.

Lemma clear_high w b lo hi : 0 <= w → 0 <= b → small w lo →
  lo + 2 ^ w * clear_bit_at b hi = clear_bit_at (w + b) (lo + 2 ^ w * hi).
Proof.
  intros Hw Hb Hlo. apply Z.bits_inj'. intros n Hn. rewrite testbit_clear by lia.
  rewrite !testbit_fields by done. destruct (Z.ltb_spec n w).
  - by rewrite (proj2 (Z.eqb_neq n (w + b))) by lia.
  - rewrite testbit_clear by lia. do 2 f_equal. destruct (Z.eqb_spec (n - w) b), (Z.eqb_spec n (w + b)); lia.
Qed.

(** [fio_clear_bit_atomic64]: with the number in a register, the instruction for
    32 bits clears the bit of the 64, whichever it is; as an immediate operand, the
    number is taken modulo 32, so that a constant from 32 on clears a bit of the lower
    half instead; on PowerPC the mask of such a number is a shift beyond its type. *)
Theorem clear_bit_64 v x :
  0 <= v < 64 → 0 <= x < 2 ^ 64 →
  ArchAsm.fio_clear_bit_atomic64 false v x = Ok (clear_bit_at v x)
  ∧ ArchAsm.fio_clear_bit_atomic64 true v x = Ok (clear_bit_at (v mod 32) x)
  ∧ ArchPpc.fio_clear_bit_atomic64 v x = (if v <? 32 then Ok (clear_bit_at v x) else Fault BadShift).
Proof.
  intros Hv Hx.
  assert (x mod 2 ^ 32 + 2 ^ 32 * (x / 2 ^ 32) = x) as Ex by (rewrite (Z.div_mod x (2 ^ 32)) at 3 by lia; lia).
  assert (small 32 (x mod 2 ^ 32)) as Hlo by (apply Z.mod_pos_bound; lia).
  assert (∀ b, 0 <= b < 32 → clear_bit_at b (x mod 2 ^ 32) + 2 ^ 32 * (x / 2 ^ 32) = clear_bit_at b x) as Hlow
    by (intros b Hb; by rewrite clear_low, Ex).
  split_and!.
  - unfold ArchAsm.fio_clear_bit_atomic64, bt_reg. simpl andb. cbv iota. destruct (decide (v < 32)) as [Hlt|Hge].
    + rewrite (Z.div_small v 32), (Z.mod_small v 32) by lia. simpl. by rewrite Hlow by lia.
    + assert (v / 32 = 1) as -> by (Z.to_euclidean_division_equations; lia).
      assert (v mod 32 = v - 32) as -> by (Z.to_euclidean_division_equations; lia). simpl.
      rewrite clear_high, Ex by (lia || done). do 2 f_equal. lia.
  - unfold ArchAsm.fio_clear_bit_atomic64, bt_imm. rewrite (proj2 (Z.leb_le 0 v)), (proj2 (Z.ltb_lt v 64)) by lia. simpl.
    rewrite Hlow; [done|]. apply Z.mod_pos_bound. lia.
  - unfold ArchPpc.fio_clear_bit_atomic64. change 63 with (Z.ones 6). rewrite Z.land_ones by lia.
    change (2 ^ 6) with 64. rewrite Z.mod_small by lia. destruct (Z.ltb_spec v 32); [|done].
    unfold ArchPpc.ppc_andc. rewrite wrapu_small; [done|]. rewrite Z.shiftl_1_l. split; [apply Z.pow_nonneg; lia|].
    apply Z.pow_lt_mono_r; lia.
Qed.

Lemma clear_bit_64_witness :
  ArchAsm.fio_clear_bit_atomic64 true 40 0x10000000100 = Ok 0x10000000000
  ∧ ArchAsm.fio_clear_bit_atomic64 false 40 0x10000000100 = Ok 0x100.
Proof.
  destruct (clear_bit_64 40 0x10000000100) as (-> & -> & _); [done|done|]. by vm_compute.
Defined.

(** PowerPC's test-and-set, test-and-clear: what they return is whether any other bit
    of the word was set. *)
Lemma ppc_test_and_set_other v x :
  0 <= v < 32 → 0 <= x < 2 ^ 32 →
  (ArchPpc.fio_test_and_set_bit_atomic v x).1 = negb (clear_bit_at v x =? 0)
  ∧ (ArchPpc.fio_test_and_clear_bit_atomic v x).1 = negb (clear_bit_at v x =? 0)
  ∧ ArchPpc.fio_test_bit_atomic v x = Z.testbit x v.
Proof.
  intros Hv Hx. unfold ArchPpc.fio_test_and_set_bit_atomic, ArchPpc.fio_test_and_clear_bit_atomic, ArchPpc.fio_test_bit_atomic, ArchPpc.ppc_mask.
  rewrite mask_31 by done. simpl. rewrite land_pow2_testbit by lia.
  assert (Z.land x (u32 (Z.lnot (2 ^ v))) = clear_bit_at v x) as ->; [|done].
  apply Z.bits_inj'. intros n Hn. rewrite testbit_clear, Z.land_spec by lia.
  rewrite testbit_wrapu, Z.lnot_spec, Z.pow2_bits_eqb, (Z.eqb_sym v) by lia.
  destruct (Z.ltb_spec n 32); [by rewrite andb_comm|]. rewrite (small_testbit 32 x n) by (done || lia). by destruct (n =? v).
Qed.

Example ppc_test_and_set_wrong :
  ArchPpc.fio_test_and_set_bit_atomic 0 1 = (false, 1) ∧ ArchPpc.fio_test_and_set_bit_atomic 0 2 = (true, 3).
Proof. by vm_compute. Qed.
