(* ===== verification/KHotplug.v ===== *)
(** * CPU hot-plug notifiers: khotplug.c

    Functions that are to be called when a CPU comes or goes, behind two states of the
    kernel's hot-plug machine, which are set up for the first function and removed
    after the last.  The states are set up and removed outside the lock. *)
From stdpp Require Import gmap.
From S2P Require Import Prelude.

(** ** State *)

(** A notifier function is a number.  [hp_states]: the kernel's hot-plug states, and
    for each whether it calls the driver when a CPU is online; [hp_calls]: the calls
    that the functions got, with the flag and the CPU. *)
Record hotplug := mk_hotplug {
  notify_list : list positive;
  hotplug_initialized : bool;
  cpuhp_offline_dyn_state : Z;
  cpuhp_online_dyn_state : Z;
  hp_states : gmap Z bool;
  hp_calls : list (positive * Z * Z)
}.

Implicit Types (s : hotplug) (f : positive).

Definition set_list (l : list positive) (b : bool) s : hotplug :=
  mk_hotplug l b (cpuhp_offline_dyn_state s) (cpuhp_online_dyn_state s) (hp_states s) (hp_calls s).
Definition set_states (off on : Z) (m : gmap Z bool) s : hotplug :=
  mk_hotplug (notify_list s) (hotplug_initialized s) off on m (hp_calls s).
Definition add_calls (l : list (positive * Z * Z)) s : hotplug :=
  mk_hotplug (notify_list s) (hotplug_initialized s) (cpuhp_offline_dyn_state s) (cpuhp_online_dyn_state s) (hp_states s) (hp_calls s ++ l).

Definition start : hotplug := mk_hotplug [] false 0 0 ∅ [].

(** ** Events *)

Definition send_event_all (online_flag cpu : Z) s : hotplug :=
  add_calls ((λ f, (f, online_flag, cpu)) <$> notify_list s) s.
Definition kfio_cpu_notify_offline (cpu : Z) s : hotplug := send_event_all 0 cpu s.
Definition kfio_cpu_notify_online (cpu : Z) s : hotplug := send_event_all 1 cpu s.

(** The kernel calls the driver through the states that are set up. *)
Definition cpu_event (online : bool) (cpu : Z) s : hotplug :=
  foldr (λ '(_, on) s, if Bool.eqb on online then (if on then kfio_cpu_notify_online cpu s else kfio_cpu_notify_offline cpu s) else s)
    s (map_to_list (hp_states s)).

(** ** The kernel's states

    [cpuhp_setup_state_nocalls] gives a new state, from 1 on, or an error;
    [cpuhp_remove_state_nocalls] stops the machine when it is given anything else. *)
Definition cpuhp_setup_state (online : bool) (answer : Z) (m : gmap Z bool) : gmap Z bool :=
  if 0 <? answer then <[answer := online]> m else m.
Definition cpuhp_remove_state (st : Z) (m : gmap Z bool) : outcome (gmap Z bool) :=
  if 0 <? st then Ok (delete st m) else Fault AssertFail.

(** ** Registration, in its steps *)

(** [memory]: the allocation succeeds. *)
Definition register_locked (f : positive) s : bool * hotplug :=
  (negb (hotplug_initialized s), set_list (notify_list s ++ [f]) true s).
Definition register_setup (off on : Z) s : hotplug :=
  let m := cpuhp_setup_state false off (hp_states s) in
  set_states off on (cpuhp_setup_state true on m) s.
Definition kfio_register_cpu_notifier (memory : bool) (off on : Z) f s : hotplug * Z :=
  if negb memory then (s, - ENOMEM)
  else
    let '(do_register, s) := register_locked f s in
    (if do_register then register_setup off on s else s, 0).

Fixpoint remove_first f (l : list positive) : list positive :=
  match l with
  | [] => []
  | g :: l => if bool_decide (g = f) then l else g :: remove_first f l
  end.

Definition unregister_locked f s : bool * hotplug :=
  let l := remove_first f (notify_list s) in
  let do_unregister := bool_decide (l = []) in
  (do_unregister, set_list l (if do_unregister then false else hotplug_initialized s) s).
Definition unregister_remove s : outcome hotplug :=
  m ← cpuhp_remove_state (cpuhp_online_dyn_state s) (hp_states s);
  m ← cpuhp_remove_state (cpuhp_offline_dyn_state s) m;
  Ok (set_states (cpuhp_offline_dyn_state s) (cpuhp_online_dyn_state s) m s).
Definition kfio_unregister_cpu_notifier f s : outcome hotplug :=
  let '(do_unregister, s) := unregister_locked f s in
  if do_unregister then unregister_remove s else Ok s.

(** ** Sequences of calls *)

(** [off], [on]: the states that the kernel gives, if it is asked. *)
Inductive hotplug_call :=
  | Register (memory : bool) (off on : Z) (f : positive)
  | Unregister (f : positive)
  | CpuEvent (online : bool) (cpu : Z).

Definition hotplug_step (c : hotplug_call) s : outcome hotplug :=
  match c with
  | Register memory off on f => Ok (kfio_register_cpu_notifier memory off on f s).1
  | Unregister f => kfio_unregister_cpu_notifier f s
  | CpuEvent online cpu => Ok (cpu_event online cpu s)
  end.

Fixpoint run_hotplug (cs : list hotplug_call) s : outcome hotplug :=
  match cs with
  | [] => Ok s
  | c :: cs => s ← hotplug_step c s; run_hotplug cs s
  end.

(** What the callers promise, with [l] the functions that they have registered: a
    function is unregistered that was; and the kernel gives two states when asked. *)
Definition call_ok (c : hotplug_call) (l : list positive) : Prop :=
  match c with
  | Register _ off on _ => 0 < off ∧ 0 < on ∧ off ≠ on
  | Unregister f => f ∈ l
  | CpuEvent _ _ => True
  end.

(** The functions, and the calls they are to get. *)
Definition expect (c : hotplug_call) (l : list positive) : list positive * list (positive * Z * Z) :=
  match c with
  | Register memory _ _ f => (if memory then l ++ [f] else l, [])
  | Unregister f => (remove_first f l, [])
  | CpuEvent online cpu => (l, (λ f, (f, if online then 1 else 0, cpu)) <$> l)
  end.

Fixpoint expect_all (cs : list hotplug_call) (l : list positive) : list positive * list (positive * Z * Z) :=
  match cs with
  | [] => (l, [])
  | c :: cs => let '(l, e) := expect c l in let '(l, es) := expect_all cs l in (l, e ++ es)
  end.

Fixpoint calls_ok (cs : list hotplug_call) (l : list positive) : Prop :=
  match cs with
  | [] => True
  | c :: cs => call_ok c l ∧ calls_ok cs (expect c l).1
  end.

(** ** The invariant *)

Record hotplug_inv (l : list positive) s : Prop := {
  hi_list : notify_list s = l;
  hi_initialized : hotplug_initialized s = negb (bool_decide (l = []));
  hi_states : hp_states s = if decide (l = []) then ∅
                            else {[cpuhp_offline_dyn_state s := false; cpuhp_online_dyn_state s := true]};
  hi_dyn : l ≠ [] → 0 < cpuhp_offline_dyn_state s ∧ 0 < cpuhp_online_dyn_state s
                    ∧ cpuhp_offline_dyn_state s ≠ cpuhp_online_dyn_state s
}.

Lemma hotplug_start_inv : hotplug_inv [] start.
Proof. by split. Qed.

Lemma event_once online cpu l s :
  hotplug_inv l s → cpu_event online cpu s = add_calls ((λ f, (f, if online then 1 else 0, cpu)) <$> l) s.
Proof.
  intros [Hl _ Hst Hd]. unfold cpu_event. rewrite Hst.
  destruct (decide (l = [])) as [->|Hne].
  { rewrite map_to_list_empty. destruct s. unfold add_calls. simpl. by rewrite app_nil_r. }
  destruct (Hd Hne) as (_ & _ & Hdiff). subst l.
  assert (map_to_list ({[cpuhp_offline_dyn_state s := false; cpuhp_online_dyn_state s := true]} : gmap Z bool)
          ≡ₚ [(cpuhp_offline_dyn_state s, false); (cpuhp_online_dyn_state s, true)]) as Hp.
  { rewrite map_to_list_insert by by rewrite lookup_singleton_ne. by rewrite map_to_list_singleton. }
  symmetry in Hp. apply Permutation_length_2_inv in Hp as [->| ->]; by destruct online.
Qed.

Lemma remove_first_length f l : (length (remove_first f l) <= length l)%nat.
Proof. induction l as [|g l IH]; simpl; [done|]. case_bool_decide; simpl; lia. Qed.

Lemma register_inv memory off on f l s :
  hotplug_inv l s → call_ok (Register memory off on f) l →
  hotplug_inv (expect (Register memory off on f) l).1 (kfio_register_cpu_notifier memory off on f s).1
  ∧ hp_calls (kfio_register_cpu_notifier memory off on f s).1 = hp_calls s.
Proof.
  intros [Hl Hi Hst Hd] (Hoff & Hon & Hne). simpl. unfold kfio_register_cpu_notifier. destruct memory; simpl; [|by split].
  rewrite Hi. assert (l ++ [f] ≠ []) as Hcons by by destruct l.
  destruct (decide (l = [])) as [Hnil|Hfull].
  - rewrite bool_decide_eq_true_2 by done. simpl. split; [|done]. split; simpl.
    + by rewrite Hl.
    + by rewrite bool_decide_eq_false_2.
    + rewrite decide_False by done. unfold cpuhp_setup_state. rewrite !(proj2 (Z.ltb_lt _ _)) by done.
      rewrite Hst. by rewrite insert_insert_ne.
    + done.
  - rewrite bool_decide_eq_false_2 by done. simpl. split; [|done]. split; simpl; [by rewrite Hl| | |].
    + by rewrite bool_decide_eq_false_2.
    + by rewrite decide_False.
    + auto.
Qed.

Lemma unregister_inv f l s :
  hotplug_inv l s → f ∈ l →
  ∃ s', kfio_unregister_cpu_notifier f s = Ok s' ∧ hotplug_inv (remove_first f l) s' ∧ hp_calls s' = hp_calls s.
Proof.
  intros [Hl Hi Hst Hd] Hin. unfold kfio_unregister_cpu_notifier, unregister_locked. rewrite Hl.
  assert (l ≠ []) as Hne by (intros ->; by apply not_elem_of_nil in Hin).
  destruct (Hd Hne) as (Hoff & Hon & Hdiff). rewrite decide_False in Hst by done.
  destruct (decide (remove_first f l = [])) as [E|E].
  - rewrite E. simpl. unfold unregister_remove, cpuhp_remove_state. simpl.
    rewrite !(proj2 (Z.ltb_lt _ _)) by done. simpl. eexists. split; [done|]. split; [|done].
    split; simpl; try done. rewrite Hst.
    rewrite delete_insert_ne by done. rewrite delete_singleton_eq. by rewrite delete_insert_id.
  - rewrite bool_decide_eq_false_2 by done. eexists. split; [done|]. split; [|done].
    split; simpl; try done.
    + rewrite Hi. by rewrite !bool_decide_eq_false_2.
    + by rewrite decide_False.
Qed.

Lemma hotplug_step_inv c l s :
  hotplug_inv l s → call_ok c l →
  ∃ s', hotplug_step c s = Ok s' ∧ hotplug_inv (expect c l).1 s' ∧ hp_calls s' = hp_calls s ++ (expect c l).2.
Proof.
  intros I Hc. destruct c as [memory off on f|f|online cpu]; simpl.
  - destruct (register_inv memory off on f l s I Hc) as [I' E]. eexists. split; [done|]. split; [done|]. by rewrite E, app_nil_r.
  - destruct (unregister_inv f l s I Hc) as (s' & E & I' & E'). exists s'. split; [done|]. split; [done|]. by rewrite E', app_nil_r.
  - eexists. split; [done|]. rewrite (event_once online cpu l s I). split; [|done]. destruct I. by split.
Qed.

(** C34: Calls that do not overlap, and a kernel that always gives the two states: as
    long as only registered functions are unregistered, no call asks the kernel to remove a state that it has not set up,
    the two states are set up exactly while a function is registered, and each event
    of a CPU is reported once to each registered function, in the order of their
    registration. *)
Theorem hotplug_reports cs :
  calls_ok cs [] →
  ∃ s, run_hotplug cs start = Ok s ∧ notify_list s = (expect_all cs []).1 ∧ hp_calls s = (expect_all cs []).2
    ∧ (hp_states s = ∅ ↔ notify_list s = []) ∧ (hotplug_initialized s = true ↔ notify_list s ≠ []).
Proof.
  assert (∀ l s, hotplug_inv l s → calls_ok cs l →
    ∃ s', run_hotplug cs s = Ok s' ∧ hotplug_inv (expect_all cs l).1 s' ∧ hp_calls s' = hp_calls s ++ (expect_all cs l).2) as Hrun.
  { induction cs as [|c cs IH]; intros l s I Hc; simpl.
    - exists s. split; [done|]. split; [done|]. by rewrite app_nil_r.
    - destruct Hc as [Hc Hcs]. destruct (hotplug_step_inv c l s I Hc) as (s1 & E & I1 & E1). rewrite E. simpl.
      destruct (expect c l) as [l1 e] eqn:Ee. simpl in *. destruct (IH l1 s1 I1 Hcs) as (s2 & E2 & I2 & Ec).
      exists s2. split; [done|]. destruct (expect_all cs l1) as [l2 es]. simpl in *. split; [done|].
      by rewrite Ec, E1, app_assoc. }
  intros Hc. destruct (Hrun [] start hotplug_start_inv Hc) as (s & E & [Hl Hi Hst Hd] & Ec). exists s.
  split; [done|]. split; [done|]. split; [done|]. rewrite Hl. split.
  - rewrite Hst. case_decide; split; try done. intros E0. apply (f_equal (λ m, m !! cpuhp_offline_dyn_state s)) in E0.
    by rewrite lookup_insert_eq in E0.
  - rewrite Hi. case_bool_decide; naive_solver.
Qed.

Lemma hotplug_reports_witness :
  ∃ s, run_hotplug [Register true 5 9 1; Register true 6 10 2; CpuEvent true 3; Unregister 1; CpuEvent false 4; Unregister 2] start = Ok s
    ∧ hp_calls s = [(1%positive, 1, 3); (2%positive, 1, 3); (2%positive, 0, 4)].
Proof.
  destruct (hotplug_reports [Register true 5 9 1; Register true 6 10 2; CpuEvent true 3; Unregister 1; CpuEvent false 4; Unregister 2])
    as (s & E & _ & Ec & _).
  - simpl. split_and!; try done; set_solver.
  - exists s. split; [exact E|]. rewrite Ec. by vm_compute.
Defined.

(** ** Calls that overlap

    The steps of [kfio_unregister_cpu_notifier] and [kfio_register_cpu_notifier] when
    another call comes between the lock and the states. *)

(** The last function goes, and a new one comes before the states are removed: the
    new states are removed instead of the old, and the new function is not called. *)
Definition unregister_meets_register (off on : Z) f g s : outcome hotplug :=
  let '(_, s) := unregister_locked f s in
  let '(do_register, s) := register_locked g s in
  let s := if do_register then register_setup off on s else s in
  unregister_remove s.

Example new_function_not_called :
  ∃ s, unregister_meets_register 6 10 1 2 (kfio_register_cpu_notifier true 5 9 1 start).1 = Ok s
    ∧ notify_list s = [2%positive] ∧ hotplug_initialized s = true
    ∧ cpuhp_offline_dyn_state s = 6 ∧ hp_states s = {[5 := false; 9 := true]} ∧ hp_states s !! 6 = None.
Proof. eexists. split; [vm_compute; reflexivity|]. by vm_compute. Qed.

(** A function is unregistered while the states for it are about to be set up: the
    kernel is asked to remove state 0. *)
Definition register_meets_unregister f s : outcome hotplug :=
  let '(_, s) := register_locked f s in kfio_unregister_cpu_notifier f s.

Example state_not_yet_set_up : register_meets_unregister 1 start = Fault AssertFail.
Proof. by vm_compute. Qed.

(** So it is when a function is unregistered that never was registered, and when the
    kernel had no states to give, which registering does not notice. *)
Example nothing_registered :
  kfio_unregister_cpu_notifier 1 start = Fault AssertFail
  ∧ (kfio_register_cpu_notifier true (- ENOSPC) (- ENOSPC) 1 start).2 = 0
  ∧ kfio_unregister_cpu_notifier 1 (kfio_register_cpu_notifier true (- ENOSPC) (- ENOSPC) 1 start).1 = Fault AssertFail.
Proof. by vm_compute. Qed.
