(* ===== verification/KCdev.v ===== *)
(** * The character devices: cdev.c

    A misc device of the kernel for each control device of the core: its creation and
    destruction, the wait for its file, opening by minor number, polling. *)
From stdpp Require Import gmap.
From S2P Require Import Prelude.

(** ** State *)

Definition MISC_MAJOR : Z := 10.
Definition MISC_DYNAMIC_MINOR : Z := 255.
Definition POLLIN : Z := 0x1.
Definition POLLPRI : Z := 0x2.

Record miscdevice := mk_misc { md_minor : Z; md_name : list Z }.

(** [allocated]: the memory in use; [registered]: the devices that the kernel has;
    [cdev_handles]: the device of each control device, as the core keeps it;
    [path_refs]: references to paths that were taken and not given back. *)
Record cdev_state := mk_cdev {
  allocated : gset positive;
  registered : gmap positive miscdevice;
  cdev_handles : gmap positive positive;
  path_refs : nat
}.

Implicit Types (s : cdev_state) (cdev md : positive).

(** ** Waiting for the file of a device *)

Definition UFIO_CONTROL_DEVICE_PATH : list Z := [47; 100; 101; 118; 47].
Definition UFIO_DEVICE_FILE_MAX_LEN : Z := 6 + 10.

(** [snprintf] of the path and the name into all but the last byte of the buffer. *)
Definition dev_filename (devname : list Z) : list Z :=
  take (Z.to_nat (UFIO_DEVICE_FILE_MAX_LEN - 1 - 1)) (UFIO_CONTROL_DEVICE_PATH ++ devname).

(** [kern_path i]: what the kernel's function returns the [i]th time that it is asked
    for the name; a path that it finds is held for the caller. *)
Definition coms_path_lookup (kern_path : nat → Z) (i : nat) : Z := kern_path i.

(** The number of sleeps, of 100 milliseconds each. *)
Fixpoint wait_loop (fuel : nat) (kern_path : nat → Z) (limit : Z) (i : nat) : outcome nat :=
  match fuel with
  | O => Fault NoFuel
  | S fuel =>
      if negb (coms_path_lookup kern_path i =? 0) && (Z.of_nat i <? limit)
      then wait_loop fuel kern_path limit (S i) else Ok i
  end.

(** The sleeps, and whether the warning of a timeout is printed. *)
Definition coms_wait_for_dev (timeout_secs : Z) (kern_path : nat → Z) : outcome (nat * bool) :=
  let limit := s32 (timeout_secs * 10) in
  i ← wait_loop (S (Z.to_nat limit)) kern_path limit 0;
  Ok (i, limit <=? Z.of_nat i).

(** ** Creation and destruction *)

Definition misc_dev_init (dev_name : list Z) (md : option positive) : outcome miscdevice :=
  _ ← of_option NullDeref md; Ok (mk_misc MISC_DYNAMIC_MINOR dev_name).

(** [md]: the memory that is given; [result], [minor]: what [misc_register] returns, and
    the number that it gives.  The result, and the handle that is stored. *)
Definition coms_port_cdev_create (cdev : positive) (name : list Z) (md : option positive) (result minor timeout_secs : Z)
    (kern_path : nat → Z) s : outcome (Z * cdev_state) :=
  m ← misc_dev_init name md;
  md ← of_option NullDeref md;
  if result <? 0 then Ok (result, s)
  else
    '(i, _) ← coms_wait_for_dev timeout_secs kern_path;
    let refs := if coms_path_lookup kern_path i =? 0 then S (path_refs s) else path_refs s in
    Ok (result, mk_cdev ({[md]} ∪ allocated s) (<[md := mk_misc minor (md_name m)]> (registered s))
                  (<[cdev := md]> (cdev_handles s)) refs).

Definition coms_port_cdev_destroy (cdev md : positive) s : cdev_state :=
  mk_cdev (allocated s ∖ {[md]}) (delete md (registered s)) (delete cdev (cdev_handles s)) (path_refs s).

(** ** Opening

    The core calls the function with the handle of each control device, and returns
    the first for which it returns nonzero. *)
Class CdevCore := {
  coms_port_cdev_enumerate : gmap positive positive → (option positive → Z) → option positive
}.
Class CdevCoreLaws `(CdevCore) : Prop := {
  enumerate_some h f c : coms_port_cdev_enumerate h f = Some c → ∃ md, h !! c = Some md ∧ f (Some md) ≠ 0;
  enumerate_none h f c md : coms_port_cdev_enumerate h f = None → h !! c = Some md → f (Some md) = 0
}.

(** Either pointer may be NULL. *)
Definition coms_port_cdev_has_minor (reg : gmap positive miscdevice) (port_cdev : option positive) (arg : option Z) : Z :=
  match port_cdev, arg with
  | Some md, Some minor => match reg !! md with Some m => if md_minor m =? minor then 1 else 0 | None => 0 end
  | _, _ => 0
  end.

(** The result, and the private data of the file. *)
Definition coms_control_open `{CdevCore} (major minor : Z) s : Z * option positive :=
  if negb (major =? MISC_MAJOR) then (- ENODEV, None)
  else
    match coms_port_cdev_enumerate (cdev_handles s) (λ p, coms_port_cdev_has_minor (registered s) p (Some minor)) with
    | None => (- ENODEV, None)
    | Some cdev => (0, Some cdev)
    end.

(** ** Polling

    The thread that polls is put on the queue, and then looks at the flag; the core
    sets the flag, and then wakes the queue. *)
Record poll_state := mk_poll { alerted : bool; queued : bool; woken : bool }.

Definition poll_wait (p : poll_state) : poll_state := mk_poll (alerted p) true (woken p).
Definition poll_result (p : poll_state) : Z := if alerted p then Z.lor POLLIN POLLPRI else 0.
Definition core_alert (p : poll_state) : poll_state := mk_poll true (queued p) (woken p).
Definition coms_port_cdev_wake (p : poll_state) : poll_state := mk_poll (alerted p) (queued p) (woken p || queued p).

(** The steps of the two, in the order in which they happen. *)
Inductive poll_step := PollWait | PollCheck | Alert | Wake.
Definition coms_control_ioctl_poll : list poll_step := [PollWait; PollCheck].
Definition core_event : list poll_step := [Alert; Wake].

(** The state, and what the poll returned. *)
Definition poll_exec (t : poll_step) (x : poll_state * option Z) : poll_state * option Z :=
  let '(p, r) := x in
  match t with
  | PollWait => (poll_wait p, r)
  | PollCheck => (p, Some (poll_result p))
  | Alert => (core_alert p, r)
  | Wake => (coms_port_cdev_wake p, r)
  end.

Fixpoint interleavings {A} (l : list A) : list A → list (list A) :=
  match l with
  | [] => λ l', [l']
  | a :: l => fix go l' := match l' with
                           | [] => [a :: l]
                           | b :: l'' => (cons a <$> interleavings l l') ++ (cons b <$> go l'')
                           end
  end.

(** ** Theorems *)

Lemma wait_loop_runs fuel kern_path limit i :
  0 <= limit → Z.of_nat i <= limit → limit - Z.of_nat i < Z.of_nat fuel →
  ∃ j, wait_loop fuel kern_path limit i = Ok j ∧ (i <= j)%nat ∧ Z.of_nat j <= limit
    ∧ (∀ k, (i <= k < j)%nat → kern_path k ≠ 0) ∧ (kern_path j = 0 ∨ Z.of_nat j = limit).
Proof.
  revert i. induction fuel as [|fuel IH]; intros i Hl Hi Hf; [lia|]. simpl. unfold coms_path_lookup.
  destruct (Z.eqb_spec (kern_path i) 0) as [E|E]; simpl.
  { exists i. split_and!; [done|lia|lia|lia|by left]. }
  destruct (Z.ltb_spec (Z.of_nat i) limit).
  - destruct (IH (S i)) as (j & Ej & Hij & Hjl & Hk & Hj); [lia..|]. exists j. split_and!; [done|lia|lia| |done].
    intros k Hik. destruct (decide (k = i)) as [->|]; [done|]. apply Hk. lia.
  - exists i. split_and!; [done|lia|lia|lia|right; lia].
Qed.

(** The wait for a device's file ends: after ten looks for each second of the
    timeout at the latest, or with the first look that finds it. *)
Theorem wait_bounded timeout_secs kern_path :
  0 <= timeout_secs * 10 < 2 ^ 31 →
  ∃ slept warned, coms_wait_for_dev timeout_secs kern_path = Ok (slept, warned)
    ∧ Z.of_nat slept <= timeout_secs * 10 ∧ (∀ k, (k < slept)%nat → kern_path k ≠ 0)
    ∧ (kern_path slept = 0 ∨ Z.of_nat slept = timeout_secs * 10)
    ∧ warned = bool_decide (Z.of_nat slept = timeout_secs * 10).
Proof.
  intros Ht. unfold coms_wait_for_dev. rewrite wraps_small by (unfold in_s; lia).
  destruct (wait_loop_runs (S (Z.to_nat (timeout_secs * 10))) kern_path (timeout_secs * 10) 0) as (j & E & _ & Hl & Hk & Hj); [lia..|].
  rewrite E. simpl. exists j, (timeout_secs * 10 <=? Z.of_nat j). split_and!; [done|lia| |done|].
  - intros k Hkj. apply Hk. lia.
  - destruct (Z.leb_spec (timeout_secs * 10) (Z.of_nat j)); case_bool_decide; lia.
Qed.

Lemma wait_bounded_witness : coms_wait_for_dev 1 (λ i, if decide (i < 3)%nat then - ENOENT else 0) = Ok (3%nat, false).
Proof.
  destruct (wait_bounded 1 (λ i, if decide (i < 3)%nat then - ENOENT else 0)) as (j & w & E & _); [lia|].
  rewrite E. vm_compute in E. by injection E as <- <-.
Defined.

(** Without a timeout, and when the file comes with the last look, the wait is said to
    have timed out all the same; a timeout that overflows is none. *)
Example timeout_although_found :
  coms_wait_for_dev 0 (λ _, 0) = Ok (0%nat, true)
  ∧ coms_wait_for_dev 1 (λ i, if decide (i < 10)%nat then - ENOENT else 0) = Ok (10%nat, true)
  ∧ coms_wait_for_dev (2 ^ 31 / 10 + 1) (λ _, - ENOENT) = Ok (0%nat, true).
Proof. by vm_compute. Qed.

(** The names of more than nine bytes are cut. *)
Example name_cut : length (dev_filename [102; 105; 111; 99; 111; 110; 116; 114; 111; 108]) = 14%nat.
Proof. done. Qed.

(** The memory in use is that of the devices that are registered, each of one control
    device, and their numbers differ. *)
Record cdev_inv s : Prop := {
  ci_alloc md : md ∈ allocated s ↔ is_Some (registered s !! md);
  ci_handle cdev md : cdev_handles s !! cdev = Some md → is_Some (registered s !! md);
  ci_owner md : is_Some (registered s !! md) → ∃ cdev, cdev_handles s !! cdev = Some md;
  ci_one cdev cdev' md : cdev_handles s !! cdev = Some md → cdev_handles s !! cdev' = Some md → cdev = cdev';
  ci_minor md md' m m' : registered s !! md = Some m → registered s !! md' = Some m' → md_minor m = md_minor m' → md = md'
}.

Lemma create_inv cdev name md result minor secs kern_path s s' r :
  cdev_inv s → md ∉ allocated s → cdev_handles s !! cdev = None →
  (∀ md' m, registered s !! md' = Some m → md_minor m ≠ minor) →
  coms_port_cdev_create cdev name (Some md) result minor secs kern_path s = Ok (r, s') →
  r = result ∧ cdev_inv s' ∧ (result < 0 → s' = s) ∧ (0 <= result → cdev_handles s' = <[cdev := md]> (cdev_handles s)
    ∧ registered s' = <[md := mk_misc minor name]> (registered s)).
Proof.
  intros I Hnew Hc Hm. unfold coms_port_cdev_create. simpl.
  destruct (Z.ltb_spec result 0); [intros [= <- <-]; split_and!; try done; lia|].
  destruct (coms_wait_for_dev secs kern_path) as [[i w]|]; [|done]. simpl. intros [= <- <-].
  assert (registered s !! md = None) as Hreg by (apply eq_None_not_Some; by rewrite <- (ci_alloc s I)).
  split_and!; try done; try lia. split; simpl.
  - intros k. destruct (decide (k = md)) as [->|Hne]; [rewrite lookup_insert_eq; set_solver|].
    rewrite lookup_insert_ne, <- (ci_alloc s I) by done. set_solver.
  - intros k h. destruct (decide (k = cdev)) as [->|Hne]; [rewrite lookup_insert_eq; intros [= <-]; rewrite lookup_insert_eq; eauto|].
    rewrite lookup_insert_ne by done. intros E. destruct (decide (h = md)) as [->|Hh]; [rewrite lookup_insert_eq; eauto|].
    rewrite lookup_insert_ne by done. by apply (ci_handle s I k).
  - intros h. destruct (decide (h = md)) as [->|Hh]; [exists cdev; by rewrite lookup_insert_eq|].
    rewrite lookup_insert_ne by done. intros [k Hk]%(ci_owner s I). exists k. rewrite lookup_insert_ne; [done|]. congruence.
  - assert (∀ k, cdev_handles s !! k ≠ Some md) as Hno by (intros k E; apply (ci_handle s I) in E; rewrite Hreg in E; by destruct E).
    intros k k' h. destruct (decide (k = cdev)) as [->|Hk], (decide (k' = cdev)) as [->|Hk'];
      rewrite ?lookup_insert_eq, ?lookup_insert_ne by done; try done.
    + by intros [= <-] E%Hno.
    + by intros E [= <-]; apply Hno in E.
    + apply (ci_one s I).
  - intros h h' m m'. destruct (decide (h = md)) as [->|Hh], (decide (h' = md)) as [->|Hh'];
      rewrite ?lookup_insert_eq, ?lookup_insert_ne by done; try done.
    + intros [= <-] E Heq. simpl in Heq. by apply Hm in E.
    + intros E [= <-] Heq. simpl in Heq. by apply Hm in E.
    + apply (ci_minor s I).
Qed.

Lemma destroy_inv cdev md s :
  cdev_inv s → cdev_handles s !! cdev = Some md → cdev_inv (coms_port_cdev_destroy cdev md s).
Proof.
  intros I Hc. split; simpl.
  - intros k. destruct (decide (k = md)) as [->|Hne].
    + rewrite lookup_delete_eq. split; [set_solver|by intros [? ?]].
    + rewrite lookup_delete_ne, <- (ci_alloc s I) by done. set_solver.
  - intros k h. destruct (decide (k = cdev)) as [->|Hk]; [by rewrite lookup_delete_eq|]. rewrite lookup_delete_ne by done.
    intros E. rewrite lookup_delete_ne; [by apply (ci_handle s I k)|]. intros ->. by apply Hk, (ci_one s I k cdev h).
  - intros h. destruct (decide (h = md)) as [->|Hh]; [rewrite lookup_delete_eq; by intros [? ?]|].
    rewrite lookup_delete_ne by done. intros [k Hk]%(ci_owner s I). exists k. rewrite lookup_delete_ne; [done|]. congruence.
  - intros k k' h. destruct (decide (k = cdev)) as [->|Hk]; [by rewrite lookup_delete_eq|].
    destruct (decide (k' = cdev)) as [->|Hk']; [by rewrite lookup_delete_eq|]. rewrite !lookup_delete_ne by done. apply (ci_one s I).
  - intros h h' m m'. destruct (decide (h = md)) as [->|Hh]; [by rewrite lookup_delete_eq|].
    destruct (decide (h' = md)) as [->|Hh']; [by rewrite lookup_delete_eq|]. rewrite !lookup_delete_ne by done. apply (ci_minor s I).
Qed.

(** ** Any sequence of creations and destructions *)

Inductive cdev_action :=
  | Create (cdev : positive) (name : list Z) (md : option positive) (result minor timeout_secs : Z) (kern_path : nat → Z)
  | Destroy (cdev : positive).

Definition cdev_act (t : cdev_action) s : outcome cdev_state :=
  match t with
  | Create cdev name md result minor secs kern_path => snd <$> coms_port_cdev_create cdev name md result minor secs kern_path s
  | Destroy cdev => md ← of_option NullDeref (cdev_handles s !! cdev); Ok (coms_port_cdev_destroy cdev md s)
  end.

(** The allocator and the kernel give what is not in use; the core creates a device
    once, and destroys one that it created. *)
Definition cdev_ok (t : cdev_action) s : Prop :=
  match t with
  | Create cdev _ md _ minor secs _ =>
      (∃ a, md = Some a ∧ a ∉ allocated s) ∧ cdev_handles s !! cdev = None
      ∧ (∀ a m, registered s !! a = Some m → md_minor m ≠ minor) ∧ 0 <= secs * 10 < 2 ^ 31
  | Destroy cdev => is_Some (cdev_handles s !! cdev)
  end.

Inductive cdev_reachable : cdev_state → Prop :=
  | cdev_start : cdev_reachable (mk_cdev ∅ ∅ ∅ 0)
  | cdev_next s s' t : cdev_reachable s → cdev_ok t s → cdev_act t s = Ok s' → cdev_reachable s'.

Lemma cdev_reachable_inv s : cdev_reachable s → cdev_inv s.
Proof.
  induction 1 as [|s s' t _ I Hok E].
  - split; simpl; intros *; by rewrite ?lookup_empty.
  - destruct t as [cdev name md result minor secs kern_path|cdev]; simpl in *.
    + destruct Hok as ((a & -> & Ha) & Hc & Hm & _).
      destruct (coms_port_cdev_create _ _ _ _ _ _ _ s) as [[r s1]|] eqn:Ec; [|done]. injection E as <-.
      by destruct (create_inv _ _ _ _ _ _ _ _ _ _ I Ha Hc Hm Ec) as (_ & I' & _).
    + destruct Hok as [md E']. rewrite E' in E. injection E as <-. by apply destroy_inv.
Qed.

Section opening.
Context `{CdevCoreLaws}.

(** C35: Whatever devices have been created and destroyed: a control device that can
    be created is, its memory is freed with it or when it cannot be registered, and
    opening a device number gives the control device whose number it is, and ENODEV
    when it is no device's or not of the misc class. *)
Theorem open_by_minor s :
  cdev_reachable s →
  (∀ t, cdev_ok t s → ∃ s', cdev_act t s = Ok s')
  ∧ allocated s = dom (registered s)
  ∧ (∀ cdev md m, cdev_handles s !! cdev = Some md → registered s !! md = Some m →
       coms_control_open MISC_MAJOR (md_minor m) s = (0, Some cdev))
  ∧ (∀ minor, (∀ md m, registered s !! md = Some m → md_minor m ≠ minor) → coms_control_open MISC_MAJOR minor s = (- ENODEV, None))
  ∧ (∀ major minor, major ≠ MISC_MAJOR → coms_control_open major minor s = (- ENODEV, None)).
Proof.
  intros Hr. pose proof (cdev_reachable_inv s Hr) as I.
  assert (∀ md minor, coms_port_cdev_has_minor (registered s) (Some md) (Some minor) ≠ 0
    ↔ ∃ m, registered s !! md = Some m ∧ md_minor m = minor) as Hhas.
  { intros md minor. simpl. destruct (registered s !! md) as [m|]; [|naive_solver].
    destruct (Z.eqb_spec (md_minor m) minor); naive_solver. }
  split_and!.
  - intros [cdev name md result minor secs kern_path|cdev]; simpl.
    + intros ((a & -> & _) & _ & _ & Hs). unfold coms_port_cdev_create. simpl.
      destruct (result <? 0); [by eexists|].
      destruct (wait_loop_runs (S (Z.to_nat (secs * 10))) kern_path (secs * 10) 0) as (j & E & _); [lia..|].
      unfold coms_wait_for_dev. rewrite wraps_small, E by (unfold in_s; lia). by eexists.
    + intros [md ->]. by eexists.
  - apply set_eq. intros md. by rewrite elem_of_dom, (ci_alloc s I).
  - intros cdev md m Hc Hm. unfold coms_control_open. rewrite Z.eqb_refl. simpl.
    destruct (coms_port_cdev_enumerate _ _) as [c|] eqn:E.
    + apply enumerate_some in E as (md' & Hc' & (m' & Hm' & Heq)%Hhas).
      assert (md' = md) as -> by (by apply (ci_minor s I md' md m' m)). do 2 f_equal. by apply (ci_one s I c cdev md).
    + exfalso. apply (enumerate_none _ _ cdev md) in E; [|done]. assert (coms_port_cdev_has_minor (registered s) (Some md) (Some (md_minor m)) ≠ 0); [|done].
      apply Hhas. eauto.
  - intros minor Hno. unfold coms_control_open. rewrite Z.eqb_refl. simpl.
    destruct (coms_port_cdev_enumerate _ _) as [c|] eqn:E; [|done].
    apply enumerate_some in E as (md & _ & (m & Hm & Heq)%Hhas). by apply Hno in Hm.
  - intros major minor Hne. unfold coms_control_open. by rewrite (proj2 (Z.eqb_neq _ _)).
Qed.
End opening.

(** A core that goes through its devices in some order. *)
Definition sample_cdev_core : CdevCore := {|
  coms_port_cdev_enumerate h f := fst <$> head (filter (λ p, f (Some p.2) ≠ 0) (map_to_list h))
|}.

Lemma sample_cdev_core_laws : @CdevCoreLaws sample_cdev_core.
Proof.
  split; simpl.
  - intros h f c E. destruct (filter _ _) as [|p l] eqn:El; [done|]. injection E as <-.
    assert (p ∈ filter (λ p, f (Some p.2) ≠ 0) (map_to_list h)) as Hp by (rewrite El; set_solver).
    apply list_elem_of_filter in Hp as [Hf Hp]. destruct p as [k md]. exists md. split; [by apply elem_of_map_to_list|done].
  - intros h f c md E Hc. destruct (decide (f (Some md) = 0)) as [|Hne]; [done|].
    assert ((c, md) ∈ filter (λ p, f (Some p.2) ≠ 0) (map_to_list h)) as Hp
      by (apply list_elem_of_filter; split; [done|by apply elem_of_map_to_list]).
    destruct (filter _ _); [by apply not_elem_of_nil in Hp|done].
Qed.

Definition one_device : cdev_state := mk_cdev {[4%positive]} {[4%positive := mk_misc 60 [102]]} {[1%positive := 4%positive]} 1.

Lemma one_device_reachable : cdev_reachable one_device.
Proof.
  eapply (cdev_next _ _ (Create 1 [102] (Some 4%positive) 0 60 1 (λ _, 0))); [apply cdev_start| |by vm_compute].
  simpl. split_and!; try done. exists 4%positive. split; [done|set_solver].
Qed.

Lemma open_by_minor_witness : @coms_control_open sample_cdev_core MISC_MAJOR 60 one_device = (0, Some 1%positive).
Proof.
  pose proof sample_cdev_core_laws as HL.
  destruct (@open_by_minor sample_cdev_core HL one_device one_device_reachable) as (_ & _ & H & _).
  by apply (H 1%positive 4%positive (mk_misc 60 [102])).
Defined.

(** Each creation keeps a reference to the path of the file, also when the device goes. *)
Example path_reference_kept : path_refs (coms_port_cdev_destroy 1 4 one_device) = 1%nat.
Proof. done. Qed.

(** Memory that could not be had is written to. *)
Example create_without_memory : coms_port_cdev_create 1 [102] None 0 60 1 (λ _, 0) (mk_cdev ∅ ∅ ∅ 0) = Fault NullDeref.
Proof. done. Qed.

(** No event is missed: however the steps of a poll and of an event of the core
    fall, the poll returns the event or its thread is on the queue when it is woken. *)
Theorem poll_misses_nothing l :
  l ∈ interleavings coms_control_ioctl_poll core_event →
  match foldl (flip poll_exec) (mk_poll false false false, None) l with
  | (p, Some r) => r = Z.lor POLLIN POLLPRI ∨ r = 0 ∧ woken p = true
  | (_, None) => False
  end.
Proof.
  intros Hl. apply list_elem_of_In in Hl. simpl in Hl. repeat destruct Hl as [<-|Hl]; [vm_compute; auto..|done].
Qed.

Lemma poll_misses_nothing_witness :
  [Alert; PollWait; Wake; PollCheck] ∈ interleavings coms_control_ioctl_poll core_event
  ∧ match foldl (flip poll_exec) (mk_poll false false false, None) [Alert; PollWait; Wake; PollCheck] with
    | (p, Some r) => r = Z.lor POLLIN POLLPRI ∨ r = 0 ∧ woken p = true
    | (_, None) => False
    end.
Proof.
  assert ([Alert; PollWait; Wake; PollCheck] ∈ interleavings coms_control_ioctl_poll core_event) as Hin
    by (apply list_elem_of_In; simpl; tauto).
  split; [exact Hin|]. by apply poll_misses_nothing.
Defined.

(** It would be missed if the flag were looked at first. *)
Example poll_order_matters :
  [PollCheck; Alert; Wake; PollWait] ∈ interleavings [PollCheck; PollWait] core_event
  ∧ foldl (flip poll_exec) (mk_poll false false false, None) [PollCheck; Alert; Wake; PollWait] = (mk_poll true true false, Some 0).
Proof. split; [apply list_elem_of_In; simpl; tauto|by vm_compute]. Qed.
