(* ===== verification/KWire.v ===== *)
(** * Data in the order of the card: byteswap.h, kcsr.c, unaligned.h, ioctl.h

    The card is little-endian whatever the host is.  The conversions, the access to the
    registers of the card and to the fields of its metadata, access to memory that is
    not aligned, and the numbers of the ioctls. *)
From S2P Require Import Prelude Bits.

(** ** Byte order *)

(** [FUSION_BYTE_ORDER]. *)
Inductive byte_order := Little | Big.

Definition le16toh (o : byte_order) (x : Z) : Z := match o with Little => u16 x | Big => fusion_bswap16 (u16 x) end.
Definition htole16 (o : byte_order) (x : Z) : Z := match o with Little => u16 x | Big => fusion_bswap16 (u16 x) end.
Definition le32toh (o : byte_order) (x : Z) : Z := match o with Little => u32 x | Big => fusion_bswap32 (u32 x) end.
Definition htole32 (o : byte_order) (x : Z) : Z := match o with Little => u32 x | Big => fusion_bswap32 (u32 x) end.
Definition le64toh (o : byte_order) (x : Z) : Z := match o with Little => u64 x | Big => fusion_bswap64 (u64 x) end.
Definition htole64 (o : byte_order) (x : Z) : Z := match o with Little => u64 x | Big => fusion_bswap64 (u64 x) end.

Definition fusion_card_to_host16 := le16toh.
Definition host_to_fusion_card16 := htole16.
Definition fusion_card_to_host32 := le32toh.
Definition host_to_fusion_card32 := htole32.
Definition fusion_card_to_host64 := le64toh.
Definition host_to_fusion_card64 := htole64.

(** The macros choose the conversion by the width that they are given. *)
Inductive width := W16 | W32 | W64.
Definition bytes_of (w : width) : nat := match w with W16 => 2 | W32 => 4 | W64 => 8 end.
Definition bits_of (w : width) : Z := 8 * Z.of_nat (bytes_of w).
Definition card_to_host (w : width) : byte_order → Z → Z :=
  match w with W16 => fusion_card_to_host16 | W32 => fusion_card_to_host32 | W64 => fusion_card_to_host64 end.
Definition host_to_card (w : width) : byte_order → Z → Z :=
  match w with W16 => host_to_fusion_card16 | W32 => host_to_fusion_card32 | W64 => host_to_fusion_card64 end.

(** ** Memory *)

(** How the host puts a number of [n] bytes into memory, and gets it back. *)
Definition store_order (o : byte_order) (n : nat) (v : Z) : list Z :=
  match o with Little => digits 8 n v | Big => reverse (digits 8 n v) end.
Definition load_order (o : byte_order) (bs : list Z) : Z :=
  match o with Little => fields 8 bs | Big => fields 8 (reverse bs) end.

Definition load (o : byte_order) (n addr : nat) (mem : list Z) : outcome Z :=
  if bool_decide (addr + n <= length mem)%nat then Ok (load_order o (take n (drop addr mem))) else Fault OutOfBounds.
Definition store (o : byte_order) (n addr : nat) (v : Z) (mem : list Z) : outcome (list Z) :=
  if bool_decide (addr + n <= length mem)%nat
  then Ok (take addr mem ++ store_order o n v ++ drop (addr + n) mem) else Fault OutOfBounds.

(** ** Memory that is not aligned *)

Definition get_unaligned16 o (ptr : nat) mem : outcome Z := load o 2 ptr mem.
Definition get_unaligned32 o (ptr : nat) mem : outcome Z := load o 4 ptr mem.
Definition get_unaligned64 o (ptr : nat) mem : outcome Z := load o 8 ptr mem.
Definition put_unaligned16 o (ptr : nat) (v : Z) mem : outcome (list Z) := store o 2 ptr v mem.
Definition put_unaligned32 o (ptr : nat) (v : Z) mem : outcome (list Z) := store o 4 ptr v mem.
Definition put_unaligned64 o (ptr : nat) (v : Z) mem : outcome (list Z) := store o 8 ptr v mem.

(** [size]: that of the type of the pointer.  Other sizes do not link. *)
Definition get_unaligned o (size ptr : nat) mem : outcome Z :=
  match size with
  | 1%nat => of_option OutOfBounds (mem !! ptr)
  | 2%nat => get_unaligned16 o ptr mem
  | 4%nat => get_unaligned32 o ptr mem
  | 8%nat => get_unaligned64 o ptr mem
  | _ => Fault AssertFail
  end.
Definition put_unaligned o (size ptr : nat) (v : Z) (mem : list Z) : outcome (list Z) :=
  match size with
  | 1%nat => _ ← of_option OutOfBounds (mem !! ptr); Ok (<[ptr := u8 v]> mem)
  | 2%nat => put_unaligned16 o ptr (u16 v) mem
  | 4%nat => put_unaligned32 o ptr (u32 v) mem
  | 8%nat => put_unaligned64 o ptr (u64 v) mem
  | _ => Fault AssertFail
  end.

(** ** Registers of the card *)

(** The bytes of the window into the card, and what was done to it, the oldest first. *)
Inductive csr_event := Stored (addr n : nat) | kfio_barrier.
Record csr_window := mk_csr { csr_bytes : list Z; csr_events : list csr_event }.
Implicit Types (o : byte_order) (c : csr_window).

Definition raw_read o (n addr : nat) c : outcome Z := load o n addr (csr_bytes c).
Definition raw_write o (n : nat) (val : Z) (addr : nat) c : outcome csr_window :=
  m ← store o n addr val (csr_bytes c); Ok (mk_csr m (csr_events c ++ [Stored addr n])).
Definition barrier c : csr_window := mk_csr (csr_bytes c) (csr_events c ++ [kfio_barrier]).

Definition kfio_csr_read_direct o (addr : nat) c : outcome Z := v ← raw_read o 4 addr c; Ok (fusion_card_to_host32 o v).
Definition kfio_csr_read_direct_64 o (addr : nat) c : outcome Z := v ← raw_read o 8 addr c; Ok (fusion_card_to_host64 o v).
Definition kfio_csr_write_nobarrier o (val : Z) (addr : nat) c : outcome csr_window :=
  raw_write o 4 (host_to_fusion_card32 o val) addr c.
Definition kfio_csr_write o (val : Z) (addr : nat) c : outcome csr_window :=
  c ← kfio_csr_write_nobarrier o val addr c; Ok (barrier c).
Definition kfio_csr_write_64 o (val : Z) (addr : nat) c : outcome csr_window :=
  c ← raw_write o 8 (host_to_fusion_card64 o val) addr c; Ok (barrier c).

(** ** Fields of the metadata

    The macros with a structure and a field in it: the field is a number [f] here, as
    the host sees it in memory, of the width [w].  [t]: the width of the type that is
    asked for.  The assertions of the macros are empty. *)

Definition MD_SETTER w o (v : Z) : Z := wrapu (bits_of w) (host_to_card w o v).
Definition MD_GETTER w o (t f : Z) : Z := wrapu t (card_to_host w o f).

Definition shl64 (v n : Z) : outcome Z := if (0 <=? n) && (n <? 64) then Ok (u64 (Z.shiftl v n)) else Fault BadShift.
Definition shr64 (v n : Z) : outcome Z := if (0 <=? n) && (n <? 64) then Ok (Z.shiftr v n) else Fault BadShift.
Definition NMASK (n : Z) : outcome Z := x ← shl64 1 n; Ok (u64 (x - 1)).

(** A field of [len] bits, from bit [off] on. *)
Definition MD_SETTER_BF w o (off len v f : Z) : outcome Z :=
  let val := MD_GETTER w o 64 f in
  m ← NMASK len;
  m ← shl64 m off;
  let val := Z.land val (u64 (Z.lnot m)) in
  x ← shl64 (u64 v) off;
  Ok (MD_SETTER w o (Z.lor val x)).
Definition MD_GETTER_BF w o (t off len f : Z) : outcome Z :=
  x ← shr64 (MD_GETTER w o 64 f) off;
  m ← NMASK len;
  Ok (wrapu t (Z.land x m)).

(** ** Numbers of ioctls

    The size is a [size_t]; the type and the number are [int]s. *)

Definition FIO_IOC_SIZEBITS : Z := 14.
Definition FIO_IOC_DIRBITS : Z := 2.
Definition FIO_IOC_NONE : Z := 0.
Definition FIO_IOC_WRITE : Z := 1.
Definition FIO_IOC_READ : Z := 2.
Definition FIO_IOC_NRBITS : Z := 8.
Definition FIO_IOC_TYPEBITS : Z := 8.
Definition FIO_IOC_NRMASK : Z := Z.shiftl 1 FIO_IOC_NRBITS - 1.
Definition FIO_IOC_TYPEMASK : Z := Z.shiftl 1 FIO_IOC_TYPEBITS - 1.
Definition FIO_IOC_SIZEMASK : Z := Z.shiftl 1 FIO_IOC_SIZEBITS - 1.
Definition FIO_IOC_DIRMASK : Z := Z.shiftl 1 FIO_IOC_DIRBITS - 1.
Definition FIO_IOC_NRSHIFT : Z := 0.
Definition FIO_IOC_TYPESHIFT : Z := FIO_IOC_NRSHIFT + FIO_IOC_NRBITS.
Definition FIO_IOC_SIZESHIFT : Z := FIO_IOC_TYPESHIFT + FIO_IOC_TYPEBITS.
Definition FIO_IOC_DIRSHIFT : Z := FIO_IOC_SIZESHIFT + FIO_IOC_SIZEBITS.

Definition FIO_IOC (dir type nr size : Z) : Z :=
  u64 (Z.lor (Z.lor (Z.lor (u32 (Z.shiftl dir FIO_IOC_DIRSHIFT)) (Z.shiftl type FIO_IOC_TYPESHIFT))
                    (Z.shiftl nr FIO_IOC_NRSHIFT)) (Z.shiftl size FIO_IOC_SIZESHIFT)).

Definition FIO_IO (type nr : Z) : Z := FIO_IOC FIO_IOC_NONE type nr 0.
Definition FIO_IOR (type nr size : Z) : Z := FIO_IOC FIO_IOC_READ type nr size.
Definition FIO_IOW (type nr size : Z) : Z := FIO_IOC FIO_IOC_WRITE type nr size.
Definition FIO_IOWR (type nr size : Z) : Z := FIO_IOC (Z.lor FIO_IOC_READ FIO_IOC_WRITE) type nr size.

Definition FIO_IOC_DIR (nr : Z) : Z := Z.land (Z.shiftr nr FIO_IOC_DIRSHIFT) FIO_IOC_DIRMASK.
Definition FIO_IOC_TYPE (nr : Z) : Z := Z.land (Z.shiftr nr FIO_IOC_TYPESHIFT) FIO_IOC_TYPEMASK.
Definition FIO_IOC_NR (nr : Z) : Z := Z.land (Z.shiftr nr FIO_IOC_NRSHIFT) FIO_IOC_NRMASK.
Definition FIO_IOC_SIZE (nr : Z) : Z := Z.land (Z.shiftr nr FIO_IOC_SIZESHIFT) FIO_IOC_SIZEMASK.
