(* ===== verification/KWireSpec.v ===== *)
(** * What the card sees: the properties of KWire

    Registers and fields hold the same bytes on the card whatever the order of the
    host; what is written is read back, and nothing else changes. *)
From S2P Require Import Prelude Bits KWire.

(** ** Bytes of a number *)

Lemma digits_fields w l : 0 <= w → Forall (small w) l → digits w (length l) (fields w l) = l.
Proof.
  intros Hw. induction 1 as [|a l Ha Hl IH]; [done|]. cbn [fields length digits].
  assert (2 ^ w ≠ 0) by (apply Z.pow_nonzero; lia).
  rewrite Z.mul_comm, Z.mod_add, Z.mod_small, Z.div_add, Z.div_small, Z.add_0_l, IH by (done || lia). done.
Qed.

Lemma fields_app w l l' : 0 <= w → fields w (l ++ l') = fields w l + 2 ^ (w * Z.of_nat (length l)) * fields w l'.
Proof.
  intros Hw. induction l as [|a l IH]; cbn [fields app length]; [rewrite Z.mul_0_r; change (2 ^ 0) with 1; lia|].
  rewrite IH, Nat2Z.inj_succ, Z.mul_succ_r, Z.pow_add_r by lia. lia.
Qed.

Lemma Forall_reverse_small w l : Forall (small w) l → Forall (small w) (reverse l).
Proof. by rewrite list.Forall_reverse. Qed.

Lemma bytes_range w v : Forall (small 8) (digits 8 (bytes_of w) v).
Proof. by apply digits_small. Qed.

Lemma fields_bytes w v : fields 8 (digits 8 (bytes_of w) (wrapu (bits_of w) v)) = wrapu (bits_of w) v.
Proof. apply fields_digits; [done|]. apply wrapu_range. by destruct w. Qed.

(** ** The conversions *)

Lemma swap_fields w l : Forall (small 8) l → length l = bytes_of w →
  (match w with W16 => fusion_bswap16 | W32 => fusion_bswap32 | W64 => fusion_bswap64 end) (fields 8 l) = fields 8 (reverse l).
Proof.
  intros F L. destruct w; simpl in L.
  - destruct l as [|a [|b [|? ?]]]; try discriminate. repeat (apply list.Forall_cons in F as [? F]). by apply bswap16_bytes.
  - destruct l as [|a [|b [|c [|d [|? ?]]]]]; try discriminate. repeat (apply list.Forall_cons in F as [? F]). by apply bswap32_bytes.
  - destruct l as [|a [|b [|c [|d [|e [|f [|g [|h [|? ?]]]]]]]]]; try discriminate. repeat (apply list.Forall_cons in F as [? F]). by apply bswap64_bytes.
Qed.

Lemma host_to_card_eq w o v : host_to_card w o v = card_to_host w o v.
Proof. by destruct w, o. Qed.

Lemma conversion w o v : card_to_host w o v = load_order o (digits 8 (bytes_of w) (wrapu (bits_of w) v)).
Proof.
  destruct o; simpl.
  - rewrite fields_bytes. by destruct w.
  - rewrite <- (swap_fields w) by (apply bytes_range || by rewrite length_digits). rewrite fields_bytes. by destruct w.
Qed.

Lemma load_range o l : Forall (small 8) l → in_u (8 * Z.of_nat (length l)) (load_order o l).
Proof.
  intros F. destruct o; simpl; [by apply fields_range|]. rewrite <- (length_reverse l). apply fields_range; [done|].
  by apply Forall_reverse_small.
Qed.

Lemma store_load o l : Forall (small 8) l → store_order o (length l) (load_order o l) = l.
Proof.
  intros F. destruct o; simpl; [by apply digits_fields|]. rewrite <- (length_reverse l), digits_fields; [by rewrite reverse_involutive|done|].
  by apply Forall_reverse_small.
Qed.

Lemma load_store o n v : in_u (8 * Z.of_nat n) v → load_order o (store_order o n v) = v.
Proof. intros V. destruct o; simpl; [|rewrite reverse_involutive]; by apply fields_digits. Qed.

(** What the card gets is the number, lowest byte first. *)
Lemma store_converted w o v : store_order o (bytes_of w) (host_to_card w o v) = digits 8 (bytes_of w) (wrapu (bits_of w) v).
Proof.
  rewrite host_to_card_eq, conversion. pose proof (store_load o _ (bytes_range w (wrapu (bits_of w) v))) as E.
  by rewrite length_digits in E.
Qed.

Lemma load_converted w o l : Forall (small 8) l → length l = bytes_of w → card_to_host w o (load_order o l) = fields 8 l.
Proof.
  intros F L. pose proof (load_range o l F) as R. rewrite conversion. rewrite L in R.
  rewrite wrapu_small by exact R. destruct o; simpl in *.
  - rewrite <- L, digits_fields; done.
  - rewrite <- L, <- (length_reverse l), digits_fields, reverse_involutive by (done || by apply Forall_reverse_small). done.
Qed.

Lemma converted_back w o v : card_to_host w o (host_to_card w o v) = wrapu (bits_of w) v.
Proof.
  rewrite (host_to_card_eq w o v), (conversion w o v). rewrite load_converted; [apply fields_bytes|apply bytes_range|apply length_digits].
Qed.

Lemma converted_range w o v : in_u (bits_of w) (card_to_host w o v).
Proof. rewrite conversion. pose proof (load_range o _ (bytes_range w (wrapu (bits_of w) v))) as R. by rewrite length_digits in R. Qed.

(** ** Memory *)

Lemma store_ok o n addr v mem : (addr + n <= length mem)%nat →
  store o n addr v mem = Ok (take addr mem ++ store_order o n v ++ drop (addr + n) mem).
Proof. intros H. unfold store. by rewrite bool_decide_true. Qed.

Lemma length_store_order o n v : length (store_order o n v) = n.
Proof. destruct o; simpl; rewrite ?length_reverse; apply length_digits. Qed.

(** A load of the middle of a store. *)
Lemma load_middle o n (front mid back : list Z) k :
  (k + n <= length mid)%nat →
  load o n (length front + k) (front ++ mid ++ back) = Ok (load_order o (take n (drop k mid))).
Proof.
  intros H. unfold load. rewrite bool_decide_true by (rewrite !length_app; lia).
  rewrite <- drop_drop, drop_app_length, drop_app_le, take_app_le; [done|rewrite length_drop; lia|lia].
Qed.

Lemma put_get_unaligned o n ptr v mem : (ptr + n <= length mem)%nat → in_u (8 * Z.of_nat n) v →
  ∃ mem', store o n ptr v mem = Ok mem' ∧ load o n ptr mem' = Ok v ∧ length mem' = length mem.
Proof.
  intros H V. eexists. split; [by apply store_ok|]. split.
  - pose proof (load_middle o n (take ptr mem) (store_order o n v) (drop (ptr + n) mem) 0) as E.
    rewrite length_take, Nat.min_l, Nat.add_0_r in E by lia. rewrite E by (rewrite length_store_order; lia).
    rewrite drop_0, <- (length_store_order o n v) at 1. by rewrite firstn_all, load_store.
  - rewrite !length_app, length_store_order, length_take, length_drop. lia.
Qed.

(** ** Registers *)

Lemma take_of_digits k n v : (k <= n)%nat → take k (digits 8 n v) = digits 8 k v.
Proof. revert n v. induction k as [|k IH]; intros [|n] v H; try done; [lia|]. simpl. f_equal. apply IH. lia. Qed.

Lemma drop_of_digits k n v : drop k (digits 8 (k + n) v) = digits 8 n (v / 2 ^ (8 * Z.of_nat k)).
Proof.
  revert v. induction k as [|k IH]; intros v; [by rewrite Z.div_1_r|]. simpl Nat.add. cbn [digits drop].
  rewrite IH, Zdiv.Zdiv_Zdiv by (apply Z.pow_nonneg; lia). do 2 f_equal. rewrite Nat2Z.inj_succ, Z.mul_succ_r, Z.add_comm, Z.pow_add_r by lia. lia.
Qed.

Lemma digits_mod k v : digits 8 k v = digits 8 k (v mod 2 ^ (8 * Z.of_nat k)).
Proof.
  revert v. induction k as [|k IH]; intros v; [done|]. cbn [digits].
  rewrite Nat2Z.inj_succ, Z.mul_succ_r, Z.add_comm, Z.pow_add_r by lia.
  assert (0 < 2 ^ (8 * Z.of_nat k)) by (apply Z.pow_pos_nonneg; lia).
  rewrite Z.rem_mul_r by lia. f_equal.
  - rewrite Z.mul_comm, Z.mod_add, Z.mod_mod by lia. done.
  - rewrite IH. f_equal. rewrite (Z.mul_comm (2 ^ 8)), Z.div_add, (Z.div_small (v mod 2 ^ 8)) by (done || apply Z.mod_pos_bound; lia). done.
Qed.

(** Reading [w] of what a write of more has left. *)
Lemma read_converted w o (front back : list Z) n v k :
  (k + bytes_of w <= n)%nat →
  (x ← load o (bytes_of w) (length front + k) (front ++ digits 8 n v ++ back); Ok (card_to_host w o x))
  = Ok (wrapu (bits_of w) (v / 2 ^ (8 * Z.of_nat k))).
Proof.
  intros H. rewrite load_middle by (rewrite length_digits; lia). simpl.
  replace n with (k + (n - k))%nat by lia. rewrite drop_of_digits, take_of_digits by lia.
  rewrite load_converted by (apply bytes_range || apply length_digits).
  rewrite digits_mod. f_equal. apply (fields_bytes w).
Qed.

(** C27: A register of the card holds the number that was written, its lowest byte
    first, whatever the order of the host; the bytes around it stay, a barrier follows
    the write, and the number is read back; and a register of 64 bits can be read in
    halves, the lower one first. *)
Theorem csr_access o addr c :
  (∀ v, in_u 32 v → (addr + 4 <= length (csr_bytes c))%nat →
     ∃ c', kfio_csr_write o v addr c = Ok c'
       ∧ csr_bytes c' = take addr (csr_bytes c) ++ digits 8 4 v ++ drop (addr + 4) (csr_bytes c)
       ∧ csr_events c' = csr_events c ++ [Stored addr 4; kfio_barrier]
       ∧ kfio_csr_read_direct o addr c' = Ok v)
  ∧ (∀ v, in_u 64 v → (addr + 8 <= length (csr_bytes c))%nat →
     ∃ c', kfio_csr_write_64 o v addr c = Ok c'
       ∧ csr_bytes c' = take addr (csr_bytes c) ++ digits 8 8 v ++ drop (addr + 8) (csr_bytes c)
       ∧ csr_events c' = csr_events c ++ [Stored addr 8; kfio_barrier]
       ∧ kfio_csr_read_direct_64 o addr c' = Ok v
       ∧ kfio_csr_read_direct o addr c' = Ok (v mod 2 ^ 32)
       ∧ kfio_csr_read_direct o (addr + 4) c' = Ok (v / 2 ^ 32)).
Proof.
  assert (∀ w v back, (∀ k, (k + bytes_of w <= 8)%nat → (addr <= length (csr_bytes c))%nat →
    (x ← load o (bytes_of w) (addr + k) (take addr (csr_bytes c) ++ digits 8 8 v ++ back); Ok (card_to_host w o x))
      = Ok (wrapu (bits_of w) (v / 2 ^ (8 * Z.of_nat k))))) as R.
  { intros w v back k Hk Ha. pose proof (read_converted w o (take addr (csr_bytes c)) back 8 v k Hk) as E.
    rewrite length_take, Nat.min_l in E by lia. exact E. }
  split; intros v V H.
  - unfold kfio_csr_write, kfio_csr_write_nobarrier, raw_write. rewrite store_ok by done. simpl.
    assert (store_order o 4 (host_to_fusion_card32 o v) = digits 8 4 v) as ->
      by (rewrite <- (wrapu_small 32 v V) at 2; exact (store_converted W32 o v)).
    eexists. split; [done|]. split; [done|]. split; [simpl; by rewrite <- app_assoc|].
    pose proof (read_converted W32 o (take addr (csr_bytes c)) (drop (addr + 4) (csr_bytes c)) 4 v 0 ltac:(simpl; lia)) as E.
    rewrite length_take, Nat.min_l, Z.div_1_r, Nat.add_0_r in E by lia. change (bits_of W32) with 32 in E. by rewrite wrapu_small in E.
  - unfold kfio_csr_write_64, raw_write. rewrite store_ok by done. simpl.
    assert (store_order o 8 (host_to_fusion_card64 o v) = digits 8 8 v) as ->
      by (rewrite <- (wrapu_small 64 v V) at 2; exact (store_converted W64 o v)).
    eexists. split; [done|]. split; [done|]. split; [simpl; by rewrite <- app_assoc|]. split_and!.
    + pose proof (R W64 v (drop (addr + 8) (csr_bytes c)) 0%nat ltac:(simpl; lia) ltac:(lia)) as E.
      rewrite Z.div_1_r, Nat.add_0_r in E. change (bits_of W64) with 64 in E. by rewrite wrapu_small in E.
    + pose proof (R W32 v (drop (addr + 8) (csr_bytes c)) 0%nat ltac:(simpl; lia) ltac:(lia)) as E.
      rewrite Z.div_1_r, Nat.add_0_r in E. exact E.
    + pose proof (R W32 v (drop (addr + 8) (csr_bytes c)) 4%nat ltac:(simpl; lia) ltac:(lia)) as E.
      change (8 * Z.of_nat 4) with 32 in E. change (bits_of W32) with 32 in E. rewrite wrapu_small in E; [exact E|].
      unfold in_u in *. change (2 ^ 64) with (2 ^ 32 * 2 ^ 32) in V. split; [apply Z.div_pos; lia|apply Z.div_lt_upper_bound; lia].
Qed.

Lemma csr_access_witness :
  ∃ c', kfio_csr_write Big 0x11223344 2 (mk_csr (replicate 8 0) []) = Ok c'
    ∧ csr_bytes c' = [0; 0; 0x44; 0x33; 0x22; 0x11; 0; 0] ∧ kfio_csr_read_direct Big 2 c' = Ok 0x11223344.
Proof.
  destruct (csr_access Big 2 (mk_csr (replicate 8 0) [])) as [H _].
  destruct (H 0x11223344) as (c' & E & B & _ & R); [done|simpl; lia|]. exists c'. split; [done|]. split; [by rewrite B|done].
Defined.

(** ** Fields of the metadata *)

(** The field of [len] bits from [off] on of a number, and the number with another one. *)
Definition field_at (off len x : Z) : Z := Z.land (Z.shiftr x off) (Z.ones len).
Definition with_field (off len v x : Z) : Z := Z.lor (Z.ldiff x (Z.shiftl (Z.ones len) off)) (Z.shiftl v off).

Lemma NMASK_ones n : 0 <= n < 64 → NMASK n = Ok (Z.ones n).
Proof.
  intros N. unfold NMASK, shl64. rewrite (proj2 (Z.leb_le 0 n)), (proj2 (Z.ltb_lt n 64)) by lia. simpl.
  assert (1 <= 2 ^ n < 2 ^ 64) by (split; [pose proof (Z.pow_pos_nonneg 2 n); lia|apply Z.pow_lt_mono_r; lia]).
  rewrite Z.shiftl_1_l, (wrapu_small 64 (2 ^ n)), wrapu_small by (unfold in_u; lia). by rewrite Z.ones_equiv, Z.sub_1_r.
Qed.

Lemma shl64_field off len v : 0 <= off < 64 → 0 <= len → off + len <= 64 → small len v → shl64 v off = Ok (Z.shiftl v off).
Proof.
  intros O L OL V. unfold shl64. rewrite (proj2 (Z.leb_le 0 off)), (proj2 (Z.ltb_lt off 64)) by lia. simpl.
  rewrite wrapu_small; [done|]. rewrite Z.shiftl_mul_pow2 by lia. unfold small, in_u in *.
  assert (0 < 2 ^ off) by (apply Z.pow_pos_nonneg; lia). assert (2 ^ (off + len) <= 2 ^ 64) by (apply Z.pow_le_mono_r; lia).
  rewrite Z.pow_add_r in * by lia. nia.
Qed.

Lemma card_value w o f : MD_GETTER w o 64 f = card_to_host w o f.
Proof.
  unfold MD_GETTER. apply wrapu_small. destruct (converted_range w o f) as [L U]. split; [done|].
  eapply Z.lt_le_trans; [exact U|]. apply Z.pow_le_mono_r; [done|]. by destruct w.
Qed.

Lemma getter_runs w o off len f :
  0 <= off < 64 → 0 <= len < 64 → MD_GETTER_BF w o 64 off len f = Ok (field_at off len (card_to_host w o f)).
Proof.
  intros O L. unfold MD_GETTER_BF, shr64. rewrite card_value, NMASK_ones by done.
  rewrite (proj2 (Z.leb_le 0 off)), (proj2 (Z.ltb_lt off 64)) by lia. simpl. unfold field_at. rewrite wrapu_small; [done|].
  rewrite Z.land_ones by lia. pose proof (Z.mod_pos_bound (Z.shiftr (card_to_host w o f) off) (2 ^ len) ltac:(apply Z.pow_pos_nonneg; lia)).
  split; [lia|]. eapply Z.lt_trans; [apply H|]. apply Z.pow_lt_mono_r; lia.
Qed.

Lemma field_bits off len v x i :
  0 <= off → 0 <= len → small len v → 0 <= i →
  Z.testbit (with_field off len v x) i = if (off <=? i) && (i <? off + len) then Z.testbit v (i - off) else Z.testbit x i.
Proof.
  intros O L V I. unfold with_field. rewrite Z.lor_spec, Z.ldiff_spec, !Z.shiftl_spec by lia.
  destruct (Z.leb_spec off i) as [H|H]; simpl.
  - destruct (Z.ltb_spec i (off + len)).
    + rewrite Z.ones_spec_low by lia. by rewrite andb_false_r.
    + rewrite Z.ones_spec_high, (small_testbit len v) by (done || lia). by rewrite andb_true_r, orb_false_r.
  - rewrite !(Z.testbit_neg_r _ (i - off)) by lia. by rewrite andb_true_r, orb_false_r.
Qed.

Lemma field_of_with off len v x : 0 <= off → 0 <= len → small len v → field_at off len (with_field off len v x) = v.
Proof.
  intros O L V. unfold field_at. apply Z.bits_inj'. intros i I. rewrite Z.land_spec, Z.shiftr_spec, field_bits by (done || lia).
  destruct (Z.ltb_spec (i + off) (off + len)).
  - rewrite (proj2 (Z.leb_le off (i + off))), Z.ones_spec_low, andb_true_r by lia. simpl. f_equal. lia.
  - by rewrite Z.ones_spec_high, andb_false_r, (small_testbit len v) by (done || lia).
Qed.

Lemma field_of_other off len v x off2 len2 :
  0 <= off → 0 <= len → small len v → 0 <= off2 → 0 <= len2 → off2 + len2 <= off ∨ off + len <= off2 →
  field_at off2 len2 (with_field off len v x) = field_at off2 len2 x.
Proof.
  intros O L V O2 L2 D. unfold field_at. apply Z.bits_inj'. intros i I. rewrite !Z.land_spec, !Z.shiftr_spec, field_bits by (done || lia).
  destruct (Z.ltb_spec i len2).
  - destruct (Z.leb_spec off (i + off2)), (Z.ltb_spec (i + off2) (off + len)); simpl; done || lia.
  - by rewrite Z.ones_spec_high, !andb_false_r by lia.
Qed.

Lemma with_field_range b off len v x :
  0 <= off → 0 <= len → off + len <= b → small len v → small b x → small b (with_field off len v x).
Proof.
  intros O L OL V X. apply small_bits; [lia| |].
  - unfold with_field. apply Z.lor_nonneg. split; [apply Z.ldiff_nonneg; left; apply X|apply Z.shiftl_nonneg; apply V].
  - intros i I. rewrite field_bits by (done || lia). destruct (Z.leb_spec off i), (Z.ltb_spec i (off + len)); simpl; try lia;
      by rewrite (small_testbit b x) by (done || lia).
Qed.

(** The mask is complemented on 64 bits. *)
Lemma setter_value off len v x :
  0 <= off → 0 <= len → off + len <= 64 → small len v → small 64 x →
  Z.lor (Z.land x (u64 (Z.lnot (Z.shiftl (Z.ones len) off)))) (Z.shiftl v off) = with_field off len v x.
Proof.
  intros O L OL V X. unfold with_field. f_equal. apply Z.bits_inj'. intros i I.
  rewrite Z.land_spec, Z.ldiff_spec, testbit_wrapu, Z.lnot_spec by lia. destruct (Z.ltb_spec i 64); [done|].
  by rewrite (small_testbit 64 x) by (done || lia).
Qed.

Lemma width_le w : bits_of w <= 64.
Proof. by destruct w. Qed.

(** A converted number is of the width already. *)
Lemma setter_getter w o y : in_u (bits_of w) y → in_u (bits_of w) (MD_SETTER w o y) ∧ card_to_host w o (MD_SETTER w o y) = y.
Proof.
  intros Y. unfold MD_SETTER. assert (in_u (bits_of w) (host_to_card w o y)) as R by (rewrite host_to_card_eq; apply converted_range).
  rewrite wrapu_small by exact R. split; [exact R|]. rewrite converted_back. by apply wrapu_small.
Qed.

(** C28: Setting a field of the metadata changes the bits of that field and no others:
    the value is read back, fields that do not overlap it keep theirs, and the bytes
    that the card sees are those of the number with the new field, lowest first,
    whatever the order of the host. *)
Theorem metadata_fields w o off len v f :
  0 <= off → 0 < len < 64 → off + len <= bits_of w → 0 <= v < 2 ^ len →
  ∃ f', MD_SETTER_BF w o off len v f = Ok f' ∧ in_u (bits_of w) f'
    ∧ MD_GETTER_BF w o 64 off len f' = Ok v
    ∧ (∀ off2 len2, 0 <= off2 < 64 → 0 <= len2 < 64 → off2 + len2 <= off ∨ off + len <= off2 →
         MD_GETTER_BF w o 64 off2 len2 f' = MD_GETTER_BF w o 64 off2 len2 f)
    ∧ store_order o (bytes_of w) f' = digits 8 (bytes_of w) (with_field off len v (card_to_host w o f)).
Proof.
  intros O L OL V. pose proof (width_le w) as W. pose proof (converted_range w o f) as X. set (x := card_to_host w o f) in *.
  assert (small 64 x) as X64 by (destruct X as [X0 X1]; split; [done|]; eapply Z.lt_le_trans; [exact X1|]; apply Z.pow_le_mono_r; lia).
  assert (small len (Z.ones len)) as M by (rewrite Z.ones_equiv; split; pose proof (Z.pow_pos_nonneg 2 len); lia).
  pose proof (with_field_range (bits_of w) off len v x O ltac:(lia) OL V X) as Y. set (y := with_field off len v x) in *.
  exists (MD_SETTER w o y). destruct (setter_getter w o y Y) as [R B]. split_and!; [|done| | |].
  - unfold MD_SETTER_BF. rewrite card_value, NMASK_ones by lia. cbn [mbind outcome_bind]. rewrite (shl64_field off len (Z.ones len)) by (done || lia). cbn [mbind outcome_bind].
    assert (u64 v = v) as ->.
    { apply wrapu_small. split; [lia|]. eapply Z.lt_trans; [apply V|]. apply Z.pow_lt_mono_r; lia. }
    rewrite (shl64_field off len v) by (done || lia). cbn [mbind outcome_bind]. by rewrite setter_value by (done || lia).
  - rewrite getter_runs by lia. rewrite B. unfold y. by rewrite field_of_with by (done || lia).
  - intros off2 len2 O2 L2 D. rewrite !getter_runs by done. rewrite B. unfold y. by rewrite field_of_other by (done || lia).
  - unfold MD_SETTER. rewrite (wrapu_small (bits_of w) (host_to_card w o y)) by (rewrite host_to_card_eq; apply converted_range).
    rewrite store_converted. by rewrite wrapu_small.
Qed.

Lemma metadata_fields_witness :
  ∃ f', MD_SETTER_BF W32 Big 4 8 0xAB 0x78563412 = Ok f' ∧ MD_GETTER_BF W32 Big 64 4 8 f' = Ok 0xAB
    ∧ store_order Big 4 f' = [0xB8; 0x5A; 0x34; 0x12].
Proof.
  destruct (metadata_fields W32 Big 4 8 0xAB 0x78563412) as (f' & E & _ & G & _ & S); [lia|lia|by vm_compute|by vm_compute|].
  exists f'. split; [exact E|]. split; [exact G|]. vm_compute in E. injection E as <-. by vm_compute.
Defined.

(** A value of more bits than the field runs into the next one: the assertion that
    would find it compares with another number of bits, and is empty. *)
Example value_too_wide : MD_SETTER_BF W32 Little 4 4 0x1F 0 = Ok 0x1F0 ∧ MD_GETTER_BF W32 Little 64 8 4 0x1F0 = Ok 1.
Proof. by vm_compute. Qed.

(** A field of all 64 bits has no mask: the shift is by the whole width. *)
Example whole_word : MD_SETTER_BF W64 Little 0 64 1 0 = Fault BadShift.
Proof. by vm_compute. Qed.

(** ** Numbers of ioctls *)

Lemma ioc_as_fields dir type nr size :
  small 2 dir → small 8 type → small 8 nr → small 14 size →
  FIO_IOC dir type nr size = with_field 30 2 dir (with_field 16 14 size (with_field 8 8 type nr)).
Proof.
  intros D T N S. unfold FIO_IOC. apply Z.bits_inj'. intros i I. rewrite testbit_wrapu, !Z.lor_spec, testbit_wrapu by lia.
  change FIO_IOC_DIRSHIFT with 30. change FIO_IOC_TYPESHIFT with 8. change FIO_IOC_NRSHIFT with 0. change FIO_IOC_SIZESHIFT with 16.
  rewrite !Z.shiftl_spec, Z.sub_0_r, !field_bits by (done || lia). simpl.
  assert (∀ w a j, 0 <= w → small w a → j < 0 ∨ w <= j → Z.testbit a j = false) as Out.
  { intros w a j W A [J|J]; [by apply Z.testbit_neg_r|by apply (small_testbit w)]. }
  destruct (decide (i < 8)), (decide (i < 16)), (decide (i < 30)), (decide (i < 32)); try lia;
    repeat match goal with
      |- context [?a <=? ?b] => destruct (Z.leb_spec a b); try lia; simpl
    | |- context [?a <? ?b] => destruct (Z.ltb_spec a b); try lia; simpl
    end;
    rewrite ?(Out 2 dir), ?(Out 8 type), ?(Out 8 nr), ?(Out 14 size) by (done || lia);
    rewrite ?orb_false_r, ?orb_false_l; done.
Qed.

(** The number of an ioctl has 32 bits, and gives back the direction, the type, the
    number and the size that it was made of. *)
Lemma ioctl_numbers dir type nr size :
  small 2 dir → small 8 type → small 8 nr → small 14 size →
  let n := FIO_IOC dir type nr size in
  small 32 n ∧ FIO_IOC_DIR n = dir ∧ FIO_IOC_TYPE n = type ∧ FIO_IOC_NR n = nr ∧ FIO_IOC_SIZE n = size.
Proof.
  intros D T N S n. unfold n. rewrite ioc_as_fields by done.
  change FIO_IOC_DIR with (field_at 30 2). change FIO_IOC_TYPE with (field_at 8 8).
  change FIO_IOC_NR with (field_at 0 8). change FIO_IOC_SIZE with (field_at 16 14).
  split; [|split_and!].
  - repeat (apply with_field_range; [lia..|done|]). destruct N. split; [done|lia].
  - by rewrite field_of_with.
  - rewrite (field_of_other 30 2), (field_of_other 16 14), field_of_with by (done || lia). done.
  - rewrite !field_of_other by (done || lia). unfold field_at. rewrite Z.shiftr_0_r, Z.land_ones by lia. by apply Z.mod_small.
  - rewrite (field_of_other 30 2), field_of_with by (done || lia). done.
Qed.

(** A size of 16 KiB runs into the direction; the test of sizes is disabled. *)
Example size_too_large : FIO_IOC_DIR (FIO_IOW 102 1 16384) = 1 ∧ FIO_IOC_SIZE (FIO_IOW 102 1 16384) = 0
  ∧ FIO_IOC_DIR (FIO_IOR 102 1 16384) = 3.
Proof. by vm_compute. Qed.
