(* ===== verification/KCommon.v ===== *)
(** * Small functions of the port layer: kfio_common.c, sysrq.c

    Copying of strings, names of threads, failed assertions, the division that is
    compiled where [long] has 32 bits, and the keys of the magic SysRq. *)
From stdpp Require Import gmap.
From S2P Require Import Prelude Bits Kinfo.

(** ** Strings *)

(** The kernel's [memcpy_and_pad (dest, dest_len, src, count, pad)], on the array that
    [dst] points to. *)
Definition memcpy_and_pad (dst : list Z) (dest_len : nat) (src : list Z) (count : nat) (pad : Z) : outcome (list Z) :=
  if bool_decide (dest_len <= length dst ∧ Nat.min dest_len count <= length src)%nat then
    Ok ((if bool_decide (count < dest_len)%nat then take count src ++ replicate (dest_len - count) pad else take dest_len src)
        ++ drop dest_len dst)
  else Fault OutOfBounds.

(** A C string is the characters before its zero; what is written over [dst]. *)
Definition kfio_strncpy (dst : list Z) (src : cstring) (n : nat) : outcome (list Z) :=
  let len := length src in
  let len := if bool_decide (n < len)%nat then n else len in
  memcpy_and_pad dst n src len 0.

(** The standard's [strncpy], a character at a time: characters to the end of the
    string, then zeros. *)
Fixpoint strncpy (dst : list Z) (src : cstring) (n : nat) {struct n} : outcome (list Z) :=
  match n, dst with
  | O, _ => Ok dst
  | S n, _ :: dst => r ← strncpy dst (tail src) n; Ok (default 0 (head src) :: r)
  | S _, [] => Fault OutOfBounds
  end.

(** The kernel's [strscpy_pad], which keeps the last place for the zero. *)
Definition strscpy_pad (dst : list Z) (src : cstring) (n : nat) : list Z :=
  take (n - 1) (src ++ replicate n 0) ++ [0] ++ drop n dst.

Definition copied (dst : list Z) (src : cstring) (n : nat) : outcome (list Z) :=
  if bool_decide (n <= length dst)%nat then Ok (take n src ++ replicate (n - length src) 0 ++ drop n dst) else Fault OutOfBounds.

Lemma strncpy_copied dst src n : strncpy dst src n = copied dst src n.
Proof.
  revert dst src. induction n as [|n IH]; intros dst src; [done|]. destruct dst as [|d dst]; [done|]. simpl.
  rewrite IH. unfold copied. simpl. rewrite (bool_decide_ext (S n <= S (length dst))%nat (n <= length dst)%nat) by lia.
  case_bool_decide; [|done]. destruct src as [|c src]; simpl; [|done]. by rewrite take_nil, ?Nat.sub_0_r.
Qed.

(** Copying a string is the standard function, for every length. *)
Lemma strncpy_equiv dst src n : kfio_strncpy dst src n = strncpy dst src n.
Proof.
  rewrite strncpy_copied. unfold kfio_strncpy, memcpy_and_pad, copied.
  destruct (decide (n < length src)%nat) as [L|L].
  - rewrite (bool_decide_true (n < length src)%nat), (bool_decide_false (n < n)%nat) by lia.
    rewrite (bool_decide_ext _ (n <= length dst)%nat) by lia. replace (n - length src)%nat with 0%nat by lia. done.
  - rewrite (bool_decide_false (n < length src)%nat) by lia.
    rewrite (bool_decide_ext (_ ∧ _) (n <= length dst)%nat) by lia.
    destruct (decide (length src < n)%nat) as [L2|L2].
    + rewrite (bool_decide_true (length src < n)%nat) by lia. by rewrite firstn_all, (take_ge src n), <- app_assoc by lia.
    + rewrite (bool_decide_false (length src < n)%nat) by lia. by replace (n - length src)%nat with 0%nat by lia.
Qed.

(** Of a string of just the length asked for, the kernel's function loses a character. *)
Example strscpy_drops : kfio_strncpy [0; 0; 0; 9] [97; 98; 99] 3 = Ok [97; 98; 99; 9] ∧ strscpy_pad [0; 0; 0; 9] [97; 98; 99] 3 = [97; 98; 0; 9].
Proof. by vm_compute. Qed.

(** ** Threads *)

Definition MAX_KTHREAD_NAME_LENGTH : Z := 40.
Definition MAX_ERRNO : Z := 4095.

(** A pointer of the kernel is an error when it is one of the last addresses. *)
Definition IS_ERR (ptr : Z) : bool := 2 ^ 64 - MAX_ERRNO <=? u64 ptr.
Definition PTR_ERR (ptr : Z) : Z := s64 ptr.

(** [name]: the whole text that the format stands for; [task]: what [kthread_run]
    returns.  The name that the thread gets, and the result. *)
Definition fusion_create_kthread (name : cstring) (task : Z) : cstring * Z :=
  (take (Z.to_nat MAX_KTHREAD_NAME_LENGTH - 1) name, if IS_ERR task then s32 (PTR_ERR task) else 0).

Lemma create_kthread_result name task :
  in_u 64 task →
  (fusion_create_kthread name task).2 = (if decide (2 ^ 64 - MAX_ERRNO <= task) then task - 2 ^ 64 else 0)
  ∧ (length (fusion_create_kthread name task).1 < Z.to_nat MAX_KTHREAD_NAME_LENGTH)%nat.
Proof.
  intros T. unfold fusion_create_kthread, IS_ERR. rewrite wrapu_small by exact T. simpl. split.
  - destruct (Z.leb_spec (2 ^ 64 - MAX_ERRNO) task); case_decide; try lia. unfold PTR_ERR, MAX_ERRNO in *. word_lia.
  - rewrite length_take. unfold MAX_KTHREAD_NAME_LENGTH. lia.
Qed.

(** ** Assertions *)

(** What follows a failed [kassert_release]: the driver goes on, or the kernel stops. *)
Definition __kassert_fail (make_assert_nonfatal : bool) : outcome unit :=
  if make_assert_nonfatal then Ok tt else Fault AssertFail.

(** ** Division where [long] has 32 bits *)

(** [do_div]: the quotient and the remainder by a divisor of 32 bits. *)
Definition do_div (dividend base : Z) : outcome (Z * Z) :=
  let base := u32 base in
  if base =? 0 then Fault DivByZero else Ok (dividend / base, dividend mod base).

Definition fls (x : Z) : Z := if x =? 0 then 0 else Z.log2 x + 1.

Definition kfio_div64_64 (dividend divisor : Z) : outcome Z :=
  let tmp_divisor := u32 divisor in
  let upper := u32 (Z.shiftr divisor 32) in
  let '(dividend, tmp_divisor) :=
    if negb (upper =? 0) then
      let shift := fls upper in (Z.shiftr dividend shift, u32 (Z.shiftr divisor shift))
    else (dividend, tmp_divisor) in
  '(q, _) ← do_div dividend tmp_divisor;
  Ok q.

Definition kfio_mod64_64 (dividend divisor : Z) : outcome Z := '(_, r) ← do_div dividend divisor; Ok r.

(** The shift that brings the divisor into 32 bits, its highest one set. *)
Lemma fls_shift d : 2 ^ 32 <= d < 2 ^ 64 → ∃ s, fls (Z.shiftr d 32) = s ∧ 1 <= s <= 32 ∧ 2 ^ 31 <= d / 2 ^ s < 2 ^ 32.
Proof.
  intros D. rewrite Z.shiftr_div_pow2 by lia. assert (1 <= d / 2 ^ 32 < 2 ^ 32) as U.
  { split; [apply Z.div_le_lower_bound; lia|]. apply Z.div_lt_upper_bound; [lia|]. change (2 ^ 32 * 2 ^ 32) with (2 ^ 64). lia. }
  unfold fls. rewrite (proj2 (Z.eqb_neq _ _)) by lia. destruct (Z.log2_spec (d / 2 ^ 32) ltac:(lia)) as [L1 L2].
  set (k := Z.log2 (d / 2 ^ 32)) in *. assert (0 <= k) by apply Z.log2_nonneg. exists (k + 1). split; [done|].
  assert (k < 32) as K by (apply Z.log2_lt_pow2; lia). split; [lia|].
  assert (2 ^ (k + 1) = 2 * 2 ^ k) as E by (rewrite Z.add_comm, Z.pow_add_r by lia; done).
  assert (0 < 2 ^ k) by (apply Z.pow_pos_nonneg; lia). unfold Z.succ in L2. rewrite E in *.
  pose proof (Z.div_mod d (2 ^ 32) ltac:(lia)). pose proof (Z.mod_pos_bound d (2 ^ 32) ltac:(lia)).
  change (2 ^ 32) with 4294967296 in *. change (2 ^ 31) with 2147483648.
  split; [apply Z.div_le_lower_bound; nia|apply Z.div_lt_upper_bound; nia].
Qed.

(** A quotient of numbers that have both lost their last [s] bits. *)
Lemma quotient_of_halves D d s :
  1 <= s <= 32 → 0 <= D < 2 ^ 64 → 2 ^ 31 <= d / 2 ^ s → 0 < d →
  D / d <= (D / 2 ^ s) / (d / 2 ^ s) <= D / d + 1.
Proof.
  intros S HD Hd' Hd. assert (0 < 2 ^ s) as P by (apply Z.pow_pos_nonneg; lia).
  pose proof (Z.div_mod D (2 ^ s) ltac:(lia)) as ED. pose proof (Z.mod_pos_bound D (2 ^ s) P) as RD.
  pose proof (Z.div_mod d (2 ^ s) ltac:(lia)) as Ed. pose proof (Z.mod_pos_bound d (2 ^ s) P) as Rd.
  assert (D / 2 ^ s < 2 ^ (64 - s)) as UD by (apply Z.div_lt_upper_bound; [done|]; rewrite <- Z.pow_add_r by lia; replace (s + (64 - s)) with 64 by lia; lia).
  set (D' := D / 2 ^ s) in *. set (d' := d / 2 ^ s) in *. assert (0 <= D') by (apply Z.div_pos; lia).
  assert (0 < d') as Pd by (change (2 ^ 31) with 2147483648 in *; lia). split.
  - apply Z.div_le_lower_bound; [done|]. pose proof (Z.mul_div_le D d Hd). assert (0 <= D / d) by (apply Z.div_pos; lia). nia.
  - set (q := D' / d'). assert (q * d' <= D') as Q by (pose proof (Z.mul_div_le D' d' Pd); unfold q; lia).
    assert (0 <= q) by (apply Z.div_pos; lia). assert (q < 2 ^ (33 - s)) as UQ.
    { apply Z.div_lt_upper_bound; [done|]. assert (0 < 2 ^ (33 - s)) by (apply Z.pow_pos_nonneg; lia).
      replace (64 - s) with (31 + (33 - s)) in UD by lia. rewrite Z.pow_add_r in UD by lia. nia. }
    assert (2 ^ (33 - s) * 2 ^ s = 2 ^ 33) as E33 by (rewrite <- Z.pow_add_r by lia; f_equal; lia).
    assert ((q - 1) * (2 ^ s - 1) <= d' * 2 ^ s) as B.
    { destruct (decide (s = 1)) as [->|].
      - change (2 ^ 1) with 2 in *. change (2 ^ (33 - 1)) with (2 * 2 ^ 31) in UQ. lia.
      - assert (2 ^ 2 <= 2 ^ s) by (apply Z.pow_le_mono_r; lia). change (2 ^ 2) with 4 in *.
        change (2 ^ 33) with (4 * 2 ^ 31) in E33. nia. }
    cut (q - 1 <= D / d); [lia|]. destruct (decide (q = 0)) as [->|]; [pose proof (Z.div_pos D d); lia|].
    apply Z.div_le_lower_bound; [done|]. nia.
Qed.

(** The division for machines whose [long] has 32 bits ends with the quotient when
    the divisor has at most 32 bits, and with the quotient or one more when it has
    more; only a divisor of 0 faults.  The remainder is that by the lower half of the
    divisor, and faults when this is 0. *)
Theorem division_32_bits D d :
  in_u 64 D → in_u 64 d →
  (d = 0 → kfio_div64_64 D d = Fault DivByZero)
  ∧ (0 < d < 2 ^ 32 → kfio_div64_64 D d = Ok (D / d) ∧ kfio_mod64_64 D d = Ok (D mod d))
  ∧ (2 ^ 32 <= d → ∃ q, kfio_div64_64 D d = Ok q ∧ D / d <= q <= D / d + 1
       ∧ kfio_mod64_64 D d = if d mod 2 ^ 32 =? 0 then Fault DivByZero else Ok (D mod (d mod 2 ^ 32))).
Proof.
  intros HD Hd. unfold kfio_div64_64, kfio_mod64_64, do_div, in_u in *. split; [by intros ->|]. split.
  - intros Hs. assert (Z.shiftr d 32 = 0) as -> by (rewrite Z.shiftr_div_pow2 by lia; apply Z.div_small; lia).
    change (u32 0) with 0. simpl. rewrite !(wrapu_small 32 d) by (unfold in_u; lia).
    rewrite (proj2 (Z.eqb_neq d 0)) by lia. done.
  - intros Hl. destruct (fls_shift d ltac:(lia)) as (s & Es & Hs & Hd').
    assert (u32 (Z.shiftr d 32) = Z.shiftr d 32) as ->.
    { apply wrapu_small. rewrite Z.shiftr_div_pow2 by lia. split; [apply Z.div_pos; lia|]. apply Z.div_lt_upper_bound; [done|]. change (2 ^ 32 * 2 ^ 32) with (2 ^ 64). lia. }
    assert (Z.shiftr d 32 ≠ 0) as Hn by (intros E; rewrite E in Es; change (fls 0) with 0 in Es; lia).
    rewrite Es, (proj2 (Z.eqb_neq _ 0) Hn). simpl. rewrite !Z.shiftr_div_pow2 by lia.
    rewrite !(wrapu_small 32 (d / 2 ^ s)) by (unfold in_u; lia). rewrite (proj2 (Z.eqb_neq (d / 2 ^ s) 0)) by lia.
    eexists. split; [done|]. split; [apply quotient_of_halves; lia|]. unfold wrapu. by destruct (Z.eqb_spec (d mod 2 ^ 32) 0).
Qed.

Lemma division_32_bits_witness :
  ∃ q, kfio_div64_64 (2 ^ 64 - 1) (2 ^ 32 + 3) = Ok q ∧ (2 ^ 64 - 1) / (2 ^ 32 + 3) <= q <= (2 ^ 64 - 1) / (2 ^ 32 + 3) + 1.
Proof.
  destruct (division_32_bits (2 ^ 64 - 1) (2 ^ 32 + 3)) as (_ & _ & H); [done|done|].
  destruct (H ltac:(done)) as (q & E & B & _). exists q. split; [exact E|exact B].
Defined.

(** The quotient can be one too large, and the remainder one by another divisor. *)
Example quotient_too_large : kfio_div64_64 (2 ^ 64 - 1) (2 ^ 32 + 3) = Ok ((2 ^ 64 - 1) / (2 ^ 32 + 3) + 1)
  ∧ kfio_mod64_64 (2 ^ 64 - 1) (2 ^ 32 + 3) = Ok 0 ∧ kfio_mod64_64 1 (2 ^ 32) = Fault DivByZero.
Proof. by vm_compute. Qed.

(** ** Magic SysRq *)

Definition SYSRQ_SOFTWARE : Z := 120.
Definition SYSRQ_CSR : Z := 121.

(** What the core writes out. *)
Inductive sysrq_dump := iodrive_dump_all | iodrive_dump_all_software_state.
Definition iodrive_handle_sysrq (key : Z) : list sysrq_dump :=
  if key =? SYSRQ_CSR then [iodrive_dump_all] else if key =? SYSRQ_SOFTWARE then [iodrive_dump_all_software_state] else [].

(** An operation of a key: its handler, and the key that its help text names. *)
Record sysrq_key_op := mk_key_op { handler : Z → list sysrq_dump; help_key : Z }.
Definition csr_key_op : sysrq_key_op := mk_key_op iodrive_handle_sysrq 122.
Definition software_key_op : sysrq_key_op := mk_key_op iodrive_handle_sysrq 108.

(** The calls of [register_sysrq_key] and [unregister_sysrq_key]. *)
Definition kfio_iodrive_sysrq_keys : list (Z * sysrq_key_op) := [(SYSRQ_CSR, csr_key_op); (SYSRQ_SOFTWARE, software_key_op)].
Definition kfio_iodrive_unreg_sysrq_keys : list (Z * sysrq_key_op) := [(SYSRQ_CSR, csr_key_op); (SYSRQ_SOFTWARE, software_key_op)].

(** What is registered is removed, each key writes out one thing, different keys
    different things; but the help texts name other keys, which write out nothing. *)
Lemma sysrq_keys :
  kfio_iodrive_unreg_sysrq_keys = kfio_iodrive_sysrq_keys
  ∧ ((λ '(k, op), handler op k) <$> kfio_iodrive_sysrq_keys) = [[iodrive_dump_all]; [iodrive_dump_all_software_state]]
  ∧ ((λ '(_, op), handler op (help_key op)) <$> kfio_iodrive_sysrq_keys) = [[]; []].
Proof. done. Qed.
