(* ===== verification/KString.v ===== *)
(** * Memory and strings in memory: the functions of kfio_common.c

    The functions that pass their arguments on to those of C, on arrays of bytes as
    they are in memory: reading or writing behind the end of an array faults.
    KCommon has [kfio_strncpy] on strings. *)
From S2P Require Import Prelude Kinfo KinfoData KCommon.

(** ** Strings in memory *)

(** The string in an array: the bytes before the first zero. *)
Fixpoint c_string (m : list Z) : outcome cstring :=
  match m with
  | [] => Fault OutOfBounds
  | c :: m => if c =? 0 then Ok [] else s ← c_string m; Ok (c :: s)
  end.

(** The first difference decides, a string that ends before the other is less. *)
Fixpoint kfio_strcmp (m1 m2 : list Z) : outcome Z :=
  match m1, m2 with
  | c1 :: m1, c2 :: m2 =>
      if negb (c1 =? c2) then Ok (if c1 <? c2 then -1 else 1) else if c1 =? 0 then Ok 0 else kfio_strcmp m1 m2
  | _, _ => Fault OutOfBounds
  end.

Fixpoint kfio_strncmp (m1 m2 : list Z) (n : nat) : outcome Z :=
  match n, m1, m2 with
  | O, _, _ => Ok 0
  | S n, c1 :: m1, c2 :: m2 =>
      if negb (c1 =? c2) then Ok (if c1 <? c2 then -1 else 1) else if c1 =? 0 then Ok 0 else kfio_strncmp m1 m2 n
  | _, _, _ => Fault OutOfBounds
  end.

Fixpoint kfio_memcmp (m1 m2 : list Z) (n : nat) : outcome Z :=
  match n, m1, m2 with
  | O, _, _ => Ok 0
  | S n, c1 :: m1, c2 :: m2 => if negb (c1 =? c2) then Ok (if c1 <? c2 then -1 else 1) else kfio_memcmp m1 m2 n
  | _, _, _ => Fault OutOfBounds
  end.

(** ** Memory *)

Definition bytes_at (m : list Z) (pos : Z) (n : nat) : outcome (list Z) :=
  if (0 <=? pos) && (pos + Z.of_nat n <=? Z.of_nat (length m)) then Ok (take n (drop (Z.to_nat pos) m)) else Fault OutOfBounds.

(** [int c] is cut to a byte. *)
Definition kfio_memset (m : list Z) (dst c : Z) (n : nat) : outcome (list Z) := put_bytes m dst (replicate n (c mod 256)).

(** Both places are in one memory; the bytes are read before any is written. *)
Definition kfio_memmove (m : list Z) (dst src : Z) (n : nat) : outcome (list Z) :=
  bs ← bytes_at m src n; put_bytes m dst bs.

(** One byte after the other. *)
Fixpoint kfio_memcpy (m : list Z) (dst src : Z) (n : nat) : outcome (list Z) :=
  match n with
  | O => Ok m
  | S n => bs ← bytes_at m src 1; m ← put_bytes m dst bs; kfio_memcpy m (dst + 1) (src + 1) n
  end.

(** [dst] is an array with a string; the zero is moved behind what is appended. *)
Definition kfio_strcat (dst src : list Z) : outcome (list Z) :=
  d ← c_string dst; s ← c_string src; put_bytes dst (Z.of_nat (length d)) (s ++ [0]).

(** The first [n] characters of the string in an array, which need not end. *)
Fixpoint c_prefix (n : nat) (m : list Z) : outcome cstring :=
  match n, m with
  | O, _ => Ok []
  | S _, [] => Fault OutOfBounds
  | S n, c :: m => if c =? 0 then Ok [] else s ← c_prefix n m; Ok (c :: s)
  end.

(** [int size] becomes a [size_t]. *)
Definition kfio_strncat (dst src : list Z) (size : Z) : outcome (list Z) :=
  d ← c_string dst;
  s ← (if u64 size <? Z.of_nat (length src) then c_prefix (Z.to_nat (u64 size)) src else c_string src);
  put_bytes dst (Z.of_nat (length d)) (s ++ [0]).

(** ** Strings *)

Lemma c_string_spec m s : c_string m = Ok s ↔ ∃ rest, m = s ++ 0 :: rest ∧ Forall (λ c, c ≠ 0) s.
Proof.
  revert s. induction m as [|c m IH]; intros s; cbn.
  { split; [done|]. intros (rest & E & _). by destruct s. }
  destruct (Z.eqb_spec c 0) as [->|N].
  - split; [intros [= <-]; by exists m|]. intros (rest & E & F). destruct s as [|x s]; [done|]. injection E as <- ->.
    by apply list.Forall_cons in F as [].
  - split.
    + destruct (c_string m) as [s'|] eqn:E; [|done]. intros [= <-]. destruct (proj1 (IH s') eq_refl) as (rest & -> & F).
      exists rest. split; [done|]. by constructor.
    + intros (rest & E & F). destruct s as [|x s]; [by injection E as ->|]. injection E as <- ->.
      apply list.Forall_cons in F as [_ F]. by rewrite (proj2 (IH s)) by eauto.
Qed.

(** Comparing strings gives 0 exactly for equal ones, and the opposite with the
    arguments the other way round; it never reads behind the ends. *)
Lemma strcmp_exact m1 m2 s1 s2 :
  c_string m1 = Ok s1 → c_string m2 = Ok s2 →
  ∃ r, kfio_strcmp m1 m2 = Ok r ∧ (r = 0 ↔ s1 = s2) ∧ kfio_strcmp m2 m1 = Ok (- r).
Proof.
  revert m2 s1 s2. induction m1 as [|c1 m1 IH]; intros [|c2 m2] s1 s2; cbn; try done.
  destruct (Z.eqb_spec c1 c2) as [<-|N]; cbn.
  - rewrite Z.eqb_refl. cbn. destruct (Z.eqb_spec c1 0).
    + intros [= <-] [= <-]. by exists 0.
    + destruct (c_string m1) as [t1|], (c_string m2) as [t2|] eqn:C2; try done. intros [= <-] [= <-].
      destruct (IH m2 t1 t2 eq_refl C2) as (r & E & Eq & E'). exists r. split; [done|]. split; [|done].
      rewrite Eq. split; [by intros ->|by intros [= ->]].
  - rewrite (proj2 (Z.eqb_neq c2 c1)) by done. cbn. intros E1 E2. eexists. split; [done|]. split.
    + split; [destruct (c1 <? c2); lia|]. intros ->. destruct (Z.eqb_spec c1 0), (Z.eqb_spec c2 0); simplify_eq.
      * by destruct (c_string m2).
      * by destruct (c_string m1).
      * by destruct (c_string m1), (c_string m2); cbn in E1, E2; simplify_eq.
    + f_equal. destruct (Z.ltb_spec c1 c2), (Z.ltb_spec c2 c1); lia.
Qed.

(** A bound that is at least the length makes no difference. *)
Lemma strncmp_long m1 m2 s1 n : c_string m1 = Ok s1 → (length s1 < n)%nat → kfio_strncmp m1 m2 n = kfio_strcmp m1 m2.
Proof.
  revert m2 s1 n. induction m1 as [|c1 m1 IH]; intros m2 s1 n; [done|]. destruct n as [|n]; [cbn; lia|].
  destruct m2 as [|c2 m2]; [done|]. cbn. destruct (c1 =? c2), (c1 =? 0); cbn; try done.
  destruct (c_string m1) as [t|] eqn:Et; [|done]. intros [= <-] L. apply (IH m2 t n eq_refl). cbn in L. lia.
Qed.

(** The first [n] bytes decide, whatever is behind them. *)
Lemma memcmp_exact m1 m2 n :
  (n <= length m1)%nat → (n <= length m2)%nat → ∃ r, kfio_memcmp m1 m2 n = Ok r ∧ (r = 0 ↔ take n m1 = take n m2).
Proof.
  revert m1 m2. induction n as [|n IH]; intros [|c1 m1] [|c2 m2] L1 L2; cbn in *; try lia; [by exists 0..|].
  destruct (Z.eqb_spec c1 c2) as [<-|N]; cbn.
  - destruct (IH m1 m2) as (r & E & Eq); [lia|lia|]. exists r. split; [done|]. rewrite Eq. split; [by intros ->|by intros [= ->]].
  - eexists. split; [done|]. split; [destruct (c1 <? c2); lia|]. by intros [=].
Qed.

(** Appending: the string in the array afterwards, when it fits. *)
Lemma append_run dst d s : 
  c_string dst = Ok d → Forall (λ c, c ≠ 0) s → (length d + length s < length dst)%nat →
  ∃ m, put_bytes dst (Z.of_nat (length d)) (s ++ [0]) = Ok m ∧ c_string m = Ok (d ++ s) ∧ length m = length dst.
Proof.
  intros D F L. apply c_string_spec in D as (rest & E & Fd). rewrite put_bytes_ok by (rewrite ?length_app; cbn; lia).
  eexists. split; [done|]. split; [|apply length_put; rewrite ?length_app; cbn; lia].
  apply c_string_spec. rewrite Nat2Z.id, E, take_app_length. eexists.
  split; [rewrite <- !(assoc_L (++)); cbn; done|]. by apply list.Forall_app.
Qed.

Theorem strcat_appends dst src d s :
  c_string dst = Ok d → c_string src = Ok s → (length d + length s < length dst)%nat →
  ∃ m, kfio_strcat dst src = Ok m ∧ c_string m = Ok (d ++ s) ∧ length m = length dst.
Proof.
  intros D S L. unfold kfio_strcat. rewrite D, S. cbn. apply append_run; [done| |done]. by apply c_string_spec in S as (? & _ & F).
Qed.

Lemma c_prefix_string m s n : c_string m = Ok s → c_prefix n m = Ok (take n s).
Proof.
  revert s n. induction m as [|c m IH]; intros s n; cbn; [done|]. destruct n as [|n]; [done|]. cbn. destruct (c =? 0); [by intros [= <-]|].
  destruct (c_string m) as [t|]; [|done]. intros [= <-]. by rewrite (IH t n).
Qed.

(** At most [size] characters are appended; a negative size is no bound. *)
Theorem strncat_appends dst src d s size :
  c_string dst = Ok d → c_string src = Ok s → in_s 32 size → Z.of_nat (length src) < 2 ^ 63 →
  let added := if size <? 0 then s else take (Z.to_nat size) s in
  (length d + length added < length dst)%nat →
  ∃ m, kfio_strncat dst src size = Ok m ∧ c_string m = Ok (d ++ added) ∧ length m = length dst.
Proof.
  intros D S R B added L. unfold kfio_strncat. rewrite D. cbn [mbind outcome_bind].
  pose proof (proj1 (c_string_spec _ _) S) as (rest & Es & F). assert (length s < length src)%nat as Ls by (rewrite Es, length_app; cbn; lia).
  assert ((if u64 size <? Z.of_nat (length src) then c_prefix (Z.to_nat (u64 size)) src else c_string src) = Ok added) as ->.
  { unfold added, in_s in *. change (2 ^ (32 - 1)) with 2147483648 in R. change (2 ^ 63) with 9223372036854775808 in B. destruct (Z.ltb_spec size 0).
    - rewrite (proj2 (Z.ltb_ge _ _)); [done|]. word_lia.
    - rewrite wrapu_small by (unfold in_u; change (2 ^ 64) with 18446744073709551616; lia).
      destruct (Z.ltb_spec size (Z.of_nat (length src))); [by apply c_prefix_string|]. rewrite S. by rewrite take_ge by lia. }
  cbn [mbind outcome_bind]. apply append_run; [done| |done]. unfold added. case_match; [done|]. by apply Forall_take.
Qed.

Example negative_size_is_no_bound : kfio_strncat [97; 0; 9; 9] [98; 99; 0] (-1) = Ok [97; 98; 99; 0].
Proof. by vm_compute. Qed.

(** ** Moving memory *)

Lemma bytes_at_ok m pos n : 0 <= pos → pos + Z.of_nat n <= Z.of_nat (length m) → bytes_at m pos n = Ok (take n (drop (Z.to_nat pos) m)).
Proof. intros P L. unfold bytes_at. by rewrite (proj2 (Z.leb_le _ _) P), (proj2 (Z.leb_le _ _) L). Qed.

(** What moving gives, byte by byte. *)
Definition moved (m : list Z) (dst src : Z) (n : nat) (m' : list Z) : Prop :=
  length m' = length m
  ∧ ∀ k : nat, m' !! k = if decide (dst <= Z.of_nat k < dst + Z.of_nat n) then m !! Z.to_nat (Z.of_nat k - dst + src) else m !! k.

Lemma put_lookup (m : list Z) pos bs k :
  0 <= pos → pos + Z.of_nat (length bs) <= Z.of_nat (length m) →
  (take (Z.to_nat pos) m ++ bs ++ drop (Z.to_nat pos + length bs) m) !! k
  = if decide (pos <= Z.of_nat k < pos + Z.of_nat (length bs)) then bs !! Z.to_nat (Z.of_nat k - pos) else m !! k.
Proof.
  intros P L. rewrite !lookup_app, length_take. destruct (decide (Z.of_nat k < pos)).
  - rewrite lookup_take_lt by lia. rewrite decide_False by lia. destruct (m !! k) eqn:E; [done|]. apply lookup_ge_None in E. lia.
  - rewrite lookup_take_ge by lia. case_decide.
    + replace (k - Z.to_nat pos `min` length m)%nat with (Z.to_nat (Z.of_nat k - pos)) by lia.
      destruct (lookup_lt_is_Some_2 bs (Z.to_nat (Z.of_nat k - pos))) as [b ->]; [lia|done].
    + rewrite (lookup_ge_None_2 bs) by lia. rewrite lookup_drop. f_equal. lia.
Qed.

Lemma memmove_exact m dst src n :
  0 <= dst → dst + Z.of_nat n <= Z.of_nat (length m) → 0 <= src → src + Z.of_nat n <= Z.of_nat (length m) →
  ∃ m', kfio_memmove m dst src n = Ok m' ∧ moved m dst src n m'.
Proof.
  intros D1 D2 S1 S2. unfold kfio_memmove. rewrite bytes_at_ok by done. cbn [mbind outcome_bind].
  set (bs := take n (drop (Z.to_nat src) m)). assert (length bs = n) as Lb by (unfold bs; rewrite length_take, length_drop; lia).
  rewrite put_bytes_ok by lia. eexists. split; [done|]. split; [apply length_put; lia|]. intros k.
  rewrite put_lookup by lia. rewrite Lb. case_decide; [|done]. unfold bs. rewrite lookup_take_lt by lia. rewrite lookup_drop. f_equal. lia.
Qed.

Lemma moved_det m dst src n m1 m2 : moved m dst src n m1 → moved m dst src n m2 → m1 = m2.
Proof. intros [_ M1] [_ M2]. apply list_eq. intros k. by rewrite M1, M2. Qed.

(** Copying byte by byte does the same whenever the target is not within the source:
    before it, even when they overlap, or behind its end. *)
Theorem memcpy_is_memmove m dst src n :
  0 <= dst → dst + Z.of_nat n <= Z.of_nat (length m) → 0 <= src → src + Z.of_nat n <= Z.of_nat (length m) →
  dst <= src ∨ src + Z.of_nat n <= dst →
  kfio_memcpy m dst src n = kfio_memmove m dst src n.
Proof.
  intros D1 D2 S1 S2 Ap. assert (∃ m', kfio_memcpy m dst src n = Ok m' ∧ moved m dst src n m') as (m1 & -> & M1).
  { revert m dst src D1 D2 S1 S2 Ap. induction n as [|n IH]; intros m dst src D1 D2 S1 S2 Ap; cbn [kfio_memcpy].
    - exists m. split; [done|]. split; [done|]. intros k. by rewrite decide_False by lia.
    - rewrite bytes_at_ok by lia. cbn [mbind outcome_bind].
      set (bs := take 1 (drop (Z.to_nat src) m)). assert (length bs = 1%nat) as Lb by (unfold bs; rewrite length_take, length_drop; lia).
      rewrite put_bytes_ok by lia. cbn [mbind outcome_bind]. set (m1 := take _ m ++ bs ++ _).
      assert (length m1 = length m) as L1 by (apply length_put; lia).
      destruct (IH m1 (dst + 1) (src + 1)) as (m' & E & Lm & M); [lia..|]. exists m'. split; [done|]. split; [lia|].
      assert (∀ k : nat, m1 !! k = if decide (Z.of_nat k = dst) then m !! Z.to_nat src else m !! k) as P1.
      { intros k. unfold m1. rewrite put_lookup by lia. rewrite Lb. repeat case_decide; try lia; [|done].
        unfold bs. rewrite lookup_take_lt by lia. rewrite lookup_drop. f_equal. lia. }
      intros k. rewrite M, !P1. repeat case_decide; try done; try lia; f_equal; lia. }
  destruct (memmove_exact m dst src n D1 D2 S1 S2) as (m2 & -> & M2). f_equal. by eapply moved_det.
Qed.

(** Otherwise it repeats the bytes before the target. *)
Example memcpy_overlapping : kfio_memcpy [1; 2; 3; 4] 1 0 3 = Ok [1; 1; 1; 1] ∧ kfio_memmove [1; 2; 3; 4] 1 0 3 = Ok [1; 1; 2; 3].
Proof. by vm_compute. Qed.

(** ** Copying strings from memory that does not end *)

(** [kfio_strncpy] takes the length of the source first, which reads to its zero. *)
Definition strncpy_mem (dst src : list Z) (n : nat) : outcome (list Z) := s ← c_string src; kfio_strncpy dst s n.

(** The standard function reads [n] characters at most. *)
Definition strncpy_std (dst src : list Z) (n : nat) : outcome (list Z) := s ← c_prefix n src; strncpy dst s n.

(** On a source that ends both are the same; a source of exactly [n] characters
    without a zero is copied by the standard function, and overrun by the other. *)
Theorem strncpy_needs_end dst src n :
  (∀ s, c_string src = Ok s → strncpy_mem dst src n = strncpy_std dst src n)
  ∧ (length src = n → Forall (λ c, c ≠ 0) src → (n <= length dst)%nat →
       strncpy_mem dst src n = Fault OutOfBounds ∧ strncpy_std dst src n = Ok (src ++ drop n dst)).
Proof.
  split.
  - intros s E. unfold strncpy_mem, strncpy_std. rewrite E, (c_prefix_string src s n E). cbn [mbind outcome_bind].
    rewrite strncpy_equiv, !strncpy_copied. unfold copied. rewrite take_take, Nat.min_id, length_take.
    by replace (n - n `min` length s)%nat with (n - length s)%nat by lia.
  - intros L F Ld. assert (∀ k, c_prefix k src = if decide (k <= length src)%nat then Ok (take k src) else Fault OutOfBounds) as Pf.
    { clear L Ld. induction F as [|c m N F IH]; intros [|k]; cbn; try done. rewrite (proj2 (Z.eqb_neq c 0)) by done. rewrite IH.
      repeat case_decide; done || lia. }
    split.
    + unfold strncpy_mem. assert (c_string src = Fault OutOfBounds) as ->; [|done].
      clear L Pf. induction F as [|c m N F IH]; [done|]. cbn. by rewrite (proj2 (Z.eqb_neq c 0)), IH by done.
    + unfold strncpy_std. rewrite Pf, decide_True by lia. cbn [mbind outcome_bind]. rewrite strncpy_copied. unfold copied.
      rewrite bool_decide_eq_true_2 by done. rewrite !(take_ge src) by lia. by replace (n - length src)%nat with 0%nat by lia.
Qed.
