(* ===== verification/KMsg.v ===== *)
(** * Messages: kmsg.c, errno.c

    How a message is put together before the kernel prints it, and the texts of the
    error numbers. *)
From Stdlib Require Import String.
From stdpp Require Import gmap strings.
From S2P Require Import Prelude Kinfo KinfoProc KinfoProcSpec.

(** ** Messages *)

(** The kernel's formatting: what it makes of a format and its arguments.  Characters
    before the first percent sign are taken as they are. *)
Class Formatter := {
  format_arg : Type;
  format_text : cstring → list format_arg → cstring
}.
Class FormatterLaws `(Formatter) : Prop := {
  format_literal a f args : 37 ∉ a → format_text (a ++ f) args = a ++ format_text f args
}.

(** A string of the source. *)
Definition chars (s : string) : cstring := (λ c, Z.of_N (Ascii.N_of_ascii c)) <$> String.list_ascii_of_string s.

Inductive msg_level_t := MSG_LEVEL_ERR | MSG_LEVEL_WARN | MSG_LEVEL_INFO | MSG_LEVEL_ENG | MSG_LEVEL_DBG.

(** [KERN_ERR] and the others: the character 1 and a digit. *)
Definition kern (level : Z) : cstring := [1; 48 + level].
Definition MSG_LEVEL_STR (l : msg_level_t) : cstring :=
  match l with
  | MSG_LEVEL_ERR => kern 3 ++ chars "fioerr"
  | MSG_LEVEL_WARN => kern 4 ++ chars "fiowrn"
  | MSG_LEVEL_INFO => kern 6 ++ chars "fioinf"
  | MSG_LEVEL_ENG => kern 6 ++ chars "fioeng"
  | MSG_LEVEL_DBG => kern 7 ++ chars "fiodbg"
  end.

Definition NO_MSG_ID : Z := -1.
Definition MSG_FMT_LEN_MAX : nat := 512.
Definition MSG_ID_LEN_MAX : nat := 7.

(** [kfio_snprintf] of a text: what is stored before the zero, and the result. *)
Definition kfio_snprintf (n : nat) (text : cstring) : cstring * Z := (take (n - 1) text, s32 (Z.of_nat (length text))).

(** "%05d": at least five characters, with zeros in front, the sign before them. *)
Definition pad5 (id : Z) : cstring :=
  let ds := decimal 10 (Z.abs id) in
  if id <? 0 then 45 :: replicate (4 - length ds) 48 ++ ds else replicate (5 - length ds) 48 ++ ds.

Section messages.
Context `{Formatter}.

(** What is printed; the result is that of the kernel's function. *)
Definition kmsg_subscription (msg_lvl : msg_level_t) (fmt : cstring) (ap : list format_arg) : cstring := format_text fmt ap.

(** [msg_ctx] may be NULL. *)
Definition kmsg_filter (msg_lvl : msg_level_t) (msg_ctx : option cstring) (id : Z) (fmt : cstring) (ap : list format_arg) : cstring :=
  let pad_id := if negb (id =? NO_MSG_ID) then (kfio_snprintf MSG_ID_LEN_MAX (pad5 id ++ [32])).1 else [] in
  let '(complete_fmt, rc) :=
    match msg_ctx with
    | Some ctx =>
        if 0 <? kfio_strlen ctx
        then kfio_snprintf MSG_FMT_LEN_MAX (MSG_LEVEL_STR msg_lvl ++ [32] ++ ctx ++ [58; 32] ++ pad_id ++ fmt)
        else kfio_snprintf MSG_FMT_LEN_MAX (MSG_LEVEL_STR msg_lvl ++ [32] ++ pad_id ++ fmt)
    | None => kfio_snprintf MSG_FMT_LEN_MAX (MSG_LEVEL_STR msg_lvl ++ [32] ++ pad_id ++ fmt)
    end in
  if rc <? 0 then kmsg_subscription msg_lvl fmt ap else kmsg_subscription msg_lvl complete_fmt ap.

(** What is put before a message, as it is meant. *)
Definition message_prefix (msg_lvl : msg_level_t) (msg_ctx : option cstring) (id : Z) : cstring :=
  MSG_LEVEL_STR msg_lvl ++ [32]
  ++ (match msg_ctx with Some (c :: ctx) => (c :: ctx) ++ [58; 32] | _ => [] end)
  ++ (if id =? NO_MSG_ID then [] else pad5 id ++ [32]).

Lemma pad5_plain id : 37 ∉ pad5 id ++ [32].
Proof.
  assert (∀ n v, 0 <= v → 37 ∉ decimal n v) as D.
  { induction n as [|n IH]; intros v V; simpl; [set_solver|]. destruct (Z.ltb_spec v 10).
    - rewrite list_elem_of_singleton. lia.
    - rewrite elem_of_app, list_elem_of_singleton. pose proof (Z.mod_pos_bound v 10). intros [Hin|Hin]; [|lia].
      apply IH in Hin; [done|]. apply Z.div_pos; lia. }
  unfold pad5. rewrite elem_of_app, list_elem_of_singleton. intros [Hin|]; [|done].
  destruct (id <? 0); [apply elem_of_cons in Hin as [|Hin]; [done|]|];
    apply elem_of_app in Hin as [Hin|Hin]; try (apply elem_of_replicate in Hin as [? _]; done); by apply (D 10%nat (Z.abs id)) in Hin; [|lia].
Qed.

Lemma level_plain l : 37 ∉ MSG_LEVEL_STR l.
Proof. destruct l; intros Hin%list_elem_of_In; vm_compute in Hin; lia. Qed.

Lemma decimal_length n v k : 0 <= v < 10 ^ Z.of_nat (S k) → (length (decimal n v) <= S k)%nat.
Proof.
  revert v k. induction n as [|n IH]; intros v k V; simpl; [lia|]. destruct (Z.ltb_spec v 10); [simpl; lia|].
  rewrite length_app. simpl. destruct k as [|k]; [change (10 ^ Z.of_nat 1) with 10 in V; lia|].
  rewrite (Nat2Z.inj_succ (S k)), Z.pow_succ_r in V by lia.
  assert (0 <= v / 10 < 10 ^ Z.of_nat (S k)) as V' by (split; [apply Z.div_pos; lia|apply Z.div_lt_upper_bound; lia]).
  specialize (IH (v / 10) k V'). lia.
Qed.

(** Five characters and the space fit. *)
Lemma pad5_length id : - 10000 < id < 100000 → (length (pad5 id) <= 5)%nat.
Proof.
  intros I. unfold pad5. pose proof (decimal_length 10 (Z.abs id) 3) as L4. pose proof (decimal_length 10 (Z.abs id) 4) as L5.
  change (10 ^ Z.of_nat 4) with 10000 in L4. change (10 ^ Z.of_nat 5) with 100000 in L5. set (ds := decimal 10 (Z.abs id)) in *.
  destruct (Z.ltb_spec id 0); cbn [length]; rewrite length_app, length_replicate; lia.
Qed.

Lemma snprintf_fits n text : (length text < n <= 1000)%nat → kfio_snprintf n text = (text, Z.of_nat (length text)).
Proof.
  intros L. unfold kfio_snprintf. rewrite take_ge by lia. rewrite wraps_small; [done|lia|]. unfold in_s. change (2 ^ (32 - 1)) with 2147483648. lia.
Qed.

(** A message is printed whole, with its level, its device and its number before
    it, and its arguments in the places of its own format, when the name of the device
    has no percent sign, the number at most five characters, and all of it fits into
    the buffer. *)
Theorem message_complete `{!FormatterLaws _} lvl ctx id fmt args :
  (∀ c, ctx = Some c → 37 ∉ c) → id = NO_MSG_ID ∨ - 10000 < id < 100000 →
  (length (message_prefix lvl ctx id) + length fmt < MSG_FMT_LEN_MAX)%nat →
  kmsg_filter lvl ctx id fmt args = message_prefix lvl ctx id ++ format_text fmt args.
Proof.
  intros Hc Hid Hlen.
  assert (37 ∉ message_prefix lvl ctx id) as Hp.
  { unfold message_prefix. pose proof (level_plain lvl). pose proof (pad5_plain id). intros Hin.
    rewrite !elem_of_app in Hin. destruct Hin as [Hin|[Hin|[Hin|Hin]]]; [done|set_solver| |].
    - destruct ctx as [[|c ctx]|]; [set_solver| |set_solver]. apply elem_of_app in Hin as [Hin|Hin]; [by apply (Hc _ eq_refl)|set_solver].
    - destruct (id =? NO_MSG_ID); set_solver. }
  assert ((if negb (id =? NO_MSG_ID) then (kfio_snprintf MSG_ID_LEN_MAX (pad5 id ++ [32])).1 else [])
    = (if id =? NO_MSG_ID then [] else pad5 id ++ [32])) as Hpad.
  { destruct (Z.eqb_spec id NO_MSG_ID); [done|]. destruct Hid as [|Hid]; [done|]. cbn [negb].
    pose proof (pad5_length id Hid). rewrite snprintf_fits; [done|]. rewrite length_app. change (length [32]) with 1%nat. unfold MSG_ID_LEN_MAX. lia. }
  assert (kmsg_filter lvl ctx id fmt args
    = let '(f, rc) := kfio_snprintf MSG_FMT_LEN_MAX (message_prefix lvl ctx id ++ fmt) in
      if rc <? 0 then format_text fmt args else format_text f args) as E.
  { unfold kmsg_filter. rewrite Hpad. unfold message_prefix, kmsg_subscription, kfio_strlen.
    destruct ctx as [[|c ctx]|]; by rewrite <- !app_assoc. }
  rewrite E, snprintf_fits by (rewrite length_app; unfold MSG_FMT_LEN_MAX in *; lia).
  rewrite (proj2 (Z.ltb_ge _ 0)) by lia. by apply format_literal.
Qed.
End messages.

(** A formatter that knows the directive for a number, and takes every other one for
    the character behind the percent sign. *)
Fixpoint sample_format (f : cstring) (args : list Z) : cstring :=
  match f with
  | [] => []
  | 37 :: 100 :: f => match args with a :: args => decimal 10 a ++ sample_format f args | [] => sample_format f [] end
  | c :: f => c :: sample_format f args
  end.
#[local] Instance sample_formatter : Formatter := {| format_arg := Z; format_text := sample_format |}.
#[local] Instance sample_formatter_laws : FormatterLaws sample_formatter.
Proof.
  split. intros a f args. induction a as [|c a IH]; [done|]. intros Hin. apply not_elem_of_cons in Hin as [Hc Ha].
  specialize (IH Ha). simpl in *. rewrite <- IH.
  destruct (decide (c = 37)); [congruence|].
  destruct c as [|p|p]; [done| |done].
  repeat (destruct p as [p|p|]; try done).
Qed.

Lemma message_complete_witness :
  @kmsg_filter sample_formatter MSG_LEVEL_ERR (Some (chars "fct0")) 42 (chars "error %d") [7] = kern 3 ++ chars "fioerr fct0: 00042 error 7".
Proof.
  rewrite (@message_complete sample_formatter _ MSG_LEVEL_ERR (Some (chars "fct0")) 42 (chars "error %d") [7]); [by vm_compute| | |].
  - intros c [= <-] Hin%list_elem_of_In. vm_compute in Hin. lia.
  - by right.
  - vm_compute. lia.
Defined.

(** A percent sign in the name of the device takes an argument of the message; a number
    of six digits touches the text; a long message loses its end. *)
Example context_formatted :
  @kmsg_filter sample_formatter MSG_LEVEL_ERR (Some (chars "fct%d")) NO_MSG_ID (chars "error %d") [7] = kern 3 ++ chars "fioerr fct7: error ".
Proof. by vm_compute. Qed.
Example number_touches_text :
  @kmsg_filter sample_formatter MSG_LEVEL_INFO None 123456 (chars "ready") [] = kern 6 ++ chars "fioinf 123456ready".
Proof. by vm_compute. Qed.
Example message_cut : length (@kmsg_filter sample_formatter MSG_LEVEL_INFO None NO_MSG_ID (replicate 600 65) []) = 511%nat.
Proof. by vm_compute. Qed.
