(* ===== verification/KErrno.v ===== *)
(** * Error numbers: errno.h, errno.c

    The numbers that the port layer adds to those of Prelude, and the table that gives
    each its name and its text. *)
From Stdlib Require Import String.
From stdpp Require Import strings.
From S2P Require Import Prelude.

(** ** Numbers *)

Definition ENONE : Z := 0.
Definition ESRCH : Z := 3.
Definition EINTR : Z := 4.
Definition E2BIG : Z := 7.
Definition ENOEXEC : Z := 8.
Definition EBADF : Z := 9.
Definition ECHILD : Z := 10.
Definition EACCES : Z := 13.
Definition EXDEV : Z := 18.
Definition ENOTDIR : Z := 20.
Definition EISDIR : Z := 21.
Definition ENFILE : Z := 23.
Definition EMFILE : Z := 24.
Definition EFBIG : Z := 27.
Definition ESPIPE : Z := 29.
Definition EROFS : Z := 30.
Definition EMLINK : Z := 31.
Definition EPIPE : Z := 32.
Definition EDOM : Z := 33.
Definition ERANGE : Z := 34.
Definition ENOTSUP : Z := 95.
Definition EDQUOT : Z := 122.
Definition EUNCORRECTABLEECC : Z := 1024.
Definition EECC_VALIDATION_FAIL : Z := 1026.
Definition EDUPID : Z := 1027.
Definition EERASED : Z := 1028.
Definition EVERRNG : Z := 1029.
Definition EUNKNOWN : Z := 1030.

(** For a positive number. *)
Definition ERROR_CODE_IS_FUSION_SPECIFIC (err : Z) : bool := (EUNCORRECTABLEECC <=? err) && (err <=? EUNKNOWN).

(** ** The table *)

(** Number, name and text. *)
Definition fio_strerror_entry : Type := Z * string * string.
Definition fio_strerror_entries : list fio_strerror_entry := [
  (ENONE, "ENONE", "No error");
  (EPERM, "EPERM", "Operation not permitted");
  (ENOENT, "ENOENT", "No such file or directory");
  (ESRCH, "ESRCH", "No such process");
  (EINTR, "EINTR", "Interrupted system call");
  (EIO, "EIO", "I/O error");
  (ENXIO, "ENXIO", "No such device or address");
  (E2BIG, "E2BIG", "Argument list too long");
  (ENOEXEC, "ENOEXEC", "Exec format error");
  (EBADF, "EBADF", "Bad file number");
  (ECHILD, "ECHILD", "No child processes");
  (EAGAIN, "EAGAIN", "Try again");
  (ENOMEM, "ENOMEM", "Out of memory");
  (EACCES, "EACCES", "Permission denied");
  (EFAULT, "EFAULT", "Bad address");
  (EBUSY, "EBUSY", "Device or resource busy");
  (EEXIST, "EEXIST", "File exists");
  (EXDEV, "EXDEV", "Cross-device link");
  (ENODEV, "ENODEV", "No such device");
  (ENOTDIR, "ENOTDIR", "Not a directory");
  (EISDIR, "EISDIR", "Is a directory");
  (EINVAL, "EINVAL", "Invalid argument");
  (ENFILE, "ENFILE", "File table overflow");
  (EMFILE, "EMFILE", "Too many open files");
  (ENOTTY, "ENOTTY", "Not a typewriter");
  (EFBIG, "EFBIG", "File too large");
  (ENOSPC, "ENOSPC", "No space left on device");
  (ESPIPE, "ESPIPE", "Illegal seek");
  (EROFS, "EROFS", "Read-only file system");
  (EMLINK, "EMLINK", "Too many links");
  (EPIPE, "EPIPE", "Broken pipe");
  (EDOM, "EDOM", "Math argument out of domain of func");
  (ERANGE, "ERANGE", "Math result not representable");
  (ENOTSUP, "ENOTSUP", "Function not supported");
  (EDQUOT, "EDQUOT", "Attempt to write exceeded quota");
  (EUNCORRECTABLEECC, "EUNCORRECTABLEECC", "Uncorrectable ECC error");
  (EECC_VALIDATION_FAIL, "EECC_VALIDATION_FAIL", "ECC validation failure");
  (EDUPID, "EDUPID", "Duplicated VSU UUID");
  (EERASED, "EERASED", "Erased space was read");
  (EVERRNG, "EVERRNG", "Version is out of range");
  (-1, "EUNKNOWN", "Unknown error")
]%string.

(** The loop from entry [idx] on, with the entries that are left. *)
Fixpoint entries_loop (rest : list fio_strerror_entry) (errnum : Z) (idx : nat) : outcome nat :=
  match rest with
  | [] => Fault OutOfBounds
  | (errno_num, _, _) :: rest =>
      if errno_num =? -1 then Ok idx
      else if errnum =? errno_num then Ok idx
      else entries_loop rest errnum (S idx)
  end.

Definition get_strerror_entries_index (errnum : Z) : outcome nat :=
  let errnum := s32 (- errnum) in
  let errnum := if errnum <=? 0 then ENONE else errnum in
  entries_loop fio_strerror_entries errnum 0.

Definition ifio_strerror (errnum : Z) : outcome string :=
  idx ← get_strerror_entries_index errnum;
  '(_, _, errno_msg) ← of_option OutOfBounds (fio_strerror_entries !! idx);
  Ok errno_msg.
Definition ifio_strerror_sym (errnum : Z) : outcome string :=
  idx ← get_strerror_entries_index errnum;
  '(_, errno_sym, _) ← of_option OutOfBounds (fio_strerror_entries !! idx);
  Ok errno_sym.

(** ** What the look-up finds *)

(** The numbers of the table, without the entry at its end. *)
Definition known : list Z := (λ e, e.1.1) <$> take 40 fio_strerror_entries.

Lemma table_ends : fio_strerror_entries = take 40 fio_strerror_entries ++ [(-1, "EUNKNOWN", "Unknown error")]%string.
Proof. done. Qed.

Lemma known_distinct : NoDup known.
Proof. apply (bool_decide_unpack _). by vm_compute. Qed.

(** The kernel takes the last 4095 addresses for errors. *)
Lemma known_range : Forall (λ n, 0 <= n < 4096) known.
Proof. apply (bool_decide_unpack _). by vm_compute. Qed.

Lemma names_distinct : NoDup ((λ e : fio_strerror_entry, e.1.2) <$> fio_strerror_entries).
Proof. apply (bool_decide_unpack _). by vm_compute. Qed.

(** The first entry with the number, or the last of all. *)
Lemma entries_loop_finds l e errnum idx :
  Forall (λ n, 0 <= n) ((λ e, e.1.1) <$> l) →
  entries_loop (l ++ [(-1, e.1, e.2)]) errnum idx =
    Ok (idx + match list_find (λ n, n = errnum) ((λ e, e.1.1) <$> l) with Some (i, _) => i | None => length l end)%nat.
Proof.
  revert idx. induction l as [|[[n sym] msg] l IH]; intros idx F; simpl; [by rewrite Nat.add_0_r|].
  apply list.Forall_cons in F as [Fn F]. simpl in Fn. rewrite (proj2 (Z.eqb_neq n (-1))) by lia.
  destruct (Z.eqb_spec errnum n) as [->|Hn]; [rewrite decide_True by done; simpl; by rewrite Nat.add_0_r|].
  rewrite decide_False by done. rewrite IH by done. f_equal.
  destruct (list_find _ _) as [[i x]|]; simpl; lia.
Qed.

(** The number that is looked for; the opposite of the least [int] is itself. *)
Definition looked_for (errnum : Z) : Z := if decide (- 2 ^ 31 < errnum < 0) then - errnum else ENONE.

Lemma index_spec errnum :
  in_s 32 errnum →
  get_strerror_entries_index errnum = Ok (match list_find (λ n, n = looked_for errnum) known with Some (i, _) => i | None => 40 end)%nat.
Proof.
  intros E. unfold get_strerror_entries_index, looked_for.
  assert ((if s32 (- errnum) <=? 0 then ENONE else s32 (- errnum)) = (if decide (- 2 ^ 31 < errnum < 0) then - errnum else ENONE)) as ->.
  { unfold in_s in E. change (2 ^ (32 - 1)) with (2 ^ 31) in E. destruct (decide (errnum = - 2 ^ 31)) as [->|N]; [by vm_compute|].
    rewrite (wraps_small 32 (- errnum)) by (try lia; unfold in_s; change (2 ^ (32 - 1)) with (2 ^ 31); lia).
    case_decide; destruct (Z.leb_spec (- errnum) 0); lia || done. }
  rewrite table_ends. rewrite (entries_loop_finds (take 40 fio_strerror_entries) ("EUNKNOWN", "Unknown error")%string); [done|].
  eapply list.Forall_impl; [exact known_range|]. intros n Hn. apply Hn.
Qed.

Lemma texts_of errnum i n sym msg :
  get_strerror_entries_index errnum = Ok i → fio_strerror_entries !! i = Some (n, sym, msg) →
  ifio_strerror_sym errnum = Ok sym ∧ ifio_strerror errnum = Ok msg.
Proof. intros E L. unfold ifio_strerror_sym, ifio_strerror. by rewrite E; simpl; rewrite L. Qed.

Lemma known_found i n sym msg errnum :
  in_s 32 errnum → take 40 fio_strerror_entries !! i = Some (n, sym, msg) → looked_for errnum = n →
  ifio_strerror_sym errnum = Ok sym ∧ ifio_strerror errnum = Ok msg.
Proof.
  intros E L C. assert (fio_strerror_entries !! i = Some (n, sym, msg)) as L'
    by (rewrite table_ends; by apply lookup_app_l_Some).
  apply (texts_of errnum i n); [|done]. rewrite (index_spec errnum E), C.
  assert (known !! i = Some n) as Lk by (unfold known; rewrite list_lookup_fmap; exact (f_equal (fmap (λ e, e.1.1)) L)).
  assert (list_find (λ m, m = n) known = Some (i, n)) as ->; [|done].
  apply list_find_Some. split_and!; [done..|]. intros j m Lj Hj ->.
  pose proof (NoDup_lookup known i j n known_distinct Lk Lj). lia.
Qed.

Lemma unknown_found errnum :
  in_s 32 errnum → looked_for errnum ∉ known →
  ifio_strerror_sym errnum = Ok "EUNKNOWN"%string ∧ ifio_strerror errnum = Ok "Unknown error"%string.
Proof.
  intros E C. apply (texts_of errnum 40 (-1)); [|done]. rewrite (index_spec errnum E).
  assert (list_find (λ m, m = looked_for errnum) known = None) as ->; [|done].
  apply list_find_None, list.Forall_forall. intros m Hm ->. done.
Qed.

(** The texts of the error numbers: the look-up ends for every [int]; a number of the
    table, negated, has its own name and text, 0 and every positive number have those of
    no error, and every other number is said to be unknown; different numbers that are
    known have different names. *)
Theorem strerror_exact errnum :
  in_s 32 errnum →
  (∀ n sym msg, (n, sym, msg) ∈ take 40 fio_strerror_entries → errnum = - n →
     ifio_strerror_sym errnum = Ok sym ∧ ifio_strerror errnum = Ok msg)
  ∧ (0 <= errnum → ifio_strerror_sym errnum = Ok "ENONE"%string)
  ∧ (- 2 ^ 31 < errnum < 0 → - errnum ∉ known → ifio_strerror_sym errnum = Ok "EUNKNOWN"%string)
  ∧ (∀ other, in_s 32 other → - errnum ∈ known → - other ∈ known →
       ifio_strerror_sym errnum = ifio_strerror_sym other → errnum = other).
Proof.
  intros E.
  assert (∀ e n, in_s 32 e → n ∈ known → e = - n → looked_for e = n) as Hk.
  { intros e n He Hn ->. pose proof known_range as P. rewrite list.Forall_forall in P. specialize (P n Hn). simpl in P.
    unfold looked_for. case_decide as D; [lia|]. unfold ENONE. unfold in_s in He. change (2 ^ 31) with 2147483648 in D. lia. }
  assert (∀ e, in_s 32 e → - e ∈ known → ∃ i msg sym, take 40 fio_strerror_entries !! i = Some (- e, sym, msg) ∧ ifio_strerror_sym e = Ok sym) as Hi.
  { intros e He Hn. pose proof Hn as Hn'. apply list_elem_of_fmap in Hn' as ([[n sym] msg] & Hs & Hin). simpl in Hs. subst n.
    apply list_elem_of_lookup in Hin as [i Hi]. exists i, msg, sym. split; [done|].
    apply (known_found i (- e) sym msg e He Hi). apply (Hk e (- e)); [done|done|lia]. }
  split_and!.
  - intros n sym msg Hin ->. pose proof Hin as [i Hi']%list_elem_of_lookup. apply (known_found i n); [done|done|].
    apply (Hk (- n) n E); [|done]. apply list_elem_of_fmap. by exists (n, sym, msg).
  - intros Hp. apply (known_found 0 0 "ENONE" "No error"); [done|done|]. unfold looked_for. rewrite decide_False by lia. done.
  - intros Hr Hn. apply (unknown_found errnum E). unfold looked_for. by rewrite decide_True.
  - intros other Ho Hn Hn' Es. destruct (Hi errnum E Hn) as (i & m & sym & Li & Ei). destruct (Hi other Ho Hn') as (j & m' & sym' & Lj & Ej).
    rewrite Ei, Ej in Es. injection Es as <-. assert (i = j) as <-.
    { apply (NoDup_lookup _ i j sym names_distinct); rewrite list_lookup_fmap, table_ends;
        [rewrite (lookup_app_l_Some _ _ _ _ Li)|rewrite (lookup_app_l_Some _ _ _ _ Lj)]; done. }
    rewrite Li in Lj. injection Lj as Hlt. lia.
Qed.

Lemma strerror_exact_witness : ifio_strerror_sym (-12) = Ok "ENOMEM"%string ∧ ifio_strerror (-12) = Ok "Out of memory"%string.
Proof.
  destruct (strerror_exact (-12)) as (H & _); [done|]. apply (H 12); [|done]. apply (bool_decide_unpack _). by vm_compute.
Defined.

(** The driver's own numbers have no text for two of the names of the header, and the
    least [int] is no error. *)
Example own_numbers : ifio_strerror_sym (- EUNKNOWN) = Ok "EUNKNOWN"%string ∧ ifio_strerror_sym (- (EUNCORRECTABLEECC + 1)) = Ok "EUNKNOWN"%string
  ∧ ERROR_CODE_IS_FUSION_SPECIFIC EERASED = true ∧ ifio_strerror_sym (- 2 ^ 31) = Ok "ENONE"%string.
Proof. by vm_compute. Qed.
