(* ===== verification/KMem.v ===== *)
(** * Memory and caches: kmem.c, kcache.c

    Each function is a request to one of the kernel's allocators; what it decides are
    the flags, which say what the allocator may do to find memory. *)
From stdpp Require Import gmap.
From S2P Require Import Prelude Kinfo KCommon.

(** ** Flags of the kernel *)

Inductive gfp_flag := GFP_DIRECT_RECLAIM | GFP_KSWAPD_RECLAIM | GFP_IO | GFP_FS | GFP_NOWARN | GFP_ZERO.
#[global] Instance gfp_flag_eq_dec : EqDecision gfp_flag.
Proof. solve_decision. Defined.
#[global] Instance gfp_flag_countable : Countable gfp_flag.
Proof.
  refine (inj_countable'
    (λ f, match f with GFP_DIRECT_RECLAIM => 0 | GFP_KSWAPD_RECLAIM => 1 | GFP_IO => 2 | GFP_FS => 3 | GFP_NOWARN => 4 | GFP_ZERO => 5 end)%nat
    (λ n, match n with O => GFP_DIRECT_RECLAIM | 1 => GFP_KSWAPD_RECLAIM | 2 => GFP_IO | 3 => GFP_FS | 4 => GFP_NOWARN | _ => GFP_ZERO end)%nat _).
  by intros [].
Defined.

Definition GFP_KERNEL : gset gfp_flag := {[GFP_DIRECT_RECLAIM; GFP_KSWAPD_RECLAIM; GFP_IO; GFP_FS]}.
Definition GFP_NOIO : gset gfp_flag := {[GFP_DIRECT_RECLAIM; GFP_KSWAPD_RECLAIM]}.
Definition GFP_NOWAIT : gset gfp_flag := {[GFP_KSWAPD_RECLAIM]}.

(** Who may reclaim memory itself may sleep. *)
Definition may_sleep (f : gset gfp_flag) : bool := bool_decide (GFP_DIRECT_RECLAIM ∈ f).
Definition may_do_io (f : gset gfp_flag) : bool := bool_decide (GFP_IO ∈ f).

(** ** Requests *)

(** To [kmalloc], [vmalloc], [alloc_page], and [kmem_cache_alloc] with its node. *)
Inductive request :=
  | kmalloc (size : Z) (flags : gset gfp_flag)
  | vmalloc (size : Z)
  | alloc_page (flags : gset gfp_flag)
  | kmem_cache_alloc (flags : gset gfp_flag) (node : option Z).

Definition request_flags (r : request) : gset gfp_flag :=
  match r with kmalloc _ f => f | vmalloc _ => GFP_KERNEL | alloc_page f => f | kmem_cache_alloc f _ => f end.

(** [node]: the argument that is passed down. *)
Definition __kfio_malloc (size : Z) (gfp : gset gfp_flag) (node : Z) : request := kmalloc size gfp.
Definition kfio_malloc (size : Z) : request := __kfio_malloc size GFP_NOIO (-1).
Definition kfio_malloc_node (size node : Z) : request := __kfio_malloc size GFP_NOIO node.
Definition kfio_malloc_atomic (size : Z) : request := __kfio_malloc size GFP_NOWAIT (-1).
Definition kfio_malloc_atomic_node (size node : Z) : request := __kfio_malloc size GFP_NOWAIT node.
Definition kfio_vmalloc (size : Z) : request := vmalloc size.

Definition KFIO_MAA_NORMAL : Z := 1.
Definition KFIO_MAA_NOIO : Z := 2.
Definition KFIO_MAA_NOWAIT : Z := 4.

Definition kfio_alloc_0_page (flags : Z) : request :=
  let lflags : gset gfp_flag := ∅ in
  let lflags := if negb (Z.land flags KFIO_MAA_NORMAL =? 0) then lflags ∪ GFP_KERNEL else lflags in
  let lflags := if negb (Z.land flags KFIO_MAA_NOIO =? 0) then lflags ∪ GFP_NOIO else lflags in
  let lflags := if negb (Z.land flags KFIO_MAA_NOWAIT =? 0) then lflags ∪ (GFP_NOWAIT ∪ {[GFP_NOWARN]}) else lflags in
  alloc_page (lflags ∪ {[GFP_ZERO]}).

(** ** Caches *)

(** [mc_p]: the kernel's cache; the name is an array of 40 characters. *)
Record fusion_mem_cache_t := mk_cache { mc_p : option positive; mc_name : list Z }.

(** [created]: what [kmem_cache_create] returns. *)
Definition __kfio_create_cache (pcache : fusion_mem_cache_t) (name : cstring) (created : option positive) : outcome (fusion_mem_cache_t * Z) :=
  n ← kfio_strncpy (mc_name pcache) name 39;
  Ok (mk_cache created n, if created is Some _ then 0 else - ENOMEM).

(** [in_atomic], [irqs_disabled]: where the caller is. *)
Definition kfio_cache_alloc (can_wait in_atomic irqs_disabled : bool) : request :=
  kmem_cache_alloc (if negb can_wait || in_atomic || irqs_disabled then GFP_NOWAIT else GFP_NOIO) None.
Definition kfio_cache_alloc_node (can_wait in_atomic irqs_disabled : bool) (node : Z) : request :=
  kmem_cache_alloc (if negb can_wait || in_atomic || irqs_disabled then GFP_NOWAIT else GFP_NOIO) (Some node).
Definition kfio_cache_destroy (cache : fusion_mem_cache_t) : fusion_mem_cache_t := mk_cache None (mc_name cache).

(** ** What the allocator may do *)

Lemma page_flags flags :
  may_sleep (request_flags (kfio_alloc_0_page flags)) = Z.testbit flags 0 || Z.testbit flags 1
  ∧ may_do_io (request_flags (kfio_alloc_0_page flags)) = Z.testbit flags 0.
Proof.
  assert (∀ i, 0 <= i → negb (Z.land flags (2 ^ i) =? 0) = Z.testbit flags i) as Hbit.
  { intros i I. destruct (Z.testbit flags i) eqn:T.
    - apply negb_true_iff, Z.eqb_neq. intros E. apply (f_equal (λ z, Z.testbit z i)) in E.
      rewrite Z.land_spec, T, Z.pow2_bits_true, Z.bits_0 in E by lia. done.
    - apply negb_false_iff, Z.eqb_eq, Z.bits_inj'. intros j J. rewrite Z.land_spec, Z.bits_0.
      destruct (decide (i = j)) as [<-|]; [by rewrite T|]. by rewrite Z.pow2_bits_false, andb_false_r by lia. }
  unfold kfio_alloc_0_page, request_flags. change KFIO_MAA_NORMAL with (2 ^ 0). change KFIO_MAA_NOIO with (2 ^ 1). change KFIO_MAA_NOWAIT with (2 ^ 2).
  rewrite !Hbit by done.
  destruct (Z.testbit flags 0), (Z.testbit flags 1), (Z.testbit flags 2); by vm_compute.
Qed.

(** What the allocator may do: the functions for atomic context never sleep, nor
    does a cache when it is not to wait, or cannot; the others may; and nothing but
    whole virtual areas and pages that are asked for without restriction starts
    input and output, on which the driver itself might have to be waited for. *)
Theorem allocation_contexts size node flags can_wait in_atomic irqs_disabled :
  let cached := [kfio_cache_alloc can_wait in_atomic irqs_disabled; kfio_cache_alloc_node can_wait in_atomic irqs_disabled node] in
  Forall (λ r, may_sleep (request_flags r) = false) [kfio_malloc_atomic size; kfio_malloc_atomic_node size node]
  ∧ Forall (λ r, may_sleep (request_flags r) = true) [kfio_malloc size; kfio_malloc_node size node; kfio_vmalloc size]
  ∧ Forall (λ r, may_sleep (request_flags r) = can_wait && negb in_atomic && negb irqs_disabled) cached
  ∧ Forall (λ r, may_do_io (request_flags r) = false)
      ([kfio_malloc_atomic size; kfio_malloc_atomic_node size node; kfio_malloc size; kfio_malloc_node size node] ++ cached)
  ∧ may_sleep (request_flags (kfio_alloc_0_page flags)) = Z.testbit flags 0 || Z.testbit flags 1
  ∧ may_do_io (request_flags (kfio_alloc_0_page flags)) = Z.testbit flags 0.
Proof.
  split_and!; [..|apply page_flags|apply page_flags]; repeat constructor; destruct can_wait, in_atomic, irqs_disabled; by vm_compute.
Qed.

(** The node that is asked for is not passed to the kernel; and a flag that allows to
    wait for a page prevails over the one that forbids it. *)
Lemma node_ignored size node : kfio_malloc_node size node = kfio_malloc size ∧ kfio_malloc_atomic_node size node = kfio_malloc_atomic size.
Proof. done. Qed.

Example nowait_may_sleep : may_sleep (request_flags (kfio_alloc_0_page (Z.lor KFIO_MAA_NOWAIT KFIO_MAA_NORMAL))) = true.
Proof. by vm_compute. Qed.

(** A cache is created when the kernel gives one; its name is cut to 39 characters,
    padded with zeros, and what was behind them stays. *)
Lemma create_cache_spec pcache name created :
  length (mc_name pcache) = 40%nat →
  ∃ c, __kfio_create_cache pcache name created = Ok (c, if created is Some _ then 0 else - ENOMEM)
    ∧ mc_p c = created ∧ mc_name c = take 39 name ++ replicate (39 - length name) 0 ++ drop 39 (mc_name pcache).
Proof.
  intros L. unfold __kfio_create_cache. rewrite strncpy_equiv, strncpy_copied. unfold copied.
  rewrite bool_decide_true by lia. by eexists.
Qed.
