(* ===== verification/KPciBar.v ===== *)
(** * The windows into a PCI device: pci.c

    Mapping the base address registers (BARs) of a device and giving the mappings
    back; the numbers of a device. *)
From stdpp Require Import gmap.
From S2P Require Import Prelude.

(** ** State *)

(** A BAR: where its resource starts, 0 when there is none, and its length. *)
Record pci_bar := mk_bar { bar_start : Z; bar_len : Z }.

(** The mappings that are live: for each virtual address, what is mapped there.
    [ioremap] is given an address, [pci_iomap] the number of a BAR. *)
Inductive mapping := Remapped (phys len : Z) | BarMapped (bar len : Z).
Abbreviation mappings := (gmap positive mapping).

Implicit Types (bars : Z → pci_bar) (m : mappings).

Definition kfio_pci_resource_start bars (bar : Z) : Z := u64 (bar_start (bars (u16 bar))).
(** The result is cut to 32 bits. *)
Definition kfio_pci_resource_len bars (bar : Z) : Z := u32 (bar_len (bars (u16 bar))).

(** [answer]: the address that the kernel gives; one in use is not given. *)
Definition kernel_map (answer : option positive) (w : mapping) m : option positive * mappings :=
  match answer with
  | Some a => if bool_decide (is_Some (m !! a)) then (None, m) else (Some a, <[a := w]> m)
  | None => (None, m)
  end.

(** ** The registers of the controller *)

(** The handle after it, and the result. *)
Definition kfio_pci_map_csr bars (answer : option positive) m : option positive * mappings * Z :=
  let barnum := 5 in
  let bar_phys := kfio_pci_resource_start bars barnum in
  let '(csr_virt, m) :=
    if negb (bar_phys =? 0) then kernel_map answer (Remapped bar_phys (kfio_pci_resource_len bars barnum)) m
    else kernel_map answer (Remapped (kfio_pci_resource_start bars 0) (kfio_pci_resource_len bars 0)) m in
  (csr_virt, m, if csr_virt is None then - ENOMEM else 0).

(** Unmapping what is not mapped is an error in the kernel. *)
Definition kernel_unmap (a : positive) m : outcome mappings :=
  match m !! a with Some _ => Ok (delete a m) | None => Fault BadPointer end.
Definition kfio_pci_unmap_csr (csr_virt : option positive) m : outcome mappings :=
  match csr_virt with Some a => kernel_unmap a m | None => Ok m end.

(** ** A single BAR *)

Definition kfio_pci_iomap (answer : option positive) (bar_num len : Z) m : option positive * mappings :=
  kernel_map answer (BarMapped bar_num len) m.
Definition kfio_pci_iounmap (bar_virt : positive) m : outcome mappings := kernel_unmap bar_virt m.

(** [bar_virt]: the caller's variable before and after. *)
Definition kfio_pci_map_barnum bars (answer : option positive) (barnum : Z) (bar_virt : option positive) m : option positive * mappings * Z :=
  let bar_phys := kfio_pci_resource_start bars barnum in
  let '(bar_virt, m) :=
    if negb (bar_phys =? 0) then kfio_pci_iomap answer barnum (kfio_pci_resource_len bars barnum) m else (bar_virt, m) in
  (bar_virt, m, if bar_virt is None then - ENOMEM else 0).

Definition kfio_pci_unmap_barnum (bar_virt : option positive) m : outcome mappings :=
  match bar_virt with Some a => kfio_pci_iounmap a m | None => Ok m end.

(** ** Numbers of a device *)

Definition PCI_SLOT (devfn : Z) : Z := Z.land (Z.shiftr devfn 3) 0x1f.
Definition PCI_FUNC (devfn : Z) : Z := Z.land devfn 0x07.
Definition kfio_pci_get_devicenum (devfn : Z) : Z := u8 (PCI_SLOT devfn).
Definition kfio_pci_get_function (devfn : Z) : Z := u8 (PCI_FUNC devfn).

(** ** Mapping and unmapping *)

Lemma kernel_map_spec answer w m a m' :
  kernel_map answer w m = (a, m') →
  match a with
  | Some a => answer = Some a ∧ m !! a = None ∧ m' = <[a := w]> m ∧ kernel_unmap a m' = Ok m
  | None => m' = m
  end.
Proof.
  unfold kernel_map. destruct answer as [b|]; [|by intros [= <- <-]]. case_bool_decide as Hb; intros [= <- <-]; [done|].
  apply eq_None_not_Some in Hb. split_and!; [done..|]. unfold kernel_unmap. rewrite lookup_insert_eq. by rewrite delete_insert_id.
Qed.

(** Whether the controller's registers or a BAR are mapped, the call either fails
    with ENOMEM and leaves the mappings as they were, or adds one, of the right BAR
    (the fifth, or the first when there is no fifth), which unmapping takes away; a
    BAR that does not exist fails, provided that the caller's variable was null. *)
Theorem bar_mappings_balanced bars answer barnum m :
  (match kfio_pci_map_csr bars answer m with
   | (None, m', ret) => ret = - ENOMEM ∧ m' = m
   | (Some a, m', ret) => ret = 0 ∧ m !! a = None ∧ kfio_pci_unmap_csr (Some a) m' = Ok m
       ∧ let b := if kfio_pci_resource_start bars 5 =? 0 then 0 else 5 in
         m' = <[a := Remapped (kfio_pci_resource_start bars b) (kfio_pci_resource_len bars b)]> m
   end)
  ∧ (match kfio_pci_map_barnum bars answer barnum None m with
     | (None, m', ret) => ret = - ENOMEM ∧ m' = m
     | (Some a, m', ret) => ret = 0 ∧ m !! a = None ∧ kfio_pci_unmap_barnum (Some a) m' = Ok m
         ∧ m' = <[a := BarMapped barnum (kfio_pci_resource_len bars barnum)]> m ∧ kfio_pci_resource_start bars barnum ≠ 0
     end).
Proof.
  split.
  - unfold kfio_pci_map_csr. destruct (Z.eqb_spec (kfio_pci_resource_start bars 5) 0); simpl;
      destruct (kernel_map answer _ m) as [[a|] m'] eqn:E; apply kernel_map_spec in E; naive_solver.
  - unfold kfio_pci_map_barnum. destruct (Z.eqb_spec (kfio_pci_resource_start bars barnum) 0); simpl; [done|].
    unfold kfio_pci_iomap. destruct (kernel_map answer _ m) as [[a|] m'] eqn:E; apply kernel_map_spec in E; naive_solver.
Qed.

(** A BAR that does not exist is reported as mapped where the caller's variable
    pointed before; and a window of 4 GiB is mapped with length 0. *)
Example absent_bar_mapped : kfio_pci_map_barnum (λ _, mk_bar 0 0) None 2 (Some 7%positive) ∅ = (Some 7%positive, ∅, 0)
  ∧ kfio_pci_unmap_barnum (Some 7%positive) ∅ = Fault BadPointer.
Proof. by vm_compute. Qed.
Example large_bar_cut : kfio_pci_resource_len (λ _, mk_bar 0x1000 (2 ^ 32)) 0 = 0.
Proof. by vm_compute. Qed.

(** The device and the function make up the number on the bus again. *)
Lemma devfn_parts devfn : in_u 8 devfn → devfn = kfio_pci_get_devicenum devfn * 8 + kfio_pci_get_function devfn.
Proof.
  intros D. unfold kfio_pci_get_devicenum, kfio_pci_get_function, PCI_SLOT, PCI_FUNC.
  change 0x1f with (Z.ones 5). change 0x07 with (Z.ones 3). rewrite !Z.land_ones, Z.shiftr_div_pow2 by lia.
  change (2 ^ 5) with 32. change (2 ^ 3) with 8. word_lia.
Qed.
