(* ===== verification/KBdev.v ===== *)
(** * Calls between the core and the disk: kblock.h

    The inline functions of kblock.h that call through pointers which may be null, the
    sums of the statistics that each CPU has, and the count of locks that are waited
    for, which the disk keeps, and the calls for atomic writes (kblock.c). *)
From stdpp Require Import gmap.
From S2P Require Import Prelude KBio KBioSpec KPlug KDisk.

(** ** Statistics of each CPU *)

Fixpoint stat_loop (rest : nat) (i : nat) (array : list Z) (ret : Z) : outcome Z :=
  match rest with
  | O => Ok ret
  | S rest => a ← of_option OutOfBounds (array !! i); stat_loop rest (S i) array (u64 (ret + a))
  end.
(** [max_cpus]: what [kfio_max_cpus] returns. *)
Definition get_per_cpu_stat_sum (max_cpus : nat) (array : list Z) : outcome Z := stat_loop max_cpus 0 array 0.

(** ** Calls through pointers *)

Definition FIO_BDEV_NOTIFY_START : Z := 1.
Definition FIO_BDEV_NOTIFY_HALT : Z := 2.

Definition fio_bdev_supports (bdev_do_supports : option (Z → Z)) (uuid : Z) : Z :=
  match bdev_do_supports with None => 0 | Some f => f uuid end.
Definition fio_bdev_get_identifier (bdev_do_get_identifier : option (option Z)) : option Z :=
  match bdev_do_get_identifier with None => None | Some r => r end.
Definition fio_bdev_notify_start (bdev_do_notify : option (Z → Z)) : Z :=
  match bdev_do_notify with None => 0 | Some f => f FIO_BDEV_NOTIFY_START end.
Definition fio_bdev_notify_halt (bdev_do_notify : option (Z → Z)) : Z :=
  match bdev_do_notify with None => 0 | Some f => f FIO_BDEV_NOTIFY_HALT end.

(** [sif]: the function of the storage interface. *)
Definition fio_bdev_on_backpressure (sif : option (bool → D unit)) (enter : bool) : D unit :=
  match sif with Some f => f enter | None => mret tt end.
Definition fio_bdev_lock_begin (sif : option (bool → D unit)) : D unit :=
  match sif with Some f => f true | None => mret tt end.
Definition fio_bdev_lock_end (sif : option (bool → D unit)) : D unit :=
  match sif with Some f => f false | None => mret tt end.

(** ** The sums *)

(** The sum is that of the array, modulo 2^64, and never reads behind it unless there
    are more CPUs than elements. *)
Lemma stat_sum_exact array :
  get_per_cpu_stat_sum (length array) array = Ok (u64 (zsum id array))
  ∧ ∀ n, (length array < n)%nat → get_per_cpu_stat_sum n array = Fault OutOfBounds.
Proof.
  unfold get_per_cpu_stat_sum.
  assert (∀ rest i ret, (i + rest <= length array)%nat →
    stat_loop rest i array ret = Ok (if decide (rest = 0%nat) then ret else u64 (ret + zsum id (take rest (drop i array))))) as Hs.
  { induction rest as [|rest IH]; intros i ret Hi; [done|]. simpl.
    destruct (lookup_lt_is_Some_2 array i ltac:(lia)) as [a Ha]. rewrite Ha. simpl. rewrite IH by lia.
    rewrite (drop_S array a i Ha). simpl. f_equal. unfold wrapu, id. case_decide as Hz; [subst; simpl; f_equal; lia|].
    rewrite Z.add_mod_idemp_l by lia. f_equal. lia. }
  split.
  - rewrite Hs by lia. rewrite drop_0, firstn_all. case_decide as Hz; [by destruct array|]. done.
  - assert (∀ rest i ret, (i <= length array)%nat → (length array < i + rest)%nat → stat_loop rest i array ret = Fault OutOfBounds) as Hf.
    { induction rest as [|rest IH]; intros i ret Hi Hr; [lia|]. simpl. destruct (array !! i) as [a|] eqn:Ha; [|done]. simpl.
      apply IH; [|lia]. apply lookup_lt_Some in Ha. lia. }
    intros n Hn. apply Hf; lia.
Qed.

(** ** Locks that are waited for *)

Fixpoint times {A} (n : nat) (m : D A) : D unit := match n with O => mret tt | S n => m;; times n m end.

Definition with_pending (n : Z) (d : kfio_disk) (s : dstate) : dstate := mk_dstate (Some (set_pending n d)) (queues s) (dworld s) (log s).

Lemma lock_pending_exposed (up : bool) s d gd :
  bdev_gd s = Some d → disk_gd d = Some gd → gd_queue gd ≠ QNull → in_s 32 (lock_pending d + 1) → in_s 32 (lock_pending d - 1) →
  linux_bdev_lock_pending up s
  = Ok (tt, with_pending (if up then lock_pending d + 1 else Z.min 0 (lock_pending d - 1)) d s).
Proof.
  intros Hd Hg Hq H1 H2. unfold linux_bdev_lock_pending. rewrite Hd, Hg, decide_False by done.
  destruct up; rewrite wraps_small by (done || lia); [done|].
  assert ((if lock_pending d - 1 >? 0 then 0 else lock_pending d - 1) = Z.min 0 (lock_pending d - 1)) as ->; [|done].
  destruct (Z.gtb_spec (lock_pending d - 1) 0); lia.
Qed.

(** A thread alone leaves the count as it was, 0; but when [k + 1] wait at once, the
    first of them to drop the lock clears the count of all, and the others take it
    below 0: it ends at [- k], and the next [k] waiters are not seen. *)
Lemma pending_drifts k s d gd :
  let begin := fio_bdev_lock_begin (Some linux_bdev_lock_pending) in
  let finish := fio_bdev_lock_end (Some linux_bdev_lock_pending) in
  bdev_gd s = Some d → disk_gd d = Some gd → gd_queue gd ≠ QNull → lock_pending d = 0 → Z.of_nat k < 2 ^ 31 - 2 →
  (begin;; finish) s = Ok (tt, s) ∧ (times (S k) begin;; times (S k) finish) s = Ok (tt, with_pending (- Z.of_nat k) d s).
Proof.
  intros begin finish Hd Hg Hq Hz Hk.
  assert (∀ n up, - Z.of_nat k <= n <= Z.of_nat k + 1 → linux_bdev_lock_pending up (with_pending n d s)
    = Ok (tt, with_pending (if up then n + 1 else Z.min 0 (n - 1)) d s)) as L.
  { intros n up Hn. apply (lock_pending_exposed up (with_pending n d s) (set_pending n d) gd); try done;
      unfold in_s; simpl; change (2 ^ (32 - 1)) with 2147483648; change (2 ^ 31) with 2147483648 in Hk; lia. }
  assert (with_pending 0 d s = s) as E0 by (destruct s, d; simpl in *; by subst).
  assert (∀ j n, - Z.of_nat k <= n → n + Z.of_nat j <= Z.of_nat k + 1 →
    times j begin (with_pending n d s) = Ok (tt, with_pending (n + Z.of_nat j) d s)) as Up.
  { induction j as [|j IH]; intros n Hn Hj; cbn [times]; [by rewrite Z.add_0_r|].
    rewrite (stateful_bind_ok _ _ _ _ _ (L n true ltac:(lia))). cbv beta. rewrite IH by lia. do 3 f_equal. lia. }
  assert (∀ j n, - Z.of_nat k <= n - Z.of_nat j → n <= 0 →
    times j finish (with_pending n d s) = Ok (tt, with_pending (n - Z.of_nat j) d s)) as Down.
  { induction j as [|j IH]; intros n Hn Hj; cbn [times]; [by rewrite Z.sub_0_r|].
    rewrite (stateful_bind_ok _ _ _ _ _ (L n false ltac:(lia))). cbv beta iota. rewrite Z.min_r, IH by lia. do 3 f_equal. lia. }
  split.
  - rewrite <- E0 at 1. rewrite (stateful_bind_ok _ _ _ _ _ (L 0 true ltac:(lia))). cbv beta. unfold finish, fio_bdev_lock_end.
    rewrite (L (0 + 1) false) by lia. exact (f_equal (λ x, Ok (tt, x)) E0).
  - rewrite <- E0 at 1. rewrite (stateful_bind_ok _ _ _ _ _ (Up (S k) 0 ltac:(lia) ltac:(lia))). cbv beta. cbn [times].
    rewrite (stateful_bind_ok _ _ _ _ _ (L (0 + Z.of_nat (S k)) false ltac:(lia))). cbv beta iota.
    rewrite Z.min_l by lia. rewrite Down by lia. by rewrite Z.sub_0_l.
Qed.

(** ** Atomic writes and the sectors in use (kblock.c) *)

Definition FIO_ATOMIC_WRITE_USER_PAGES : Z := 1.

Section atomic.
(** [B]: what is at the other end of [private_data]. *)
Context {B iovec : Type}.
(** The core's functions: the result and what is stored through the last pointer. *)
Context (kfio_handle_atomic : B → list iovec → Z → Z → Z * Z) (fio_bdev_sectors_inuse : B → Z → Z → Z * Z).

(** A device is the [private_data] of its disk; [None]s are null pointers. *)
Definition kfio_vectored_atomic (linux_bdev : option B) (iov : option (list iovec)) (iovcnt : Z) (user_pages : bool) : Z :=
  match linux_bdev, iov with
  | Some bdev, Some iov =>
      let '(retval, sectors_written) := kfio_handle_atomic bdev iov iovcnt (if user_pages then FIO_ATOMIC_WRITE_USER_PAGES else 0) in
      if retval =? 0 then wraps 32 sectors_written else retval
  | _, _ => - EFAULT
  end.

(** The result, and [*count] when the core is asked. *)
Definition kfio_count_sectors_inuse (private_data : option B) (base length : Z) : Z * option Z :=
  match private_data with
  | None => (- EFAULT, None)
  | Some bdev => let '(rc, count) := fio_bdev_sectors_inuse bdev base length in (rc, Some count)
  end.

(** Below 2^31 sectors a caller can tell what happened: a result that is not negative is
    the number of sectors of a write that succeeded, a negative one is an error.  From
    2^31 on a write that succeeded looks like an error. *)
Lemma vectored_atomic_result bdev iov iovcnt user_pages retval written :
  kfio_handle_atomic bdev iov iovcnt (Z.b2z user_pages) = (retval, written) → retval <= 0 → in_u 32 written →
  let rc := kfio_vectored_atomic (Some bdev) (Some iov) iovcnt user_pages in
  (written < 2 ^ 31 → (0 <= rc ↔ retval = 0) ∧ (retval = 0 → rc = written) ∧ (rc < 0 → rc = retval))
  ∧ (2 ^ 31 <= written → retval = 0 → rc = written - 2 ^ 32 ∧ rc < 0).
Proof.
  intros E Hr Hw. cbv zeta. unfold kfio_vectored_atomic. change (if user_pages then FIO_ATOMIC_WRITE_USER_PAGES else 0) with (Z.b2z user_pages).
  rewrite E. unfold in_u in Hw. change (2 ^ 31) with 2147483648. change (2 ^ 32) with 4294967296 in *. destruct (Z.eqb_spec retval 0); split; intros; split_and?; word_lia.
Qed.
End atomic.

(** ** The probe of the plug callbacks (kblock.c) *)

Definition safe_unplug_cb (irqs_disabled : bool) : Z := if irqs_disabled then 0 else 1.

(** [callback]: whether the kernel runs the callback, and with interrupts off.  The
    variable [dangerous_plugging_callback] before and after. *)
Definition test_safe_plugging (callback : option bool) (dangerous_plugging_callback : Z) : Z :=
  if negb (dangerous_plugging_callback =? -1) then dangerous_plugging_callback
  else
    let safe := match callback with Some off => safe_unplug_cb off | None => -1 end in
    if safe =? 0 then 1 else 0.

(** The first probe decides: plugging is off exactly when the callback was run with
    interrupts off, and so it is on when the callback was not run at all. *)
Lemma first_probe_decides callback later :
  test_safe_plugging callback (-1) = (if callback is Some true then 1 else 0)
  ∧ foldl (λ v c, test_safe_plugging c v) (-1) (callback :: later) = test_safe_plugging callback (-1).
Proof.
  split; [by destruct callback as [[]|]|]. simpl.
  assert (∀ v, v ≠ -1 → foldl (λ v c, test_safe_plugging c v) v later = v) as E.
  { intros v Hv. induction later as [|c later IH]; [done|]. simpl.
    assert (test_safe_plugging c v = v) as -> by (unfold test_safe_plugging; by rewrite (proj2 (Z.eqb_neq v (-1)))). done. }
  apply E. by destruct callback as [[]|].
Qed.
