(* ===== verification/KTsc.v ===== *)
(** * The time-stamp counter: fio/common/tsc.h, linux/ktypes.h

    Cycles between two reads of the processor's counter, and the narrowing of 64-bit
    numbers (ktypes.h) that such differences go through. *)
From S2P Require Import Prelude Bits.

(** The instruction leaves the counter in two registers of 32 bits. *)
Definition kfio_rdtsc (lo hi : Z) : Z := Z.lor (u32 lo) (u64 (Z.shiftl (u32 hi) 32)).

Record fio_tsc := mk_tsc { tsc_value : Z }.

Definition fio_tsc_now (lo hi : Z) : fio_tsc := mk_tsc (kfio_rdtsc lo hi).
Definition fio_tsc_diff (t1 t2 : fio_tsc) : Z :=
  let diff := s64 (u64 (tsc_value t2 - tsc_value t1)) in if diff >? 0 then u64 diff else 0.
Definition fio_tsc_diff_from_now (tsc1 : fio_tsc) (lo hi : Z) : Z := fio_tsc_diff tsc1 (fio_tsc_now lo hi).

(** The assertions of the two functions are empty. *)
Definition safe_u32 (v : Z) : Z := u32 v.
Definition safe_i32 (v : Z) : Z := s32 v.

(** The counter is put together as the processor has it. *)
Lemma rdtsc_value counter : in_u 64 counter → kfio_rdtsc (counter mod 2 ^ 32) (counter / 2 ^ 32) = counter.
Proof.
  intros C. unfold kfio_rdtsc. unfold in_u in C. change (2 ^ 64) with (2 ^ 32 * 2 ^ 32) in C.
  assert (0 <= counter mod 2 ^ 32 < 2 ^ 32) by (apply Z.mod_pos_bound; lia).
  assert (0 <= counter / 2 ^ 32 < 2 ^ 32) by (split; [apply Z.div_pos; lia|apply Z.div_lt_upper_bound; lia]).
  rewrite (wrapu_small 32 (counter mod 2 ^ 32)), (wrapu_small 32 (counter / 2 ^ 32)) by done.
  rewrite Z.shiftl_mul_pow2, wrapu_small by (try lia; unfold in_u; change (2 ^ 64) with (2 ^ 32 * 2 ^ 32); nia).
  rewrite Z.lor_comm, Z.mul_comm, lor_halves by (done || lia).
  rewrite (Z.div_mod counter (2 ^ 32)) at 3 by lia. lia.
Qed.

(** For [cycles] that have passed since the counter was [c], wherever it has started and
    even when it has wrapped around: less than half of its range is measured exactly, and
    more than half is taken for a counter that has gone back, and is reported as 0. *)
Lemma tsc_diff_exact c cycles :
  in_u 64 c → 0 <= cycles < 2 ^ 64 →
  fio_tsc_diff (mk_tsc c) (mk_tsc (u64 (c + cycles))) = if decide (cycles < 2 ^ 63) then cycles else 0.
Proof.
  intros C Hn. unfold fio_tsc_diff. simpl.
  assert (u64 (u64 (c + cycles) - c) = cycles) as ->.
  { unfold wrapu. rewrite Zminus_mod_idemp_l. replace (c + cycles - c) with cycles by lia. by apply Z.mod_small. }
  case_decide as Hd.
  - rewrite wraps_small by (try lia; unfold in_s; change (64 - 1) with 63; lia).
    rewrite Z.gtb_ltb. destruct (Z.ltb_spec 0 cycles); [apply wrapu_small; unfold in_u; lia|lia].
  - assert (s64 cycles <= 0) as Hle by word_lia. rewrite Z.gtb_ltb. destruct (Z.ltb_spec 0 (s64 cycles)); lia.
Qed.

(** A number that fits is kept; one that does not loses its upper half. *)
Lemma safe_narrowing v : in_u 64 v → (v < 2 ^ 32 → safe_u32 v = v) ∧ (v < 2 ^ 31 → safe_i32 v = v).
Proof. unfold safe_u32, safe_i32. intros V. split; intros Hv; [apply wrapu_small|apply wraps_small]; unfold in_u, in_s in *; lia. Qed.
Example unsafe_narrowing : safe_u32 (2 ^ 32) = 0 ∧ safe_i32 (2 ^ 31) = - 2 ^ 31.
Proof. done. Qed.
