(* ===== verification/KCpuThread.v ===== *)
(** * Threads and CPUs: kcpu.c

    Threads that are bound to a CPU or to the CPUs of a NUMA node, and the sections in
    which a thread stays on its CPU. *)
From stdpp Require Import gmap.
From S2P Require Import Prelude Kinfo KCommon Condvar KSpin.

(** ** Bound threads *)

Record task_struct := mk_task {
  task_comm : cstring;
  cpus_mask : gset Z;          (* where it may run *)
  nr_cpus_allowed : Z;
  woken : bool
}.

Definition cpumask_weight (mask : gset Z) : Z := Z.of_nat (size mask).

(** What the kernel keeps of every thread. *)
Definition task_ok (t : task_struct) : Prop := cpus_mask t ≠ ∅ ∧ nr_cpus_allowed t = cpumask_weight (cpus_mask t).

Definition __kfio_bind_task_to_cpumask (tsk : task_struct) (mask : gset Z) : task_struct :=
  mk_task (task_comm tsk) mask (cpumask_weight mask) (woken tsk).

Definition FIO_NUMA_NODE_NONE : Z := -1.

(** [cpumask_of_node] is the kernel's; a null pointer is [None]. *)
Definition kfio_bind_kthread_to_node (node : Z) (cpumask_of_node : Z → option (gset Z)) (current : task_struct) : task_struct :=
  if negb (node =? FIO_NUMA_NODE_NONE) then
    match cpumask_of_node node with
    | Some cpumask => if negb (cpumask_weight cpumask =? 0) then __kfio_bind_task_to_cpumask current cpumask else current
    | None => current
    end
  else current.

(** [name]: the whole text that the format stands for, of which the buffer takes 39
    characters; [task]: what [kthread_create] returns, a thread that is not running yet.
    [kthread_bind] and [wake_up_process] are the kernel's. *)
Definition kthread_bind (tsk : task_struct) (cpu : Z) : task_struct := mk_task (task_comm tsk) {[cpu]} 1 (woken tsk).
Definition wake_up_process (tsk : task_struct) : task_struct := mk_task (task_comm tsk) (cpus_mask tsk) (nr_cpus_allowed tsk) true.

Definition kfio_create_kthread_on_cpu (all : gset Z) (name : cstring) (task cpu : Z) : option task_struct * Z :=
  let buffer := take 39 name in
  if IS_ERR task then (None, s32 (PTR_ERR task))
  else
    let task := mk_task buffer all (cpumask_weight all) false in
    (Some (wake_up_process (kthread_bind task cpu)), 0).

(** A thread is started on its CPU alone, or an error is returned and there is none. *)
Lemma create_on_cpu_spec all name task cpu :
  in_u 64 task →
  match kfio_create_kthread_on_cpu all name task cpu with
  | (Some t, rc) => rc = 0 ∧ task < 2 ^ 64 - MAX_ERRNO ∧ task_ok t ∧ cpus_mask t = {[cpu]} ∧ woken t = true
                    ∧ (length (task_comm t) < 40)%nat
  | (None, rc) => rc = task - 2 ^ 64 ∧ - MAX_ERRNO <= rc < 0
  end.
Proof.
  intros T. unfold kfio_create_kthread_on_cpu, IS_ERR. rewrite wrapu_small by exact T.
  destruct (Z.leb_spec (2 ^ 64 - MAX_ERRNO) task).
  - assert (s32 (PTR_ERR task) = task - 2 ^ 64) as -> by (unfold PTR_ERR, MAX_ERRNO in *; word_lia).
    unfold in_u in T. lia.
  - unfold task_ok, wake_up_process, kthread_bind, cpumask_weight. cbn [cpus_mask nr_cpus_allowed woken task_comm].
    rewrite size_singleton, length_take. split_and!; try done. lia.
Qed.

(** Binding to a node leaves the thread somewhere to run, and does not move it to the
    CPUs of a node that has none. *)
Lemma bind_to_node_ok node cpumask_of_node t :
  task_ok t →
  let t' := kfio_bind_kthread_to_node node cpumask_of_node t in
  task_ok t' ∧ (t' = t ∨ node ≠ FIO_NUMA_NODE_NONE ∧ cpumask_of_node node = Some (cpus_mask t')).
Proof.
  intros Ht. unfold kfio_bind_kthread_to_node. destruct (Z.eqb_spec node FIO_NUMA_NODE_NONE); simpl; [auto|].
  destruct (cpumask_of_node node) as [m|] eqn:E; [|auto]. destruct (Z.eqb_spec (cpumask_weight m) 0) as [|Hw]; simpl; [auto|].
  split; [|by right]. split; [|done]. simpl. intros ->. by apply Hw.
Qed.

(** ** Staying on a CPU *)

Section cpu_sections.
Context `{IrqFlagsLaws}.
Implicit Types (irqs : bool).

(** [irqs]: whether interrupts are enabled.  The saved word, the state, the CPU. *)
Definition kfio_get_cpu irqs (smp_processor_id : Z) : Z * bool * Z := (irq_word irqs, false, smp_processor_id).
Definition kfio_put_cpu (flags : Z) : bool := irq_enabled flags.

(** Sections within sections, each with flags of its own: the states of the innermost
    [depth] of them, and the state behind the outermost. *)
Fixpoint nested (depth : nat) irqs (cpu : Z) : list bool * bool :=
  match depth with
  | O => ([], irqs)
  | S depth =>
      let '(flags, irqs, _) := kfio_get_cpu irqs cpu in
      let '(inner, _) := nested depth irqs cpu in
      (irqs :: inner, kfio_put_cpu flags)
  end.

(** Interrupts are off in every section, and behind them as they were. *)
Lemma sections_nest depth irqs cpu : nested depth irqs cpu = (replicate depth false, irqs).
Proof.
  revert irqs. induction depth as [|n IH]; intros irqs; [done|]. simpl. rewrite IH. unfold kfio_put_cpu. by rewrite irq_restore.
Qed.
End cpu_sections.
