(* ===== verification/KPciIrq.v ===== *)
(** * Interrupts of a PCI device: pci.c

    The handlers of the vectors of an MSI-X table, and the handler of the device's own
    line, which devices share ([Legacy]).  KPci has how the table is filled. *)
From stdpp Require Import gmap.
From S2P Require Import Prelude Kinfo KPci.

(** The handlers that the kernel has: for each vector the name and the cookie of its
    owner.  A vector is not shared. *)
Abbreviation irq_table := (gmap Z (cstring * positive)).
Implicit Types (msi : list (Z * Z)) (s : irq_table) (vector : nat) (dev_id : positive).

(** The kernel's functions.  [answer]: what [request_irq] returns when the vector is
    free; freeing what is not there does nothing but warn; disabling a table with
    handlers stops the kernel. *)
Definition request_irq (irq : Z) (name : cstring) dev_id (answer : Z) s : Z * irq_table :=
  if bool_decide (is_Some (s !! irq)) then (- EBUSY, s)
  else if answer =? 0 then (0, <[irq := (name, dev_id)]> s) else (answer, s).
Definition free_irq (irq : Z) dev_id s : irq_table :=
  match s !! irq with Some (_, d) => if bool_decide (d = dev_id) then delete irq s else s | None => s end.
Definition pci_disable_msix msi s : outcome unit :=
  if bool_decide (Forall (λ e, s !! e.1 = None) msi) then Ok tt else Fault AssertFail.

Definition kfio_request_msix (devname : cstring) dev_id msi vector (answer : Z) s : outcome (Z * irq_table) :=
  e ← of_option OutOfBounds (msi !! vector); Ok (request_irq e.1 devname dev_id answer s).
Definition kfio_free_msix msi vector dev_id s : outcome irq_table :=
  e ← of_option OutOfBounds (msi !! vector); Ok (free_irq e.1 dev_id s).
(** The result, and what is stored through [irq]. *)
Definition kfio_get_msix_number msi (vec_ix : nat) : outcome (Z * Z) :=
  e ← of_option OutOfBounds (msi !! vec_ix); Ok (0, e.1).
Definition kfio_pci_disable_msix msi s : outcome unit := pci_disable_msix msi s.

(** The core's handler is called with the vector and the cookie. *)
Definition kfio_hq_irq {A} (iodrive_hq_intr : Z → positive → A) (irq : Z) dev_id : A := iodrive_hq_intr irq dev_id.
Definition deliver {A} (iodrive_hq_intr : Z → positive → A) (irq : Z) s : option A :=
  (λ h, kfio_hq_irq iodrive_hq_intr irq h.2) <$> s !! irq.

(** ** All vectors of a device *)

(** A caller that requests the vectors one after the other and stops at the first
    failure, and one that frees those it has. *)
Fixpoint request_all (devname : cstring) dev_id msi (answers : list Z) (from : nat) s : outcome (nat * Z * irq_table) :=
  match answers with
  | [] => Ok (from, 0, s)
  | a :: answers =>
      '(rc, s) ← kfio_request_msix devname dev_id msi from a s;
      if rc =? 0 then request_all devname dev_id msi answers (S from) s else Ok (from, rc, s)
  end.
Fixpoint free_all msi dev_id (n : nat) s : outcome irq_table :=
  match n with O => Ok s | S n => s ← kfio_free_msix msi n dev_id s; free_all msi dev_id n s end.

(** What is requested can be freed, and the table is as before; other vectors are not
    touched. *)
Lemma request_free devname dev_id msi vector answer s rc s' :
  kfio_request_msix devname dev_id msi vector answer s = Ok (rc, s') →
  (rc ≠ 0 ∧ s' = s) ∨
  (rc = 0 ∧ kfio_free_msix msi vector dev_id s' = Ok s ∧ ∃ e, msi !! vector = Some e ∧ s !! e.1 = None ∧ s' = <[e.1 := (devname, dev_id)]> s).
Proof.
  unfold kfio_request_msix, kfio_free_msix, request_irq, free_irq. destruct (msi !! vector) as [e|]; [|done]. simpl.
  intros [= E]. case_bool_decide as Hs; [injection E as <- <-; by left|]. apply eq_None_not_Some in Hs.
  destruct (Z.eqb_spec answer 0); injection E as <- <-; [right|by left]. split; [done|].
  rewrite lookup_insert_eq, bool_decide_eq_true_2, delete_insert_id by done. split; [done|]. by exists e.
Qed.

(** Whatever the kernel answers to the requests, freeing those that succeeded restores
    the table. *)
Lemma free_all_restores devname dev_id msi answers : ∀ from s n rc s',
  request_all devname dev_id msi answers from s = Ok (n, rc, s') →
  (from <= n)%nat ∧ ∀ f0 s0, (∀ t, free_all msi dev_id from t = f0 t) → f0 s = Ok s0 → free_all msi dev_id n s' = Ok s0.
Proof.
  induction answers as [|a answers IH]; intros from s n rc s'; simpl.
  { intros [= <- <- <-]. split; [lia|]. intros f0 s0 Hf E. by rewrite Hf. }
  destruct (kfio_request_msix _ _ _ _ _ _) as [[r s1]|] eqn:E1; [|done]. simpl.
  destruct (request_free _ _ _ _ _ _ _ _ E1) as [[Hr ->]|(-> & Hfree & _)].
  - rewrite (proj2 (Z.eqb_neq r 0) Hr). intros [= <- <- <-]. split; [lia|]. intros f0 s0 Hf E. by rewrite Hf.
  - intros E. destruct (IH _ _ _ _ _ E) as [Hle Hall]. split; [lia|]. intros f0 s0 Hf E0.
    apply (Hall (free_all msi dev_id (S from)) s0); [done|]. simpl. rewrite Hfree. simpl. by rewrite Hf.
Qed.

Lemma request_all_count devname dev_id msi answers : ∀ from s n rc s',
  request_all devname dev_id msi answers from s = Ok (n, rc, s') → rc = 0 → n = (from + length answers)%nat.
Proof.
  induction answers as [|a l IH]; intros from s n rc s'; simpl; [intros [= <- <- <-]; lia|].
  destruct (kfio_request_msix _ _ _ _ _ _) as [[r s1]|]; [|done]. simpl. destruct (Z.eqb_spec r 0).
  - intros E ?. rewrite (IH _ _ _ _ _ E) by done. lia.
  - intros [= <- <- <-]. done.
Qed.

Lemma request_all_owns devname dev_id msi answers : ∀ from s n rc s',
  request_all devname dev_id msi answers from s = Ok (n, rc, s') →
  (∀ k x, s !! k = Some x → s' !! k = Some x) ∧
  ∀ i e, (from <= i < n)%nat → msi !! i = Some e → s' !! e.1 = Some (devname, dev_id).
Proof.
  induction answers as [|a l IH]; intros from s n rc s'; simpl; [intros [= <- <- <-]; split; [done|lia]|].
  destruct (kfio_request_msix _ _ _ _ _ _) as [[r s1]|] eqn:E1; [|done]. simpl.
  destruct (request_free _ _ _ _ _ _ _ _ E1) as [[Hr ->]|(-> & _ & e & He & Hs & ->)].
  - rewrite (proj2 (Z.eqb_neq r 0) Hr). intros [= <- <- <-]. split; [done|lia].
  - intros E. destruct (IH _ _ _ _ _ E) as [Hkeep Hown]. split.
    + intros k x Hk. apply Hkeep. rewrite lookup_insert_ne by congruence. done.
    + intros i e' Hi He'. destruct (decide (i = from)) as [->|]; [|apply (Hown i); [lia|done]].
      simplify_eq. apply Hkeep. by rewrite lookup_insert_eq.
Qed.

(** The vectors of a device that has none yet: its own handler gets the interrupts of
    those that were requested; whether or not a request fails, freeing those that succeeded
    restores the table, which can then be disabled. *)
Lemma msix_lifecycle {A} (intr : Z → positive → A) devname dev_id msi answers s n rc s' :
  Forall (λ e, s !! e.1 = None) msi → request_all devname dev_id msi answers 0 s = Ok (n, rc, s') →
  (rc = 0 → n = length answers) ∧ free_all msi dev_id n s' = Ok s ∧ kfio_pci_disable_msix msi s = Ok tt
  ∧ ∀ i v, (i < n)%nat → kfio_get_msix_number msi i = Ok (0, v) → deliver intr v s' = Some (intr v dev_id).
Proof.
  intros Hnone E. split_and!.
  - by apply (request_all_count _ _ _ _ _ _ _ _ _ E).
  - by apply (proj2 (free_all_restores _ _ _ _ _ _ _ _ _ E) Ok).
  - unfold kfio_pci_disable_msix, pci_disable_msix. by rewrite bool_decide_eq_true_2.
  - intros i v Hi. unfold kfio_get_msix_number, deliver. destruct (msi !! i) as [e|] eqn:Ee; [|done]. simpl. intros [= <-].
    by rewrite (proj2 (request_all_owns _ _ _ _ _ _ _ _ _ E) i e) by (done || lia).
Qed.

(** A table with a handler cannot be disabled. *)
Example disabled_too_early : kfio_pci_disable_msix [(40, 0)] {[40 := ([102], 1%positive)]} = Fault AssertFail.
Proof. by vm_compute. Qed.

(** ** The interrupt of the device itself *)

(** A line that devices may share has a list of handlers.  A handler gives what it does,
    a list of events, and its answer. *)
Module Legacy.
Section device.
Context {E : Type}.
Abbreviation irq_handler := (Z → positive → list E * Z).
Record irqaction := mk_action { act_handler : irq_handler; act_name : cstring; act_dev : positive; act_shared : bool }.
Abbreviation lines := (gmap Z (list irqaction)).
Definition on_line (irq : Z) (l : lines) : list irqaction := default [] (l !! irq).

Definition FIO_IRQ_NONE : Z := 0.
Definition FIO_IRQ_HANDLED : Z := 1.

(** The kernel's functions.  A new handler comes last; a line is shared when all its
    handlers agree; the first handler with the cookie is freed.  At an interrupt every
    handler is called, and the answers are combined. *)
Definition request_irq (a : irqaction) (irq answer : Z) (l : lines) : Z * lines :=
  if negb (forallb act_shared (on_line irq l) && (act_shared a || bool_decide (on_line irq l = []))) then (- EBUSY, l)
  else if answer =? 0 then (0, <[irq := on_line irq l ++ [a]]> l) else (answer, l).
Fixpoint drop_action dev_id (acts : list irqaction) : list irqaction :=
  match acts with [] => [] | a :: acts => if bool_decide (act_dev a = dev_id) then acts else a :: drop_action dev_id acts end.
Definition free_irq (irq : Z) dev_id (l : lines) : lines := <[irq := drop_action dev_id (on_line irq l)]> l.
Fixpoint call_actions (irq : Z) (acts : list irqaction) : list E * Z :=
  match acts with
  | [] => ([], FIO_IRQ_NONE)
  | a :: acts =>
      let '(done, rc) := act_handler a irq (act_dev a) in
      let '(later, r) := call_actions irq acts in (done ++ later, Z.lor rc r)
  end.
Definition handle_irq (irq : Z) (l : lines) : list E * Z := call_actions irq (on_line irq l).

Context (iodrive_intr_fast : irq_handler).

(** What the core answers is dropped. *)
Definition kfio_handle_irq_wrapper : irq_handler := λ irq dev_id, let '(done, _) := iodrive_intr_fast irq dev_id in (done, FIO_IRQ_HANDLED).

(** [irqn]: the line in the device's structure. *)
Definition kfio_request_irq (irqn : Z) (devname : cstring) dev_id (msi_enabled answer : Z) (l : lines) : Z * lines :=
  request_irq (mk_action kfio_handle_irq_wrapper devname dev_id true) irqn answer l.
Definition kfio_free_irq (irqn : Z) (dev : positive) (l : lines) : lines := free_irq irqn dev l.
Definition kfio_get_irq_number (irqn : Z) : Z * Z := (0, u32 irqn).

Lemma drop_last_action a acts :
  Forall (λ b, act_dev b ≠ act_dev a) acts → drop_action (act_dev a) (acts ++ [a]) = acts.
Proof.
  induction 1 as [|b acts N _ IH]; cbn; [by rewrite bool_decide_eq_true_2|]. by rewrite bool_decide_eq_false_2, IH by done.
Qed.

Lemma call_actions_app irq acts1 acts2 :
  call_actions irq (acts1 ++ acts2)
  = ((call_actions irq acts1).1 ++ (call_actions irq acts2).1, Z.lor (call_actions irq acts1).2 (call_actions irq acts2).2).
Proof.
  induction acts1 as [|a acts1 IH]; cbn; [by destruct (call_actions irq acts2)|].
  rewrite IH. destruct (act_handler a irq (act_dev a)), (call_actions irq acts1). cbn. by rewrite (assoc_L (++)), Z.lor_assoc.
Qed.

(** A request changes nothing or puts the driver's handler behind those of the line.
    Other lines and the handlers of other devices on it stay.  From then on every
    interrupt of the line also reaches the core, with the driver's cookie, and counts as
    handled, whatever the core says; and freeing the
    handler gives the line back as it was, when the cookie is not used twice. *)
Theorem legacy_irq_lifecycle irqn devname dev_id msi_enabled answer l rc l' :
  kfio_request_irq irqn devname dev_id msi_enabled answer l = (rc, l') →
  (rc ≠ 0 ∧ l' = l) ∨
  (rc = 0
   ∧ (∀ irq, irq ≠ irqn → on_line irq l' = on_line irq l)
   ∧ (∃ a, on_line irqn l' = on_line irqn l ++ [a] ∧ act_dev a = dev_id)
   ∧ (handle_irq irqn l').1 = (handle_irq irqn l).1 ++ (iodrive_intr_fast irqn dev_id).1
   ∧ Z.testbit (handle_irq irqn l').2 0 = true
   ∧ (Forall (λ b, act_dev b ≠ dev_id) (on_line irqn l) → ∀ irq, on_line irq (kfio_free_irq irqn dev_id l') = on_line irq l)).
Proof.
  unfold kfio_request_irq, request_irq. case_match; [intros [= <- <-]; by left|].
  destruct (Z.eqb_spec answer 0); intros [= <- <-]; [right|by left].
  set (a := mk_action _ _ _ _). split; [done|].
  assert (∀ acts, on_line irqn (<[irqn := acts]> l) = acts) as Own by (intros acts; unfold on_line; by rewrite lookup_insert_eq).
  split; [intros irq N; unfold on_line; by rewrite lookup_insert_ne|]. split; [exists a; by rewrite Own|].
  assert (call_actions irqn [a] = ((iodrive_intr_fast irqn dev_id).1, FIO_IRQ_HANDLED)) as Ea.
  { cbn. unfold kfio_handle_irq_wrapper. destruct (iodrive_intr_fast irqn dev_id). cbn. by rewrite app_nil_r. }
  unfold handle_irq. rewrite Own, call_actions_app, Ea. split; [done|]. split.
  - cbn [snd]. rewrite Z.lor_spec. apply orb_true_r.
  - intros F irq. unfold kfio_free_irq, free_irq. rewrite Own, (drop_last_action a) by done. rewrite insert_insert_eq.
    destruct (decide (irq = irqn)) as [->|N]; [by rewrite Own|]. unfold on_line. by rewrite lookup_insert_ne.
Qed.
End device.

(** A line whose handler does not share it refuses the driver's. *)
Example unshared_line : 
  (kfio_request_irq (E := unit) (λ _ _, ([], 0)) 11 [102] 2%positive 0 0 {[11 := [mk_action (λ _ _, ([], 1)) [103] 1%positive false]]}).1 = - EBUSY.
Proof. by vm_compute. Qed.
End Legacy.
