(* ===== verification/KWork.v ===== *)
(** * Work items: sched.c

    Functions that the kernel is to call later, once or after a delay.  An item is a
    piece of its owner's memory; the kernel keeps a reference to it from the time it
    is scheduled to the time its function is called. *)
From stdpp Require Import gmap.
From S2P Require Import Prelude KTime.

(** [struct work_struct] and [struct delayed_work]: the second has a timer. *)
Record work := mk_work { work_func : positive; has_timer : bool }.

(** What is seen from outside: an item is taken into the queue with the tick from which
    it may run, or it runs. *)
Inductive work_event := Queued (i : positive) (now due : Z) | Ran (i : positive) (func : positive) (now : Z).

(** [w_memory]: the items whose memory is set up.  [w_queue]: the kernel's references. *)
Record workqueue := mk_wq {
  w_memory : gmap positive work;
  w_queue : gmap positive Z;
  jiffies : Z;
  w_log : list work_event
}.

(** ** What the kernel promises *)

(** The kernel's functions: setting an item up, scheduling it now or after a number of
    ticks, a worker that looks after an item, the clock, and the owner's memory given
    back. *)
Class WorkQueue (Q : Type) := {
  init_work : positive → positive → bool → Q → outcome Q;
  schedule_work : positive → Q → outcome Q;
  schedule_delayed_work : positive → Z → Q → outcome Q;
  run_work : positive → Q → outcome Q;
  next_tick : Q → outcome Q;
  free_work : positive → Q → outcome Q
}.

(** Setting up an item that is in the queue cuts the queue; an item that waits already
    is left alone; one leaves the queue before its function is called, so that the
    function may schedule it again. *)
Definition enqueue (i : positive) (delay : Z) (q : workqueue) : workqueue :=
  if bool_decide (is_Some (w_queue q !! i)) then q
  else mk_wq (w_memory q) (<[i := jiffies q + delay]> (w_queue q)) (jiffies q) (w_log q ++ [Queued i (jiffies q) (jiffies q + delay)]).
#[export] Instance promised : WorkQueue workqueue := {
  init_work i func timer q :=
    if bool_decide (is_Some (w_queue q !! i)) then Fault BadPointer
    else Ok (mk_wq (<[i := mk_work func timer]> (w_memory q)) (w_queue q) (jiffies q) (w_log q));
  schedule_work i q := _ ← of_option BadPointer (w_memory q !! i); Ok (enqueue i 0 q);
  schedule_delayed_work i delay q :=
    w ← of_option BadPointer (w_memory q !! i); if has_timer w then Ok (enqueue i delay q) else Fault AssertFail;
  run_work i q :=
    match w_queue q !! i with
    | Some due =>
        if due <=? jiffies q then
          w ← of_option BadPointer (w_memory q !! i);
          Ok (mk_wq (w_memory q) (delete i (w_queue q)) (jiffies q) (w_log q ++ [Ran i (work_func w) (jiffies q)]))
        else Ok q
    | None => Ok q
    end;
  next_tick q := Ok (mk_wq (w_memory q) (w_queue q) (jiffies q + 1) (w_log q));
  free_work i q := Ok (mk_wq (delete i (w_memory q)) (w_queue q) (jiffies q) (w_log q))
}.

Definition seen {Q} (view : Q → workqueue) (o : outcome Q) : outcome workqueue :=
  match o with Ok q => Ok (view q) | Fault f => Fault f end.

(** A queue of the kernel, seen through [view], does as promised. *)
Class WorkQueueLaws (Q : Type) `{WorkQueue Q} (view : Q → workqueue) : Prop := {
  init_work_spec i func timer q : seen view (init_work i func timer q) = init_work i func timer (view q);
  schedule_work_spec i q : seen view (schedule_work i q) = schedule_work i (view q);
  schedule_delayed_work_spec i delay q : seen view (schedule_delayed_work i delay q) = schedule_delayed_work i delay (view q);
  run_work_spec i q : seen view (run_work i q) = run_work i (view q);
  next_tick_spec q : seen view (next_tick q) = next_tick (view q);
  free_work_spec i q : seen view (free_work i q) = free_work i (view q)
}.

(** ** The driver's functions *)

Section work.
Context `{Clock} {Q : Type} `{WorkQueue Q}.
Implicit Types (i : positive) (q : Q).

Definition fusion_init_work i func q := init_work i func false q.
Definition fusion_setup_dpc i func q := init_work i func false q.
Definition fusion_init_delayed_work i func q := init_work i func true q.
Definition fusion_setup_delayed_dpc i func q := init_work i func true q.
Definition fusion_schedule_work i q := schedule_work i q.
Definition fusion_schedule_dpc i q := fusion_schedule_work i q.
Definition fusion_schedule_delayed_work i (sleep_time : Z) q := schedule_delayed_work i (fusion_usectohz sleep_time) q.
Definition fusion_destroy_work i q : outcome Q := Ok q.
Definition fusion_destroy_delayed_work i q : outcome Q := Ok q.

Inductive work_op :=
| InitWork i (func : positive) | InitDelayedWork i (func : positive)
| ScheduleWork i | ScheduleDelayedWork i (sleep_time : Z)
| DestroyWork i | DestroyDelayedWork i | FreeWork i
| RunWork i | NextTick.

Definition work_step (o : work_op) q : outcome Q :=
  match o with
  | InitWork i func => fusion_init_work i func q
  | InitDelayedWork i func => fusion_init_delayed_work i func q
  | ScheduleWork i => fusion_schedule_work i q
  | ScheduleDelayedWork i t => fusion_schedule_delayed_work i t q
  | DestroyWork i => fusion_destroy_work i q
  | DestroyDelayedWork i => fusion_destroy_delayed_work i q
  | FreeWork i => free_work i q
  | RunWork i => run_work i q
  | NextTick => next_tick q
  end.
Fixpoint work_steps (os : list work_op) q : outcome Q :=
  match os with [] => Ok q | o :: os => q ← work_step o q; work_steps os q end.

End work.

Definition no_work (now : Z) : workqueue := mk_wq ∅ ∅ now [].

(** ** What an item goes through *)

(** A log read for one item: idle, or waiting for a tick.  It is refused when the item
    is queued twice without a run, runs without being queued, or runs too early. *)
Definition read_event (i : positive) (st : option (option Z)) (e : work_event) : option (option Z) :=
  match st, e with
  | Some st, Queued j _ due => if decide (j = i) then if st is None then Some (Some due) else None else Some st
  | Some st, Ran j _ now =>
      if decide (j = i) then if st is Some due then if due <=? now then Some None else None else None else Some st
  | None, _ => None
  end.
Definition read_log (i : positive) (l : list work_event) : option (option Z) := foldl (read_event i) (Some None) l.

Section runs.
Context `{ClockLaws}.
Implicit Types (i : positive) (q : workqueue).

Definition work_inv q : Prop := ∀ i, read_log i (w_log q) = Some (w_queue q !! i).

Lemma read_log_snoc i l e : read_log i (l ++ [e]) = read_event i (read_log i l) e.
Proof. unfold read_log. by rewrite foldl_app. Qed.

Lemma enqueue_inv i d q : work_inv q → work_inv (enqueue i d q).
Proof.
  intros W. unfold enqueue. case_bool_decide as N; [done|]. apply eq_None_not_Some in N. intros j. cbn [w_log w_queue]. rewrite read_log_snoc, W. cbn.
  case_decide as E; [subst j; by rewrite N, lookup_insert_eq|by rewrite lookup_insert_ne].
Qed.

Lemma work_step_inv o q q' : work_inv q → work_step o q = Ok q' → work_inv q'.
Proof.
  intros W. destruct o as [i f|i f|i|i t|i|i|i|i|]; cbn.
  1, 2: unfold fusion_init_work, fusion_init_delayed_work, init_work; case_bool_decide; [done|by intros [= <-]].
  - unfold fusion_schedule_work, schedule_work. destruct (w_memory q !! i); [|done]. intros [= <-]. by apply enqueue_inv.
  - unfold fusion_schedule_delayed_work, schedule_delayed_work. destruct (w_memory q !! i) as [[f []]|]; try done. intros [= <-]. by apply enqueue_inv.
  - by intros [= <-].
  - by intros [= <-].
  - by intros [= <-].
  - unfold run_work. destruct (w_queue q !! i) as [due|] eqn:E; [|by intros [= <-]]. destruct (due <=? jiffies q) eqn:L; [|by intros [= <-]].
    destruct (w_memory q !! i) as [w|]; [|done]. intros [= <-] j. cbn [w_log w_queue]. rewrite read_log_snoc, W. cbn.
    case_decide as N; [subst j; by rewrite E, L, lookup_delete_eq|by rewrite lookup_delete_ne].
  - by intros [= <-].
Qed.

Lemma work_steps_inv os q q' : work_inv q → work_steps os q = Ok q' → work_inv q'.
Proof.
  revert q. induction os as [|o os IH]; intros q W; cbn; [by intros [= <-]|].
  destruct (work_step o q) as [q1|] eqn:E; [|done]. apply IH. by eapply work_step_inv.
Qed.

Lemma ticks_pass n q : work_steps (replicate n NextTick) q = Ok (mk_wq (w_memory q) (w_queue q) (jiffies q + Z.of_nat n) (w_log q)).
Proof.
  revert q. induction n as [|n IH]; intros q; cbn; [destruct q; cbn; by rewrite Z.add_0_r|]. rewrite IH. cbn. do 2 f_equal. lia.
Qed.

Lemma work_steps_app os1 os2 q : work_steps (os1 ++ os2) q = (q ← work_steps os1 q; work_steps os2 q).
Proof. revert q. induction os1 as [|o os1 IH]; intros q; cbn; [done|]. destruct (work_step o q); [apply IH|done]. Qed.

(** When its tick has come, an item runs if its memory is still there; otherwise the
    kernel follows its reference into memory that was given back. *)
Lemma run_when_due i q due :
  w_queue q !! i = Some due → jiffies q <= due →
  work_steps (replicate (Z.to_nat (due - jiffies q)) NextTick ++ [RunWork i]) q
  = match w_memory q !! i with
    | Some w => Ok (mk_wq (w_memory q) (delete i (w_queue q)) due (w_log q ++ [Ran i (work_func w) due]))
    | None => Fault BadPointer
    end.
Proof.
  intros E L. rewrite work_steps_app, ticks_pass. cbn. rewrite E.
  replace (jiffies q + Z.of_nat (Z.to_nat (due - jiffies q))) with due by lia. rewrite Z.leb_refl. by destruct (w_memory q !! i).
Qed.

(** The same functions over a queue of the kernel and over what is promised. *)
Section kernel.
Context `{WorkQueueLaws Q view}.

Lemma work_steps_seen os (q : Q) : seen view (work_steps os q) = work_steps os (view q).
Proof.
  revert q. induction os as [|o os IH]; intros q; [done|]. cbn [work_steps].
  assert (seen view (work_step o q) = work_step o (view q)) as E.
  { destruct o; cbn [work_step]; unfold fusion_init_work, fusion_init_delayed_work, fusion_schedule_work, fusion_schedule_delayed_work; try done;
      first [apply init_work_spec|apply schedule_work_spec|apply schedule_delayed_work_spec|apply free_work_spec|apply run_work_spec|apply next_tick_spec]. }
  rewrite <- E. destruct (work_step o q) as [q1|]; [apply IH|done].
Qed.

(** Whatever is done with the items, the log of each alternates between its being
    scheduled and its running, never before its tick, and ends with it waiting
    exactly when the kernel still has it: no run is lost, and a second request before
    the run is none.  An idle item that is scheduled with a delay gets the first tick
    that is not too early, and then runs its function. *)
Theorem work_runs_once os now (q0 q : Q) :
  view q0 = no_work now → work_steps os q0 = Ok q →
  (∀ i, read_log i (w_log (view q)) = Some (w_queue (view q) !! i))
  ∧ ∀ i w sleep_time,
      w_memory (view q) !! i = Some w → has_timer w = true → w_queue (view q) !! i = None → 0 <= sleep_time <= limit →
      ∃ due, let delay := due - jiffies (view q) in
        sleep_time <= fusion_hztousec delay < sleep_time + tick ∧ 0 <= delay
        ∧ seen view (work_steps (ScheduleDelayedWork i sleep_time :: replicate (Z.to_nat delay) NextTick ++ [RunWork i]) q)
          = Ok (mk_wq (w_memory (view q)) (w_queue (view q)) due
                  (w_log (view q) ++ [Queued i (jiffies (view q)) due; Ran i (work_func w) due])).
Proof.
  intros E0 E. split.
  { apply (work_steps_inv os (no_work now)); [done|]. by rewrite <- E0, <- work_steps_seen, E. }
  intros i w u Ew Et Eq U. exists (jiffies (view q) + fusion_usectohz u). cbv zeta. rewrite Z.add_simpl_l.
  pose proof (hztousec_covers u U) as [C P]. split; [done|]. split; [done|].
  rewrite work_steps_seen. generalize dependent (view q). clear E. intros v Ew Eq. cbn [work_steps work_step].
  unfold fusion_schedule_delayed_work, enqueue. cbn [schedule_delayed_work promised]. rewrite Ew. cbn [mbind outcome_bind of_option]. rewrite Et.
  unfold enqueue. rewrite Eq, bool_decide_eq_false_2 by (by intros []). cbn [mbind outcome_bind].
  set (q1 := mk_wq _ _ _ _). pose proof (run_when_due i q1 (jiffies v + fusion_usectohz u)) as R.
  change (jiffies q1) with (jiffies v) in R. rewrite Z.add_simpl_l in R. rewrite R by (unfold q1; cbn; rewrite ?lookup_insert_eq; done || lia).
  unfold q1. cbn. rewrite Ew, delete_insert_id by done. by rewrite <- (assoc_L (++)).
Qed.

(** Destroying an item does not take it out of the queue: it runs all the same when its
    tick has come, and when its owner has freed it by then, on freed memory. *)
Theorem destroyed_work_runs i (q : Q) due (w : work) :
  w_queue (view q) !! i = Some due → w_memory (view q) !! i = Some w → jiffies (view q) <= due →
  let run := replicate (Z.to_nat (due - jiffies (view q))) NextTick ++ [RunWork i] in
  work_steps (DestroyWork i :: run) q = work_steps run q
  ∧ work_steps (DestroyDelayedWork i :: run) q = work_steps run q
  ∧ (∃ q' : Q, work_steps run q = Ok q' ∧ w_log (view q') = w_log (view q) ++ [Ran i (work_func w) due])
  ∧ work_steps (DestroyDelayedWork i :: FreeWork i :: run) q = Fault BadPointer.
Proof.
  intros E M L run. split; [done|]. split; [done|]. split.
  - pose proof (work_steps_seen run q) as S. unfold run in S at 2. rewrite run_when_due, M in S by done.
    destruct (work_steps run q) as [q'|]; [|done]. exists q'. split; [done|]. by injection S as ->.
  - pose proof (work_steps_seen (DestroyDelayedWork i :: FreeWork i :: run) q) as S. cbn [work_steps work_step] in S.
    unfold fusion_destroy_delayed_work in S. cbn [mbind outcome_bind free_work promised] in S. set (q1 := mk_wq _ _ _ _) in S.
    unfold run in S at 2. change (jiffies (view q)) with (jiffies q1) in S. rewrite run_when_due in S by done.
    assert (w_memory q1 !! i = None) as Eq by apply lookup_delete_eq. rewrite Eq in S. cbn [work_steps work_step].
    unfold fusion_destroy_delayed_work. cbn [mbind outcome_bind]. by destruct (free_work i q ≫= _); simplify_eq/=.
Qed.
End kernel.
End runs.

(** ** A queue *)

Lemma promised_laws : WorkQueueLaws workqueue id.
Proof. split; intros; unfold seen, id; repeat case_match; simplify_eq; done. Qed.

Definition work_ops : list work_op :=
  [InitWork 1 7; InitDelayedWork 2 8; ScheduleWork 1; ScheduleWork 1; ScheduleDelayedWork 2 5000; RunWork 2; RunWork 1; NextTick; RunWork 2;
   NextTick; RunWork 2; RunWork 2].

(** At 250 ticks a second, 5 ms are two ticks. *)
Example work_log :
  (w_log <$> work_steps (H := clock_250) work_ops (no_work 100))
  = Ok [Queued 1 100 100; Queued 2 100 102; Ran 1 7 100; Ran 2 8 102].
Proof. by vm_compute. Qed.

Lemma work_runs_once_witness :
  ∀ i, read_log i [Queued 1 100 100; Queued 2 100 102; Ran 1 7 100; Ran 2 8 102] = Some None.
Proof.
  destruct (work_steps (H := clock_250) work_ops (no_work 100)) as [q|] eqn:E; [|by vm_compute in E].
  destruct (work_runs_once (H := clock_250) (H0 := clock_250_laws) (H2 := promised_laws) work_ops 100 (no_work 100) q eq_refl E) as [W _].
  intros i. specialize (W i). vm_compute in E. injection E as <-. refine (eq_trans W _). by destruct i.
Defined.

Lemma destroyed_work_runs_witness :
  work_steps (H := clock_250) [DestroyDelayedWork 1; FreeWork 1; NextTick; NextTick; RunWork 1]
    (mk_wq {[1%positive := mk_work 7 true]} {[1%positive := 12]} 10 []) = Fault BadPointer.
Proof.
  exact (proj2 (proj2 (proj2 (destroyed_work_runs (H := clock_250) (H2 := promised_laws) 1
    (mk_wq {[1%positive := mk_work 7 true]} {[1%positive := 12]} 10 []) 12 (mk_work 7 true) eq_refl eq_refl ltac:(done))))).
Defined.
